(* ===== verification/_CoqProject ===== *)
-Q . S2P
Prelude.v
Crc.v
RbTree.v
Blib.v
BlibSpec.v
BlibAccess.v
BlibContract.v
BlibRefine.v
FatDate.v
FatStore.v
FatTable.v
FatTableSpec.v
FatChain.v
FatFile.v
FatDentry.v
FatNode.v
FatNodeSpec.v
FatNodeOps.v
FatNodeCheck.v
FatDir.v
FatDirSpec.v
FatDirOps.v
FatWrite.v
FatInit.v
FatFs.v
FatFo.v
FatExample.v
FatTheorems.v
FatOpen.v
FatLookup.v
FatFds.v
CStr.v
NwAddr.v
NwAddrSpec.v
NwStruct.v
NwConf.v
NwRules.v
NwConfSpec.v
NwRulesSpec.v
NwCmd.v
NwCmdSpec.v
Flash.v
FlashList.v
FlashSpec.v
FlashInit.v
QcaFlash.v
QcaFlashSpec.v
NwFlash.v
IoSys.v
IoSysSpec.v
Disk.v
DiskSpec.v
DiskTheorems.v
DiskInv.v
SynthDisk.v
SynthDiskSpec.v
Serial.v
SerialSpec.v
SerialOps.v
SerialWrite.v
SerialRead.v
SerialConf.v
SerialRun.v
SerialWake.v
SerialFlow.v
SerialPeer.v
SerialLoop.v
SerialLoopSpec.v
SerialTheorems.v
SerialFlaws.v
QcaSerial.v
QcaSerialSpec.v
QcaSerialTheorems.v
Tty.v
TtySpec.v
FlashIo.v
FlashIoSpec.v
