(* ===== verification/Prelude.v ===== *)
(** * Verification of the eCos core of the QCA9531 access point

    The repository is the source tree of eCos with the application of an access
    point on top. This library models four parts of it and proves them correct. The
    storage side of eCos (src/ecos/packages): the FAT file system from its fileio
    operations down to the bytes of the disk, the block cache under it, the
    red-black tree that cache searches, the I/O system and the disk layer that lead
    from the cache to a partition of a disk, with one driver, and the CRC services. The configuration of
    the access point: its structures, the way they are kept in flash, the tests and
    computations on addresses, the table of firewall rules and the commands of the
    shell that change all this. And what lies between the two and the hardware of the
    board: the flash package and the driver of the QCA953x. The serial lines: the layer
    between the threads that use a line and its interrupts, with the loop driver and the
    console of the board under it.

    Parts and interactions. A file operation (fatfs.c) finds a node in the node
    cache (fatfs_ncache.c) or a directory entry on the disk (fatfs_supp.c), and
    reads or writes data along a chain of the allocation table (fatfs_supp.c).
    All access to the disk goes through the block library (blib.c), which holds
    recent blocks in a list and in a red-black tree (compat/linux rbtree.c) and
    calls the device. Each layer is proved against the interface of the one below:
    - [BlibSpec.BlockDevice] states what the cache asks of a device, in particular that
      it answers every request, with an error or not. A partition of a disk does not
      keep that promise once a request has failed: disk.c leaves its controller busy,
      and the next request waits for ever ([DiskTheorems.disk_read_ok]);
    - [DiskSpec.DiskLaws] states what disk.c asks of a driver; [DiskSpec.sim_laws]
      (a disk in memory with errors, delays and unplugging) and
      [SynthDiskSpec.synth_laws] (the driver of the synthetic target, over the files of
      a host, [SynthDiskSpec.HostLaws]) satisfy it;
    - [FatStore.BlockLibrary] and [FatStore.BlockStore] state what the file system
      asks of a block library; [FatStore.blib_store] proves that the model of
      blib.c satisfies it and [FatExample.ram_store] that a disk in memory does;
    - [FatNodeOps.cache_view] is the abstract node cache path lookup relies on;
    - [FatOpen.file_view] is what an open file is to its users: bytes and an offset.
    A command of the access point (cli_utils.c) tests its arguments with the
    functions of ecosap_nw.c, changes the second of two copies of the configuration
    under a mutex and writes that copy to its sector of the flash (flash.c), from
    where the next start reads it into both copies:
    - [NwConf.Platform] and [NwConf.FlashLaws] state what that code asks of the
      flash package and of the firewall; [NwConfSpec.ram_platform] satisfies them, and
      so does [NwFlash.board_platform], the flash package over the driver of the board;
    - [FlashSpec.DriverLaws] states what the flash package (io/flash) asks of a driver;
      [QcaFlashSpec.qca_laws] proves that the driver of the QCA953x satisfies it;
    - [QcaFlashSpec.SpiNor] states what that driver asks of the controller and of the
      serial flash; [QcaFlashSpec.sim_spi_nor] is a simulated chip that satisfies it;
    A thread that writes or reads a serial line (io/serial) fills or empties a circular
    buffer and may sleep; the interrupts of the line work on the other end of the buffer
    and wake it:
    - [Serial.SerialFuns] are the functions of a hardware driver and
      [SerialSpec.SerialLaws] what the layer asks of them; [SerialLoop.loop_laws] proves
      that the loop driver satisfies it;
    - [SerialRun.step] is what threads, interrupts and the hardware may do, in any order,
      and [SerialRun.inv] what holds in every state they reach;
    - [QcaSerialSpec.UartLaws] states what the console driver of the board asks of a
      UART; [QcaSerialTheorems.Toy.toy_laws] is a small one that satisfies it;
    - [Tty.CharDevice] is the channel under a terminal and [TtySpec.CharLaws] what a
      terminal asks of it; [TtySpec.polled_laws] proves that a polled line satisfies it.
    Interfaces of single components:
    - [NwStruct.CodecOk] states that a structure is read back from the bytes it has
      in flash, one instance per structure.

    How code is modelled. A C function is a Gallina function, or a computation of
    the state monad [M] below when it changes state: [None] is undefined behaviour
    (a null dereference, an access outside an array, a loop out of fuel), error
    codes are results. [wp m Q s] says that [m] runs from [s] without undefined
    behaviour to a result and a state in [Q], so every theorem stated with [wp]
    includes that the code returns. Unsigned objects wrap at their width
    ([uwrap]), signed ones by [s32]. Structures that share are heaps: blocks and
    nodes live at addresses. The readings of the clock, the results of malloc and
    the contents of uninitialised stack arrays that are read are arguments. The
    target of the access point is big-endian MIPS, so host and network order agree.

    Files, the C code they model and what their theorems show:
    - Prelude: machine integers, bit lemmas, the monad with [wp], [preserves] and
      [returns], tactics, error codes (error/codes.h);
    - Crc (services/crc): the tables are those of bitwise division; equality with
      the reference division; burst detection; POSIX cksum;
    - RbTree (compat/linux/rbtree.c, rbtree.h): insertion and deletion keep order,
      colours and black height; in-order traversal;
    - Blib (services/blib/blib.c), BlibSpec, BlibAccess, BlibContract, BlibRefine:
      the invariant of the cache; refinement of a flat store of bytes under any
      sequence of requests and device errors; write-back; creation, flush and
      change of block size;
    - FatDate, FatStore, FatTable, FatFile, FatDentry, FatDir, FatInit
      (fatfs_supp.c, fatfs.h): time stamps, byte order and geometry, the
      allocation table and its chains, file data, raw entries, directories,
      mounting; with FatTableSpec, FatChain, FatDirSpec, FatDirOps, FatWrite and
      FatTheorems: the table is an array, chains are lists, files are arrays of
      bytes, directories are arrays of slots; reading, writing, creating,
      deleting, truncating, seeking, allocating and freeing do what they should
      and leave every other file alone; entries survive their round trip;
    - FatNode (fatfs_ncache.c) at the level of pointers, FatNodeSpec (linked lists
      and hash chains), FatNodeOps (refinement of three lists of nodes),
      FatNodeCheck (the optional run-time checks always pass);
    - FatFs and FatFo (fatfs.c): descriptors, path lookup, operations on names and
      on open files; FatOpen (an open file refines a string of bytes with an
      offset; seeking; durability of fsync), FatLookup (one step along a path
      through cache and directory), FatFds (the pool of descriptors);
    - FatExample: the volume on which the theorems are tried;
    - CStr (libc strtol.cxx, strtoul.cxx, strtok.cxx, net/common inet_addr.c and
      inet_ntoa.c): strings, numbers and addresses as text;
    - NwAddr (net/common/src/ecosap_nw.c), NwAddrSpec: the tests on addresses,
      masks, ranges and subnets against their meaning on 32-bit words;
    - NwStruct (ecosap_nw_http.h): the configuration and its layout in flash;
    - NwConf (ecosap_nw.c, shell/flash.c), NwConfSpec: start, factory settings,
      write and restart; a saved configuration survives;
    - NwRules (ecosap_nw.c), NwRulesSpec: insertion and deletion in the table of
      firewall rules, flush, the change of the LAN subnet with its pool;
    - NwCmd (shell/cli_utils.c), NwCmdSpec: the commands; what holds in every state
      the system reaches by them; the LAN command as a function;
    - Flash (io/flash/src/flash.c), FlashList (the list of devices: the sort ends and
      orders it, overlaps are found), FlashSpec (erase, program and read over ranges
      that run through several devices), FlashInit (initialisation, and runs
      that show where the package does not do what it means to);
    - QcaFlash (devs/flash/mips/qca953x), QcaFlashSpec: the driver down to the writes
      that move the pins of the flash; commands, polls and pages;
    - NwFlash (shell/flash.c): the configuration on the flash of the board, through
      every layer from the commands to the cells of the chip;
    - FlashIo (io/flash/src/flashiodev.c), FlashIoSpec: regions of the flash as devices,
      opened by name; they stay within their bounds; its Module Legacy
      is flashiodevlegacy.c;
    - IoSys (io/common/src/iosys.c, devtab.h), IoSysSpec: the names of devices, the
      lookup through their dependencies, their start, requests by handle;
    - Disk (io/disk/src/disk.c, disk.h, diskio.h): connection, partitions, transfers,
      configuration; DiskSpec (a request transfers the blocks it names and no others),
      DiskTheorems (the partition table and its round trip, lookup, reading, writing,
      where the layer fails),
      DiskInv (what holds in every reachable state;
      handles of a medium that is gone);
    - SynthDisk (devs/disk/synth), SynthDiskSpec: the driver and its laws, and a
      run through all layers, from the name of a partition to the file of the host;
    - Serial (io/serial/src/common/serial.c, serial.h, serialio.h, config_keys.h): every
      function of the layer, polled and with interrupts, flow control, block transfers;
      SerialSpec (a buffer is a queue; what came in goes out in order), SerialOps,
      SerialWrite, SerialRead, SerialConf (each operation keeps that account), SerialRun
      (threads and interrupts in any order), SerialWake (no thread sleeps for ever),
      SerialFlow (the flag of a stopped peer follows the fill level), SerialPeer (what
      the peer is told agrees with that flag), SerialTheorems (what a line
      guarantees), SerialFlaws (runs that go wrong);
    - SerialLoop (devs/serial/loop), SerialLoopSpec: two channels connected to each
      other; what is written on one is read on the other;
    - QcaSerial (devs/serial/mips/qca), QcaSerialSpec, QcaSerialTheorems: the console of
      the board, polled and with its interrupt;
    - Tty (io/serial/src/common/tty.c, ttyio.h), TtySpec: terminals on a channel; what is
      read is the line as the user edited it, what is written is expanded and cut.

    Fuel. Loops of the C code that are not bounded by their shape take fuel: chain
    walks the number of table entries, directory searches the number of slots the
    volume can have ([FatDir.dir_entries]), transfers their length, walks of the
    node cache the size of its pool, the sort of the flash devices the square of their
    number, recursion over devices their number, polls of the flash a number above
    [QcaFlashSpec.wait], a request to a disk its number of blocks, the wait for a
    transfer [Disk.events], the lookup of a device the depth of its dependencies, a write
    to a line two passes for each byte ([Serial.write_fuel]), an alarm of the loop driver
    the characters on their way ([SerialLoop.in_flight]), the polls of a UART a number
    above [QcaSerialSpec.slow]. The theorems prove that it is enough under their
    hypotheses (a chain of distinct clusters, a directory that lies within the volume,
    lists without repetition, an output buffer of at least four bytes); where the code itself may loop for
    ever the model runs out of fuel.

    Configuration: CYGIMP_BLOCK_LIB_STATISTICS on; CYGCFG_FS_FAT_USE_ATTRIBUTES,
    CYGPKG_FS_FAT_RET_DIRENT_DTYPE and tracing off; assertions off, except for the
    extra checks of the node cache, which FatNodeCheck models on their own. The serial
    layer has flow control by software and hardware, line status, select, non-blocking
    mode and block transfers; the console of the board is that of the QCA953x.

    Not modelled: the fileio layer above fatfs.c (C++) and its locking, which
    serialises the calls; threads that wait for the controller of a disk at the same
    time (requests are atomic, and one that finds the controller busy waits for ever);
    fatfs_tcache.c, which is not compiled. Of the rest of the tree: the kernel,
    memory allocators and fileio are C++; the network stacks, JFFS2, zlib,
    microwindows, the maths library, SNMP and the HTTP server are imported code;
    hal and devs, apart from the drivers named above, are register access and assembly for
    each platform; host holds the configuration tools; RedBoot, termios, and
    the RAM and ROM file systems are C code outside this library. Of the serial layer: the mutexes and the lock
    of the scheduler, which make what a thread does between two waits one step, the
    assertions and the diagnostic output; a write to the console assumes that nothing
    arrives while it runs. Of the flash package: caches, messages
    and the software write protection. Of the access point: the
    firewall (ecosap_nw_ipfw_rules_config, ecosap_nw_nat_config) and the wireless
    driver are not in the tree; output to console and web pages, threads and
    sockets are left out. *)
From Stdlib Require Export Lia ZArith.
From stdpp Require Export prelude gmap list numbers sorting.

#[global] Open Scope Z_scope.

(** ** Machine integers

    A [w]-bit unsigned C object is a [Z] kept below [2 ^ w]; assignment to
    such an object wraps. [s32] is the conversion to a signed 32-bit [int]
    (two's complement, as every compiler eCos supports defines it). *)
Definition uwrap (w x : Z) : Z := x mod 2 ^ w.
Abbreviation u8 := (uwrap 8).
Abbreviation u16 := (uwrap 16).
Abbreviation u32 := (uwrap 32).
Definition s32 (x : Z) : Z := (x + 2 ^ 31) mod 2 ^ 32 - 2 ^ 31.

Definition fits (w x : Z) : Prop := 0 <= x < 2 ^ w.

Create HintDb bits.
Create HintDb ecos.

(** Splits every boolean comparison of the goal and of the hypotheses into
    its arithmetic cases, then calls [lia]. *)
Ltac bool_lia :=
  repeat match goal with
  | H : _ && _ = true |- _ => apply andb_prop in H; destruct H
  | H : _ || _ = false |- _ => apply orb_false_elim in H; destruct H
  | H : negb _ = true |- _ => apply negb_true_iff in H
  | H : negb _ = false |- _ => apply negb_false_iff in H
  | H : (_ <? _) = true |- _ => apply Z.ltb_lt in H
  | H : (_ <? _) = false |- _ => apply Z.ltb_ge in H
  | H : (_ <=? _) = true |- _ => apply Z.leb_le in H
  | H : (_ <=? _) = false |- _ => apply Z.leb_gt in H
  | H : (_ =? _) = true |- _ => apply Z.eqb_eq in H
  | H : (_ =? _) = false |- _ => apply Z.eqb_neq in H
  end; try lia.

(** Case analysis on the first [match] or [if] scrutinee of the goal,
    remembering its value. *)
Ltac case_goal :=
  match goal with
  | |- context [match ?x with _ => _ end] => destruct x eqn:?
  end.

(** Case analysis on the scrutinee of a [match] or [if] in hypothesis [H]. *)
Ltac case_in H :=
  match type of H with
  | context [match ?x with _ => _ end] => destruct x eqn:?
  end.

Section Uwrap.
Lemma uwrap_range w x : 0 <= w -> 0 <= uwrap w x < 2 ^ w.
Proof. intros. apply Z.mod_pos_bound. lia. Qed.

Lemma uwrap_small w x : 0 <= x < 2 ^ w -> uwrap w x = x.
Proof. apply Z.mod_small. Qed.

Lemma uwrap_idemp w x : uwrap w (uwrap w x) = uwrap w x.
Proof. apply Zmod_mod. Qed.

Lemma uwrap_testbit w x n :
  0 <= w -> Z.testbit (uwrap w x) n = (n <? w) && Z.testbit x n.
Proof.
  intros. unfold uwrap.
  destruct (Z.ltb_spec n w).
  - apply Z.mod_pow2_bits_low. lia.
  - apply Z.mod_pow2_bits_high. lia.
Qed.

Lemma s32_small x : - 2 ^ 31 <= x < 2 ^ 31 -> s32 x = x.
Proof. intros. unfold s32. rewrite Z.mod_small; lia. Qed.

Lemma s32_eq x : exists k, s32 x = x + k * 2 ^ 32.
Proof.
  exists (- ((x + 2 ^ 31) / 2 ^ 32)). unfold s32.
  pose proof (Z.div_mod (x + 2 ^ 31) (2 ^ 32)). lia.
Qed.

Lemma u32_eq x : exists k, u32 x = x + k * 2 ^ 32.
Proof.
  exists (- (x / 2 ^ 32)). unfold uwrap. pose proof (Z.div_mod x (2 ^ 32)). lia.
Qed.

Lemma s32_range x : - 2 ^ 31 <= s32 x < 2 ^ 31.
Proof.
  unfold s32. pose proof (Z.mod_pos_bound (x + 2 ^ 31) (2 ^ 32)). lia.
Qed.
End Uwrap.

(** ** Bit-level reasoning on [Z] *)
Section Bits.
Lemma testbit_neg_idx x n : n < 0 -> Z.testbit x n = false.
Proof. apply Z.testbit_neg_r. Qed.

Lemma testbit_high w x n : 0 <= x < 2 ^ w -> w <= n -> Z.testbit x n = false.
Proof.
  intros Hx Hn. destruct (Z.ltb_spec w 0).
  - rewrite Z.pow_neg_r in Hx by lia. lia.
  - rewrite <- (Z.mod_small x (2 ^ w)) by done. apply Z.mod_pow2_bits_high. lia.
Qed.

Lemma bits_bounded w x :
  0 <= w -> (forall n, w <= n -> Z.testbit x n = false) -> 0 <= x < 2 ^ w.
Proof.
  intros Hw H. replace x with (x mod 2 ^ w); [apply Z.mod_pos_bound; lia|].
  apply Z.bits_inj'. intros n Hn. destruct (Z.ltb_spec n w).
  - apply Z.mod_pow2_bits_low. lia.
  - rewrite Z.mod_pow2_bits_high by lia. rewrite H; lia || done.
Qed.

Lemma lxor_bounded w x y :
  0 <= w -> 0 <= x < 2 ^ w -> 0 <= y < 2 ^ w -> 0 <= Z.lxor x y < 2 ^ w.
Proof.
  intros. apply bits_bounded; [done|]. intros n Hn.
  rewrite Z.lxor_spec, !(testbit_high w) by done. done.
Qed.

Lemma shiftr_bounded w x k :
  0 <= k -> 0 <= x < 2 ^ w -> 0 <= Z.shiftr x k < 2 ^ w.
Proof.
  intros. rewrite Z.shiftr_div_pow2 by done. split.
  - apply Z.div_pos; lia.
  - apply Z.le_lt_trans with x; [|lia]. apply Z.div_le_upper_bound; nia.
Qed.

Lemma lor_bounded w x y :
  0 <= w -> 0 <= x < 2 ^ w -> 0 <= y < 2 ^ w -> 0 <= Z.lor x y < 2 ^ w.
Proof.
  intros. apply bits_bounded; [done|]. intros n Hn.
  rewrite Z.lor_spec, !(testbit_high w) by done. done.
Qed.

(** Packed fields are sums. *)
Lemma lor_shiftl_add a b n :
  0 <= n -> 0 <= b < 2 ^ n -> Z.lor (Z.shiftl a n) b = a * 2 ^ n + b.
Proof.
  intros Hn Hb. rewrite <- Z.shiftl_mul_pow2 by done.
  assert (Z.land (Z.shiftl a n) b = 0) as H0.
  { apply Z.bits_inj'. intros k Hk. rewrite Z.land_spec, Z.bits_0.
    destruct (Z.ltb_spec k n).
    - by rewrite Z.shiftl_spec_low.
    - rewrite (testbit_high n b) by done. apply andb_false_r. }
  pose proof (Z.add_lor_land (Z.shiftl a n) b). lia.
Qed.

Lemma land_ones_mod x n : 0 <= n -> Z.land x (Z.shiftl 1 n - 1) = x mod 2 ^ n.
Proof.
  intros. rewrite Z.shiftl_1_l, Z.sub_1_r, <- Z.ones_equiv. by apply Z.land_ones.
Qed.

Lemma div_bounds x d : 0 < d -> d * (x / d) <= x < d * (x / d) + d.
Proof. intros. pose proof (Z.div_mod x d). pose proof (Z.mod_pos_bound x d). lia. Qed.

Lemma land_ff_bounded x : 0 <= Z.land x 0xff < 256.
Proof.
  change 0xff with (Z.ones 8). rewrite Z.land_ones by lia.
  apply Z.mod_pos_bound. lia.
Qed.
End Bits.

#[export] Hint Rewrite Z.lxor_spec Z.land_spec Z.lor_spec Z.testbit_0_l : bits.
#[export] Hint Rewrite Z.shiftr_spec using lia : bits.
#[export] Hint Rewrite Z.shiftl_spec using lia : bits.
#[export] Hint Rewrite uwrap_testbit using lia : bits.
#[export] Hint Resolve lxor_bounded shiftr_bounded : bits.

(** [a \0] arrays and byte strings *)
Abbreviation byte := Z (only parsing).
Definition is_byte (b : Z) : Prop := 0 <= b < 256.

(** [buf, len]: the first [len] bytes of a buffer (none when [len] is negative). *)
Definition upto (buf : list byte) (len : Z) : list byte := take (Z.to_nat len) buf.

(** An array access [t[i]] with [i] known to be in range. *)
Definition nthZ (l : list Z) (i : Z) : Z := nth (Z.to_nat i) l 0.

(** ** Folds *)
(** Two folds whose steps agree on the reachable states give the same result. *)
Lemma fold_left_ext_inv {A B} (P : A -> Prop) (Q : B -> Prop) (f g : A -> B -> A) l a :
  (forall a b, P a -> Q b -> f a b = g a b) ->
  (forall a b, P a -> Q b -> P (g a b)) ->
  P a -> Forall Q l -> fold_left f l a = fold_left g l a.
Proof.
  intros Hfg HP Ha Hl. revert a Ha. induction Hl as [|b l Hb Hl IH]; intros a Ha; [done|].
  simpl. rewrite Hfg by done. apply IH. by apply HP.
Qed.

Lemma fold_left_ext {A B} (f g : A -> B -> A) l a :
  (forall a b, f a b = g a b) -> fold_left f l a = fold_left g l a.
Proof. intros H. revert a. induction l as [|b l IH]; intros a; simpl; [done|]. by rewrite H. Qed.

Lemma fold_left_inv {A B} (P : A -> Prop) (Q : B -> Prop) (f : A -> B -> A) l a :
  (forall a b, P a -> Q b -> P (f a b)) -> P a -> Forall Q l -> P (fold_left f l a).
Proof. intros HP Ha Hl. revert a Ha. induction Hl; simpl; auto. Qed.

Lemma find_ext {A} (f g : A -> bool) l :
  (forall a, f a = g a) -> find f l = find g l.
Proof. intros H. induction l as [|a l IH]; [done|]. cbn. by rewrite H, IH. Qed.

(** ** A state monad with undefined behaviour

    [M S A] is a computation on a state [S]. [None] is undefined behaviour of the
    C code (a null dereference, a failed assertion, a loop that exceeds its
    fuel); error codes are ordinary results. *)
Definition M (S A : Type) : Type := S -> option (A * S).

#[export] Instance M_ret S : MRet (M S) := fun A a s => Some (a, s).
#[export] Instance M_bind S : MBind (M S) := fun A B f m s =>
  match m s with Some (a, s') => f a s' | None => None end.

Definition get_state {S} : M S S := fun s => Some (s, s).
Definition put_state {S} (s : S) : M S unit := fun _ => Some (tt, s).
Definition modify {S} (f : S -> S) : M S unit := fun s => Some (tt, f s).
Definition crash {S A} : M S A := fun _ => None.

(** The computation runs without undefined behaviour from [s] and ends in a
    result and a state that satisfy [Q]. *)
Definition wp {S A} (m : M S A) (Q : A -> S -> Prop) (s : S) : Prop :=
  exists a s', m s = Some (a, s') /\ Q a s'.

(** The state a computation leaves behind. *)
Definition state_after {S A} (m : M S A) (s : S) : S :=
  match m s with Some (_, s') => s' | None => s end.

Lemma wp_state_after {S A} (m : M S A) (P : S -> Prop) s : wp m (fun _ => P) s -> P (state_after m s).
Proof. intros (a & s' & Hm & HP). unfold state_after. by rewrite Hm. Qed.

Section Wp.
Context {S A B : Type}.
Implicit Types (Q : B -> S -> Prop).

Lemma wp_ret (a : B) Q s : Q a s -> wp (mret a : M S B) Q s.
Proof. intros. by exists a, s. Qed.

Lemma wp_bind (m : M S A) (f : A -> M S B) Q s :
  wp m (fun a s' => wp (f a) Q s') s -> wp (m ≫= f) Q s.
Proof.
  intros (a & s' & Hm & b & s'' & Hf & HQ). exists b, s''. split; [|done].
  unfold mbind, M_bind. by rewrite Hm.
Qed.

Lemma wp_bind_inv (m : M S A) (f : A -> M S B) Q s :
  wp (m ≫= f) Q s -> wp m (fun a s' => wp (f a) Q s') s.
Proof.
  intros (b & s'' & Hm & HQ). unfold mbind, M_bind in Hm.
  destruct (m s) as [[a s']|] eqn:Hms; [|done]. exists a, s'. split; [done|].
  by exists b, s''.
Qed.

Lemma wp_mono (m : M S B) Q1 Q2 s :
  wp m Q1 s -> (forall a s', Q1 a s' -> Q2 a s') -> wp m Q2 s.
Proof. intros (a & s' & Hm & HQ) H. exists a, s'. auto. Qed.

Lemma wp_get (f : S -> M S B) Q s : wp (f s) Q s -> wp (get_state ≫= f) Q s.
Proof. done. Qed.

Lemma wp_modify (g : S -> S) (f : unit -> M S B) Q s :
  wp (f tt) Q (g s) -> wp (modify g ≫= f) Q s.
Proof. done. Qed.

Lemma wp_if (b : bool) (m1 m2 : M S B) Q s :
  (b = true -> wp m1 Q s) -> (b = false -> wp m2 Q s) -> wp (if b then m1 else m2) Q s.
Proof. destruct b; auto. Qed.
End Wp.

(** The computation leaves a part of the state alone. *)
Definition preserves {S A B} (f : S -> B) (m : M S A) : Prop :=
  forall s a s', m s = Some (a, s') -> f s' = f s.

Section Preserves.
Context {S A B C : Type} (f : S -> C).

Lemma preserves_ret (a : A) : preserves f (mret a : M S A).
Proof. intros s b s' [= _ <-]. done. Qed.

Lemma preserves_crash : preserves f (crash : M S A).
Proof. done. Qed.

Lemma preserves_get : preserves f (get_state : M S S).
Proof. intros s b s' [= _ <-]. done. Qed.

Lemma preserves_modify g : (forall s, f (g s) = f s) -> preserves f (modify g).
Proof. intros H s b s' [= _ <-]. apply H. Qed.

Lemma preserves_bind (m : M S A) (k : A -> M S B) :
  preserves f m -> (forall a, preserves f (k a)) -> preserves f (m ≫= k).
Proof.
  intros Hm Hk s b s'. unfold mbind, M_bind. destruct (m s) as [[a s1]|] eqn:H; [|done].
  intros H'. etrans; [by eapply Hk|by eapply Hm].
Qed.

Lemma wp_preserves (m : M S A) Q s :
  preserves f m -> wp m Q s -> wp m (fun a s' => Q a s' /\ f s' = f s) s.
Proof. intros Hm (a & s' & Hr & HQ). exists a, s'. split; [done|]. eauto. Qed.
End Preserves.

(** Every result of the computation satisfies [P]. *)
Definition returns {S A} (P : A -> Prop) (m : M S A) : Prop :=
  forall s a s', m s = Some (a, s') -> P a.

Section Returns.
Context {S A B : Type}.

Lemma returns_ret (P : A -> Prop) a : P a -> returns P (mret a : M S A).
Proof. intros Ha s b s' [= <- _]. done. Qed.

Lemma returns_crash (P : A -> Prop) : returns P (crash : M S A).
Proof. done. Qed.

Lemma returns_bind (Q : A -> Prop) (P : B -> Prop) (m : M S A) (k : A -> M S B) :
  returns Q m -> (forall a, Q a -> returns P (k a)) -> returns P (m ≫= k).
Proof.
  intros Hm Hk s b s'. unfold mbind, M_bind. destruct (m s) as [[a s1]|] eqn:H; [|done].
  intros H'. eapply Hk; [by eapply Hm|done].
Qed.

Lemma returns_any (P : B -> Prop) (m : M S A) (k : A -> M S B) :
  (forall a, returns P (k a)) -> returns P (m ≫= k).
Proof. intros Hk. apply (returns_bind (fun _ => True)); [done|auto]. Qed.

Lemma wp_returns (P : A -> Prop) (m : M S A) Q s :
  returns P m -> wp m Q s -> wp m (fun a s' => P a /\ Q a s') s.
Proof. intros Hm (a & s' & Hr & HQ). exists a, s'. split; [done|]. eauto. Qed.
End Returns.

(** [m] takes states of [I] to states of [J]. *)
Definition keeps {S A} (I J : S -> Prop) (m : M S A) : Prop :=
  forall s a s', I s -> m s = Some (a, s') -> J s'.

Section Keeps.
Context {S A B : Type} (I J K : S -> Prop).

Lemma keeps_ret (a : A) : keeps I I (mret a : M S A).
Proof using. by intros s b s' H [= _ <-]. Qed.

Lemma keeps_crash : keeps I J (crash : M S A).
Proof using. done. Qed.

Lemma keeps_modify g : (forall s, I s -> J (g s)) -> keeps I J (modify g).
Proof using. intros H s b s' Hs [= _ <-]. by apply H. Qed.

Lemma keeps_bind (m : M S A) (k : A -> M S B) :
  keeps I J m -> (forall a, keeps J K (k a)) -> keeps I K (m ≫= k).
Proof using.
  intros Hm Hk s b s' Hs. unfold mbind, M_bind. destruct (m s) as [[a s1]|] eqn:E; [|done].
  intros H. eapply Hk; [by eapply Hm|done].
Qed.

(** Reading the state, with what is known of it. *)
Lemma keeps_get (k : S -> M S B) : (forall s, I s -> keeps (fun s' => s' = s) K (k s)) -> keeps I K (get_state ≫= k).
Proof using. intros H s b s' Hs E. by eapply (H s Hs). Qed.

Lemma keeps_weaken (m : M S A) (I' : S -> Prop) : keeps I J m -> (forall s, I' s -> I s) -> keeps I' J m.
Proof using. intros Hm HI s a s' Hs. apply Hm. by apply HI. Qed.

Lemma keeps_read (k : S -> M S B) : (forall s, I s -> keeps I K (k s)) -> keeps I K (get_state ≫= k).
Proof using. intros H s b s' Hs E. by eapply (H s Hs). Qed.
End Keeps.

(** One step of a computation from a state. *)
Lemma bind_none {S A B} (m : M S A) (f : A -> M S B) s : m s = None -> (m ≫= f) s = None.
Proof. intros Hm. unfold mbind, M_bind. by rewrite Hm. Qed.

Lemma bind_some {S A B} (m : M S A) (f : A -> M S B) s a s' : m s = Some (a, s') -> (m ≫= f) s = f a s'.
Proof. intros Hm. unfold mbind, M_bind. by rewrite Hm. Qed.

(** Proves [preserves] goals by following the code. *)
Ltac preserves_steps :=
  repeat first
    [ apply preserves_ret | apply preserves_crash | apply preserves_get
    | apply preserves_modify; done | assumption | solve [eauto with ecos]
    | apply preserves_bind; [|intros ?]
    | match goal with |- preserves _ (match ?x with _ => _ end) => destruct x end ].

Ltac wp_step :=
  lazymatch goal with
  | |- wp (mret _) _ _ => apply wp_ret
  | |- wp (get_state ≫= _) _ _ => apply wp_get
  | |- wp (modify _ ≫= _) _ _ => apply wp_modify
  | |- wp ((_ ≫= _) ≫= _) _ _ => apply wp_bind
  end; cbn beta.
Ltac wp_steps := repeat wp_step.

(** ** Error codes of error/codes.h *)
Definition ENOERR : Z := 0.
Definition EPERM : Z := 1.
Definition ENOENT : Z := 2.
Definition EINTR : Z := 4.
Definition EIO : Z := 5.
Definition EBADF : Z := 9.
Definition EAGAIN : Z := 11.
Definition ENOMEM : Z := 12.
Definition ENODEV : Z := 19.
Definition EINVAL : Z := 22.
Definition ENOSPC : Z := 28.
Definition ENOTSUP : Z := 95.
Definition EEOF : Z := 200.
