(* ===== verification/Crc.v ===== *)
(** * CRC services: [services/crc]

    The table-driven CRC16, CRC32 (plain and Ethernet) and POSIX cksum, with the
    tables as they are written in crc16.c, crc32.c and posix_crc.c. A CRC is the
    remainder of a polynomial division over GF(2): the table-driven code is proved
    equal to the bit-by-bit division, which gives the detection of burst errors. *)
From S2P Require Import Prelude.

(** ** The tables *)
Module Tables.

Definition crc16_tab : list Z :=
[ 0x0000; 0x1021; 0x2042; 0x3063; 0x4084; 0x50a5; 0x60c6; 0x70e7; 0x8108; 0x9129; 0xa14a; 0xb16b;
  0xc18c; 0xd1ad; 0xe1ce; 0xf1ef; 0x1231; 0x0210; 0x3273; 0x2252; 0x52b5; 0x4294; 0x72f7; 0x62d6;
  0x9339; 0x8318; 0xb37b; 0xa35a; 0xd3bd; 0xc39c; 0xf3ff; 0xe3de; 0x2462; 0x3443; 0x0420; 0x1401;
  0x64e6; 0x74c7; 0x44a4; 0x5485; 0xa56a; 0xb54b; 0x8528; 0x9509; 0xe5ee; 0xf5cf; 0xc5ac; 0xd58d;
  0x3653; 0x2672; 0x1611; 0x0630; 0x76d7; 0x66f6; 0x5695; 0x46b4; 0xb75b; 0xa77a; 0x9719; 0x8738;
  0xf7df; 0xe7fe; 0xd79d; 0xc7bc; 0x48c4; 0x58e5; 0x6886; 0x78a7; 0x0840; 0x1861; 0x2802; 0x3823;
  0xc9cc; 0xd9ed; 0xe98e; 0xf9af; 0x8948; 0x9969; 0xa90a; 0xb92b; 0x5af5; 0x4ad4; 0x7ab7; 0x6a96;
  0x1a71; 0x0a50; 0x3a33; 0x2a12; 0xdbfd; 0xcbdc; 0xfbbf; 0xeb9e; 0x9b79; 0x8b58; 0xbb3b; 0xab1a;
  0x6ca6; 0x7c87; 0x4ce4; 0x5cc5; 0x2c22; 0x3c03; 0x0c60; 0x1c41; 0xedae; 0xfd8f; 0xcdec; 0xddcd;
  0xad2a; 0xbd0b; 0x8d68; 0x9d49; 0x7e97; 0x6eb6; 0x5ed5; 0x4ef4; 0x3e13; 0x2e32; 0x1e51; 0x0e70;
  0xff9f; 0xefbe; 0xdfdd; 0xcffc; 0xbf1b; 0xaf3a; 0x9f59; 0x8f78; 0x9188; 0x81a9; 0xb1ca; 0xa1eb;
  0xd10c; 0xc12d; 0xf14e; 0xe16f; 0x1080; 0x00a1; 0x30c2; 0x20e3; 0x5004; 0x4025; 0x7046; 0x6067;
  0x83b9; 0x9398; 0xa3fb; 0xb3da; 0xc33d; 0xd31c; 0xe37f; 0xf35e; 0x02b1; 0x1290; 0x22f3; 0x32d2;
  0x4235; 0x5214; 0x6277; 0x7256; 0xb5ea; 0xa5cb; 0x95a8; 0x8589; 0xf56e; 0xe54f; 0xd52c; 0xc50d;
  0x34e2; 0x24c3; 0x14a0; 0x0481; 0x7466; 0x6447; 0x5424; 0x4405; 0xa7db; 0xb7fa; 0x8799; 0x97b8;
  0xe75f; 0xf77e; 0xc71d; 0xd73c; 0x26d3; 0x36f2; 0x0691; 0x16b0; 0x6657; 0x7676; 0x4615; 0x5634;
  0xd94c; 0xc96d; 0xf90e; 0xe92f; 0x99c8; 0x89e9; 0xb98a; 0xa9ab; 0x5844; 0x4865; 0x7806; 0x6827;
  0x18c0; 0x08e1; 0x3882; 0x28a3; 0xcb7d; 0xdb5c; 0xeb3f; 0xfb1e; 0x8bf9; 0x9bd8; 0xabbb; 0xbb9a;
  0x4a75; 0x5a54; 0x6a37; 0x7a16; 0x0af1; 0x1ad0; 0x2ab3; 0x3a92; 0xfd2e; 0xed0f; 0xdd6c; 0xcd4d;
  0xbdaa; 0xad8b; 0x9de8; 0x8dc9; 0x7c26; 0x6c07; 0x5c64; 0x4c45; 0x3ca2; 0x2c83; 0x1ce0; 0x0cc1;
  0xef1f; 0xff3e; 0xcf5d; 0xdf7c; 0xaf9b; 0xbfba; 0x8fd9; 0x9ff8; 0x6e17; 0x7e36; 0x4e55; 0x5e74;
  0x2e93; 0x3eb2; 0x0ed1; 0x1ef0 ].

Definition crc32_tab : list Z :=
[ 0x00000000; 0x77073096; 0xee0e612c; 0x990951ba; 0x076dc419; 0x706af48f; 0xe963a535;
  0x9e6495a3; 0x0edb8832; 0x79dcb8a4; 0xe0d5e91e; 0x97d2d988; 0x09b64c2b; 0x7eb17cbd;
  0xe7b82d07; 0x90bf1d91; 0x1db71064; 0x6ab020f2; 0xf3b97148; 0x84be41de; 0x1adad47d;
  0x6ddde4eb; 0xf4d4b551; 0x83d385c7; 0x136c9856; 0x646ba8c0; 0xfd62f97a; 0x8a65c9ec;
  0x14015c4f; 0x63066cd9; 0xfa0f3d63; 0x8d080df5; 0x3b6e20c8; 0x4c69105e; 0xd56041e4;
  0xa2677172; 0x3c03e4d1; 0x4b04d447; 0xd20d85fd; 0xa50ab56b; 0x35b5a8fa; 0x42b2986c;
  0xdbbbc9d6; 0xacbcf940; 0x32d86ce3; 0x45df5c75; 0xdcd60dcf; 0xabd13d59; 0x26d930ac;
  0x51de003a; 0xc8d75180; 0xbfd06116; 0x21b4f4b5; 0x56b3c423; 0xcfba9599; 0xb8bda50f;
  0x2802b89e; 0x5f058808; 0xc60cd9b2; 0xb10be924; 0x2f6f7c87; 0x58684c11; 0xc1611dab;
  0xb6662d3d; 0x76dc4190; 0x01db7106; 0x98d220bc; 0xefd5102a; 0x71b18589; 0x06b6b51f;
  0x9fbfe4a5; 0xe8b8d433; 0x7807c9a2; 0x0f00f934; 0x9609a88e; 0xe10e9818; 0x7f6a0dbb;
  0x086d3d2d; 0x91646c97; 0xe6635c01; 0x6b6b51f4; 0x1c6c6162; 0x856530d8; 0xf262004e;
  0x6c0695ed; 0x1b01a57b; 0x8208f4c1; 0xf50fc457; 0x65b0d9c6; 0x12b7e950; 0x8bbeb8ea;
  0xfcb9887c; 0x62dd1ddf; 0x15da2d49; 0x8cd37cf3; 0xfbd44c65; 0x4db26158; 0x3ab551ce;
  0xa3bc0074; 0xd4bb30e2; 0x4adfa541; 0x3dd895d7; 0xa4d1c46d; 0xd3d6f4fb; 0x4369e96a;
  0x346ed9fc; 0xad678846; 0xda60b8d0; 0x44042d73; 0x33031de5; 0xaa0a4c5f; 0xdd0d7cc9;
  0x5005713c; 0x270241aa; 0xbe0b1010; 0xc90c2086; 0x5768b525; 0x206f85b3; 0xb966d409;
  0xce61e49f; 0x5edef90e; 0x29d9c998; 0xb0d09822; 0xc7d7a8b4; 0x59b33d17; 0x2eb40d81;
  0xb7bd5c3b; 0xc0ba6cad; 0xedb88320; 0x9abfb3b6; 0x03b6e20c; 0x74b1d29a; 0xead54739;
  0x9dd277af; 0x04db2615; 0x73dc1683; 0xe3630b12; 0x94643b84; 0x0d6d6a3e; 0x7a6a5aa8;
  0xe40ecf0b; 0x9309ff9d; 0x0a00ae27; 0x7d079eb1; 0xf00f9344; 0x8708a3d2; 0x1e01f268;
  0x6906c2fe; 0xf762575d; 0x806567cb; 0x196c3671; 0x6e6b06e7; 0xfed41b76; 0x89d32be0;
  0x10da7a5a; 0x67dd4acc; 0xf9b9df6f; 0x8ebeeff9; 0x17b7be43; 0x60b08ed5; 0xd6d6a3e8;
  0xa1d1937e; 0x38d8c2c4; 0x4fdff252; 0xd1bb67f1; 0xa6bc5767; 0x3fb506dd; 0x48b2364b;
  0xd80d2bda; 0xaf0a1b4c; 0x36034af6; 0x41047a60; 0xdf60efc3; 0xa867df55; 0x316e8eef;
  0x4669be79; 0xcb61b38c; 0xbc66831a; 0x256fd2a0; 0x5268e236; 0xcc0c7795; 0xbb0b4703;
  0x220216b9; 0x5505262f; 0xc5ba3bbe; 0xb2bd0b28; 0x2bb45a92; 0x5cb36a04; 0xc2d7ffa7;
  0xb5d0cf31; 0x2cd99e8b; 0x5bdeae1d; 0x9b64c2b0; 0xec63f226; 0x756aa39c; 0x026d930a;
  0x9c0906a9; 0xeb0e363f; 0x72076785; 0x05005713; 0x95bf4a82; 0xe2b87a14; 0x7bb12bae;
  0x0cb61b38; 0x92d28e9b; 0xe5d5be0d; 0x7cdcefb7; 0x0bdbdf21; 0x86d3d2d4; 0xf1d4e242;
  0x68ddb3f8; 0x1fda836e; 0x81be16cd; 0xf6b9265b; 0x6fb077e1; 0x18b74777; 0x88085ae6;
  0xff0f6a70; 0x66063bca; 0x11010b5c; 0x8f659eff; 0xf862ae69; 0x616bffd3; 0x166ccf45;
  0xa00ae278; 0xd70dd2ee; 0x4e048354; 0x3903b3c2; 0xa7672661; 0xd06016f7; 0x4969474d;
  0x3e6e77db; 0xaed16a4a; 0xd9d65adc; 0x40df0b66; 0x37d83bf0; 0xa9bcae53; 0xdebb9ec5;
  0x47b2cf7f; 0x30b5ffe9; 0xbdbdf21c; 0xcabac28a; 0x53b39330; 0x24b4a3a6; 0xbad03605;
  0xcdd70693; 0x54de5729; 0x23d967bf; 0xb3667a2e; 0xc4614ab8; 0x5d681b02; 0x2a6f2b94;
  0xb40bbe37; 0xc30c8ea1; 0x5a05df1b; 0x2d02ef8d ].

Definition posix_crc32_tab : list Z :=
[ 0x00000000; 0x04c11db7; 0x09823b6e; 0x0d4326d9; 0x130476dc; 0x17c56b6b; 0x1a864db2;
  0x1e475005; 0x2608edb8; 0x22c9f00f; 0x2f8ad6d6; 0x2b4bcb61; 0x350c9b64; 0x31cd86d3;
  0x3c8ea00a; 0x384fbdbd; 0x4c11db70; 0x48d0c6c7; 0x4593e01e; 0x4152fda9; 0x5f15adac;
  0x5bd4b01b; 0x569796c2; 0x52568b75; 0x6a1936c8; 0x6ed82b7f; 0x639b0da6; 0x675a1011;
  0x791d4014; 0x7ddc5da3; 0x709f7b7a; 0x745e66cd; 0x9823b6e0; 0x9ce2ab57; 0x91a18d8e;
  0x95609039; 0x8b27c03c; 0x8fe6dd8b; 0x82a5fb52; 0x8664e6e5; 0xbe2b5b58; 0xbaea46ef;
  0xb7a96036; 0xb3687d81; 0xad2f2d84; 0xa9ee3033; 0xa4ad16ea; 0xa06c0b5d; 0xd4326d90;
  0xd0f37027; 0xddb056fe; 0xd9714b49; 0xc7361b4c; 0xc3f706fb; 0xceb42022; 0xca753d95;
  0xf23a8028; 0xf6fb9d9f; 0xfbb8bb46; 0xff79a6f1; 0xe13ef6f4; 0xe5ffeb43; 0xe8bccd9a;
  0xec7dd02d; 0x34867077; 0x30476dc0; 0x3d044b19; 0x39c556ae; 0x278206ab; 0x23431b1c;
  0x2e003dc5; 0x2ac12072; 0x128e9dcf; 0x164f8078; 0x1b0ca6a1; 0x1fcdbb16; 0x018aeb13;
  0x054bf6a4; 0x0808d07d; 0x0cc9cdca; 0x7897ab07; 0x7c56b6b0; 0x71159069; 0x75d48dde;
  0x6b93dddb; 0x6f52c06c; 0x6211e6b5; 0x66d0fb02; 0x5e9f46bf; 0x5a5e5b08; 0x571d7dd1;
  0x53dc6066; 0x4d9b3063; 0x495a2dd4; 0x44190b0d; 0x40d816ba; 0xaca5c697; 0xa864db20;
  0xa527fdf9; 0xa1e6e04e; 0xbfa1b04b; 0xbb60adfc; 0xb6238b25; 0xb2e29692; 0x8aad2b2f;
  0x8e6c3698; 0x832f1041; 0x87ee0df6; 0x99a95df3; 0x9d684044; 0x902b669d; 0x94ea7b2a;
  0xe0b41de7; 0xe4750050; 0xe9362689; 0xedf73b3e; 0xf3b06b3b; 0xf771768c; 0xfa325055;
  0xfef34de2; 0xc6bcf05f; 0xc27dede8; 0xcf3ecb31; 0xcbffd686; 0xd5b88683; 0xd1799b34;
  0xdc3abded; 0xd8fba05a; 0x690ce0ee; 0x6dcdfd59; 0x608edb80; 0x644fc637; 0x7a089632;
  0x7ec98b85; 0x738aad5c; 0x774bb0eb; 0x4f040d56; 0x4bc510e1; 0x46863638; 0x42472b8f;
  0x5c007b8a; 0x58c1663d; 0x558240e4; 0x51435d53; 0x251d3b9e; 0x21dc2629; 0x2c9f00f0;
  0x285e1d47; 0x36194d42; 0x32d850f5; 0x3f9b762c; 0x3b5a6b9b; 0x0315d626; 0x07d4cb91;
  0x0a97ed48; 0x0e56f0ff; 0x1011a0fa; 0x14d0bd4d; 0x19939b94; 0x1d528623; 0xf12f560e;
  0xf5ee4bb9; 0xf8ad6d60; 0xfc6c70d7; 0xe22b20d2; 0xe6ea3d65; 0xeba91bbc; 0xef68060b;
  0xd727bbb6; 0xd3e6a601; 0xdea580d8; 0xda649d6f; 0xc423cd6a; 0xc0e2d0dd; 0xcda1f604;
  0xc960ebb3; 0xbd3e8d7e; 0xb9ff90c9; 0xb4bcb610; 0xb07daba7; 0xae3afba2; 0xaafbe615;
  0xa7b8c0cc; 0xa379dd7b; 0x9b3660c6; 0x9ff77d71; 0x92b45ba8; 0x9675461f; 0x8832161a;
  0x8cf30bad; 0x81b02d74; 0x857130c3; 0x5d8a9099; 0x594b8d2e; 0x5408abf7; 0x50c9b640;
  0x4e8ee645; 0x4a4ffbf2; 0x470cdd2b; 0x43cdc09c; 0x7b827d21; 0x7f436096; 0x7200464f;
  0x76c15bf8; 0x68860bfd; 0x6c47164a; 0x61043093; 0x65c52d24; 0x119b4be9; 0x155a565e;
  0x18197087; 0x1cd86d30; 0x029f3d35; 0x065e2082; 0x0b1d065b; 0x0fdc1bec; 0x3793a651;
  0x3352bbe6; 0x3e119d3f; 0x3ad08088; 0x2497d08d; 0x2056cd3a; 0x2d15ebe3; 0x29d4f654;
  0xc5a92679; 0xc1683bce; 0xcc2b1d17; 0xc8ea00a0; 0xd6ad50a5; 0xd26c4d12; 0xdf2f6bcb;
  0xdbee767c; 0xe3a1cbc1; 0xe760d676; 0xea23f0af; 0xeee2ed18; 0xf0a5bd1d; 0xf464a0aa;
  0xf9278673; 0xfde69bc4; 0x89b8fd09; 0x8d79e0be; 0x803ac667; 0x84fbdbd0; 0x9abc8bd5;
  0x9e7d9662; 0x933eb0bb; 0x97ffad0c; 0xafb010b1; 0xab710d06; 0xa6322bdf; 0xa2f33668;
  0xbcb4666d; 0xb8757bda; 0xb5365d03; 0xb1f740b4 ].

End Tables.
Export Tables.

(** ** crc32.c *)
Definition cyg_crc32_accumulate (crc32val : Z) (s : list byte) (len : Z) : Z :=
  fold_left (fun crc b =>
    Z.lxor (nthZ crc32_tab (Z.land (Z.lxor crc b) 0xff)) (Z.shiftr crc 8))
    (upto s len) crc32val.

Definition cyg_crc32 (s : list byte) (len : Z) : Z := cyg_crc32_accumulate 0 s len.

(** [None] is the null pointer, which only the Ethernet variant tests for. *)
Definition cyg_ether_crc32_accumulate (crc32val : Z) (s : option (list byte)) (len : Z) : Z :=
  match s with
  | None => 0
  | Some s =>
      Z.lxor
        (fold_left (fun crc b =>
           Z.lxor (nthZ crc32_tab (Z.land (Z.lxor crc b) 0xff)) (Z.shiftr crc 8))
           (upto s len) (Z.lxor crc32val 0xffffffff))
        0xffffffff
  end.

Definition cyg_ether_crc32 (s : option (list byte)) (len : Z) : Z :=
  cyg_ether_crc32_accumulate 0 s len.

(** ** crc16.c *)
Definition cyg_crc16_accumulate (crc16val : Z) (buf : list byte) (len : Z) : Z :=
  fold_left (fun crc b =>
    u16 (Z.lxor (nthZ crc16_tab (Z.land (Z.lxor (Z.shiftr crc 8) b) 0xff)) (Z.shiftl crc 8)))
    (upto buf len) crc16val.

Definition cyg_crc16 (buf : list byte) (len : Z) : Z := cyg_crc16_accumulate 0 buf len.

(** ** posix_crc.c *)
Definition posix_step (crc32val b : Z) : Z :=
  Z.lxor (u32 (Z.shiftl crc32val 8))
    (nthZ posix_crc32_tab (Z.land (Z.lxor (Z.shiftr crc32val 24) b) 0xff)).

(** The [while (length > 0)] loop; [length] is an [unsigned long], which the
    loop shifts right by one byte per turn. *)
Fixpoint posix_length_loop (fuel : nat) (crc32val length : Z) : Z :=
  match fuel with
  | O => crc32val
  | S fuel =>
      if length >? 0
      then posix_length_loop fuel (posix_step crc32val length) (Z.shiftr length 8)
      else crc32val
  end.

(** [unsigned long] is 32 bits wide on the MIPS32 target: four turns suffice. *)
Definition cyg_posix_crc32 (s : list byte) (len : Z) : Z :=
  let crc32val := fold_left posix_step (upto s len) 0 in
  let crc32val := posix_length_loop 5 crc32val (u32 len) in
  u32 (Z.lnot crc32val).

(** ** Bit-serial reference

    A cyclic redundancy check divides the message, taken as a polynomial over
    GF(2), by a generator polynomial; the division is one shift and one
    conditional subtraction (an exclusive or) per message bit. *)
Module Bitwise.

(** Least significant bit first ([crc32]): the remainder shifts right. *)
Definition lsb_bit (poly crc : Z) : Z :=
if Z.odd crc then Z.lxor (Z.shiftr crc 1) poly else Z.shiftr crc 1.

Definition lsb_byte (poly crc b : Z) : Z := Nat.iter 8 (lsb_bit poly) (Z.lxor crc b).

(** Most significant bit first ([crc16], POSIX): the remainder shifts left. *)
Definition msb_bit (w poly crc : Z) : Z :=
if Z.testbit crc (w - 1) then Z.lxor (uwrap w (Z.shiftl crc 1)) poly
else uwrap w (Z.shiftl crc 1).

Definition msb_byte (w poly crc b : Z) : Z :=
Nat.iter 8 (msb_bit w poly) (Z.lxor crc (Z.shiftl b (w - 8))).

End Bitwise.
Import Bitwise.

(** ** What both bit orders share

    [step] advances the register by one byte, [place i b] is the register
    value that holds only the message byte [b], still [i] steps from the point
    where it is consumed; [pick] reads such a byte back. *)
Class Lfsr (w : Z) (step : Z -> Z) (place : nat -> Z -> Z) (pick : nat -> Z -> Z) := {
  lfsr_width : 0 <= w;
  lfsr_linear x y : step (Z.lxor x y) = Z.lxor (step x) (step y);
  lfsr_range x : 0 <= x < 2 ^ w -> 0 <= step x < 2 ^ w;
  lfsr_kernel x : 0 <= x < 2 ^ w -> step x = 0 -> x = 0;
  lfsr_place i b : is_byte b -> 8 * Z.of_nat (S i) <= w -> 0 <= place i b < 2 ^ w;
  lfsr_place_linear i a b : place i (Z.lxor a b) = Z.lxor (place i a) (place i b);
  lfsr_place_step i b :
    is_byte b -> 8 * Z.of_nat (S (S i)) <= w -> step (place (S i) b) = place i b;
  lfsr_pick_linear i x y : pick i (Z.lxor x y) = Z.lxor (pick i x) (pick i y);
  lfsr_pick_same i b : is_byte b -> 8 * Z.of_nat (S i) <= w -> pick i (place i b) = b;
  lfsr_pick_other i j b :
    is_byte b -> i <> j -> 8 * Z.of_nat (S i) <= w -> 8 * Z.of_nat (S j) <= w ->
    pick i (place j b) = 0;
}.

Section LfsrTheory.
Context {w : Z} {step : Z -> Z} {place : nat -> Z -> Z} {pick : nat -> Z -> Z}.
Context {L : Lfsr w step place pick}.
Implicit Types (c b : Z) (m : list byte).

Definition feed c b : Z := step (Z.lxor c (place 0 b)).
Definition feeds c m : Z := fold_left feed m c.

(** The message bytes of [m] placed in one register. *)
Fixpoint packed (i : nat) m : Z :=
  match m with [] => 0 | b :: m => Z.lxor (place i b) (packed (S i) m) end.

Lemma lfsr_step_0 : step 0 = 0.
Proof. rewrite <- (Z.lxor_nilpotent 0), lfsr_linear. apply Z.lxor_nilpotent. Qed.

Lemma packed_range i m :
  Forall is_byte m -> 8 * (Z.of_nat i + Z.of_nat (length m)) <= w ->
  0 <= packed i m < 2 ^ w.
Proof.
  intros Hm. revert i. induction Hm as [|b m Hb Hm IH]; intros i Hi; simpl in *.
  - pose proof lfsr_width. lia.
  - apply lxor_bounded; [apply lfsr_width| |apply IH; lia].
    apply lfsr_place; [done|lia].
Qed.

Lemma packed_step i m :
  Forall is_byte m -> 8 * (Z.of_nat (S i) + Z.of_nat (length m)) <= w ->
  step (packed (S i) m) = packed i m.
Proof.
  intros Hm. revert i. induction Hm as [|b m Hb Hm IH]; intros i Hi; simpl in *.
  - apply lfsr_step_0.
  - rewrite lfsr_linear, IH, lfsr_place_step; done || lia.
Qed.

Lemma packed_pick_low i j m :
  Forall is_byte m -> (j < i)%nat -> 8 * (Z.of_nat i + Z.of_nat (length m)) <= w ->
  pick j (packed i m) = 0.
Proof.
  intros Hm. revert i. induction Hm as [|b m Hb Hm IH]; intros i Hj Hi; simpl in *.
  - rewrite <- (Z.lxor_nilpotent 0), lfsr_pick_linear. apply Z.lxor_nilpotent.
  - rewrite lfsr_pick_linear, IH, lfsr_pick_other by (done || lia). done.
Qed.

Lemma packed_inj i m1 m2 :
  Forall is_byte m1 -> Forall is_byte m2 -> length m1 = length m2 ->
  8 * (Z.of_nat i + Z.of_nat (length m1)) <= w ->
  packed i m1 = packed i m2 -> m1 = m2.
Proof.
  intros Hm1. revert i m2. induction Hm1 as [|a m1 Ha Hm1 IH]; intros i m2 Hm2 Hl Hi Heq.
  { by destruct m2. }
  destruct Hm2 as [|b m2 Hb Hm2]; [done|]. simpl in *.
  assert (a = b) as <-.
  { apply (f_equal (pick i)) in Heq.
    rewrite !lfsr_pick_linear, !packed_pick_low, !lfsr_pick_same, !Z.lxor_0_r in Heq
      by (done || lia). done. }
  f_equal. apply (IH (S i)); [done|lia|lia|].
  apply (f_equal (Z.lxor (place i a))) in Heq.
  by rewrite <- !Z.lxor_assoc, !Z.lxor_nilpotent, !Z.lxor_0_l in Heq.
Qed.

Lemma feed_range c b :
  0 <= c < 2 ^ w -> is_byte b -> 8 <= w -> 0 <= feed c b < 2 ^ w.
Proof.
  intros. unfold feed. apply lfsr_range, lxor_bounded; [lia|done|].
  by apply lfsr_place; [|lia].
Qed.

Lemma feeds_range c m :
  0 <= c < 2 ^ w -> Forall is_byte m -> 8 <= w -> 0 <= feeds c m < 2 ^ w.
Proof.
  intros Hc Hm Hw. revert c Hc. induction Hm as [|b m Hb Hm IH]; intros c Hc; simpl.
  { done. }
  by apply IH, feed_range.
Qed.

(** A message no longer than the register is a function of the register with
    the whole message xored in. *)
Lemma feeds_packed c m :
  Forall is_byte m -> 8 * Z.of_nat (length m) <= w ->
  feeds c m = Nat.iter (length m) step (Z.lxor c (packed 0 m)).
Proof.
  intros Hm. revert c. induction Hm as [|b m Hb Hm IH]; intros c Hl.
  - simpl. by rewrite Z.lxor_0_r.
  - cbn [feeds fold_left length packed] in *. fold (feeds (feed c b) m).
    rewrite IH by lia. rewrite Nat.iter_succ_r. f_equal. unfold feed.
    rewrite <- (packed_step 0), <- lfsr_linear by (done || lia).
    by rewrite Z.lxor_assoc.
Qed.

Lemma step_inj x y : 0 <= x < 2 ^ w -> 0 <= y < 2 ^ w -> step x = step y -> x = y.
Proof.
  intros Hx Hy Heq. apply Z.lxor_eq. apply lfsr_kernel.
  - apply lxor_bounded; [apply lfsr_width|done..].
  - rewrite lfsr_linear, Heq. apply Z.lxor_nilpotent.
Qed.

Lemma iter_step_inj n x y :
  0 <= x < 2 ^ w -> 0 <= y < 2 ^ w -> Nat.iter n step x = Nat.iter n step y -> x = y.
Proof.
  induction n as [|n IH] in x, y |- *; [done|]. intros Hx Hy.
  rewrite !Nat.iter_succ_r. intros Heq.
  apply IH in Heq; [|by apply lfsr_range..]. by apply step_inj.
Qed.

Lemma feeds_inj c1 c2 m :
  0 <= c1 < 2 ^ w -> 0 <= c2 < 2 ^ w -> Forall is_byte m -> 8 <= w ->
  feeds c1 m = feeds c2 m -> c1 = c2.
Proof.
  intros H1 H2 Hm Hw. revert c1 c2 H1 H2.
  induction Hm as [|b m Hb Hm IH]; intros c1 c2 H1 H2; [done|].
  cbn [feeds fold_left]. intros Heq.
  assert (0 <= place 0 b < 2 ^ w) by (apply lfsr_place; [done|lia]).
  apply IH in Heq; [|by apply feed_range..].
  unfold feed in Heq.
  apply (step_inj (Z.lxor c1 (place 0 b))) in Heq; [|apply lxor_bounded; done || lia..].
  apply (f_equal (fun x => Z.lxor x (place 0 b))) in Heq.
  by rewrite !Z.lxor_assoc, !Z.lxor_nilpotent, !Z.lxor_0_r in Heq.
Qed.

(** Burst detection: two messages that agree outside a window no longer than
    the register, and differ inside it, leave different remainders. *)
Lemma feeds_burst c pre m1 m2 post :
  0 <= c < 2 ^ w -> 8 <= w ->
  Forall is_byte (pre ++ m1 ++ post) -> Forall is_byte m2 ->
  length m1 = length m2 -> 8 * Z.of_nat (length m1) <= w -> m1 <> m2 ->
  feeds c (pre ++ m1 ++ post) <> feeds c (pre ++ m2 ++ post).
Proof.
  intros Hc Hw Hall Hm2 Hl Hlw Hne Heq. apply Hne.
  apply Forall_app in Hall as [Hpre Hall]. apply Forall_app in Hall as [Hm1 Hpost].
  unfold feeds in Heq. rewrite !fold_left_app in Heq.
  fold (feeds c pre) in Heq. set (c' := feeds c pre) in *.
  assert (0 <= c' < 2 ^ w) as Hc' by (by apply feeds_range).
  fold (feeds c' m1) (feeds c' m2) in Heq.
  apply feeds_inj in Heq; [|by apply feeds_range..|done|done].
  rewrite !feeds_packed, <- Hl in Heq by (done || lia).
  apply iter_step_inj in Heq;
    [|apply lxor_bounded; [lia|done|apply packed_range; done || lia]..].
  apply (f_equal (Z.lxor c')) in Heq.
  rewrite <- !Z.lxor_assoc, !Z.lxor_nilpotent, !Z.lxor_0_l in Heq.
  apply (packed_inj 0); done || lia.
Qed.
End LfsrTheory.

(** ** Least significant bit first *)
Section Lsb.
Context (w poly : Z).
Context (Hw : 8 <= w) (Hpoly : 0 <= poly < 2 ^ w) (Htop : Z.testbit poly (w - 1) = true).
Local Notation bit := (lsb_bit poly).
Local Notation step8 := (Nat.iter 8 (lsb_bit poly)).

Lemma lsb_bit_linear x y : bit (Z.lxor x y) = Z.lxor (bit x) (bit y).
Proof.
  unfold lsb_bit. rewrite <- !Z.bit0_odd, Z.lxor_spec.
  destruct (Z.testbit x 0), (Z.testbit y 0); simpl; rewrite Z.shiftr_lxor;
    apply Z.bits_inj'; intros n Hn; autorewrite with bits;
    destruct (Z.testbit x (n + 1)), (Z.testbit y (n + 1)), (Z.testbit poly n); done.
Qed.

Lemma lsb_bit_range x : 0 <= x < 2 ^ w -> 0 <= bit x < 2 ^ w.
Proof.
  intros. unfold lsb_bit. destruct (Z.odd x); auto with bits lia.
Qed.

Lemma lsb_bit_kernel x : 0 <= x < 2 ^ w -> bit x = 0 -> x = 0.
Proof.
  intros Hx H0. unfold lsb_bit in H0. destruct (Z.odd x) eqn:Ho.
  - apply (f_equal (fun z => Z.testbit z (w - 1))) in H0.
    rewrite Z.lxor_spec, Htop, Z.shiftr_spec, Z.testbit_0_l in H0 by lia.
    rewrite (testbit_high w) in H0; done || lia.
  - rewrite Z.shiftr_div_pow2 in H0 by lia. change (2 ^ 1) with 2 in H0.
    rewrite Zodd_mod in Ho. apply Zeq_bool_neq in Ho.
    pose proof (Z.mod_pos_bound x 2). pose proof (Z_div_mod_eq_full x 2). lia.
Qed.

Lemma lsb_iter_zero_low n x :
  (forall k, 0 <= k < Z.of_nat n -> Z.testbit x k = false) ->
  Nat.iter n bit x = Z.shiftr x (Z.of_nat n).
Proof.
  induction n as [|n IH]; intros H; [done|]. cbn [Nat.iter nat_rect].
  change (nat_rect _ x (fun _ => bit) n) with (Nat.iter n bit x).
  rewrite IH by (intros; apply H; lia). unfold lsb_bit.
  rewrite <- Z.bit0_odd, Z.shiftr_spec, H by lia.
  rewrite Z.shiftr_shiftr by lia. f_equal. lia.
Qed.

#[export] Instance lsb_lfsr :
  Lfsr w step8 (fun i b => Z.shiftl b (8 * Z.of_nat i))
    (fun i x => Z.land (Z.shiftr x (8 * Z.of_nat i)) 0xff).
Proof.
  split.
  - lia.
  - intros x y. cbn [Nat.iter nat_rect]. by rewrite !lsb_bit_linear.
  - intros. cbn [Nat.iter nat_rect]. by do 8 apply lsb_bit_range.
  - intros x Hx H0. cbn [Nat.iter nat_rect] in H0.
    by repeat (apply lsb_bit_kernel in H0; [|repeat apply lsb_bit_range; done]).
  - intros i b Hb Hi. rewrite Z.shiftl_mul_pow2 by lia. unfold is_byte in Hb.
    replace w with (8 + 8 * Z.of_nat i + (w - 8 - 8 * Z.of_nat i)) by lia.
    rewrite !Z.pow_add_r by lia. change (2 ^ 8) with 256.
    assert (0 < 2 ^ (8 * Z.of_nat i)) by lia.
    assert (0 < 2 ^ (w - 8 - 8 * Z.of_nat i)) by lia. nia.
  - intros. apply Z.shiftl_lxor.
  - intros i b Hb Hi. rewrite lsb_iter_zero_low.
    + rewrite Z.shiftr_shiftl_l by lia. f_equal. lia.
    + intros k Hk. apply Z.shiftl_spec_low. lia.
  - intros. apply Z.bits_inj'. intros n Hn. autorewrite with bits.
    destruct (Z.testbit 0xff n); by rewrite ?andb_true_r, ?andb_false_r.
  - intros i b Hb Hi. rewrite Z.shiftr_shiftl_l, Z.sub_diag, Z.shiftl_0_r by lia.
    change 0xff with (Z.ones 8). rewrite Z.land_ones by lia. by apply Z.mod_small.
  - intros i j b Hb Hij Hi Hj. apply Z.bits_inj'. intros n Hn.
    change 0xff with (Z.ones 8). rewrite Z.land_spec, Z.testbit_0_l.
    destruct (Z.ltb_spec n 8).
    + rewrite Z.shiftr_spec, Z.shiftl_spec by lia.
      destruct (Z.ltb_spec (n + 8 * Z.of_nat i) (8 * Z.of_nat j)).
      * by rewrite testbit_neg_idx by lia.
      * rewrite (testbit_high 8); [done|apply Hb|lia].
    + rewrite Z.ones_spec_high by lia. by rewrite andb_false_r.
Qed.

(** One table look-up per byte is eight shift-and-subtract steps. *)
Lemma lsb_table_step tab c b :
  (forall i, 0 <= i < 256 -> nthZ tab i = step8 i) -> is_byte b ->
  Z.lxor (nthZ tab (Z.land (Z.lxor c b) 0xff)) (Z.shiftr c 8) = lsb_byte poly c b.
Proof.
  intros Htab Hb. unfold lsb_byte. rewrite Htab by apply land_ff_bounded.
  set (x := Z.lxor c b).
  transitivity (step8 (Z.lxor (Z.land x 0xff) (Z.ldiff x 0xff))).
  - cbn [Nat.iter nat_rect]. rewrite !lsb_bit_linear. f_equal.
    change (Z.shiftr c 8 = Nat.iter 8 bit (Z.ldiff x 255)).
    change 0xff with (Z.ones 8). rewrite lsb_iter_zero_low.
    + change (Z.of_nat 8) with 8. apply Z.bits_inj'. intros n Hn.
      rewrite !Z.shiftr_spec, Z.ldiff_spec, Z.ones_spec_high by lia.
      unfold x. rewrite Z.lxor_spec, (testbit_high 8 b) by (apply Hb || lia).
      by rewrite xorb_false_r, andb_true_r.
    + intros k Hk. rewrite Z.ldiff_spec, Z.ones_spec_low by lia. by rewrite andb_false_r.
  - f_equal. apply Z.bits_inj'. intros n Hn.
    rewrite Z.lxor_spec, Z.land_spec, Z.ldiff_spec.
    by destruct (Z.testbit x n), (Z.testbit 0xff n).
Qed.
End Lsb.

(** ** Most significant bit first *)
Section Msb.
Context (w poly : Z).
Context (Hw : 8 <= w) (Hpoly : 0 <= poly < 2 ^ w) (Hodd : Z.testbit poly 0 = true).
Local Notation bit := (msb_bit w poly).
Local Notation step8 := (Nat.iter 8 (msb_bit w poly)).

Lemma msb_bit_linear x y : bit (Z.lxor x y) = Z.lxor (bit x) (bit y).
Proof.
  unfold msb_bit. rewrite Z.lxor_spec.
  destruct (Z.testbit x (w - 1)), (Z.testbit y (w - 1)); simpl; rewrite Z.shiftl_lxor;
    apply Z.bits_inj'; intros n Hn; autorewrite with bits;
    destruct (Z.testbit x (n - 1)), (Z.testbit y (n - 1)), (Z.testbit poly n), (n <? w);
    done.
Qed.

Lemma msb_bit_range x : 0 <= bit x < 2 ^ w.
Proof.
  unfold msb_bit. destruct (Z.testbit x (w - 1)); auto using uwrap_range with bits lia.
Qed.

Lemma msb_bit_kernel x : 0 <= x < 2 ^ w -> bit x = 0 -> x = 0.
Proof.
  intros Hx H0. unfold msb_bit in H0. destruct (Z.testbit x (w - 1)) eqn:Ht.
  - apply (f_equal (fun z => Z.testbit z 0)) in H0. autorewrite with bits in H0.
    rewrite Hodd, testbit_neg_idx, andb_false_r in H0 by lia. done.
  - apply Z.bits_inj'. intros n Hn. rewrite Z.testbit_0_l.
    destruct (Z.ltb_spec n (w - 1)).
    + apply (f_equal (fun z => Z.testbit z (n + 1))) in H0. autorewrite with bits in H0.
      replace (n + 1 - 1) with n in H0 by lia.
      rewrite (proj2 (Z.ltb_lt (n + 1) w)) in H0 by lia. done.
    + destruct (Z.eqb_spec n (w - 1)) as [->|]; [done|].
      apply (testbit_high w); [done|lia].
Qed.

Lemma msb_iter_zero_high n x :
  0 <= x < 2 ^ w -> Z.of_nat n <= w ->
  (forall k, w - Z.of_nat n <= k -> Z.testbit x k = false) ->
  Nat.iter n bit x = Z.shiftl x (Z.of_nat n).
Proof.
  intros Hx. induction n as [|n IH]; intros Hn H; [done|]. cbn [Nat.iter nat_rect].
  change (nat_rect _ x (fun _ => bit) n) with (Nat.iter n bit x).
  rewrite IH by (intros; lia || apply H; lia). unfold msb_bit.
  rewrite Z.shiftl_spec, H, Z.shiftl_shiftl by lia.
  replace (Z.of_nat n + 1) with (Z.of_nat (S n)) by lia.
  apply uwrap_small, bits_bounded; [lia|]. intros k Hk.
  rewrite Z.shiftl_spec by lia. apply H. lia.
Qed.

Lemma msb_place_range i b :
  is_byte b -> 8 * Z.of_nat (S i) <= w ->
  0 <= Z.shiftl b (w - 8 - 8 * Z.of_nat i) < 2 ^ w.
Proof.
  intros Hb Hi. apply bits_bounded; [lia|]. intros n Hn.
  rewrite Z.shiftl_spec by lia. apply (testbit_high 8); [apply Hb|lia].
Qed.

#[export] Instance msb_lfsr :
  Lfsr w step8 (fun i b => Z.shiftl b (w - 8 - 8 * Z.of_nat i))
    (fun i x => Z.land (Z.shiftr x (w - 8 - 8 * Z.of_nat i)) 0xff).
Proof.
  split.
  - lia.
  - intros x y. cbn [Nat.iter nat_rect]. by rewrite !msb_bit_linear.
  - intros. cbn [Nat.iter nat_rect]. apply msb_bit_range.
  - intros x Hx H0. cbn [Nat.iter nat_rect] in H0.
    by repeat (apply msb_bit_kernel in H0; [|apply msb_bit_range || done]).
  - apply msb_place_range.
  - intros. apply Z.shiftl_lxor.
  - intros i b Hb Hi. rewrite msb_iter_zero_high; [|by apply msb_place_range; [|lia]|lia|].
    + rewrite Z.shiftl_shiftl by lia. f_equal. lia.
    + intros k Hk. rewrite Z.shiftl_spec by lia. apply (testbit_high 8); [apply Hb|lia].
  - intros i x y. rewrite Z.shiftr_lxor. apply Z.bits_inj'. intros n Hn.
    autorewrite with bits.
    destruct (Z.testbit 0xff n); by rewrite ?andb_true_r, ?andb_false_r.
  - intros i b Hb Hi. rewrite Z.shiftr_shiftl_l, Z.sub_diag, Z.shiftl_0_r by lia.
    change 0xff with (Z.ones 8). rewrite Z.land_ones by lia. by apply Z.mod_small.
  - intros i j b Hb Hij Hi Hj. apply Z.bits_inj'. intros n Hn.
    change 0xff with (Z.ones 8). rewrite Z.land_spec, Z.testbit_0_l.
    destruct (Z.ltb_spec n 8).
    + rewrite Z.shiftr_spec, Z.shiftl_spec by lia.
      set (k := n + _ - _).
      destruct (Z.ltb_spec k 0); [by rewrite testbit_neg_idx|].
      rewrite (testbit_high 8); [done|apply Hb|lia].
    + rewrite Z.ones_spec_high by lia. by rewrite andb_false_r.
Qed.

Lemma msb_table_step tab c b :
  (forall i, 0 <= i < 256 -> nthZ tab i = step8 (Z.shiftl i (w - 8))) ->
  0 <= c < 2 ^ w -> is_byte b ->
  Z.lxor (uwrap w (Z.shiftl c 8)) (nthZ tab (Z.land (Z.lxor (Z.shiftr c (w - 8)) b) 0xff))
    = msb_byte w poly c b.
Proof.
  intros Htab Hc Hb. unfold msb_byte. rewrite Htab by apply land_ff_bounded.
  set (h := Z.land _ 0xff). rewrite Z.lxor_comm.
  assert (forall k, w - 8 <= k -> Z.testbit (uwrap (w - 8) c) k = false) as Hlow.
  { intros k Hk. rewrite uwrap_testbit by lia. by rewrite (proj2 (Z.ltb_ge k (w - 8))). }
  transitivity (step8 (Z.lxor (Z.shiftl h (w - 8)) (uwrap (w - 8) c))).
  - cbn [Nat.iter nat_rect]. rewrite !msb_bit_linear. f_equal.
    change (uwrap w (Z.shiftl c 8) = Nat.iter 8 bit (uwrap (w - 8) c)).
    rewrite msb_iter_zero_high; [|split|lia|done].
    + change (Z.of_nat 8) with 8. apply Z.bits_inj'. intros n Hn.
      autorewrite with bits. destruct (Z.ltb_spec n 8); [|].
      * rewrite !testbit_neg_idx by lia. by rewrite !andb_false_r.
      * f_equal. destruct (Z.ltb_spec n w), (Z.ltb_spec (n - 8) (w - 8)); done || lia.
    + apply uwrap_range. lia.
    + apply Z.lt_le_trans with (2 ^ (w - 8)); [apply uwrap_range; lia|].
      apply Z.pow_le_mono_r; lia.
  - f_equal. apply Z.bits_inj'. intros n Hn. autorewrite with bits.
    destruct (Z.ltb_spec n (w - 8)).
    + by rewrite !(testbit_neg_idx _ (n - _)), xorb_false_l, xorb_false_r by lia.
    + rewrite andb_false_l, xorb_false_r. unfold h. change 0xff with (Z.ones 8).
      rewrite Z.land_spec. destruct (Z.ltb_spec n w).
      * rewrite Z.ones_spec_low, andb_true_r, Z.lxor_spec, Z.shiftr_spec by lia.
        do 2 f_equal. lia.
      * rewrite Z.ones_spec_high, andb_false_r by lia.
        rewrite (testbit_high w), (testbit_high 8 b); done || apply Hb || lia.
Qed.
End Msb.

(** ** The three engines *)
Definition crc32_poly : Z := 0xedb88320.
Definition crc16_poly : Z := 0x1021.
Definition posix_poly : Z := 0x04c11db7.

(** A statement about all bytes, decided by enumeration. *)
Lemma byte_cases (p : Z -> bool) :
  forallb p (seqZ 0 256) = true -> forall i, 0 <= i < 256 -> p i = true.
Proof. intros H i Hi. rewrite forallb_forall in H. apply H, list_elem_of_In, elem_of_seqZ. lia. Qed.

Lemma crc32_tab_ok i :
  0 <= i < 256 -> nthZ crc32_tab i = Nat.iter 8 (lsb_bit crc32_poly) i.
Proof.
  intros Hi. apply Z.eqb_eq. revert i Hi. apply byte_cases. vm_compute. reflexivity.
Qed.

Lemma crc16_tab_ok i :
  0 <= i < 256 -> nthZ crc16_tab i = Nat.iter 8 (msb_bit 16 crc16_poly) (Z.shiftl i (16 - 8)).
Proof.
  intros Hi. apply Z.eqb_eq. revert i Hi. apply byte_cases. vm_compute. reflexivity.
Qed.

Lemma posix_tab_ok i :
  0 <= i < 256 ->
  nthZ posix_crc32_tab i = Nat.iter 8 (msb_bit 32 posix_poly) (Z.shiftl i (32 - 8)).
Proof.
  intros Hi. apply Z.eqb_eq. revert i Hi. apply byte_cases. vm_compute. reflexivity.
Qed.

#[export] Instance crc32_lfsr : Lfsr 32 _ _ _ :=
  lsb_lfsr 32 crc32_poly ltac:(lia) ltac:(unfold crc32_poly; lia) eq_refl.
#[export] Instance crc16_lfsr : Lfsr 16 _ _ _ :=
  msb_lfsr 16 crc16_poly ltac:(lia) ltac:(unfold crc16_poly; lia) eq_refl.
#[export] Instance posix_lfsr : Lfsr 32 _ _ _ :=
  msb_lfsr 32 posix_poly ltac:(lia) ltac:(unfold posix_poly; lia) eq_refl.

(** The bit-serial byte step is the engine's [feed]. *)
Lemma lsb_byte_feed poly c b :
  lsb_byte poly c b
  = feed (step := Nat.iter 8 (lsb_bit poly))
         (place := fun i b => Z.shiftl b (8 * Z.of_nat i)) c b.
Proof. unfold feed, lsb_byte. by rewrite Z.shiftl_0_r. Qed.

Lemma msb_byte_feed w poly c b :
  msb_byte w poly c b
  = feed (step := Nat.iter 8 (msb_bit w poly))
         (place := fun i b => Z.shiftl b (w - 8 - 8 * Z.of_nat i)) c b.
Proof. unfold feed, msb_byte. by rewrite Z.sub_0_r. Qed.

Lemma lsb_bytes_feeds poly m c :
  fold_left (lsb_byte poly) m c
  = feeds (step := Nat.iter 8 (lsb_bit poly))
          (place := fun i b => Z.shiftl b (8 * Z.of_nat i)) c m.
Proof. apply fold_left_ext. apply lsb_byte_feed. Qed.

Lemma msb_bytes_feeds w poly m c :
  fold_left (msb_byte w poly) m c
  = feeds (step := Nat.iter 8 (msb_bit w poly))
          (place := fun i b => Z.shiftl b (w - 8 - 8 * Z.of_nat i)) c m.
Proof. apply fold_left_ext. apply msb_byte_feed. Qed.

Lemma ether_crc32_plain crc s len :
  cyg_ether_crc32_accumulate crc (Some s) len
  = Z.lxor (cyg_crc32_accumulate (Z.lxor crc 0xffffffff) s len) 0xffffffff.
Proof. done. Qed.

Lemma lxor_inv x y m : Z.lxor x m = Z.lxor y m -> x = y.
Proof.
  intros H. apply (f_equal (fun z => Z.lxor z m)) in H.
  by rewrite !Z.lxor_assoc, !Z.lxor_nilpotent, !Z.lxor_0_r in H.
Qed.

Lemma upto_is_byte s len : Forall is_byte s -> Forall is_byte (upto s len).
Proof. apply Forall_take. Qed.

Lemma upto_all s : upto s (Z.of_nat (length s)) = s.
Proof. unfold upto. rewrite Nat2Z.id. apply firstn_all. Qed.

Lemma lsb_byte_range c b : fits 32 c -> is_byte b -> fits 32 (lsb_byte crc32_poly c b).
Proof. intros. rewrite lsb_byte_feed. apply feed_range; done || lia. Qed.

Lemma msb_byte_range16 c b : fits 16 c -> is_byte b -> fits 16 (msb_byte 16 crc16_poly c b).
Proof. intros. rewrite msb_byte_feed. apply feed_range; done || lia. Qed.

Lemma msb_byte_range32 c b : fits 32 c -> is_byte b -> fits 32 (msb_byte 32 posix_poly c b).
Proof. intros. rewrite msb_byte_feed. apply feed_range; done || lia. Qed.

Lemma crc32_bytes c s len :
  fits 32 c -> Forall is_byte s ->
  cyg_crc32_accumulate c s len = fold_left (lsb_byte crc32_poly) (upto s len) c.
Proof.
  intros Hc Hs. unfold cyg_crc32_accumulate.
  apply (fold_left_ext_inv (fits 32) is_byte); [| |done|by apply upto_is_byte].
  - intros. apply lsb_table_step; [exact 32|apply crc32_tab_ok|done].
  - intros. by apply lsb_byte_range.
Qed.

Lemma crc16_step_ok c b :
  fits 16 c -> is_byte b ->
  u16 (Z.lxor (nthZ crc16_tab (Z.land (Z.lxor (Z.shiftr c 8) b) 0xff)) (Z.shiftl c 8))
  = msb_byte 16 crc16_poly c b.
Proof.
  intros Hc Hb.
  rewrite <- (msb_table_step 16 crc16_poly ltac:(lia) crc16_tab) by (done || apply crc16_tab_ok).
  change (16 - 8) with 8. set (t := nthZ _ _).
  assert (0 <= t < 2 ^ 16) as Ht.
  { unfold t. rewrite crc16_tab_ok by apply land_ff_bounded.
    apply msb_bit_range; unfold crc16_poly; lia. }
  apply Z.bits_inj'. intros n Hn. autorewrite with bits.
  destruct (Z.ltb_spec n 16); simpl; [apply xorb_comm|].
  rewrite (testbit_high 16); done || lia.
Qed.

Lemma crc16_bytes c s len :
  fits 16 c -> Forall is_byte s ->
  cyg_crc16_accumulate c s len = fold_left (msb_byte 16 crc16_poly) (upto s len) c.
Proof.
  intros Hc Hs. unfold cyg_crc16_accumulate.
  apply (fold_left_ext_inv (fits 16) is_byte); [| |done|by apply upto_is_byte].
  - intros. by apply crc16_step_ok.
  - intros. by apply msb_byte_range16.
Qed.

Lemma posix_step_ok c b :
  fits 32 c -> is_byte b -> posix_step c b = msb_byte 32 posix_poly c b.
Proof.
  intros. apply msb_table_step; [lia|apply posix_tab_ok|done|done].
Qed.

Lemma posix_step_low c n :
  posix_step c n = posix_step c (Z.land n 0xff).
Proof.
  unfold posix_step. do 2 f_equal. apply Z.bits_inj'. intros k Hk. autorewrite with bits.
  by destruct (Z.testbit 255 k); rewrite ?andb_true_r, ?andb_false_r.
Qed.

(** POSIX 1003: the message is followed by its length as little-endian octets,
    as few as hold it. *)
Definition length_octets (n : Z) : list byte :=
  map (fun i => (n / 2 ^ (8 * Z.of_nat i)) mod 256)
    (seq 0 (if n =? 0 then 0 else S (Z.to_nat (Z.log2 n / 8)))).

Lemma length_octets_cons n :
  0 < n -> length_octets n = Z.land n 0xff :: length_octets (Z.shiftr n 8).
Proof.
  intros Hn. unfold length_octets.
  rewrite (proj2 (Z.eqb_neq n 0)) by lia. cbn [seq map]. f_equal.
  { change 0xff with (Z.ones 8). rewrite Z.land_ones by lia. by rewrite Z.div_1_r. }
  rewrite Z.shiftr_div_pow2 by lia. change (2 ^ 8) with 256.
  rewrite <- (seq_shift _ 0), map_map.
  assert (forall i, n / 2 ^ (8 * Z.of_nat (S i)) = n / 256 / 2 ^ (8 * Z.of_nat i)) as Hdiv.
  { intros i. rewrite Nat2Z.inj_succ, Z.div_div by lia. f_equal.
    change 256 with (2 ^ 8). rewrite <- Z.pow_add_r by lia. f_equal. lia. }
  assert (Z.to_nat (Z.log2 n / 8)
          = if n / 256 =? 0 then 0%nat else S (Z.to_nat (Z.log2 (n / 256) / 8))) as ->.
  { destruct (Z.eqb_spec (n / 256) 0) as [H0|H0].
    - assert (n < 256) by (apply Z.div_small_iff in H0; lia).
      rewrite Z.div_small; [done|]. split; [apply Z.log2_nonneg|].
      apply Z.log2_lt_pow2; lia.
    - assert (256 <= n) by (apply Z.nlt_ge; intros ?; apply H0, Z.div_small; lia).
      change 256 with (2 ^ 8) at 1. rewrite <- Z.shiftr_div_pow2 by lia.
      rewrite Z.log2_shiftr by lia.
      assert (8 <= Z.log2 n) by (apply Z.log2_le_pow2; lia).
      rewrite Z.max_r by lia.
      replace (Z.log2 n / 8) with ((Z.log2 n - 8) / 8 + 1)
        by (rewrite <- Z.div_add by lia; f_equal; lia).
      pose proof (Z.div_pos (Z.log2 n - 8) 8). lia. }
  apply map_ext. intros i. by rewrite Hdiv.
Qed.

Lemma posix_length_loop_ok fuel c n :
  fits 32 c -> 0 <= n < 2 ^ (8 * Z.of_nat fuel) ->
  posix_length_loop fuel c n = fold_left (msb_byte 32 posix_poly) (length_octets n) c.
Proof.
  revert c n. induction fuel as [|fuel IH]; intros c n Hc Hn; simpl.
  { change (8 * Z.of_nat 0) with 0 in Hn. by replace n with 0 by lia. }
  rewrite Z.gtb_ltb. destruct (Z.ltb_spec 0 n).
  - rewrite length_octets_cons, posix_step_low by lia. cbn [fold_left].
    assert (is_byte (Z.land n 0xff)) by apply land_ff_bounded.
    rewrite posix_step_ok by done. apply IH.
    + by apply msb_byte_range32.
    + rewrite Z.shiftr_div_pow2 by lia. split; [apply Z.div_pos; lia|].
      apply Z.div_lt_upper_bound; [lia|]. rewrite <- Z.pow_add_r by lia.
      replace (8 + 8 * Z.of_nat fuel) with (8 * Z.of_nat (S fuel)) by lia. apply Hn.
  - by replace n with 0 by lia.
Qed.

(** ** Properties *)

(** C40: the table-driven 32-bit CRC of crc32.c (plain and Ethernet variants)
    is, from every register value and on every byte string, the bit-serial
    division by the generator 0xEDB88320; the Ethernet variant complements the
    register before and after. *)
Theorem crc32_is_bitwise_division crc s len :
  fits 32 crc -> Forall is_byte s ->
  cyg_crc32_accumulate crc s len = fold_left (lsb_byte crc32_poly) (upto s len) crc /\
  cyg_ether_crc32_accumulate crc (Some s) len
    = Z.lxor (fold_left (lsb_byte crc32_poly) (upto s len) (Z.lxor crc 0xffffffff)) 0xffffffff.
Proof.
  intros Hc Hs. split; [by apply crc32_bytes|].
  rewrite ether_crc32_plain, crc32_bytes; [done| |done]. apply lxor_bounded; done || lia.
Qed.

Example crc32_is_bitwise_division_witness :
  cyg_ether_crc32 (Some [49; 50; 51; 52; 53; 54; 55; 56; 57]) 9 = 0xcbf43926 /\
  cyg_crc32_accumulate 0 [49; 50; 51] 3 = fold_left (lsb_byte crc32_poly) [49; 50; 51] 0.
Proof.
  split; [vm_compute; reflexivity|].
  apply (crc32_is_bitwise_division 0 [49; 50; 51] 3).
  - split; vm_compute; congruence.
  - repeat constructor; vm_compute; congruence.
Defined.

(** C0: [cyg_posix_crc32] is the POSIX 1003 [cksum]: bit-serial division by
    0x04C11DB7, most significant bit first, of the message followed by the
    octets of its length, complemented at the end. The length loop terminates
    within the four octets of an [unsigned long]. *)
Theorem posix_crc32_is_cksum s len :
  Forall is_byte s -> 0 <= len < 2 ^ 31 ->
  cyg_posix_crc32 s len
  = u32 (Z.lnot (fold_left (msb_byte 32 posix_poly) (upto s len ++ length_octets len) 0)).
Proof.
  intros Hs Hlen. unfold cyg_posix_crc32.
  rewrite (fold_left_ext_inv (fits 32) is_byte posix_step (msb_byte 32 posix_poly));
    [|intros; by apply posix_step_ok|intros; by apply msb_byte_range32|done
     |by apply upto_is_byte].
  assert (fits 32 (fold_left (msb_byte 32 posix_poly) (upto s len) 0)) as Hfit.
  { apply (fold_left_inv (fits 32) is_byte); [intros; by apply msb_byte_range32|done|].
    by apply upto_is_byte. }
  rewrite fold_left_app, (uwrap_small 32 len), posix_length_loop_ok by (done || lia).
  done.
Qed.

Example posix_crc32_is_cksum_witness :
  cyg_posix_crc32 [49; 50; 51; 52; 53; 54; 55; 56; 57] 9 = 930766865 /\
  cyg_posix_crc32 [97] 1
  = u32 (Z.lnot (fold_left (msb_byte 32 posix_poly) (upto [97] 1 ++ length_octets 1) 0)).
Proof.
  split; [vm_compute; reflexivity|].
  apply (posix_crc32_is_cksum [97] 1).
  - repeat constructor; vm_compute; congruence.
  - split; vm_compute; congruence.
Defined.

(** Burst detection. Corrupting any window of at most two consecutive
    bytes changes the 16-bit CRC, and any window of at most four changes the
    Ethernet CRC, whatever surrounds the window. *)
Theorem crc_detects_bursts pre m1 m2 post :
  Forall is_byte (pre ++ m1 ++ post) -> Forall is_byte m2 ->
  length m1 = length m2 -> m1 <> m2 ->
  let len := Z.of_nat (length (pre ++ m1 ++ post)) in
  ((length m1 <= 2)%nat ->
     cyg_crc16 (pre ++ m1 ++ post) len <> cyg_crc16 (pre ++ m2 ++ post) len) /\
  ((length m1 <= 4)%nat ->
     cyg_ether_crc32 (Some (pre ++ m1 ++ post)) len
     <> cyg_ether_crc32 (Some (pre ++ m2 ++ post)) len).
Proof.
  intros H1 Hm2 Hl Hne len.
  assert (Forall is_byte (pre ++ m2 ++ post)) as H2.
  { rewrite !Forall_app in H1. rewrite !Forall_app. by destruct H1 as (? & ? & ?). }
  assert (len = Z.of_nat (length (pre ++ m2 ++ post))) as Hlen
    by (unfold len; rewrite !length_app; lia).
  split; intros Hw Heq.
  - unfold cyg_crc16 in Heq. rewrite !crc16_bytes in Heq by done.
    rewrite Hlen in Heq at 2. unfold len in Heq. rewrite !upto_all, !msb_bytes_feeds in Heq.
    revert Heq. apply (feeds_burst (L := crc16_lfsr)); done || lia.
  - unfold cyg_ether_crc32 in Heq. rewrite !ether_crc32_plain in Heq.
    apply lxor_inv in Heq. rewrite !crc32_bytes in Heq by done.
    rewrite Hlen in Heq at 2. unfold len in Heq. rewrite !upto_all, !lsb_bytes_feeds in Heq.
    revert Heq. apply (feeds_burst (L := crc32_lfsr)); done || lia.
Qed.

Example crc_detects_bursts_witness :
  cyg_crc16 [1; 2; 3; 4] 4 <> cyg_crc16 [1; 9; 8; 4] 4 /\
  cyg_ether_crc32 (Some [1; 2; 3; 4]) 4 <> cyg_ether_crc32 (Some [1; 9; 8; 4]) 4.
Proof.
  assert (Forall is_byte ([1] ++ [2; 3] ++ [4])) as H by (repeat constructor; vm_compute; congruence).
  assert (Forall is_byte [9; 8]) as H' by (repeat constructor; vm_compute; congruence).
  pose proof (crc_detects_bursts [1] [2; 3] [9; 8] [4] H H' eq_refl ltac:(congruence)) as AB.
  split; [apply AB|apply AB]; cbn; lia.
Defined.

(** The Ethernet CRC of a buffer can be accumulated chunk by chunk: the
    final complement of one call is undone by the first of the next. *)
Theorem ether_crc32_chunks crc s t :
  cyg_ether_crc32_accumulate
    (cyg_ether_crc32_accumulate crc (Some s) (Z.of_nat (length s)))
    (Some t) (Z.of_nat (length t))
  = cyg_ether_crc32_accumulate crc (Some (s ++ t)) (Z.of_nat (length (s ++ t))).
Proof.
  rewrite !ether_crc32_plain. unfold cyg_crc32_accumulate.
  by rewrite !upto_all, fold_left_app, Z.lxor_assoc, Z.lxor_nilpotent, Z.lxor_0_r.
Qed.
