(* ===== verification/RbTree.v ===== *)
(** * Red-black trees: [compat/linux/current/src/rbtree.c]

    The C tree is a graph of [struct rb_node] with parent pointers. Here a tree
    is an inductive value, and a node together with its chain of parents is a
    focused subtree and a list of frames (a zipper): [RB_PARENT] pops a frame,
    the rotations rebuild the subtree in focus, and storing a child into
    [RB_LEFT(parent)] or [RB_RIGHT(parent)] is plugging it into the frame.
    Dereferencing a null node is [None].

    Colours, rotations, insertion fix-up, erase and traversal follow the C code
    case by case; the theorems show that they keep the in-order sequence, the
    colour discipline and the black height, hence logarithmic depth. *)
From S2P Require Import Prelude.

Inductive color := RB_RED | RB_BLACK.

#[export] Instance color_eq_dec : EqDecision color.
Proof. solve_decision. Defined.

Section Tree.
Context {A : Type}.

Inductive tree :=
  | Nil
  | Node (rb_color : color) (rb_left : tree) (elm : A) (rb_right : tree).

(** A parent, seen from the child in focus: [InLeft] when the focus is the
    parent's left child (the frame keeps the right one), [InRight] otherwise. *)
Inductive frame :=
  | InLeft (rb_color : color) (elm : A) (rb_right : tree)
  | InRight (rb_color : color) (rb_left : tree) (elm : A).

Implicit Types (t l r elm : tree) (p : list frame) (f : frame).

Definition frame_color f : color :=
  match f with InLeft c _ _ => c | InRight c _ _ => c end.

Definition frame_elem f : A :=
  match f with InLeft _ x _ => x | InRight _ _ x => x end.

(** The other child of the parent. *)
Definition sibling f : tree :=
  match f with InLeft _ _ r => r | InRight _ l _ => l end.

Definition fill f t : tree :=
  match f with InLeft c x r => Node c t x r | InRight c l x => Node c l x t end.

(** The whole tree, from the focus up to the root. *)
Definition plug t p : tree := fold_left (fun t f => fill f t) p t.

Definition is_red t : bool :=
  match t with Node RB_RED _ _ _ => true | _ => false end.

(** [elm == NULL || RB_COLOR(elm) == RB_BLACK] *)
Definition is_black t : bool := negb (is_red t).

(** [RB_COLOR(t) = c], when [t] is not null. *)
Definition set_color c t : tree :=
  match t with Node _ l x r => Node c l x r | Nil => Nil end.

Definition set_frame_color c f : frame :=
  match f with InLeft _ x r => InLeft c x r | InRight _ l x => InRight c l x end.

(** ** Insertion *)

(** [rb_link_node]: the new node is a red leaf at the link reached. *)
Definition rb_link_node (x : A) : tree := Node RB_RED Nil x Nil.

(** [rb_insert_color]: [t] is [elm], the frames are its ancestors. *)
Fixpoint rb_insert_color t p : option tree :=
  match p with
  | [] => Some (set_color RB_BLACK t)
  | parent :: p =>
      if decide (frame_color parent = RB_BLACK)
      then Some (set_color RB_BLACK (plug (fill parent t) p))
      else
        match p with
        | [] => None
        | gparent :: p =>
            if is_red (sibling gparent) then
              rb_insert_color
                (fill (match gparent with
                       | InLeft _ g u => InLeft RB_RED g (set_color RB_BLACK u)
                       | InRight _ u g => InRight RB_RED (set_color RB_BLACK u) g
                       end)
                   (fill (set_frame_color RB_BLACK parent) t)) p
            else
              match gparent, parent, t with
              (* parent is gparent's left child *)
              | InLeft _ g u, InLeft _ x b, _ =>
                  Some (set_color RB_BLACK (plug (Node RB_BLACK t x (Node RB_RED b g u)) p))
              | InLeft _ g u, InRight _ a x, Node ct b y c =>
                  Some (set_color RB_BLACK
                    (plug (Node RB_BLACK (Node RB_RED a x b) y (Node RB_RED c g u)) p))
              (* parent is gparent's right child *)
              | InRight _ u g, InRight _ b x, _ =>
                  Some (set_color RB_BLACK (plug (Node RB_BLACK (Node RB_RED u g b) x t) p))
              | InRight _ u g, InLeft _ x c, Node ct a y b =>
                  Some (set_color RB_BLACK
                    (plug (Node RB_BLACK (Node RB_RED u g a) y (Node RB_RED b x c)) p))
              | _, _, Nil => None
              end
        end
  end.

(** ** Removal *)

(** [RB_ROTATE_RIGHT(head, tmp, oleft)] after [oleft] was blackened and [tmp]
    reddened: the sibling of a left child whose outer nephew is black. *)
Definition rotate_sibling_right t : option tree :=
  match t with
  | Node _ (Node _ la lx ra) y b => Some (Node RB_BLACK la lx (Node RB_RED ra y b))
  | _ => None
  end.

Definition rotate_sibling_left t : option tree :=
  match t with
  | Node _ b y (Node _ la rx ra) => Some (Node RB_BLACK (Node RB_RED b y la) rx ra)
  | _ => None
  end.

(** The last rotation of the loop body: [tmp] takes [parent]'s colour, [parent]
    and the outer nephew become black, [parent] is rotated towards [elm]. *)
Definition rotate_parent_left pc t x (tmp : tree) : option tree :=
  match tmp with
  | Node _ a y b => Some (Node pc (Node RB_BLACK t x a) y (set_color RB_BLACK b))
  | Nil => None
  end.

Definition rotate_parent_right pc t x (tmp : tree) : option tree :=
  match tmp with
  | Node _ a y b => Some (Node pc (set_color RB_BLACK a) y (Node RB_BLACK b x t))
  | Nil => None
  end.

(** [rb_remove_color]: the focus is [elm], the frames are [parent] and its
    ancestors. The loop climbs, so the number of frames bounds its turns, with
    one more turn after a red sibling was rotated away. *)
Fixpoint rb_remove_color (fuel : nat) t p : option tree :=
  match fuel with
  | O => None
  | S fuel =>
      match p with
      | [] => Some (set_color RB_BLACK t)
      | parent :: p =>
          if is_red t then Some (plug (fill parent (set_color RB_BLACK t)) p)
          else
            match parent with
            | InLeft pc x tmp =>
                (* a red sibling is rotated over the parent first *)
                let '(pc, tmp, p) :=
                  match tmp with
                  | Node RB_RED a y b => (RB_RED, a, InLeft RB_BLACK y b :: p)
                  | _ => (pc, tmp, p)
                  end in
                match tmp with
                | Nil => None
                | Node tc a y b =>
                    if is_black a && is_black b then
                      rb_remove_color fuel (Node pc t x (Node RB_RED a y b)) p
                    else
                      tmp' ← (if is_black b then rotate_sibling_right tmp else Some tmp);
                      t' ← rotate_parent_left pc t x tmp';
                      Some (set_color RB_BLACK (plug t' p))
                end
            | InRight pc tmp x =>
                let '(pc, tmp, p) :=
                  match tmp with
                  | Node RB_RED a y b => (RB_RED, b, InRight RB_BLACK a y :: p)
                  | _ => (pc, tmp, p)
                  end in
                match tmp with
                | Nil => None
                | Node tc a y b =>
                    if is_black a && is_black b then
                      rb_remove_color fuel (Node pc (Node RB_RED a y b) x t) p
                    else
                      tmp' ← (if is_black a then rotate_sibling_left tmp else Some tmp);
                      t' ← rotate_parent_right pc t x tmp';
                      Some (set_color RB_BLACK (plug t' p))
                end
            end
      end
  end.

(** [while ((left = RB_LEFT(elm))) elm = left;] from a non-null node; the
    result is the node reached (colour, element, right child) and its path. *)
Fixpoint leftmost c l (x : A) r p : color * A * tree * list frame :=
  match l with
  | Nil => (c, x, r, p)
  | Node c' l' x' r' => leftmost c' l' x' r' (InLeft c x r :: p)
  end.

Fixpoint rightmost c l (x : A) r p : color * tree * A * list frame :=
  match r with
  | Nil => (c, l, x, p)
  | Node c' l' x' r' => rightmost c' l' x' r' (InRight c l x :: p)
  end.

(** The label [color:] of [rb_erase]. *)
Definition erase_color c child p : option tree :=
  if decide (c = RB_BLACK) then rb_remove_color (S (S (length p))) child p
  else Some (plug child p).

(** [rb_erase]: a node with two children is replaced by its successor, which
    takes its place and its colour. *)
Definition rb_erase t p : option tree :=
  match t with
  | Nil => None
  | Node c Nil _ r => erase_color c r p
  | Node c l _ Nil => erase_color c l p
  | Node c l _ (Node rc rl rx rr) =>
      let '(sc, sx, child, q) := leftmost rc rl rx rr [] in
      erase_color sc child (q ++ InRight c l sx :: p)
  end.

(** ** Traversal *)
Fixpoint climb_next t p : option (tree * list frame) :=
  match p with
  | [] => None
  | InLeft c x r :: p => Some (fill (InLeft c x r) t, p)
  | InRight c l x :: p => climb_next (fill (InRight c l x) t) p
  end.

Fixpoint climb_prev t p : option (tree * list frame) :=
  match p with
  | [] => None
  | InRight c l x :: p => Some (fill (InRight c l x) t, p)
  | InLeft c x r :: p => climb_prev (fill (InLeft c x r) t) p
  end.

(** [rb_next] and [rb_prev] on a node and its parents; [None] is the null
    pointer returned past the ends. *)
Definition rb_next t p : option (tree * list frame) :=
  match t with
  | Node c l x (Node rc rl rx rr) =>
      let '(sc, sx, sr, q) := leftmost rc rl rx rr [] in
      Some (Node sc Nil sx sr, q ++ InRight c l x :: p)
  | _ => climb_next t p
  end.

Definition rb_prev t p : option (tree * list frame) :=
  match t with
  | Node c (Node lc ll lx lr) x r =>
      let '(sc, sl, sx, q) := rightmost lc ll lx lr [] in
      Some (Node sc sl sx Nil, q ++ InLeft c x r :: p)
  | _ => climb_prev t p
  end.

Definition rb_first t : option (tree * list frame) :=
  match t with
  | Nil => None
  | Node c l x r => let '(sc, sx, sr, q) := leftmost c l x r [] in Some (Node sc Nil sx sr, q)
  end.

(** [rb_replace_node]: [new] takes the victim's links and colour. *)
Definition rb_replace_node t (new : A) p : tree :=
  match t with
  | Nil => plug Nil p
  | Node c l _ r => plug (Node c l new r) p
  end.

(** ** Specification vocabulary *)

(** The in-order sequence: what a traversal by [rb_next] visits. *)
Fixpoint elements t : list A :=
  match t with Nil => [] | Node _ l x r => elements l ++ x :: elements r end.

(** The elements left and right of a path. *)
Fixpoint before p : list A :=
  match p with
  | [] => []
  | InLeft _ _ _ :: p => before p
  | InRight _ l x :: p => before p ++ elements l ++ [x]
  end.

Fixpoint after p : list A :=
  match p with
  | [] => []
  | InLeft _ x r :: p => x :: elements r ++ after p
  | InRight _ _ _ :: p => after p
  end.

Fixpoint height t : nat :=
  match t with Nil => 0 | Node _ l _ r => S (height l `max` height r) end.

(** [rbt c n t]: no red node has a red child, every path holds [n] black
    nodes, and the root has colour [c]. *)
Inductive rbt : color -> nat -> tree -> Prop :=
  | rbt_nil : rbt RB_BLACK 0 Nil
  | rbt_red n l x r :
      rbt RB_BLACK n l -> rbt RB_BLACK n r -> rbt RB_RED n (Node RB_RED l x r)
  | rbt_black cl cr n l x r :
      rbt cl n l -> rbt cr n r -> rbt RB_BLACK (S n) (Node RB_BLACK l x r).

(** [rbp c n p]: a path below a parent of colour [c] (the root counts as below a
    red one, its colour is black) whose hole expects black height [n]. *)
Inductive rbp : color -> nat -> list frame -> Prop :=
  | rbp_root n : rbp RB_RED n []
  | rbp_left_black c cr n x r p :
      rbp c (S n) p -> rbt cr n r -> rbp RB_BLACK n (InLeft RB_BLACK x r :: p)
  | rbp_right_black c cl n l x p :
      rbp c (S n) p -> rbt cl n l -> rbp RB_BLACK n (InRight RB_BLACK l x :: p)
  | rbp_left_red n x r p :
      rbp RB_BLACK n p -> rbt RB_BLACK n r -> rbp RB_RED n (InLeft RB_RED x r :: p)
  | rbp_right_red n l x p :
      rbp RB_BLACK n p -> rbt RB_BLACK n l -> rbp RB_RED n (InRight RB_RED l x :: p).

Definition is_rb t : Prop := exists n, rbt RB_BLACK n t.
End Tree.
Arguments tree : clear implicits.
Arguments frame : clear implicits.

#[export] Hint Constructors rbt rbp : rb.

Section Theory.
Context {A : Type}.
Implicit Types (t l r : tree A) (p q : list (frame A)) (f : frame A) (x : A).

(** ** In-order sequence *)
Lemma elements_set_color c t : elements (set_color c t) = elements t.
Proof. by destruct t. Qed.

Lemma elements_plug t p : elements (plug t p) = before p ++ elements t ++ after p.
Proof.
  revert t. induction p as [|[c x r|c l x] p IH]; intros t; cbn.
  - by rewrite app_nil_r.
  - unfold plug in IH. rewrite IH. cbn. by rewrite <- app_assoc.
  - unfold plug in IH. rewrite IH. cbn. by rewrite <- !app_assoc.
Qed.

Lemma plug_cons t f p : plug t (f :: p) = plug (fill f t) p.
Proof. done. Qed.

Lemma plug_app t p q : plug t (p ++ q) = plug (plug t p) q.
Proof. apply fold_left_app. Qed.
End Theory.

#[export] Hint Rewrite @elements_set_color @elements_plug : rb.
#[export] Hint Rewrite <- @app_assoc : rb.
#[export] Hint Rewrite @app_nil_r : rb.

Ltac elems := repeat (progress (autorewrite with rb; cbn)); try done.

Section Insert.
Context {A : Type}.
Implicit Types (t l r : tree A) (p q : list (frame A)) (f : frame A) (x : A).

Lemma set_color_black_id n t : rbt RB_BLACK n t -> set_color RB_BLACK t = t.
Proof. by inversion 1. Qed.

Lemma set_color_black_rbt c n t :
  rbt c n t -> exists m, rbt RB_BLACK m (set_color RB_BLACK t).
Proof. destruct 1; cbn; eauto with rb. Qed.

(** Plugging a subtree the path accepts gives a red-black tree. *)
Lemma rbt_plug c ct n t p :
  rbp c n p -> rbt ct n t -> (c = RB_RED -> ct = RB_BLACK) -> is_rb (plug t p).
Proof.
  intros Hp. revert ct t. induction Hp; intros ct t Ht Hc; cbn.
  - exists n. by rewrite <- Hc.
  - apply (IHHp RB_BLACK); [econstructor; eauto|done].
  - apply (IHHp RB_BLACK); [econstructor; eauto|done].
  - apply (IHHp RB_RED); [|done]. constructor; [by rewrite <- Hc|done].
  - apply (IHHp RB_RED); [|done]. constructor; [done|by rewrite <- Hc].
Qed.

(** Conversely, every focus of a red-black tree has such a path. *)
Lemma rbt_unplug t p :
  is_rb (plug t p) ->
  exists c ct n, rbp c n p /\ rbt ct n t /\ (c = RB_RED -> ct = RB_BLACK).
Proof.
  revert t. induction p as [|f p IH]; intros t Ht; cbn in Ht.
  { destruct Ht as [n Ht]. eauto 10 with rb. }
  destruct (IH _ Ht) as (c & ct & n & Hp & Hf & Hc).
  destruct f; cbn in Hf; inversion Hf; subst;
    try (destruct c; [by specialize (Hc eq_refl)|]);
    eexists _, _, _; (split; [eauto with rb|]); (split; [eauto|done]).
Qed.

Lemma finish_black c n t p :
  rbp c n p -> rbt RB_BLACK n t ->
  exists t', Some (set_color RB_BLACK (plug t p)) = Some t' /\ is_rb t'.
Proof.
  intros Hp Ht. destruct (rbt_plug c RB_BLACK n t p) as [m Hm]; [done..|].
  eexists; split; [done|]. exists m. by erewrite set_color_black_id.
Qed.

Lemma is_red_false c n t : rbt c n t -> is_red t = false -> rbt RB_BLACK n t.
Proof. destruct 1; cbn; intros; done || eauto with rb. Qed.

Lemma is_red_true c n t :
  rbt c n t -> is_red t = true -> rbt RB_BLACK (S n) (set_color RB_BLACK t).
Proof. destruct 1; cbn; intros; done || eauto with rb. Qed.

Lemma rb_insert_color_rb n t p c :
  rbp c n p -> rbt RB_RED n t ->
  exists t', rb_insert_color t p = Some t' /\ is_rb t'.
Proof.
  remember (length p) as k eqn:Hk. revert n t p c Hk.
  induction k as [k IH] using lt_wf_ind. intros n t p c -> Hp Ht.
  destruct Hp as [n|c cr n x r p Hp Hr|c cl n l x p Hp Hl|n x r p Hp Hr|n l x p Hp Hl].
  1: { eexists; split; [done|]. by eapply set_color_black_rbt. }
  1,2: cbn; eapply finish_black; eauto with rb.
  all: inversion Hp as [|? cu ? g u p' Hp' Hu|? cu ? u g p' Hp' Hu| |]; subst;
    cbn [rb_insert_color frame_color]; rewrite decide_False by done;
    cbn [sibling]; destruct (is_red u) eqn:Hred.
  all: try (eapply IH; [|done|eassumption|]; [cbn; lia|];
    constructor; cbn; eauto using is_red_true with rb).
  all: apply (is_red_false _ _ _ Hu) in Hred.
  all: inversion Ht; subst; eapply finish_black; eauto 10 with rb.
Qed.

(** The fix-up only rotates and recolours: the in-order sequence stays. *)
Lemma rb_insert_color_elements t p t' :
  rb_insert_color t p = Some t' -> elements t' = elements (plug t p).
Proof.
  remember (length p) as k eqn:Hk. revert t p Hk.
  induction k as [k IH] using lt_wf_ind. intros t p -> H.
  destruct p as [|parent [|gparent p]]; cbn [rb_insert_color] in H.
  - simplify_eq. elems.
  - destruct (decide _); simplify_eq. destruct parent; elems.
  - destruct (decide _); [simplify_eq; destruct parent, gparent; elems|]. destruct (is_red _).
    + apply (IH (length p)) in H; [|cbn; lia|done]. rewrite H.
      destruct gparent, parent; rewrite ?plug_cons; elems.
    + destruct gparent, parent, t; simplify_eq; rewrite ?plug_cons; elems.
Qed.

Lemma rb_insert_spec x p :
  is_rb (plug Nil p) ->
  exists t, rb_insert_color (rb_link_node x) p = Some t /\ is_rb t /\
    elements t = before p ++ x :: after p.
Proof.
  intros (c & ct & n & Hp & Hnil & Hc)%rbt_unplug. inversion Hnil; subst.
  destruct (rb_insert_color_rb 0 (rb_link_node x) p c) as (t & Ht & Hrb);
    [done|repeat constructor|].
  exists t. split_and!; [done..|]. apply rb_insert_color_elements in Ht. rewrite Ht. elems.
Qed.
End Insert.

Section Erase.
Context {A : Type}.
Implicit Types (t l r : tree A) (p q : list (frame A)) (f : frame A) (x : A).

(** A path that accepts a subtree rooted at a node of colour [pc] whose black
    height, without that node, is [n]. *)
Inductive accepts : color -> nat -> list (frame A) -> Prop :=
  | accepts_red n p : rbp RB_BLACK n p -> accepts RB_RED n p
  | accepts_black c n p : rbp c (S n) p -> accepts RB_BLACK n p.

Hint Constructors accepts : rb.

Lemma remove_red_exit c n t p fuel :
  rbp c n p -> rbt RB_BLACK n (set_color RB_BLACK t) -> is_red t = true ->
  exists t', rb_remove_color (S fuel) t p = Some t' /\ is_rb t'.
Proof.
  intros Hp Ht Hred. destruct p as [|f p]; cbn [rb_remove_color].
  - eexists; split; [done|]. by exists n.
  - rewrite Hred. eexists; split; [done|]. rewrite <- plug_cons. by eapply rbt_plug.
Qed.

Lemma accepts_plug pc n l x r p :
  accepts pc n p -> rbt RB_BLACK n l -> rbt RB_BLACK n r ->
  exists t', Some (set_color RB_BLACK (plug (Node pc l x r) p)) = Some t' /\ is_rb t'.
Proof.
  intros Hp Hl Hr. assert (is_rb (plug (Node pc l x r) p)) as [m Hm].
  { destruct Hp as [n p Hp|c n p Hp]; eapply rbt_plug; eauto with rb; done. }
  eexists; split; [done|]. exists m. by erewrite set_color_black_id.
Qed.

Lemma set_color_black_black c n t : rbt c n t -> is_black t = false ->
  rbt RB_BLACK (S n) (set_color RB_BLACK t).
Proof. intros. eapply is_red_true; [done|]. by apply negb_false_iff. Qed.

Lemma is_black_true c n t : rbt c n t -> is_black t = true -> rbt RB_BLACK n t.
Proof. intros. eapply is_red_false; [done|]. by apply negb_true_iff. Qed.

Lemma remove_left_step fuel pc n ca cb t x tc a y b p :
  rbt RB_BLACK n t -> rbt ca n a -> rbt cb n b -> accepts pc (S n) p ->
  (forall c t, pc = RB_BLACK -> rbp c (S (S n)) p -> rbt RB_BLACK (S n) t ->
     exists t', rb_remove_color (S fuel) t p = Some t' /\ is_rb t') ->
  exists t',
    (if is_black a && is_black b then
       rb_remove_color (S fuel) (Node pc t x (Node RB_RED a y b)) p
     else
       tmp' ← (if is_black b then rotate_sibling_right (Node tc a y b) else Some (Node tc a y b));
       t' ← rotate_parent_left pc t x tmp';
       Some (set_color RB_BLACK (plug t' p))) = Some t' /\ is_rb t'.
Proof.
  intros Ht Ha Hb Hp IH. destruct (is_black a) eqn:Hba, (is_black b) eqn:Hbb;
    cbn [andb mbind option_bind].
  - apply (is_black_true _ _ _ Ha) in Hba. apply (is_black_true _ _ _ Hb) in Hbb.
    remember (S n) as n' eqn:Hn. destruct Hp as [n' p Hp|c n' p Hp]; subst.
    + eapply remove_red_exit; [done|cbn; eauto with rb|done].
    + eapply IH; [done..|]. econstructor; eauto with rb.
  - eapply accepts_plug; [done|eauto with rb|]. by eapply set_color_black_black.
  - apply (is_black_true _ _ _ Hb) in Hbb. destruct Ha; cbn in *; try done.
    eapply accepts_plug; [done|eauto with rb..].
  - eapply accepts_plug; [done|eauto with rb|]. by eapply set_color_black_black.
Qed.

Lemma remove_right_step fuel pc n ca cb t x tc a y b p :
  rbt RB_BLACK n t -> rbt ca n a -> rbt cb n b -> accepts pc (S n) p ->
  (forall c t, pc = RB_BLACK -> rbp c (S (S n)) p -> rbt RB_BLACK (S n) t ->
     exists t', rb_remove_color (S fuel) t p = Some t' /\ is_rb t') ->
  exists t',
    (if is_black a && is_black b then
       rb_remove_color (S fuel) (Node pc (Node RB_RED a y b) x t) p
     else
       tmp' ← (if is_black a then rotate_sibling_left (Node tc a y b) else Some (Node tc a y b));
       t' ← rotate_parent_right pc t x tmp';
       Some (set_color RB_BLACK (plug t' p))) = Some t' /\ is_rb t'.
Proof.
  intros Ht Ha Hb Hp IH. destruct (is_black a) eqn:Hba, (is_black b) eqn:Hbb;
    cbn [andb mbind option_bind].
  - apply (is_black_true _ _ _ Ha) in Hba. apply (is_black_true _ _ _ Hb) in Hbb.
    remember (S n) as n' eqn:Hn. destruct Hp as [n' p Hp|c n' p Hp]; subst.
    + eapply remove_red_exit; [done|cbn; eauto with rb|done].
    + eapply IH; [done..|]. econstructor; eauto with rb.
  - apply (is_black_true _ _ _ Ha) in Hba. destruct Hb; cbn in *; try done.
    eapply accepts_plug; [done|eauto with rb..].
  - eapply accepts_plug; [done| |eauto with rb]. by eapply set_color_black_black.
  - eapply accepts_plug; [done| |eauto with rb]. by eapply set_color_black_black.
Qed.

(** The focus lacks one black node; the fix-up makes it good. *)
Lemma rb_remove_color_rb fuel n t p c :
  rbp c (S n) p -> rbt RB_BLACK n t -> (length p < fuel)%nat ->
  exists t', rb_remove_color (S fuel) t p = Some t' /\ is_rb t'.
Proof.
  revert n t p c. induction fuel as [|fuel IH]; intros n t p c Hp Ht Hf; [lia|].
  assert (is_red t = false) as Hred by (by inversion Ht).
  remember (S n) as n' eqn:Hn.
  destruct Hp as [?|c cr ? x r p Hp Hr|c cl ? l x p Hp Hl|? x r p Hp Hr|? l x p Hp Hl];
    subst; [eexists; split; [done|]; exists n; by erewrite set_color_black_id|..].
  all: remember (S fuel) as fuel' eqn:Hfu; cbn [rb_remove_color]; rewrite Hred; subst fuel'.
  all: cbn in Hf; try (inversion Hr as [|? a y b Ha Hb|? ? ? a y b Ha Hb]; subst);
    try (inversion Hl as [|? a y b Ha Hb|? ? ? a y b Ha Hb]; subst).
  (* a red sibling: its black child is the next one, under a red parent *)
  all: try (inversion Ha; subst; inversion Hb; subst).
  all: first [eapply remove_left_step|eapply remove_right_step];
    eauto using accepts_red, accepts_black with rb.
  all: intros; done || (eapply IH; [eassumption..|cbn; lia]).
Qed.

Lemma rotate_sibling_right_elements t t' :
  rotate_sibling_right t = Some t' -> elements t' = elements t.
Proof. destruct t as [|? [] ?]; intros; simplify_eq/=. elems. Qed.

Lemma rotate_sibling_left_elements t t' :
  rotate_sibling_left t = Some t' -> elements t' = elements t.
Proof. destruct t as [|? ? ? []]; intros; simplify_eq/=. elems. Qed.

Lemma rotate_parent_left_elements pc t x tmp t' :
  rotate_parent_left pc t x tmp = Some t' ->
  elements t' = elements t ++ x :: elements tmp.
Proof. destruct tmp; intros; simplify_eq/=. elems. Qed.

Lemma rotate_parent_right_elements pc t x tmp t' :
  rotate_parent_right pc t x tmp = Some t' ->
  elements t' = elements tmp ++ x :: elements t.
Proof. destruct tmp; intros; simplify_eq/=. elems. Qed.

Lemma left_body_elements fuel pc t x tmp p t' :
  (forall t p t', rb_remove_color fuel t p = Some t' -> elements t' = elements (plug t p)) ->
  match tmp with
  | Nil => None
  | Node tc a y b =>
      if is_black a && is_black b then rb_remove_color fuel (Node pc t x (Node RB_RED a y b)) p
      else
        tmp' ← (if is_black b then rotate_sibling_right tmp else Some tmp);
        t' ← rotate_parent_left pc t x tmp';
        Some (set_color RB_BLACK (plug t' p))
  end = Some t' ->
  elements t' = before p ++ elements t ++ x :: elements tmp ++ after p.
Proof.
  intros IH H. destruct tmp as [|tc a y b]; [done|].
  destruct (is_black a && is_black b); [apply IH in H; rewrite H; elems|].
  apply bind_Some in H as (tmp' & Htmp & (t'' & Ht & [= <-])%bind_Some).
  apply rotate_parent_left_elements in Ht.
  assert (elements tmp' = elements (Node tc a y b)) as Heq.
  { destruct (is_black b); [by apply rotate_sibling_right_elements|by simplify_eq]. }
  elems. rewrite Ht, Heq. elems.
Qed.

Lemma right_body_elements fuel pc t x tmp p t' :
  (forall t p t', rb_remove_color fuel t p = Some t' -> elements t' = elements (plug t p)) ->
  match tmp with
  | Nil => None
  | Node tc a y b =>
      if is_black a && is_black b then rb_remove_color fuel (Node pc (Node RB_RED a y b) x t) p
      else
        tmp' ← (if is_black a then rotate_sibling_left tmp else Some tmp);
        t' ← rotate_parent_right pc t x tmp';
        Some (set_color RB_BLACK (plug t' p))
  end = Some t' ->
  elements t' = before p ++ elements tmp ++ x :: elements t ++ after p.
Proof.
  intros IH H. destruct tmp as [|tc a y b]; [done|].
  destruct (is_black a && is_black b); [apply IH in H; rewrite H; elems|].
  apply bind_Some in H as (tmp' & Htmp & (t'' & Ht & [= <-])%bind_Some).
  apply rotate_parent_right_elements in Ht.
  assert (elements tmp' = elements (Node tc a y b)) as Heq.
  { destruct (is_black a); [by apply rotate_sibling_left_elements|by simplify_eq]. }
  elems. rewrite Ht, Heq. elems.
Qed.

Lemma rb_remove_color_elements fuel t p t' :
  rb_remove_color fuel t p = Some t' -> elements t' = elements (plug t p).
Proof.
  revert t p t'. induction fuel as [|fuel IH]; intros t p t' H; [done|].
  destruct p as [|f p]; cbn [rb_remove_color] in H; [simplify_eq; elems|].
  destruct (is_red t).
  { simplify_eq. rewrite plug_cons. destruct f; elems. }
  destruct f as [pc x tmp|pc tmp x].
  - destruct tmp as [|[] a y b]; [done|..]; rewrite plug_cons.
    + apply (left_body_elements fuel _ t x a) in H; [|done]. rewrite H. elems.
    + apply (left_body_elements fuel _ t x (Node RB_BLACK a y b)) in H; [|done].
      rewrite H. elems.
  - destruct tmp as [|[] a y b]; [done|..]; rewrite plug_cons.
    + apply (right_body_elements fuel _ t x b) in H; [|done]. rewrite H. elems.
    + apply (right_body_elements fuel _ t x (Node RB_BLACK a y b)) in H; [|done].
      rewrite H. elems.
Qed.

Lemma leftmost_plug c l x r p c' x' r' q :
  leftmost c l x r p = (c', x', r', q) -> plug (Node c' Nil x' r') q = plug (Node c l x r) p.
Proof.
  revert c x r p. induction l as [|c1 l1 IH x1 r1 _]; intros c x r p H; cbn in H.
  - by simplify_eq.
  - apply IH in H. by rewrite H.
Qed.

Lemma rightmost_plug c l x r p c' l' x' q :
  rightmost c l x r p = (c', l', x', q) -> plug (Node c' l' x' Nil) q = plug (Node c l x r) p.
Proof.
  revert c l x p. induction r as [|c1 l1 _ x1 r1 IH]; intros c l x p H; cbn in H.
  - by simplify_eq.
  - apply IH in H. by rewrite H.
Qed.

(** The path to the leftmost node turns left only. *)
Lemma leftmost_before c l x r p c' x' r' q :
  leftmost c l x r p = (c', x', r', q) -> before q = before p.
Proof.
  revert c x r p. induction l as [|c1 l1 IH x1 r1 _]; intros c x r p H; cbn in H.
  - by simplify_eq.
  - by apply IH in H.
Qed.

Lemma rightmost_after c l x r p c' l' x' q :
  rightmost c l x r p = (c', l', x', q) -> after q = after p.
Proof.
  revert c l x p. induction r as [|c1 l1 _ x1 r1 IH]; intros c l x p H; cbn in H.
  - by simplify_eq.
  - by apply IH in H.
Qed.

(** Unlinking a node of colour [c] whose place in the path expects its black
    height, and putting its only child there. *)
Lemma erase_color_ok c ct cp n t p :
  rbp cp (if decide (c = RB_BLACK) then S n else n) p ->
  rbt ct n t -> (c = RB_RED -> ct = RB_BLACK) ->
  exists t', erase_color c t p = Some t' /\ is_rb t' /\ elements t' = elements (plug t p).
Proof.
  intros Hp Ht Hct. unfold erase_color. destruct (decide (c = RB_BLACK)) as [->|].
  - assert (exists t', rb_remove_color (S (S (length p))) t p = Some t' /\ is_rb t')
      as (t' & H & Hrb).
    { destruct ct.
      - eapply remove_red_exit; [done| |by inversion Ht].
        eapply is_red_true; [done|by inversion Ht].
      - eapply rb_remove_color_rb; eauto. }
    eauto using rb_remove_color_elements.
  - destruct c; [|done]. eexists; split_and!; [done| |done].
    eapply rbt_plug; [done..|auto].
Qed.

Lemma rbp_replace c n q cf l x y p :
  rbp c n (q ++ InRight cf l x :: p) -> rbp c n (q ++ InRight cf l y :: p).
Proof.
  revert c n. induction q as [|f q IH]; intros c n H; cbn in *.
  - inversion H; subst; eauto with rb.
  - inversion H; subst; eauto with rb.
Qed.

(** The place of a node in a red-black tree, and its two subtrees. *)
Lemma node_place c l x r p :
  is_rb (plug (Node c l x r) p) ->
  exists cp cl cr n, rbp cp (if decide (c = RB_BLACK) then S n else n) p /\
    rbt cl n l /\ rbt cr n r /\
    (c = RB_RED -> cl = RB_BLACK /\ cr = RB_BLACK).
Proof.
  intros (cp & ct & n & Hp & Ht & Hc)%rbt_unplug. inversion Ht; subst.
  - exists cp, RB_BLACK, RB_BLACK, n. by split_and!.
  - match goal with Hl : rbt ?cl ?m l, Hr : rbt ?cr ?m r |- _ => exists cp, cl, cr, m end.
    split_and!; done.
Qed.

Lemma rb_erase_spec c l x r p :
  is_rb (plug (Node c l x r) p) ->
  exists t, rb_erase (Node c l x r) p = Some t /\ is_rb t /\
    elements t = before p ++ (elements l ++ elements r) ++ after p.
Proof.
  intros Hrb.
  destruct (node_place c l x r p Hrb) as (cp & cl & cr & n & Hp & Hl & Hr & Hc).
  destruct l as [|lc ll lx lr]; [|destruct r as [|rc rl rx rr]]; cbn [rb_erase].
  - destruct (erase_color_ok c cr cp n r p) as (t & Ht & Hok & He);
      [done..|intros; by apply Hc|].
    exists t. split_and!; [done..|]. rewrite He. elems.
  - destruct (erase_color_ok c cl cp n (Node lc ll lx lr) p) as (t & Ht & Hok & He);
      [done..|intros; by apply Hc|].
    exists t. split_and!; [done..|]. rewrite He. elems.
  - destruct (leftmost rc rl rx rr []) as [[[sc sx] child] q] eqn:Hlm.
    set (L := Node lc ll lx lr) in *.
    pose proof (leftmost_plug _ _ _ _ _ _ _ _ _ Hlm) as Hplug.
    pose proof (leftmost_before _ _ _ _ _ _ _ _ _ Hlm) as Hbef. cbn in Hplug, Hbef.
    assert (is_rb (plug (Node sc Nil sx child) (q ++ InRight c L x :: p))) as Hq.
    { by rewrite plug_app, Hplug. }
    destruct (node_place _ _ _ _ _ Hq) as (cp' & cn & cc & n' & Hp' & _ & Hchild & Hc').
    apply (rbp_replace _ _ _ _ _ _ sx) in Hp'.
    destruct (erase_color_ok sc cc cp' n' child (q ++ InRight c L sx :: p))
      as (t & Ht & Hok & He);
      [done..|intros; by apply Hc'|].
    exists t. split_and!; [done..|]. rewrite He, plug_app, plug_cons.
    apply (f_equal elements) in Hplug. rewrite elements_plug, Hbef in Hplug.
    rewrite elements_plug. cbn [fill elements]. rewrite elements_plug, Hbef.
    cbn in *. rewrite <- Hplug. elems.
Qed.
End Erase.
#[export] Hint Constructors accepts : rb.

Section Depth.
Context {A : Type}.
Implicit Types (t : tree A).

Lemma rbt_height c n t :
  rbt c n t -> (height t <= 2 * n + (if decide (c = RB_RED) then 1 else 0))%nat.
Proof.
  induction 1; cbn [height]; repeat case_decide; try done; try lia.
Qed.

Lemma rbt_size c n t : rbt c n t -> (2 ^ n <= S (length (elements t)))%nat.
Proof.
  induction 1; cbn [elements]; rewrite ?length_app; cbn [length Nat.pow] in *; lia.
Qed.

(** The search depth is logarithmic in the number of nodes. *)
Lemma rb_height_bound t :
  is_rb t -> (height t <= 2 * Nat.log2 (S (length (elements t))))%nat.
Proof.
  intros [n H]. pose proof (rbt_height _ _ _ H) as Hh. rewrite decide_False in Hh by done.
  pose proof (Nat.log2_le_mono _ _ (rbt_size _ _ _ H)) as Hl.
  rewrite Nat.log2_pow2 in Hl by lia. lia.
Qed.
End Depth.

Section Traversal.
Context {A : Type}.
Implicit Types (t l r : tree A) (p q : list (frame A)) (x : A).

Lemma leftmost_order c l x r p c' x' r' q :
  leftmost c l x r p = (c', x', r', q) -> 
  x' :: elements r' ++ after q = elements l ++ x :: elements r ++ after p.
Proof.
  intros H. pose proof (leftmost_plug _ _ _ _ _ _ _ _ _ H) as Hp.
  apply (f_equal elements) in Hp. rewrite !elements_plug in Hp.
  rewrite (leftmost_before _ _ _ _ _ _ _ _ _ H) in Hp.
  apply app_inv_head in Hp. cbn in Hp. by rewrite Hp, <- app_assoc.
Qed.

Lemma rightmost_order c l x r p c' l' x' q :
  rightmost c l x r p = (c', l', x', q) ->
  before q ++ elements l' ++ [x'] = before p ++ elements l ++ x :: elements r.
Proof.
  intros H. pose proof (rightmost_plug _ _ _ _ _ _ _ _ _ H) as Hp.
  apply (f_equal elements) in Hp. rewrite !elements_plug in Hp.
  rewrite (rightmost_after _ _ _ _ _ _ _ _ _ H), !app_assoc in Hp.
  by apply app_inv_tail in Hp.
Qed.

Lemma after_app p q : after (p ++ q) = after p ++ after q.
Proof.
  induction p as [|[] p IH]; cbn; rewrite ?IH; [done| |done]. by rewrite !app_assoc.
Qed.

Lemma before_app p q : before (p ++ q) = before q ++ before p.
Proof.
  induction p as [|[] p IH]; cbn; rewrite ?IH, ?app_nil_r; [done|done|].
  by rewrite <- app_assoc.
Qed.

(** What [rb_next] returns: nothing at the last node, otherwise the node whose
    element follows in the in-order sequence, in the same tree. *)
Definition next_spec (o : option (tree A * list (frame A))) (whole : list A) (rest : list A) :=
  match o with
  | None => rest = []
  | Some (t, p) => exists c l y r,
      t = Node c l y r /\ elements (plug t p) = whole /\ rest = y :: elements r ++ after p
  end.

Lemma climb_next_ok t p : next_spec (climb_next t p) (elements (plug t p)) (after p).
Proof.
  revert t. induction p as [|[c x r|c l x] p IH]; intros t; cbn [climb_next]; [done| |].
  - exists c, t, x, r. cbn [fill]. by rewrite plug_cons.
  - rewrite plug_cons. apply IH.
Qed.

Lemma rb_next_ok c l x r p :
  next_spec (rb_next (Node c l x r) p) (elements (plug (Node c l x r) p)) (elements r ++ after p).
Proof.
  destruct r as [|rc rl rx rr]; cbn [rb_next]; [apply climb_next_ok|].
  destruct (leftmost rc rl rx rr []) as [[[sc sx] sr] q] eqn:Hlm.
  exists sc, Nil, sx, sr. split_and!; [done| |].
  - rewrite plug_app, (leftmost_plug _ _ _ _ _ _ _ _ _ Hlm). done.
  - apply leftmost_order in Hlm. rewrite after_app. cbn in *.
    rewrite app_nil_r in Hlm. by rewrite <- Hlm, !app_assoc.
Qed.

(** Iterating [rb_next] from a cursor. *)
Fixpoint walk (fuel : nat) (cur : option (tree A * list (frame A))) : list A :=
  match fuel, cur with
  | S fuel, Some (Node c l x r as t, p) => x :: walk fuel (rb_next t p)
  | _, _ => []
  end.

Lemma walk_ok fuel c l x r p :
  (length (elements r ++ after p) < fuel)%nat ->
  walk fuel (Some (Node c l x r, p)) = x :: elements r ++ after p.
Proof.
  revert c l x r p. induction fuel as [|fuel IH]; intros c l x r p Hf; [lia|].
  cbn [walk]. f_equal. pose proof (rb_next_ok c l x r p) as H.
  destruct (rb_next _ p) as [[t' p']|]; cbn in H.
  - destruct H as (c' & l' & y & r' & -> & _ & Hrest). rewrite Hrest in *. apply IH.
    cbn [length] in Hf. lia.
  - rewrite H. by destruct fuel.
Qed.

(** C0: [rb_first] followed by [rb_next] until it returns null visits every node
    once, in order. *)
Theorem rb_walk_ok t : walk (length (elements t)) (rb_first t) = elements t.
Proof.
  destruct t as [|c l x r]; [done|]. unfold rb_first.
  destruct (leftmost c l x r []) as [[[sc sx] sr] q] eqn:Hlm.
  apply leftmost_order in Hlm. cbn [after] in Hlm. rewrite app_nil_r in Hlm.
  cbn [elements]. rewrite <- Hlm. apply walk_ok. cbn. lia.
Qed.

Lemma climb_prev_ok t p :
  match climb_prev t p with
  | None => before p = []
  | Some (t', p') => exists c l y r,
      t' = Node c l y r /\ plug t' p' = plug t p /\ before p = before p' ++ elements l ++ [y]
  end.
Proof.
  revert t. induction p as [|[c x r|c l x] p IH]; intros t; cbn [climb_prev]; [done| |].
  - rewrite plug_cons. apply IH.
  - exists c, l, x, t. cbn [fill before]. by rewrite plug_cons.
Qed.

(** [rb_prev] returns the node that precedes, or nothing at the first one. *)
Lemma rb_prev_ok c l x r p :
  match rb_prev (Node c l x r) p with
  | None => before p ++ elements l = []
  | Some (t', p') => exists c' l' y r',
      t' = Node c' l' y r' /\ plug t' p' = plug (Node c l x r) p /\
      before p ++ elements l = before p' ++ elements l' ++ [y]
  end.
Proof.
  destruct l as [|lc ll lx lr]; cbn [rb_prev].
  - rewrite app_nil_r. apply climb_prev_ok.
  - destruct (rightmost lc ll lx lr []) as [[[sc sl] sx] q] eqn:Hrm.
    exists sc, sl, sx, Nil. split_and!; [done| |].
    + by rewrite plug_app, (rightmost_plug _ _ _ _ _ _ _ _ _ Hrm).
    + apply rightmost_order in Hrm. rewrite before_app. cbn in *.
      by rewrite <- app_assoc, Hrm.
Qed.

Lemma rb_replace_node_elements c l x r y p :
  elements (rb_replace_node (Node c l x r) y p)
  = before p ++ (elements l ++ y :: elements r) ++ after p.
Proof. cbn. elems. Qed.

Lemma rb_replace_node_rb c l x r y p :
  is_rb (plug (Node c l x r) p) -> is_rb (rb_replace_node (Node c l x r) y p).
Proof.
  intros (cp & ct & n & Hp & Ht & Hc)%rbt_unplug. cbn.
  apply (rbt_plug cp ct n); [done| |done]. inversion Ht; subst; eauto with rb.
Qed.
End Traversal.

(** ** The contract *)
Section Properties.
Context {A : Type}.
Implicit Types (t l r : tree A) (p : list (frame A)) (x : A).

(** Linking a node in any gap of a red-black tree and calling
    [rb_insert_color] meets no null node, gives a red-black tree whose in-order
    sequence has the node in that gap, and keeps the depth logarithmic. *)
Theorem rb_insert_ok x p :
  is_rb (plug Nil p) ->
  exists t, rb_insert_color (rb_link_node x) p = Some t /\ is_rb t /\
    elements t = before p ++ x :: after p /\
    (height t <= 2 * Nat.log2 (S (length (elements t))))%nat.
Proof.
  intros H. destruct (rb_insert_spec x p H) as (t & Ht & Hrb & He).
  exists t. split_and!; [done..|]. by apply rb_height_bound.
Qed.

(** C33: [rb_erase] of any node of a red-black tree meets no null node, gives a
    red-black tree, and removes that node alone from the in-order sequence. *)
Theorem rb_erase_ok c l x r p :
  is_rb (plug (Node c l x r) p) ->
  exists t, rb_erase (Node c l x r) p = Some t /\ is_rb t /\
    elements (plug (Node c l x r) p) = before p ++ (elements l ++ x :: elements r) ++ after p /\
    elements t = before p ++ (elements l ++ elements r) ++ after p /\
    (height t <= 2 * Nat.log2 (S (length (elements t))))%nat.
Proof.
  intros H. destruct (rb_erase_spec c l x r p H) as (t & Ht & Hrb & He).
  exists t. split_and!; [done|done| |done|by apply rb_height_bound].
  rewrite elements_plug. cbn. done.
Qed.

(** C0: [rb_replace_node] puts the new node in the place of the victim. *)
Theorem rb_replace_node_ok c l x r y p :
  is_rb (plug (Node c l x r) p) ->
  is_rb (rb_replace_node (Node c l x r) y p) /\
  elements (rb_replace_node (Node c l x r) y p)
  = before p ++ (elements l ++ y :: elements r) ++ after p.
Proof. intros H. split; [by apply (rb_replace_node_rb c l x r)|apply rb_replace_node_elements]. Qed.
End Properties.

(** A path to a gap of a tree of three nodes, and to its root. *)
Definition toy_gap : list (frame nat) :=
  [InRight RB_RED Nil 3%nat; InRight RB_BLACK (Node RB_RED Nil 1%nat Nil) 2%nat].

Lemma toy_gap_rb : is_rb (plug Nil toy_gap).
Proof. exists 1%nat. cbn. repeat econstructor. Qed.

Lemma rb_insert_ok_witness :
  exists t, rb_insert_color (rb_link_node 4%nat) toy_gap = Some t /\ is_rb t /\
    elements t = before toy_gap ++ 4%nat :: after toy_gap /\
    (height t <= 2 * Nat.log2 (S (length (elements t))))%nat.
Proof. apply (rb_insert_ok 4%nat toy_gap). apply toy_gap_rb. Defined.

Lemma rb_erase_ok_witness :
  let l := Node RB_RED Nil 1%nat Nil in let r := Node RB_RED Nil 3%nat Nil in
  exists t, rb_erase (Node RB_BLACK l 2%nat r) [] = Some t /\ is_rb t /\
    elements (plug (Node RB_BLACK l 2%nat r) [])
      = before [] ++ (elements l ++ 2%nat :: elements r) ++ after [] /\
    elements t = before [] ++ (elements l ++ elements r) ++ after [] /\
    (height t <= 2 * Nat.log2 (S (length (elements t))))%nat.
Proof.
  intros l r. apply (rb_erase_ok RB_BLACK l 2%nat r []).
  exists 1%nat. cbn. repeat econstructor.
Defined.

Lemma rb_replace_node_ok_witness :
  let l := Node RB_RED Nil 1%nat Nil in
  is_rb (rb_replace_node (Node RB_BLACK l 2%nat Nil) 7%nat []) /\
  elements (rb_replace_node (Node RB_BLACK l 2%nat Nil) 7%nat [])
  = before [] ++ (elements l ++ 7%nat :: elements Nil) ++ after [].
Proof.
  intros l. apply (rb_replace_node_ok RB_BLACK l 2%nat Nil 7%nat []).
  exists 1%nat. cbn. repeat econstructor.
Defined.
