(* ===== verification/Blib.v ===== *)
(** * Block cache: [services/blib]

    A write-back cache of fixed-size blocks in front of a block device, with
    the blocks in use in a list ordered by recency and in a red-black tree
    ordered by block number.

    The cache memory is a heap from addresses to [blib_block_t]; the list, the
    free list and the tree hold addresses, so that a block reached through the
    list and the same block reached through the tree are one object. The doubly
    linked lists of list.h are lists of addresses. The device functions
    [bread_fn] and [bwrite_fn], supplied by the caller of [cyg_blib_create],
    are parameters. The code is modelled with
    CYGIMP_BLOCK_LIB_STATISTICS enabled. *)
From S2P Require Import Prelude RbTree.

Record blib_block_t := mk_block {
  num : Z;
  modified : bool;
  data : list byte;
}.

Record cyg_blib_stat_t := mk_stat { n_gets : Z; n_reads : Z; n_writes : Z }.

Section Code.
Context {D : Type}.

(** The device: [bread_fn priv len pos] returns the error code, what it stored
    in the buffer and the device's new state; [bwrite_fn priv buf len pos]. *)
Context (bread_fn : D -> Z -> Z -> Z * list byte * D).
Context (bwrite_fn : D -> list byte -> Z -> Z -> Z * D).

(** What the memory of a block happens to hold when the pool is laid out, for
    a block size and an address. *)
Context (raw_memory : Z -> Z -> blib_block_t).

Record cyg_blib_t := mk_blib {
  priv : D;
  list_head : list Z;
  rb_root : tree Z;
  block_size : Z;
  block_size_log2 : Z;
  mem_base : Z;
  mem_size : Z;
  free_list_head : list Z;
  stat : cyg_blib_stat_t;
  heap : Z -> blib_block_t;
}.

Definition set_priv d bl := mk_blib d (list_head bl) (rb_root bl) (block_size bl)
  (block_size_log2 bl) (mem_base bl) (mem_size bl) (free_list_head bl) (stat bl) (heap bl).
Definition set_list l bl := mk_blib (priv bl) l (rb_root bl) (block_size bl)
  (block_size_log2 bl) (mem_base bl) (mem_size bl) (free_list_head bl) (stat bl) (heap bl).
Definition set_root t bl := mk_blib (priv bl) (list_head bl) t (block_size bl)
  (block_size_log2 bl) (mem_base bl) (mem_size bl) (free_list_head bl) (stat bl) (heap bl).
Definition set_geometry base size bsize bl := mk_blib (priv bl) (list_head bl) (rb_root bl) bsize
  (block_size_log2 bl) base size (free_list_head bl) (stat bl) (heap bl).
Definition set_log2 k bl := mk_blib (priv bl) (list_head bl) (rb_root bl) (block_size bl)
  k (mem_base bl) (mem_size bl) (free_list_head bl) (stat bl) (heap bl).
Definition set_free l bl := mk_blib (priv bl) (list_head bl) (rb_root bl) (block_size bl)
  (block_size_log2 bl) (mem_base bl) (mem_size bl) l (stat bl) (heap bl).
Definition set_stat st bl := mk_blib (priv bl) (list_head bl) (rb_root bl) (block_size bl)
  (block_size_log2 bl) (mem_base bl) (mem_size bl) (free_list_head bl) st (heap bl).
Definition set_heap h bl := mk_blib (priv bl) (list_head bl) (rb_root bl) (block_size bl)
  (block_size_log2 bl) (mem_base bl) (mem_size bl) (free_list_head bl) (stat bl) h.

(** [block->field = v] for the block at address [a]. *)
Definition upd_block (a : Z) (f : blib_block_t -> blib_block_t) (bl : cyg_blib_t) :=
  set_heap (fun a' => if decide (a' = a) then f (heap bl a) else heap bl a') bl.
Definition set_num n (b : blib_block_t) := mk_block n (modified b) (data b).
Definition set_modified m (b : blib_block_t) := mk_block (num b) m (data b).
Definition set_data d (b : blib_block_t) := mk_block (num b) (modified b) d.

(** [STAT(_bl_, _group_)]; the counters are [cyg_uint32]. *)
Definition stat_gets st := mk_stat (u32 (n_gets st + 1)) (n_reads st) (n_writes st).
Definition stat_reads st := mk_stat (n_gets st) (u32 (n_reads st + 1)) (n_writes st).
Definition stat_writes st := mk_stat (n_gets st) (n_reads st) (u32 (n_writes st + 1)).

(** ** Block number to block: the red-black tree *)
Fixpoint rb_find_block (h : Z -> blib_block_t) (node : tree Z) (n : Z) : option Z :=
  match node with
  | Nil => None
  | Node _ rb_left block rb_right =>
      if num (h block) =? n then Some block
      else rb_find_block h (if num (h block) >? n then rb_left else rb_right) n
  end.

(** The descent of [rb_add_block] to the link where the block goes. *)
Fixpoint find_link (h : Z -> blib_block_t) (n : Z) (node : tree Z) (p : list (frame Z)) :
    list (frame Z) :=
  match node with
  | Nil => p
  | Node c l b r =>
      if num (h b) >? n then find_link h n l (InLeft c b r :: p)
      else find_link h n r (InRight c l b :: p)
  end.

Definition rb_add_block (block : Z) : M cyg_blib_t unit :=
  bl ← get_state;
  match rb_insert_color (rb_link_node block)
          (find_link (heap bl) (num (heap bl block)) (rb_root bl) []) with
  | Some t => modify (set_root t)
  | None => crash
  end.

(** The place of a node in the tree: what its links say. *)
Fixpoint locate (block : Z) (t : tree Z) (p : list (frame Z)) : option (tree Z * list (frame Z)) :=
  match t with
  | Nil => None
  | Node c l b r =>
      if decide (b = block) then Some (t, p)
      else
        match locate block l (InLeft c b r :: p) with
        | Some z => Some z
        | None => locate block r (InRight c l b :: p)
        end
  end.

Definition rb_del_block (block : Z) : M cyg_blib_t unit :=
  bl ← get_state;
  match locate block (rb_root bl) [] with
  | Some (t, p) =>
      match rb_erase t p with
      | Some t' => modify (set_root t')
      | None => crash
      end
  | None => crash
  end.

(** ** Recency list and free list *)
Definition list_del (a : Z) (l : list Z) : list Z := filter (fun b => b <> a) l.

Definition list_add_block (block : Z) : M cyg_blib_t unit :=
  modify (fun bl => set_list (block :: list_head bl) bl).

Definition list_del_block (block : Z) : M cyg_blib_t unit :=
  modify (fun bl => set_list (list_del block (list_head bl)) bl).

Definition list_get_first_block (bl : cyg_blib_t) : option Z := head (list_head bl).
Definition list_get_last_block (bl : cyg_blib_t) : option Z := list.last (list_head bl).

Definition list_move_block_to_head (block : Z) : M cyg_blib_t unit :=
  modify (fun bl => set_list (block :: list_del block (list_head bl)) bl).

Definition free_block (block : Z) : M cyg_blib_t unit :=
  modify (fun bl => set_free (block :: free_list_head bl) bl).

Definition alloc_block : M cyg_blib_t (option Z) :=
  bl ← get_state;
  match free_list_head bl with
  | new :: rest => modify (set_free rest) ;; mret (Some new)
  | [] => mret None
  end.

(** ** The memory pool *)
(** Two list links, three tree links and a colour, the number and the flag. *)
Definition sizeof_blib_block : Z := 32.
Definition CYGARC_ALIGNMENT : Z := 8.
Definition ALIGN (x : Z) : Z :=
  Z.land (u32 (x + (CYGARC_ALIGNMENT - 1))) (u32 (Z.lnot (CYGARC_ALIGNMENT - 1))).

(** [while (avail_mem_size >= block_mem_size)]: carves blocks, pushing each. *)
Fixpoint carve_blocks (fuel : nat) (block_mem avail block_mem_size : Z) (free : list Z) :
    option (list Z) :=
  match fuel with
  | O => None
  | S fuel =>
      if avail >=? block_mem_size then
        carve_blocks fuel (block_mem + block_mem_size) (avail - block_mem_size)
          block_mem_size (block_mem :: free)
      else Some free
  end.

Definition init_block_mem_pool : M cyg_blib_t unit :=
  bl ← get_state;
  let block_mem_size := ALIGN (u32 (sizeof_blib_block + block_size bl)) in
  match carve_blocks (S (Z.to_nat (mem_size bl / block_mem_size))) (mem_base bl) (mem_size bl)
          block_mem_size [] with
  | Some free =>
      modify (fun bl => set_heap (raw_memory (block_size bl)) (set_free free bl))
  | None => crash
  end.

(** [get_val_log2]: the shift loop does not end on 0, which has no set bit. *)
Fixpoint log2_loop (fuel : nat) (i log2 : Z) : option (Z * Z) :=
  match fuel with
  | O => None
  | S fuel =>
      if Z.land i 1 =? 0 then log2_loop fuel (Z.shiftr i 1) (log2 + 1) else Some (i, log2)
  end.

Definition get_val_log2 (val : Z) : option Z :=
  match log2_loop 33 val 0 with
  | Some (i, log2) => if negb (i =? 1) then Some 0 else Some log2
  | None => None
  end.

(** ** Writing back *)
Definition blib_sync_block (block : Z) : M cyg_blib_t Z :=
  bl ← get_state;
  if modified (heap bl block) then
    modify (fun bl => set_stat (stat_writes (stat bl)) bl) ;;
    let '(ret, priv') := bwrite_fn (priv bl) (data (heap bl block)) 1 (num (heap bl block)) in
    modify (set_priv priv') ;;
    if ret =? ENOERR then
      modify (upd_block block (set_modified false)) ;; mret ret
    else mret ret
  else mret ENOERR.

(** The walk of [blib_sync] over the recency list, stopped by the first error. *)
Fixpoint sync_list (l : list Z) : M cyg_blib_t Z :=
  match l with
  | [] => mret ENOERR
  | block :: l =>
      ret ← blib_sync_block block;
      if negb (ret =? ENOERR) then mret ret else sync_list l
  end.

Definition blib_sync : M cyg_blib_t Z :=
  bl ← get_state;
  sync_list (list_head bl).

(** ** Getting a block *)

(** The space of a block: a free one, else the least recently used one, written
    back first. [inl] is the error of that write-back. *)
Definition reclaim_block : M cyg_blib_t (Z + Z) :=
  ob ← alloc_block;
  match ob with
  | Some block => mret (inr block)
  | None =>
      bl ← get_state;
      match list_get_last_block bl with
      | None => crash
      | Some block =>
          ret ← blib_sync_block block;
          if negb (ret =? ENOERR) then mret (inl ret)
          else list_del_block block ;; rb_del_block block ;; mret (inr block)
      end
  end.

(** The result is [ret] and, when it is ENOERR, [*dblock]. *)
Definition blib_get_block (n : Z) (read_data : bool) : M cyg_blib_t (Z * option Z) :=
  modify (fun bl => set_stat (stat_gets (stat bl)) bl) ;;
  bl ← get_state;
  let found :=
    match list_get_first_block bl with
    | None => None
    | Some first_block =>
        if num (heap bl first_block) =? n then Some first_block
        else rb_find_block (heap bl) (rb_root bl) n
    end in
  match found with
  | Some block => list_move_block_to_head block ;; mret (ENOERR, Some block)
  | None =>
      r ← reclaim_block;
      match r with
      | inl ret => mret (ret, None)
      | inr block =>
          modify (upd_block block (fun b => set_modified false (set_num n b))) ;;
          ret ← (if read_data then
                   modify (fun bl => set_stat (stat_reads (stat bl)) bl) ;;
                   bl ← get_state;
                   let '(ret, buf, priv') := bread_fn (priv bl) 1 (num (heap bl block)) in
                   modify (fun bl => upd_block block (set_data buf) (set_priv priv' bl)) ;;
                   mret ret
                 else mret ENOERR);
          if negb (ret =? ENOERR) then free_block block ;; mret (ret, None)
          else rb_add_block block ;; list_add_block block ;; mret (ENOERR, Some block)
      end
  end.

(** ** Set-up *)
Definition blib_init_cache (base size bsize : Z) (reinit : bool) : M cyg_blib_t Z :=
  ret ← (if reinit then blib_sync else mret ENOERR);
  if negb (ret =? ENOERR) then mret ret
  else
    modify (fun bl => set_geometry base size bsize (set_list [] (set_root Nil bl))) ;;
    match get_val_log2 bsize with
    | None => crash
    | Some log2 =>
        modify (set_log2 log2) ;;
        if log2 =? 0 then mret (- EINVAL)
        else
          init_block_mem_pool ;;
          modify (set_stat (mk_stat 0 0 0)) ;;
          mret ENOERR
    end.

Definition cyg_blib_create (priv_data : D) (base size bsize : Z) (bl : cyg_blib_t) :
    option (Z * cyg_blib_t) :=
  blib_init_cache base size bsize false (set_priv priv_data bl).

Definition cyg_blib_delete : M cyg_blib_t Z := blib_sync.
Definition cyg_blib_sync : M cyg_blib_t Z := blib_sync.

Definition cyg_blib_flush : M cyg_blib_t Z :=
  bl ← get_state;
  blib_init_cache (mem_base bl) (mem_size bl) (block_size bl) true.

Definition cyg_blib_set_block_size (bsize : Z) : M cyg_blib_t Z :=
  bl ← get_state;
  blib_init_cache (mem_base bl) (mem_size bl) bsize true.

Definition cyg_blib_sync_block (n : Z) : M cyg_blib_t Z :=
  bl ← get_state;
  match rb_find_block (heap bl) (rb_root bl) n with
  | Some block => blib_sync_block block
  | None => mret (- EINVAL)
  end.

Definition cyg_blib_get_stat (bl : cyg_blib_t) : Z * cyg_blib_stat_t := (ENOERR, stat bl).

(** ** Block access

    The loops count [size], a [cyg_int32], down; they return the error code, what
    is left of [size] and, for the reads, the bytes stored in the buffer. *)
Fixpoint bread_loop (fuel : nat) (bnum size : Z) : M cyg_blib_t (Z * Z * list byte) :=
  if size >? 0 then
    match fuel with
    | O => crash
    | S fuel =>
        r ← blib_get_block (u32 bnum) true;
        match r with
        | (ret, Some block) =>
            bl ← get_state;
            let piece := upto (data (heap bl block)) (block_size bl) in
            '(ret, rem, rest) ← bread_loop fuel (s32 (bnum + 1)) (size - 1);
            mret (ret, rem, piece ++ rest)
        | (ret, None) => mret (ret, size, [])
        end
    end
  else mret (ENOERR, size, []).

(** [memcpy(dst + off, src)] into an array *)
Definition memcpy (dst : list byte) (off : Z) (src : list byte) : list byte :=
  take (Z.to_nat off) dst ++ src ++ drop (Z.to_nat off + length src) dst.

Fixpoint bwrite_loop (fuel : nat) (bbuf : list byte) (bnum size : Z) : M cyg_blib_t (Z * Z) :=
  if size >? 0 then
    match fuel with
    | O => crash
    | S fuel =>
        r ← blib_get_block (u32 bnum) false;
        match r with
        | (ret, Some block) =>
            bl ← get_state;
            modify (upd_block block (fun b =>
              set_modified true (set_data (memcpy (data b) 0 (upto bbuf (block_size bl))) b))) ;;
            bwrite_loop fuel (drop (Z.to_nat (block_size bl)) bbuf) (s32 (bnum + 1)) (size - 1)
        | (ret, None) => mret (ret, size)
        end
    end
  else mret (ENOERR, size).

(** Returns [ret], [*len] and the bytes stored in [buf]. *)
Definition cyg_blib_bread (len pos : Z) : M cyg_blib_t (Z * Z * list byte) :=
  let size := s32 len in
  '(ret, rem, buf) ← bread_loop (Z.to_nat size) (s32 pos) size;
  mret (ret, u32 (len - rem), buf).

Definition cyg_blib_bwrite (buf : list byte) (len pos : Z) : M cyg_blib_t (Z * Z) :=
  let size := s32 len in
  '(ret, rem) ← bwrite_loop (Z.to_nat size) buf (s32 pos) size;
  mret (ret, u32 (len - rem)).

(** ** Byte access *)

(** The bytes of this turn: [if ((size + pos) > bl->block_size)]. *)
Definition chunk_size (bsize size pos : Z) : Z :=
  if u32 (size + pos) >? bsize then u32 (bsize - pos) else size.

Fixpoint read_loop (fuel : nat) (bnum pos size : Z) : M cyg_blib_t (Z * Z * list byte) :=
  if size >? 0 then
    match fuel with
    | O => crash
    | S fuel =>
        bl ← get_state;
        let csize := chunk_size (block_size bl) size pos in
        r ← blib_get_block bnum true;
        match r with
        | (ret, Some block) =>
            bl ← get_state;
            let piece := upto (drop (Z.to_nat pos) (data (heap bl block))) csize in
            '(ret, rem, rest) ← read_loop fuel (u32 (bnum + 1)) 0 (s32 (size - csize));
            mret (ret, rem, piece ++ rest)
        | (ret, None) => mret (ret, size, [])
        end
    end
  else mret (ENOERR, size, []).

Fixpoint write_loop (fuel : nat) (bbuf : list byte) (bnum pos size : Z) : M cyg_blib_t (Z * Z) :=
  if size >? 0 then
    match fuel with
    | O => crash
    | S fuel =>
        bl ← get_state;
        let csize := chunk_size (block_size bl) size pos in
        r ← blib_get_block bnum (negb ((0 =? pos) && (csize =? block_size bl)));
        match r with
        | (ret, Some block) =>
            modify (upd_block block (fun b =>
              set_modified true (set_data (memcpy (data b) pos (upto bbuf csize)) b))) ;;
            write_loop fuel (drop (Z.to_nat csize) bbuf) (u32 (bnum + 1)) 0 (s32 (size - csize))
        | (ret, None) => mret (ret, size)
        end
    end
  else mret (ENOERR, size).

(** [if (pos >= bl->block_size)]: the block number absorbs whole blocks. *)
Definition normalize_pos (bl : cyg_blib_t) (bnum pos : Z) : Z * Z :=
  if pos >=? block_size bl then
    (u32 (bnum + Z.shiftr pos (block_size_log2 bl)), Z.land pos (u32 (block_size bl - 1)))
  else (bnum, pos).

Definition cyg_blib_read (len bnum pos : Z) : M cyg_blib_t (Z * Z * list byte) :=
  bl ← get_state;
  let size := s32 len in
  let '(bnum, pos) := normalize_pos bl bnum pos in
  '(ret, rem, buf) ← read_loop (Z.to_nat size) bnum pos size;
  mret (ret, u32 (len - rem), buf).

Definition cyg_blib_write (buf : list byte) (len bnum pos : Z) : M cyg_blib_t (Z * Z) :=
  bl ← get_state;
  let size := s32 len in
  let '(bnum, pos) := normalize_pos bl bnum pos in
  '(ret, rem) ← write_loop (Z.to_nat size) buf bnum pos size;
  mret (ret, u32 (len - rem)).
End Code.

(** ** On top of the I/O system: the device is a handle of [cyg_io_lookup]. *)
Section Io.
Context {D : Type}.
Context (cyg_io_bread : D -> Z -> Z -> Z * list byte * D).
Context (cyg_io_bwrite : D -> list byte -> Z -> Z -> Z * D).
Context (raw_memory : Z -> Z -> blib_block_t).

Definition io_bread (handle : D) (len pos : Z) := cyg_io_bread handle len pos.
Definition io_bwrite (handle : D) (buf : list byte) (len pos : Z) := cyg_io_bwrite handle buf len pos.

Definition cyg_blib_io_create (handle : D) (base size bsize : Z) (bl : @cyg_blib_t D) :=
  cyg_blib_create io_bwrite raw_memory handle base size bsize bl.
End Io.
