(* ===== verification/BlibSpec.v ===== *)
(** * Block cache: what it promises

    The invariant of a cache, the content it presents to its client, and the
    specification of the operations of [Blib] against that content: the recency
    list, the tree and the write-back policy are invisible, errors of the device
    included. *)
From S2P Require Import Prelude RbTree Blib.

(** ** The device a cache may be built on

    A successful read stores the block's content, a successful write replaces
    it; a failing write may leave the block it was given with any content, but
    touches no other; a read changes nothing. A device does not report an end of
    file, which the file systems above use for their own purposes. *)
Class BlockDevice {D} (bread_fn : D -> Z -> Z -> Z * list byte * D)
    (bwrite_fn : D -> list byte -> Z -> Z -> Z * D) (dev_data : D -> Z -> list byte)
    (bsize : Z) : Prop := {
  dev_length d n : length (dev_data d n) = Z.to_nat bsize;
  bread_ok d n buf d' : bread_fn d 1 n = (ENOERR, buf, d') -> buf = dev_data d n;
  bread_length d n ret buf d' :
    bread_fn d 1 n = (ret, buf, d') -> length buf = Z.to_nat bsize;
  bread_frame d n ret buf d' m :
    bread_fn d 1 n = (ret, buf, d') -> dev_data d' m = dev_data d m;
  bwrite_ok d n buf d' :
    length buf = Z.to_nat bsize -> bwrite_fn d buf 1 n = (ENOERR, d') -> dev_data d' n = buf;
  bwrite_frame d n buf ret d' m :
    bwrite_fn d buf 1 n = (ret, d') -> m <> n -> dev_data d' m = dev_data d m;
  bread_no_eof d n ret buf d' : bread_fn d 1 n = (ret, buf, d') -> ret <> EEOF;
  bwrite_no_eof d n buf ret d' : bwrite_fn d buf 1 n = (ret, d') -> ret <> EEOF;
}.

(** ** Search trees over a heap *)
Section Search.
Context (h : Z -> blib_block_t).
Implicit Types (t : tree Z) (p : list (frame Z)) (a b n : Z).

Definition key_lt (a b : Z) : Prop := num (h a) < num (h b).

Lemma sorted_app_inv (l1 l2 : list Z) x :
  StronglySorted key_lt (l1 ++ x :: l2) ->
  StronglySorted key_lt l1 /\ StronglySorted key_lt l2 /\
  (forall a, a ∈ l1 -> key_lt a x) /\ (forall b, b ∈ l2 -> key_lt x b).
Proof.
  intros (H12 & H1 & (Hall & Hs)%StronglySorted_cons)%StronglySorted_app.
  rewrite Forall_forall in Hall.
  split_and!; [done|done| |done]. intros a Ha. apply H12; [done|]. by left.
Qed.

Lemma rb_find_block_ok t n a :
  StronglySorted key_lt (elements t) ->
  rb_find_block h t n = Some a <-> a ∈ elements t /\ num (h a) = n.
Proof.
  induction t as [|c l IHl b r IHr]; cbn [rb_find_block elements].
  { intros _. split; [done|]. intros [H _]. by apply not_elem_of_nil in H. }
  intros (Hl & Hr & Hbl & Hbr)%sorted_app_inv.
  rewrite elem_of_app, elem_of_cons. unfold key_lt in *.
  destruct (Z.eqb_spec (num (h b)) n) as [Heq|Hne].
  - split; [intros [= <-]; auto|]. intros [[Ha|[->|Ha]] Hn]; [|done|].
    + apply Hbl in Ha. lia.
    + apply Hbr in Ha. lia.
  - rewrite Z.gtb_ltb. destruct (Z.ltb_spec n (num (h b))).
    + rewrite (IHl Hl). split; [tauto|]. intros [[Ha|[->|Ha]] Hn]; [done|lia|].
      apply Hbr in Ha. lia.
    + rewrite (IHr Hr). split; [tauto|]. intros [[Ha|[->|Ha]] Hn]; [|lia|done].
      apply Hbl in Ha. lia.
Qed.

(** The descent stops at the gap where the number belongs. *)
Lemma find_link_ok n t p :
  StronglySorted key_lt (elements t) -> (forall a, a ∈ elements t -> num (h a) <> n) ->
  exists lo hi, elements t = lo ++ hi /\
    before (find_link h n t p) = before p ++ lo /\
    after (find_link h n t p) = hi ++ after p /\
    plug Nil (find_link h n t p) = plug t p /\
    (forall a, a ∈ lo -> num (h a) < n) /\ (forall a, a ∈ hi -> n < num (h a)).
Proof.
  revert p. induction t as [|c l IHl b r IHr]; intros p; cbn [find_link elements].
  { intros _ _. exists [], [].
    split_and!; rewrite ?app_nil_r; try done; intros a Ha; by apply not_elem_of_nil in Ha. }
  intros (Hl & Hr & Hbl & Hbr)%sorted_app_inv Hn. unfold key_lt in *.
  assert (num (h b) <> n) by (apply Hn; set_solver).
  rewrite Z.gtb_ltb. destruct (Z.ltb_spec n (num (h b))).
  - destruct (IHl (InLeft c b r :: p)) as (lo & hi & He & Hb & Ha & Hp & Hlo & Hhi);
      [done|set_solver|].
    exists lo, (hi ++ b :: elements r). rewrite He, Hb, Ha, Hp. cbn [before after].
    split_and!; [by rewrite <- app_assoc|done|by rewrite <- app_assoc|done|done|].
    intros a [Hin|[->|Hin%Hbr]%elem_of_cons]%elem_of_app; auto; lia.
  - destruct (IHr (InRight c l b :: p)) as (lo & hi & He & Hb & Ha & Hp & Hlo & Hhi);
      [done|set_solver|].
    exists (elements l ++ b :: lo), hi. rewrite He, Hb, Ha, Hp. cbn [before after].
    split_and!; [by rewrite <- app_assoc|by rewrite <- !app_assoc|done|done| |done].
    intros a [Hin%Hbl|[->|Hin]%elem_of_cons]%elem_of_app; auto; lia.
Qed.

Lemma locate_elem a t p z : locate a t p = Some z -> a ∈ elements t.
Proof.
  revert p z. induction t as [|c l IHl b r IHr]; intros p z; cbn [locate elements]; [done|].
  rewrite elem_of_app, elem_of_cons. case_decide; [auto|].
  destruct (locate a l _) eqn:Hl; intros; eauto.
Qed.

Lemma locate_ok a t p :
  a ∈ elements t ->
  exists c l r p', locate a t p = Some (Node c l a r, p') /\
    plug (Node c l a r) p' = plug t p.
Proof.
  revert p. induction t as [|c l IHl b r IHr]; intros p; cbn [locate elements].
  { by intros ?%not_elem_of_nil. }
  intros Ha. destruct (decide (b = a)) as [->|Hne]; [by exists c, l, r, p|].
  destruct (locate a l _) as [z|] eqn:Hl.
  - pose proof (locate_elem _ _ _ _ Hl) as Hin.
    destruct (IHl (InLeft c b r :: p) Hin) as (c' & l' & r' & p' & Hz & Hplug).
    rewrite Hz in Hl. simplify_eq. by exists c', l', r', p'.
  - apply elem_of_app in Ha as [Hin|[->|Hin]%elem_of_cons]; [|done|].
    + destruct (IHl (InLeft c b r :: p) Hin) as (? & ? & ? & ? & Hz & _). congruence.
    + destruct (IHr (InRight c l b :: p) Hin) as (c' & l' & r' & p' & Hz & Hplug).
      by exists c', l', r', p'.
Qed.
End Search.

Lemma key_lt_ext h1 h2 l :
  (forall a, a ∈ l -> num (h1 a) = num (h2 a)) ->
  StronglySorted (key_lt h1) l -> StronglySorted (key_lt h2) l.
Proof.
  intros Heq. induction l as [|a l IH]; [constructor|].
  rewrite !StronglySorted_cons. intros [Hall Hs]. split.
  2: { apply IH; [set_solver|done]. }
  { rewrite Forall_forall in *. intros b Hb. specialize (Hall b Hb). unfold key_lt in *.
    rewrite <- !Heq by set_solver. done. }
Qed.

(** ** The invariant of a cache and its logical content *)
Section Cache.
Context {D : Type}.
Context {bread_fn : D -> Z -> Z -> Z * list byte * D}.
Context {bwrite_fn : D -> list byte -> Z -> Z -> Z * D}.
Context {dev_data : D -> Z -> list byte} {bsize : Z}.
Context {Dev : BlockDevice bread_fn bwrite_fn dev_data bsize}.
#[local] Abbreviation blib := (@cyg_blib_t D).
Implicit Types (bl : blib) (a n : Z) (pool : list Z) (ex : option Z).

(** [ex] is the block, if any, that was just claimed for a full overwrite: its
    data may differ from the device although it is not marked modified. *)
Record cache_inv pool ex bl : Prop := {
  inv_size : block_size bl = bsize;
  inv_log2 : bsize = 2 ^ block_size_log2 bl;
  inv_log2_range : 1 <= block_size_log2 bl < 31;
  inv_pool : list_head bl ++ free_list_head bl ≡ₚ pool;
  inv_nodup : NoDup pool;
  inv_tree : elements (rb_root bl) ≡ₚ list_head bl;
  inv_rb : is_rb (rb_root bl);
  inv_sorted : StronglySorted (key_lt (heap bl)) (elements (rb_root bl));
  inv_data a : a ∈ pool -> length (data (heap bl a)) = Z.to_nat bsize;
  inv_num a : a ∈ list_head bl -> fits 32 (num (heap bl a));
  inv_clean a : a ∈ list_head bl -> Some a <> ex -> modified (heap bl a) = false ->
    data (heap bl a) = dev_data (priv bl) (num (heap bl a));
}.

(** The content the cache presents: the cached copy, else the device's. *)
Definition view bl n : list byte :=
  match find (fun a => num (heap bl a) =? n) (list_head bl) with
  | Some a => data (heap bl a)
  | None => dev_data (priv bl) n
  end.

Definition uncached bl n : Prop := forall a, a ∈ list_head bl -> num (heap bl a) <> n.

Lemma cached_dec bl n :
  (exists a, a ∈ list_head bl /\ num (heap bl a) = n) \/ uncached bl n.
Proof.
  unfold uncached. induction (list_head bl) as [|a l [(b & Hb & Hn)|IH]].
  - right. by intros a ?%not_elem_of_nil.
  - left. exists b. split; [by right|done].
  - destruct (decide (num (heap bl a) = n)).
    + left. exists a. split; [by left|done].
    + right. intros b [->|Hb]%elem_of_cons; auto.
Qed.

Lemma inv_key_inj pool ex bl a b :
  cache_inv pool ex bl -> a ∈ list_head bl -> b ∈ list_head bl ->
  num (heap bl a) = num (heap bl b) -> a = b.
Proof.
  intros Hinv. rewrite <- (inv_tree _ _ _ Hinv).
  pose proof (inv_sorted _ _ _ Hinv) as Hs. clear Hinv.
  induction (elements (rb_root bl)) as [|x l IH]; [by intros ?%not_elem_of_nil|].
  apply StronglySorted_cons in Hs as [Hall Hs]. rewrite Forall_forall in Hall.
  unfold key_lt in Hall.
  intros [->|Ha]%elem_of_cons [->|Hb]%elem_of_cons Heq; auto.
  - specialize (Hall _ Hb). lia.
  - specialize (Hall _ Ha). lia.
Qed.

Lemma find_num_spec bl n :
  match find (fun a => num (heap bl a) =? n) (list_head bl) with
  | Some a => a ∈ list_head bl /\ num (heap bl a) = n
  | None => uncached bl n
  end.
Proof.
  destruct (find _ _) as [a|] eqn:Hf.
  - apply find_some in Hf as [Hin Heq]. by rewrite list_elem_of_In, <- Z.eqb_eq.
  - intros a Ha Heq. apply list_elem_of_In in Ha.
    apply (find_none _ _ Hf) in Ha. by apply Z.eqb_neq in Ha.
Qed.

Lemma view_cached pool ex bl a :
  cache_inv pool ex bl -> a ∈ list_head bl -> view bl (num (heap bl a)) = data (heap bl a).
Proof.
  intros Hinv Ha. unfold view.
  pose proof (find_num_spec bl (num (heap bl a))) as H. destruct (find _ _) as [b|].
  - destruct H as [Hb Heq]. by rewrite (inv_key_inj _ _ _ b a Hinv).
  - by destruct (H a).
Qed.

Lemma view_uncached bl n : uncached bl n -> view bl n = dev_data (priv bl) n.
Proof.
  intros Hn. unfold view. pose proof (find_num_spec bl n) as H.
  destruct (find _ _) as [a|]; [|done]. destruct H as [Ha Heq]. by destruct (Hn a Ha).
Qed.

Lemma view_length pool ex bl n : cache_inv pool ex bl -> length (view bl n) = Z.to_nat bsize.
Proof.
  intros Hinv. destruct (cached_dec bl n) as [(a & Ha & <-)|Hn].
  - rewrite (view_cached pool ex) by done. apply (inv_data _ _ _ Hinv).
    rewrite <- (inv_pool _ _ _ Hinv). set_solver.
  - rewrite view_uncached by done. apply dev_length.
Qed.

(** Two caches that agree on which blocks are cached, on their data and on the
    rest of the device present the same content. *)
Lemma view_ext pool ex pool' ex' bl bl' n :
  cache_inv pool ex bl -> cache_inv pool' ex' bl' ->
  (forall a, a ∈ list_head bl <-> a ∈ list_head bl') ->
  (forall a, a ∈ list_head bl ->
     num (heap bl' a) = num (heap bl a) /\ data (heap bl' a) = data (heap bl a)) ->
  (uncached bl n -> dev_data (priv bl') n = dev_data (priv bl) n) ->
  view bl' n = view bl n.
Proof.
  intros Hinv Hinv' Hl Hh Hd. destruct (cached_dec bl n) as [(a & Ha & <-)|Hn].
  - destruct (Hh a Ha) as [Hnum Hdata].
    rewrite (view_cached pool ex) by done. rewrite <- Hnum, <- Hdata.
    apply (view_cached pool' ex'); [done|]. by apply Hl.
  - rewrite !view_uncached; [auto|done|]. intros a Ha%Hl. destruct (Hh a Ha) as [-> _]. auto.
Qed.

(** ** Writing back *)

(** Nothing a client can see of the memory has changed, except flags. *)
Record same_shape bl bl' : Prop := {
  ss_list : list_head bl' = list_head bl;
  ss_root : rb_root bl' = rb_root bl;
  ss_free : free_list_head bl' = free_list_head bl;
  ss_size : block_size bl' = block_size bl;
  ss_log2 : block_size_log2 bl' = block_size_log2 bl;
  ss_mem : mem_base bl' = mem_base bl /\ mem_size bl' = mem_size bl;
  ss_num a : num (heap bl' a) = num (heap bl a);
  ss_data a : data (heap bl' a) = data (heap bl a);
}.

#[export] Instance same_shape_refl : Reflexive same_shape.
Proof. by constructor. Qed.

#[export] Instance same_shape_trans : Transitive same_shape.
Proof. intros x y z [] []. constructor; congruence || intuition congruence. Qed.

Lemma inv_same_shape pool ex bl bl' :
  cache_inv pool ex bl -> same_shape bl bl' ->
  (forall a, a ∈ list_head bl -> Some a <> ex -> modified (heap bl' a) = false ->
     data (heap bl a) = dev_data (priv bl') (num (heap bl a))) ->
  cache_inv pool ex bl'.
Proof.
  intros [] [] Hclean. constructor; try congruence.
  - rewrite ss_root0. eapply key_lt_ext; [|done]. intros. by rewrite ss_num0.
  - intros a Ha. rewrite ss_data0. auto.
  - intros a Ha. rewrite ss_num0, ss_list0 in *. auto.
  - intros a Ha Hex Hm. rewrite ss_data0, ss_num0. rewrite ss_list0 in Ha. auto.
Qed.

Lemma view_same_shape pool ex bl bl' n :
  cache_inv pool ex bl -> cache_inv pool ex bl' -> same_shape bl bl' ->
  (uncached bl n -> dev_data (priv bl') n = dev_data (priv bl) n) ->
  view bl' n = view bl n.
Proof.
  intros Hinv Hinv' Hss Hd. apply (view_ext pool ex pool ex); [done|done| | |done].
  - intros a. by rewrite (ss_list _ _ Hss).
  - intros a _. split; [apply (ss_num _ _ Hss)|apply (ss_data _ _ Hss)].
Qed.

(** What a write-back leaves: the same cache, flags cleared only. *)
Record wrote_back pool ex bl bl' : Prop := {
  wb_inv : cache_inv pool ex bl';
  wb_shape : same_shape bl bl';
  wb_view n : view bl' n = view bl n;
  wb_flags a : modified (heap bl a) = false -> modified (heap bl' a) = false;
}.

Lemma wrote_back_refl pool ex bl : cache_inv pool ex bl -> wrote_back pool ex bl bl.
Proof. by constructor. Qed.

Lemma wrote_back_trans pool ex bl1 bl2 bl3 :
  wrote_back pool ex bl1 bl2 -> wrote_back pool ex bl2 bl3 -> wrote_back pool ex bl1 bl3.
Proof.
  intros [] []. constructor; [done|by etrans| |auto]. intros. congruence.
Qed.

Lemma in_pool pool ex bl a : cache_inv pool ex bl -> a ∈ list_head bl -> a ∈ pool.
Proof. intros Hinv. rewrite <- (inv_pool _ _ _ Hinv). set_solver. Qed.

Lemma sync_block_spec pool ex bl a :
  cache_inv pool ex bl -> a ∈ list_head bl -> Some a <> ex ->
  wp (blib_sync_block bwrite_fn a) (fun ret bl' =>
    wrote_back pool ex bl bl' /\ (ret = ENOERR -> modified (heap bl' a) = false)) bl.
Proof.
  intros Hinv Ha Hex. unfold blib_sync_block. apply wp_get.
  destruct (modified (heap bl a)) eqn:Hm.
  2: { apply wp_ret. split; [by apply wrote_back_refl|done]. }
  apply wp_modify. cbn. destruct (bwrite_fn _ _ _ _) as [ret priv'] eqn:Hw.
  apply wp_modify. set (bl1 := set_priv priv' _).
  assert (forall n, n <> num (heap bl a) -> dev_data priv' n = dev_data (priv bl) n) as Hframe'
    by (intros; by eapply bwrite_frame).
  assert (forall b, b ∈ list_head bl -> b <> a -> num (heap bl b) <> num (heap bl a)) as Hne.
  { intros b Hb Hab Heq. apply Hab. by eapply inv_key_inj. }
  destruct (Z.eqb_spec ret ENOERR) as [->|Hret].
  - apply wp_modify, wp_ret. set (bl2 := upd_block a _ bl1).
    assert (dev_data priv' (num (heap bl a)) = data (heap bl a)) as Hok.
    { eapply bwrite_ok; [|done]. eapply inv_data; [done|]. by eapply in_pool. }
    assert (same_shape bl bl2) as Hss.
    { constructor; try done; intros b; cbn; by case_decide; subst. }
    assert (cache_inv pool ex bl2) as Hinv2.
    { eapply inv_same_shape; [done..|]. intros b Hb Hbex. cbn. case_decide; subst.
      - by rewrite Hok.
      - intros Hb'. rewrite Hframe' by auto. by eapply inv_clean. }
    split; [|intros _; cbn; by rewrite decide_True]. constructor; [done..| |].
    + intros n. eapply view_same_shape; [done..|]. intros Hun. apply Hframe'.
      intros ->. by apply (Hun a).
    + intros b. cbn. by case_decide.
  - apply wp_ret. assert (same_shape bl bl1) as Hss by done.
    assert (cache_inv pool ex bl1) as Hinv1.
    { eapply inv_same_shape; [done..|]. intros b Hb Hbex Hb'. cbn in *.
      rewrite Hframe'; [by eapply inv_clean|]. apply Hne; [done|]. intros ->. congruence. }
    split; [|done]. constructor; [done..| |done].
    intros n. eapply view_same_shape; [done..|]. intros Hun. apply Hframe'.
    intros ->. by apply (Hun a).
Qed.

Lemma sync_list_spec pool bl l :
  cache_inv pool None bl -> (forall a, a ∈ l -> a ∈ list_head bl) ->
  wp (sync_list bwrite_fn l) (fun ret bl' =>
    wrote_back pool None bl bl' /\
    (ret = ENOERR -> forall a, a ∈ l -> modified (heap bl' a) = false)) bl.
Proof.
  revert bl. induction l as [|a l IH]; intros bl Hinv Hl; cbn [sync_list].
  { apply wp_ret. split; [by apply wrote_back_refl|]. by intros _ a ?%not_elem_of_nil. }
  apply wp_bind. eapply wp_mono; [apply (sync_block_spec pool None); [done|set_solver|done]|].
  intros ret bl1 [Hwb Hclean]. destruct (Z.eqb_spec ret ENOERR) as [->|Hret]; cbn.
  2: { apply wp_ret. split; [done|]. intros ->. done. }
  pose proof (wb_inv _ _ _ _ Hwb) as Hinv1.
  eapply wp_mono; [apply IH; [done|]|].
  { intros b Hb. rewrite (ss_list _ _ (wb_shape _ _ _ _ Hwb)). set_solver. }
  intros ret bl2 [Hwb2 Hclean2]. split; [by eapply wrote_back_trans|].
  intros Hret b [->|Hb]%elem_of_cons; [|auto].
  apply (wb_flags _ _ _ _ Hwb2). auto.
Qed.

(** [blib_sync]: on success the device holds what the cache presents. *)
Lemma blib_sync_spec pool bl :
  cache_inv pool None bl ->
  wp (blib_sync bwrite_fn) (fun ret bl' =>
    wrote_back pool None bl bl' /\
    (ret = ENOERR -> forall n, dev_data (priv bl') n = view bl n)) bl.
Proof.
  intros Hinv. unfold blib_sync. apply wp_get.
  eapply wp_mono; [by apply (sync_list_spec pool)|].
  intros ret bl' [Hwb Hclean]. split; [done|]. intros Hret n.
  pose proof (wb_inv _ _ _ _ Hwb) as Hinv'. pose proof (wb_shape _ _ _ _ Hwb) as Hss.
  rewrite <- (wb_view _ _ _ _ Hwb). destruct (cached_dec bl' n) as [(a & Ha & <-)|Hn].
  - rewrite (view_cached pool None) by done. symmetry.
    eapply inv_clean; [done..|]. apply Hclean; [done|].
    by rewrite <- (ss_list _ _ Hss).
  - by rewrite view_uncached.
Qed.

(** ** Claiming the space of a block *)
Lemma sorted_app_remove {A} (R : relation A) l1 x l2 :
  StronglySorted R (l1 ++ x :: l2) -> StronglySorted R (l1 ++ l2).
Proof.
  rewrite !StronglySorted_app, StronglySorted_cons. intros (H12 & H1 & H3 & H2).
  split_and!; [|done..]. intros y z Hy Hz. apply H12; [done|by right].
Qed.

Lemma rb_add_block_spec a bl :
  is_rb (rb_root bl) -> StronglySorted (key_lt (heap bl)) (elements (rb_root bl)) ->
  (forall b, b ∈ elements (rb_root bl) -> num (heap bl b) <> num (heap bl a)) ->
  wp (rb_add_block a) (fun _ bl' => exists t,
    bl' = set_root t bl /\ is_rb t /\ StronglySorted (key_lt (heap bl)) (elements t) /\
    elements t ≡ₚ a :: elements (rb_root bl)) bl.
Proof.
  intros Hrb Hs Hne. unfold rb_add_block. apply wp_get.
  destruct (find_link_ok (heap bl) (num (heap bl a)) (rb_root bl) [] Hs Hne)
    as (lo & hi & He & Hb & Ha & Hp & Hlo & Hhi).
  destruct (rb_insert_spec a (find_link (heap bl) (num (heap bl a)) (rb_root bl) []))
    as (t & -> & Ht & Het); [by rewrite Hp|].
  exists tt, (set_root t bl). split; [done|]. exists t. split; [done|]. split; [done|].
  rewrite Het, Hb, Ha, app_nil_r. cbn [before app]. split.
  - rewrite He in Hs. apply StronglySorted_app in Hs as (H12 & H1 & H2).
    apply StronglySorted_app_2; [|done|].
    + intros x y Hx [->|Hy]%elem_of_cons; [by apply Hlo|by apply H12].
    + apply StronglySorted_cons. split; [|done]. by apply Forall_forall.
  - by rewrite He, Permutation_middle.
Qed.

Lemma rb_del_block_spec a bl :
  is_rb (rb_root bl) -> StronglySorted (key_lt (heap bl)) (elements (rb_root bl)) ->
  a ∈ elements (rb_root bl) ->
  wp (rb_del_block a) (fun _ bl' => exists t,
    bl' = set_root t bl /\ is_rb t /\ StronglySorted (key_lt (heap bl)) (elements t) /\
    elements (rb_root bl) ≡ₚ a :: elements t) bl.
Proof.
  intros Hrb Hs Ha. unfold rb_del_block. apply wp_get.
  destruct (locate_ok a (rb_root bl) [] Ha) as (c & l & r & p & -> & Hp).
  destruct (rb_erase_spec c l a r p) as (t & -> & Ht & Het); [by rewrite Hp|].
  exists tt, (set_root t bl). split; [done|]. exists t. do 2 (split; [done|]).
  apply (f_equal elements) in Hp. rewrite elements_plug in Hp. cbn in Hp.
  assert (elements (rb_root bl) = (before p ++ elements l) ++ a :: (elements r ++ after p))
    as He by (rewrite <- Hp, <- !app_assoc; done).
  assert (elements t = (before p ++ elements l) ++ (elements r ++ after p)) as ->
    by (rewrite Het, <- !app_assoc; done).
  rewrite He in Hs |- *. split; [by eapply sorted_app_remove|].
  symmetry. apply Permutation_middle.
Qed.

Lemma list_del_notin a l : a ∉ l -> list_del a l = l.
Proof.
  induction l as [|b l IH]; [done|]. intros Hn. unfold list_del in *.
  rewrite filter_cons_True by set_solver. f_equal. apply IH. set_solver.
Qed.

Lemma list_del_perm a l : NoDup l -> a ∈ l -> l ≡ₚ a :: list_del a l.
Proof.
  induction l as [|b l IH]; [by intros _ ?%not_elem_of_nil|].
  intros [Hb Hnd]%NoDup_cons Ha. destruct (decide (b = a)) as [->|Hne].
  - f_equiv. unfold list_del. rewrite filter_cons_False by tauto.
    fold (list_del a l). by rewrite list_del_notin.
  - unfold list_del. rewrite filter_cons_True by done. fold (list_del a l).
    rewrite (IH Hnd) at 1 by set_solver. apply Permutation_swap.
Qed.

(** The space handed out is outside a smaller pool that still satisfies the
    invariant, so no error path can lose or duplicate a block. *)
Record reclaimed pool bl a bl' : Prop := {
  rc_pool : exists pool', pool ≡ₚ a :: pool' /\ cache_inv pool' None bl';
  rc_data : length (data (heap bl' a)) = Z.to_nat bsize;
  rc_view n : view bl' n = view bl n;
  rc_uncached n : uncached bl n -> uncached bl' n;
}.

Lemma elem_of_list_del a b l : b ∈ list_del a l <-> b <> a /\ b ∈ l.
Proof. unfold list_del. by rewrite list_elem_of_filter. Qed.

Lemma free_reclaimed pool bl a rest :
  cache_inv pool None bl -> free_list_head bl = a :: rest ->
  reclaimed pool bl a (set_free rest bl).
Proof.
  intros Hinv Hfree. pose proof (inv_pool _ _ _ Hinv) as Hpool. rewrite Hfree in Hpool.
  assert (pool ≡ₚ a :: (list_head bl ++ rest)) as Hp.
  { rewrite <- Hpool. symmetry. apply Permutation_middle. }
  constructor; [|by apply (inv_data _ _ _ Hinv); rewrite Hp; left|done..].
  exists (list_head bl ++ rest). split; [done|].
  pose proof (inv_nodup _ _ _ Hinv) as Hnd. rewrite Hp in Hnd.
  apply NoDup_cons in Hnd as [_ Hnd].
  destruct Hinv. constructor; try done. intros b Hb. apply inv_data0. rewrite Hp. by right.
Qed.

Lemma evicted_reclaimed pool bl a t :
  cache_inv pool None bl -> list_head bl ≡ₚ pool -> a ∈ list_head bl ->
  free_list_head bl = [] -> modified (heap bl a) = false ->
  is_rb t -> StronglySorted (key_lt (heap bl)) (elements t) ->
  elements (rb_root bl) ≡ₚ a :: elements t ->
  reclaimed pool bl a (set_root t (set_list (list_del a (list_head bl)) bl)).
Proof.
  intros Hinv Hpool Ha Hfree Hclean Ht Hst Hperm. set (bl' := set_root t _).
  assert (NoDup (list_head bl)) as Hnd by (rewrite Hpool; apply (inv_nodup _ _ _ Hinv)).
  pose proof (list_del_perm a _ Hnd Ha) as Hdel.
  assert (cache_inv (list_del a (list_head bl)) None bl') as Hinv'.
  { destruct Hinv. constructor; try done; cbn.
    - by rewrite Hfree, app_nil_r.
    - by apply NoDup_filter.
    - apply (Permutation_cons_inv (a := a)). by rewrite <- Hperm, inv_tree0.
    - intros b [_ Hb]%elem_of_list_del. apply inv_data0. by rewrite <- Hpool.
    - intros b [_ Hb]%elem_of_list_del. auto.
    - intros b [_ Hb]%elem_of_list_del. auto. }
  constructor.
  - exists (list_del a (list_head bl)). split; [|done]. by rewrite <- Hpool.
  - apply (inv_data _ _ _ Hinv). by rewrite <- Hpool.
  - intros n. destruct (cached_dec bl n) as [(b & Hb & <-)|Hun].
    + rewrite (view_cached pool None) by done. destruct (decide (b = a)) as [->|Hne].
      * rewrite view_uncached; [symmetry; by apply (inv_clean _ _ _ Hinv)|].
        intros b [Hba Hb']%elem_of_list_del Heq. apply Hba. by apply (inv_key_inj pool None bl).
      * apply (view_cached _ _ _ b Hinv'). by apply elem_of_list_del.
    + rewrite !view_uncached; [done..|]. intros b [_ Hb]%elem_of_list_del. by apply Hun.
  - intros n Hun b [_ Hb]%elem_of_list_del. by apply Hun.
Qed.

Lemma reclaim_block_spec pool bl :
  pool <> [] -> cache_inv pool None bl ->
  wp (reclaim_block bwrite_fn) (fun r bl' =>
    match r with
    | inl ret => ret <> ENOERR /\ cache_inv pool None bl' /\ forall n, view bl' n = view bl n
    | inr a => reclaimed pool bl a bl'
    end) bl.
Proof.
  intros Hne Hinv. unfold reclaim_block, alloc_block. apply wp_bind, wp_get.
  destruct (free_list_head bl) as [|a rest] eqn:Hfree.
  - (* the least recently used block is written back and evicted *)
    apply wp_ret, wp_get. unfold list_get_last_block.
    pose proof (inv_pool _ _ _ Hinv) as Hpool. rewrite Hfree, app_nil_r in Hpool.
    destruct (list.last (list_head bl)) as [a|] eqn:Hlast.
    2: { apply last_None in Hlast. rewrite Hlast in Hpool.
         by apply Permutation_nil_l in Hpool. }
    assert (a ∈ list_head bl) as Ha by (by apply last_Some_elem_of).
    apply wp_bind. eapply wp_mono; [by apply (sync_block_spec pool None)|].
    intros ret bl1 [Hwb Hclean]. pose proof (wb_inv _ _ _ _ Hwb) as Hinv1.
    pose proof (wb_shape _ _ _ _ Hwb) as Hss.
    destruct (Z.eqb_spec ret ENOERR) as [->|Hret]; cbn.
    2: { apply wp_ret. split_and!; [done..|apply (wb_view _ _ _ _ Hwb)]. }
    specialize (Hclean eq_refl).
    rewrite <- (ss_list _ _ Hss) in Hpool, Ha. rewrite <- (ss_free _ _ Hss) in Hfree.
    apply wp_modify. apply wp_bind.
    eapply wp_mono; [apply rb_del_block_spec; cbn|].
    { apply (inv_rb _ _ _ Hinv1). }
    { apply (inv_sorted _ _ _ Hinv1). }
    { by rewrite (inv_tree _ _ _ Hinv1). }
    intros _ bl3 (t & -> & Ht & Hst & Hperm). apply wp_ret.
    assert (reclaimed pool bl1 a (set_root t (set_list (list_del a (list_head bl1)) bl1))) as [].
    { by apply evicted_reclaimed. }
    constructor; [done..| |].
    + intros n. by rewrite rc_view0, (wb_view _ _ _ _ Hwb).
    + intros n Hn. apply rc_uncached0. intros b. rewrite (ss_list _ _ Hss), (ss_num _ _ Hss).
      apply Hn.
  - apply wp_modify, wp_ret, wp_ret. by apply free_reclaimed.
Qed.

(** ** Getting a block *)

(** What does not touch the blocks of the pool nor the content of the device. *)
Record framed pool bl bl' : Prop := {
  fr_list : list_head bl' = list_head bl;
  fr_root : rb_root bl' = rb_root bl;
  fr_free : free_list_head bl' = free_list_head bl;
  fr_size : block_size bl' = block_size bl;
  fr_log2 : block_size_log2 bl' = block_size_log2 bl;
  fr_heap a : a ∈ pool -> heap bl' a = heap bl a;
  fr_dev n : dev_data (priv bl') n = dev_data (priv bl) n;
}.

Lemma framed_inv pool ex bl bl' :
  cache_inv pool ex bl -> framed pool bl bl' ->
  cache_inv pool ex bl' /\ (forall n, view bl' n = view bl n) /\
  (forall n, uncached bl n -> uncached bl' n).
Proof.
  intros Hinv Hfr. pose proof (fun a => in_pool _ _ _ a Hinv) as Hin.
  assert (cache_inv pool ex bl') as Hinv'.
  { destruct Hinv, Hfr. constructor; try congruence.
    - rewrite fr_root0. eapply key_lt_ext; [|done]. intros a Ha.
      rewrite fr_heap0; [done|]. apply Hin. by rewrite <- inv_tree0.
    - intros a Ha. rewrite fr_heap0 by done. auto.
    - intros a Ha. rewrite fr_list0 in Ha. rewrite fr_heap0 by auto. auto.
    - intros a Ha. rewrite fr_list0 in Ha. rewrite fr_heap0 by auto. rewrite fr_dev0. auto. }
  split; [done|]. split.
  - intros n. apply (view_ext pool ex pool ex); try done.
    + intros a. by rewrite (fr_list _ _ _ Hfr).
    + intros a Ha. by rewrite (fr_heap _ _ _ Hfr) by auto.
    + intros _. apply (fr_dev _ _ _ Hfr).
  - intros n Hn a. rewrite (fr_list _ _ _ Hfr). intros Ha.
    rewrite (fr_heap _ _ _ Hfr) by auto. by apply Hn.
Qed.

Lemma inv_perm pool pool' ex bl : pool ≡ₚ pool' -> cache_inv pool ex bl -> cache_inv pool' ex bl.
Proof.
  intros Hp []. constructor; try done; [by rewrite <- Hp..|].
  intros a. rewrite <- Hp. auto.
Qed.

Lemma inv_weaken pool ex bl : cache_inv pool None bl -> cache_inv pool ex bl.
Proof. intros []. by constructor; auto. Qed.

(** A claimed block goes back to the free list. *)
Lemma free_block_spec pool pool' bl a :
  pool ≡ₚ a :: pool' -> NoDup pool -> cache_inv pool' None bl ->
  length (data (heap bl a)) = Z.to_nat bsize ->
  cache_inv pool None (set_free (a :: free_list_head bl) bl).
Proof.
  intros Hp Hnd [] Hd. apply (inv_perm (a :: pool')); [done|].
  constructor; try done; cbn.
  - by rewrite <- Permutation_middle, inv_pool0.
  - by rewrite <- Hp.
  - intros b [->|Hb]%elem_of_cons; auto.
Qed.

(** A claimed block is entered in the tree and at the head of the list. *)
Lemma insert_block_inv pool pool' ex bl a t :
  pool ≡ₚ a :: pool' -> NoDup pool -> cache_inv pool' None bl ->
  length (data (heap bl a)) = Z.to_nat bsize -> fits 32 (num (heap bl a)) ->
  Some a = ex \/ data (heap bl a) = dev_data (priv bl) (num (heap bl a)) ->
  is_rb t -> StronglySorted (key_lt (heap bl)) (elements t) ->
  elements t ≡ₚ a :: elements (rb_root bl) ->
  cache_inv pool ex (set_list (a :: list_head bl) (set_root t bl)).
Proof.
  intros Hp Hnd Hinv Hd Hn Hdata Ht Hs Hperm.
  pose proof (fun a => in_pool _ _ _ a Hinv) as Hin.
  apply (inv_perm (a :: pool')); [done|]. destruct Hinv. constructor; try done; cbn.
  - by rewrite inv_pool0.
  - by rewrite <- Hp.
  - by rewrite Hperm, inv_tree0.
  - intros b [->|Hb]%elem_of_cons; auto.
  - intros b [->|Hb]%elem_of_cons; auto.
  - intros b [->|Hb]%elem_of_cons; [by destruct Hdata; auto|].
    intros _. by apply inv_clean0.
Qed.

(** What [blib_get_block] answers. *)
Record got_block pool bl n (rd : bool) (r : Z * option Z) bl' : Prop := {
  gb_result :
    match r with
    | (ret, Some a) =>
        ret = ENOERR /\ head (list_head bl') = Some a /\ num (heap bl' a) = n /\
        cache_inv pool (if rd then None else Some a) bl' /\
        (rd = true -> data (heap bl' a) = view bl n)
    | (ret, None) => ret <> ENOERR /\ cache_inv pool None bl'
    end;
  gb_view m : m <> n \/ rd = true \/ r.2 = None -> view bl' m = view bl m;
}.

Lemma found_ok pool ex bl n :
  cache_inv pool ex bl ->
  match
    match list_get_first_block bl with
    | None => None
    | Some first_block =>
        if num (heap bl first_block) =? n then Some first_block
        else rb_find_block (heap bl) (rb_root bl) n
    end
  with
  | Some a => a ∈ list_head bl /\ num (heap bl a) = n
  | None => uncached bl n
  end.
Proof.
  intros Hinv. unfold list_get_first_block, uncached.
  pose proof (fun a => rb_find_block_ok (heap bl) (rb_root bl) n a (inv_sorted _ _ _ Hinv)) as Hf.
  pose proof (inv_tree _ _ _ Hinv) as Ht.
  destruct (list_head bl) as [|b l] eqn:Hl; cbn; [by intros a ?%not_elem_of_nil|].
  destruct (Z.eqb_spec (num (heap bl b)) n); [split; [by left|done]|].
  destruct (rb_find_block _ _ _) as [a|].
  - rewrite <- Ht. by apply Hf.
  - intros a. rewrite <- Ht. intros Ha Hn. by pose proof (proj2 (Hf a) (conj Ha Hn)).
Qed.

Lemma move_to_head_inv pool ex bl a :
  cache_inv pool ex bl -> a ∈ list_head bl ->
  cache_inv pool ex (set_list (a :: list_del a (list_head bl)) bl) /\
  forall n, view (set_list (a :: list_del a (list_head bl)) bl) n = view bl n.
Proof.
  intros Hinv Ha.
  assert (list_head bl ≡ₚ a :: list_del a (list_head bl)) as Hp.
  { apply list_del_perm; [|done]. pose proof (inv_nodup _ _ _ Hinv) as Hnd.
    rewrite <- (inv_pool _ _ _ Hinv) in Hnd. by apply NoDup_app in Hnd as [? _]. }
  assert (forall b, b ∈ a :: list_del a (list_head bl) <-> b ∈ list_head bl) as Hel
    by (intros b; by rewrite <- Hp).
  assert (cache_inv pool ex (set_list (a :: list_del a (list_head bl)) bl)) as Hinv'.
  { destruct Hinv. constructor; try done; cbn [list_head set_list free_list_head rb_root];
      try (by rewrite <- Hp); try done.
    - intros b Hb%Hel. by apply inv_num0.
    - intros b Hb%Hel. by apply inv_clean0. }
  split; [done|]. intros n. apply (view_ext pool ex pool ex); try done.
Qed.

(** The last part of [blib_get_block]: the claimed block [a] has been loaded. *)
Lemma enter_block_spec pool pool' ex bl a :
  pool ≡ₚ a :: pool' -> NoDup pool -> cache_inv pool' None bl ->
  length (data (heap bl a)) = Z.to_nat bsize -> fits 32 (num (heap bl a)) ->
  Some a = ex \/ data (heap bl a) = dev_data (priv bl) (num (heap bl a)) ->
  uncached bl (num (heap bl a)) ->
  wp (rb_add_block a ;; list_add_block a ;; mret (ENOERR, Some a)) (fun r bl' =>
    r = (ENOERR, Some a) /\ head (list_head bl') = Some a /\ heap bl' = heap bl /\
    cache_inv pool ex bl' /\
    forall m, m <> num (heap bl a) -> view bl' m = view bl m) bl.
Proof.
  intros Hp Hnd Hinv Hlen Hfits Hex Hun. apply wp_bind.
  eapply wp_mono; [apply rb_add_block_spec|].
  { apply (inv_rb _ _ _ Hinv). }
  { apply (inv_sorted _ _ _ Hinv). }
  { intros b. rewrite (inv_tree _ _ _ Hinv). apply Hun. }
  intros _ bl1 (t & -> & Ht & Hst & Hperm). apply wp_modify, wp_ret.
  pose proof (insert_block_inv pool pool' ex bl a t Hp Hnd Hinv Hlen Hfits Hex Ht Hst Hperm)
    as Hinv'.
  split_and!; try done. intros m Hm. unfold view; cbn.
  destruct (Z.eqb_spec (num (heap bl a)) m); [congruence|done].
Qed.

Lemma claim_framed pool pool' a f bl :
  pool ≡ₚ a :: pool' -> NoDup pool -> framed pool' bl (upd_block a f bl).
Proof.
  intros Hp Hnd. rewrite Hp in Hnd. apply NoDup_cons in Hnd as [Ha _].
  constructor; try done. intros b Hb. cbn. rewrite decide_False; [done|congruence].
Qed.

Lemma framed_trans pool bl1 bl2 bl3 :
  framed pool bl1 bl2 -> framed pool bl2 bl3 -> framed pool bl1 bl3.
Proof.
  intros [] []. constructor; try congruence.
  - intros. rewrite fr_heap1; auto.
Qed.

(** A miss, from the claimed block on. *)
Lemma load_block_spec pool bl n rd a :
  NoDup pool -> fits 32 n -> reclaimed pool bl a bl ->
  uncached bl n ->
  wp (modify (upd_block a (fun b => set_modified false (set_num n b))) ;;
      ret ← (if rd : bool then
               modify (fun bl => set_stat (stat_reads (stat bl)) bl) ;;
               bl ← get_state;
               let '(ret, buf, priv') := bread_fn (priv bl) 1 (num (heap bl a)) in
               modify (fun bl => upd_block a (set_data buf) (set_priv priv' bl)) ;;
               mret ret
             else mret ENOERR);
      if negb (ret =? ENOERR) then free_block a ;; mret (ret, None)
      else rb_add_block a ;; list_add_block a ;; mret (ENOERR, Some a))
     (got_block pool bl n rd) bl.
Proof.
  intros Hnd Hfits [(pool' & Hp & Hinv) Hlen _ _] Hun. apply wp_modify.
  set (bl1 := upd_block a _ bl).
  assert (framed pool' bl bl1) as Hfr1 by (by eapply claim_framed).
  assert (num (heap bl1 a) = n /\ length (data (heap bl1 a)) = Z.to_nat bsize) as [Hn1 Hlen1].
  { cbn. by rewrite decide_True. }
  apply wp_bind. destruct rd.
  - apply wp_modify, wp_get. cbn [priv set_stat set_heap heap].
    destruct (bread_fn _ _ _) as [[ret buf] priv'] eqn:Hrd. rewrite Hn1 in Hrd.
    apply wp_modify, wp_ret. set (bl2 := upd_block a (set_data buf) _).
    assert (framed pool' bl bl2) as Hfr2.
    { eapply framed_trans; [|by eapply claim_framed].
      constructor; try done; [by apply (fr_heap _ _ _ Hfr1)|]. intros m. cbn.
      by eapply bread_frame. }
    assert (num (heap bl2 a) = n /\ data (heap bl2 a) = buf) as [Hn2 Hd2].
    { cbn. by rewrite !decide_True. }
    destruct (framed_inv _ _ _ _ Hinv Hfr2) as (Hinv2 & Hv2 & Hu2).
    destruct (Z.eqb_spec ret ENOERR) as [->|Hret]; cbn [negb].
    + eapply wp_mono; [apply (enter_block_spec pool pool' None bl2 a); rewrite ?Hn2, ?Hd2; auto|].
      { by eapply bread_length. }
      { right. rewrite (fr_dev _ _ _ Hfr2). by eapply bread_ok. }
      intros r bl3 (-> & Hhd & Hheap & Hinv3 & Hv3). rewrite Hn2 in Hv3.
      assert (data (heap bl3 a) = view bl n) as Hdata.
      { rewrite Hheap, Hd2, view_uncached by done. by eapply bread_ok. }
      constructor; [split_and!; try done; by rewrite Hheap|]. intros m _.
      destruct (decide (m = n)) as [->|]; [|by rewrite Hv3].
      rewrite <- Hdata, <- Hn2, <- Hheap. apply (view_cached pool None); [done|].
      by apply head_Some_elem_of.
    + apply wp_modify, wp_ret. constructor; [split; [done|]|].
      * eapply free_block_spec; [done..|]. rewrite Hd2. by eapply bread_length.
      * intros m _. apply Hv2.
  - apply wp_ret. cbn [negb Z.eqb ENOERR].
    destruct (framed_inv _ _ _ _ Hinv Hfr1) as (Hinv1 & Hv1 & Hu1).
    eapply wp_mono; [apply (enter_block_spec pool pool' (Some a) bl1 a); rewrite ?Hn1; auto|].
    intros r bl3 (-> & Hhd & Hheap & Hinv3 & Hv3). rewrite Hn1 in Hv3.
    constructor; [split_and!; try done; by rewrite Hheap|].
    intros m [Hm|[[=]|[=]]]. by rewrite Hv3, Hv1.
Qed.

Lemma got_block_view pool bl bl' n rd r s :
  (forall m, view bl' m = view bl m) -> got_block pool bl' n rd r s -> got_block pool bl n rd r s.
Proof.
  intros Hv []. constructor.
  - destruct r as [ret [a|]]; [by rewrite <- Hv|done].
  - intros m Hm. rewrite <- Hv. auto.
Qed.

Lemma get_block_spec pool bl n rd :
  pool <> [] -> fits 32 n -> cache_inv pool None bl ->
  wp (blib_get_block bread_fn bwrite_fn n rd) (got_block pool bl n rd) bl.
Proof.
  intros Hne Hfits Hinv. unfold blib_get_block. apply wp_modify, wp_get.
  set (bl0 := set_stat _ bl).
  assert (framed pool bl bl0) as Hfr by done.
  destruct (framed_inv _ _ _ _ Hinv Hfr) as (Hinv0 & Hv0 & _).
  pose proof (found_ok pool None bl0 n Hinv0) as Hfound.
  destruct (match list_get_first_block bl0 with Some _ => _ | None => _ end) as [a|].
  - destruct Hfound as [Ha Hn]. apply wp_modify, wp_ret.
    destruct (move_to_head_inv _ _ _ _ Hinv0 Ha) as [Hinv1 Hv1].
    constructor.
    + split_and!; [done..| |].
      * destruct rd; [done|by apply inv_weaken].
      * intros _. rewrite <- Hv0, <- Hn. symmetry. by apply (view_cached pool None bl0).
    + intros m _. by rewrite Hv1, Hv0.
  - apply wp_bind. eapply wp_mono; [by apply (reclaim_block_spec pool)|].
    intros [ret|a] bl1; cbn beta iota.
    + intros (Hret & Hinv1 & Hv1). apply wp_ret. constructor; [done|].
      intros m _. by rewrite Hv1, Hv0.
    + intros Hrc. eapply wp_mono; [apply (load_block_spec pool bl1)|].
      * apply (inv_nodup _ _ _ Hinv).
      * done.
      * by destruct Hrc.
      * by apply (rc_uncached _ _ _ _ Hrc).
      * intros r s. apply got_block_view. intros m. by rewrite (rc_view _ _ _ _ Hrc), Hv0.
Qed.
End Cache.
