(* ===== verification/BlibAccess.v ===== *)
(** * Block cache: set-up and access to the content

    [cyg_blib_create] establishes the invariant of [BlibSpec]; [cyg_blib_bread],
    [cyg_blib_bwrite], [cyg_blib_read], [cyg_blib_write] and the operations that
    synchronise are specified against the flat content of the cache, a byte per
    offset of the 2^32 blocks of the device. *)
From S2P Require Import Prelude RbTree Blib BlibSpec.

(** ** The content as a flat array of bytes *)
Section Flat.
Context (bsize : Z) (Hb : 0 < bsize).
Implicit Types (v : Z -> list byte) (o x : Z) (n : nat).

(** The byte at offset [o]; block numbers are [cyg_uint32]. *)
Definition byte_at v o : byte := nthZ (v (u32 (o / bsize))) (o mod bsize).

Definition bytes v o n : list byte := (fun i => byte_at v (o + Z.of_nat i)) <$> seq 0 n.

Definition span : Z := 2 ^ 32 * bsize.

(** [v'] is [v] with [src] written at offset [o]. *)
Definition patched v v' o (src : list byte) : Prop :=
  forall x, byte_at v' x =
    let i := (x - o) mod span in
    if i <? Z.of_nat (length src) then nthZ src i else byte_at v x.

Lemma span_pos : 0 < span.
Proof. unfold span. lia. Qed.

Lemma byte_at_block v b j : 0 <= j < bsize -> byte_at v (b * bsize + j) = nthZ (v (u32 b)) j.
Proof.
  intros Hj. unfold byte_at.
  rewrite Z.div_add_l, Z.div_small, Z.add_0_r by lia.
  by rewrite Z.add_comm, Z.mod_add, Z.mod_small by lia.
Qed.

Lemma byte_at_split o : o = (o / bsize) * bsize + o mod bsize /\ 0 <= o mod bsize < bsize.
Proof. pose proof (Z.div_mod o bsize). pose proof (Z.mod_pos_bound o bsize). lia. Qed.

Lemma byte_at_period v o k : byte_at v (o + k * span) = byte_at v o.
Proof.
  destruct (byte_at_split o) as [Ho Hj]. unfold span.
  replace (o + k * (2 ^ 32 * bsize)) with ((o / bsize + k * 2 ^ 32) * bsize + o mod bsize) by lia.
  rewrite Ho at 3. rewrite !byte_at_block by done. do 2 f_equal.
  unfold uwrap. by rewrite Z.mod_add.
Qed.

Lemma same_offset o o' : o mod span = o' mod span -> exists k, o = o' + k * span.
Proof.
  intros H. exists (o / span - o' / span). pose proof span_pos.
  pose proof (Z.div_mod o span). pose proof (Z.div_mod o' span). lia.
Qed.

Lemma wrapped_offset b b' j :
  (exists k, b' = b + k * 2 ^ 32) ->
  exists k, b' * bsize + j = b * bsize + j + k * span.
Proof. intros [k ->]. exists k. unfold span. lia. Qed.

Lemma bytes_length v o n : length (bytes v o n) = n.
Proof. unfold bytes. by rewrite length_fmap, length_seq. Qed.

Lemma bytes_app v o n1 n2 :
  bytes v o (n1 + n2) = bytes v o n1 ++ bytes v (o + Z.of_nat n1) n2.
Proof.
  unfold bytes. rewrite seq_app, fmap_app. f_equal. cbn.
  rewrite <- (Nat.add_0_r n1) at 1. rewrite <- fmap_add_seq, <- list_fmap_compose.
  apply list_fmap_ext. intros i x _. cbn. f_equal. lia.
Qed.

Lemma bytes_period v o k n : bytes v (o + k * span) n = bytes v o n.
Proof.
  unfold bytes. apply list_fmap_ext. intros i x _. cbn.
  replace (o + k * span + Z.of_nat x) with (o + Z.of_nat x + k * span) by lia.
  apply byte_at_period.
Qed.

Lemma bytes_ext v v' o n : (forall m, v' m = v m) -> bytes v' o n = bytes v o n.
Proof. intros H. unfold bytes, byte_at. apply list_fmap_ext. intros. by rewrite H. Qed.

(** The part of one block. *)
Lemma bytes_block v b j n :
  0 <= j -> j + Z.of_nat n <= bsize -> length (v (u32 b)) = Z.to_nat bsize ->
  bytes v (b * bsize + j) n = take n (drop (Z.to_nat j) (v (u32 b))).
Proof.
  intros Hj Hn Hlen. apply list_eq_same_length with n.
  { by rewrite length_take, length_drop; lia. }
  { apply bytes_length. }
  intros i x y Hi Hx Hy. unfold bytes in Hx.
  rewrite list_lookup_fmap, lookup_seq_lt in Hx by done. cbn in Hx. simplify_eq.
  rewrite lookup_take_lt, lookup_drop in Hy by done.
  rewrite <- Z.add_assoc, byte_at_block by lia. unfold nthZ.
  replace (Z.to_nat (j + Z.of_nat i)) with (Z.to_nat j + i)%nat by lia.
  by apply nth_lookup_Some.
Qed.

Lemma patched_nil v v' o : (forall m, v' m = v m) -> patched v v' o [].
Proof.
  intros H x. cbn. pose proof (Z.mod_pos_bound (x - o) span span_pos).
  rewrite (proj2 (Z.ltb_ge _ _)) by lia. unfold byte_at. by rewrite H.
Qed.

Lemma patched_nothing v v' o o' : patched v v' o [] -> patched v v' o' [].
Proof.
  intros H x. pose proof (Z.mod_pos_bound (x - o) span span_pos).
  pose proof (Z.mod_pos_bound (x - o') span span_pos).
  rewrite H. cbn. by rewrite !(proj2 (Z.ltb_ge _ _)) by lia.
Qed.

Lemma patched_period v v' o k src : patched v v' (o + k * span) src -> patched v v' o src.
Proof.
  intros H x. rewrite H. cbn.
  replace (x - (o + k * span)) with (x - o + (- k) * span) by lia.
  by rewrite Z.mod_add by (pose proof span_pos; lia).
Qed.

Lemma nthZ_app_l (l1 l2 : list Z) i :
  0 <= i < Z.of_nat (length l1) -> nthZ (l1 ++ l2) i = nthZ l1 i.
Proof. intros. unfold nthZ. apply app_nth1. lia. Qed.

Lemma nthZ_app_r (l1 l2 : list Z) i :
  Z.of_nat (length l1) <= i -> nthZ (l1 ++ l2) i = nthZ l2 (i - Z.of_nat (length l1)).
Proof.
  intros. unfold nthZ. rewrite app_nth2 by lia. f_equal. lia.
Qed.

Lemma patched_app v v1 v2 o s1 s2 :
  patched v v1 o s1 -> patched v1 v2 (o + Z.of_nat (length s1)) s2 ->
  Z.of_nat (length s1) + Z.of_nat (length s2) <= span -> patched v v2 o (s1 ++ s2).
Proof.
  intros H1 H2 Hspan x. rewrite H2, H1. cbn. rewrite length_app, Nat2Z.inj_add.
  pose proof span_pos as Hs. pose proof (Z.mod_pos_bound (x - o) span Hs) as Hi.
  set (n1 := Z.of_nat (length s1)) in *. set (i := (x - o) mod span) in *.
  assert ((x - (o + n1)) mod span = if i <? n1 then i - n1 + span else i - n1) as ->.
  { pose proof (Z.div_mod (x - o) span). case_match; bool_lia.
    - symmetry. apply Z.mod_unique with ((x - o) / span - 1); unfold i in *; lia.
    - symmetry. apply Z.mod_unique with ((x - o) / span); unfold i in *; lia. }
  destruct (Z.ltb_spec i n1).
  - rewrite (proj2 (Z.ltb_ge _ _)), (proj2 (Z.ltb_lt i _)) by lia.
    symmetry. apply nthZ_app_l. lia.
  - destruct (Z.ltb_spec (i - n1) (Z.of_nat (length s2))).
    + rewrite (proj2 (Z.ltb_lt i _)) by lia. symmetry. apply nthZ_app_r. lia.
    + by rewrite (proj2 (Z.ltb_ge i _)) by lia.
Qed.

(** [memcpy] into one block *)
Lemma memcpy_length dst off src :
  0 <= off -> (Z.to_nat off + length src <= length dst)%nat ->
  length (memcpy dst off src) = length dst.
Proof.
  intros. unfold memcpy. rewrite !length_app, length_take, length_drop. lia.
Qed.

Lemma memcpy_whole dst src : length src = length dst -> memcpy dst 0 src = src.
Proof.
  intros H. unfold memcpy. cbn. rewrite drop_ge by lia. apply app_nil_r.
Qed.

Lemma nthZ_memcpy dst off src j :
  0 <= off -> 0 <= j -> (Z.to_nat off + length src <= length dst)%nat ->
  nthZ (memcpy dst off src) j =
    if (off <=? j) && (j - off <? Z.of_nat (length src)) then nthZ src (j - off) else nthZ dst j.
Proof.
  intros Ho Hj Hlen. unfold memcpy.
  assert (length (take (Z.to_nat off) dst) = Z.to_nat off) as Ht by (rewrite length_take; lia).
  destruct (Z.leb_spec off j); cbn [andb].
  - rewrite nthZ_app_r by lia. rewrite Ht. replace (j - Z.of_nat (Z.to_nat off)) with (j - off) by lia.
    destruct (Z.ltb_spec (j - off) (Z.of_nat (length src))).
    + apply nthZ_app_l. lia.
    + rewrite nthZ_app_r by lia. unfold nthZ. rewrite !nth_lookup, lookup_drop. do 2 f_equal. lia.
  - rewrite nthZ_app_l by lia. unfold nthZ. by rewrite !nth_lookup, lookup_take_lt by lia.
Qed.

Lemma patched_block v v' b off src :
  0 <= off -> off + Z.of_nat (length src) <= bsize -> length (v (u32 b)) = Z.to_nat bsize ->
  v' (u32 b) = memcpy (v (u32 b)) off src -> (forall m, m <> u32 b -> v' m = v m) ->
  patched v v' (b * bsize + off) src.
Proof.
  intros Hoff Hsrc Hlen Hv' Hne x. cbn.
  destruct (byte_at_split x) as [Hx Hj]. set (q := x / bsize) in *. set (j := x mod bsize) in *.
  rewrite Hx, !byte_at_block by done.
  pose proof span_pos as Hs.
  destruct (decide (u32 q = u32 b)) as [Heq|Hqb].
  - assert (exists k, q = b + k * 2 ^ 32) as [k Hk].
    { exists (q / 2 ^ 32 - b / 2 ^ 32). unfold uwrap in Heq.
      pose proof (Z.div_mod q (2 ^ 32)). pose proof (Z.div_mod b (2 ^ 32)). lia. }
    replace (q * bsize + j - (b * bsize + off)) with (j - off + k * span)
      by (rewrite Hk; unfold span; lia).
    rewrite Z.mod_add, Heq, Hv', nthZ_memcpy by (unfold span in *; lia).
    destruct (Z.leb_spec off j); cbn [andb].
    + by rewrite Z.mod_small by (unfold span in *; lia).
    + rewrite <- (Z.mod_add _ 1), Z.mod_small by (unfold span in *; lia).
      by rewrite (proj2 (Z.ltb_ge _ _)) by (unfold span; lia).
  - rewrite Hne by done. rewrite (proj2 (Z.ltb_ge _ _)); [done|].
    apply Z.nlt_ge. intros Hlt. apply Hqb.
    set (d := x - (b * bsize + off)). rewrite <- Hx in Hlt. fold d in Hlt.
    pose proof (Z.div_mod d span) as Hd. pose proof (Z.mod_pos_bound d span Hs).
    set (i := d mod span) in *. set (k := d / span) in *.
    assert (q = b + k * 2 ^ 32) as ->.
    { assert (q * bsize + j = (b + k * 2 ^ 32) * bsize + (off + i))
        by (unfold d, span in *; lia).
      assert (0 <= off + i < bsize) by lia. nia. }
    unfold uwrap. by rewrite Z.mod_add.
Qed.
End Flat.

(** ** The transfer loops *)
Section Access.
Context {D : Type}.
Context {bread_fn : D -> Z -> Z -> Z * list byte * D}.
Context {bwrite_fn : D -> list byte -> Z -> Z -> Z * D}.
Context {dev_data : D -> Z -> list byte} {bsize : Z}.
Context {Dev : BlockDevice bread_fn bwrite_fn dev_data bsize}.
#[local] Abbreviation blib := (@cyg_blib_t D).
#[local] Abbreviation view := (@view D dev_data).
#[local] Abbreviation cache_inv := (@cache_inv D dev_data bsize).
#[local] Abbreviation got_block := (@got_block D dev_data bsize).
Implicit Types (bl : blib) (a n o : Z) (pool : list Z).

Lemma bsize_range pool ex bl : cache_inv pool ex bl -> 2 <= bsize < 2 ^ 31.
Proof.
  intros Hinv. pose proof (inv_log2_range _ _ _ Hinv). rewrite (inv_log2 _ _ _ Hinv). split.
  - change 2 with (2 ^ 1) at 1. apply Z.pow_le_mono_r; lia.
  - apply Z.pow_lt_mono_r; lia.
Qed.

(** A part of the block just got is overwritten; when the block was claimed
    without reading it, the part is the whole. *)
Lemma write_block_spec pool bl bl1 n rd a off src :
  cache_inv pool None bl -> got_block pool bl n rd (ENOERR, Some a) bl1 ->
  (rd = false -> off = 0 /\ length src = Z.to_nat bsize) ->
  0 <= off -> off + Z.of_nat (length src) <= bsize ->
  let bl2 := upd_block a (fun b => set_modified true (set_data (memcpy (data b) off src) b)) bl1 in
  cache_inv pool None bl2 /\ view bl2 n = memcpy (view bl n) off src /\
  forall m, m <> n -> view bl2 m = view bl m.
Proof.
  intros Hinv [(_ & Hhd & Hn & Hinv1 & Hdata) Hv] Hrd Hoff Hlen bl2.
  pose proof (bsize_range _ _ _ Hinv) as Hb.
  assert (a ∈ list_head bl1) as Ha by (by apply head_Some_elem_of).
  assert (length (data (heap bl1 a)) = Z.to_nat bsize) as Hl1.
  { eapply (inv_data _ _ _ Hinv1). by eapply in_pool. }
  assert (forall b, b <> a -> heap bl2 b = heap bl1 b) as Hother.
  { intros b Hb'. cbn. by rewrite decide_False. }
  assert (heap bl2 a = mk_block n true (memcpy (data (heap bl1 a)) off src)) as Hthis.
  { cbn. rewrite decide_True by done. by rewrite <- Hn. }
  assert (forall b, num (heap bl2 b) = num (heap bl1 b)) as Hnum.
  { intros b. cbn. by case_decide; subst. }
  assert (cache_inv pool None bl2) as Hinv2.
  { destruct Hinv1. constructor; try done.
    - eapply key_lt_ext; [|done]. intros b _. by rewrite Hnum.
    - intros b Hb'. destruct (decide (b = a)) as [->|].
      + rewrite Hthis. cbn. rewrite memcpy_length by (rewrite ?Hl1; lia). done.
      + rewrite Hother by done. auto.
    - intros b Hb'. rewrite Hnum. auto.
    - intros b Hb' _. destruct (decide (b = a)) as [->|Hne]; [by rewrite Hthis|].
      rewrite Hother by done. apply inv_clean; [done|]. destruct rd; congruence. }
  split; [done|]. split.
  - assert (n = num (heap bl2 a)) as Hn2 by (by rewrite Hthis).
    rewrite Hn2 at 1. rewrite (view_cached pool None), Hthis by done; cbn [data]. destruct rd; [by rewrite Hdata|].
    destruct Hrd as [-> Hsrc]; [done|]. rewrite !memcpy_whole; try done; try congruence.
    by rewrite (view_length pool None).
  - intros m Hm. rewrite <- Hv by auto.
    assert (forall b, (num (heap bl2 b) =? m) = (num (heap bl1 b) =? m)) as Hfind
      by (intros; by rewrite Hnum).
    unfold view, BlibSpec.view. cbn [list_head upd_block set_heap bl2].
    rewrite (find_ext _ _ _ Hfind).
    destruct (find _ (list_head bl1)) as [b|] eqn:Hf; [|done].
    apply find_some in Hf as [_ Hb']. apply Z.eqb_eq in Hb'.
    rewrite Hother; [done|congruence].
Qed.

(** The end of a transfer that stopped with [rem] bytes or blocks to go. *)
Definition ended (ret rem size : Z) : Prop :=
  (ret = ENOERR /\ rem = 0) \/ (ret <> ENOERR /\ 0 < rem <= size).

(** A read of [size] units of [scale] bytes at offset [o]: nothing changes for
    the client and the bytes of the units done are those of the content. *)
Definition read_done pool bl o size scale (r : Z * Z * list byte) bl' : Prop :=
  let '(ret, rem, buf) := r in
  cache_inv pool None bl' /\ (forall m, view bl' m = view bl m) /\ ended ret rem size /\
  buf = bytes bsize (view bl) o (Z.to_nat ((size - rem) * scale)).

(** A write of [bbuf]: the units done are written, the rest is as it was. *)
Definition write_done pool bl o size scale (bbuf : list byte) (r : Z * Z) bl' : Prop :=
  let '(ret, rem) := r in
  cache_inv pool None bl' /\ ended ret rem size /\
  patched bsize (view bl) (view bl') o (take (Z.to_nat ((size - rem) * scale)) bbuf).

Lemma read_nothing pool bl bl' o size scale ret :
  cache_inv pool None bl' -> (forall m, view bl' m = view bl m) -> ended ret size size ->
  read_done pool bl o size scale (ret, size, []) bl'.
Proof. intros. unfold read_done. by rewrite Z.sub_diag. Qed.

Lemma write_nothing pool bl bl' o size scale bbuf ret :
  0 < bsize -> cache_inv pool None bl' -> (forall m, view bl' m = view bl m) ->
  ended ret size size -> write_done pool bl o size scale bbuf (ret, size) bl'.
Proof.
  intros. unfold write_done. rewrite Z.sub_diag. split_and!; [done..|]. by apply patched_nil.
Qed.

Lemma units_split size c rem scale :
  0 < c -> 0 <= scale -> 0 <= size - c - rem ->
  Z.to_nat ((size - rem) * scale)
  = (Z.to_nat (c * scale) + Z.to_nat ((size - c - rem) * scale))%nat.
Proof. intros. rewrite <- Z2Nat.inj_add by nia. f_equal. lia. Qed.

Lemma read_step pool bl bl1 bl' o o' size c scale ret rem rest :
  0 < c <= size -> 0 <= scale -> (forall m, view bl1 m = view bl m) ->
  (exists k, o' = o + c * scale + k * span bsize) \/ c = size ->
  read_done pool bl1 o' (size - c) scale (ret, rem, rest) bl' ->
  read_done pool bl o size scale
    (ret, rem, bytes bsize (view bl) o (Z.to_nat (c * scale)) ++ rest) bl'.
Proof.
  intros Hc Hscale Hv Ho (Hinv & Hv' & Hend & ->). split_and!; [done| | |].
  - intros m. by rewrite Hv', Hv.
  - destruct Hend as [[-> ->]|[? ?]]; [by left|right; lia].
  - assert (0 <= size - c - rem) by (destruct Hend; lia).
    rewrite (units_split size c) by lia.
    rewrite bytes_app. f_equal. rewrite (bytes_ext _ (view bl)) by done.
    destruct Ho as [[k ->]| ->].
    + rewrite Z2Nat.id by nia. apply bytes_period.
      pose proof (bsize_range _ _ _ Hinv). lia.
    + assert (size - size - rem = 0) as -> by (destruct Hend; lia). done.
Qed.

Lemma write_step pool bl bl1 bl' o o' size c scale bbuf ret rem :
  0 < bsize -> 0 < c <= size -> 0 <= scale -> size * scale <= Z.of_nat (length bbuf) ->
  size * scale <= span bsize ->
  patched bsize (view bl) (view bl1) o (take (Z.to_nat (c * scale)) bbuf) ->
  (exists k, o' = o + c * scale + k * span bsize) \/ c = size ->
  write_done pool bl1 o' (size - c) scale (drop (Z.to_nat (c * scale)) bbuf) (ret, rem) bl' ->
  write_done pool bl o size scale bbuf (ret, rem) bl'.
Proof.
  intros Hb Hc Hscale Hlen Hspan Hp Ho (Hinv & Hend & Hp'). split_and!; [done| |].
  { destruct Hend as [[-> ->]|[? ?]]; [by left|right; lia]. }
  assert (0 <= size - c - rem <= size - c) by (destruct Hend; lia).
  rewrite (units_split size c) by lia.
  rewrite <- take_take_drop.
  assert (length (take (Z.to_nat (c * scale)) bbuf) = Z.to_nat (c * scale)) as Hl1
    by (rewrite length_take; nia).
  apply (patched_app bsize Hb _ (view bl1)); [done| |].
  - rewrite Hl1, Z2Nat.id by nia. destruct Ho as [[k ->]| ->].
    + by eapply patched_period.
    + assert (size - size - rem = 0) as Hz by (destruct Hend; lia). rewrite Hz in *.
      rewrite Z.mul_0_l in *. by eapply patched_nothing.
  - rewrite Hl1, length_take, length_drop. nia.
Qed.

(** ** Whole blocks *)
Lemma bread_loop_spec pool fuel :
  pool <> [] -> forall bl bnum size,
  cache_inv pool None bl -> 0 <= size <= Z.of_nat fuel ->
  wp (bread_loop bread_fn bwrite_fn fuel bnum size)
    (read_done pool bl (bnum * bsize) size bsize) bl.
Proof.
  intros Hne. induction fuel as [|fuel IH]; intros bl bnum size Hinv Hsize; cbn [bread_loop];
    destruct (Z.gtb_spec size 0); try lia.
  1,3: apply wp_ret; assert (size = 0) as -> by lia; apply read_nothing; [done..|by left].
  pose proof (bsize_range _ _ _ Hinv) as Hb.
  apply wp_bind. eapply wp_mono; [apply (get_block_spec pool); [done| |done]|].
  { apply uwrap_range. lia. }
  intros [ret [a|]] bl1 [Hr Hv]; cbn beta iota.
  - destruct Hr as (_ & Hhd & Hn & Hinv1 & Hdata). apply wp_get, wp_bind.
    eapply wp_mono; [apply IH; [done|lia]|]. intros [[ret' rem] rest] bl2 Hdone.
    apply wp_ret. rewrite Hdata by done. unfold upto. rewrite (inv_size _ _ _ Hinv1).
    replace (take (Z.to_nat bsize) (view bl (u32 bnum)))
      with (bytes bsize (view bl) (bnum * bsize) (Z.to_nat (1 * bsize))).
    + eapply (read_step _ _ bl1); [lia|lia|auto| |done]. left.
      destruct (wrapped_offset bsize (bnum + 1) (s32 (bnum + 1)) 0 (s32_eq _)) as [k Hk].
      exists k. lia.
    + rewrite <- (Z.add_0_r (bnum * bsize)), Z.mul_1_l.
      rewrite bytes_block; [done|lia..|]. by eapply view_length.
  - destruct Hr as [Hret Hinv1]. apply wp_ret. apply read_nothing; [done|auto|]. right. lia.
Qed.

Lemma bwrite_loop_spec pool fuel :
  pool <> [] -> forall bl bbuf bnum size,
  cache_inv pool None bl -> 0 <= size <= Z.of_nat fuel -> size < 2 ^ 31 ->
  size * bsize <= Z.of_nat (length bbuf) ->
  wp (bwrite_loop bread_fn bwrite_fn fuel bbuf bnum size)
    (write_done pool bl (bnum * bsize) size bsize bbuf) bl.
Proof.
  intros Hne. induction fuel as [|fuel IH]; intros bl bbuf bnum size Hinv Hsize Hmax Hlen;
    cbn [bwrite_loop]; destruct (Z.gtb_spec size 0); try lia;
    pose proof (bsize_range _ _ _ Hinv) as Hb.
  1,3: apply wp_ret; assert (size = 0) as -> by lia; apply write_nothing; [lia|done..|by left].
  apply wp_bind. eapply wp_mono; [apply (get_block_spec pool); [done| |done]|].
  { apply uwrap_range. lia. }
  intros [ret [a|]] bl1 Hgot; cbn beta iota.
  - destruct (gb_result _ _ _ _ _ _ Hgot) as (-> & _ & _ & Hinv1 & _).
    apply wp_get, wp_modify. rewrite (inv_size _ _ _ Hinv1).
    assert (length (upto bbuf bsize) = Z.to_nat bsize) as Hl.
    { unfold upto. rewrite length_take. nia. }
    destruct (write_block_spec pool bl bl1 (u32 bnum) false a 0 (upto bbuf bsize))
      as (Hinv2 & Hv2 & Hne2); [done..|lia|lia|].
    eapply wp_mono; [apply IH; [done|lia|lia|rewrite length_drop; nia]|].
    intros [ret rem] bl2 Hdone.
    eapply (write_step pool bl _ bl2 _ (s32 (bnum + 1) * bsize) size 1); [lia..| | | |].
    + unfold span. nia.
    + rewrite Z.mul_1_l, <- (Z.add_0_r (bnum * bsize)).
      apply patched_block; [lia|lia|unfold upto in Hl; lia| |done..].
      by eapply view_length.
    + left. destruct (wrapped_offset bsize (bnum + 1) (s32 (bnum + 1)) 0 (s32_eq _)) as [k Hk].
      exists k. lia.
    + by rewrite Z.mul_1_l.
  - destruct (gb_result _ _ _ _ _ _ Hgot) as [Hret Hinv1]. apply wp_ret.
    apply write_nothing; [lia|done| |right; lia]. intros m. by apply (gb_view _ _ _ _ _ _ Hgot); auto.
Qed.

(** ** Bytes *)
Lemma chunk_size_spec size pos :
  2 <= bsize < 2 ^ 31 -> 0 <= pos < bsize -> 0 < size < 2 ^ 31 ->
  chunk_size bsize size pos = Z.min size (bsize - pos).
Proof.
  intros. unfold chunk_size. rewrite (uwrap_small 32 (size + pos)) by lia.
  destruct (Z.gtb_spec (size + pos) bsize); [|lia]. rewrite uwrap_small; lia.
Qed.

(** The offset of the next turn, or there is no next turn. *)
Lemma next_offset bnum pos size c :
  c = Z.min size (bsize - pos) ->
  (exists k, u32 (bnum + 1) * bsize + 0 = bnum * bsize + pos + c * 1 + k * span bsize) \/ c = size.
Proof.
  intros Hc. destruct (decide (c = size)); [by right|left].
  destruct (wrapped_offset bsize (bnum + 1) (u32 (bnum + 1)) 0 (u32_eq _)) as [k ->].
  exists k. lia.
Qed.

Lemma read_loop_spec pool fuel :
  pool <> [] -> forall bl bnum pos size,
  cache_inv pool None bl -> fits 32 bnum -> 0 <= pos < bsize ->
  0 <= size <= Z.of_nat fuel -> size < 2 ^ 31 ->
  wp (read_loop bread_fn bwrite_fn fuel bnum pos size)
    (read_done pool bl (bnum * bsize + pos) size 1) bl.
Proof.
  intros Hne. induction fuel as [|fuel IH]; intros bl bnum pos size Hinv Hbn Hpos Hsize Hmax;
    cbn [read_loop]; destruct (Z.gtb_spec size 0); try lia.
  1,3: apply wp_ret; assert (size = 0) as -> by lia; apply read_nothing; [done..|by left].
  pose proof (bsize_range _ _ _ Hinv) as Hb.
  apply wp_get. rewrite (inv_size _ _ _ Hinv), chunk_size_spec by lia.
  remember (Z.min size (bsize - pos)) as c eqn:Hc.
  apply wp_bind. eapply wp_mono; [by apply (get_block_spec pool)|].
  intros [ret [a|]] bl1 [Hr Hv]; cbn beta iota.
  - destruct Hr as (_ & Hhd & Hn & Hinv1 & Hdata). apply wp_get, wp_bind.
    rewrite (s32_small (size - c)) by lia.
    eapply wp_mono; [apply IH; [done|apply uwrap_range; lia|lia..]|].
    intros [[ret' rem] rest] bl2 Hdone. apply wp_ret. rewrite Hdata by done. unfold upto.
    rewrite <- (uwrap_small 32 bnum Hbn) at 2.
    rewrite <- (bytes_block bsize) by
      (rewrite ?(uwrap_small 32 bnum Hbn), ?(view_length pool None); lia || done).
    rewrite <- (Z.mul_1_r c) at 1.
    eapply (read_step _ _ bl1); [lia|lia|auto|by apply next_offset|done].
  - destruct Hr as [Hret Hinv1]. apply wp_ret. apply read_nothing; [done|auto|]. right. lia.
Qed.

Lemma write_loop_spec pool fuel :
  pool <> [] -> forall bl bbuf bnum pos size,
  cache_inv pool None bl -> fits 32 bnum -> 0 <= pos < bsize ->
  0 <= size <= Z.of_nat fuel -> size < 2 ^ 31 -> size <= Z.of_nat (length bbuf) ->
  wp (write_loop bread_fn bwrite_fn fuel bbuf bnum pos size)
    (write_done pool bl (bnum * bsize + pos) size 1 bbuf) bl.
Proof.
  intros Hne. induction fuel as [|fuel IH];
    intros bl bbuf bnum pos size Hinv Hbn Hpos Hsize Hmax Hlen;
    cbn [write_loop]; destruct (Z.gtb_spec size 0); try lia;
    pose proof (bsize_range _ _ _ Hinv) as Hb.
  1,3: apply wp_ret; assert (size = 0) as -> by lia; apply write_nothing; [lia|done..|by left].
  apply wp_get. rewrite (inv_size _ _ _ Hinv), chunk_size_spec by lia.
  remember (Z.min size (bsize - pos)) as c eqn:Hc.
  apply wp_bind. eapply wp_mono; [by apply (get_block_spec pool)|].
  intros [ret [a|]] bl1 Hgot; cbn beta iota.
  - destruct (gb_result _ _ _ _ _ _ Hgot) as (-> & _ & _ & Hinv1 & _). apply wp_modify.
    assert (length (upto bbuf c) = Z.to_nat c) as Hl.
    { unfold upto. rewrite length_take. lia. }
    destruct (write_block_spec pool bl bl1 bnum (negb ((0 =? pos) && (c =? bsize))) a pos
      (upto bbuf c) Hinv Hgot)
      as (Hinv2 & Hv2 & Hne2); [|lia..|].
    { intros Hfull%negb_false_iff. bool_lia. }
    rewrite (s32_small (size - c)) by lia.
    eapply wp_mono; [apply IH; [done|apply uwrap_range; lia|lia..|rewrite length_drop; lia]|].
    intros [ret rem] bl2 Hdone.
    eapply (write_step pool bl _ bl2 _ _ size c); [lia..| | | |].
    + unfold span. lia.
    + rewrite Z.mul_1_r. apply patched_block; rewrite ?(uwrap_small 32 bnum Hbn); try done; try lia.
      * unfold upto in Hl. lia.
      * by eapply view_length.
    + by apply next_offset.
    + by rewrite Z.mul_1_r.
  - destruct (gb_result _ _ _ _ _ _ Hgot) as [Hret Hinv1]. apply wp_ret.
    apply write_nothing; [lia|done| |right; lia]. intros m.
    by apply (gb_view _ _ _ _ _ _ Hgot); auto.
Qed.

(** Whole blocks in [pos] move to the block number; the offset is the same. *)
Lemma normalize_pos_spec pool bl bnum pos :
  cache_inv pool None bl -> fits 32 bnum -> fits 32 pos ->
  let '(bnum', pos') := normalize_pos bl bnum pos in
  fits 32 bnum' /\ 0 <= pos' < bsize /\
  exists k, bnum' * bsize + pos' = bnum * bsize + pos + k * span bsize.
Proof.
  intros Hinv Hbn Hpos. pose proof (bsize_range _ _ _ Hinv) as Hb.
  pose proof (inv_log2 _ _ _ Hinv) as Hlog. pose proof (inv_log2_range _ _ _ Hinv).
  unfold normalize_pos. rewrite (inv_size _ _ _ Hinv).
  destruct (Z.geb_spec pos bsize).
  - rewrite (uwrap_small 32 (bsize - 1)) by lia.
    assert (Z.land pos (bsize - 1) = pos mod bsize) as ->.
    { rewrite Hlog, Z.sub_1_r, <- Z.ones_equiv. by rewrite Z.land_ones by lia. }
    rewrite Z.shiftr_div_pow2, <- Hlog by lia.
    split; [apply uwrap_range; lia|]. split; [apply Z.mod_pos_bound; lia|].
    destruct (wrapped_offset bsize _ _ (pos mod bsize) (u32_eq (bnum + pos / bsize))) as [k Hk].
    exists k. rewrite Hk. pose proof (Z.div_mod pos bsize). lia.
  - unfold fits in *. split; [done|]. split; [lia|]. exists 0. lia.
Qed.
End Access.
