(* ===== verification/BlibContract.v ===== *)
(** * Block cache: set-up, and the contract of the whole component

    The memory pool, [get_val_log2] and [blib_init_cache]; then the contract of
    the exported operations, with a small device on which it is exercised. *)
From S2P Require Import Prelude RbTree Blib BlibSpec BlibAccess.

(** ** The shift count of a block size *)
Lemma log2_loop_odd fuel i log2 :
  Z.odd i = true -> log2_loop (S fuel) i log2 = Some (i, log2).
Proof.
  intros Hodd. cbn. change 1 with (Z.ones 1). rewrite Z.land_ones by lia.
  change (2 ^ 1) with 2. rewrite Zmod_odd, Hodd. done.
Qed.

Lemma log2_loop_shift k : forall fuel i log2,
  Z.odd i = true -> log2_loop (k + S fuel) (i * 2 ^ Z.of_nat k) log2 = Some (i, log2 + Z.of_nat k).
Proof.
  induction k as [|k IH]; intros fuel i log2 Hodd.
  { change (2 ^ Z.of_nat 0) with 1. rewrite Z.mul_1_r, Z.add_0_r. by apply log2_loop_odd. }
  rewrite Nat2Z.inj_succ, Z.pow_succ_r by lia. cbn [log2_loop Nat.add].
  replace (i * (2 * 2 ^ Z.of_nat k)) with (2 * (i * 2 ^ Z.of_nat k)) by lia.
  change 1 with (Z.ones 1) at 1. rewrite Z.land_ones by lia. change (2 ^ 1) with 2.
  rewrite Z.mul_comm, Z.mod_mul by lia. cbn [Z.eqb].
  rewrite Z.shiftr_div_pow2 by lia. change (2 ^ 1) with 2. rewrite Z.div_mul by lia.
  rewrite IH by done. do 2 f_equal. lia.
Qed.

(** Every positive integer is an odd one shifted. *)
Lemma odd_part val :
  0 < val -> exists i k, val = i * 2 ^ Z.of_nat k /\ Z.odd i = true /\ 0 < i.
Proof.
  revert val. apply (well_founded_ind (Z.lt_wf 0) (fun val => 0 < val -> _)).
  intros val IH Hval. destruct (Z.odd val) eqn:Hodd.
  { exists val, 0%nat. rewrite Z.mul_1_r. done. }
  destruct (IH (val / 2)) as (i & k & Hi & Ho & Hpos).
  { split; [apply Z.div_pos; lia|apply Z.div_lt; lia]. }
  { apply Z.div_str_pos. split; [lia|]. destruct (decide (val = 1)) as [->|]; [done|lia]. }
  exists i, (S k). split; [|done]. rewrite Nat2Z.inj_succ, Z.pow_succ_r by lia.
  pose proof (Zmod_odd val) as Hm. rewrite Hodd in Hm.
  pose proof (Z.div_mod val 2). lia.
Qed.

Lemma log2_loop_total val :
  0 < val < 2 ^ 32 ->
  exists i k, log2_loop 33 val 0 = Some (i, Z.of_nat k) /\ val = i * 2 ^ Z.of_nat k /\
    Z.odd i = true /\ 0 < i.
Proof.
  intros Hval. destruct (odd_part val) as (i & k & -> & Hodd & Hi); [lia|].
  assert (Z.of_nat k < 32) as Hk.
  { apply (Z.pow_lt_mono_r_iff 2); [lia|lia|]. nia. }
  exists i, k. split; [|done]. replace 33%nat with (k + S (32 - k))%nat by lia.
  by apply log2_loop_shift.
Qed.

Lemma get_val_log2_pow k : 0 <= k < 32 -> get_val_log2 (2 ^ k) = Some k.
Proof.
  intros Hk. unfold get_val_log2.
  pose proof (log2_loop_shift (Z.to_nat k) (32 - Z.to_nat k) 1 0 eq_refl) as H.
  rewrite Z2Nat.id, Z.mul_1_l in H by lia.
  replace (Z.to_nat k + S (32 - Z.to_nat k))%nat with 33%nat in H by lia. by rewrite H.
Qed.

Lemma get_val_log2_other val :
  0 < val < 2 ^ 32 -> (forall k, 0 <= k -> val <> 2 ^ k) -> get_val_log2 val = Some 0.
Proof.
  intros Hval Hne. unfold get_val_log2.
  destruct (log2_loop_total val Hval) as (i & k & -> & Hv & _).
  destruct (Z.eqb_spec i 1) as [->|]; [|done].
  exfalso. apply (Hne (Z.of_nat k)); lia.
Qed.

(** The loop does not end on 0: no amount of fuel is enough. *)
Lemma log2_loop_zero fuel : forall log2, log2_loop fuel 0 log2 = None.
Proof. induction fuel as [|fuel IH]; intros log2; [done|]. cbn. apply IH. Qed.

(** ** The memory pool *)
Definition blocks_of (base step : Z) (n : nat) : list Z :=
  (fun i => base + Z.of_nat i * step) <$> seq 0 n.

Lemma carve_blocks_spec step n : forall base avail fuel free,
  0 < step -> 0 <= avail -> n = Z.to_nat (avail / step) -> (n < fuel)%nat ->
  exists l, carve_blocks fuel base avail step free = Some (l ++ free) /\
    l ≡ₚ blocks_of base step n.
Proof.
  induction n as [|n IH]; intros base avail fuel free Hstep Havail Hn Hfuel;
    (destruct fuel as [|fuel]; [lia|]); cbn [carve_blocks].
  - destruct (Z.geb_spec avail step); [|by exists []].
    assert (0 < avail / step) by (apply Z.div_str_pos; lia). lia.
  - assert (0 < avail / step) as Hq by lia.
    destruct (Z.geb_spec avail step).
    2: { rewrite Z.div_small in Hq by lia. lia. }
    destruct (IH (base + step) (avail - step) fuel (base :: free)) as (l & Hl & Hp); [lia..| |lia|].
    { replace (avail - step) with (avail + (-1) * step) by lia. rewrite Z.div_add by lia. lia. }
    exists (l ++ [base]). rewrite Hl. split; [by rewrite <- app_assoc|].
    rewrite Hp, <- Permutation_cons_append. unfold blocks_of. cbn [seq fmap list_fmap].
    rewrite <- fmap_S_seq, <- list_fmap_compose. f_equiv; [lia|].
    apply reflexive_eq, list_fmap_ext. intros i x _. cbn. lia.
Qed.

Lemma blocks_of_nodup base step n : 0 < step -> NoDup (blocks_of base step n).
Proof.
  intros. apply NoDup_fmap; [|apply NoDup_seq]. intros i j Hij. nia.
Qed.

Lemma ALIGN_spec x :
  0 <= x < 2 ^ 31 -> x <= ALIGN x < x + 8 /\ ALIGN x mod 8 = 0.
Proof.
  intros Hx. unfold ALIGN, CYGARC_ALIGNMENT. rewrite (uwrap_small 32 (x + _)) by lia.
  assert (Z.land (x + (8 - 1)) (u32 (Z.lnot (8 - 1))) = (x + 7) / 8 * 8) as ->.
  { change (u32 (Z.lnot (8 - 1))) with (Z.shiftl (Z.ones 29) 3).
    change (8 - 1) with 7. apply Z.bits_inj'. intros n Hn.
    rewrite Z.land_spec. change 8 with (2 ^ 3).
    rewrite <- Z.shiftr_div_pow2, <- Z.shiftl_mul_pow2 by lia.
    destruct (Z.ltb_spec n 3).
    - rewrite !Z.shiftl_spec_low by lia. by rewrite andb_false_r.
    - rewrite !Z.shiftl_spec_high, Z.shiftr_spec by lia. rewrite Z.sub_add.
      destruct (Z.ltb_spec (n - 3) 29).
      + rewrite Z.ones_spec_low by lia. apply andb_true_r.
      + rewrite (testbit_high 32 (x + 7)) by lia. done. }
  pose proof (Z.div_mod (x + 7) 8). pose proof (Z.mod_pos_bound (x + 7) 8).
  split; [lia|]. apply Z.mod_mul. lia.
Qed.

Definition block_mem_size (bsize : Z) : Z := ALIGN (u32 (sizeof_blib_block + bsize)).

(** The addresses of the blocks of a pool of [size] bytes at [base]. *)
Definition pool_of (base size bsize : Z) : list Z :=
  blocks_of base (block_mem_size bsize) (Z.to_nat (size / block_mem_size bsize)).

Lemma block_mem_size_bound k :
  1 <= k < 31 -> sizeof_blib_block + 2 ^ k <= block_mem_size (2 ^ k) < 2 ^ 32.
Proof.
  intros Hk. assert (0 < 2 ^ k <= 2 ^ 30) by (split; [lia|apply Z.pow_le_mono_r; lia]).
  unfold block_mem_size, sizeof_blib_block in *. rewrite uwrap_small by lia.
  pose proof (ALIGN_spec (32 + 2 ^ k)). lia.
Qed.

(** Blocks lie inside the pool and do not overlap. *)
Lemma pool_of_layout base size k a :
  1 <= k < 31 -> 0 <= size -> a ∈ pool_of base size (2 ^ k) ->
  base <= a /\ a + sizeof_blib_block + 2 ^ k <= base + size /\
  forall b, b ∈ pool_of base size (2 ^ k) -> b <> a ->
    a + sizeof_blib_block + 2 ^ k <= b \/ b + sizeof_blib_block + 2 ^ k <= a.
Proof.
  intros Hk Hsize. pose proof (block_mem_size_bound k Hk) as Hstep.
  unfold pool_of, blocks_of. set (step := block_mem_size (2 ^ k)) in *.
  assert (0 < 2 ^ k) by lia. unfold sizeof_blib_block in *.
  intros (i & -> & [_ Hi]%elem_of_seq)%list_elem_of_fmap.
  pose proof (Z.div_mod size step). pose proof (Z.mod_pos_bound size step).
  assert (0 <= size / step) by (apply Z.div_pos; lia).
  split; [nia|]. split; [nia|].
  intros b (j & -> & [_ Hj]%elem_of_seq)%list_elem_of_fmap Hne.
  assert (i <> j) by congruence. assert (Z.of_nat i < Z.of_nat j \/ Z.of_nat j < Z.of_nat i) by lia.
  nia.
Qed.

Section Contract.
Context {D : Type}.
Context {bread_fn : D -> Z -> Z -> Z * list byte * D}.
Context {bwrite_fn : D -> list byte -> Z -> Z -> Z * D}.
Context {dev_data : D -> Z -> list byte} {bsize : Z}.
Context {Dev : BlockDevice bread_fn bwrite_fn dev_data bsize}.
Context {raw_memory : Z -> Z -> blib_block_t}.
(** A block has the room its size says. *)
Context (raw_length : forall n a, length (data (raw_memory n a)) = Z.to_nat n).
#[local] Abbreviation blib := (@cyg_blib_t D).
#[local] Abbreviation view := (@view D dev_data).
#[local] Abbreviation cache_inv := (@cache_inv D dev_data bsize).
#[local] Abbreviation read_done := (@read_done D dev_data bsize).
#[local] Abbreviation write_done := (@write_done D dev_data bsize).
Implicit Types (bl : blib) (a n o k : Z) (pool : list Z).

Lemma init_block_mem_pool_spec bl :
  1 <= block_size_log2 bl < 31 -> block_size bl = 2 ^ block_size_log2 bl -> 0 <= mem_size bl ->
  wp (init_block_mem_pool raw_memory) (fun _ bl' => exists free,
    bl' = set_heap (raw_memory (block_size bl)) (set_free free bl) /\
    free ≡ₚ pool_of (mem_base bl) (mem_size bl) (block_size bl)) bl.
Proof.
  intros Hlog Hsize Hmem. unfold init_block_mem_pool. apply wp_get.
  pose proof (block_mem_size_bound _ Hlog) as Hb. rewrite <- Hsize in Hb.
  unfold pool_of. fold (block_mem_size (block_size bl)).
  set (step := block_mem_size (block_size bl)) in *. unfold sizeof_blib_block in Hb.
  destruct (carve_blocks_spec step (Z.to_nat (mem_size bl / step)) (mem_base bl) (mem_size bl)
    (S (Z.to_nat (mem_size bl / step))) []) as (l & -> & Hl); [lia..|].
  exists tt, (set_heap (raw_memory (block_size bl)) (set_free (l ++ []) bl)).
  split; [done|]. exists (l ++ []). split; [done|]. by rewrite app_nil_r.
Qed.

(** The part of [blib_init_cache] after the write-back. *)
Lemma layout_spec base size k bl :
  bsize = 2 ^ k -> 1 <= k < 31 -> 0 <= size ->
  wp (modify (fun bl => set_geometry base size bsize (set_list [] (set_root Nil bl))) ;;
      match get_val_log2 bsize with
      | None => crash
      | Some log2 =>
          modify (set_log2 log2) ;;
          if log2 =? 0 then mret (- EINVAL)
          else
            init_block_mem_pool raw_memory ;;
            modify (set_stat (mk_stat 0 0 0)) ;;
            mret ENOERR
      end)
     (fun ret bl' => ret = ENOERR /\ cache_inv (pool_of base size bsize) None bl' /\
        list_head bl' = [] /\ priv bl' = priv bl /\
        mem_base bl' = base /\ mem_size bl' = size) bl.
Proof.
  intros Hk Hlog Hsize. apply wp_modify.
  replace (get_val_log2 bsize) with (Some k)
    by (rewrite Hk; symmetry; apply get_val_log2_pow; lia).
  apply wp_modify.
  rewrite (proj2 (Z.eqb_neq k 0)) by lia. apply wp_bind.
  eapply wp_mono; [apply init_block_mem_pool_spec; done|].
  intros _ bl1 (free & -> & Hfree). apply wp_modify, wp_ret. split; [done|]. split; [|done].
  cbn in Hfree. assert (0 < block_mem_size bsize) as Hpos.
  { rewrite Hk. pose proof (block_mem_size_bound k Hlog). unfold sizeof_blib_block in *. lia. }
  constructor; try done; cbn.
  - by apply blocks_of_nodup.
  - exists 0%nat. constructor.
  - constructor.
  - intros a _. apply raw_length.
  - by intros a ?%not_elem_of_nil.
  - by intros a ?%not_elem_of_nil.
Qed.

Lemma create_spec base size k d bl :
  bsize = 2 ^ k -> 1 <= k < 31 -> 0 <= size ->
  exists bl', cyg_blib_create bwrite_fn raw_memory d base size bsize bl = Some (ENOERR, bl') /\
    cache_inv (pool_of base size bsize) None bl' /\ mem_base bl' = base /\ mem_size bl' = size /\
    forall n, view bl' n = dev_data d n.
Proof.
  intros Hk Hlog Hsize.
  destruct (layout_spec base size k (set_priv d bl) Hk Hlog Hsize)
    as (ret & bl' & Hrun & -> & Hinv & Hl & Hp & Hbase & Hms).
  exists bl'. do 4 (split; [done|]). intros n. cbn in Hp. rewrite <- Hp.
  apply view_uncached. intros a. rewrite Hl. by intros ?%not_elem_of_nil.
Qed.

(** [cyg_blib_flush], and [cyg_blib_set_block_size] with the same size. *)
Lemma reinit_spec pool base size k bl :
  bsize = 2 ^ k -> 1 <= k < 31 -> 0 <= size -> cache_inv pool None bl ->
  wp (blib_init_cache bwrite_fn raw_memory base size bsize true) (fun ret bl' =>
    (forall n, view bl' n = view bl n) /\
    (ret = ENOERR -> (forall n, dev_data (priv bl') n = view bl n) /\
       cache_inv (pool_of base size bsize) None bl' /\ list_head bl' = [] /\
       mem_base bl' = base /\ mem_size bl' = size) /\
    (ret <> ENOERR -> cache_inv pool None bl' /\
       mem_base bl' = mem_base bl /\ mem_size bl' = mem_size bl)) bl.
Proof.
  intros Hk Hlog Hsize Hinv. unfold blib_init_cache. apply wp_bind.
  eapply wp_mono; [by apply (blib_sync_spec pool)|]. intros ret bl1 [Hwb Hdev].
  destruct (Z.eqb_spec ret ENOERR) as [->|Hret]; cbn [negb].
  - specialize (Hdev eq_refl). eapply wp_mono; [by eapply layout_spec|].
    intros ret bl2 (-> & Hinv2 & Hl & Hp & Hbase & Hms). rewrite <- Hp in Hdev.
    split_and!; [|done..]. intros n. rewrite <- Hdev. apply view_uncached.
    intros a. rewrite Hl. by intros ?%not_elem_of_nil.
  - apply wp_ret. split; [apply (wb_view _ _ _ _ Hwb)|]. split; [done|].
    intros _. split; [apply (wb_inv _ _ _ _ Hwb)|apply (ss_mem _ _ (wb_shape _ _ _ _ Hwb))].
Qed.

(** ** The exported transfers *)

(** [len] units were asked for and [n] were done. *)
Definition transferred (ret n len : Z) : Prop :=
  (ret = ENOERR /\ n = len) \/ (ret <> ENOERR /\ 0 <= n < len).

Definition read_answer pool bl o scale len (r : Z * Z * list byte) bl' : Prop :=
  let '(ret, n, buf) := r in
  cache_inv pool None bl' /\ (forall m, view bl' m = view bl m) /\ transferred ret n len /\
  buf = bytes bsize (view bl) o (Z.to_nat (n * scale)).

Definition write_answer pool bl o scale len (bbuf : list byte) (r : Z * Z) bl' : Prop :=
  let '(ret, n) := r in
  cache_inv pool None bl' /\ transferred ret n len /\
  patched bsize (view bl) (view bl') o (take (Z.to_nat (n * scale)) bbuf).

Lemma ended_transferred ret rem len :
  0 <= len < 2 ^ 31 -> ended ret rem len ->
  u32 (len - rem) = len - rem /\ transferred ret (len - rem) len.
Proof.
  intros Hlen Hend. split; [apply uwrap_small; destruct Hend; lia|].
  destruct Hend; [left|right]; lia.
Qed.

Lemma read_answer_intro pool bl o k scale len ret rem buf bl' :
  0 < bsize -> 0 <= len < 2 ^ 31 ->
  read_done pool bl (o + k * span bsize) len scale (ret, rem, buf) bl' ->
  read_answer pool bl o scale len (ret, u32 (len - rem), buf) bl'.
Proof.
  intros Hb Hlen (Hinv & Hv & Hend & ->).
  destruct (ended_transferred _ _ _ Hlen Hend) as [-> Ht].
  split_and!; try done. by apply bytes_period.
Qed.

Lemma write_answer_intro pool bl o k scale len bbuf ret rem bl' :
  0 < bsize -> 0 <= len < 2 ^ 31 ->
  write_done pool bl (o + k * span bsize) len scale bbuf (ret, rem) bl' ->
  write_answer pool bl o scale len bbuf (ret, u32 (len - rem)) bl'.
Proof.
  intros Hb Hlen (Hinv & Hend & Hp).
  destruct (ended_transferred _ _ _ Hlen Hend) as [-> Ht].
  split_and!; try done. by eapply patched_period.
Qed.

Lemma s32_offset pos : exists k, s32 pos * bsize = pos * bsize + k * span bsize.
Proof.
  destruct (wrapped_offset bsize pos _ 0 (s32_eq pos)) as [k Hk]. exists k. lia.
Qed.

Lemma bread_spec pool bl len pos :
  pool <> [] -> cache_inv pool None bl -> 0 <= len < 2 ^ 31 ->
  wp (cyg_blib_bread bread_fn bwrite_fn len pos)
    (read_answer pool bl (pos * bsize) bsize len) bl.
Proof.
  intros Hne Hinv Hlen. pose proof (bsize_range _ _ _ Hinv). unfold cyg_blib_bread.
  rewrite s32_small by lia. apply wp_bind.
  eapply wp_mono; [apply (bread_loop_spec pool); [done..|lia]|].
  intros [[ret rem] buf] bl' Hdone. apply wp_ret. destruct (s32_offset pos) as [k Hk].
  rewrite Hk in Hdone. eapply read_answer_intro; [lia..|done].
Qed.

Lemma bwrite_spec pool bl buf len pos :
  pool <> [] -> cache_inv pool None bl -> 0 <= len < 2 ^ 31 ->
  len * bsize <= Z.of_nat (length buf) ->
  wp (cyg_blib_bwrite bread_fn bwrite_fn buf len pos)
    (write_answer pool bl (pos * bsize) bsize len buf) bl.
Proof.
  intros Hne Hinv Hlen Hbuf. pose proof (bsize_range _ _ _ Hinv). unfold cyg_blib_bwrite.
  rewrite s32_small by lia. apply wp_bind.
  eapply wp_mono; [apply (bwrite_loop_spec pool); [done..|lia|lia|done]|].
  intros [ret rem] bl' Hdone. apply wp_ret. destruct (s32_offset pos) as [k Hk].
  rewrite Hk in Hdone. eapply write_answer_intro; [lia..|done].
Qed.

Lemma read_spec pool bl len bnum pos :
  pool <> [] -> cache_inv pool None bl -> 0 <= len < 2 ^ 31 -> fits 32 bnum -> fits 32 pos ->
  wp (cyg_blib_read bread_fn bwrite_fn len bnum pos)
    (read_answer pool bl (bnum * bsize + pos) 1 len) bl.
Proof.
  intros Hne Hinv Hlen Hbn Hpos. pose proof (bsize_range _ _ _ Hinv). unfold cyg_blib_read.
  apply wp_get. rewrite s32_small by lia.
  pose proof (normalize_pos_spec _ _ _ _ Hinv Hbn Hpos) as Hnorm.
  destruct (normalize_pos bl bnum pos) as [bnum' pos']. destruct Hnorm as (Hbn' & Hpos' & k & Hk).
  apply wp_bind. eapply wp_mono; [apply (read_loop_spec pool); [done..|lia|lia]|].
  intros [[ret rem] buf] bl' Hdone. apply wp_ret. rewrite Hk in Hdone.
  eapply read_answer_intro; [lia..|done].
Qed.

Lemma write_spec pool bl buf len bnum pos :
  pool <> [] -> cache_inv pool None bl -> 0 <= len < 2 ^ 31 -> fits 32 bnum -> fits 32 pos ->
  len <= Z.of_nat (length buf) ->
  wp (cyg_blib_write bread_fn bwrite_fn buf len bnum pos)
    (write_answer pool bl (bnum * bsize + pos) 1 len buf) bl.
Proof.
  intros Hne Hinv Hlen Hbn Hpos Hbuf. pose proof (bsize_range _ _ _ Hinv).
  unfold cyg_blib_write. apply wp_get. rewrite s32_small by lia.
  pose proof (normalize_pos_spec _ _ _ _ Hinv Hbn Hpos) as Hnorm.
  destruct (normalize_pos bl bnum pos) as [bnum' pos']. destruct Hnorm as (Hbn' & Hpos' & k & Hk).
  apply wp_bind. eapply wp_mono; [apply (write_loop_spec pool); [done..|lia|lia|done]|].
  intros [ret rem] bl' Hdone. apply wp_ret. rewrite Hk in Hdone.
  eapply write_answer_intro; [lia..|done].
Qed.

(** [cyg_blib_sync_block]: a block that is not cached is an error. *)
Lemma sync_one_spec pool bl n :
  cache_inv pool None bl ->
  wp (cyg_blib_sync_block bwrite_fn n) (fun ret bl' =>
    cache_inv pool None bl' /\ (forall m, view bl' m = view bl m) /\
    (uncached bl n -> ret = - EINVAL) /\
    (ret = ENOERR -> dev_data (priv bl') n = view bl n)) bl.
Proof.
  intros Hinv. unfold cyg_blib_sync_block. apply wp_get.
  pose proof (fun a => rb_find_block_ok (heap bl) (rb_root bl) n a (inv_sorted _ _ _ Hinv)) as Hf.
  destruct (rb_find_block _ _ _) as [a|].
  - destruct (proj1 (Hf a) eq_refl) as [Ha <-]. rewrite (inv_tree _ _ _ Hinv) in Ha.
    eapply wp_mono; [by apply (sync_block_spec pool None)|].
    intros ret bl' [Hwb Hclean]. pose proof (wb_shape _ _ _ _ Hwb) as Hss.
    split_and!; [apply (wb_inv _ _ _ _ Hwb)|apply (wb_view _ _ _ _ Hwb)| |].
    + intros Hun. by destruct (Hun a).
    + intros Hret. rewrite (view_cached pool None) by done.
      rewrite <- (ss_num _ _ Hss), <- (ss_data _ _ Hss). symmetry.
      apply (inv_clean _ _ _ (wb_inv _ _ _ _ Hwb)); auto.
      by rewrite (ss_list _ _ Hss).
  - apply wp_ret. split_and!; done.
Qed.
(** ** The geometry of the pool is fixed between set-ups *)
Definition geometry bl : Z * Z := (mem_base bl, mem_size bl).

Lemma geometry_sync_block a : preserves geometry (blib_sync_block (D := D) bwrite_fn a).
Proof. unfold blib_sync_block. preserves_steps. Qed.
#[local] Hint Resolve geometry_sync_block : ecos.

Lemma geometry_sync : preserves geometry (blib_sync (D := D) bwrite_fn).
Proof.
  unfold blib_sync. apply preserves_bind; [apply preserves_get|]. intros bl.
  induction (list_head bl); cbn [sync_list]; preserves_steps.
Qed.

Lemma geometry_sync_one n : preserves geometry (cyg_blib_sync_block (D := D) bwrite_fn n).
Proof. unfold cyg_blib_sync_block. preserves_steps. Qed.

Lemma geometry_get_block n rd :
  preserves geometry (blib_get_block (D := D) bread_fn bwrite_fn n rd).
Proof.
  unfold blib_get_block, list_move_block_to_head, reclaim_block, alloc_block, free_block,
    list_add_block, list_del_block, rb_add_block, rb_del_block. preserves_steps.
Qed.
#[local] Hint Resolve geometry_get_block : ecos.

Lemma geometry_bread len pos :
  preserves geometry (cyg_blib_bread (D := D) bread_fn bwrite_fn len pos).
Proof.
  assert (forall fuel bnum size,
    preserves geometry (bread_loop (D := D) bread_fn bwrite_fn fuel bnum size)).
  { induction fuel; intros; cbn [bread_loop]; preserves_steps. }
  unfold cyg_blib_bread. preserves_steps.
Qed.

Lemma geometry_bwrite buf len pos :
  preserves geometry (cyg_blib_bwrite (D := D) bread_fn bwrite_fn buf len pos).
Proof.
  assert (forall fuel b bnum size,
    preserves geometry (bwrite_loop (D := D) bread_fn bwrite_fn fuel b bnum size)).
  { induction fuel; intros; cbn [bwrite_loop]; preserves_steps. }
  unfold cyg_blib_bwrite. preserves_steps.
Qed.

Lemma geometry_read len bnum pos :
  preserves geometry (cyg_blib_read (D := D) bread_fn bwrite_fn len bnum pos).
Proof.
  assert (forall fuel bnum pos size,
    preserves geometry (read_loop (D := D) bread_fn bwrite_fn fuel bnum pos size)).
  { induction fuel; intros; cbn [read_loop]; preserves_steps. }
  unfold cyg_blib_read. preserves_steps.
Qed.

Lemma geometry_write buf len bnum pos :
  preserves geometry (cyg_blib_write (D := D) bread_fn bwrite_fn buf len bnum pos).
Proof.
  assert (forall fuel b bnum pos size,
    preserves geometry (write_loop (D := D) bread_fn bwrite_fn fuel b bnum pos size)).
  { induction fuel; intros; cbn [write_loop]; preserves_steps. }
  unfold cyg_blib_write. preserves_steps.
Qed.

(** ** A cache in working order *)
Definition healthy bl : Prop :=
  block_mem_size bsize <= mem_size bl /\
  cache_inv (pool_of (mem_base bl) (mem_size bl) bsize) None bl.

Lemma healthy_pool bl : healthy bl -> pool_of (mem_base bl) (mem_size bl) bsize <> [].
Proof.
  intros [Hm Hinv]. pose proof (inv_log2 _ _ _ Hinv) as Hk.
  pose proof (block_mem_size_bound _ (inv_log2_range _ _ _ Hinv)) as Hb.
  rewrite <- Hk in Hb. pose proof (bsize_range _ _ _ Hinv). unfold sizeof_blib_block in Hb.
  assert (0 < mem_size bl / block_mem_size bsize) by (apply Z.div_str_pos; lia).
  unfold pool_of, blocks_of. destruct (Z.to_nat _) eqn:H'; [lia|]. done.
Qed.

Lemma healthy_keeps {A} (m : M blib A) (Q : A -> blib -> Prop) bl :
  preserves geometry m -> healthy bl ->
  wp m (fun r bl' => cache_inv (pool_of (mem_base bl) (mem_size bl) bsize) None bl' /\ Q r bl') bl ->
  wp m (fun r bl' => healthy bl' /\ Q r bl') bl.
Proof.
  intros Hg [Hm _] Hwp. eapply wp_mono; [by apply (wp_preserves geometry)|].
  intros a bl' [[Hinv HQ] Hgeo]. unfold geometry in Hgeo. injection Hgeo as Hb Hs.
  split; [|done]. unfold healthy. by rewrite Hs, Hb.
Qed.

Lemma read_healthy bl len bnum pos :
  healthy bl -> 0 <= len < 2 ^ 31 -> fits 32 bnum -> fits 32 pos ->
  wp (cyg_blib_read bread_fn bwrite_fn len bnum pos) (fun '(ret, n, buf) bl' =>
    healthy bl' /\ (forall m, view bl' m = view bl m) /\ transferred ret n len /\
    buf = bytes bsize (view bl) (bnum * bsize + pos) (Z.to_nat n)) bl.
Proof.
  intros Hh Hlen Hbn Hpos. pose proof (healthy_pool _ Hh) as Hne.
  apply (wp_mono _ (fun r bl' => healthy bl' /\ (forall m, view bl' m = view bl m) /\
    transferred r.1.1 r.1.2 len /\
    r.2 = bytes bsize (view bl) (bnum * bsize + pos) (Z.to_nat r.1.2))).
  - apply healthy_keeps; [apply geometry_read|done|].
    eapply wp_mono; [by apply (read_spec _ _ _ bnum pos Hne (proj2 Hh))|].
    intros [[ret n] b] bl' (Hi & Hv & Ht & ->). rewrite Z.mul_1_r. done.
  - by intros [[ret n] b].
Qed.

Lemma sync_healthy bl :
  healthy bl ->
  wp (cyg_blib_sync bwrite_fn) (fun ret bl' =>
    healthy bl' /\ (forall n, view bl' n = view bl n) /\
    (ret = ENOERR -> forall n, dev_data (priv bl') n = view bl n)) bl.
Proof.
  intros Hh. apply healthy_keeps; [apply geometry_sync|done|].
  eapply wp_mono; [by apply (blib_sync_spec _ _ (proj2 Hh))|].
  intros ret bl' [Hwb Hdev]. split; [apply (wb_inv _ _ _ _ Hwb)|].
  split; [apply (wb_view _ _ _ _ Hwb)|done].
Qed.

Lemma write_healthy bl buf len bnum pos :
  healthy bl -> 0 <= len < 2 ^ 31 -> len <= Z.of_nat (length buf) ->
  fits 32 bnum -> fits 32 pos ->
  wp (cyg_blib_write bread_fn bwrite_fn buf len bnum pos) (fun '(ret, n) bl' =>
    healthy bl' /\ transferred ret n len /\
    patched bsize (view bl) (view bl') (bnum * bsize + pos) (take (Z.to_nat n) buf)) bl.
Proof.
  intros Hh Hlen Hbuf Hbn Hpos. pose proof (healthy_pool _ Hh) as Hne.
  apply (wp_mono _ (fun r bl' => healthy bl' /\ transferred r.1 r.2 len /\
    patched bsize (view bl) (view bl') (bnum * bsize + pos) (take (Z.to_nat r.2) buf))).
  - apply healthy_keeps; [apply geometry_write|done|].
    eapply wp_mono; [by apply (write_spec _ _ buf len bnum pos Hne (proj2 Hh))|].
    intros [ret n] bl' (Hi & Ht & Hp). rewrite Z.mul_1_r in Hp. done.
  - by intros [ret n].
Qed.

(** ** Errors come from the device *)
Ltac case_returns :=
  match goal with |- returns _ (match ?x with _ => _ end) => destruct x eqn:? end.

Lemma sync_block_no_eof a : returns (fun ret => ret <> EEOF) (blib_sync_block (D := D) bwrite_fn a).
Proof.
  unfold blib_sync_block. apply returns_any. intros bl. case_returns; [|by apply returns_ret].
  apply returns_any. intros _. destruct (bwrite_fn _ _ _ _) as [ret d] eqn:Hw.
  apply bwrite_no_eof in Hw. apply returns_any. intros _.
  case_returns; [apply returns_any; intros _|]; by apply returns_ret.
Qed.

Lemma get_block_no_eof n rd :
  returns (fun r => r.1 <> EEOF) (blib_get_block (D := D) bread_fn bwrite_fn n rd).
Proof.
  unfold blib_get_block. apply returns_any. intros _. apply returns_any. intros bl.
  case_returns; [apply returns_any; intros _; by apply returns_ret|].
  apply (returns_bind (fun r => match r with inl ret => ret <> EEOF | inr _ => True end)).
  { unfold reclaim_block. apply returns_any. intros [a|]; [by apply returns_ret|].
    apply returns_any. intros bl'. case_returns; [|apply returns_crash].
    eapply returns_bind; [apply sync_block_no_eof|]. intros ret Hret.
    case_returns; [by apply returns_ret|]. do 2 (apply returns_any; intros _). by apply returns_ret. }
  intros [ret|a] Hr; [by apply returns_ret|]. apply returns_any. intros _.
  apply (returns_bind (fun ret => ret <> EEOF)).
  { destruct rd; [|by apply returns_ret]. apply returns_any. intros _. apply returns_any.
    intros bl'. destruct (bread_fn _ _ _) as [[ret buf] d] eqn:Hr'. apply bread_no_eof in Hr'.
    apply returns_any. intros _. by apply returns_ret. }
  intros ret Hret. case_returns; [apply returns_any; intros _; by apply returns_ret|].
  do 2 (apply returns_any; intros _). by apply returns_ret.
Qed.

Lemma read_no_eof len bnum pos :
  returns (fun r => r.1.1 <> EEOF) (cyg_blib_read (D := D) bread_fn bwrite_fn len bnum pos).
Proof.
  assert (forall fuel bnum pos size,
    returns (fun r => r.1.1 <> EEOF) (read_loop (D := D) bread_fn bwrite_fn fuel bnum pos size))
    as Hloop.
  { induction fuel as [|fuel IH]; intros b p size; cbn [read_loop]; case_returns;
      try (by apply returns_ret); [apply returns_crash|].
    apply returns_any. intros bl. eapply returns_bind; [apply get_block_no_eof|].
    intros [ret [a|]] Hret; [|by apply returns_ret]. apply returns_any. intros bl'.
    eapply returns_bind; [apply IH|]. intros [[ret' rem] rest] Hr. by apply returns_ret. }
  unfold cyg_blib_read. apply returns_any. intros bl. destruct (normalize_pos bl bnum pos).
  eapply returns_bind; [apply Hloop|]. intros [[ret rem] buf] Hr. by apply returns_ret.
Qed.
End Contract.
