(* ===== verification/BlibRefine.v ===== *)
(** * Block cache: refinement of a flat store

    Any sequence of requests to a cache in working order runs without undefined
    behaviour and answers as a flat store of bytes does; the contract of single
    operations, of set-up and of write-back follow. Every statement is exercised
    on a device of four-byte blocks with a faulty block. *)
From S2P Require Import Prelude RbTree Blib BlibSpec BlibAccess BlibContract.

(** ** Requests and their specification *)
Inductive request :=
  | Bread (len pos : Z)
  | Bwrite (buf : list byte) (len pos : Z)
  | Read (len bnum pos : Z)
  | Write (buf : list byte) (len bnum pos : Z)
  | Sync
  | SyncBlock (n : Z)
  | Flush.

(** What a caller must respect: sizes that are not negative as [cyg_int32],
    buffers as long as announced. *)
Definition request_ok (bsize : Z) (req : request) : Prop :=
  match req with
  | Bread len _ => 0 <= len < 2 ^ 31
  | Bwrite buf len _ => 0 <= len < 2 ^ 31 /\ len * bsize <= Z.of_nat (length buf)
  | Read len bnum pos => 0 <= len < 2 ^ 31 /\ fits 32 bnum /\ fits 32 pos
  | Write buf len bnum pos =>
      0 <= len < 2 ^ 31 /\ len <= Z.of_nat (length buf) /\ fits 32 bnum /\ fits 32 pos
  | Sync | SyncBlock _ | Flush => True
  end.

(** The flat store: a read answers with its bytes, a write changes them, as far
    as the answer says; nothing else changes them. *)
Inductive store_step (bsize : Z) (v : Z -> list byte) :
    request -> Z * Z * list byte -> (Z -> list byte) -> Prop :=
  | store_bread len pos ret n v' :
      transferred ret n len -> (forall m, v' m = v m) ->
      store_step bsize v (Bread len pos)
        (ret, n, bytes bsize v (pos * bsize) (Z.to_nat (n * bsize))) v'
  | store_read len bnum pos ret n v' :
      transferred ret n len -> (forall m, v' m = v m) ->
      store_step bsize v (Read len bnum pos)
        (ret, n, bytes bsize v (bnum * bsize + pos) (Z.to_nat n)) v'
  | store_bwrite buf len pos ret n v' :
      transferred ret n len ->
      patched bsize v v' (pos * bsize) (take (Z.to_nat (n * bsize)) buf) ->
      store_step bsize v (Bwrite buf len pos) (ret, n, []) v'
  | store_write buf len bnum pos ret n v' :
      transferred ret n len ->
      patched bsize v v' (bnum * bsize + pos) (take (Z.to_nat n) buf) ->
      store_step bsize v (Write buf len bnum pos) (ret, n, []) v'
  | store_sync req ret v' :
      match req with Sync | SyncBlock _ | Flush => True | _ => False end ->
      (forall m, v' m = v m) -> store_step bsize v req (ret, 0, []) v'.

Inductive store_run (bsize : Z) :
    (Z -> list byte) -> list request -> list (Z * Z * list byte) -> (Z -> list byte) -> Prop :=
  | store_done v : store_run bsize v [] [] v
  | store_more v req ans v1 reqs answers v2 :
      store_step bsize v req ans v1 -> store_run bsize v1 reqs answers v2 ->
      store_run bsize v (req :: reqs) (ans :: answers) v2.

Section Refine.
Context {D : Type}.
Context {bread_fn : D -> Z -> Z -> Z * list byte * D}.
Context {bwrite_fn : D -> list byte -> Z -> Z -> Z * D}.
Context {dev_data : D -> Z -> list byte} {bsize : Z}.
Context {Dev : BlockDevice bread_fn bwrite_fn dev_data bsize}.
Context {raw_memory : Z -> Z -> blib_block_t}.
Context (raw_length : forall n a, length (data (raw_memory n a)) = Z.to_nat n).
#[local] Abbreviation blib := (@cyg_blib_t D).
#[local] Abbreviation view := (@view D dev_data).
#[local] Abbreviation healthy := (@healthy D dev_data bsize).
Implicit Types (bl : blib).

(** A request as a call of the exported operations. *)
Definition run_request (req : request) : M blib (Z * Z * list byte) :=
  match req with
  | Bread len pos => cyg_blib_bread bread_fn bwrite_fn len pos
  | Bwrite buf len pos =>
      '(ret, n) ← cyg_blib_bwrite bread_fn bwrite_fn buf len pos; mret (ret, n, [])
  | Read len bnum pos => cyg_blib_read bread_fn bwrite_fn len bnum pos
  | Write buf len bnum pos =>
      '(ret, n) ← cyg_blib_write bread_fn bwrite_fn buf len bnum pos; mret (ret, n, [])
  | Sync => ret ← cyg_blib_sync bwrite_fn; mret (ret, 0, [])
  | SyncBlock n => ret ← cyg_blib_sync_block bwrite_fn n; mret (ret, 0, [])
  | Flush => ret ← cyg_blib_flush bwrite_fn raw_memory; mret (ret, 0, [])
  end.

Fixpoint run_requests (reqs : list request) : M blib (list (Z * Z * list byte)) :=
  match reqs with
  | [] => mret []
  | req :: reqs =>
      ans ← run_request req; answers ← run_requests reqs; mret (ans :: answers)
  end.

Lemma flush_spec bl :
  healthy bl ->
  wp (cyg_blib_flush bwrite_fn raw_memory) (fun ret bl' =>
    healthy bl' /\ (forall n, view bl' n = view bl n) /\
    (ret = ENOERR -> (forall n, dev_data (priv bl') n = view bl n) /\ list_head bl' = [])) bl.
Proof.
  intros [Hm Hinv]. unfold cyg_blib_flush. apply wp_get. rewrite (inv_size _ _ _ Hinv).
  pose proof (inv_log2 _ _ _ Hinv) as Hk. pose proof (inv_log2_range _ _ _ Hinv) as Hr.
  assert (0 <= mem_size bl) as Hpos.
  { pose proof (block_mem_size_bound _ Hr) as Hb. rewrite <- Hk in Hb.
    unfold sizeof_blib_block in Hb. pose proof (bsize_range _ _ _ Hinv). lia. }
  eapply wp_mono; [by eapply (reinit_spec raw_length _ _ (mem_size bl))|].
  intros ret bl' (Hv & Hok & Hbad). unfold BlibContract.healthy.
  destruct (decide (ret = ENOERR)) as [Hret|Hret].
  - destruct (Hok Hret) as (Hd & Hinv' & Hl & -> & ->). done.
  - destruct (Hbad Hret) as (Hinv' & -> & ->). done.
Qed.

Lemma run_request_spec bl req :
  healthy bl -> request_ok bsize req ->
  wp (run_request req) (fun ans bl' =>
    healthy bl' /\ store_step bsize (view bl) req ans (view bl')) bl.
Proof.
  intros Hh Hok. pose proof Hh as [_ Hinv]. pose proof (healthy_pool _ Hh) as Hne.
  destruct req as [len pos|buf len pos|len bnum pos|buf len bnum pos| |n|]; cbn in Hok |- *.
  - apply healthy_keeps; [apply geometry_bread|done|].
    eapply wp_mono; [by apply (bread_spec _ _ _ pos Hne Hinv)|].
    intros [[ret n] b] bl' (Hi & Hv & Ht & ->). split; [done|]. by constructor.
  - destruct Hok as [Hlen Hbuf]. apply wp_bind.
    eapply wp_mono; [apply (healthy_keeps _ (fun r bl' => transferred r.1 r.2 len /\
      patched bsize (view bl) (view bl') (pos * bsize) (take (Z.to_nat (r.2 * bsize)) buf)) _
      (geometry_bwrite buf len pos) Hh)|].
    { eapply wp_mono; [by apply (bwrite_spec _ _ buf len pos Hne Hinv)|].
      intros [ret n] bl' (Hi & Ht & Hp). split; [done|]. exact (conj Ht Hp). }
    intros [ret n] bl' (Hh' & Ht & Hp). apply wp_ret. split; [done|]. by constructor.
  - destruct Hok as (Hlen & Hbn & Hpos).
    eapply wp_mono; [by apply (read_healthy _ len bnum pos Hh)|].
    intros [[ret n] b] bl' (Hi & Hv & Ht & ->). split; [done|]. by constructor.
  - destruct Hok as (Hlen & Hbuf & Hbn & Hpos). apply wp_bind.
    eapply wp_mono; [by apply (write_healthy _ buf len bnum pos Hh)|].
    intros [ret n] bl' (Hh' & Ht & Hp). apply wp_ret. split; [done|]. by constructor.
  - apply wp_bind. eapply wp_mono; [apply (healthy_keeps _ (fun _ bl' => forall m, view bl' m = view bl m) _
      geometry_sync Hh)|].
    { eapply wp_mono; [by apply (blib_sync_spec _ _ Hinv)|].
      intros ret bl' [Hwb _]. split; [apply (wb_inv _ _ _ _ Hwb)|exact (wb_view _ _ _ _ Hwb)]. }
    intros ret bl' [Hh' Hv]. apply wp_ret. split; [done|]. by constructor.
  - apply wp_bind. eapply wp_mono; [apply (healthy_keeps _ (fun _ bl' => forall m, view bl' m = view bl m) _
      (geometry_sync_one n) Hh)|].
    { eapply wp_mono; [by apply (sync_one_spec _ _ n Hinv)|].
      intros ret bl' (Hi & Hv & _). exact (conj Hi Hv). }
    intros ret bl' [Hh' Hv]. apply wp_ret. split; [done|]. by constructor.
  - apply wp_bind. eapply wp_mono; [by apply flush_spec|].
    intros ret bl' (Hh' & Hv & _). apply wp_ret. split; [done|]. by constructor.
Qed.

Lemma run_requests_spec reqs : forall bl,
  healthy bl -> Forall (request_ok bsize) reqs ->
  wp (run_requests reqs) (fun answers bl' =>
    healthy bl' /\ store_run bsize (view bl) reqs answers (view bl')) bl.
Proof.
  induction reqs as [|req reqs IH]; intros bl Hh Hok; cbn [run_requests].
  { apply wp_ret. split; [done|constructor]. }
  apply Forall_cons in Hok as [Hreq Hreqs].
  apply wp_bind. eapply wp_mono; [by apply run_request_spec|]. intros ans bl1 [Hh1 Hstep].
  apply wp_bind. eapply wp_mono; [by apply IH|]. intros answers bl2 [Hh2 Hrun].
  apply wp_ret. split; [done|]. by econstructor.
Qed.
(** A walk over blocks that are not modified writes nothing. *)
Lemma sync_list_clean l bl :
  (forall a, a ∈ l -> modified (heap bl a) = false) ->
  sync_list bwrite_fn l bl = Some (ENOERR, bl).
Proof.
  induction l as [|a l IH]; intros Hl; [done|]. cbn [sync_list].
  unfold blib_sync_block, mbind, M_bind, get_state. cbn.
  rewrite (Hl a) by set_solver. cbn. apply IH. set_solver.
Qed.

(** ** The contract *)

(** C3: any sequence of well-formed requests to a cache in working order runs to
    its end without undefined behaviour and leaves it in working order; the
    answers and the final content are those of a flat store of bytes, so that the
    recency list, the tree, the evictions and the delayed writes are invisible.
    Errors of the device show only as errors of the requests. *)
Theorem blib_refines_store bl reqs :
  healthy bl -> Forall (request_ok bsize) reqs ->
  wp (run_requests reqs) (fun answers bl' =>
    healthy bl' /\ store_run bsize (view bl) reqs answers (view bl')) bl.
Proof. intros. by apply run_requests_spec. Qed.

(** C0: [cyg_blib_read] returns the bytes of the content at the offset, all of
    them or, when the device fails, those before the failing block; the count is
    the number of bytes stored and the content does not change. *)
Theorem blib_read_ok bl len bnum pos :
  healthy bl -> 0 <= len < 2 ^ 31 -> fits 32 bnum -> fits 32 pos ->
  wp (cyg_blib_read bread_fn bwrite_fn len bnum pos) (fun '(ret, n, buf) bl' =>
    healthy bl' /\ (forall m, view bl' m = view bl m) /\ transferred ret n len /\
    buf = bytes bsize (view bl) (bnum * bsize + pos) (Z.to_nat n)) bl.
Proof. apply read_healthy. Qed.

(** C0: [cyg_blib_write] changes exactly the bytes it reports as written. *)
Theorem blib_write_ok bl buf len bnum pos :
  healthy bl -> 0 <= len < 2 ^ 31 -> len <= Z.of_nat (length buf) ->
  fits 32 bnum -> fits 32 pos ->
  wp (cyg_blib_write bread_fn bwrite_fn buf len bnum pos) (fun '(ret, n) bl' =>
    healthy bl' /\ transferred ret n len /\
    patched bsize (view bl) (view bl') (bnum * bsize + pos) (take (Z.to_nat n) buf)) bl.
Proof. apply write_healthy. Qed.

(** C37: after a successful [cyg_blib_sync] (or [cyg_blib_delete], the same code)
    the device holds the content of the cache; whatever it returns, the content
    is unchanged. *)
Theorem blib_sync_durable bl :
  healthy bl ->
  wp (cyg_blib_sync bwrite_fn) (fun ret bl' =>
    healthy bl' /\ (forall n, view bl' n = view bl n) /\
    (ret = ENOERR -> forall n, dev_data (priv bl') n = view bl n)) bl.
Proof. apply sync_healthy. Qed.

(** C0: [cyg_blib_flush] keeps the content; on success the device holds it and no
    block is cached any more. *)
Theorem blib_flush_ok bl :
  healthy bl ->
  wp (cyg_blib_flush bwrite_fn raw_memory) (fun ret bl' =>
    healthy bl' /\ (forall n, view bl' n = view bl n) /\
    (ret = ENOERR -> (forall n, dev_data (priv bl') n = view bl n) /\ list_head bl' = [])) bl.
Proof. apply flush_spec. Qed.

(** C0: [cyg_blib_create] with a block size that is a power of two and room for a
    block gives a cache in working order with the content of the device. *)
Theorem blib_create_ok base size k d bl :
  bsize = 2 ^ k -> 1 <= k < 31 -> block_mem_size bsize <= size ->
  exists bl', cyg_blib_create bwrite_fn raw_memory d base size bsize bl = Some (ENOERR, bl') /\
    healthy bl' /\ forall n, view bl' n = dev_data d n.
Proof.
  intros Hk Hlog Hsize. pose proof (block_mem_size_bound k Hlog) as Hb.
  rewrite <- Hk in Hb. unfold sizeof_blib_block in Hb.
  assert (0 < bsize) by (rewrite Hk; lia).
  destruct (create_spec (bwrite_fn := bwrite_fn) (dev_data := dev_data) raw_length base size k d bl Hk Hlog)
    as (bl' & Hc & Hi & Hba & Hm & Hv);
    [lia|].
  exists bl'. split; [done|]. split; [|done]. unfold BlibContract.healthy. by rewrite Hba, Hm.
Qed.

(** C0: [cyg_blib_set_block_size] with a size it rejects (not a power of two, or
    one) does not leave the cache as it was: the list and the tree have been
    emptied but their blocks are not on the free list. When all blocks were in
    use, the next access dereferences a null block. *)
Theorem set_block_size_invalid bl bsize' :
  healthy bl -> free_list_head bl = [] ->
  (forall a, a ∈ list_head bl -> modified (heap bl a) = false) ->
  0 < bsize' < 2 ^ 32 -> (forall k, 1 <= k -> bsize' <> 2 ^ k) ->
  exists bl', cyg_blib_set_block_size bwrite_fn raw_memory bsize' bl = Some (- EINVAL, bl') /\
    block_size bl' = bsize' /\
    forall n rd, blib_get_block bread_fn bwrite_fn n rd bl' = None.
Proof.
  intros [Hm Hinv] Hfree Hclean Hb Hpow.
  assert (get_val_log2 bsize' = Some 0) as Hlog.
  { destruct (decide (bsize' = 1)) as [->|H1]; [done|]. apply get_val_log2_other; [done|].
    intros k Hk ->. destruct (decide (k = 0)) as [->|]; [by apply H1|].
    apply (Hpow k); [lia|done]. }
  eexists. split.
  { unfold cyg_blib_set_block_size, blib_init_cache, blib_sync, mbind, M_bind, get_state.
    rewrite sync_list_clean by done. cbn [negb Z.eqb ENOERR]. unfold modify, M_bind.
    rewrite Hlog. done. }
  split; [done|]. intros n rd.
  unfold blib_get_block, reclaim_block, alloc_block, mbind, M_bind, get_state, modify. cbn.
  by rewrite Hfree.
Qed.
End Refine.

(** C0: [get_val_log2] gives the exponent of a power of two and 0 for the other
    positive values; on 0 its loop does not end, whatever the fuel. *)
Theorem get_val_log2_ok val :
  0 <= val < 2 ^ 32 ->
  match get_val_log2 val with
  | Some k => 0 < val /\
      (val = 2 ^ k \/ k = 0 /\ forall j, 0 <= j -> val <> 2 ^ j)
  | None => val = 0 /\ forall fuel, log2_loop fuel val 0 = None
  end.
Proof.
  intros Hval. destruct (decide (val = 0)) as [->|Hne].
  { cbn. split; [done|]. intros fuel. apply log2_loop_zero. }
  destruct (log2_loop_total val) as (i & k & Hl & Hv & Hodd & Hi); [lia|].
  unfold get_val_log2. rewrite Hl. destruct (Z.eqb_spec i 1) as [->|Hi1]; cbn [negb].
  - split; [lia|]. left. lia.
  - split; [lia|]. right. split; [done|]. intros j Hj ->.
    assert (get_val_log2 (2 ^ j) = Some j) as Hg.
    { apply get_val_log2_pow. split; [done|]. apply (Z.pow_lt_mono_r_iff 2); lia. }
    unfold get_val_log2 in Hg. rewrite Hl in Hg. destruct (Z.eqb_spec i 1); [done|].
    cbn in Hg. injection Hg as <-. change (2 ^ 0) with 1 in Hv.
    assert (0 < 2 ^ Z.of_nat k) by lia. nia.
Qed.

(** The blocks of the pool lie in the memory given to [cyg_blib_create] and do
    not overlap. *)
Theorem blib_pool_layout base size k a b :
  1 <= k < 31 -> 0 <= size -> a ∈ pool_of base size (2 ^ k) -> b ∈ pool_of base size (2 ^ k) ->
  base <= a /\ a + sizeof_blib_block + 2 ^ k <= base + size /\
  (b <> a -> a + sizeof_blib_block + 2 ^ k <= b \/ b + sizeof_blib_block + 2 ^ k <= a).
Proof.
  intros Hk Hsize Ha Hb. destruct (pool_of_layout base size k a Hk Hsize Ha) as (H1 & H2 & H3).
  auto.
Qed.

(** ** A concrete device: four-byte blocks, of which block 9 is faulty *)
Definition toy_data (d : Z -> list byte) (n : Z) : list byte := take 4 (d n ++ replicate 4 0).
Definition toy_bread (d : Z -> list byte) (_ n : Z) : Z * list byte * (Z -> list byte) :=
  if n =? 9 then (EIO, replicate 4 0, d) else (ENOERR, toy_data d n, d).
Definition toy_bwrite (d : Z -> list byte) (buf : list byte) (_ n : Z) : Z * (Z -> list byte) :=
  if n =? 9 then (EIO, d) else (ENOERR, fun m => if m =? n then buf else d m).
Definition toy_memory (n a : Z) : blib_block_t := mk_block a false (replicate (Z.to_nat n) 0xa5).

Lemma toy_data_length d n : length (toy_data d n) = 4%nat.
Proof. unfold toy_data. rewrite length_take, length_app, length_replicate. lia. Qed.

#[export] Instance toy_device : BlockDevice toy_bread toy_bwrite toy_data 4.
Proof.
  unfold toy_bread, toy_bwrite. split.
  - apply toy_data_length.
  - intros d n buf d'. by case_match; intros [= <- <-].
  - intros d n ret buf d'. case_match; intros [= <- <- <-]; [done|apply toy_data_length].
  - intros d n ret buf d' m. by case_match; intros [= <- <- <-].
  - intros d n buf d' Hl. case_match; intros [= <-]. unfold toy_data.
    rewrite Z.eqb_refl, take_app_le, take_ge; rewrite ?Hl; done.
  - intros d n buf ret d' m. case_match; intros [= <- <-] Hm; [done|].
    unfold toy_data. by rewrite (proj2 (Z.eqb_neq m n)).
  - intros d n ret buf d'. by case_match; intros [= <- _ _].
  - intros d n buf ret d'. by case_match; intros [= <- _].
Qed.

Lemma toy_memory_length n a : length (data (toy_memory n a)) = Z.to_nat n.
Proof. apply length_replicate. Qed.

Definition toy_blank : @cyg_blib_t (Z -> list byte) :=
  mk_blib (fun _ => []) [] Nil 0 0 0 0 [] (mk_stat 0 0 0) (toy_memory 4).

(** The disk: block [n] holds four times [n]; the cache: room for two blocks. *)
Definition toy_disk (n : Z) : list byte := replicate 4 n.
Definition toy_cache : @cyg_blib_t (Z -> list byte) :=
  match cyg_blib_create toy_bwrite toy_memory toy_disk 1000 85 4 toy_blank with
  | Some (_, bl) => bl
  | None => toy_blank
  end.

Lemma toy_healthy : @healthy _ toy_data 4 toy_cache.
Proof.
  destruct (create_spec (bwrite_fn := toy_bwrite) (dev_data := toy_data) (bsize := 4) toy_memory_length
    1000 85 2 toy_disk toy_blank eq_refl) as (bl & Hc & Hi & Hba & Hm & _); [lia..|].
  unfold toy_cache. rewrite Hc. split; rewrite ?Hba, ?Hm; [|done].
  vm_compute. congruence.
Qed.

(** Writes across two blocks, a read with an eviction, the faulty block. *)
Definition toy_requests : list request :=
  [Write [1;2;3;4;5;6] 6 4 2; Read 4 8 3; Read 8 4 1; Sync; Flush; Bread 2 8].

Lemma toy_requests_ok : Forall (request_ok 4) toy_requests.
Proof. repeat constructor; cbn; lia. Qed.

Lemma blib_refines_store_witness :
  fst <$> run_requests (bread_fn := toy_bread) (bwrite_fn := toy_bwrite)
    (raw_memory := toy_memory) toy_requests toy_cache
  = Some [(0, 6, []); (5, 1, [8]); (0, 8, [4;1;2;3;4;5;6;6]); (0, 0, []); (0, 0, []);
          (5, 1, [8;8;8;8])] /\
  wp (run_requests (bread_fn := toy_bread) (bwrite_fn := toy_bwrite)
        (raw_memory := toy_memory) toy_requests)
     (fun answers bl' => healthy (dev_data := toy_data) (bsize := 4) bl' /\
        store_run 4 (view (dev_data := toy_data) toy_cache) toy_requests answers
          (view (dev_data := toy_data) bl')) toy_cache.
Proof.
  split; [by vm_compute|].
  apply (blib_refines_store toy_memory_length); [apply toy_healthy|apply toy_requests_ok].
Defined.

Lemma blib_read_ok_witness :
  wp (cyg_blib_read toy_bread toy_bwrite 7 2 5) (fun '(ret, n, buf) bl' =>
    healthy (dev_data := toy_data) (bsize := 4) bl' /\
    (forall m, view (dev_data := toy_data) bl' m = view (dev_data := toy_data) toy_cache m) /\
    transferred ret n 7 /\
    buf = bytes 4 (view (dev_data := toy_data) toy_cache) (2 * 4 + 5) (Z.to_nat n)) toy_cache.
Proof.
  apply blib_read_ok; [apply toy_healthy|lia|split; lia|split; lia].
Defined.

Lemma blib_write_ok_witness :
  wp (cyg_blib_write toy_bread toy_bwrite [1;2;3;4;5;6;7] 7 2 5) (fun '(ret, n) bl' =>
    healthy (dev_data := toy_data) (bsize := 4) bl' /\ transferred ret n 7 /\
    patched 4 (view (dev_data := toy_data) toy_cache) (view (dev_data := toy_data) bl')
      (2 * 4 + 5) (take (Z.to_nat n) [1;2;3;4;5;6;7])) toy_cache.
Proof.
  apply blib_write_ok; [apply toy_healthy|lia|cbn; lia|split; lia|split; lia].
Defined.

Lemma blib_sync_durable_witness :
  wp (cyg_blib_sync toy_bwrite) (fun ret bl' =>
    healthy (dev_data := toy_data) (bsize := 4) bl' /\
    (forall n, view (dev_data := toy_data) bl' n = view (dev_data := toy_data) toy_cache n) /\
    (ret = ENOERR -> forall n, toy_data (priv bl') n = view (dev_data := toy_data) toy_cache n))
    toy_cache.
Proof. apply (blib_sync_durable (bread_fn := toy_bread)). apply toy_healthy. Defined.

Lemma blib_flush_ok_witness :
  wp (cyg_blib_flush toy_bwrite toy_memory) (fun ret bl' =>
    healthy (dev_data := toy_data) (bsize := 4) bl' /\
    (forall n, view (dev_data := toy_data) bl' n = view (dev_data := toy_data) toy_cache n) /\
    (ret = ENOERR -> (forall n, toy_data (priv bl') n = view (dev_data := toy_data) toy_cache n) /\
       list_head bl' = [])) toy_cache.
Proof.
  apply (blib_flush_ok (bread_fn := toy_bread) toy_memory_length). apply toy_healthy.
Defined.

Lemma blib_create_ok_witness :
  exists bl', cyg_blib_create toy_bwrite toy_memory toy_disk 1000 85 4 toy_blank
      = Some (ENOERR, bl') /\
    healthy (dev_data := toy_data) (bsize := 4) bl' /\
    forall n, view (dev_data := toy_data) bl' n = toy_data toy_disk n.
Proof. apply (blib_create_ok toy_memory_length _ _ 2); [done|lia|by vm_compute]. Defined.

(** The cache once its two blocks are in use. *)
Definition toy_full : @cyg_blib_t (Z -> list byte) :=
  state_after (run_request (bread_fn := toy_bread) (bwrite_fn := toy_bwrite)
    (raw_memory := toy_memory) (Read 8 0 0)) toy_cache.

Lemma toy_full_healthy : healthy (dev_data := toy_data) (bsize := 4) toy_full.
Proof.
  apply (wp_state_after _ (healthy (dev_data := toy_data) (bsize := 4))). eapply wp_mono.
  - apply (run_request_spec (dev_data := toy_data) (bsize := 4) toy_memory_length).
    + apply toy_healthy.
    + repeat split; lia.
  - by intros ans bl [Hh _].
Qed.

Lemma set_block_size_invalid_witness :
  exists bl', cyg_blib_set_block_size toy_bwrite toy_memory 6 toy_full = Some (- EINVAL, bl') /\
    block_size bl' = 6 /\
    forall n rd, blib_get_block toy_bread toy_bwrite n rd bl' = None.
Proof.
  apply (set_block_size_invalid (dev_data := toy_data) (bsize := 4) toy_memory_length).
  - apply toy_full_healthy.
  - by vm_compute.
  - intros a Ha. assert (forallb (fun a => negb (modified (heap toy_full a))) (list_head toy_full)
      = true) as Hall by (by vm_compute).
    rewrite forallb_forall in Hall. apply negb_true_iff, Hall. by apply list_elem_of_In.
  - lia.
  - intros k Hk Heq. assert (k < 3) by (apply (Z.pow_lt_mono_r_iff 2); lia).
    assert (k = 1 \/ k = 2) as [-> | ->] by lia; discriminate.
Defined.

Lemma get_val_log2_ok_witness :
  match get_val_log2 512 with
  | Some k => 0 < 512 /\ (512 = 2 ^ k \/ k = 0 /\ forall j, 0 <= j -> 512 <> 2 ^ j)
  | None => 512 = 0 /\ forall fuel, log2_loop fuel 512 0 = None
  end.
Proof. apply (get_val_log2_ok 512). lia. Defined.

Lemma blib_pool_layout_witness :
  1000 <= 1040 /\ 1040 + sizeof_blib_block + 2 ^ 2 <= 1000 + 85 /\
  (1000 <> 1040 -> 1040 + sizeof_blib_block + 2 ^ 2 <= 1000 \/
     1000 + sizeof_blib_block + 2 ^ 2 <= 1040).
Proof.
  apply (blib_pool_layout 1000 85 2 1040 1000); [lia|lia|..];
    unfold pool_of, blocks_of; vm_compute; repeat constructor.
Defined.
