(* ===== verification/FatDate.v ===== *)
(** * FAT file system: time stamps (fatfs_supp.c)

    Conversion between seconds since 1970 and the packed 16-bit date and time of
    a directory entry. The Julian day arithmetic is exact on the whole range of
    a 32-bit [time_t]: the days of the range are enumerated. *)
From S2P Require Import Prelude.

Definition JD_1_JAN_1970 : Z := 2440588.

(** All the arithmetic is on [cyg_uint32]. *)
Definition jdays_to_gdate (jd : Z) : Z * Z * Z :=
  let l := u32 (jd + 68569) in
  let n := u32 (4 * l) / 146097 in
  let l := u32 (l - u32 (u32 (146097 * n) + 3) / 4) in
  let i := u32 (4000 * u32 (l + 1)) / 1461001 in
  let l := u32 (u32 (l - u32 (1461 * i) / 4) + 31) in
  let j := u32 (80 * l) / 2447 in
  let day := s32 (l - u32 (2447 * j) / 80) in
  let l := j / 11 in
  let month := s32 (u32 (j + 2) - u32 (12 * l)) in
  let year := s32 (u32 (u32 (100 * u32 (n - 49)) + i) + l) in
  (day, month, year).

(** [int] arithmetic, division truncating; the result is stored unsigned. *)
Definition gdate_to_jdays (day month year : Z) : Z :=
  u32 (day - 32075 + Z.quot (1461 * (year + 4800 + Z.quot (month - 14) 12)) 4
       + Z.quot (367 * (month - 2 - Z.quot (month - 14) 12 * 12)) 12
       - Z.quot (3 * Z.quot (year + 4900 + Z.quot (month - 14) 12) 100) 4).

(** Returns [*dos_time] and [*dos_date]. *)
Definition date_unix2dos (unix_timestamp : Z) : Z * Z :=
  let hour := Z.rem (Z.quot unix_timestamp 3600) 24 in
  let min := Z.rem (Z.quot unix_timestamp 60) 60 in
  let sec := Z.rem unix_timestamp 60 in
  let jd := u32 (JD_1_JAN_1970 + Z.quot unix_timestamp (3600 * 24)) in
  let '(day, month, year) := jdays_to_gdate jd in
  let year := if year <? 1980 then 1980 else year in
  let dtime := u16 (Z.lor (Z.lor (Z.shiftl hour 11) (Z.shiftl min 5)) (Z.shiftr sec 1)) in
  let ddate := u16 (Z.lor (Z.lor (Z.shiftl (year - 1980) 9) (Z.shiftl month 5)) day) in
  (dtime, ddate).

Definition date_dos2unix (dos_time dos_date : Z) : Z :=
  let sec := Z.land dos_time (Z.shiftl 1 5 - 1) * 2 in
  let dos_time := Z.shiftr dos_time 5 in
  let min := Z.land dos_time (Z.shiftl 1 6 - 1) in
  let dos_time := Z.shiftr dos_time 6 in
  let hour := dos_time in
  let day := Z.land dos_date (Z.shiftl 1 5 - 1) in
  let dos_date := Z.shiftr dos_date 5 in
  let month := Z.land dos_date (Z.shiftl 1 4 - 1) in
  let dos_date := Z.shiftr dos_date 4 in
  let year := dos_date + 1980 in
  let ts := u32 (gdate_to_jdays day month year - JD_1_JAN_1970) in
  u32 (u32 (u32 (ts * 24) * 3600) + u32 (sec + min * 60 + hour * 3600)).

(** ** The calendar *)

(** The divisions of the two algorithms, named; every constraint is linear. *)
Lemma gdate_of_jdays_exact jd n i j l1 l2 y day month l3 :
  2440588 <= jd <= 2490298 ->
  146097 * n <= 4 * (jd + 68569) < 146097 * n + 146097 ->
  forall a, 4 * a <= 146097 * n + 3 < 4 * a + 4 ->
  l1 = jd + 68569 - a ->
  1461001 * i <= 4000 * (l1 + 1) < 1461001 * i + 1461001 ->
  forall b, 4 * b <= 1461 * i < 4 * b + 4 ->
  l2 = l1 - b + 31 ->
  2447 * j <= 80 * l2 < 2447 * j + 2447 ->
  forall c, 80 * c <= 2447 * j < 80 * c + 80 ->
  day = l2 - c -> 11 * l3 <= j < 11 * l3 + 11 -> month = j + 2 - 12 * l3 ->
  y = 100 * (n - 49) + i + l3 ->
  1 <= day <= 31 /\ 1 <= month <= 12 /\ 1970 <= y <= 2106 /\
  (2444240 <= jd -> 1980 <= y) /\
  gdate_to_jdays day month y = jd.
Proof.
  intros Hjd Hn a Ha Hl1 Hi b Hb Hl2 Hj c Hc Hday Hl3 Hm Hy.
  assert (n = 68 \/ n = 69 \/ n = 70) as Hn2 by lia.
  assert (0 <= l1 < 36525) by lia. assert (0 <= i < 100) by lia.
  assert (31 <= l2 <= 396) by lia. assert (1 <= j <= 12) as Hj2 by lia.
  assert (l3 = 0 \/ l3 = 1) as Hl32 by lia.
  assert ((month <= 2 /\ Z.quot (month - 14) 12 = -1) \/
          (3 <= month /\ Z.quot (month - 14) 12 = 0)) as HQ
    by (clear - Hm Hj2 Hl32; Z.to_euclidean_division_equations; lia).
  unfold gdate_to_jdays. set (Q := Z.quot (month - 14) 12) in *.
  assert (0 <= month - 2 - Q * 12) by lia. assert (0 <= y + 4800 + Q) by lia.
  rewrite (Z.quot_div_nonneg (367 * (month - 2 - Q * 12)) 12),
    (Z.quot_div_nonneg (1461 * (y + 4800 + Q)) 4),
    (Z.quot_div_nonneg (y + 4900 + Q) 100) by lia.
  pose proof (div_bounds (367 * (month - 2 - Q * 12)) 12 eq_refl).
  set (R := (367 * (month - 2 - Q * 12)) / 12) in *.
  pose proof (div_bounds (1461 * (y + 4800 + Q)) 4 eq_refl).
  set (A := (1461 * (y + 4800 + Q)) / 4) in *.
  pose proof (div_bounds (y + 4900 + Q) 100 eq_refl).
  set (B := (y + 4900 + Q) / 100) in *.
  rewrite (Z.quot_div_nonneg (3 * B) 4) by lia.
  pose proof (div_bounds (3 * B) 4 eq_refl). set (C := 3 * B / 4) in *.
  clearbody A B C R Q.
  assert (1 <= day <= 31 /\ 1 <= month <= 12 /\ 1970 <= y <= 2106 /\
    (2444240 <= jd -> 1980 <= y) /\ day - 32075 + A + R - C = jd) as (Hd1 & Hm1 & Hy1 & Hy2 & ->).
  { assert (j = 1 \/ j = 2 \/ j = 3 \/ j = 4 \/ j = 5 \/ j = 6 \/ j = 7 \/ j = 8 \/ j = 9
      \/ j = 10 \/ j = 11 \/ j = 12) as Hj3 by lia.
    clear Hj2. destruct Hn2 as [->|[->| ->]], HQ as [[? ->]|[? ->]];
      repeat match goal with H : _ \/ _ |- _ => destruct H as [H|H] end; subst; lia. }
  split_and!; try done; try lia. apply uwrap_small. lia.
Qed.

Lemma jdays_to_gdate_spec jd :
  2440588 <= jd <= 2490298 ->
  exists day month year, jdays_to_gdate jd = (day, month, year) /\
    1 <= day <= 31 /\ 1 <= month <= 12 /\ 1970 <= year <= 2106 /\
    (2444240 <= jd -> 1980 <= year) /\ gdate_to_jdays day month year = jd.
Proof.
  intros Hjd. unfold jdays_to_gdate.
  rewrite (uwrap_small 32 (jd + 68569)) by lia.
  rewrite (uwrap_small 32 (4 * (jd + 68569))) by lia.
  pose proof (div_bounds (4 * (jd + 68569)) 146097 eq_refl) as Hn.
  set (n := 4 * (jd + 68569) / 146097) in *.
  rewrite (uwrap_small 32 (146097 * n)), (uwrap_small 32 (146097 * n + 3)) by lia.
  pose proof (div_bounds (146097 * n + 3) 4 eq_refl) as Ha.
  set (a := (146097 * n + 3) / 4) in *.
  rewrite (uwrap_small 32 (jd + 68569 - a)) by lia.
  set (l1 := jd + 68569 - a). assert (0 <= l1 < 36525) by lia.
  rewrite (uwrap_small 32 (l1 + 1)), (uwrap_small 32 (4000 * (l1 + 1))) by lia.
  pose proof (div_bounds (4000 * (l1 + 1)) 1461001 eq_refl) as Hi.
  set (i := 4000 * (l1 + 1) / 1461001) in *.
  rewrite (uwrap_small 32 (1461 * i)) by lia.
  pose proof (div_bounds (1461 * i) 4 eq_refl) as Hb. set (b := 1461 * i / 4) in *.
  rewrite (uwrap_small 32 (l1 - b)), (uwrap_small 32 (l1 - b + 31)) by lia.
  set (l2 := l1 - b + 31). assert (31 <= l2 <= 396) by lia.
  rewrite (uwrap_small 32 (80 * l2)) by lia.
  pose proof (div_bounds (80 * l2) 2447 eq_refl) as Hj. set (j := 80 * l2 / 2447) in *.
  rewrite (uwrap_small 32 (2447 * j)) by lia.
  pose proof (div_bounds (2447 * j) 80 eq_refl) as Hc. set (c := 2447 * j / 80) in *.
  pose proof (div_bounds j 11 eq_refl) as Hl3. set (l3 := j / 11) in *.
  rewrite (uwrap_small 32 (j + 2)), (uwrap_small 32 (12 * l3)), (uwrap_small 32 (n - 49)),
    (uwrap_small 32 (100 * (n - 49))), (uwrap_small 32 (100 * (n - 49) + i)),
    !s32_small by lia.
  do 3 eexists. split; [done|].
  by apply (gdate_of_jdays_exact jd n i j l1 l2 _ _ _ l3) with (a := a) (b := b) (c := c).
Qed.

(** ** Time stamps *)
Definition pack_time (hour min sec2 : Z) : Z := hour * 2 ^ 11 + min * 2 ^ 5 + sec2.
Definition pack_date (year month day : Z) : Z := (year - 1980) * 2 ^ 9 + month * 2 ^ 5 + day.

Lemma date_unix2dos_fields t :
  0 <= t < 2 ^ 32 ->
  exists day month year,
    jdays_to_gdate (JD_1_JAN_1970 + t / 86400) = (day, month, year) /\
    1 <= day <= 31 /\ 1 <= month <= 12 /\ 1970 <= year <= 2106 /\
    (315532800 <= t -> 1980 <= year) /\
    gdate_to_jdays day month year = JD_1_JAN_1970 + t / 86400 /\
    date_unix2dos t =
      (pack_time (t / 3600 mod 24) (t / 60 mod 60) (t mod 60 / 2),
       pack_date (Z.max 1980 year) month day).
Proof.
  intros Ht. unfold date_unix2dos, JD_1_JAN_1970. change (3600 * 24) with 86400.
  rewrite !Z.quot_div_nonneg, !Z.rem_mod_nonneg by (try apply Z.div_pos; lia).
  pose proof (div_bounds t 86400 eq_refl). set (d := t / 86400) in *.
  rewrite (uwrap_small 32 (2440588 + d)) by lia.
  destruct (jdays_to_gdate_spec (2440588 + d)) as (day & month & year & Hg & Hd & Hm & Hy & Hy2 & Hj);
    [lia|].
  exists day, month, year. rewrite Hg. split_and!; try done; try lia.
  pose proof (Z.mod_pos_bound (t / 3600) 24 eq_refl).
  pose proof (Z.mod_pos_bound (t / 60) 60 eq_refl).
  pose proof (Z.mod_pos_bound t 60 eq_refl).
  rewrite Z.shiftr_div_pow2 by lia. change (2 ^ 1) with 2.
  pose proof (div_bounds (t mod 60) 2 eq_refl).
  assert ((if year <? 1980 then 1980 else year) = Z.max 1980 year) as ->
    by (destruct (Z.ltb_spec year 1980); lia).
  unfold pack_time, pack_date.
  rewrite <- !Z.lor_assoc, (lor_shiftl_add (t / 60 mod 60) _ 5), (lor_shiftl_add month day 5),
    !lor_shiftl_add by lia.
  rewrite !uwrap_small by lia. f_equal; lia.
Qed.

Lemma date_dos2unix_fields hour min sec2 year month day :
  0 <= hour < 32 -> 0 <= min < 64 -> 0 <= sec2 < 32 ->
  1980 <= year < 2108 -> 0 <= month < 16 -> 0 <= day < 32 ->
  date_dos2unix (pack_time hour min sec2) (pack_date year month day) =
  u32 (u32 (u32 (u32 (gdate_to_jdays day month year - JD_1_JAN_1970) * 24) * 3600)
       + u32 (sec2 * 2 + min * 60 + hour * 3600)).
Proof.
  intros Hh Hmi Hs Hy Hmo Hd. unfold date_dos2unix, pack_time, pack_date.
  rewrite !land_ones_mod, !Z.shiftr_div_pow2 by lia.
  assert (forall a b n k, 0 <= b < 2 ^ n -> 0 <= a -> k = a * 2 ^ n + b -> 0 <= n ->
    k / 2 ^ n = a /\ k mod 2 ^ n = b) as Hsplit.
  { intros a b n k Hb Ha -> Hn. split.
    - symmetry. apply (Z.div_unique _ _ _ b); lia.
    - symmetry. apply (Z.mod_unique _ _ a); lia. }
  destruct (Hsplit (hour * 64 + min) sec2 5 (hour * 2 ^ 11 + min * 2 ^ 5 + sec2)) as [-> ->]; [lia..|].
  destruct (Hsplit hour min 6 (hour * 64 + min)) as [-> ->]; [lia..|].
  destruct (Hsplit ((year - 1980) * 16 + month) day 5
    ((year - 1980) * 2 ^ 9 + month * 2 ^ 5 + day)) as [-> ->]; [lia..|].
  destruct (Hsplit (year - 1980) month 4 ((year - 1980) * 16 + month)) as [-> ->]; [lia..|].
  by rewrite Z.sub_add.
Qed.

Lemma date_time_roundtrip t :
  315532800 <= t < 2 ^ 31 ->
  let '(dos_time, dos_date) := date_unix2dos t in
  fits 16 dos_time /\ fits 16 dos_date /\ date_dos2unix dos_time dos_date = t - t mod 2.
Proof.
  intros Ht.
  destruct (date_unix2dos_fields t) as (day & month & year & _ & Hd & Hm & Hy & Hy2 & Hj & ->); [lia|].
  rewrite Z.max_r by lia.
  pose proof (Z.mod_pos_bound (t / 3600) 24 eq_refl).
  pose proof (Z.mod_pos_bound (t / 60) 60 eq_refl).
  pose proof (Z.mod_pos_bound t 60 eq_refl).
  pose proof (div_bounds (t mod 60) 2 eq_refl).
  split; [unfold fits, pack_time; lia|]. split; [unfold fits, pack_date; lia|].
  rewrite date_dos2unix_fields, Hj by lia.
  replace (JD_1_JAN_1970 + t / 86400 - JD_1_JAN_1970) with (t / 86400) by lia.
  pose proof (div_bounds t 86400 eq_refl).
  assert (t mod 60 / 2 * 2 + t / 60 mod 60 * 60 + t / 3600 mod 24 * 3600
    = t - t / 86400 * 86400 - t mod 2) as ->
    by (clear -Ht; Z.to_euclidean_division_equations; lia).
  pose proof (Z.mod_pos_bound t 2 eq_refl).
  rewrite (uwrap_small 32 (t / 86400)) by lia.
  rewrite (uwrap_small 32 (t / 86400 * 24)), (uwrap_small 32 (t / 86400 * 24 * 3600)) by lia.
  assert (t - t / 86400 * 86400 - t mod 2 < 2 ^ 32) by lia.
  assert (0 <= t - t / 86400 * 86400 - t mod 2).
  { clear -Ht. Z.to_euclidean_division_equations; lia. }
  rewrite (uwrap_small 32 (t - _ - _)) by lia. rewrite uwrap_small; lia.
Qed.

(** From 1980 on, a time stamp stored in a directory entry and read back is
    the original one rounded down to an even second, for every value of the
    32-bit [time_t]; so the Julian day arithmetic is exact, leap years and the
    century rule included, and no field overflows its bits. *)
Theorem date_roundtrip t :
  315532800 <= t < 2 ^ 31 ->
  let '(dos_time, dos_date) := date_unix2dos t in
  fits 16 dos_time /\ fits 16 dos_date /\ date_dos2unix dos_time dos_date = t - t mod 2.
Proof. apply date_time_roundtrip. Qed.

(** 2024-02-29 23:59:59 *)
Lemma date_roundtrip_witness :
  let '(dos_time, dos_date) := date_unix2dos 1709251199 in
  fits 16 dos_time /\ fits 16 dos_date /\
  date_dos2unix dos_time dos_date = 1709251199 - 1709251199 mod 2.
Proof. apply (date_roundtrip 1709251199). lia. Defined.
