(* ===== verification/FatStore.v ===== *)
(** * FAT file system: the disk (fatfs_supp.c, fatfs.h)

    What the file system asks of the block library, as an interface: a library
    over some state presents an array of bytes which reads return and writes
    change. The cache of [BlibRefine] implements it. Above it, the geometry of
    a mounted disk and the functions that address the disk by absolute offset
    or by cluster. *)
From Stdlib Require Import FunctionalExtensionality.
From S2P Require Import Prelude RbTree Blib BlibSpec BlibAccess BlibContract BlibRefine.

(** ** Disk images *)
Definition image : Type := Z -> byte.

(** The [n] bytes at offset [o], and the image once [src] is written there. *)
Definition img_read (c : image) (o : Z) (n : nat) : list byte :=
  (fun i => c (o + Z.of_nat i)) <$> seq 0 n.
Definition img_write (c : image) (o : Z) (src : list byte) : image := fun x =>
  if (o <=? x) && (x <? o + Z.of_nat (length src)) then nthZ src (x - o) else c x.

Lemma img_write_byte c o src :
  (forall x, is_byte (c x)) -> Forall is_byte src -> forall x, is_byte (img_write c o src x).
Proof.
  intros Hc Hsrc x. unfold img_write. case_match; [|done]. bool_lia. unfold nthZ.
  rewrite Forall_nth in Hsrc. apply Hsrc. lia.
Qed.

(** ** The interface to the block library *)
Class BlockLibrary (B : Type) := {
  blib_read : Z -> Z -> Z -> M B (Z * Z * list byte);
  blib_write : list byte -> Z -> Z -> Z -> M B (Z * Z);
  lib_sync : M B Z;
  lib_delete : M B Z;
  blib_block_size : B -> Z;
  blib_block_size_log2 : B -> Z;
}.

(** [good] states are in working order and present [content], of which [durable]
    is on the device; the library addresses [2 ^ 32] blocks. A read does not report an end of file, which the
    file system uses for the end of a chain. *)
Class BlockStore {B} (lib : BlockLibrary B) (log2 : Z) := {
  good : B -> Prop;
  content : B -> image;
  durable : B -> image;
  store_log2 : 1 <= log2 < 31;
  store_size b : good b -> blib_block_size b = 2 ^ log2 /\ blib_block_size_log2 b = log2;
  store_byte b x : good b -> is_byte (content b x);
  store_read b len bnum pos :
    good b -> 0 <= len < 2 ^ 31 -> fits 32 bnum -> fits 32 pos ->
    bnum * 2 ^ log2 + pos + len <= 2 ^ (32 + log2) ->
    wp (blib_read len bnum pos) (fun '(ret, n, buf) b' =>
      good b' /\ content b' = content b /\ transferred ret n len /\
      buf = img_read (content b) (bnum * 2 ^ log2 + pos) (Z.to_nat n)) b;
  store_no_eof len bnum pos : returns (fun r => r.1.1 <> EEOF) (blib_read len bnum pos);
  store_write b buf len bnum pos :
    good b -> Forall is_byte buf -> 0 <= len < 2 ^ 31 -> len <= Z.of_nat (length buf) ->
    fits 32 bnum -> fits 32 pos -> bnum * 2 ^ log2 + pos + len <= 2 ^ (32 + log2) ->
    wp (blib_write buf len bnum pos) (fun '(ret, n) b' =>
      good b' /\ transferred ret n len /\
      content b' = img_write (content b) (bnum * 2 ^ log2 + pos) (take (Z.to_nat n) buf)) b;
  store_sync b :
    good b ->
    wp lib_sync (fun ret b' =>
      good b' /\ content b' = content b /\ (ret = ENOERR -> durable b' = content b)) b;
  store_delete b :
    good b ->
    wp lib_delete (fun ret b' =>
      good b' /\ content b' = content b /\ (ret = ENOERR -> durable b' = content b)) b;
}.

(** ** The block cache implements the interface *)
Section BlibStore.
Context {D : Type}.
Context {bread_fn : D -> Z -> Z -> Z * list byte * D}.
Context {bwrite_fn : D -> list byte -> Z -> Z -> Z * D}.
Context {dev_data : D -> Z -> list byte} {log2 : Z}.
Context {Dev : BlockDevice bread_fn bwrite_fn dev_data (2 ^ log2)}.
Context (log2_range : 1 <= log2 < 31).
#[local] Abbreviation blib := (@cyg_blib_t D).
#[local] Abbreviation view := (@view D dev_data).

#[local] Instance blib_library : BlockLibrary blib := {
  blib_read len bnum pos := cyg_blib_read bread_fn bwrite_fn len bnum pos;
  blib_write buf len bnum pos := cyg_blib_write bread_fn bwrite_fn buf len bnum pos;
  lib_sync := cyg_blib_sync bwrite_fn;
  lib_delete := cyg_blib_delete bwrite_fn;
  blib_block_size := block_size;
  blib_block_size_log2 := block_size_log2;
}.

Definition blib_content (bl : blib) : image := fun x =>
  if (0 <=? x) && (x <? 2 ^ (32 + log2)) then byte_at (2 ^ log2) (view bl) x else 0.

(** What the device itself holds. *)
Definition blib_durable (bl : blib) : image := fun x =>
  if (0 <=? x) && (x <? 2 ^ (32 + log2)) then byte_at (2 ^ log2) (dev_data (priv bl)) x else 0.

Definition blib_good (bl : blib) : Prop :=
  healthy (dev_data := dev_data) (bsize := 2 ^ log2) bl /\ forall x, is_byte (blib_content bl x).

Lemma span_eq : span (2 ^ log2) = 2 ^ (32 + log2).
Proof. unfold span. rewrite Z.pow_add_r; lia. Qed.

Lemma blib_content_read bl o n :
  0 <= o -> o + Z.of_nat n <= 2 ^ (32 + log2) ->
  bytes (2 ^ log2) (view bl) o n = img_read (blib_content bl) o n.
Proof.
  intros Ho Hn. unfold bytes, img_read. apply list_fmap_ext. intros i x [-> Hx]%lookup_seq.
  unfold blib_content. cbn. by rewrite (proj2 (Z.leb_le _ _)), (proj2 (Z.ltb_lt _ _)) by lia.
Qed.

Lemma blib_content_write bl bl' o src :
  0 <= o -> o + Z.of_nat (length src) <= 2 ^ (32 + log2) ->
  patched (2 ^ log2) (view bl) (view bl') o src ->
  blib_content bl' = img_write (blib_content bl) o src.
Proof.
  intros Ho Hn Hp. apply functional_extensionality. intros x. unfold blib_content, img_write.
  destruct ((0 <=? x) && (x <? 2 ^ (32 + log2))) eqn:Hx; bool_lia.
  2: { destruct (Z.leb_spec o x), (Z.ltb_spec x (o + Z.of_nat (length src))); cbn [andb]; try done.
       exfalso. apply not_true_iff_false in Hx. apply Hx.
       by rewrite (proj2 (Z.leb_le _ _)), (proj2 (Z.ltb_lt _ _)) by lia. }
  rewrite Hp. cbn. rewrite span_eq.
  destruct (Z.leb_spec o x), (Z.ltb_spec x (o + Z.of_nat (length src))); cbn [andb].
  - rewrite Z.mod_small by lia. by rewrite (proj2 (Z.ltb_lt _ _)) by lia.
  - rewrite Z.mod_small by lia. by rewrite (proj2 (Z.ltb_ge _ _)) by lia.
  - rewrite <- (Z.mod_add _ 1), Z.mod_small by lia. by rewrite (proj2 (Z.ltb_ge _ _)) by lia.
  - lia.
Qed.

Lemma blib_sync_good (bl : blib) :
  blib_good bl ->
  wp (cyg_blib_sync bwrite_fn) (fun ret bl' =>
    blib_good bl' /\ blib_content bl' = blib_content bl /\
    (ret = ENOERR -> blib_durable bl' = blib_content bl)) bl.
Proof.
  intros [Hh Hb]. eapply wp_mono; [by apply (sync_healthy bl Hh)|].
  intros ret bl' (Hh' & Hv & Hd).
  assert (blib_content bl' = blib_content bl) as Hc.
  { apply functional_extensionality. intros x. unfold blib_content, byte_at. by rewrite Hv. }
  split; [split; [done|by rewrite Hc]|]. split; [done|]. intros Hret.
  apply functional_extensionality. intros x. unfold blib_content, blib_durable, byte_at. by rewrite Hd.
Qed.

#[export] Instance blib_store : BlockStore blib_library log2.
Proof.
  refine {| good := blib_good; content := blib_content; durable := blib_durable |}; [done|..].
  - intros bl [[_ Hinv] _]. split; [apply (inv_size _ _ _ Hinv)|].
    pose proof (inv_log2 _ _ _ Hinv) as Hl. pose proof (inv_log2_range _ _ _ Hinv).
    change (block_size_log2 bl = log2). apply (Z.pow_inj_r 2); lia.
  - intros bl x [_ Hb]. apply Hb.
  - intros bl len bnum pos [Hh Hb] Hlen Hbn Hpos Hend.
    eapply wp_mono; [by apply (read_healthy bl len bnum pos Hh)|].
    intros [[ret n] buf] bl' (Hh' & Hv & Ht & ->).
    assert (blib_content bl' = blib_content bl) as Hc.
    { apply functional_extensionality. intros x. unfold blib_content, byte_at. by rewrite Hv. }
    split; [split; [done|by rewrite Hc]|]. split; [done|]. split; [done|].
    unfold fits in *. apply blib_content_read; [lia|]. destruct Ht; lia.
  - intros len bnum pos. apply (read_no_eof (dev_data := dev_data) (bsize := 2 ^ log2)).
  - intros bl buf len bnum pos [Hh Hb] Hbuf Hlen Hl Hbn Hpos Hend.
    eapply wp_mono; [by apply (write_healthy bl buf len bnum pos Hh)|].
    intros [ret n] bl' (Hh' & Ht & Hp).
    apply blib_content_write in Hp;
      [|unfold fits in *; lia|rewrite length_take; destruct Ht; lia].
    split; [split; [done|]|done]. rewrite Hp. apply img_write_byte; [done|by apply Forall_take].
  - apply blib_sync_good.
  - apply blib_sync_good.
Defined.
End BlibStore.

(** ** Little-endian fields: GET_WORD, SET_WORD, ... *)
Definition GET_BYTE (data : list byte) (off : Z) : Z := nthZ data off.
Definition GET_WORD (data : list byte) (off : Z) : Z :=
  Z.lor (nthZ data off) (Z.shiftl (nthZ data (off + 1)) 8).
Definition GET_DWORD (data : list byte) (off : Z) : Z :=
  Z.lor (Z.lor (Z.lor (nthZ data off) (Z.shiftl (nthZ data (off + 1)) 8))
           (Z.shiftl (nthZ data (off + 2)) 16))
        (Z.shiftl (nthZ data (off + 3)) 24).
Definition GET_BYTES (data : list byte) (size off : Z) : list byte :=
  take (Z.to_nat size) (drop (Z.to_nat off) data).
Definition SET_WORD (val : Z) : list byte := [Z.land val 0xff; Z.land (Z.shiftr val 8) 0xff].
Definition SET_DWORD (val : Z) : list byte :=
  [Z.land val 0xff; Z.land (Z.shiftr val 8) 0xff; Z.land (Z.shiftr val 16) 0xff;
   Z.land (Z.shiftr val 24) 0xff].

Lemma nthZ_byte l i : Forall is_byte l -> is_byte (nthZ l i).
Proof.
  intros Hl. unfold nthZ. destruct (nth_in_or_default (Z.to_nat i) l 0) as [Hin|Hd].
  - rewrite Forall_forall in Hl. apply Hl. by apply list_elem_of_In.
  - rewrite Hd. unfold is_byte. lia.
Qed.

Lemma land_255 x : Z.land x 0xff = x mod 256.
Proof. change 0xff with (Z.ones 8). by rewrite Z.land_ones. Qed.

Lemma GET_WORD_eq data off :
  Forall is_byte data -> GET_WORD data off = nthZ data off + 256 * nthZ data (off + 1).
Proof.
  intros Hd. unfold GET_WORD. pose proof (nthZ_byte data off Hd) as H.
  rewrite Z.lor_comm, lor_shiftl_add by (unfold is_byte in H; lia). lia.
Qed.

Lemma GET_DWORD_eq data off :
  Forall is_byte data ->
  GET_DWORD data off = nthZ data off + 256 * nthZ data (off + 1)
    + 65536 * nthZ data (off + 2) + 16777216 * nthZ data (off + 3).
Proof.
  intros Hd. unfold GET_DWORD.
  pose proof (nthZ_byte data off Hd) as H0. pose proof (nthZ_byte data (off + 1) Hd) as H1.
  pose proof (nthZ_byte data (off + 2) Hd) as H2. unfold is_byte in *.
  rewrite (Z.lor_comm (nthZ data off)), (lor_shiftl_add _ (nthZ data off)) by lia.
  rewrite (Z.lor_comm _ (Z.shiftl _ 16)), (lor_shiftl_add (nthZ data (off + 2))) by lia.
  rewrite (Z.lor_comm _ (Z.shiftl _ 24)), lor_shiftl_add by lia. lia.
Qed.

Lemma GET_WORD_range data off : Forall is_byte data -> fits 16 (GET_WORD data off).
Proof.
  intros Hd. rewrite GET_WORD_eq by done. pose proof (nthZ_byte data off Hd).
  pose proof (nthZ_byte data (off + 1) Hd). unfold is_byte, fits in *. lia.
Qed.

Lemma GET_DWORD_range data off : Forall is_byte data -> fits 32 (GET_DWORD data off).
Proof.
  intros Hd. rewrite GET_DWORD_eq by done. pose proof (nthZ_byte data off Hd).
  pose proof (nthZ_byte data (off + 1) Hd). pose proof (nthZ_byte data (off + 2) Hd).
  pose proof (nthZ_byte data (off + 3) Hd). unfold is_byte, fits in *. lia.
Qed.

Lemma SET_WORD_bytes v : Forall is_byte (SET_WORD v).
Proof. unfold SET_WORD, is_byte. repeat constructor; rewrite land_255; apply Z.mod_pos_bound; lia. Qed.

Lemma SET_DWORD_bytes v : Forall is_byte (SET_DWORD v).
Proof. unfold SET_DWORD, is_byte. repeat constructor; rewrite land_255; apply Z.mod_pos_bound; lia. Qed.

Lemma GET_SET_WORD v : GET_WORD (SET_WORD v) 0 = v mod 2 ^ 16.
Proof.
  rewrite GET_WORD_eq by apply SET_WORD_bytes.
  change (Z.land v 0xff + 256 * Z.land (Z.shiftr v 8) 0xff = v mod 2 ^ 16).
  rewrite !land_255, Z.shiftr_div_pow2 by lia. Z.to_euclidean_division_equations; lia.
Qed.

Lemma GET_SET_DWORD v : GET_DWORD (SET_DWORD v) 0 = v mod 2 ^ 32.
Proof.
  rewrite GET_DWORD_eq by apply SET_DWORD_bytes.
  change (Z.land v 0xff + 256 * Z.land (Z.shiftr v 8) 0xff + 65536 * Z.land (Z.shiftr v 16) 0xff
    + 16777216 * Z.land (Z.shiftr v 24) 0xff = v mod 2 ^ 32).
  rewrite !land_255, !Z.shiftr_div_pow2 by lia. Z.to_euclidean_division_equations; lia.
Qed.

(** ** Geometry *)
Inductive fatfs_type_t := FATFS_FAT12 | FATFS_FAT16 | FATFS_FAT32.

#[export] Instance fatfs_type_eq_dec : EqDecision fatfs_type_t.
Proof. solve_decision. Defined.

(** The geometry of a mounted disk: the fields [fatfs_init] fills. The block
    library [disk->blib] is the state the operations run on. *)
Record fatfs_disk_t := mk_disk {
  sector_size : Z;
  sector_size_log2 : Z;
  cluster_size : Z;
  cluster_size_log2 : Z;
  fat_tbl_pos : Z;
  fat_tbl_size : Z;
  fat_tbl_nents : Z;
  fat_tbls_num : Z;
  fat_root_dir_pos : Z;
  fat_root_dir_size : Z;
  fat_root_dir_nents : Z;
  fat_root_dir_cluster : Z;
  fat_data_pos : Z;
  fat_type : fatfs_type_t;
}.

(** The offset of a byte of a cluster. *)
Definition cluster_off (disk : fatfs_disk_t) (c p : Z) : Z :=
  fat_data_pos disk + (c - 2) * cluster_size disk + p.

Definition valid_cluster (disk : fatfs_disk_t) (c : Z) : Prop := 2 <= c < fat_tbl_nents disk.

(** The bytes a table of [n] entries takes, as [read_tentry] reads it. *)
Definition table_bytes (ty : fatfs_type_t) (n : Z) : Z :=
  match ty with
  | FATFS_FAT12 => n * 3 / 2 + 1
  | FATFS_FAT16 => n * 2
  | FATFS_FAT32 => n * 4
  end.

Definition tables_end (disk : fatfs_disk_t) : Z :=
  fat_tbl_pos disk + fat_tbls_num disk * fat_tbl_size disk.

(** The entries from this value on are special. *)
Definition entry_limit (ty : fatfs_type_t) : Z :=
  match ty with
  | FATFS_FAT12 => 0x0FF0
  | FATFS_FAT16 => 0xFFF0
  | FATFS_FAT32 => 0x0FFFFFF0
  end.

(** A consistent geometry over blocks of [2 ^ log2] bytes: the tables, the root
    directory and the clusters follow each other within reach of the library,
    and every cluster number is a regular entry. *)
Record disk_wf (log2 : Z) (disk : fatfs_disk_t) : Prop := {
  wf_log2 : 5 <= log2 <= cluster_size_log2 disk /\ cluster_size_log2 disk < 31;
  wf_cluster : cluster_size disk = 2 ^ cluster_size_log2 disk;
  wf_tbl_pos : 0 <= fat_tbl_pos disk;
  wf_tbls_num : 1 <= fat_tbls_num disk < 256;
  wf_nents : 2 <= fat_tbl_nents disk <= entry_limit (fat_type disk);
  wf_tbl_size : table_bytes (fat_type disk) (fat_tbl_nents disk) <= fat_tbl_size disk;
  wf_root : fat_type disk <> FATFS_FAT32 ->
    tables_end disk <= fat_root_dir_pos disk /\ 0 <= fat_root_dir_size disk /\
    fat_root_dir_pos disk + fat_root_dir_size disk <= fat_data_pos disk;
  wf_data : tables_end disk <= fat_data_pos disk /\
    fat_data_pos disk + cluster_size disk <= 2 ^ 32;
  wf_end : cluster_off disk (fat_tbl_nents disk) 0 <= 2 ^ (32 + log2);
}.

Lemma table_bytes_pos ty n : 2 <= n -> 4 <= table_bytes ty n.
Proof. intros. destruct ty; cbn; [|lia..]. Z.to_euclidean_division_equations; lia. Qed.

(** The offsets of the tables and of the data. *)
Lemma wf_offsets log2 disk :
  disk_wf log2 disk ->
  4 <= fat_tbl_size disk /\ fat_tbl_pos disk + fat_tbl_size disk <= tables_end disk /\
  tables_end disk <= fat_data_pos disk <= 2 ^ 32 /\ 32 <= cluster_size disk <= 2 ^ 30 /\
  (exists k, cluster_size disk = 32 * k) /\ fat_tbl_nents disk < 2 ^ 32.
Proof.
  intros []. pose proof (table_bytes_pos (fat_type disk) (fat_tbl_nents disk)).
  assert (32 * 2 ^ (cluster_size_log2 disk - 5) = cluster_size disk) as Hcs.
  { rewrite wf_cluster0. change 32 with (2 ^ 5). rewrite <- Z.pow_add_r by lia. f_equal. lia. }
  assert (2 ^ cluster_size_log2 disk <= 2 ^ 30) by (apply Z.pow_le_mono_r; lia).
  assert (0 < 2 ^ (cluster_size_log2 disk - 5)) by (apply Z.pow_pos_nonneg; lia).
  unfold tables_end in *. split_and!; try nia.
  - by exists (2 ^ (cluster_size_log2 disk - 5)).
  - unfold entry_limit in *. destruct (fat_type disk); lia.
Qed.

(** ** Access to the disk *)
Section Disk.
Context {B : Type} {lib : BlockLibrary B}.
Implicit Types (disk : fatfs_disk_t).

(** Returns [*block] and [*block_pos]. Shifting by the width of the operand or
    more, for a cluster smaller than a block, is undefined. *)
Definition cluster_to_block_pos disk (cluster cluster_pos : Z) : M B (Z * Z) :=
  bl ← get_state;
  let block_size := blib_block_size bl in
  let block_size_log2 := blib_block_size_log2 bl in
  let shift := u32 (cluster_size_log2 disk - block_size_log2) in
  if 32 <=? shift then crash
  else
    let block := u32 (Z.shiftl (u32 (cluster - 2)) shift) in
    let block_pos := u32 (fat_data_pos disk + cluster_pos) in
    if block_pos >? block_size then
      mret (u32 (block + Z.shiftr block_pos block_size_log2),
            Z.land block_pos (u32 (block_size - 1)))
    else mret (block, block_pos).

Definition disk_write (buf : list byte) (len pos : Z) : M B (Z * Z) :=
  blib_write buf len 0 pos.

Definition disk_read (len pos : Z) : M B (Z * Z * list byte) := blib_read len 0 pos.

Definition disk_cluster_write disk (buf : list byte) (len cluster cluster_pos : Z) : M B (Z * Z) :=
  '(block, block_pos) ← cluster_to_block_pos disk cluster cluster_pos;
  blib_write buf len block block_pos.

Definition disk_cluster_read disk (len cluster cluster_pos : Z) : M B (Z * Z * list byte) :=
  '(block, block_pos) ← cluster_to_block_pos disk cluster cluster_pos;
  blib_read len block block_pos.

(** What these functions promise, over any implementation of the interface. *)
Context {log2 : Z} {store : BlockStore lib log2}.
Implicit Types (b : B).

Lemma cluster_to_block_pos_spec disk b c p :
  good b -> disk_wf log2 disk -> valid_cluster disk c -> 0 <= p < cluster_size disk ->
  exists block block_pos,
    cluster_to_block_pos disk c p b = Some ((block, block_pos), b) /\
    fits 32 block /\ fits 32 block_pos /\
    block * 2 ^ log2 + block_pos = cluster_off disk c p.
Proof.
  intros Hb Hwf Hc Hp. destruct (wf_offsets _ _ Hwf) as (Hts & Hte & Hdp & Hcr & _ & Hn32).
  destruct Hwf. pose proof (store_size b Hb) as [Hs Hl]. pose proof store_log2 as Hr.
  unfold cluster_to_block_pos, mbind, M_bind, get_state. rewrite Hs, Hl.
  unfold valid_cluster, cluster_off, tables_end, fits in *.
  set (k := cluster_size_log2 disk - log2) in *.
  rewrite (uwrap_small 32 k) by lia. rewrite (proj2 (Z.leb_gt _ _)) by lia.
  assert (cluster_size disk = 2 ^ k * 2 ^ log2) as Hcs
    by (rewrite <- Z.pow_add_r, wf_cluster0 by lia; f_equal; lia).
  assert (2 ^ (32 + log2) = 2 ^ 32 * 2 ^ log2) as Hsp by (rewrite Z.pow_add_r; lia).
  assert (0 < 2 ^ k) by lia. assert (2 ^ 1 <= 2 ^ log2) by (apply Z.pow_le_mono_r; lia).
  assert (fat_data_pos disk + (c - 2) * cluster_size disk + cluster_size disk <= 2 ^ 32 * 2 ^ log2)
    as Hend.
  { assert ((c - 1) * cluster_size disk <= (fat_tbl_nents disk - 2) * cluster_size disk)
      by (apply Z.mul_le_mono_nonneg_r; lia). lia. }
  assert ((c - 2) * 2 ^ k + 2 ^ k <= 2 ^ 32) as Hbk.
  { apply (Z.mul_le_mono_pos_r _ _ (2 ^ log2)); [lia|]. rewrite Hcs in Hend. lia. }
  rewrite (uwrap_small 32 (c - 2)), Z.shiftl_mul_pow2 by lia.
  rewrite (uwrap_small 32 ((c - 2) * 2 ^ k)) by (split; [apply Z.mul_nonneg_nonneg|]; lia).
  rewrite (uwrap_small 32 (fat_data_pos disk + p)) by lia.
  destruct (Z.gtb_spec (fat_data_pos disk + p) (2 ^ log2)).
  - rewrite (uwrap_small 32 (2 ^ log2 - 1)) by
      (assert (2 ^ log2 <= 2 ^ 31) by (apply Z.pow_le_mono_r; lia); lia).
    rewrite Z.sub_1_r, <- Z.ones_equiv, Z.land_ones, Z.shiftr_div_pow2 by lia.
    pose proof (Z.div_mod (fat_data_pos disk + p) (2 ^ log2)).
    pose proof (Z.mod_pos_bound (fat_data_pos disk + p) (2 ^ log2)).
    set (q := (fat_data_pos disk + p) / 2 ^ log2) in *.
    set (r := (fat_data_pos disk + p) mod 2 ^ log2) in *.
    assert (2 ^ log2 <= 2 ^ 30) by (apply Z.pow_le_mono_r; lia).
    assert (0 <= q) by (apply Z.div_pos; lia).
    assert ((c - 2) * 2 ^ k + q < 2 ^ 32).
    { apply (Z.mul_lt_mono_pos_r (2 ^ log2)); [lia|].
      assert (((c - 2) * 2 ^ k + q) * 2 ^ log2 = (c - 2) * cluster_size disk
        + (fat_data_pos disk + p - r)) as -> by (rewrite Hcs; lia). lia. }
    assert (0 <= (c - 2) * 2 ^ k) by (apply Z.mul_nonneg_nonneg; lia).
    rewrite uwrap_small by lia. do 2 eexists. split; [done|]. split; [lia|]. split; [lia|].
    rewrite Hcs. lia.
  - do 2 eexists. split; [done|].
    split; [split; [apply Z.mul_nonneg_nonneg|]; lia|]. split; [lia|]. rewrite Hcs. lia.
Qed.

Lemma disk_read_spec b len pos :
  good b -> 0 <= len < 2 ^ 31 -> 0 <= pos -> pos + len <= 2 ^ 32 -> fits 32 pos ->
  wp (disk_read len pos) (fun '(ret, n, buf) b' =>
    good b' /\ content b' = content b /\ transferred ret n len /\
    buf = img_read (content b) pos (Z.to_nat n)) b.
Proof.
  intros Hb Hlen Hpos Hend Hf. unfold disk_read. apply (store_read b len 0 pos); try done.
  pose proof store_log2. assert (2 ^ 32 <= 2 ^ (32 + log2)) by (apply Z.pow_le_mono_r; lia). lia.
Qed.

Lemma disk_write_spec b buf len pos :
  good b -> Forall is_byte buf -> 0 <= len < 2 ^ 31 -> len <= Z.of_nat (length buf) ->
  0 <= pos -> pos + len <= 2 ^ 32 -> fits 32 pos ->
  wp (disk_write buf len pos) (fun '(ret, n) b' =>
    good b' /\ transferred ret n len /\
    content b' = img_write (content b) pos (take (Z.to_nat n) buf)) b.
Proof.
  intros Hb Hbuf Hlen Hl Hpos Hend Hf. unfold disk_write.
  apply (store_write b buf len 0 pos); try done.
  pose proof store_log2. assert (2 ^ 32 <= 2 ^ (32 + log2)) by (apply Z.pow_le_mono_r; lia). lia.
Qed.

Lemma cluster_within disk c p :
  disk_wf log2 disk -> valid_cluster disk c -> p <= cluster_size disk ->
  cluster_off disk c p <= 2 ^ (32 + log2).
Proof.
  intros [] Hc Hp. unfold cluster_off, valid_cluster in *. assert (0 < cluster_size disk) by lia. nia.
Qed.

Lemma disk_cluster_read_spec disk b len c p :
  good b -> disk_wf log2 disk -> valid_cluster disk c -> 0 <= p < cluster_size disk ->
  0 <= len -> p + len <= cluster_size disk ->
  wp (disk_cluster_read disk len c p) (fun '(ret, n, buf) b' =>
    good b' /\ content b' = content b /\ transferred ret n len /\
    buf = img_read (content b) (cluster_off disk c p) (Z.to_nat n)) b.
Proof.
  intros Hb Hwf Hc Hp Hlen Hend.
  destruct (cluster_to_block_pos_spec disk b c p Hb Hwf Hc Hp) as (blk & bp & Hrun & Hf & Hf' & Heq).
  unfold disk_cluster_read. apply wp_bind. exists (blk, bp), b. split; [done|].
  rewrite <- Heq. pose proof (wf_log2 _ _ Hwf). pose proof (wf_cluster _ _ Hwf).
  assert (2 ^ cluster_size_log2 disk <= 2 ^ 30) by (apply Z.pow_le_mono_r; lia).
  apply (store_read b len blk bp); try done; [lia|].
  rewrite Heq. pose proof (cluster_within disk c (p + len) Hwf Hc). unfold cluster_off in *. lia.
Qed.

Lemma disk_cluster_write_spec disk b buf len c p :
  good b -> disk_wf log2 disk -> valid_cluster disk c -> 0 <= p < cluster_size disk ->
  Forall is_byte buf -> 0 <= len -> len <= Z.of_nat (length buf) -> p + len <= cluster_size disk ->
  wp (disk_cluster_write disk buf len c p) (fun '(ret, n) b' =>
    good b' /\ transferred ret n len /\
    content b' = img_write (content b) (cluster_off disk c p) (take (Z.to_nat n) buf)) b.
Proof.
  intros Hb Hwf Hc Hp Hbuf Hlen Hl Hend.
  destruct (cluster_to_block_pos_spec disk b c p Hb Hwf Hc Hp) as (blk & bp & Hrun & Hf & Hf' & Heq).
  unfold disk_cluster_write. apply wp_bind. exists (blk, bp), b. split; [done|].
  rewrite <- Heq. pose proof (wf_log2 _ _ Hwf). pose proof (wf_cluster _ _ Hwf).
  assert (2 ^ cluster_size_log2 disk <= 2 ^ 30) by (apply Z.pow_le_mono_r; lia).
  apply (store_write b buf len blk bp); try done; [lia|].
  rewrite Heq. pose proof (cluster_within disk c (p + len) Hwf Hc). unfold cluster_off in *. lia.
Qed.
End Disk.
