(* ===== verification/FatTable.v ===== *)
(** * FAT file system: the allocation table and cluster chains (fatfs_supp.c)

    [read_tentry] and [write_tentry] make the table an array of entries, kept in
    several copies, in which FAT12 packs two entries in three bytes. Above it:
    allocation, chains of clusters, their extension and release. *)
From S2P Require Import Prelude Blib BlibContract FatStore.

(** TENTRY_REGULAR, ... *)
Inductive tentry_type :=
  TENTRY_REGULAR | TENTRY_FREE | TENTRY_LAST | TENTRY_RESERVED | TENTRY_BAD.

#[export] Instance tentry_type_eq_dec : EqDecision tentry_type.
Proof. solve_decision. Defined.

(** [cluster_opts_t], a set of flags. *)
Definition CO_NONE : Z := 0x00.
Definition CO_EXTEND : Z := 0x01.
Definition CO_ERASE_NEW : Z := 0x02.
Definition CO_MARK_LAST : Z := 0x04.
Definition has_opt (opts flag : Z) : bool := negb (Z.land opts flag =? 0).

Record fatfs_data_pos_t := mk_pos {
  cluster : Z;
  cluster_snum : Z;
  cluster_pos : Z;
}.

Definition set_cluster c (pos : fatfs_data_pos_t) :=
  mk_pos c (cluster_snum pos) (cluster_pos pos).
Definition set_cluster_pos p (pos : fatfs_data_pos_t) :=
  mk_pos (cluster pos) (cluster_snum pos) p.

(** ** Entries *)
Definition get_tentry_type (disk : fatfs_disk_t) (entry : Z) : tentry_type :=
  match fat_type disk with
  | FATFS_FAT12 =>
      if entry <? 0x0FF0 then if 0x0000 =? entry then TENTRY_FREE else TENTRY_REGULAR
      else if entry >=? 0x0FF8 then TENTRY_LAST
      else if 0x0FF7 =? entry then TENTRY_BAD
      else TENTRY_RESERVED
  | FATFS_FAT16 =>
      if entry <? 0xFFF0 then if 0x0000 =? entry then TENTRY_FREE else TENTRY_REGULAR
      else if entry >=? 0xFFF8 then TENTRY_LAST
      else if 0xFFF7 =? entry then TENTRY_BAD
      else TENTRY_RESERVED
  | FATFS_FAT32 =>
      if entry <? 0x0FFFFFF0 then if 0x00000000 =? entry then TENTRY_FREE else TENTRY_REGULAR
      else if entry >=? 0x0FFFFFF8 then TENTRY_LAST
      else if 0x0FFFFFF7 =? entry then TENTRY_BAD
      else TENTRY_RESERVED
  end.

(** [None] is the failed assertion on a regular entry. *)
Definition set_tentry_type (disk : fatfs_disk_t) (type : tentry_type) : option Z :=
  match fat_type disk, type with
  | FATFS_FAT12, TENTRY_FREE => Some 0x0000
  | FATFS_FAT12, TENTRY_LAST => Some 0x0FF8
  | FATFS_FAT12, TENTRY_RESERVED => Some 0x0FF0
  | FATFS_FAT12, TENTRY_BAD => Some 0x0FF7
  | FATFS_FAT16, TENTRY_FREE => Some 0x0000
  | FATFS_FAT16, TENTRY_LAST => Some 0xFFF8
  | FATFS_FAT16, TENTRY_RESERVED => Some 0xFFF0
  | FATFS_FAT16, TENTRY_BAD => Some 0xFFF7
  | FATFS_FAT32, TENTRY_FREE => Some 0x00000000
  | FATFS_FAT32, TENTRY_LAST => Some 0x0FFFFFF8
  | FATFS_FAT32, TENTRY_RESERVED => Some 0x0FFFFFF0
  | FATFS_FAT32, TENTRY_BAD => Some 0x0FFFFFF7
  | _, TENTRY_REGULAR => None
  end.

Definition get_tentry_next_cluster (disk : fatfs_disk_t) (entry : Z) : Z := entry.
Definition set_tentry_next_cluster (disk : fatfs_disk_t) (next_cluster : Z) : Z := next_cluster.

Section Table.
Context {B : Type} {lib : BlockLibrary B}.
Implicit Types (disk : fatfs_disk_t) (pos : fatfs_data_pos_t).

(** Returns the error and, without error, [*entry]. *)
Definition read_tentry disk (num : Z) : M B (Z * option Z) :=
  match fat_type disk with
  | FATFS_FAT12 =>
      let num3 := u32 (num * 3) in
      let pos := u32 (fat_tbl_pos disk + Z.shiftr num3 1) in
      '(err, _, data) ← disk_read 2 pos;
      if negb (err =? ENOERR) then mret (err, None)
      else
        let e := GET_WORD data 0x00 in
        mret (ENOERR, Some (if 0 =? Z.land num3 1 then Z.land e 0x0FFF
                            else Z.land (Z.shiftr e 4) 0x0FFF))
  | FATFS_FAT16 =>
      let pos := u32 (fat_tbl_pos disk + u32 (Z.shiftl num 1)) in
      '(err, _, data) ← disk_read 2 pos;
      if negb (err =? ENOERR) then mret (err, None)
      else mret (ENOERR, Some (GET_WORD data 0x00))
  | FATFS_FAT32 =>
      let pos := u32 (fat_tbl_pos disk + u32 (Z.shiftl num 2)) in
      '(err, _, data) ← disk_read 4 pos;
      if negb (err =? ENOERR) then mret (err, None)
      else mret (ENOERR, Some (Z.land (GET_DWORD data 0x00) 0x0FFFFFFF))
  end.

(** [for (i = 0; i < disk->fat_tbls_num; i++)] *)
Fixpoint write_copies disk (i : nat) (data : list byte) (len pos : Z) : M B Z :=
  match i with
  | O => mret ENOERR
  | S i =>
      '(err, len) ← disk_write data len pos;
      if negb (err =? ENOERR) then mret err
      else write_copies disk i data len (u32 (pos + fat_tbl_size disk))
  end.

Definition write_tentry disk (num entry : Z) : M B Z :=
  let copies := Z.to_nat (fat_tbls_num disk) in
  match fat_type disk with
  | FATFS_FAT12 =>
      let num3 := u32 (num * 3) in
      let pos := u32 (fat_tbl_pos disk + Z.shiftr num3 1) in
      '(err, len, data) ← disk_read 2 pos;
      if negb (err =? ENOERR) then mret err
      else
        let e := GET_WORD data 0x00 in
        let e := if 0 =? Z.land num3 1 then Z.lor (Z.land e 0xF000) (Z.land entry 0x0FFF)
                 else Z.lor (Z.land e 0x000F) (Z.shiftl (Z.land entry 0x0FFF) 4) in
        write_copies disk copies (SET_WORD e) len pos
  | FATFS_FAT16 =>
      let pos := u32 (fat_tbl_pos disk + u32 (Z.shiftl num 1)) in
      write_copies disk copies (SET_WORD entry) 2 pos
  | FATFS_FAT32 =>
      let pos := u32 (fat_tbl_pos disk + u32 (Z.shiftl num 2)) in
      '(err, len, data) ← disk_read 4 pos;
      if negb (err =? ENOERR) then mret err
      else
        let e := Z.lor (Z.land (GET_DWORD data 0x00) 0xF0000000) entry in
        write_copies disk copies (SET_DWORD e) len pos
  end.

(** ** Clusters *)
Fixpoint erase_loop disk (i : nat) (data : list byte) (len c pos : Z) : M B Z :=
  match i with
  | O => mret ENOERR
  | S i =>
      '(err, len) ← disk_cluster_write disk data len c pos;
      if negb (err =? ENOERR) then mret err
      else erase_loop disk i data len c (u32 (pos + len))
  end.

Definition erase_cluster disk (c : Z) : M B Z :=
  erase_loop disk (Z.to_nat (Z.shiftr (cluster_size disk) 5)) (replicate 32 0) 32 c 0.

Definition mark_cluster disk (c : Z) (type : tentry_type) : M B Z :=
  match set_tentry_type disk type with
  | Some tentry => write_tentry disk c tentry
  | None => crash
  end.

Definition link_cluster disk (cluster1 cluster2 : Z) : M B Z :=
  write_tentry disk cluster1 (set_tentry_next_cluster disk cluster2).

(** The loop of [find_next_free_cluster]; returns the error and [*free_cluster]. *)
Fixpoint free_loop disk (fuel : nat) (start_cluster c opts : Z) : M B (Z * Z) :=
  if c =? start_cluster then mret (ENOSPC, 0)
  else
    match fuel with
    | O => crash
    | S fuel =>
        if (c >=? fat_tbl_nents disk) && (2 >=? start_cluster) then mret (ENOSPC, 0)
        else
          let c := if c >=? fat_tbl_nents disk then 2 else c in
          '(err, tentry) ← read_tentry disk c;
          match tentry with
          | None => mret (err, 0)
          | Some tentry =>
              if decide (get_tentry_type disk tentry = TENTRY_FREE) then
                err ← (if has_opt opts CO_MARK_LAST then mark_cluster disk c TENTRY_LAST
                       else mret err);
                err ← (if (err =? ENOERR) && has_opt opts CO_ERASE_NEW then erase_cluster disk c
                       else mret err);
                mret (err, c)
              else free_loop disk fuel start_cluster (u32 (c + 1)) opts
          end
    end.

Definition find_next_free_cluster disk (start_cluster opts : Z) : M B (Z * Z) :=
  let c := if start_cluster <? 2 then 2 else u32 (start_cluster + 1) in
  free_loop disk (S (Z.to_nat (fat_tbl_nents disk))) start_cluster c opts.

(** Returns the error and, without error, [*new_cluster]. *)
Definition find_and_append_cluster disk (c opts : Z) : M B (Z * Z) :=
  '(err, free_cluster) ← find_next_free_cluster disk c (Z.lor opts CO_MARK_LAST);
  if negb (err =? ENOERR) then mret (err, 0)
  else
    err ← link_cluster disk c free_cluster;
    if negb (err =? ENOERR) then mret (err, 0)
    else mret (ENOERR, free_cluster).

(** The walk of [find_nth_cluster0]. [inl] is the [return err] that leaves the
    position alone, [inr] ends at the label [out]. *)
Fixpoint walk_chain disk (n : nat) (c snum : Z) : M B (Z + Z * Z * Z) :=
  match n with
  | O => mret (inr (ENOERR, c, snum))
  | S n =>
      '(err, tentry) ← read_tentry disk c;
      match tentry with
      | None => mret (inl err)
      | Some tentry =>
          match get_tentry_type disk tentry with
          | TENTRY_REGULAR =>
              walk_chain disk n (get_tentry_next_cluster disk tentry) (u32 (snum + 1))
          | TENTRY_LAST => mret (inr (EEOF, c, snum))
          | _ => mret (inr (EIO, c, snum))
          end
      end
  end.

Definition find_nth_cluster0 disk pos (n : Z) : M B (Z * fatfs_data_pos_t) :=
  if cluster_snum pos =? n then mret (ENOERR, pos)
  else
    r ← walk_chain disk (Z.to_nat (u32 (n - cluster_snum pos))) (cluster pos) (cluster_snum pos);
    match r with
    | inl err => mret (err, pos)
    | inr (err, c, snum) => mret (err, mk_pos c snum (cluster_pos pos))
    end.

Definition find_nth_cluster disk pos (n opts : Z) : M B (Z * fatfs_data_pos_t) :=
  '(err, pos) ← find_nth_cluster0 disk pos n;
  if negb (err =? EEOF) || negb (has_opt opts CO_EXTEND) then mret (err, pos)
  else if cluster_snum pos =? u32 (n - 1) then
    '(err, new_cluster) ← find_and_append_cluster disk (cluster pos) opts;
    if negb (err =? ENOERR) then mret (err, pos)
    else mret (err, mk_pos new_cluster (u32 (cluster_snum pos + 1)) 0)
  else mret (err, pos).

Definition get_next_cluster disk pos (opts : Z) : M B (Z * fatfs_data_pos_t) :=
  '(err, pos) ← find_nth_cluster disk pos (u32 (cluster_snum pos + 1)) opts;
  if negb (err =? ENOERR) then mret (err, pos)
  else mret (ENOERR, set_cluster_pos 0 pos).

Definition get_position_from_off disk (first_cluster offset : Z) pos (opts : Z) :
    M B (Z * fatfs_data_pos_t) :=
  let new_cluster_pos := Z.land offset (u32 (cluster_size disk - 1)) in
  let n := Z.shiftr offset (cluster_size_log2 disk) in
  let new_pos :=
    if n <? cluster_snum pos then mk_pos first_cluster 0 new_cluster_pos
    else mk_pos (cluster pos) (cluster_snum pos) new_cluster_pos in
  '(err, new_pos) ← find_nth_cluster disk new_pos n opts;
  mret (err, if EEOF =? err then set_cluster_pos (cluster_size disk) new_pos else new_pos).

(** [while (!last)] *)
Fixpoint free_chain_loop disk (fuel : nat) (c : Z) : M B Z :=
  match fuel with
  | O => crash
  | S fuel =>
      '(err, tentry) ← read_tentry disk c;
      match tentry with
      | None => mret err
      | Some tentry =>
          let type := get_tentry_type disk tentry in
          if decide (type = TENTRY_LAST) then
            mark_cluster disk c TENTRY_FREE
          else if decide (type = TENTRY_REGULAR) then
            let next_c := get_tentry_next_cluster disk tentry in
            err ← mark_cluster disk c TENTRY_FREE;
            if negb (err =? ENOERR) then mret err else free_chain_loop disk fuel next_c
          else mret EIO
      end
  end.

(** Each turn frees a cluster, so that a chain within the table needs no more
    turns than the table has entries. *)
Definition free_cluster_chain disk (start_cluster : Z) : M B Z :=
  free_chain_loop disk (S (Z.to_nat (fat_tbl_nents disk))) start_cluster.

(** [for (c = 2; c < disk->fat_tbl_nents; c++)] *)
Fixpoint usage_loop disk (n : nat) (c nfree : Z) : M B (Z * Z) :=
  match n with
  | O => mret (ENOERR, nfree)
  | S n =>
      '(err, tentry) ← read_tentry disk c;
      match tentry with
      | None => mret (err, 0)
      | Some tentry =>
          usage_loop disk n (c + 1)
            (if decide (get_tentry_type disk tentry = TENTRY_FREE) then u32 (nfree + 1) else nfree)
      end
  end.

(** Returns the error, [*total_clusters] and [*free_clusters]. *)
Definition fatfs_get_disk_usage disk : M B (Z * Z * Z) :=
  '(err, nfree) ← usage_loop disk (Z.to_nat (fat_tbl_nents disk - 2)) 2 0;
  if negb (err =? ENOERR) then mret (err, 0, 0)
  else mret (ENOERR, u32 (fat_tbl_nents disk - 2), nfree).
End Table.
