(* ===== verification/FatTableSpec.v ===== *)
(** * FAT file system: what the table and the chains promise

    The table as a function from cluster numbers to entries; the functions of
    [FatTable] against it, over any implementation of the block store. *)
From Stdlib Require Import FunctionalExtensionality.
From S2P Require Import Prelude Blib BlibContract FatStore FatTable.

(** ** Images *)
Lemma img_read_length c o n : length (img_read c o n) = n.
Proof. unfold img_read. by rewrite length_fmap, length_seq. Qed.

Lemma img_read_nth c o n i : 0 <= i < Z.of_nat n -> nthZ (img_read c o n) i = c (o + i).
Proof.
  intros Hi. unfold nthZ, img_read. rewrite nth_lookup, list_lookup_fmap.
  rewrite lookup_seq_lt by lia. cbn. f_equal. lia.
Qed.

Lemma img_read_bytes c o n : (forall x, is_byte (c x)) -> Forall is_byte (img_read c o n).
Proof. intros Hc. unfold img_read. apply Forall_fmap, Forall_true. intros x. apply Hc. Qed.

Lemma img_write_out c o src x :
  ~ (o <= x < o + Z.of_nat (length src)) -> img_write c o src x = c x.
Proof.
  intros Hx. unfold img_write.
  destruct (Z.leb_spec o x), (Z.ltb_spec x (o + Z.of_nat (length src))); cbn; done || lia.
Qed.

Lemma img_write_in c o src i :
  0 <= i < Z.of_nat (length src) -> img_write c o src (o + i) = nthZ src i.
Proof.
  intros Hi. unfold img_write. rewrite (proj2 (Z.leb_le _ _)), (proj2 (Z.ltb_lt _ _)) by lia.
  cbn. f_equal. lia.
Qed.

Lemma img_write_nil c o : img_write c o [] = c.
Proof. apply functional_extensionality. intros x. apply img_write_out. cbn. lia. Qed.

(** [src] written in [n] tables of [size] bytes, at offset [o] of each. *)
Fixpoint img_copies (n : nat) (c : image) (o size : Z) (src : list byte) : image :=
  match n with
  | O => c
  | S n => img_copies n (img_write c o src) (o + size) size src
  end.

Lemma img_copies_at n : forall c t size o src k i,
  0 <= o -> o + Z.of_nat (length src) <= size -> 0 <= i < size ->
  img_copies n c (t + o) size src (t + k * size + i) =
    if decide (0 <= k < Z.of_nat n /\ o <= i < o + Z.of_nat (length src))
    then nthZ src (i - o) else c (t + k * size + i).
Proof.
  induction n as [|n IH]; intros c t size o src k i Ho Hlen Hi; cbn [img_copies].
  { rewrite decide_False by lia. done. }
  replace (t + o + size) with (t + size + o) by lia.
  replace (t + k * size + i) with ((t + size) + (k - 1) * size + i) by lia.
  rewrite IH by done. replace ((t + size) + (k - 1) * size + i) with (t + k * size + i) by lia.
  destruct (decide (0 <= k - 1 < Z.of_nat n /\ o <= i < o + Z.of_nat (length src))).
  - rewrite decide_True by lia. done.
  - destruct (decide (k = 0)) as [->|Hk].
    + destruct (decide (o <= i < o + Z.of_nat (length src))).
      * rewrite decide_True by lia. replace (t + 0 * size + i) with (t + o + (i - o)) by lia.
        apply img_write_in. lia.
      * rewrite decide_False by lia. apply img_write_out. lia.
    + rewrite decide_False by lia. apply img_write_out.
      assert (k <= -1 \/ 1 <= k) as [Hk'|Hk'] by lia; nia.
Qed.

Lemma img_copies_byte n : forall c o size src,
  (forall x, is_byte (c x)) -> Forall is_byte src ->
  forall x, is_byte (img_copies n c o size src x).
Proof.
  induction n as [|n IH]; intros c o size src Hc Hsrc; cbn [img_copies]; [done|].
  apply IH; [|done]. by apply img_write_byte.
Qed.

(** ** The table as an array *)
Section Table.
Context (disk : fatfs_disk_t).
Implicit Types (c : image) (num e : Z).

(** The offset of an entry in its table, and its width in bytes. *)
Definition entry_off num : Z :=
  match fat_type disk with
  | FATFS_FAT12 => num * 3 / 2
  | FATFS_FAT16 => num * 2
  | FATFS_FAT32 => num * 4
  end.
Definition entry_width : Z :=
  match fat_type disk with FATFS_FAT32 => 4 | _ => 2 end.

Definition entry_bits : Z :=
  match fat_type disk with FATFS_FAT12 => 12 | FATFS_FAT16 => 16 | FATFS_FAT32 => 28 end.

(** The entry in the bytes read for it, and those bytes with a new entry. *)
Definition decode_entry num (data : list byte) : Z :=
  match fat_type disk with
  | FATFS_FAT12 =>
      let e := GET_WORD data 0 in if num mod 2 =? 0 then e mod 4096 else e / 16
  | FATFS_FAT16 => GET_WORD data 0
  | FATFS_FAT32 => GET_DWORD data 0 mod 2 ^ 28
  end.

Definition encode_entry num (data : list byte) e : list byte :=
  match fat_type disk with
  | FATFS_FAT12 =>
      let w := GET_WORD data 0 in
      SET_WORD (if num mod 2 =? 0 then w / 4096 * 4096 + e else w mod 16 + 16 * e)
  | FATFS_FAT16 => SET_WORD e
  | FATFS_FAT32 => SET_DWORD (GET_DWORD data 0 / 2 ^ 28 * 2 ^ 28 + e)
  end.

Definition entry_bytes c num : list byte :=
  img_read c (fat_tbl_pos disk + entry_off num) (Z.to_nat entry_width).

(** The entry of cluster [num] in the first table of an image. *)
Definition tbl_get c num : Z := decode_entry num (entry_bytes c num).

(** An image in which all the tables have [e] for [num]. *)
Definition tbl_set c num e : image :=
  img_copies (Z.to_nat (fat_tbls_num disk)) c (fat_tbl_pos disk + entry_off num)
    (fat_tbl_size disk) (encode_entry num (entry_bytes c num) e).

(** Nothing outside the tables differs. *)
Definition same_data c c' : Prop :=
  forall x, ~ (fat_tbl_pos disk <= x < tables_end disk) -> c' x = c x.

(** All the tables hold the same bytes. *)
Definition mirrored c : Prop := forall k i,
  0 <= k < fat_tbls_num disk -> 0 <= i < fat_tbl_size disk ->
  c (fat_tbl_pos disk + k * fat_tbl_size disk + i) = c (fat_tbl_pos disk + i).

Lemma same_data_refl c : same_data c c.
Proof. done. Qed.

Lemma same_data_trans c1 c2 c3 : same_data c1 c2 -> same_data c2 c3 -> same_data c1 c3.
Proof. intros H1 H2 x Hx. by rewrite H2, H1. Qed.

Context {log2 : Z} (Hwf : disk_wf log2 disk).

Lemma entry_off_bounds num :
  0 <= num < fat_tbl_nents disk ->
  0 <= entry_off num /\ entry_off num + entry_width <= fat_tbl_size disk.
Proof.
  intros Hn. pose proof (wf_tbl_size _ _ Hwf) as Ht. unfold entry_off, entry_width, table_bytes in *.
  destruct (fat_type disk); [|lia..]. clear Hwf. Z.to_euclidean_division_equations; lia.
Qed.

Lemma encode_length num data e : length (encode_entry num data e) = Z.to_nat entry_width.
Proof. unfold encode_entry, entry_width. by destruct (fat_type disk). Qed.

(** A byte of the tables after [tbl_set]. *)
Lemma tbl_set_at c num e k i :
  0 <= num < fat_tbl_nents disk -> 0 <= i < fat_tbl_size disk ->
  tbl_set c num e (fat_tbl_pos disk + k * fat_tbl_size disk + i) =
    if decide (0 <= k < fat_tbls_num disk /\ entry_off num <= i < entry_off num + entry_width)
    then nthZ (encode_entry num (entry_bytes c num) e) (i - entry_off num)
    else c (fat_tbl_pos disk + k * fat_tbl_size disk + i).
Proof.
  intros Hn Hi. pose proof (entry_off_bounds num Hn) as [H0 H1].
  pose proof (wf_tbls_num _ _ Hwf).
  assert (Z.of_nat (Z.to_nat entry_width) = entry_width) as Hw
    by (unfold entry_width; destruct (fat_type disk); lia).
  unfold tbl_set. rewrite img_copies_at; rewrite ?encode_length, ?Hw, ?Z2Nat.id by lia; done || lia.
Qed.

Lemma tbl_set_same_data c num e : 0 <= num < fat_tbl_nents disk -> same_data c (tbl_set c num e).
Proof.
  intros Hn x Hx. destruct (wf_offsets _ _ Hwf) as (Hs & _). unfold tables_end in Hx.
  assert (exists k i, x = fat_tbl_pos disk + k * fat_tbl_size disk + i /\
    0 <= i < fat_tbl_size disk) as (k & i & -> & Hi).
  { exists ((x - fat_tbl_pos disk) / fat_tbl_size disk), ((x - fat_tbl_pos disk) mod fat_tbl_size disk).
    pose proof (Z.div_mod (x - fat_tbl_pos disk) (fat_tbl_size disk)).
    split; [lia|apply Z.mod_pos_bound; lia]. }
  rewrite tbl_set_at by done. rewrite decide_False; [done|]. intros [Hk _]. apply Hx. nia.
Qed.

Lemma tbl_set_mirrored c num e :
  0 <= num < fat_tbl_nents disk -> mirrored c -> mirrored (tbl_set c num e).
Proof.
  intros Hn Hm k i Hk Hi. pose proof (wf_tbls_num _ _ Hwf).
  rewrite tbl_set_at by done.
  replace (fat_tbl_pos disk + i) with (fat_tbl_pos disk + 0 * fat_tbl_size disk + i) by lia.
  rewrite tbl_set_at by done. rewrite Z.mul_0_l, Z.add_0_r.
  destruct (decide (entry_off num <= i < entry_off num + entry_width)).
  - rewrite !decide_True by lia. done.
  - rewrite !decide_False by lia. by apply Hm.
Qed.

(** A byte of the first table after [tbl_set]. *)
Lemma tbl_set_byte c num e j :
  0 <= num < fat_tbl_nents disk -> 0 <= j < fat_tbl_size disk ->
  tbl_set c num e (fat_tbl_pos disk + j) =
    if decide (entry_off num <= j < entry_off num + entry_width)
    then nthZ (encode_entry num (entry_bytes c num) e) (j - entry_off num)
    else c (fat_tbl_pos disk + j).
Proof.
  intros Hn Hj. pose proof (wf_tbls_num _ _ Hwf).
  replace (fat_tbl_pos disk + j) with (fat_tbl_pos disk + 0 * fat_tbl_size disk + j) by lia.
  rewrite tbl_set_at by done.
  destruct (decide (entry_off num <= j < entry_off num + entry_width)).
  - by rewrite decide_True by lia.
  - by rewrite decide_False by lia.
Qed.

Lemma get_word_read c o : (forall x, is_byte (c x)) -> GET_WORD (img_read c o 2) 0 = c o + 256 * c (o + 1).
Proof.
  intros Hc. rewrite GET_WORD_eq by by apply img_read_bytes.
  rewrite !img_read_nth by lia. by rewrite Z.add_0_r.
Qed.

Lemma get_dword_read c o :
  (forall x, is_byte (c x)) ->
  GET_DWORD (img_read c o 4) 0 = c o + 256 * c (o + 1) + 65536 * c (o + 2) + 16777216 * c (o + 3).
Proof.
  intros Hc. rewrite GET_DWORD_eq by by apply img_read_bytes.
  rewrite !img_read_nth by lia. by rewrite Z.add_0_r.
Qed.

Lemma nth_set_word v : nthZ (SET_WORD v) 0 = v mod 256 /\ nthZ (SET_WORD v) 1 = v / 256 mod 256.
Proof.
  change (Z.land v 0xff = v mod 256 /\ Z.land (Z.shiftr v 8) 0xff = v / 256 mod 256).
  by rewrite !land_255, Z.shiftr_div_pow2.
Qed.

Lemma nth_set_dword v :
  nthZ (SET_DWORD v) 0 = v mod 256 /\ nthZ (SET_DWORD v) 1 = v / 256 mod 256 /\
  nthZ (SET_DWORD v) 2 = v / 65536 mod 256 /\ nthZ (SET_DWORD v) 3 = v / 16777216 mod 256.
Proof.
  change (Z.land v 0xff = v mod 256 /\ Z.land (Z.shiftr v 8) 0xff = v / 256 mod 256 /\
    Z.land (Z.shiftr v 16) 0xff = v / 65536 mod 256 /\
    Z.land (Z.shiftr v 24) 0xff = v / 16777216 mod 256).
  by rewrite !land_255, !Z.shiftr_div_pow2.
Qed.

(** The bytes of an entry, from those of the image. *)
Lemma tbl_get_12 c num :
  fat_type disk = FATFS_FAT12 -> (forall x, is_byte (c x)) ->
  tbl_get c num =
    let o := fat_tbl_pos disk + num * 3 / 2 in
    if num mod 2 =? 0 then c o + 256 * (c (o + 1) mod 16) else c o / 16 + 16 * c (o + 1).
Proof.
  intros Hty Hc. unfold tbl_get, decode_entry, entry_bytes, entry_off, entry_width. rewrite Hty.
  change (Z.to_nat 2) with 2%nat. rewrite get_word_read by done. cbn zeta.
  set (o := fat_tbl_pos disk + num * 3 / 2). pose proof (Hc o) as H0. pose proof (Hc (o + 1)) as H1.
  unfold is_byte in *. case_match; Z.to_euclidean_division_equations; lia.
Qed.

Lemma tbl_get_32 c num :
  fat_type disk = FATFS_FAT32 -> (forall x, is_byte (c x)) ->
  tbl_get c num =
    let o := fat_tbl_pos disk + num * 4 in
    (c o + 256 * c (o + 1) + 65536 * c (o + 2) + 16777216 * c (o + 3)) mod 2 ^ 28.
Proof.
  intros Hty Hc. unfold tbl_get, decode_entry, entry_bytes, entry_off, entry_width. rewrite Hty.
  change (Z.to_nat 4) with 4%nat. by rewrite get_dword_read.
Qed.

Lemma tbl_get_16 c num :
  fat_type disk = FATFS_FAT16 -> (forall x, is_byte (c x)) ->
  tbl_get c num = let o := fat_tbl_pos disk + num * 2 in c o + 256 * c (o + 1).
Proof.
  intros Hty Hc. unfold tbl_get, decode_entry, entry_bytes, entry_off, entry_width. rewrite Hty.
  change (Z.to_nat 2) with 2%nat. by rewrite get_word_read.
Qed.

Lemma tbl_get_range c num : (forall x, is_byte (c x)) -> 0 <= tbl_get c num < 2 ^ entry_bits.
Proof.
  intros Hc. unfold entry_bits. destruct (fat_type disk) eqn:Hty.
  - rewrite tbl_get_12 by done. cbn zeta. set (o := fat_tbl_pos disk + num * 3 / 2).
    pose proof (Hc o). pose proof (Hc (o + 1)). unfold is_byte in *.
    case_match; Z.to_euclidean_division_equations; lia.
  - rewrite tbl_get_16 by done. cbn zeta. set (o := fat_tbl_pos disk + num * 2).
    pose proof (Hc o). pose proof (Hc (o + 1)). unfold is_byte in *. lia.
  - rewrite tbl_get_32 by done. apply Z.mod_pos_bound. lia.
Qed.

Lemma encode_bytes num data e : Forall is_byte (encode_entry num data e).
Proof.
  unfold encode_entry. destruct (fat_type disk); apply SET_WORD_bytes || apply SET_DWORD_bytes.
Qed.

Lemma tbl_set_is_byte c num e :
  (forall x, is_byte (c x)) -> forall x, is_byte (tbl_set c num e x).
Proof.
  intros Hc. apply img_copies_byte; [done|apply encode_bytes].
Qed.

(** The bytes of the first table after [tbl_set]: those of the entry, and others. *)
Lemma tbl_set_entry c num e i :
  0 <= num < fat_tbl_nents disk -> 0 <= i < entry_width ->
  tbl_set c num e (fat_tbl_pos disk + entry_off num + i)
  = nthZ (encode_entry num (entry_bytes c num) e) i.
Proof.
  intros Hn Hi. pose proof (entry_off_bounds num Hn).
  rewrite <- Z.add_assoc, tbl_set_byte, decide_True by lia. f_equal. lia.
Qed.

Lemma tbl_set_other c num e j :
  0 <= num < fat_tbl_nents disk -> 0 <= j < fat_tbl_size disk ->
  j < entry_off num \/ entry_off num + entry_width <= j ->
  tbl_set c num e (fat_tbl_pos disk + j) = c (fat_tbl_pos disk + j).
Proof. intros Hn Hj Ho. rewrite tbl_set_byte, decide_False by lia. done. Qed.

Lemma half3 n : exists m, (n = 2 * m /\ n * 3 / 2 = 3 * m /\ n mod 2 = 0) \/
  (n = 2 * m + 1 /\ n * 3 / 2 = 3 * m + 1 /\ n mod 2 = 1).
Proof.
  exists (n / 2). pose proof (Z.mod_pos_bound n 2). pose proof (Z.div_mod n 2).
  destruct (decide (n mod 2 = 0)); [left|right];
    (split; [lia|]; split; [|lia]); Z.to_euclidean_division_equations; lia.
Qed.

Lemma tbl_get_set_12 c num e num' :
  fat_type disk = FATFS_FAT12 -> (forall x, is_byte (c x)) -> 0 <= e < 2 ^ 12 ->
  0 <= num < fat_tbl_nents disk -> 0 <= num' < fat_tbl_nents disk ->
  tbl_get (tbl_set c num e) num' = if decide (num' = num) then e else tbl_get c num'.
Proof.
  intros Hty Hc He Hn Hn'. pose proof (tbl_set_is_byte c num e Hc) as Hc'.
  pose proof (entry_off_bounds num' Hn') as Hb'.
  pose proof (fun i H => tbl_set_entry c num e i Hn H) as Hin.
  pose proof (fun j H => tbl_set_other c num e j Hn H) as Hout.
  rewrite !tbl_get_12 by done. cbn zeta.
  unfold entry_off, entry_width, encode_entry, entry_bytes, entry_off, entry_width in *.
  rewrite Hty in *. change (Z.to_nat 2) with 2%nat in *. rewrite get_word_read in Hin by done.
  destruct (half3 num) as (m & Hm), (half3 num') as (m' & Hm').
  set (T := fat_tbl_pos disk) in *. set (c' := tbl_set c num e) in *.
  pose proof (Hin 0 ltac:(lia)) as I0. pose proof (Hin 1 ltac:(lia)) as I1.
  pose proof (fun j H Hj => Hout j H Hj) as O0. clear Hin Hout Hc'.
  rewrite Z.add_0_r in I0. rewrite <- !Z.add_assoc in *.
  pose proof (Hc (T + num * 3 / 2)) as B0. pose proof (Hc (T + (num * 3 / 2 + 1))) as B1.
  unfold is_byte in *. clear Hc.
  rewrite (proj1 (nth_set_word _)) in I0. rewrite (proj2 (nth_set_word _)) in I1.
  destruct Hm as [(-> & Hq & Hp)|(-> & Hq & Hp)], Hm' as [(-> & Hq' & Hp')|(-> & Hq' & Hp')];
    rewrite Hq, Hp in *; rewrite Hq', Hp' in *; cbn [Z.eqb] in *;
    (destruct (decide (m' = m)) as [->|Hne];
      [first [rewrite decide_True by lia|rewrite decide_False by lia]
      |rewrite decide_False by lia; rewrite !O0 by lia; done]).
  - rewrite I0, I1. clear - He B0 B1. Z.to_euclidean_division_equations; lia.
  - rewrite I1, O0 by lia. clear - He B0 B1. Z.to_euclidean_division_equations; lia.
  - rewrite (O0 (3 * m)), I0 by lia. clear - He B0 B1. Z.to_euclidean_division_equations; lia.
  - rewrite I0, I1. clear - He B0 B1. Z.to_euclidean_division_equations; lia.
Qed.

Lemma tbl_get_set c num e num' :
  (forall x, is_byte (c x)) -> 0 <= e < 2 ^ entry_bits ->
  0 <= num < fat_tbl_nents disk -> 0 <= num' < fat_tbl_nents disk ->
  tbl_get (tbl_set c num e) num' = if decide (num' = num) then e else tbl_get c num'.
Proof.
  intros Hc He Hn Hn'. destruct (fat_type disk) eqn:Hty.
  { unfold entry_bits in He. rewrite Hty in He. by apply tbl_get_set_12. }
  all: pose proof (tbl_set_is_byte c num e Hc) as Hc';
    pose proof (entry_off_bounds num' Hn') as Hb';
    pose proof (fun i H => tbl_set_entry c num e i Hn H) as Hin;
    pose proof (fun j H => tbl_set_other c num e j Hn H) as Hout.
  - rewrite !tbl_get_16 by done. cbn zeta.
    unfold entry_bits, entry_off, entry_width, encode_entry in *. rewrite Hty in *.
    destruct (decide (num' = num)) as [->|Hne].
    + rewrite <- (Z.add_0_r (_ + num * 2)) at 1. rewrite !Hin by lia.
      destruct (nth_set_word e) as [-> ->]. clear - He. Z.to_euclidean_division_equations; lia.
    + rewrite <- Z.add_assoc, !Hout by lia. done.
  - rewrite !tbl_get_32 by done. cbn zeta.
    unfold entry_bits, entry_off, entry_width, encode_entry in *. rewrite Hty in *.
    destruct (decide (num' = num)) as [->|Hne].
    + rewrite <- (Z.add_0_r (_ + num * 4)) at 1. rewrite !Hin by lia.
      destruct (nth_set_dword (GET_DWORD (entry_bytes c num) 0 / 2 ^ 28 * 2 ^ 28 + e))
        as (-> & -> & -> & ->).
      generalize (GET_DWORD_range (entry_bytes c num) 0 (img_read_bytes _ _ _ Hc)).
      generalize (GET_DWORD (entry_bytes c num) 0). unfold fits. clear - He. intros w Hw.
      Z.to_euclidean_division_equations; lia.
    + rewrite <- !Z.add_assoc, !Hout by lia. done.
Qed.
End Table.

(** The masks of [write_tentry]. *)
Lemma word_with_entry (even : bool) w e :
  fits 16 w -> 0 <= e < 2 ^ 12 ->
  (if even then Z.lor (Z.land w 0xF000) (Z.land e 0x0FFF)
   else Z.lor (Z.land w 0x000F) (Z.shiftl (Z.land e 0x0FFF) 4))
  = if even then w / 4096 * 4096 + e else w mod 16 + 16 * e.
Proof.
  intros Hw He. unfold fits in Hw. change 0x0FFF with (Z.ones 12). change 0x000F with (Z.ones 4).
  rewrite !Z.land_ones, (Z.mod_small e) by lia. destruct even.
  - assert (Z.land w 0xF000 = Z.shiftl (w / 2 ^ 12) 12) as ->.
    { apply Z.bits_inj'. intros n Hn. change 0xF000 with (Z.shiftl (Z.ones 4) 12).
      rewrite Z.land_spec. destruct (Z.ltb_spec n 12).
      - rewrite !Z.shiftl_spec_low by lia. apply andb_false_r.
      - rewrite !Z.shiftl_spec_high, <- Z.shiftr_div_pow2, Z.shiftr_spec, Z.sub_add by lia.
        destruct (Z.ltb_spec (n - 12) 4).
        + rewrite Z.ones_spec_low by lia. apply andb_true_r.
        + by rewrite (testbit_high 16 w) by lia. }
    rewrite lor_shiftl_add by lia. done.
  - rewrite Z.lor_comm, lor_shiftl_add by (pose proof (Z.mod_pos_bound w (2 ^ 4)); lia).
    change (2 ^ 4) with 16. lia.
Qed.

Lemma dword_with_entry w e :
  fits 32 w -> 0 <= e < 2 ^ 28 -> Z.lor (Z.land w 0xF0000000) e = w / 2 ^ 28 * 2 ^ 28 + e.
Proof.
  intros Hw He. unfold fits in Hw.
  assert (Z.land w 0xF0000000 = Z.shiftl (w / 2 ^ 28) 28) as ->.
  { apply Z.bits_inj'. intros n Hn. change 0xF0000000 with (Z.shiftl (Z.ones 4) 28).
    rewrite Z.land_spec. destruct (Z.ltb_spec n 28).
    - rewrite !Z.shiftl_spec_low by lia. apply andb_false_r.
    - rewrite !Z.shiftl_spec_high, <- Z.shiftr_div_pow2, Z.shiftr_spec, Z.sub_add by lia.
      destruct (Z.ltb_spec (n - 28) 4).
      + rewrite Z.ones_spec_low by lia. apply andb_true_r.
      + by rewrite (testbit_high 32 w) by lia. }
  by rewrite lor_shiftl_add by lia.
Qed.

(** ** The functions on entries *)
Section Entries.
Context {B : Type} {lib : BlockLibrary B} {log2 : Z} {store : BlockStore lib log2}.
Context (disk : fatfs_disk_t) (Hwf : disk_wf log2 disk).
Implicit Types (b : B) (num e : Z).

Lemma entry_pos_bounds num :
  0 <= num < fat_tbl_nents disk ->
  0 <= fat_tbl_pos disk + entry_off disk num /\
  fat_tbl_pos disk + entry_off disk num + entry_width disk + 32 <= 2 ^ 32 /\
  0 <= num < 2 ^ 28.
Proof.
  intros Hn. pose proof (entry_off_bounds disk Hwf num Hn).
  destruct (wf_offsets _ _ Hwf) as (H1 & H2 & H3 & H4 & _). pose proof (wf_tbl_pos _ _ Hwf).
  pose proof (wf_data _ _ Hwf). pose proof (wf_nents _ _ Hwf).
  assert (entry_limit (fat_type disk) <= 2 ^ 28) by (destruct (fat_type disk); cbn; lia). lia.
Qed.

(** The offset as the code computes it. *)
Lemma entry_pos_code num :
  0 <= num < fat_tbl_nents disk ->
  match fat_type disk with
  | FATFS_FAT12 => u32 (fat_tbl_pos disk + Z.shiftr (u32 (num * 3)) 1)
  | FATFS_FAT16 => u32 (fat_tbl_pos disk + u32 (Z.shiftl num 1))
  | FATFS_FAT32 => u32 (fat_tbl_pos disk + u32 (Z.shiftl num 2))
  end = fat_tbl_pos disk + entry_off disk num.
Proof.
  intros Hn. pose proof (entry_pos_bounds num Hn) as (H1 & H2 & H3).
  unfold entry_off, entry_width in *. destruct (fat_type disk).
  - rewrite (uwrap_small 32 (num * 3)), Z.shiftr_div_pow2 by lia. change (2 ^ 1) with 2.
    apply uwrap_small. lia.
  - rewrite Z.shiftl_mul_pow2, (uwrap_small 32 (num * _)), uwrap_small by lia. done.
  - rewrite Z.shiftl_mul_pow2, (uwrap_small 32 (num * _)), uwrap_small by lia. done.
Qed.

Lemma parity_code num : 0 <= num < 2 ^ 28 -> (0 =? Z.land (u32 (num * 3)) 1) = (num mod 2 =? 0).
Proof.
  intros Hn. rewrite uwrap_small by lia. change 1 with (Z.ones 1).
  rewrite Z.land_ones by lia. change (2 ^ 1) with 2. rewrite Z.eqb_sym. f_equal.
  Z.to_euclidean_division_equations; lia.
Qed.

Lemma entry_read_spec b num :
  good b -> 0 <= num < fat_tbl_nents disk ->
  wp (disk_read (entry_width disk) (fat_tbl_pos disk + entry_off disk num))
    (fun '(err, n, data) b' => good b' /\ content b' = content b /\
      (err = ENOERR -> n = entry_width disk /\ data = entry_bytes disk (content b) num)) b.
Proof.
  intros Hb Hn. pose proof (entry_pos_bounds num Hn) as (H1 & H2 & H3).
  assert (2 <= entry_width disk <= 4) as Hw by (unfold entry_width; destruct (fat_type disk); lia).
  eapply wp_mono; [apply (disk_read_spec b); [done|lia..|unfold fits; lia]|].
  intros [[err n] data] b' (Hb' & Hc & Ht & ->). split; [done|]. split; [done|].
  intros ->. destruct Ht as [[_ ->]|[? _]]; [|done]. done.
Qed.

Lemma read_tentry_spec b num :
  good b -> 0 <= num < fat_tbl_nents disk ->
  wp (read_tentry disk num) (fun '(err, e) b' =>
    good b' /\ content b' = content b /\
    ((err = ENOERR /\ e = Some (tbl_get disk (content b) num)) \/ (err <> ENOERR /\ e = None))) b.
Proof.
  intros Hb Hn. pose proof (entry_read_spec b num Hb Hn) as Hrd.
  pose proof (entry_pos_code num Hn) as Hpos. destruct (entry_pos_bounds num Hn) as (_ & _ & Hn28).
  unfold read_tentry, tbl_get, decode_entry, entry_width in *.
  destruct (fat_type disk) eqn:Hty; cbv zeta; rewrite Hpos; apply wp_bind;
    (eapply wp_mono; [apply Hrd|]); intros [[err n] data] b' (Hb' & Hc & Hok); cbn beta iota;
    (destruct (Z.eqb_spec err ENOERR) as [->|Herr]; cbn [negb]; apply wp_ret;
      (split; [done|]; split; [done|]); [left; split; [done|]|by right]);
    destruct Hok as [_ ->]; try done.
  - rewrite parity_code by done.
    pose proof (GET_WORD_range (entry_bytes disk (content b) num) 0
      (img_read_bytes _ _ _ (fun x => store_byte b x Hb))) as Hr.
    change 0x0FFF with (Z.ones 12). rewrite !Z.land_ones, Z.shiftr_div_pow2 by lia.
    destruct (num mod 2 =? 0); do 2 f_equal. unfold fits in Hr.
    apply Z.mod_small. split; [apply Z.div_pos; lia|apply Z.div_lt_upper_bound; lia].
  - change 0x0FFFFFFF with (Z.ones 28). by rewrite Z.land_ones by lia.
Qed.

(** Outside [lo, hi) nothing changes. *)
Definition frame (lo hi : Z) (c c' : image) : Prop := forall x, ~ (lo <= x < hi) -> c' x = c x.

Lemma img_write_frame lo hi c o src :
  lo <= o -> o + Z.of_nat (length src) <= hi -> frame lo hi c (img_write c o src).
Proof. intros Hlo Hhi x Hx. apply img_write_out. lia. Qed.

Lemma write_copies_spec data n : forall b pos lo hi,
  good b -> Forall is_byte data -> 0 < Z.of_nat (length data) < 2 ^ 31 -> 0 <= lo <= pos ->
  hi <= 2 ^ 32 -> 0 <= fat_tbl_size disk ->
  (n = O \/ pos + Z.of_nat (n - 1) * fat_tbl_size disk + Z.of_nat (length data) <= hi) ->
  wp (write_copies disk n data (Z.of_nat (length data)) pos) (fun err b' =>
    good b' /\ frame lo hi (content b) (content b') /\
    (err = ENOERR -> content b' = img_copies n (content b) pos (fat_tbl_size disk) data)) b.
Proof.
  induction n as [|n IH]; intros b pos lo hi Hb Hd Hlen Hlo Hhi Hsz Hend; cbn [write_copies].
  { by apply wp_ret. }
  destruct Hend as [|Hend]; [done|]. apply wp_bind.
  eapply wp_mono; [apply (disk_write_spec b); [done|done|lia|lia|lia| |unfold fits]; nia|].
  intros [err n'] b1 (Hb1 & Ht & Hc1). cbn beta iota.
  assert (frame lo hi (content b) (content b1)) as Hf1.
  { rewrite Hc1. apply img_write_frame; [lia|]. rewrite length_take. destruct Ht; nia. }
  destruct (Z.eqb_spec err ENOERR) as [->|Herr]; cbn [negb].
  2: { apply wp_ret. split_and!; done. }
  destruct Ht as [[_ ->]|[? _]]; [|done]. rewrite take_ge in Hc1 by lia.
  destruct n as [|n].
  { cbn [write_copies]. apply wp_ret. split_and!; done. }
  rewrite (uwrap_small 32) by nia.
  eapply wp_mono; [apply (IH b1 _ lo hi); [done|done|lia|lia|lia|lia|right; nia]|].
  intros err b2 (Hb2 & Hf2 & Hok). split; [done|]. split.
  - intros x Hx. by rewrite Hf2, Hf1.
  - intros Herr. rewrite (Hok Herr), Hc1. done.
Qed.

(** [write_copies] with the bytes of a changed entry. *)
Lemma write_entry_spec b num e data :
  good b -> 0 <= num < fat_tbl_nents disk ->
  data = encode_entry disk num (entry_bytes disk (content b) num) e ->
  wp (write_copies disk (Z.to_nat (fat_tbls_num disk)) data (entry_width disk)
        (fat_tbl_pos disk + entry_off disk num)) (fun err b' =>
    good b' /\ same_data disk (content b) (content b') /\
    (err = ENOERR -> content b' = tbl_set disk (content b) num e)) b.
Proof.
  intros Hb Hn ->. pose proof (encode_length disk num (entry_bytes disk (content b) num) e) as Hl.
  assert (2 <= entry_width disk <= 4) as Hw by (unfold entry_width; destruct (fat_type disk); lia).
  assert (entry_width disk = Z.of_nat (length
    (encode_entry disk num (entry_bytes disk (content b) num) e))) as -> by lia.
  pose proof (entry_off_bounds disk Hwf num Hn). pose proof (wf_tbl_pos _ _ Hwf).
  pose proof (wf_tbls_num _ _ Hwf). destruct (wf_offsets _ _ Hwf) as (H4 & _ & H5 & _).
  apply (write_copies_spec _ _ b _ (fat_tbl_pos disk) (tables_end disk));
    [done|apply encode_bytes|lia..|right]. unfold tables_end.
  rewrite Nat2Z.inj_sub, Z2Nat.id, Hl by lia. nia.
Qed.

Lemma write_tentry_spec b num e :
  good b -> 0 <= num < fat_tbl_nents disk -> 0 <= e < 2 ^ entry_bits disk ->
  wp (write_tentry disk num e) (fun err b' =>
    good b' /\ same_data disk (content b) (content b') /\
    (err = ENOERR -> content b' = tbl_set disk (content b) num e)) b.
Proof.
  intros Hb Hn He. pose proof (entry_read_spec b num Hb Hn) as Hrd.
  pose proof (fun b data H => write_entry_spec b num e data H Hn) as Hwr.
  pose proof (entry_pos_code num Hn) as Hpos. destruct (entry_pos_bounds num Hn) as (_ & _ & Hn28).
  unfold write_tentry, encode_entry, entry_width, entry_bits in *.
  destruct (fat_type disk) eqn:Hty; cbv zeta; rewrite Hpos; [|by apply Hwr|]; apply wp_bind;
    (eapply wp_mono; [apply Hrd|]); intros [[err n] data] b' (Hb' & Hc & Hok); cbn beta iota;
    (destruct (Z.eqb_spec err ENOERR) as [->|Herr]; cbn [negb];
      [|apply wp_ret; split_and!; [done|by rewrite Hc|done]]);
    destruct Hok as [-> ->]; try done; rewrite <- Hc in *.
  - apply Hwr; [done|]. f_equal. rewrite parity_code by done.
    pose proof (GET_WORD_range (entry_bytes disk (content b') num) 0
      (img_read_bytes _ _ _ (fun x => store_byte b' x Hb'))) as Hr.
    by apply word_with_entry.
  - apply Hwr; [done|]. f_equal.
    pose proof (GET_DWORD_range (entry_bytes disk (content b') num) 0
      (img_read_bytes _ _ _ (fun x => store_byte b' x Hb'))) as Hr.
    by apply dword_with_entry.
Qed.
End Entries.
