(* ===== verification/FatChain.v ===== *)
(** * FAT file system: allocation and chains, what they promise

    Chains of clusters as lists over the table of [FatTableSpec]: finding the
    n-th cluster, claiming a free cluster, extending a chain, freeing one. *)
From S2P Require Import Prelude Blib BlibContract FatStore FatTable FatTableSpec.

(** ** Chains *)
Section Chain.
Context (disk : fatfs_disk_t).
Implicit Types (f : Z -> Z) (c : Z) (l : list Z).

(** The clusters of a file, from [c] to the entry marked last. *)
Inductive chain f : Z -> list Z -> Prop :=
  | chain_last c :
      valid_cluster disk c -> get_tentry_type disk (f c) = TENTRY_LAST -> chain f c [c]
  | chain_next c l :
      valid_cluster disk c -> get_tentry_type disk (f c) = TENTRY_REGULAR ->
      chain f (f c) l -> chain f c (c :: l).

Lemma chain_cons f c l : chain f c l -> exists l', l = c :: l'.
Proof. inversion 1; eauto. Qed.

Lemma chain_valid f c l : chain f c l -> Forall (valid_cluster disk) l.
Proof. induction 1; apply Forall_cons; split; done. Qed.

Lemma chain_functional f c l1 l2 : chain f c l1 -> chain f c l2 -> l1 = l2.
Proof.
  intros H1. revert l2. induction H1 as [c Hv Ht|c l Hv Ht Hc IH]; inversion 1; subst.
  - done.
  - congruence.
  - congruence.
  - f_equal. by apply IH.
Qed.

Lemma chain_ext f f' c l : chain f c l -> (forall x, x ∈ l -> f' x = f x) -> chain f' c l.
Proof.
  induction 1 as [c Hv Ht|c l Hv Ht Hc IH]; intros Heq.
  - constructor; [done|]. rewrite Heq; [done|by left].
  - constructor; [done|rewrite Heq; [done|by left]|].
    rewrite Heq by by left. apply IH. intros x Hx. apply Heq. by right.
Qed.

(** From the middle of a chain on. *)
Lemma chain_drop f c l i x : chain f c l -> l !! i = Some x -> chain f x (drop i l).
Proof.
  intros H. revert i. induction H as [c Hv Ht|c l Hv Ht Hc IH]; intros [|i]; cbn; intros Hi.
  - simplify_eq. by constructor.
  - done.
  - simplify_eq. by constructor.
  - by apply IH.
Qed.

(** A chain ends, so it does not pass twice at the same place. *)
Lemma chain_nodup f c l : chain f c l -> NoDup l.
Proof.
  intros H. apply NoDup_alt. intros i j x Hi Hj.
  pose proof (chain_functional _ _ _ _ (chain_drop _ _ _ _ _ H Hi) (chain_drop _ _ _ _ _ H Hj)) as Hd.
  apply (f_equal length) in Hd. rewrite !length_drop in Hd.
  apply lookup_lt_Some in Hi, Hj. lia.
Qed.

Lemma nodup_valid_length l :
  NoDup l -> Forall (valid_cluster disk) l -> (length l <= Z.to_nat (fat_tbl_nents disk))%nat.
Proof.
  intros Hnd Hv. rewrite <- (length_seqZ 0 (fat_tbl_nents disk)).
  apply submseteq_length, NoDup_submseteq; [done|]. intros x Hx.
  rewrite Forall_forall in Hv. specialize (Hv x Hx). unfold valid_cluster in Hv.
  apply elem_of_seqZ. lia.
Qed.

Lemma chain_length f c l : chain f c l -> (length l <= Z.to_nat (fat_tbl_nents disk))%nat.
Proof. intros H. apply nodup_valid_length; [by eapply chain_nodup|by eapply chain_valid]. Qed.

(** The last cluster, and the chain once a cluster is linked after it. *)
Lemma chain_last_entry f c l x :
  chain f c l -> list.last l = Some x -> get_tentry_type disk (f x) = TENTRY_LAST.
Proof.
  induction 1 as [c Hv Ht|c l Hv Ht Hc IH]; cbn; [by intros [= <-]|].
  destruct (chain_cons _ _ _ Hc) as [l' ->]. apply IH.
Qed.

Lemma chain_append f f' c l x n :
  chain f c l -> list.last l = Some x -> valid_cluster disk n -> n ∉ l ->
  f' x = n -> get_tentry_type disk n = TENTRY_REGULAR ->
  get_tentry_type disk (f' n) = TENTRY_LAST ->
  (forall y, y ∈ l -> y <> x -> f' y = f y) ->
  chain f' c (l ++ [n]).
Proof.
  intros H. pose proof (chain_nodup _ _ _ H) as Hnd. revert Hnd.
  induction H as [c Hv Ht|c l Hv Ht Hc IH]; intros Hnd Hlast Hvn Hn Hx Hreg Hlst Hsame.
  - cbn in Hlast. injection Hlast as ->. cbn. apply chain_next; [done|by rewrite Hx|].
    rewrite Hx. by constructor.
  - apply NoDup_cons in Hnd as [Hcl Hnd].
    destruct (chain_cons _ _ _ Hc) as [l' Hl'].
    assert (list.last l = Some x) as Hlast' by (by rewrite Hl' in Hlast |- *).
    assert (c <> x) as Hcx.
    { intros ->. apply Hcl. by apply last_Some_elem_of. }
    cbn. rewrite not_elem_of_cons in Hn. apply chain_next; [done|rewrite Hsame; [done|by left|done]|].
    rewrite Hsame by (by left || done).
    apply IH; try done; [tauto|]. intros y Hy. apply Hsame. by right.
Qed.
End Chain.

(** ** The states of a disk *)
Section Disk.
Context {B : Type} {lib : BlockLibrary B} {log2 : Z} {store : BlockStore lib log2}.
Context (disk : fatfs_disk_t) (Hwf : disk_wf log2 disk).
Implicit Types (b : B) (c num e : Z) (l : list Z).

Definition fat b num : Z := tbl_get disk (content b) num.

(** Entry numbers, clusters 0 and 1 included. *)
Definition entry_index num : Prop := 0 <= num < fat_tbl_nents disk.

Definition in_tables (x : Z) : Prop := fat_tbl_pos disk <= x < tables_end disk.
Definition in_cluster c (x : Z) : Prop :=
  cluster_off disk c 0 <= x < cluster_off disk c (cluster_size disk).

(** Only the places [R] of the image may differ. *)
Definition only_changes (R : Z -> Prop) b b' : Prop :=
  forall x, ~ R x -> content b' x = content b x.

Lemma only_changes_trans (R : Z -> Prop) b1 b2 b3 :
  only_changes R b1 b2 -> only_changes R b2 b3 -> only_changes R b1 b3.
Proof. intros H1 H2 x Hx. by rewrite H2, H1. Qed.

Lemma only_changes_mono (R R' : Z -> Prop) b b' :
  (forall x, R x -> R' x) -> only_changes R b b' -> only_changes R' b b'.
Proof. intros HR H x Hx. apply H. auto. Qed.

Lemma only_changes_same (R : Z -> Prop) b b' : content b' = content b -> only_changes R b b'.
Proof. intros H x _. by rewrite H. Qed.

(** Clusters are apart from the tables and from each other. *)
Lemma cluster_not_table c x : valid_cluster disk c -> in_cluster c x -> ~ in_tables x.
Proof.
  intros Hc Hx Ht. destruct (wf_offsets _ _ Hwf) as (_ & _ & H1 & H2 & _).
  unfold in_cluster, in_tables, cluster_off, valid_cluster in *. nia.
Qed.

Lemma cluster_disjoint c c' x : in_cluster c x -> in_cluster c' x -> c = c'.
Proof.
  intros H1 H2. destruct (wf_offsets _ _ Hwf) as (_ & _ & _ & H3 & _).
  unfold in_cluster, cluster_off in *.
  assert (c < c' \/ c = c' \/ c' < c) as [|[|]] by lia; [nia|done|nia].
Qed.

(** The table does not depend on what is outside it. *)
Lemma fat_outside (R : Z -> Prop) b b' num :
  only_changes R b b' -> (forall x, R x -> ~ in_tables x) -> entry_index num -> fat b' num = fat b num.
Proof.
  intros Hch HR Hn. unfold fat, tbl_get. f_equal. unfold entry_bytes, img_read.
  pose proof (entry_off_bounds disk Hwf num Hn) as Ho.
  destruct (wf_offsets _ _ Hwf) as (_ & H1 & _).
  apply list_fmap_ext. intros i x [-> Hx]%lookup_seq. apply Hch. intros Hr.
  apply (HR _ Hr). unfold in_tables, entry_width in *. destruct (fat_type disk); lia.
Qed.

(** One entry has a new value. *)
Definition updated b b' num e : Prop :=
  forall n, entry_index n -> fat b' n = if decide (n = num) then e else fat b n.

Lemma set_entry_spec b num e :
  good b -> entry_index num -> 0 <= e < 2 ^ entry_bits disk ->
  wp (write_tentry disk num e) (fun err b' =>
    good b' /\ only_changes in_tables b b' /\ (err = ENOERR -> updated b b' num e)) b.
Proof.
  intros Hb Hn He. eapply wp_mono; [by apply write_tentry_spec|].
  intros err b' (Hb' & Hs & Hok). split; [done|]. split; [exact Hs|].
  intros Herr n Hn'. unfold fat. rewrite (Hok Herr).
  apply (tbl_get_set disk Hwf); try done. intros x. by apply store_byte.
Qed.

Lemma set_tentry_type_ok type e :
  set_tentry_type disk type = Some e ->
  get_tentry_type disk e = type /\ 0 <= e < 2 ^ entry_bits disk.
Proof.
  unfold set_tentry_type, get_tentry_type, entry_bits.
  destruct (fat_type disk), type; intros [= <-]; (split; [reflexivity|lia]).
Qed.

Lemma mark_cluster_spec b num type e :
  good b -> entry_index num -> set_tentry_type disk type = Some e ->
  wp (mark_cluster disk num type) (fun err b' =>
    good b' /\ only_changes in_tables b b' /\ (err = ENOERR -> updated b b' num e)) b.
Proof.
  intros Hb Hn Ht. unfold mark_cluster. rewrite Ht. apply set_entry_spec; [done..|].
  by apply (set_tentry_type_ok type).
Qed.

(** Errors of the device, as opposed to the end of a chain. *)
Definition device_error err : Prop := err <> ENOERR /\ err <> EEOF.

Lemma device_error_err err : device_error err -> err <> ENOERR.
Proof. by intros []. Qed.

Lemma read_tentry_no_eof num : returns (fun r => r.1 <> EEOF) (read_tentry (lib := lib) disk num).
Proof.
  unfold read_tentry, disk_read. destruct (fat_type disk); cbv zeta;
    (eapply returns_bind; [apply store_no_eof|]); intros [[err n] data] Herr; cbn in Herr |- *;
    case_match; by apply returns_ret.
Qed.

Lemma read_fat_spec b num :
  good b -> entry_index num ->
  wp (read_tentry disk num) (fun '(err, e) b' =>
    good b' /\ content b' = content b /\
    ((err = ENOERR /\ e = Some (fat b num)) \/ (device_error err /\ e = None))) b.
Proof.
  intros Hb Hn. eapply wp_mono.
  - apply (wp_returns (fun r => r.1 <> EEOF)); [apply read_tentry_no_eof|by apply read_tentry_spec].
  - intros [err e] b' [Heof (Hb' & Hc & Hr)]. split; [done|]. split; [done|].
    destruct Hr as [?|[? ?]]; [by left|right]. split; [by split|done].
Qed.

(** A valid cluster number is a regular entry. *)
Lemma valid_regular c : valid_cluster disk c -> get_tentry_type disk c = TENTRY_REGULAR.
Proof.
  intros Hc. pose proof (wf_nents _ _ Hwf) as Hn. unfold valid_cluster, entry_limit, get_tentry_type in *.
  destruct (fat_type disk); rewrite (proj2 (Z.ltb_lt _ _)) by lia;
    rewrite (proj2 (Z.eqb_neq _ _)) by lia; done.
Qed.

Lemma valid_entry c : valid_cluster disk c -> 0 <= c < 2 ^ entry_bits disk.
Proof.
  intros Hc. pose proof (wf_nents _ _ Hwf) as Hn.
  unfold valid_cluster, entry_limit, entry_bits in *. destruct (fat_type disk); lia.
Qed.

(** ** Erasing and claiming a cluster *)
Lemma erase_loop_spec c n : forall b p,
  good b -> valid_cluster disk c -> 0 <= p -> p + 32 * Z.of_nat n <= cluster_size disk ->
  wp (erase_loop disk n (replicate 32 0) 32 c p) (fun err b' =>
    good b' /\ only_changes (in_cluster c) b b' /\
    (err = ENOERR -> forall i, 0 <= i < cluster_size disk ->
       content b' (cluster_off disk c i)
       = if decide (p <= i < p + 32 * Z.of_nat n) then 0 else content b (cluster_off disk c i))) b.
Proof.
  induction n as [|n IH]; intros b p Hb Hc Hp Hend; cbn [erase_loop].
  { apply wp_ret. split_and!; try done. intros _ i Hi. by rewrite decide_False by lia. }
  apply wp_bind.
  eapply wp_mono; [apply (disk_cluster_write_spec disk b); try done; cbn; lia || by repeat constructor|].
  intros [err n'] b1 (Hb1 & Ht & Hc1). cbn beta iota.
  assert (only_changes (in_cluster c) b b1) as Hch1.
  { intros x Hx. rewrite Hc1. apply img_write_out. rewrite length_take, length_replicate.
    unfold in_cluster, cluster_off in *. lia. }
  destruct (Z.eqb_spec err ENOERR) as [->|Herr]; cbn [negb].
  2: { apply wp_ret. split_and!; done. }
  destruct Ht as [[_ ->]|[? _]]; [|done]. rewrite take_ge in Hc1 by (rewrite length_replicate; lia).
  destruct (wf_offsets _ _ Hwf) as (_ & _ & _ & Hcs & _).
  rewrite (uwrap_small 32 (p + 32)) by lia.
  eapply wp_mono; [apply (IH b1 (p + 32)); [done|done|lia|lia]|].
  intros err b2 (Hb2 & Hch2 & Hok). split; [done|]. split; [by eapply only_changes_trans|].
  intros Herr i Hi. rewrite (Hok Herr i Hi).
  destruct (decide (p + 32 <= i < p + 32 + 32 * Z.of_nat n)).
  { by rewrite decide_True by lia. }
  rewrite Hc1. destruct (decide (p <= i < p + 32)).
  - rewrite decide_True by lia.
    replace (cluster_off disk c i) with (cluster_off disk c p + (i - p)) by (unfold cluster_off; lia).
    rewrite img_write_in by (rewrite length_replicate; lia).
    unfold nthZ. rewrite nth_lookup, lookup_replicate_2 by lia. done.
  - rewrite decide_False by lia. apply img_write_out. rewrite length_replicate.
    unfold cluster_off. lia.
Qed.

Lemma erase_cluster_spec b c :
  good b -> valid_cluster disk c ->
  wp (erase_cluster disk c) (fun err b' =>
    good b' /\ only_changes (in_cluster c) b b' /\
    (err = ENOERR -> forall i, 0 <= i < cluster_size disk -> content b' (cluster_off disk c i) = 0)) b.
Proof.
  intros Hb Hc. destruct (wf_offsets _ _ Hwf) as (_ & _ & _ & Hcs & (k & Hk) & _).
  unfold erase_cluster. rewrite Z.shiftr_div_pow2 by lia. change (2 ^ 5) with 32.
  assert (cluster_size disk / 32 = k) as -> by (rewrite Hk, Z.mul_comm; apply Z.div_mul; lia).
  eapply wp_mono; [apply erase_loop_spec; [done|done|lia|lia]|].
  intros err b' (Hb' & Hch & Hok). split; [done|]. split; [done|].
  intros Herr i Hi. rewrite (Hok Herr i Hi). by rewrite decide_True by lia.
Qed.

(** The mark of the end of a chain. *)
Definition last_mark : Z :=
  match fat_type disk with
  | FATFS_FAT12 => 0x0FF8 | FATFS_FAT16 => 0xFFF8 | FATFS_FAT32 => 0x0FFFFFF8
  end.

Lemma set_last : set_tentry_type disk TENTRY_LAST = Some last_mark.
Proof. unfold set_tentry_type, last_mark. by destruct (fat_type disk). Qed.
Lemma set_free : set_tentry_type disk TENTRY_FREE = Some 0.
Proof. unfold set_tentry_type. by destruct (fat_type disk). Qed.
Lemma last_mark_last : get_tentry_type disk last_mark = TENTRY_LAST.
Proof. apply set_tentry_type_ok. apply set_last. Qed.
Lemma free_type_iff e : 0 <= e -> get_tentry_type disk e = TENTRY_FREE <-> e = 0.
Proof.
  intros He. unfold get_tentry_type. split; [|intros ->; by destruct (fat_type disk)].
  destruct (fat_type disk); repeat case_match; bool_lia; congruence || lia.
Qed.

(** Where [find_next_free_cluster] may write: besides the tables, in free clusters. *)
Definition claim_region b (opts x : Z) : Prop :=
  in_tables x \/ (has_opt opts CO_ERASE_NEW = true /\
    exists c, valid_cluster disk c /\ get_tentry_type disk (fat b c) = TENTRY_FREE /\ in_cluster c x).

(** Cluster [c], free before, is claimed. *)
Record claimed b b' c opts : Prop := {
  cl_valid : valid_cluster disk c;
  cl_free : get_tentry_type disk (fat b c) = TENTRY_FREE;
  cl_fat n : entry_index n -> fat b' n =
    if decide (n = c /\ has_opt opts CO_MARK_LAST = true) then last_mark else fat b n;
  cl_erased i : has_opt opts CO_ERASE_NEW = true -> 0 <= i < cluster_size disk ->
    content b' (cluster_off disk c i) = 0;
}.

Lemma valid_index c : valid_cluster disk c -> entry_index c.
Proof. unfold valid_cluster, entry_index. lia. Qed.

Lemma claim_spec b c opts :
  good b -> valid_cluster disk c -> get_tentry_type disk (fat b c) = TENTRY_FREE ->
  wp (err ← (if has_opt opts CO_MARK_LAST then mark_cluster disk c TENTRY_LAST else mret ENOERR);
      err ← (if (err =? ENOERR) && has_opt opts CO_ERASE_NEW then erase_cluster disk c
             else mret err);
      mret (err, c)) (fun '(err, c') b' =>
    good b' /\ only_changes (claim_region b opts) b b' /\ c' = c /\
    (err = ENOERR -> claimed b b' c opts)) b.
Proof.
  intros Hb Hc Hfree. pose proof (valid_index _ Hc) as Hi. apply wp_bind.
  apply (wp_mono _ (fun err b1 => good b1 /\ only_changes in_tables b b1 /\
    (err = ENOERR -> forall n, entry_index n -> fat b1 n =
      if decide (n = c /\ has_opt opts CO_MARK_LAST = true) then last_mark else fat b n))).
  { destruct (has_opt opts CO_MARK_LAST).
    - eapply wp_mono; [apply (mark_cluster_spec b c TENTRY_LAST); [done..|apply set_last]|].
      intros err b1 (Hb1 & Hch & Hok). split_and!; [done..|]. intros Herr n Hn.
      rewrite (Hok Herr n Hn). destruct (decide (n = c)).
      + by rewrite decide_True.
      + rewrite decide_False; [done|tauto].
    - apply wp_ret. split_and!; [done..|]. intros _ n Hn. rewrite decide_False; [done|].
      by intros [_ ?]. }
  intros err b1 (Hb1 & Hch1 & Hok1). apply wp_bind.
  assert (only_changes (claim_region b opts) b b1) as Hch1'
    by (eapply only_changes_mono; [|done]; by left).
  destruct (Z.eqb_spec err ENOERR) as [->|Herr]; cbn [andb].
  2: { apply wp_ret, wp_ret. split_and!; done. }
  destruct (has_opt opts CO_ERASE_NEW) eqn:Her.
  2: { apply wp_ret, wp_ret. split_and!; [done..|]. intros _.
       constructor; [done|done|by apply Hok1|congruence]. }
  eapply wp_mono; [by apply erase_cluster_spec|]. intros err b2 (Hb2 & Hch2 & Hok2).
  apply wp_ret. split; [done|]. split; [|split; [done|]].
  - eapply only_changes_trans; [done|]. eapply only_changes_mono; [|done].
    intros x Hx. right. eauto.
  - intros Herr. constructor; [done|done| |by intros; apply Hok2].
    intros n Hn. rewrite <- (Hok1 eq_refl n Hn).
    apply (fat_outside (in_cluster c)); [done| |done]. intros x. by apply cluster_not_table.
Qed.

(** ** Searching for a free cluster *)
Definition not_free b k : Prop := get_tentry_type disk (fat b k) <> TENTRY_FREE.

(** The clusters still to be visited, and how many turns they take. *)
Definition to_visit start c k : Prop := if decide (c <= start) then c <= k < start else c <= k \/ k < start.
Definition turns start c : Z :=
  if decide (c <= start) then start - c
  else fat_tbl_nents disk - c + Z.max 0 (start - 2) + 1.

(** The answer of the search. *)
Definition search_result b start opts (visit : Z -> Prop) (r : Z * Z) b' : Prop :=
  let '(err, c) := r in
  good b' /\ only_changes (claim_region b opts) b b' /\
  ((err = ENOERR /\ c <> start /\ claimed b b' c opts) \/
   (err = ENOSPC /\ c = 0 /\ content b' = content b /\
      forall k, valid_cluster disk k -> visit k -> not_free b k) \/
   err <> ENOERR).

Lemma search_result_mono b b0 start opts (visit visit' : Z -> Prop) r b' :
  content b0 = content b ->
  (forall k, valid_cluster disk k -> visit' k -> visit k \/ not_free b k) ->
  search_result b0 start opts visit r b' -> search_result b start opts visit' r b'.
Proof.
  intros Hc Hv. destruct r as [err c]. intros (Hb & Hch & Hr).
  assert (forall k, fat b0 k = fat b k) as Hf by (intros; unfold fat; by rewrite Hc).
  split; [done|]. split.
  { intros x Hx. rewrite <- Hc. apply Hch. intros Hx'. apply Hx. unfold claim_region in *.
    destruct Hx' as [Hx'|(He & k & Hk & Hfk & Hin)]; [by left|right].
    split; [done|]. exists k. by rewrite <- Hf. }
  destruct Hr as [(He & Hs & [])|[(He & H0 & Hsame & Hnf)|He]].
  - left. split_and!; try done. constructor; try done; [by rewrite <- Hf|].
    intros n Hn. rewrite cl_fat0 by done. by rewrite Hf.
  - right. left. split_and!; try done; [congruence|].
    intros k Hk Hvis. destruct (Hv k Hk Hvis) as [H|H]; [|done].
    unfold not_free in *. rewrite <- Hf. by apply Hnf.
  - by right; right.
Qed.

Lemma free_loop_spec start opts fuel : 0 <= start < fat_tbl_nents disk ->
  forall b c, good b -> 2 <= c <= fat_tbl_nents disk -> turns start c <= Z.of_nat fuel ->
  wp (free_loop disk fuel start c opts) (search_result b start opts (to_visit start c)) b.
Proof.
  intros Hstart. destruct (wf_offsets _ _ Hwf) as (_ & _ & _ & _ & _ & Hn32).
  induction fuel as [|fuel IH]; intros b c Hb Hc Hturns; cbn [free_loop];
    (destruct (Z.eqb_spec c start) as [->|Hne];
     [apply wp_ret; split_and!; [done..|]; right; left; split_and!; try done;
      intros k _; unfold to_visit; rewrite decide_True by lia; lia|]).
  { unfold turns in Hturns. case_decide; lia. }
  destruct ((c >=? fat_tbl_nents disk) && (2 >=? start)) eqn:Hend.
  { apply andb_true_iff in Hend as [?%Z.geb_le ?%Z.geb_le].
    apply wp_ret. split_and!; [done..|]. right. left. split_and!; try done.
    intros k Hk. unfold to_visit, valid_cluster in *. case_decide; lia. }
  set (x := if c >=? fat_tbl_nents disk then 2 else c).
  assert (valid_cluster disk x /\ x <> start /\ turns start (x + 1) <= Z.of_nat fuel /\
    forall k, valid_cluster disk k -> to_visit start c k -> k = x \/ to_visit start (x + 1) k)
    as (Hx & Hxs & Hxt & Hxv).
  { unfold x, turns, to_visit, valid_cluster in *. destruct (Z.geb_spec c (fat_tbl_nents disk));
      cbn [andb] in Hend; [rewrite Z.geb_leb in Hend; bool_lia|];
      repeat split; repeat case_decide; lia. }
  apply wp_bind. eapply wp_mono; [apply read_fat_spec; [done|by apply valid_index]|].
  intros [err e] b1 (Hb1 & Hc1 & Hr). cbn beta iota.
  destruct Hr as [[-> ->]|[Herr ->]].
  2: { apply wp_ret. split_and!; [done|by apply only_changes_same|]. right. right.
       by apply device_error_err. }
  case_decide as Hfree.
  - eapply wp_mono; [apply (claim_spec b1 x opts); [done|done|]|].
    { unfold fat. by rewrite Hc1. }
    intros [err c'] b2 (Hb2 & Hch & -> & Hok).
    apply (search_result_mono b b1 _ _ (to_visit start c)); [done|by left|].
    split_and!; [done..|]. destruct (decide (err = ENOERR)); [left|by right; right].
    split_and!; [done|done|by apply Hok].
  - rewrite (uwrap_small 32 (x + 1)) by (unfold valid_cluster in Hx; lia).
    eapply wp_mono; [apply (IH b1 (x + 1)); [done|unfold valid_cluster in Hx; lia|done]|].
    intros r b2. apply search_result_mono; [done|]. intros k Hk Hv.
    destruct (Hxv k Hk Hv) as [->|]; [by right|by left].
Qed.

Lemma find_next_free_cluster_spec b start opts :
  good b -> 0 <= start < fat_tbl_nents disk ->
  wp (find_next_free_cluster disk start opts)
    (search_result b start opts (fun k => k <> start)) b.
Proof.
  intros Hb Hs. destruct (wf_offsets _ _ Hwf) as (_ & _ & _ & _ & _ & Hn32).
  pose proof (wf_nents _ _ Hwf) as Hn.
  unfold find_next_free_cluster. destruct (Z.ltb_spec start 2).
  - eapply wp_mono; [apply free_loop_spec; [done|done|lia|]|].
    { unfold turns. rewrite decide_False by lia. lia. }
    intros r b'. apply search_result_mono; [done|]. intros k Hk _. left.
    unfold to_visit, valid_cluster in *. rewrite decide_False by lia. lia.
  - rewrite (uwrap_small 32 (start + 1)) by lia.
    eapply wp_mono; [apply free_loop_spec; [done|done|lia|]|].
    { unfold turns. rewrite decide_False by lia. lia. }
    intros r b'. apply search_result_mono; [done|]. intros k Hk Hne. left.
    unfold to_visit, valid_cluster in *. rewrite decide_False by lia. lia.
Qed.

(** ** Walking a chain *)
Lemma walk_chain_spec n : forall b c snum l,
  good b -> chain disk (fat b) c l -> 0 <= snum -> snum + Z.of_nat (length l) <= 2 ^ 32 ->
  wp (walk_chain disk n c snum) (fun r b' =>
    good b' /\ content b' = content b /\
    match r with
    | inl err => device_error err
    | inr (err, c', snum') =>
        match l !! n with
        | Some x => err = ENOERR /\ c' = x /\ snum' = snum + Z.of_nat n
        | None => err = EEOF /\ list.last l = Some c' /\ snum' = snum + Z.of_nat (length l) - 1
        end
    end) b.
Proof.
  induction n as [|n IH]; intros b c snum l Hb Hch Hs Hl; cbn [walk_chain].
  { apply wp_ret. destruct (chain_cons _ _ _ _ Hch) as [l' ->]. cbn. split_and!; try done. lia. }
  assert (valid_cluster disk c) as Hc by (by inversion Hch).
  apply wp_bind. eapply wp_mono; [apply read_fat_spec; [done|by apply valid_index]|].
  intros [err e] b1 (Hb1 & Hc1 & Hr). cbn beta iota.
  destruct Hr as [[-> ->]|[Herr ->]]; [|by apply wp_ret].
  inversion Hch as [? _ Ht|? l' _ Ht Hch']; subst; rewrite Ht.
  - apply wp_ret. split; [done|]. split; [done|]. destruct n; cbn; (split_and!; [done|done|lia]).
  - cbn [length] in Hl. destruct (chain_cons _ _ _ _ Hch') as [l'' Hl''].
    rewrite (uwrap_small 32 (snum + 1)) by (rewrite Hl'' in Hl; cbn [length] in Hl; lia).
    unfold get_tentry_next_cluster.
    eapply wp_mono; [apply (IH b1 _ _ l'); [done| |lia|lia]|].
    { eapply chain_ext; [done|]. intros y _. unfold fat. by rewrite Hc1. }
    intros [err|[[err c'] snum']] b2 (Hb2 & Hc2 & Hr); (split; [done|]); (split; [congruence|]);
      [done|]. cbn. destruct (l' !! n).
    + destruct Hr as (-> & -> & ->). split_and!; [done..|lia].
    + destruct Hr as (-> & Hlast & ->). split_and!; [done| |cbn [length]; lia].
      by rewrite Hl'' in Hlast |- *.
Qed.

(** A position in a chain: its cluster is the one with its sequence number. *)
Definition pos_in l (pos : fatfs_data_pos_t) : Prop :=
  0 <= cluster_snum pos /\ l !! Z.to_nat (cluster_snum pos) = Some (cluster pos).

Lemma chain_short f c l : chain disk f c l -> Z.of_nat (length l) < 2 ^ 32.
Proof.
  intros H%chain_length. destruct (wf_offsets _ _ Hwf) as (_ & _ & _ & _ & _ & Hn32). lia.
Qed.

(** [find_nth_cluster0] from a position at or before the one wanted: the n-th
    cluster of the chain or, past its end, the last one and [EEOF]. *)
Lemma find_nth_cluster0_spec b f0 l pos n :
  good b -> chain disk (fat b) f0 l -> pos_in l pos -> cluster_snum pos <= n < 2 ^ 32 ->
  wp (find_nth_cluster0 disk pos n) (fun '(err, pos') b' =>
    good b' /\ content b' = content b /\ cluster_pos pos' = cluster_pos pos /\
    ((err = ENOERR /\ pos_in l pos' /\ cluster_snum pos' = n) \/
     (err = EEOF /\ pos_in l pos' /\ cluster_snum pos' = Z.of_nat (length l) - 1 /\
        Z.of_nat (length l) <= n) \/
     (device_error err /\ pos' = pos))) b.
Proof.
  intros Hb Hch [Hs Hp] Hn. pose proof (chain_short _ _ _ Hch) as Hlen.
  pose proof (lookup_lt_Some _ _ _ Hp) as Hlt.
  unfold find_nth_cluster0. destruct (Z.eqb_spec (cluster_snum pos) n) as [<-|Hne].
  { apply wp_ret. split_and!; [done..|]. left. done. }
  rewrite (uwrap_small 32) by lia. apply wp_bind.
  eapply wp_mono; [apply walk_chain_spec; [done|by eapply chain_drop|done|rewrite length_drop; lia]|].
  intros [err|[[err c'] snum']] b' (Hb' & Hc' & Hr); apply wp_ret; (split; [done|]);
    (split; [done|]); (split; [done|]).
  - right. by right.
  - rewrite lookup_drop in Hr.
    replace (Z.to_nat (cluster_snum pos) + Z.to_nat (n - cluster_snum pos))%nat
      with (Z.to_nat n) in Hr by lia.
    destruct (l !! Z.to_nat n) as [x|] eqn:Hx.
    + destruct Hr as (-> & -> & ->). left. split; [done|].
      assert (cluster_snum pos + Z.of_nat (Z.to_nat (n - cluster_snum pos)) = n) as -> by lia.
      split; [split; [cbn; lia|done]|done].
    + apply lookup_ge_None in Hx. destruct Hr as (-> & Hlast & ->). right. left.
      rewrite length_drop. cbn. split; [done|].
      rewrite last_lookup, lookup_drop, length_drop in Hlast.
      split; [|lia]. split; [cbn; lia|]. cbn. rewrite <- Hlast. f_equal. lia.
Qed.

(** ** Extending a chain *)
Lemma has_opt_mark opts : has_opt (Z.lor opts CO_MARK_LAST) CO_MARK_LAST = true.
Proof.
  unfold has_opt, CO_MARK_LAST. apply negb_true_iff, Z.eqb_neq. intros H.
  apply (f_equal (fun x => Z.testbit x 2)) in H. rewrite Z.land_spec, Z.lor_spec, Z.bits_0 in H.
  cbn in H. by rewrite orb_true_r in H.
Qed.

Lemma has_opt_erase opts : has_opt (Z.lor opts CO_MARK_LAST) CO_ERASE_NEW = has_opt opts CO_ERASE_NEW.
Proof.
  unfold has_opt, CO_MARK_LAST, CO_ERASE_NEW. rewrite Z.land_lor_distr_l.
  change (Z.land 4 2) with 0. by rewrite Z.lor_0_r.
Qed.

(** Cluster [new], free before, follows the last cluster [c] of a chain. *)
Record appended b b' c new opts : Prop := {
  ap_valid : valid_cluster disk new;
  ap_free : get_tentry_type disk (fat b new) = TENTRY_FREE;
  ap_fat n : entry_index n -> fat b' n =
    if decide (n = c) then new else if decide (n = new) then last_mark else fat b n;
  ap_erased i : has_opt opts CO_ERASE_NEW = true -> 0 <= i < cluster_size disk ->
    content b' (cluster_off disk new i) = 0;
}.

Lemma find_and_append_cluster_spec b c opts :
  good b -> valid_cluster disk c ->
  wp (find_and_append_cluster disk c opts) (fun '(err, new) b' =>
    good b' /\ only_changes (claim_region b opts) b b' /\
    (err = ENOERR -> new <> c /\ appended b b' c new opts)) b.
Proof.
  intros Hb Hc. pose proof (valid_index _ Hc) as Hi. apply wp_bind.
  eapply wp_mono; [apply find_next_free_cluster_spec; [done|exact Hi]|].
  intros [err new] b1 (Hb1 & Hch1 & Hr). cbn beta iota.
  assert (only_changes (claim_region b opts) b b1) as Hch1'.
  { unfold claim_region in *. by rewrite has_opt_erase in Hch1. }
  destruct (Z.eqb_spec err ENOERR) as [->|Herr]; cbn [negb].
  2: { apply wp_ret. split_and!; done. }
  destruct Hr as [(_ & Hne & [Hv Hf Hfat Her])|[(? & _)|?]]; [|done|done].
  apply wp_bind. eapply wp_mono; [apply set_entry_spec; [done|done|by apply valid_entry]|].
  intros err b2 (Hb2 & Hch2 & Hok2).
  assert (only_changes (claim_region b opts) b b2) as Hch.
  { eapply only_changes_trans; [done|]. eapply only_changes_mono; [|done]. by left. }
  destruct (Z.eqb_spec err ENOERR) as [->|Herr]; cbn [negb]; apply wp_ret; [|done].
  split; [done|]. split; [done|]. intros _. split; [done|]. constructor; [done|done| |].
  - intros n Hn. rewrite (Hok2 eq_refl n Hn). destruct (decide (n = c)); [done|].
    rewrite Hfat by done. rewrite has_opt_mark. destruct (decide (n = new)).
    + by rewrite decide_True.
    + rewrite decide_False; tauto.
  - intros i He Hii. rewrite has_opt_erase in Her.
    rewrite Hch2; [by apply Her|]. intros Ht.
    apply (cluster_not_table new (cluster_off disk new i)); [done| |done].
    unfold in_cluster, cluster_off. lia.
Qed.

(** The chain is one cluster longer; the other chains are as they were. *)
Lemma appended_chain b b' f0 l c new opts :
  chain disk (fat b) f0 l -> list.last l = Some c -> new <> c -> appended b b' c new opts ->
  chain disk (fat b') f0 (l ++ [new]).
Proof.
  intros Hch Hlast Hne [Hv Hf Hfat _]. pose proof (chain_valid _ _ _ _ Hch) as Hva.
  rewrite Forall_forall in Hva.
  assert (valid_cluster disk c) as Hc by (apply Hva; by apply last_Some_elem_of).
  assert (new ∉ l) as Hnew.
  { intros Hin. apply list_elem_of_lookup in Hin as [i Hi].
    pose proof (chain_drop _ _ _ _ _ _ Hch Hi) as Hd. inversion Hd; congruence. }
  eapply (chain_append disk (fat b)); try done.
  - rewrite Hfat, decide_True by (by apply valid_index || done). done.
  - by apply valid_regular.
  - rewrite Hfat by by apply valid_index. rewrite decide_False, decide_True by done.
    apply last_mark_last.
  - intros y Hy Hyc. rewrite Hfat by by apply valid_index, Hva.
    rewrite !decide_False; [done|congruence|done].
Qed.

Lemma appended_other b b' f1 l1 c new opts :
  chain disk (fat b) f1 l1 -> c ∉ l1 -> appended b b' c new opts -> chain disk (fat b') f1 l1.
Proof.
  intros Hch Hc [Hv Hf Hfat _]. pose proof (chain_valid _ _ _ _ Hch) as Hva.
  rewrite Forall_forall in Hva. eapply chain_ext; [done|]. intros x Hx.
  rewrite Hfat by by apply valid_index, Hva. rewrite !decide_False; [done| |congruence].
  intros ->. apply list_elem_of_lookup in Hx as [i Hi].
  pose proof (chain_drop _ _ _ _ _ _ Hch Hi) as Hd. inversion Hd; congruence.
Qed.

(** What [find_nth_cluster] and its callers do to the disk: nothing, or append a
    cluster to the chain. *)
Definition extended b b' l l' opts : Prop :=
  (content b' = content b /\ l' = l) \/
  (has_opt opts CO_EXTEND = true /\
   exists c new, list.last l = Some c /\ new <> c /\ l' = l ++ [new] /\ appended b b' c new opts).

Lemma extended_chain b b' f0 l l' opts :
  chain disk (fat b) f0 l -> extended b b' l l' opts -> chain disk (fat b') f0 l'.
Proof.
  intros Hch [[Hc ->]|(_ & c & new & Hlast & Hne & -> & Ha)].
  - eapply chain_ext; [done|]. intros x _. unfold fat. by rewrite Hc.
  - by eapply appended_chain.
Qed.

(** The answer of [find_nth_cluster]: the position of the n-th cluster, perhaps
    the one just appended; else an error, and a position in the chain. *)
Definition nth_answer b l pos n opts (r : Z * fatfs_data_pos_t) b' : Prop :=
  let '(err, pos') := r in
  good b' /\ only_changes (claim_region b opts) b b' /\
  (has_opt opts CO_EXTEND = false -> content b' = content b) /\
  ((err = ENOERR /\ exists l', extended b b' l l' opts /\ pos_in l' pos' /\
      cluster_snum pos' = n /\ (l' = l -> cluster_pos pos' = cluster_pos pos) /\
      (l' <> l -> cluster_pos pos' = 0 /\ n = Z.of_nat (length l))) \/
   (err <> ENOERR /\ cluster_pos pos' = cluster_pos pos /\ pos_in l pos' /\
      (err = EEOF -> has_opt opts CO_EXTEND = false \/ Z.of_nat (length l) < n ->
         cluster_snum pos' = Z.of_nat (length l) - 1 /\ Z.of_nat (length l) <= n))).

Lemma find_nth_cluster_spec b f0 l pos n opts :
  good b -> chain disk (fat b) f0 l -> pos_in l pos -> cluster_snum pos <= n < 2 ^ 32 ->
  wp (find_nth_cluster disk pos n opts) (nth_answer b l pos n opts) b.
Proof.
  intros Hb Hch Hp Hn. pose proof (chain_short _ _ _ Hch) as Hlen.
  apply wp_bind. eapply wp_mono; [by eapply find_nth_cluster0_spec|].
  intros [err pos1] b1 (Hb1 & Hc1 & Hcp & Hr). cbn beta iota.
  assert (only_changes (claim_region b opts) b b1) as Hch1 by by apply only_changes_same.
  destruct Hr as [(-> & Hp1 & Hs1)|[(-> & Hp1 & Hs1 & Hge)|[Herr ->]]].
  - apply wp_ret. split_and!; try done. left. split; [done|]. exists l. split_and!; try done.
    by left.
  - destruct (has_opt opts CO_EXTEND) eqn:Hext; cbn [negb orb Z.eqb EEOF Pos.eqb].
    2: { apply wp_ret. split_and!; try done. right. split_and!; done. }
    pose proof (lookup_lt_Some _ _ _ (proj2 Hp1)). rewrite (uwrap_small 32 (n - 1)) by lia.
    destruct (Z.eqb_spec (cluster_snum pos1) (n - 1)) as [Hsn|Hsn].
    2: { apply wp_ret. do 2 (split; [done|]). split; [done|]. right. split_and!; done. }
    destruct Hp1 as [Hs0 Hl1]. pose proof (chain_valid _ _ _ _ Hch) as Hva.
    rewrite Forall_forall in Hva.
    assert (valid_cluster disk (cluster pos1)) as Hc by (apply Hva; by eapply list_elem_of_lookup_2).
    assert (list.last l = Some (cluster pos1)) as Hlast.
    { rewrite last_lookup, <- Hl1. f_equal. lia. }
    apply wp_bind. eapply wp_mono; [by apply find_and_append_cluster_spec|].
    intros [err new] b2 (Hb2 & Hch2 & Hok). cbn beta iota.
    assert (only_changes (claim_region b opts) b b2) as Hch12.
    { intros x Hx. rewrite <- Hc1. apply Hch2. unfold claim_region, fat in *. by rewrite Hc1. }
    destruct (Z.eqb_spec err ENOERR) as [->|Herr]; cbn [negb]; apply wp_ret.
    + do 2 (split; [done|]). split; [congruence|]. left. split; [done|]. destruct (Hok eq_refl) as [Hne Hap].
      exists (l ++ [new]). rewrite (uwrap_small 32) by lia. split_and!.
      * right. split; [done|]. exists (cluster pos1), new. split_and!; try done.
        destruct Hap. unfold fat in *. rewrite Hc1 in *. constructor; done.
      * split; [cbn; lia|]. cbn. rewrite lookup_app_r by lia.
        by replace (Z.to_nat (cluster_snum pos1 + 1) - length l)%nat with 0%nat by lia.
      * cbn. lia.
      * intros Hl. exfalso. apply (f_equal length) in Hl. rewrite length_app in Hl. cbn in Hl. lia.
      * intros _. split; [done|]. lia.
    + do 2 (split; [done|]). split; [congruence|]. right. split_and!; done.
  - destruct Herr as [He1 He2]. rewrite (proj2 (Z.eqb_neq err EEOF)) by done. cbn [negb orb].
    apply wp_ret. split_and!; try done. right. split_and!; done.
Qed.

(** ** Positions *)

(** [get_next_cluster]: the start of the next cluster. *)
Lemma get_next_cluster_spec b f0 l pos opts :
  good b -> chain disk (fat b) f0 l -> pos_in l pos ->
  wp (get_next_cluster disk pos opts) (fun '(err, pos') b' =>
    good b' /\ only_changes (claim_region b opts) b b' /\
    (has_opt opts CO_EXTEND = false -> content b' = content b) /\
    ((err = ENOERR /\ cluster_pos pos' = 0 /\ exists l', extended b b' l l' opts /\
        pos_in l' pos' /\ cluster_snum pos' = cluster_snum pos + 1 /\
        (l' <> l -> cluster_snum pos' = Z.of_nat (length l))) \/
     (err <> ENOERR /\ cluster_pos pos' = cluster_pos pos /\ pos_in l pos' /\
        (err = EEOF -> has_opt opts CO_EXTEND = false ->
         cluster_snum pos' = Z.of_nat (length l) - 1 /\
         cluster_snum pos = Z.of_nat (length l) - 1)))) b.
Proof.
  intros Hb Hch Hp. pose proof (chain_short _ _ _ Hch) as Hlen.
  pose proof (lookup_lt_Some _ _ _ (proj2 Hp)) as Hlt. pose proof (proj1 Hp) as H0.
  unfold get_next_cluster. rewrite (uwrap_small 32) by lia.
  apply wp_bind. eapply wp_mono; [eapply find_nth_cluster_spec; [done|done|done|lia]|].
  intros [err pos1] b1 (Hb1 & Hch1 & Hsame & Hr). cbn beta iota.
  destruct Hr as [(-> & l' & He & [Hp1 Hp2] & Hs & _ & Hnew)|(Herr & Hcp & Hp1 & Heof)].
  - cbn [negb Z.eqb ENOERR]. apply wp_ret. do 3 (split; [done|]). left.
    split_and!; [done..|]. exists l'. split_and!; try done.
    intros Hne. destruct (Hnew Hne) as [_ <-]. done.
  - rewrite (proj2 (Z.eqb_neq err ENOERR)) by done. cbn [negb]. apply wp_ret.
    do 3 (split; [done|]). right. split_and!; [done..|]. intros He Ho.
    destruct (Heof He (or_introl Ho)). split; [done|lia].
Qed.

(** The offset of a position in its file. *)
Definition pos_offset (pos : fatfs_data_pos_t) : Z :=
  cluster_snum pos * cluster_size disk + cluster_pos pos.

(** [get_position_from_off], without extension: the position of the offset, or
    the end of the last cluster when the offset is past it. *)
Lemma get_position_from_off_spec b f0 l pos offset :
  good b -> chain disk (fat b) f0 l -> pos_in l pos -> fits 32 offset ->
  wp (get_position_from_off disk f0 offset pos CO_NONE) (fun '(err, pos') b' =>
    good b' /\ content b' = content b /\
    ((err = ENOERR /\ pos_in l pos' /\ pos_offset pos' = offset /\
        0 <= cluster_pos pos' < cluster_size disk) \/
     (err = EEOF /\ pos_in l pos' /\ cluster_pos pos' = cluster_size disk /\
        pos_offset pos' = Z.of_nat (length l) * cluster_size disk /\
        pos_offset pos' <= offset) \/
     device_error err)) b.
Proof.
  intros Hb Hch Hp Hoff. pose proof (wf_cluster _ _ Hwf) as Hcs.
  destruct (wf_offsets _ _ Hwf) as (_ & _ & _ & Hcs2 & _). pose proof (wf_log2 _ _ Hwf) as Hl2.
  unfold get_position_from_off. rewrite (uwrap_small 32 (cluster_size disk - 1)) by lia.
  assert (Z.land offset (cluster_size disk - 1) = offset mod cluster_size disk) as ->.
  { rewrite Hcs, Z.sub_1_r, <- Z.ones_equiv. by rewrite Z.land_ones by lia. }
  rewrite Z.shiftr_div_pow2, <- Hcs by lia.
  pose proof (Z.div_mod offset (cluster_size disk)). unfold fits in Hoff.
  pose proof (Z.mod_pos_bound offset (cluster_size disk)).
  set (n := offset / cluster_size disk) in *. set (r := offset mod cluster_size disk) in *.
  assert (0 <= n) by (apply Z.div_pos; lia). assert (n < 2 ^ 32) by nia.
  set (np := if n <? cluster_snum pos then _ else _).
  assert (pos_in l np /\ cluster_snum np <= n /\ cluster_pos np = r) as (Hnp & Hnn & Hnr).
  { unfold np. destruct (Z.ltb_spec n (cluster_snum pos)); [|done].
    destruct (chain_cons _ _ _ _ Hch) as [l' ->]. done. }
  apply wp_bind. eapply wp_mono; [eapply (find_nth_cluster_spec b f0 l np n); [done|done|done|lia]|].
  intros [err pos1] b1 (Hb1 & Hch1 & Hsame & Hr). cbn beta iota. apply wp_ret.
  split; [done|]. split; [by apply Hsame|].
  destruct Hr as [(-> & l' & He & Hp1 & Hs & Hcp & _)|(Herr & Hcp & Hp1 & Heof)].
  - left. destruct He as [[_ ->]|[? _]]; [|done]. specialize (Hcp eq_refl).
    cbn [Z.eqb EEOF ENOERR]. split_and!; [done|done|unfold pos_offset; nia|lia|lia].
  - destruct (Z.eqb_spec EEOF err) as [<-|Hne]; [|right; right; by split].
    right. left. destruct (Heof eq_refl (or_introl eq_refl)) as [Hs Hge].
    do 3 (split; [done|]). unfold pos_offset. cbn. rewrite Hs. split; nia.
Qed.

(** ** Releasing a chain *)
Lemma free_chain_loop_spec fuel : forall b c l,
  good b -> chain disk (fat b) c l -> (length l <= fuel)%nat ->
  wp (free_chain_loop disk fuel c) (fun err b' =>
    good b' /\ only_changes in_tables b b' /\
    (err = ENOERR -> forall n, entry_index n ->
       fat b' n = if decide (n ∈ l) then 0 else fat b n)) b.
Proof.
  induction fuel as [|fuel IH]; intros b c l Hb Hch Hlen.
  { destruct (chain_cons _ _ _ _ Hch) as [l' ->]. cbn in Hlen. lia. }
  cbn [free_chain_loop]. assert (valid_cluster disk c) as Hc by (by inversion Hch).
  pose proof (valid_index _ Hc) as Hi. apply wp_bind.
  eapply wp_mono; [by apply read_fat_spec|].
  intros [err e] b1 (Hb1 & Hc1 & Hr). cbn beta iota.
  destruct Hr as [[-> ->]|[Herr ->]].
  2: { apply wp_ret. split_and!; [done|by apply only_changes_same|]. by intros ->; destruct Herr. }
  pose proof (fun n => eq_refl : fat b1 n = tbl_get disk (content b1) n) as Hfb.
  assert (forall n, fat b1 n = fat b n) as Hf1 by (intros n; unfold fat; by rewrite Hc1).
  pose proof (mark_cluster_spec b1 c TENTRY_FREE 0 Hb1 Hi set_free) as Hmark.
  inversion Hch as [? _ Ht|? l' _ Ht Hch']; subst; rewrite Ht.
  - rewrite decide_True by done. eapply wp_mono; [exact Hmark|].
    intros err b2 (Hb2 & Hch2 & Hok). split; [done|]. split; [intros x Hx; rewrite Hch2 by done; by rewrite Hc1|].
    intros Herr n Hn. rewrite (Hok Herr n Hn), Hf1.
    destruct (decide (n = c)) as [->|]; [by rewrite decide_True by left|].
    rewrite decide_False; [done|]. by rewrite list_elem_of_singleton.
  - rewrite decide_False, decide_True by done. apply wp_bind. eapply wp_mono; [exact Hmark|].
    intros err b2 (Hb2 & Hch2 & Hok). cbn beta.
    assert (only_changes in_tables b b2) as Hch12
      by (intros x Hx; rewrite Hch2 by done; by rewrite Hc1).
    destruct (Z.eqb_spec err ENOERR) as [->|Herr]; cbn [negb]; [|by apply wp_ret].
    pose proof (chain_nodup _ _ _ _ Hch) as [Hcl Hnd]%NoDup_cons.
    pose proof (chain_valid _ _ _ _ Hch') as Hva. rewrite Forall_forall in Hva.
    assert (chain disk (fat b2) (fat b c) l') as Hch2'.
    { eapply chain_ext; [done|]. intros x Hx. rewrite (Hok eq_refl) by by apply valid_index, Hva.
      rewrite decide_False by congruence. apply Hf1. }
    eapply wp_mono; [apply (IH b2 _ l'); [done|done|cbn in Hlen; lia]|].
    intros err b3 (Hb3 & Hch3 & Hok3). split; [done|]. split; [by eapply only_changes_trans|].
    intros Herr n Hn. rewrite (Hok3 Herr n Hn). destruct (decide (n ∈ l')) as [Hin|Hin].
    + by rewrite decide_True by by right.
    + rewrite (Hok eq_refl n Hn), Hf1. destruct (decide (n = c)) as [->|].
      * by rewrite decide_True by left.
      * rewrite decide_False; [done|]. by rewrite elem_of_cons; intros [|].
Qed.

Lemma free_cluster_chain_spec b c l :
  good b -> chain disk (fat b) c l ->
  wp (free_cluster_chain disk c) (fun err b' =>
    good b' /\ only_changes in_tables b b' /\
    (err = ENOERR -> forall n, entry_index n ->
       fat b' n = if decide (n ∈ l) then 0 else fat b n)) b.
Proof.
  intros Hb Hch. apply free_chain_loop_spec; [done|done|].
  pose proof (chain_length _ _ _ _ Hch). lia.
Qed.

(** ** Counting the free clusters *)
Definition is_free b c : Prop := get_tentry_type disk (fat b c) = TENTRY_FREE.
#[export] Instance is_free_dec b c : Decision (is_free b c).
Proof. unfold is_free. apply _. Defined.

Definition free_count b : Z := Z.of_nat (length (filter (is_free b) (seqZ 2 (fat_tbl_nents disk - 2)))).

Lemma usage_loop_spec n : forall b c nfree,
  good b -> 2 <= c -> c + Z.of_nat n <= fat_tbl_nents disk -> 0 <= nfree ->
  nfree + Z.of_nat n < 2 ^ 32 ->
  wp (usage_loop disk n c nfree) (fun '(err, k) b' =>
    good b' /\ content b' = content b /\
    (err = ENOERR -> k = nfree + Z.of_nat (length (filter (is_free b) (seqZ c (Z.of_nat n)))))) b.
Proof.
  induction n as [|n IH]; intros b c nfree Hb Hc Hn Hf Hmax; cbn [usage_loop].
  { apply wp_ret. split_and!; [done..|]. intros _. rewrite seqZ_nil by lia. cbn. lia. }
  apply wp_bind. eapply wp_mono; [apply read_fat_spec; [done|unfold entry_index; lia]|].
  intros [err e] b1 (Hb1 & Hc1 & Hr). cbn beta iota.
  destruct Hr as [[-> ->]|[Herr ->]].
  2: { apply wp_ret. split_and!; [done..|]. by intros ->; destruct Herr. }
  assert (forall x, fat b1 x = fat b x) as Hf1 by (intros; unfold fat; by rewrite Hc1).
  rewrite seqZ_cons by lia. replace (Z.pred (Z.of_nat (S n))) with (Z.of_nat n) by lia.
  replace (Z.succ c) with (c + 1) by lia.
  rewrite (uwrap_small 32 (nfree + 1)) by lia.
  eapply wp_mono; [apply (IH b1 (c + 1)); [done|lia|lia|case_decide; lia|case_decide; lia]|].
  intros [err k] b2 (Hb2 & Hc2 & Hok). split; [done|]. split; [congruence|]. intros Herr.
  rewrite (Hok Herr). rewrite filter_cons.
  assert (forall l, filter (is_free b1) l = filter (is_free b) l) as ->.
  { intros l. apply list_filter_iff. intros x. unfold is_free. by rewrite Hf1. }
  destruct (decide (get_tentry_type disk (fat b c) = TENTRY_FREE)) as [Hfr|Hfr].
  - rewrite (decide_True (P := is_free b c)) by exact Hfr. cbn [length]. lia.
  - rewrite (decide_False (P := is_free b c)) by exact Hfr. lia.
Qed.
End Disk.
