(* ===== verification/FatFile.v ===== *)
(** * FAT file system: the data of files (fatfs_supp.c)

    Positions in a file and the transfer of data along its chain of clusters,
    against the file as a flat array of bytes; a write past the last cluster
    extends the chain. *)
From S2P Require Import Prelude Blib BlibContract FatStore FatTable FatTableSpec FatChain.

(** [fatfs_dir_entry_t], without the optional attributes. *)
Record fatfs_dir_entry_t := mk_dentry {
  filename : list byte;
  mode : Z;
  size : Z;
  ctime : Z;
  atime : Z;
  mtime : Z;
  priv_data : Z;
  d_cluster : Z;
  parent_cluster : Z;
  disk_pos : fatfs_data_pos_t;
}.

Definition set_d_cluster c (d : fatfs_dir_entry_t) := mk_dentry (filename d) (mode d) (size d)
  (ctime d) (atime d) (mtime d) (priv_data d) c (parent_cluster d) (disk_pos d).

Section File.
Context {B : Type} {lib : BlockLibrary B}.
Implicit Types (disk : fatfs_disk_t) (pos : fatfs_data_pos_t) (file : fatfs_dir_entry_t).

Definition fatfs_initpos (file : fatfs_dir_entry_t) : fatfs_data_pos_t :=
  mk_pos (d_cluster file) 0 0.

Definition fatfs_setpos disk file pos (offset : Z) : M B (Z * fatfs_data_pos_t) :=
  '(err, pos) ← get_position_from_off disk (d_cluster file) offset pos CO_NONE;
  mret (if (EEOF =? err) && (offset =? size file) then ENOERR else err, pos).

Definition fatfs_getpos disk pos : Z :=
  u32 (u32 (Z.shiftl (cluster_snum pos) (cluster_size_log2 disk)) + cluster_pos pos).

(** The end of the data of this turn: [if (size > (disk->cluster_size - pos->cluster_pos))]. *)
Definition data_chunk disk pos (size : Z) : Z :=
  if size >? u32 (cluster_size disk - cluster_pos pos)
  then u32 (cluster_size disk - cluster_pos pos) else size.

(** The loops return the error, what is left of [size], what was stored in the
    buffer and the position. *)
Fixpoint read_data_loop disk (fuel : nat) (size : Z) pos :
    M B (Z * Z * list byte * fatfs_data_pos_t) :=
  if size >? 0 then
    match fuel with
    | O => crash
    | S fuel =>
        '(err, pos) ← (if cluster_pos pos >=? cluster_size disk
                       then get_next_cluster disk pos CO_NONE else mret (ENOERR, pos));
        if negb (err =? ENOERR) then mret (err, size, [], pos)
        else
          '(err, csize, buf) ← disk_cluster_read disk (data_chunk disk pos size)
                                 (cluster pos) (cluster_pos pos);
          if negb (err =? ENOERR) then mret (err, size, buf, pos)
          else
            '(err, rem, rest, pos) ← read_data_loop disk fuel (u32 (size - csize))
                                       (set_cluster_pos (u32 (cluster_pos pos + csize)) pos);
            mret (err, rem, buf ++ rest, pos)
    end
  else mret (ENOERR, size, [], pos).

(** Returns the error, [*len], the buffer and the position. *)
Definition read_data disk (len : Z) pos : M B (Z * Z * list byte * fatfs_data_pos_t) :=
  '(err, rem, buf, pos) ← read_data_loop disk (Z.to_nat len) len pos;
  mret (err, u32 (len - rem), buf, pos).

Fixpoint write_data_loop disk (fuel : nat) (buf : list byte) (size : Z) pos :
    M B (Z * Z * fatfs_data_pos_t) :=
  if size >? 0 then
    match fuel with
    | O => crash
    | S fuel =>
        '(err, pos) ← (if cluster_pos pos >=? cluster_size disk
                       then get_next_cluster disk pos CO_EXTEND else mret (ENOERR, pos));
        if negb (err =? ENOERR) then mret (err, size, pos)
        else
          '(err, csize) ← disk_cluster_write disk buf (data_chunk disk pos size)
                            (cluster pos) (cluster_pos pos);
          if negb (err =? ENOERR) then mret (err, size, pos)
          else
            write_data_loop disk fuel (drop (Z.to_nat csize) buf) (u32 (size - csize))
              (set_cluster_pos (u32 (cluster_pos pos + csize)) pos)
    end
  else mret (ENOERR, size, pos).

Definition write_data disk (buf : list byte) (len : Z) pos : M B (Z * Z * fatfs_data_pos_t) :=
  '(err, rem, pos) ← write_data_loop disk (Z.to_nat len) buf len pos;
  mret (err, u32 (len - rem), pos).

Definition fatfs_read_data disk file pos (len : Z) : M B (Z * Z * list byte * fatfs_data_pos_t) :=
  read_data disk len pos.

(** Returns the error, [*len], the position and the file. *)
Definition fatfs_write_data disk file pos (buf : list byte) (len : Z) :
    M B (Z * Z * fatfs_data_pos_t * fatfs_dir_entry_t) :=
  if (0 =? size file) && (0 =? d_cluster file) then
    '(err, free_cluster) ← find_next_free_cluster disk 0 CO_MARK_LAST;
    if negb (err =? ENOERR) then mret (err, 0, pos, file)
    else
      let file := set_d_cluster free_cluster file in
      '(err, n, pos) ← write_data disk buf len (fatfs_initpos file);
      mret (err, n, pos, file)
  else
    '(err, n, pos) ← write_data disk buf len pos;
    mret (err, n, pos, file).
End File.

(** ** The file as an array of bytes *)
Section Spec.
Context {B : Type} {lib : BlockLibrary B} {log2 : Z} {store : BlockStore lib log2}.
Context (disk : fatfs_disk_t) (Hwf : disk_wf log2 disk).
Implicit Types (b : B) (l : list Z) (pos : fatfs_data_pos_t).

Definition file_at b l (o : Z) : byte :=
  content b (cluster_off disk (nthZ l (o / cluster_size disk)) (o mod cluster_size disk)).

Definition file_read b l (o : Z) (n : nat) : list byte :=
  (fun i => file_at b l (o + Z.of_nat i)) <$> seq 0 n.

Definition file_room l : Z := Z.of_nat (length l) * cluster_size disk.

Lemma cs_pos : 32 <= cluster_size disk <= 2 ^ 30.
Proof. by destruct (wf_offsets _ _ Hwf) as (_ & _ & _ & H & _). Qed.

(** The byte at a position. *)
Lemma file_at_pos b l pos j :
  pos_in l pos -> 0 <= j < cluster_size disk ->
  file_at b l (cluster_snum pos * cluster_size disk + j)
  = content b (cluster_off disk (cluster pos) j).
Proof.
  intros [Hs Hp] Hj. unfold file_at. pose proof cs_pos.
  rewrite Z.div_add_l, Z.div_small, Z.add_0_r by lia.
  rewrite Z.add_comm, Z.mod_add, Z.mod_small by lia.
  unfold nthZ. by rewrite nth_lookup, Hp.
Qed.

Lemma file_read_length b l o n : length (file_read b l o n) = n.
Proof. unfold file_read. by rewrite length_fmap, length_seq. Qed.

Lemma file_read_app b l o n1 n2 :
  file_read b l o (n1 + n2) = file_read b l o n1 ++ file_read b l (o + Z.of_nat n1) n2.
Proof.
  unfold file_read. rewrite seq_app, fmap_app. f_equal. cbn.
  rewrite <- (Nat.add_0_r n1) at 1. rewrite <- fmap_add_seq, <- list_fmap_compose.
  apply list_fmap_ext. intros i x _. cbn. f_equal. lia.
Qed.

Lemma file_read_ext b b' l o n : content b' = content b -> file_read b' l o n = file_read b l o n.
Proof. intros Hc. unfold file_read, file_at. by rewrite Hc. Qed.

(** A piece that does not leave the cluster of the position. *)
Lemma file_read_cluster b l pos n :
  pos_in l pos -> 0 <= cluster_pos pos -> cluster_pos pos + Z.of_nat n <= cluster_size disk ->
  img_read (content b) (cluster_off disk (cluster pos) (cluster_pos pos)) n
  = file_read b l (pos_offset disk pos) n.
Proof.
  intros Hp H0 Hn. unfold img_read, file_read. apply list_fmap_ext.
  intros i x [-> Hi]%lookup_seq. cbn. unfold pos_offset.
  rewrite <- Z.add_assoc, file_at_pos by (done || lia).
  unfold cluster_off. f_equal. lia.
Qed.

Lemma pos_in_valid b f0 l pos : chain disk (fat disk b) f0 l -> pos_in l pos -> valid_cluster disk (cluster pos).
Proof.
  intros Hch [_ Hp]. pose proof (chain_valid _ _ _ _ Hch) as Hva. rewrite Forall_forall in Hva.
  apply Hva. by eapply list_elem_of_lookup_2.
Qed.

Lemma data_chunk_spec pos size :
  0 <= cluster_pos pos < cluster_size disk ->
  data_chunk disk pos size = Z.min size (cluster_size disk - cluster_pos pos).
Proof.
  intros H. pose proof cs_pos. unfold data_chunk. rewrite uwrap_small by lia.
  destruct (Z.gtb_spec size (cluster_size disk - cluster_pos pos)); lia.
Qed.

(** ** Reading *)
(** A position within a chain, possibly at the end of a cluster. *)
Definition pos_ok l pos : Prop := pos_in l pos /\ 0 <= cluster_pos pos <= cluster_size disk.

Lemma pos_offset_bound l pos : pos_ok l pos -> 0 <= pos_offset disk pos <= file_room l.
Proof.
  intros [[Hs Hp] Hc]. apply lookup_lt_Some in Hp. unfold pos_offset, file_room.
  pose proof cs_pos. nia.
Qed.

(** At the end of its cluster, a position moves to the next one. *)
Lemma turn_page_spec b f0 l pos opts :
  good b -> chain disk (fat disk b) f0 l -> pos_ok l pos ->
  wp (if cluster_pos pos >=? cluster_size disk then get_next_cluster disk pos opts
      else mret (ENOERR, pos)) (fun '(err, pos') b' =>
    good b' /\ only_changes (claim_region disk b opts) b b' /\
    (has_opt opts CO_EXTEND = false -> content b' = content b) /\
    ((err = ENOERR /\ exists l', extended disk b b' l l' opts /\ pos_ok l' pos' /\
        cluster_pos pos' < cluster_size disk /\ pos_offset disk pos' = pos_offset disk pos /\
        (l' <> l -> cluster_snum pos' = Z.of_nat (length l))) \/
     (err <> ENOERR /\ pos_ok l pos' /\
        (err = EEOF -> has_opt opts CO_EXTEND = false ->
         pos_offset disk pos' = pos_offset disk pos /\ pos_offset disk pos = file_room l)))) b.
Proof.
  intros Hb Hch [Hp Hc]. destruct (Z.geb_spec (cluster_pos pos) (cluster_size disk)).
  2: { apply wp_ret. split; [done|]. split; [done|]. split; [done|]. left. split; [done|].
       exists l. split; [by left|]. split; [done|]. split_and!; [lia|done|done]. }
  pose proof cs_pos.
  eapply wp_mono; [eapply (get_next_cluster_spec disk Hwf b f0 l pos opts); done|].
  intros [err pos1] b1 (Hb1 & Hch1 & Hs1 & Hr). do 3 (split; [done|]).
  destruct Hr as [(-> & Hcp & l' & He & Hp1 & Hsn & Hnew)|(Herr & Hcp & Hp1 & Heof)].
  - left. split; [done|]. exists l'. split; [done|]. unfold pos_ok, pos_offset.
    rewrite Hcp, Hsn. split_and!; try done; try lia. by rewrite <- Hsn.
  - right. split; [done|]. split; [split; [done|lia]|]. intros He Ho.
    destruct (Heof He Ho) as [H1 H2]. unfold pos_offset, file_room. rewrite H1, H2, Hcp. lia.
Qed.

(** What a read of [size] bytes answers, [rem] of which are left. *)
Definition data_read b l pos size (r : Z * Z * list byte * fatfs_data_pos_t) b' : Prop :=
  let '(err, rem, buf, pos') := r in
  good b' /\ content b' = content b /\ 0 <= rem <= size /\
  take (Z.to_nat (size - rem)) buf
    = file_read b l (pos_offset disk pos) (Z.to_nat (size - rem)) /\
  (err = ENOERR -> rem = 0) /\
  (err = EEOF -> 0 < rem /\ pos_offset disk pos + (size - rem) = file_room l) /\
  pos_ok l pos' /\
  (err = ENOERR \/ err = EEOF -> pos_offset disk pos' = pos_offset disk pos + (size - rem)).

Lemma disk_cluster_read_no_eof len c p :
  returns (fun r => r.1.1 <> EEOF) (disk_cluster_read (lib := lib) disk len c p).
Proof. unfold disk_cluster_read. apply returns_any. intros [blk bp]. apply store_no_eof. Qed.

Lemma read_data_loop_spec f0 l fuel : forall b size pos,
  good b -> chain disk (fat disk b) f0 l -> pos_ok l pos -> 0 <= size <= Z.of_nat fuel ->
  size < 2 ^ 32 ->
  wp (read_data_loop disk fuel size pos) (data_read b l pos size) b.
Proof.
  pose proof cs_pos as Hcs.
  induction fuel as [|fuel IH]; intros b size pos Hb Hch Hp Hsize Hmax; cbn [read_data_loop];
    destruct (Z.gtb_spec size 0); try lia.
  1,3: apply wp_ret; replace size with 0 by lia; split_and!; try done; intros; lia.
  apply wp_bind. eapply wp_mono; [by eapply turn_page_spec|].
  intros [err pos1] b1 (Hb1 & _ & Hc1 & Hr). specialize (Hc1 eq_refl). cbn beta iota.
  destruct Hr as [(-> & l' & [[_ ->]|[? _]] & Hp1 & Hlt & Ho1 & _)|(Herr & Hp1 & Heof)]; [|done|].
  2: { rewrite (proj2 (Z.eqb_neq err ENOERR)) by done. apply wp_ret.
       split_and!; try done; try lia.
       - by rewrite Z.sub_diag.
       - intros He. destruct (Heof He eq_refl). lia.
       - intros [He|He]; [done|]. destruct (Heof He eq_refl). lia. }
  cbn [negb Z.eqb ENOERR]. destruct Hp1 as [Hp1 Hcp1].
  rewrite data_chunk_spec by lia. remember (Z.min size (cluster_size disk - cluster_pos pos1)) as c.
  assert (chain disk (fat disk b1) f0 l) as Hch1.
  { eapply chain_ext; [done|]. intros x _. unfold fat. by rewrite Hc1. }
  apply wp_bind. eapply wp_mono.
  { eapply wp_returns; [apply disk_cluster_read_no_eof|].
    apply (disk_cluster_read_spec disk); [done|done|by eapply pos_in_valid|lia..]. }
  intros [[err csize] buf] b2 [Heof (Hb2 & Hc2 & Ht & ->)]. cbn in Heof |- *.
  destruct (Z.eqb_spec err ENOERR) as [->|Herr]; cbn [negb].
  2: { apply wp_ret. destruct Ht as [[? _]|[_ Ht]]; [done|].
       split_and!; try done; try lia; try congruence; by rewrite Z.sub_diag. }
  destruct Ht as [[_ ->]|[? _]]; [|done].
  rewrite (uwrap_small 32 (size - c)), (uwrap_small 32 (cluster_pos pos1 + c)) by lia.
  assert (chain disk (fat disk b2) f0 l) as Hch2.
  { eapply chain_ext; [done|]. intros x _. unfold fat. by rewrite Hc2. }
  assert (pos_ok l (set_cluster_pos (cluster_pos pos1 + c) pos1)) as Hp2.
  { split; [done|]. cbn. lia. }
  apply wp_bind. eapply wp_mono; [apply IH; [done|done|done|lia|lia]|].
  intros [[[err rem] rest] pos3] b3 (Hb3 & Hc3 & Hrem & Hrest & He1 & He2 & Hp3 & Ho3).
  assert (pos_offset disk (set_cluster_pos (cluster_pos pos1 + c) pos1) = pos_offset disk pos + c)
    as Ho2 by (rewrite <- Ho1; unfold pos_offset; cbn; lia).
  rewrite Ho2 in *. apply wp_ret. split; [done|]. split; [congruence|]. split; [lia|].
  split; [|split; [done|split; [intros He; specialize (He2 He); lia|
    split; [done|intros He; specialize (Ho3 He); lia]]]].
  replace (Z.to_nat (size - rem)) with (Z.to_nat c + Z.to_nat (size - c - rem))%nat by lia.
  rewrite file_read_app, Z2Nat.id by lia. rewrite (file_read_cluster b1 l pos1) by (done || lia).
  rewrite Ho1, (file_read_ext b b1) by done.
  rewrite take_app, file_read_length, take_ge by (rewrite file_read_length; lia). f_equal.
  replace (Z.to_nat c + Z.to_nat (size - c - rem) - Z.to_nat c)%nat with (Z.to_nat (size - c - rem))
    by lia.
  rewrite Hrest. apply file_read_ext. congruence.
Qed.

(** ** Growing chains *)

(** The chain [l] has become [l'], with clusters that were free; the entries of
    the other clusters are as they were. *)
Record grown b b' l l' : Prop := {
  gr_prefix : l `prefix_of` l';
  gr_from k : k ∈ l' -> k ∈ l \/ (valid_cluster disk k /\ is_free disk b k);
  gr_same k : entry_index disk k -> k ∉ l' -> fat disk b' k = fat disk b k;
}.

Lemma grown_refl b b' l : (forall k, entry_index disk k -> fat disk b' k = fat disk b k) -> grown b b' l l.
Proof. intros H. constructor; [done|by left|auto]. Qed.

Lemma grown_trans b1 b2 b3 l1 l2 l3 : grown b1 b2 l1 l2 -> grown b2 b3 l2 l3 -> grown b1 b3 l1 l3.
Proof.
  intros [P1 F1 S1] [P2 F2 S2]. constructor; [by etrans| |].
  - intros k Hk. destruct (F2 k Hk) as [Hk2|[Hv Hf]]; [auto|].
    destruct (decide (k ∈ l2)); [auto|]. right. split; [done|]. unfold is_free in *.
    rewrite <- S1; [done|by apply valid_index|done].
  - intros k Hi Hk. rewrite S2, S1; try done. intros Hk2. apply Hk.
    destruct P2 as [r ->]. apply elem_of_app. by left.
Qed.

Lemma extended_grown b b' f0 l l' opts :
  chain disk (fat disk b) f0 l -> extended disk b b' l l' opts -> grown b b' l l'.
Proof.
  intros Hch [[Hc ->]|(_ & c & new & Hlast & Hne & -> & [Hv Hf Hfat _])].
  - apply grown_refl. intros k _. unfold fat. by rewrite Hc.
  - constructor.
    + by apply prefix_app_r.
    + intros k [Hk| ->%list_elem_of_singleton]%elem_of_app; [by left|by right].
    + intros k Hi Hk. rewrite not_elem_of_app, list_elem_of_singleton in Hk.
      rewrite Hfat by done. rewrite !decide_False; [done|tauto|].
      intros ->. apply (proj1 Hk). by apply last_Some_elem_of.
Qed.

(** Where a write to the file may change the disk. *)
Definition file_region b l (x : Z) : Prop :=
  in_tables disk x \/
  exists k, valid_cluster disk k /\ (k ∈ l \/ is_free disk b k) /\ in_cluster disk k x.

Lemma file_region_grown b b' l l' x :
  grown b b' l l' -> file_region b' l' x -> file_region b l x.
Proof.
  intros [P F S] [Ht|(k & Hv & Hk & Hx)]; [by left|right]. exists k. split; [done|]. split; [|done].
  destruct (decide (k ∈ l')) as [Hin|Hin].
  - destruct (F k Hin) as [?|[_ ?]]; auto.
  - destruct Hk as [?|Hf]; [done|]. right. unfold is_free in *.
    rewrite <- S; [done|by apply valid_index|done].
Qed.

(** ** Bytes of a file after a write *)
Lemma nthZ_in l i : 0 <= i < Z.of_nat (length l) -> nthZ l i ∈ l.
Proof. intros Hi. unfold nthZ. apply list_elem_of_In, nth_In. lia. Qed.

Lemma file_index o l :
  0 <= o < file_room l ->
  0 <= o / cluster_size disk < Z.of_nat (length l) /\ 0 <= o mod cluster_size disk < cluster_size disk /\
  o = o / cluster_size disk * cluster_size disk + o mod cluster_size disk.
Proof.
  intros Ho. pose proof cs_pos. unfold file_room in Ho.
  pose proof (Z.div_mod o (cluster_size disk)). pose proof (Z.mod_pos_bound o (cluster_size disk)).
  split; [|lia]. split; [apply Z.div_pos; lia|apply Z.div_lt_upper_bound; lia].
Qed.

(** A longer chain over the same data holds the same bytes. *)
Lemma file_at_prefix b b' f0 l l' o :
  chain disk (fat disk b) f0 l -> l `prefix_of` l' -> only_changes (in_tables disk) b b' ->
  0 <= o < file_room l -> file_at b' l' o = file_at b l o.
Proof.
  intros Hch [r ->] Hc Ho. destruct (file_index o l Ho) as (Hq & Hr & _). unfold file_at.
  assert (nthZ (l ++ r) (o / cluster_size disk) = nthZ l (o / cluster_size disk)) as ->
    by (unfold nthZ; apply app_nth1; lia).
  apply Hc. pose proof (chain_valid _ _ _ _ Hch) as Hva. rewrite Forall_forall in Hva.
  eapply (cluster_not_table disk Hwf); [apply Hva, nthZ_in, Hq|].
  unfold in_cluster, cluster_off. lia.
Qed.

(** A piece written into the cluster of a position. *)
Lemma file_at_write b b' f0 l pos src o :
  chain disk (fat disk b) f0 l -> pos_in l pos -> 0 <= cluster_pos pos ->
  cluster_pos pos + Z.of_nat (length src) <= cluster_size disk ->
  content b' = img_write (content b) (cluster_off disk (cluster pos) (cluster_pos pos)) src ->
  0 <= o < file_room l ->
  file_at b' l o =
    if decide (pos_offset disk pos <= o < pos_offset disk pos + Z.of_nat (length src))
    then nthZ src (o - pos_offset disk pos) else file_at b l o.
Proof.
  intros Hch Hp H0 Hsrc Hc Ho. destruct (file_index o l Ho) as (Hq & Hr & Heq).
  pose proof cs_pos. pose proof Hp as [Hs Hpl]. unfold file_at. rewrite Hc. unfold pos_offset.
  set (q := o / cluster_size disk) in *. set (r := o mod cluster_size disk) in *.
  destruct (decide (q = cluster_snum pos)) as [Hqs|Hqs].
  - assert (nthZ l q = cluster pos) as -> by (unfold nthZ; rewrite nth_lookup, Hqs, Hpl; done).
    case_decide.
    + replace (cluster_off disk (cluster pos) r) with
        (cluster_off disk (cluster pos) (cluster_pos pos) + (r - cluster_pos pos))
        by (unfold cluster_off; lia).
      rewrite img_write_in by lia. f_equal. lia.
    + apply img_write_out. unfold cluster_off. lia.
  - rewrite decide_False by nia. apply img_write_out. intros Hx. apply Hqs.
    assert (nthZ l q = cluster pos) as Hsame.
    { eapply (cluster_disjoint disk Hwf (nthZ l q) (cluster pos) (cluster_off disk (nthZ l q) r));
        unfold in_cluster, cluster_off in *; lia. }
    assert (l !! Z.to_nat q = Some (cluster pos)) as Hlq.
    { rewrite <- Hsame. unfold nthZ. rewrite nth_lookup.
      destruct (lookup_lt_is_Some_2 l (Z.to_nat q)) as [x Hx']; [lia|]. by rewrite Hx'. }
    pose proof (NoDup_lookup _ _ _ _ (chain_nodup _ _ _ _ Hch) Hlq Hpl). lia.
Qed.

(** [src] has been written at offset [off] of the file. *)
Record written b b' f0 l l' off (src : list byte) : Prop := {
  wr_chain : chain disk (fat disk b') f0 l';
  wr_grown : grown b b' l l';
  wr_data o : 0 <= o < file_room l' -> off <= o < off + Z.of_nat (length src) ->
    file_at b' l' o = nthZ src (o - off);
  wr_rest o : 0 <= o < file_room l -> ~ (off <= o < off + Z.of_nat (length src)) ->
    file_at b' l' o = file_at b l o;
}.

Lemma file_room_prefix l l' : l `prefix_of` l' -> file_room l <= file_room l'.
Proof. intros [r ->]. unfold file_room. rewrite length_app. pose proof cs_pos. nia. Qed.

Lemma written_nil b b' f0 l l' off :
  chain disk (fat disk b') f0 l' -> grown b b' l l' ->
  (forall o, 0 <= o < file_room l -> file_at b' l' o = file_at b l o) ->
  written b b' f0 l l' off [].
Proof.
  intros Hch Hg Hf. constructor; [done|done| |auto].
  intros o _ Hr. change (length (@nil Z)) with 0%nat in Hr. lia.
Qed.

Lemma written_app b1 b2 b3 f0 l1 l2 l3 off s1 s2 :
  written b1 b2 f0 l1 l2 off s1 -> off + Z.of_nat (length s1) <= file_room l2 -> 0 <= off ->
  written b2 b3 f0 l2 l3 (off + Z.of_nat (length s1)) s2 ->
  written b1 b3 f0 l1 l3 off (s1 ++ s2).
Proof.
  intros [C1 G1 D1 R1] Hroom Hoff [C2 G2 D2 R2].
  pose proof (file_room_prefix _ _ (gr_prefix _ _ _ _ G1)).
  constructor; [done|by eapply grown_trans| |]; rewrite length_app, Nat2Z.inj_add.
  - intros o Ho Hr. destruct (decide (o < off + Z.of_nat (length s1))).
    + rewrite R2, D1 by lia. unfold nthZ. rewrite app_nth1 by lia. done.
    + rewrite D2 by lia. unfold nthZ. rewrite app_nth2 by lia. f_equal. lia.
  - intros o Ho Hr. rewrite R2, R1 by lia. done.
Qed.

(** ** Writing *)

(** What a write of [size] bytes of [bbuf] answers. Without an error the bytes
    are in the file; in any case only its clusters, free ones and the tables have
    been touched. *)
Definition data_written b f0 l pos size bbuf (r : Z * Z * fatfs_data_pos_t) b' : Prop :=
  let '(err, rem, pos') := r in
  good b' /\ 0 <= rem <= size /\
  (forall x, ~ file_region b l x -> content b' x = content b x) /\
  (err = ENOERR -> rem = 0 /\ exists l',
     written b b' f0 l l' (pos_offset disk pos) (take (Z.to_nat size) bbuf) /\
     pos_ok l' pos' /\ pos_offset disk pos' = pos_offset disk pos + size).

(** One turn: a piece goes into the cluster of the position. *)
Lemma write_chunk_spec b f0 l pos bbuf c :
  good b -> chain disk (fat disk b) f0 l -> pos_in l pos -> 0 <= cluster_pos pos < cluster_size disk ->
  Forall is_byte bbuf -> 0 <= c <= Z.of_nat (length bbuf) ->
  cluster_pos pos + c <= cluster_size disk ->
  wp (disk_cluster_write disk bbuf c (cluster pos) (cluster_pos pos)) (fun '(err, n) b' =>
    good b' /\ 0 <= n <= c /\ only_changes (in_cluster disk (cluster pos)) b b' /\
    (err = ENOERR -> n = c /\
       written b b' f0 l l (pos_offset disk pos) (take (Z.to_nat c) bbuf))) b.
Proof.
  intros Hb Hch Hp Hcp Hbuf Hc Hend. pose proof (pos_in_valid _ _ _ _ Hch Hp) as Hv.
  eapply wp_mono; [apply (disk_cluster_write_spec disk); done || lia|].
  intros [err n] b' (Hb' & Ht & Hc'). split; [done|].
  assert (0 <= n <= c) as Hn by (destruct Ht; lia). split; [done|].
  assert (only_changes (in_cluster disk (cluster pos)) b b') as Hch'.
  { intros x Hx. rewrite Hc'. apply img_write_out. rewrite length_take.
    unfold in_cluster, cluster_off in *. lia. }
  split; [done|]. intros ->. destruct Ht as [[_ ->]|[? _]]; [|done]. split; [done|].
  assert (forall k, entry_index disk k -> fat disk b' k = fat disk b k) as Hf.
  { intros k Hk. eapply (fat_outside disk Hwf); [exact Hch'| |done].
    intros x. by apply (cluster_not_table disk Hwf). }
  assert (length (take (Z.to_nat c) bbuf) = Z.to_nat c) as Hl by (rewrite length_take; lia).
  pose proof (chain_valid _ _ _ _ Hch) as Hva. rewrite Forall_forall in Hva.
  constructor.
  - eapply chain_ext; [done|]. intros x Hx. by apply Hf, valid_index, Hva.
  - by apply grown_refl.
  - intros o Ho Hr. rewrite (file_at_write b b' f0 l pos (take (Z.to_nat c) bbuf)) by (done || lia).
    by rewrite decide_True.
  - intros o Ho Hr. rewrite (file_at_write b b' f0 l pos (take (Z.to_nat c) bbuf)) by (done || lia).
    by rewrite decide_False.
Qed.

Lemma write_data_loop_spec f0 fuel : forall b l bbuf size pos,
  good b -> chain disk (fat disk b) f0 l -> pos_ok l pos -> Forall is_byte bbuf ->
  0 <= size <= Z.of_nat fuel -> size < 2 ^ 32 -> size <= Z.of_nat (length bbuf) ->
  wp (write_data_loop disk fuel bbuf size pos) (data_written b f0 l pos size bbuf) b.
Proof.
  pose proof cs_pos as Hcs.
  induction fuel as [|fuel IH]; intros b l bbuf size pos Hb Hch Hp Hbuf Hsize Hmax Hlen;
    cbn [write_data_loop]; destruct (Z.gtb_spec size 0); try lia.
  1,3: apply wp_ret; replace size with 0 by lia; split_and!; try done; intros _;
    split; [done|]; exists l; rewrite Z.add_0_r; split_and!; try done;
    apply written_nil; [done|by apply grown_refl|done].
  apply wp_bind. eapply wp_mono; [by eapply turn_page_spec|].
  intros [err pos1] b1 (Hb1 & Hch1 & _ & Hr). cbn beta iota.
  assert (only_changes (in_tables disk) b b1) as Hct.
  { eapply only_changes_mono; [|done]. intros x [?|[? _]]; done. }
  assert (forall x, ~ file_region b l x -> content b1 x = content b x) as Hreg1.
  { intros x Hx. apply Hct. intros Ht. apply Hx. by left. }
  destruct (Z.eqb_spec err ENOERR) as [->|Herr]; cbn [negb].
  2: { apply wp_ret. split_and!; try done; lia. }
  destruct Hr as [(_ & l1 & Hext & [Hp1 Hcp1] & Hlt & Ho1 & _)|[? _]]; [|done].
  pose proof (extended_chain disk Hwf _ _ _ _ _ _ Hch Hext) as Hchain1.
  pose proof (extended_grown _ _ _ _ _ _ Hch Hext) as Hg1.
  rewrite data_chunk_spec by lia. remember (Z.min size (cluster_size disk - cluster_pos pos1)) as c.
  apply wp_bind. eapply wp_mono; [eapply write_chunk_spec; [done|done|done|lia|done|lia|lia]|].
  intros [err csize] b2 (Hb2 & Hcz & Hch2 & Hok). cbn beta iota.
  assert (forall x, ~ file_region b l x -> content b2 x = content b x) as Hreg2.
  { intros x Hx. rewrite Hch2; [by apply Hreg1|]. intros Hin. apply Hx.
    apply (file_region_grown b b1 l l1 x Hg1). right. exists (cluster pos1).
    split; [by eapply pos_in_valid|]. split; [left|done]. by eapply list_elem_of_lookup_2, Hp1. }
  destruct (Z.eqb_spec err ENOERR) as [->|Herr]; cbn [negb].
  2: { apply wp_ret. split_and!; try done; lia. }
  destruct (Hok eq_refl) as [-> Hw].
  rewrite (uwrap_small 32 (size - c)), (uwrap_small 32 (cluster_pos pos1 + c)) by lia.
  set (pos2 := set_cluster_pos (cluster_pos pos1 + c) pos1).
  assert (pos_ok l1 pos2) as Hp2 by (split; [done|cbn; lia]).
  assert (pos_offset disk pos2 = pos_offset disk pos + c) as Ho2
    by (rewrite <- Ho1; unfold pos_offset; cbn; lia).
  assert (written b b2 f0 l l1 (pos_offset disk pos) (take (Z.to_nat c) bbuf)) as Hw2.
  { rewrite <- (app_nil_l (take _ bbuf)).
    apply (written_app b b1 b2 f0 l l1 l1 (pos_offset disk pos) []).
    - apply written_nil; [done|done|]. intros o Ho.
      by apply (file_at_prefix b b1 f0 l l1 o Hch (gr_prefix _ _ _ _ Hg1)).
    - cbn. rewrite Z.add_0_r, <- Ho1. apply (pos_offset_bound l1). split; [done|lia].
    - rewrite <- Ho1. apply (pos_offset_bound l1). split; [done|lia].
    - cbn. by rewrite Z.add_0_r, <- Ho1. }
  eapply wp_mono; [apply (IH b2 l1); [done|by destruct Hw2|done|by apply Forall_drop|lia|lia|
    rewrite length_drop; lia]|].
  intros [[err rem] pos3] b3 (Hb3 & Hrem & Hreg3 & Hok3). split; [done|]. split; [lia|]. split.
  - intros x Hx. rewrite Hreg3; [by apply Hreg2|]. intros Hx'. apply Hx.
    eapply (file_region_grown b b2 l l1); [by destruct Hw2|done].
  - intros Herr. destruct (Hok3 Herr) as (-> & l3 & Hw3 & Hp3 & Ho3). split; [done|].
    exists l3. split; [|split; [done|lia]].
    replace (Z.to_nat size) with (Z.to_nat c + Z.to_nat (size - c))%nat by lia.
    assert (Z.of_nat (length (take (Z.to_nat c) bbuf)) = c) as Hl by (rewrite length_take; lia).
    rewrite <- take_take_drop. eapply written_app; [done| | |].
    + rewrite Hl. rewrite <- Ho2. by apply (pos_offset_bound l1).
    + rewrite <- Ho1. apply (pos_offset_bound l1). split; [done|lia].
    + by rewrite Hl, <- Ho2.
Qed.
End Spec.
