(* ===== verification/FatDentry.v ===== *)
(** * FAT file system: directory entries (fatfs_supp.c)

    The 32 bytes of an entry, the 8.3 form of file names, and the conversion
    between the entry on disk and the one the file system works with. *)
From S2P Require Import Prelude Blib BlibContract FatDate FatStore FatTable FatTableSpec FatChain.
From S2P Require Import FatFile.

Definition DENTRY_SIZE : Z := 0x20.
Definition SPACE : byte := 32.
Definition DOT : byte := 46.
Definition S_FATFS_DIR : Z := 0x10.
Definition S_FATFS_ARCHIVE : Z := 0x20.
(** [__stat_mode_DIR], [__stat_mode_REG] *)
Definition stat_mode_DIR : Z := Z.shiftl 1 0.
Definition stat_mode_REG : Z := Z.shiftl 1 3.
Definition S_ISDIR (mode : Z) : bool := negb (Z.land mode stat_mode_DIR =? 0).

(** [fat_raw_dir_entry_t]; the arrays without their terminator. *)
Record fat_raw_dir_entry_t := mk_raw {
  name : list byte;
  ext : list byte;
  attr : Z;
  nt_reserved : Z;
  crt_sec_100 : Z;
  crt_time : Z;
  crt_date : Z;
  acc_date : Z;
  cluster_HI : Z;
  wrt_time : Z;
  wrt_date : Z;
  cluster_LO : Z;
  raw_size : Z;
}.

Definition DENTRY_IS_DIR (d : fat_raw_dir_entry_t) : bool := negb (Z.land (attr d) S_FATFS_DIR =? 0).
Definition DENTRY_IS_DELETED (d : fat_raw_dir_entry_t) : bool := 0xE5 =? nthZ (name d) 0.
Definition DENTRY_IS_ZERO (d : fat_raw_dir_entry_t) : bool := 0x00 =? nthZ (name d) 0.

(** ** The bytes of an entry *)
Definition get_raw (data : list byte) : fat_raw_dir_entry_t := {|
  name := GET_BYTES data 8 0x00;
  ext := GET_BYTES data 3 0x08;
  attr := GET_BYTE data 0x0B;
  nt_reserved := GET_BYTE data 0x0C;
  crt_sec_100 := GET_BYTE data 0x0D;
  crt_time := GET_WORD data 0x0E;
  crt_date := GET_WORD data 0x10;
  acc_date := GET_WORD data 0x12;
  cluster_HI := GET_WORD data 0x14;
  wrt_time := GET_WORD data 0x16;
  wrt_date := GET_WORD data 0x18;
  cluster_LO := GET_WORD data 0x1A;
  raw_size := GET_DWORD data 0x1C;
|}.

Definition set_raw (d : fat_raw_dir_entry_t) : list byte :=
  name d ++ ext d ++ [attr d; nt_reserved d; crt_sec_100 d]
  ++ SET_WORD (crt_time d) ++ SET_WORD (crt_date d) ++ SET_WORD (acc_date d)
  ++ SET_WORD (cluster_HI d) ++ SET_WORD (wrt_time d) ++ SET_WORD (wrt_date d)
  ++ SET_WORD (cluster_LO d) ++ SET_DWORD (raw_size d).

Section Raw.
Context {B : Type} {lib : BlockLibrary B}.
Implicit Types (disk : fatfs_disk_t) (pos : fatfs_data_pos_t).

(** Position of cluster 0: the root directory of FAT12 and FAT16. *)
Definition read_raw_dentry disk pos : M B (Z * fat_raw_dir_entry_t) :=
  '(err, _, data) ←
    (if 0 =? cluster pos then
       disk_read DENTRY_SIZE (u32 (fat_root_dir_pos disk + cluster_pos pos))
     else disk_cluster_read disk DENTRY_SIZE (cluster pos) (cluster_pos pos));
  mret (err, get_raw data).

Definition write_raw_dentry disk pos (d : fat_raw_dir_entry_t) : M B Z :=
  '(err, _) ←
    (if 0 =? cluster pos then
       disk_write (set_raw d) DENTRY_SIZE (u32 (fat_root_dir_pos disk + cluster_pos pos))
     else disk_cluster_write disk (set_raw d) DENTRY_SIZE (cluster pos) (cluster_pos pos));
  mret err.
End Raw.

Definition raw_dentry_set_deleted (d : fat_raw_dir_entry_t) : fat_raw_dir_entry_t :=
  mk_raw (0xE5 :: tail (name d)) (ext d) (attr d) (nt_reserved d) (crt_sec_100 d) (crt_time d)
    (crt_date d) (acc_date d) (cluster_HI d) (wrt_time d) (wrt_date d) (cluster_LO d) (raw_size d).

(** ** File names *)

(** [while ( *cptr != ' ' && i < n)]: the characters before the first space. *)
Fixpoint before_space (n : nat) (cptr : list byte) : list byte :=
  match n, cptr with
  | S n, c :: cptr => if c =? SPACE then [] else c :: before_space n cptr
  | _, _ => []
  end.

Definition get_raw_dentry_filename (d : fat_raw_dir_entry_t) : list byte :=
  before_space 8 (name d)
  ++ (if nthZ (ext d) 0 =? SPACE then [] else DOT :: before_space 3 (ext d)).

Definition toupper (c : Z) : Z := if (97 <=? c) && (c <=? 122) then c - 97 + 65 else c.

(** The character at the start of a C string: 0 at its end. *)
Definition char_at (cname : list byte) : byte := hd 0 cname.
Definition is_name_char (c : byte) : bool := negb (c =? DOT) && negb (c =? 0).

(** The two [for] loops; [nidx++ < namelen] counts whenever it is evaluated. *)
Fixpoint fill_name (n : nat) (cname : list byte) (nidx namelen : Z) : list byte * list byte * Z :=
  match n with
  | O => ([], cname, nidx)
  | S n =>
      if is_name_char (char_at cname) then
        if nidx <? namelen then
          let '(out, cname', nidx') := fill_name n (tail cname) (nidx + 1) namelen in
          (toupper (char_at cname) :: out, cname', nidx')
        else
          let '(out, cname', nidx') := fill_name n cname (nidx + 1) namelen in
          (SPACE :: out, cname', nidx')
      else
        let '(out, cname', nidx') := fill_name n cname nidx namelen in
        (SPACE :: out, cname', nidx')
  end.

(** [while ( *cname != '.' && *cname != '\0' && nidx++ < namelen) cname++] *)
Fixpoint skip_name (cname : list byte) (nidx namelen : Z) : list byte * Z :=
  match cname with
  | [] => ([], nidx)
  | c :: rest =>
      if is_name_char c then
        if nidx <? namelen then skip_name rest (nidx + 1) namelen else (cname, nidx + 1)
      else (cname, nidx)
  end.

(** Returns [dentry->name] and [dentry->ext]. *)
Definition set_raw_dentry_filename (name : list byte) (namelen : Z) : list byte * list byte :=
  if (DOT =? char_at name) && (0 =? char_at (tail name)) then
    (DOT :: replicate 7 SPACE, replicate 3 SPACE)
  else if (DOT =? char_at name) && (DOT =? char_at (tail name)) && (0 =? char_at (tail (tail name)))
  then (DOT :: DOT :: replicate 6 SPACE, replicate 3 SPACE)
  else
    let namelen := if 0 =? namelen then 9999 else namelen in
    let '(base, cname, nidx) := fill_name 8 name 0 namelen in
    let '(cname, nidx) := skip_name cname nidx namelen in
    let '(cname, nidx) :=
      if DOT =? char_at cname then
        (if nidx <? namelen then tail cname else cname, nidx + 1) else (cname, nidx) in
    let '(extension, _, _) := fill_name 3 cname nidx namelen in
    (base, extension).

(** ** Entries *)
Definition raw_to_dentry (d : fat_raw_dir_entry_t) (pos : fatfs_data_pos_t) (parent : Z) :
    fatfs_dir_entry_t := {|
  filename := get_raw_dentry_filename d;
  mode := if DENTRY_IS_DIR d then stat_mode_DIR else stat_mode_REG;
  size := raw_size d;
  ctime := date_dos2unix (crt_time d) (crt_date d);
  atime := date_dos2unix 0 (acc_date d);
  mtime := date_dos2unix (wrt_time d) (wrt_date d);
  priv_data := nt_reserved d;
  d_cluster := Z.lor (cluster_LO d) (Z.shiftl (cluster_HI d) 16);
  parent_cluster := parent;
  disk_pos := pos;
|}.

Definition dentry_to_raw (d : fatfs_dir_entry_t) : fat_raw_dir_entry_t :=
  let '(raw_name, raw_ext) := set_raw_dentry_filename (filename d) 0 in
  let '(crt_t, crt_d) := date_unix2dos (ctime d) in
  let '(_, acc_d) := date_unix2dos (atime d) in
  let '(wrt_t, wrt_d) := date_unix2dos (mtime d) in
  {| name := raw_name;
     ext := raw_ext;
     attr := if stat_mode_DIR =? mode d then S_FATFS_DIR else S_FATFS_ARCHIVE;
     nt_reserved := priv_data d;
     crt_sec_100 := 0;
     crt_time := crt_t;
     crt_date := crt_d;
     acc_date := acc_d;
     cluster_HI := u16 (Z.shiftr (d_cluster d) 16);
     wrt_time := wrt_t;
     wrt_date := wrt_d;
     cluster_LO := Z.land (d_cluster d) 0xFFFF;
     raw_size := size d |}.

(** ** Round trips *)

(** Field widths of an entry. *)
Record raw_ok (d : fat_raw_dir_entry_t) : Prop := {
  ro_name : length (name d) = 8%nat /\ Forall is_byte (name d);
  ro_ext : length (ext d) = 3%nat /\ Forall is_byte (ext d);
  ro_bytes : is_byte (attr d) /\ is_byte (nt_reserved d) /\ is_byte (crt_sec_100 d);
  ro_words : fits 16 (crt_time d) /\ fits 16 (crt_date d) /\ fits 16 (acc_date d) /\
    fits 16 (cluster_HI d) /\ fits 16 (wrt_time d) /\ fits 16 (wrt_date d) /\ fits 16 (cluster_LO d);
  ro_size : fits 32 (raw_size d);
}.

Lemma set_raw_bytes d : raw_ok d -> Forall is_byte (set_raw d).
Proof.
  intros [[_ Hn] [_ He] (H1 & H2 & H3) _ _]. unfold set_raw.
  repeat (apply Forall_app; split); auto using SET_WORD_bytes, SET_DWORD_bytes.
Qed.

Lemma set_raw_length d : raw_ok d -> length (set_raw d) = 32%nat.
Proof. intros [[Hn _] [He _] _ _ _]. unfold set_raw. by rewrite !length_app, Hn, He. Qed.

Lemma word_parts v : fits 16 v -> Z.land v 0xff + 256 * Z.land (Z.shiftr v 8) 0xff = v.
Proof.
  unfold fits. intros Hv. rewrite !land_255, Z.shiftr_div_pow2 by lia.
  Z.to_euclidean_division_equations; lia.
Qed.

Lemma dword_parts v :
  fits 32 v -> Z.land v 0xff + 256 * Z.land (Z.shiftr v 8) 0xff
    + 65536 * Z.land (Z.shiftr v 16) 0xff + 16777216 * Z.land (Z.shiftr v 24) 0xff = v.
Proof.
  unfold fits. intros Hv. rewrite !land_255, !Z.shiftr_div_pow2 by lia.
  Z.to_euclidean_division_equations; lia.
Qed.

Lemma get_set_raw d : raw_ok d -> get_raw (set_raw d) = d.
Proof.
  intros Hok. pose proof (set_raw_bytes d Hok) as Hb. destruct Hok as [[Hn _] [He _] _ Hw Hs].
  unfold get_raw. rewrite !GET_WORD_eq, GET_DWORD_eq by done. clear Hb.
  destruct d as [nm ex a nt cs ct cd ad hi wt wd lo sz]. cbn in Hn, He, Hw, Hs.
  destruct nm as [|n0 [|n1 [|n2 [|n3 [|n4 [|n5 [|n6 [|n7 [|]]]]]]]]]; try discriminate.
  destruct ex as [|e0 [|e1 [|e2 [|]]]]; try discriminate.
  destruct Hw as (H1 & H2 & H3 & H4 & H5 & H6 & H7).
  unfold set_raw, SET_WORD, SET_DWORD, GET_BYTES, GET_BYTE, nthZ. cbn [name ext attr nt_reserved
    crt_sec_100 crt_time crt_date acc_date cluster_HI wrt_time wrt_date cluster_LO raw_size app].
  change (mk_raw [n0; n1; n2; n3; n4; n5; n6; n7] [e0; e1; e2] a nt cs
    (Z.land ct 0xff + 256 * Z.land (Z.shiftr ct 8) 0xff)
    (Z.land cd 0xff + 256 * Z.land (Z.shiftr cd 8) 0xff)
    (Z.land ad 0xff + 256 * Z.land (Z.shiftr ad 8) 0xff)
    (Z.land hi 0xff + 256 * Z.land (Z.shiftr hi 8) 0xff)
    (Z.land wt 0xff + 256 * Z.land (Z.shiftr wt 8) 0xff)
    (Z.land wd 0xff + 256 * Z.land (Z.shiftr wd 8) 0xff)
    (Z.land lo 0xff + 256 * Z.land (Z.shiftr lo 8) 0xff)
    (Z.land sz 0xff + 256 * Z.land (Z.shiftr sz 8) 0xff
      + 65536 * Z.land (Z.shiftr sz 16) 0xff + 16777216 * Z.land (Z.shiftr sz 24) 0xff)
    = mk_raw [n0; n1; n2; n3; n4; n5; n6; n7] [e0; e1; e2] a nt cs ct cd ad hi wt wd lo sz).
  by rewrite dword_parts, !word_parts.
Qed.

(** ** File names: the 8.3 form *)

(** A character of a base name or of an extension. *)
Definition name_char (c : byte) : Prop := is_byte c /\ c <> 0 /\ c <> DOT /\ c <> SPACE.

(** A name with its extension, and the characters of the file name. *)
Record name83 (base extension : list byte) : Prop := {
  n83_base : (1 <= length base <= 8)%nat;
  n83_ext : (length extension <= 3)%nat;
  n83_base_chars : Forall name_char base;
  n83_ext_chars : Forall name_char extension;
}.
Definition join83 (base extension : list byte) : list byte :=
  base ++ match extension with [] => [] | _ => DOT :: extension end.
Definition pad (n : nat) (s : list byte) : list byte := s ++ replicate (n - length s) SPACE.

Lemma name_char_spec c : name_char c -> is_name_char c = true /\ toupper c <> SPACE /\ is_byte (toupper c).
Proof.
  intros (Hb & H0 & Hd & Hs). unfold is_name_char, toupper, DOT, SPACE, is_byte in *. split.
  - rewrite !(proj2 (Z.eqb_neq _ _)) by done. done.
  - destruct (Z.leb_spec 97 c), (Z.leb_spec c 122); cbn [andb]; lia.
Qed.

Lemma fill_name_pad n : forall cname nidx namelen,
  is_name_char (char_at cname) = false -> fill_name n cname nidx namelen = (replicate n SPACE, cname, nidx).
Proof. induction n as [|n IH]; intros cname nidx namelen H; cbn [fill_name]; [done|]. by rewrite H, IH. Qed.

Lemma fill_name_chars s : forall n rest nidx namelen,
  Forall name_char s -> (length s <= n)%nat -> is_name_char (char_at rest) = false ->
  nidx + Z.of_nat (length s) <= namelen ->
  fill_name n (s ++ rest) nidx namelen
  = (pad n (map toupper s), rest, nidx + Z.of_nat (length s)).
Proof.
  induction s as [|c s IH]; intros n rest nidx namelen Hs Hn Hr Hl.
  { cbn [app map]. rewrite fill_name_pad by done. unfold pad. cbn. by rewrite Nat.sub_0_r, Z.add_0_r. }
  apply Forall_cons in Hs as [Hc Hs]. destruct n as [|n]; [cbn in Hn; lia|].
  cbn [length] in *. cbn [app fill_name char_at hd tail].
  rewrite (proj1 (name_char_spec c Hc)), (proj2 (Z.ltb_lt _ _)) by lia.
  rewrite IH by (done || lia). unfold pad. cbn [map app length]. rewrite Nat2Z.inj_succ.
  f_equal. lia.
Qed.

Lemma skip_name_stop cname nidx namelen :
  is_name_char (char_at cname) = false -> skip_name cname nidx namelen = (cname, nidx).
Proof. destruct cname as [|c cname]; cbn; [done|]. by intros ->. Qed.

Lemma before_space_pad n s :
  Forall (fun c => c <> SPACE) s -> (length s <= n)%nat -> before_space n (pad n s) = s.
Proof.
  intros Hs. revert n. induction Hs as [|c s Hc Hs IH]; intros n Hn.
  - unfold pad. cbn. rewrite Nat.sub_0_r. by destruct n.
  - destruct n as [|n]; cbn in Hn; [lia|]. unfold pad. cbn.
    rewrite (proj2 (Z.eqb_neq c SPACE)) by done. f_equal. apply IH. lia.
Qed.

Lemma upper_not_space s : Forall name_char s -> Forall (fun c => c <> SPACE) (map toupper s).
Proof.
  intros Hs. apply Forall_map. eapply Forall_impl; [done|]. intros c Hc. by apply name_char_spec.
Qed.

Lemma set_filename_83 base extension namelen :
  name83 base extension -> 13 <= namelen \/ namelen = 0 ->
  set_raw_dentry_filename (join83 base extension) namelen
  = (pad 8 (map toupper base), pad 3 (map toupper extension)).
Proof.
  intros [Hb He Hbc Hec] Hlen. unfold set_raw_dentry_filename.
  assert (is_name_char (char_at (match extension with [] => [] | _ => DOT :: extension end)) = false)
    as Hstop by by destruct extension.
  assert (DOT =? char_at (join83 base extension) = false) as ->.
  { destruct base as [|c base]; [cbn in Hb; lia|]. apply Forall_cons in Hbc as [(_ & _ & Hd & _) _].
    change (DOT =? c = false). apply Z.eqb_neq. congruence. }
  cbn [andb]. set (len := if 0 =? namelen then 9999 else namelen).
  assert (13 <= len) as Hl by (unfold len; destruct (Z.eqb_spec 0 namelen); lia).
  unfold join83. rewrite fill_name_chars by (done || lia).
  rewrite skip_name_stop by done. destruct extension as [|e extension].
  - cbn [char_at hd]. change (DOT =? 0) with false. cbn iota. by rewrite fill_name_pad.
  - cbn [char_at hd tail]. rewrite Z.eqb_refl, (proj2 (Z.ltb_lt _ _)) by lia.
    rewrite <- (app_nil_r (e :: extension)) at 1.
    rewrite fill_name_chars; try done. cbn [length] in *. lia.
Qed.

(** An entry named from a file name gives the name back, in upper case. *)
Lemma get_filename_83 d base extension :
  name83 base extension -> name d = pad 8 (map toupper base) ->
  ext d = pad 3 (map toupper extension) ->
  get_raw_dentry_filename d = join83 (map toupper base) (map toupper extension).
Proof.
  intros [Hb He Hbc Hec] Hn Hx. unfold get_raw_dentry_filename, join83. rewrite Hn, Hx.
  rewrite !before_space_pad by (rewrite ?length_map; (lia || by apply upper_not_space)).
  f_equal. destruct extension as [|e extension]; [done|].
  apply Forall_cons in Hec as [Hc _]. cbn.
  by rewrite (proj2 (Z.eqb_neq _ _)) by by apply name_char_spec.
Qed.

(** ** Entries the file system can store *)

(** A file name: 8.3 characters, or one of the two directory links. *)
Definition good_name (n : list byte) : Prop :=
  (exists base extension, name83 base extension /\ n = join83 base extension) \/
  n = [DOT] \/ n = [DOT; DOT].

Lemma map_join83 f base extension :
  f DOT = DOT -> map f (join83 base extension) = join83 (map f base) (map f extension).
Proof.
  intros Hf. unfold join83. rewrite map_app. f_equal. destruct extension; [done|]. cbn. by rewrite Hf.
Qed.

Lemma pad_bytes n s : Forall is_byte s -> Forall is_byte (pad n s).
Proof.
  intros Hs. unfold pad. apply Forall_app. split; [done|]. apply Forall_replicate.
  unfold is_byte, SPACE. lia.
Qed.

Lemma upper_bytes s : Forall name_char s -> Forall is_byte (map toupper s).
Proof. intros Hs. apply Forall_map. eapply Forall_impl; [done|]. intros c Hc. by apply name_char_spec. Qed.

Lemma pad_length n s : (length s <= n)%nat -> length (pad n s) = n.
Proof. intros. unfold pad. rewrite length_app, length_replicate. lia. Qed.

(** The two name fields [set_raw_dentry_filename] makes of a good name. *)
Lemma set_filename_good n raw_name raw_ext :
  good_name n -> set_raw_dentry_filename n 0 = (raw_name, raw_ext) ->
  length raw_name = 8%nat /\ Forall is_byte raw_name /\
  length raw_ext = 3%nat /\ Forall is_byte raw_ext /\
  nthZ raw_name 0 = toupper (char_at n) /\ nthZ raw_name 0 <> 0 /\
  (forall d, name d = raw_name -> ext d = raw_ext -> get_raw_dentry_filename d = map toupper n).
Proof.
  intros [(base & extension & H83 & ->)|[-> | ->]].
  - rewrite set_filename_83 by auto. intros [= <- <-]. pose proof H83 as [Hb He Hbc Hec].
    rewrite !pad_length by (rewrite length_map; lia).
    destruct base as [|c base]; [cbn in Hb; lia|].
    assert (toupper c <> 0) as Hc0.
    { apply Forall_cons in Hbc as [(Hc & Hc0 & _) _]. unfold toupper, is_byte in *.
      destruct (Z.leb_spec 97 c), (Z.leb_spec c 122); cbn [andb]; lia. }
    split_and!; try done; [by apply pad_bytes, upper_bytes..|].
    intros d Hn Hx. rewrite map_join83 by done. by apply get_filename_83.
  - intros Hset. vm_compute in Hset. injection Hset as <- <-.
    split_and!; try done; try (repeat constructor; done).
    intros d Hn Hx. unfold get_raw_dentry_filename. by rewrite Hn, Hx.
  - intros Hset. vm_compute in Hset. injection Hset as <- <-.
    split_and!; try done; try (repeat constructor; done).
    intros d Hn Hx. unfold get_raw_dentry_filename. by rewrite Hn, Hx.
Qed.

Record dentry_ok (d : fatfs_dir_entry_t) : Prop := {
  de_name : good_name (filename d);
  de_first : char_at (filename d) <> 0xE5;
  de_mode : mode d = stat_mode_DIR \/ mode d = stat_mode_REG;
  de_times : 0 <= ctime d < 2 ^ 31 /\ 0 <= atime d < 2 ^ 31 /\ 0 <= mtime d < 2 ^ 31;
  de_size : fits 32 (size d);
  de_priv : is_byte (priv_data d);
  de_cluster : fits 32 (d_cluster d);
}.

Lemma date_unix2dos_fits t :
  0 <= t < 2 ^ 31 -> fits 16 (date_unix2dos t).1 /\ fits 16 (date_unix2dos t).2.
Proof.
  intros Ht. destruct (date_unix2dos_fields t) as (day & month & year & _ & Hd & Hm & Hy & _ & _ & ->); [lia|].
  pose proof (Z.mod_pos_bound (t / 3600) 24 eq_refl).
  pose proof (Z.mod_pos_bound (t / 60) 60 eq_refl).
  pose proof (Z.mod_pos_bound t 60 eq_refl).
  pose proof (div_bounds (t mod 60) 2 eq_refl).
  cbn. unfold fits, pack_time, pack_date. lia.
Qed.

Lemma dentry_to_raw_ok d : dentry_ok d -> raw_ok (dentry_to_raw d).
Proof.
  intros [Hn _ Hm (Hc & Ha & Hw) Hs Hp Hcl]. unfold dentry_to_raw.
  destruct (set_raw_dentry_filename (filename d) 0) as [rn rx] eqn:Hset.
  apply set_filename_good in Hset as (H1 & H2 & H3 & H4 & _ & _ & _); [|done].
  destruct (date_unix2dos_fits _ Hc), (date_unix2dos_fits _ Ha), (date_unix2dos_fits _ Hw).
  destruct (date_unix2dos (ctime d)), (date_unix2dos (atime d)), (date_unix2dos (mtime d)).
  constructor; cbn in *; try done.
  - split; [|done]. unfold is_byte. destruct (stat_mode_DIR =? mode d); vm_compute; split; congruence.
  - split_and!; try done.
    + apply uwrap_range. lia.
    + unfold fits. change 0xFFFF with (Z.ones 16). rewrite Z.land_ones by lia. apply Z.mod_pos_bound. lia.
Qed.

(** The entry the file system reads back: names in upper case, times rounded to
    two seconds, dates of access to the day. *)
Definition stored (d : fatfs_dir_entry_t) : fatfs_dir_entry_t :=
  mk_dentry (map toupper (filename d)) (mode d) (size d) (ctime d - ctime d mod 2)
    (atime d - atime d mod 86400) (mtime d - mtime d mod 2) (priv_data d) (d_cluster d)
    (parent_cluster d) (disk_pos d).

Lemma date_day_roundtrip t :
  315532800 <= t < 2 ^ 31 -> date_dos2unix 0 (date_unix2dos t).2 = t - t mod 86400.
Proof.
  intros Ht.
  destruct (date_unix2dos_fields t) as (day & month & year & _ & Hd & Hm & Hy & Hy2 & Hj & ->); [lia|].
  rewrite Z.max_r by lia. change 0 with (pack_time 0 0 0) at 1. cbn [snd].
  rewrite date_dos2unix_fields, Hj by lia. rewrite Z.add_simpl_l.
  pose proof (Z.div_mod t 86400). pose proof (Z.mod_pos_bound t 86400 eq_refl).
  rewrite (uwrap_small 32 (t / 86400)) by lia.
  rewrite (uwrap_small 32 (t / 86400 * 24)), (uwrap_small 32 (t / 86400 * 24 * 3600)) by lia.
  rewrite (uwrap_small 32 (0 * 2 + 0 * 60 + 0 * 3600)) by lia. rewrite uwrap_small; lia.
Qed.

Lemma raw_dentry_roundtrip d :
  dentry_ok d -> 315532800 <= ctime d -> 315532800 <= atime d -> 315532800 <= mtime d ->
  raw_to_dentry (dentry_to_raw d) (disk_pos d) (parent_cluster d) = stored d.
Proof.
  intros [Hn _ Hm (Hc & Ha & Hw) Hs Hp Hcl] Hc0 Ha0 Hw0. unfold dentry_to_raw.
  destruct (set_raw_dentry_filename (filename d) 0) as [rn rx] eqn:Hset.
  apply set_filename_good in Hset as (_ & _ & _ & _ & _ & _ & Hget); [|done].
  pose proof (date_time_roundtrip (ctime d) (conj Hc0 (proj2 Hc))) as Hc1.
  pose proof (date_day_roundtrip (atime d) (conj Ha0 (proj2 Ha))) as Ha1.
  pose proof (date_time_roundtrip (mtime d) (conj Hw0 (proj2 Hw))) as Hw1.
  destruct (date_unix2dos (ctime d)), (date_unix2dos (atime d)), (date_unix2dos (mtime d)).
  destruct Hc1 as (_ & _ & Hc1), Hw1 as (_ & _ & Hw1).
  unfold raw_to_dentry, stored. f_equal.
  - by apply Hget.
  - by destruct Hm as [-> | ->].
  - exact Hc1.
  - exact Ha1.
  - exact Hw1.
  - cbn. unfold fits in Hcl. rewrite Z.lor_comm. change 0xFFFF with (Z.ones 16).
    rewrite Z.land_ones by lia. rewrite lor_shiftl_add by (lia || apply Z.mod_pos_bound; lia).
    rewrite Z.shiftr_div_pow2, uwrap_small by (Z.to_euclidean_division_equations; lia).
    pose proof (Z.div_mod (d_cluster d) (2 ^ 16)). lia.
Qed.
