(* ===== verification/FatNode.v ===== *)
(** * FAT node cache (fatfs_ncache.c): the code

    The nodes that describe the files in use and the files met recently. A node
    is an object of the pool [node_pool_base], reached through the doubly
    linked list of the nodes with references ([live_nlist]) or of those without
    ([dead_nlist]) and through the chain of its slot of the hash table. The
    pool is a heap from addresses to nodes and the links of a node are
    addresses, so that the lists and the chains are the pointer structures of
    the code. The code is modelled with assertions off and, separately, the
    checks that FATFS_NODE_CACHE_EXTRA_CHECKS compiles in. *)
From stdpp Require Import functions.
From S2P Require Import Prelude FatFile FatDentry.

(** ** Comparing names (fatfs_supp.c)

    A C string is the list of its characters, without the terminator. *)
Fixpoint strcasecmp (s1 s2 : list byte) : Z :=
  match s1, s2 with
  | c1 :: r1, c2 :: r2 =>
      if toupper c1 =? toupper c2 then strcasecmp r1 r2 else toupper c1 - toupper c2
  | _, _ => toupper (char_at s1) - toupper (char_at s2)
  end.

(** The loop of [strncasecmp] with [n] characters still to compare. *)
Fixpoint strncasecmp (s1 s2 : list byte) (n : nat) : Z :=
  match n with
  | O => 0
  | S n =>
      if toupper (char_at s1) =? toupper (char_at s2) then
        match n, s1, s2 with
        | S _, _ :: r1, _ :: r2 => strncasecmp r1 r2 n
        | _, _, _ => toupper (char_at s1) - toupper (char_at s2)
        end
      else toupper (char_at s1) - toupper (char_at s2)
  end.

(** ** Data *)
Record fatfs_node_t := mk_node {
  dentry : fatfs_dir_entry_t;
  refcnt : Z;
  list_prev : option Z;
  list_next : option Z;
  hash_next : option Z;
}.

Definition set_dentry d (n : fatfs_node_t) :=
  mk_node d (refcnt n) (list_prev n) (list_next n) (hash_next n).
Definition set_refcnt r (n : fatfs_node_t) :=
  mk_node (dentry n) r (list_prev n) (list_next n) (hash_next n).
Definition set_prev p (n : fatfs_node_t) :=
  mk_node (dentry n) (refcnt n) p (list_next n) (hash_next n).
Definition set_next p (n : fatfs_node_t) :=
  mk_node (dentry n) (refcnt n) (list_prev n) p (hash_next n).
Definition set_hash_next p (n : fatfs_node_t) :=
  mk_node (dentry n) (refcnt n) (list_prev n) (list_next n) p.

Abbreviation node_heap := (Z -> fatfs_node_t).

(** [node->field = v] for the node at address [a]. *)
Definition upd (a : Z) (f : fatfs_node_t -> fatfs_node_t) (h : node_heap) : node_heap :=
  alter f a h.

Record fatfs_node_list_t := mk_node_list {
  list_size : Z;
  list_first : option Z;
  list_last : option Z;
}.

Record fatfs_hash_table_t := mk_hash_table {
  tbl_size : Z;
  tbl_n : Z;
  tbl_nodes : list (option Z);
}.

(** The part of [fatfs_disk_t] that the node cache uses. *)
Record fatfs_ncache_t := mk_ncache {
  node_pool_base : node_heap;
  node_pool : list Z;
  node_pool_free_cnt : Z;
  live_nlist : fatfs_node_list_t;
  dead_nlist : fatfs_node_list_t;
  node_hash : fatfs_hash_table_t;
}.

Definition set_pool_base h s := mk_ncache h (node_pool s) (node_pool_free_cnt s)
  (live_nlist s) (dead_nlist s) (node_hash s).
Definition set_pool p cnt s := mk_ncache (node_pool_base s) p cnt
  (live_nlist s) (dead_nlist s) (node_hash s).
Definition set_live L s := mk_ncache (node_pool_base s) (node_pool s) (node_pool_free_cnt s)
  L (dead_nlist s) (node_hash s).
Definition set_dead L s := mk_ncache (node_pool_base s) (node_pool s) (node_pool_free_cnt s)
  (live_nlist s) L (node_hash s).
Definition set_hash t s := mk_ncache (node_pool_base s) (node_pool s) (node_pool_free_cnt s)
  (live_nlist s) (dead_nlist s) t.
Definition upd_cached (a : Z) f s := set_pool_base (upd a f (node_pool_base s)) s.

(** ** Lists of nodes *)
Definition node_list_init : fatfs_node_list_t := mk_node_list 0 None None.
Definition node_list_get_size (L : fatfs_node_list_t) : Z := list_size L.
Definition node_list_get_head (L : fatfs_node_list_t) : option Z := list_first L.
Definition node_list_tail_get (L : fatfs_node_list_t) : option Z := list_last L.
Definition node_list_get_next (h : node_heap) (node : Z) : option Z := list_next (h node).

Definition node_list_head_add (L : fatfs_node_list_t) (node : Z) (h : node_heap) :
    fatfs_node_list_t * node_heap :=
  let h := upd node (set_prev None) h in
  let h := upd node (set_next (list_first L)) h in
  match list_first L with
  | None => (mk_node_list (u32 (list_size L + 1)) (Some node) (Some node), h)
  | Some first =>
      (mk_node_list (u32 (list_size L + 1)) (Some node) (list_last L),
       upd first (set_prev (Some node)) h)
  end.

(** [None] is the dereference of a null link. *)
Definition node_list_remove (L : fatfs_node_list_t) (node : Z) (h : node_heap) :
    option (fatfs_node_list_t * node_heap) :=
  let size := u32 (list_size L - 1) in
  if decide (list_first L = list_last L) then
    if decide (list_first L = Some node) then Some (mk_node_list size None None, h)
    else Some (mk_node_list size (list_first L) (list_last L), h)
  else if decide (list_first L = Some node) then
    first ← list_next (h node);
    Some (mk_node_list size (Some first) (list_last L), upd first (set_prev None) h)
  else if decide (list_last L = Some node) then
    last ← list_prev (h node);
    Some (mk_node_list size (list_first L) (Some last), upd last (set_next None) h)
  else
    prev ← list_prev (h node);
    let h := upd prev (set_next (list_next (h node))) h in
    next ← list_next (h node);
    Some (mk_node_list size (list_first L) (list_last L),
          upd next (set_prev (list_prev (h node))) h).

(** ** The hash table *)

(** [*str++] is a [char], signed, converted to [int] and then to [unsigned int]. *)
Definition signed_char (c : byte) : Z := if c <? 128 then c else c - 256.

Definition hash_fn (str : list byte) (strlen : Z) : Z :=
  fold_left (fun val c => u32 (Z.shiftl (Z.lxor val (u32 (toupper (signed_char c)))) 1))
    (upto str strlen) 0.

(** [hash_fn(name, strlen(name)) % tbl->size] for the name of a node. *)
Definition node_slot (tbl : fatfs_hash_table_t) (d : fatfs_dir_entry_t) : Z :=
  hash_fn (filename d) (Z.of_nat (length (filename d))) mod tbl_size tbl.

Definition set_slot (tbl : fatfs_hash_table_t) (i : Z) (n : Z) (v : option Z) : fatfs_hash_table_t :=
  mk_hash_table (tbl_size tbl) n (<[Z.to_nat i := v]> (tbl_nodes tbl)).
Definition set_n (n : Z) (tbl : fatfs_hash_table_t) : fatfs_hash_table_t :=
  mk_hash_table (tbl_size tbl) n (tbl_nodes tbl).

Section Code.
Context (FATFS_HASH_TABLE_SIZE FATFS_NODE_POOL_SIZE : Z).

(** What a [filename] array holds past its terminator. *)
Context (past_end : fatfs_dir_entry_t -> Z -> byte).

Abbreviation cache_m := (M fatfs_ncache_t).

(** More steps than a chain of distinct nodes of the pool is long. *)
Definition chain_fuel : nat := S (Z.to_nat FATFS_NODE_POOL_SIZE).

Definition node_hash_init : fatfs_hash_table_t :=
  mk_hash_table FATFS_HASH_TABLE_SIZE 0 (replicate (Z.to_nat FATFS_HASH_TABLE_SIZE) None).

(** Links [node] between [pnode] (the slot when null) and [lnode]. *)
Definition link_node (tbl : fatfs_hash_table_t) (hval node : Z) (pnode lnode : option Z)
    (h : node_heap) : fatfs_hash_table_t * node_heap :=
  let n := u32 (tbl_n tbl + 1) in
  match pnode with
  | Some p => (set_n n tbl, upd node (set_hash_next lnode) (upd p (set_hash_next (Some node)) h))
  | None => (set_slot tbl hval n (Some node), upd node (set_hash_next lnode) h)
  end.

(** [while (lnode != NULL)] of [node_hash_add] with the insertion at the end. *)
Fixpoint add_loop (fuel : nat) tbl (hval node : Z) (pnode lnode : option Z) (h : node_heap) :
    option (bool * fatfs_hash_table_t * node_heap) :=
  match fuel with
  | O => None
  | S fuel =>
      match lnode with
      | Some l =>
          if decide (l = node) then Some (false, tbl, h)
          else if strcasecmp (filename (dentry (h l))) (filename (dentry (h node))) >? 0 then
            let '(tbl, h) := link_node tbl hval node pnode lnode h in Some (true, tbl, h)
          else add_loop fuel tbl hval node lnode (hash_next (h l)) h
      | None =>
          match pnode with
          | Some p =>
              let '(tbl, h) := link_node tbl hval node pnode None h in Some (true, tbl, h)
          | None => None
          end
      end
  end.

Definition node_hash_add (tbl : fatfs_hash_table_t) (node : Z) (h : node_heap) :
    option (bool * fatfs_hash_table_t * node_heap) :=
  let hval := node_slot tbl (dentry (h node)) in
  slot ← tbl_nodes tbl !! Z.to_nat hval;
  match slot with
  | None =>
      Some (true, set_slot tbl hval (u32 (tbl_n tbl + 1)) (Some node),
            upd node (set_hash_next None) h)
  | Some _ => add_loop chain_fuel tbl hval node None slot h
  end.

(** [filename[i]]: the array has 13 characters. *)
Definition filename_at (d : fatfs_dir_entry_t) (i : Z) : option byte :=
  if (0 <=? i) && (i <? 13) then
    Some (if i <? Z.of_nat (length (filename d)) then nthZ (filename d) i
          else if i =? Z.of_nat (length (filename d)) then 0 else past_end d i)
  else None.

(** [Some None] is the null result, [None] an access outside an array. *)
Fixpoint find_loop (fuel : nat) (h : node_heap) (name : list byte) (namelen parent : Z)
    (node : option Z) : option (option Z) :=
  match fuel with
  | O => None
  | S fuel =>
      match node with
      | None => Some None
      | Some a =>
          if parent =? parent_cluster (dentry (h a)) then
            c ← filename_at (dentry (h a)) namelen;
            if 0 =? c then
              let i := strncasecmp (filename (dentry (h a))) name (Z.to_nat namelen) in
              if i =? 0 then Some (Some a)
              else if i >? 0 then Some None
              else find_loop fuel h name namelen parent (hash_next (h a))
            else find_loop fuel h name namelen parent (hash_next (h a))
          else find_loop fuel h name namelen parent (hash_next (h a))
      end
  end.

Definition node_hash_find (tbl : fatfs_hash_table_t) (h : node_heap) (name : list byte)
    (namelen parent : Z) : option (option Z) :=
  let hval := hash_fn name namelen mod tbl_size tbl in
  slot ← tbl_nodes tbl !! Z.to_nat hval;
  find_loop chain_fuel h name namelen parent slot.

(** The search for [node] along a chain and its removal. *)
Fixpoint unlink_loop (fuel : nat) tbl (hval node : Z) (pnode lnode : option Z) (h : node_heap) :
    option (bool * fatfs_hash_table_t * node_heap) :=
  match fuel with
  | O => None
  | S fuel =>
      match lnode with
      | None => Some (false, tbl, h)
      | Some l =>
          if decide (l = node) then
            let n := u32 (tbl_n tbl - 1) in
            let '(tbl, h) :=
              match pnode with
              | None => (set_slot tbl hval n (hash_next (h l)), h)
              | Some p => (set_n n tbl, upd p (set_hash_next (hash_next (h l))) h)
              end in
            Some (true, tbl, upd node (set_hash_next None) h)
          else unlink_loop fuel tbl hval node lnode (hash_next (h l)) h
      end
  end.

Definition node_hash_remove (tbl : fatfs_hash_table_t) (node : Z) (h : node_heap) :
    option (bool * fatfs_hash_table_t * node_heap) :=
  let hval := node_slot tbl (dentry (h node)) in
  slot ← tbl_nodes tbl !! Z.to_nat hval;
  unlink_loop chain_fuel tbl hval node None slot h.

(** [for (i = 0; i < tbl->size; i++)], [todo] slots before the end. *)
Fixpoint remove_slots (todo : nat) tbl (node : Z) (h : node_heap) :
    option (bool * fatfs_hash_table_t * node_heap) :=
  match todo with
  | O => Some (false, tbl, h)
  | S todo =>
      let i := tbl_size tbl - Z.of_nat (S todo) in
      slot ← tbl_nodes tbl !! Z.to_nat i;
      '(found, tbl, h) ← unlink_loop chain_fuel tbl i node None slot h;
      if found : bool then Some (true, tbl, h) else remove_slots todo tbl node h
  end.

Definition node_hash_remove_keyless (tbl : fatfs_hash_table_t) (node : Z) (h : node_heap) :
    option (bool * fatfs_hash_table_t * node_heap) :=
  remove_slots (Z.to_nat (tbl_size tbl)) tbl node h.

(** ** The primitives on the cache *)
Definition list_remove_live (node : Z) : cache_m unit :=
  s ← get_state;
  match node_list_remove (live_nlist s) node (node_pool_base s) with
  | Some (L, h) => modify (fun s => set_live L (set_pool_base h s))
  | None => crash
  end.

Definition list_remove_dead (node : Z) : cache_m unit :=
  s ← get_state;
  match node_list_remove (dead_nlist s) node (node_pool_base s) with
  | Some (L, h) => modify (fun s => set_dead L (set_pool_base h s))
  | None => crash
  end.

Definition list_add_live (node : Z) : cache_m unit :=
  modify (fun s =>
    let '(L, h) := node_list_head_add (live_nlist s) node (node_pool_base s) in
    set_live L (set_pool_base h s)).

Definition list_add_dead (node : Z) : cache_m unit :=
  modify (fun s =>
    let '(L, h) := node_list_head_add (dead_nlist s) node (node_pool_base s) in
    set_dead L (set_pool_base h s)).

(** [if (!op(&disk->node_hash, node)) CYG_ASSERT(false, ...)]: the result only
    feeds the assertion. *)
Definition on_hash (op : fatfs_hash_table_t -> Z -> node_heap ->
    option (bool * fatfs_hash_table_t * node_heap)) (node : Z) : cache_m unit :=
  s ← get_state;
  match op (node_hash s) node (node_pool_base s) with
  | Some (_, tbl, h) => modify (fun s => set_hash tbl (set_pool_base h s))
  | None => crash
  end.

(** ** The node pool *)
Definition node_pool_init : cache_m unit :=
  modify (set_pool (seqZ 0 FATFS_NODE_POOL_SIZE) FATFS_NODE_POOL_SIZE).

Definition node_pool_alloc : cache_m (option Z) :=
  s ← get_state;
  if node_pool_free_cnt s >? 0 then
    let cnt := node_pool_free_cnt s - 1 in
    match node_pool s !! Z.to_nat cnt with
    | Some node => modify (set_pool (node_pool s) cnt) ;; mret (Some node)
    | None => crash
    end
  else mret None.

Definition node_pool_free (node : Z) : cache_m unit :=
  s ← get_state;
  let cnt := node_pool_free_cnt s in
  if decide (Z.to_nat cnt < length (node_pool s))%nat then
    modify (set_pool (<[Z.to_nat cnt := node]> (node_pool s)) (u32 (cnt + 1)))
  else crash.

(** ** The exported functions *)
Definition fatfs_node_cache_init : cache_m unit :=
  modify (set_live node_list_init) ;;
  modify (set_dead node_list_init) ;;
  modify (set_hash node_hash_init) ;;
  node_pool_init.

(** The two loops of [fatfs_node_cache_flush]. *)
Fixpoint flush_loop (fuel : nat) (list_remove : Z -> cache_m unit) (node : option Z) : cache_m unit :=
  match fuel with
  | O => crash
  | S fuel =>
      match node with
      | None => mret tt
      | Some a =>
          s ← get_state;
          let next_node := node_list_get_next (node_pool_base s) a in
          list_remove a ;;
          on_hash node_hash_remove a ;;
          node_pool_free a ;;
          flush_loop fuel list_remove next_node
      end
  end.

Definition fatfs_node_cache_flush : cache_m unit :=
  s ← get_state;
  flush_loop chain_fuel list_remove_live (node_list_get_head (live_nlist s)) ;;
  s ← get_state;
  flush_loop chain_fuel list_remove_dead (node_list_get_head (dead_nlist s)).

Definition DLIST_KEEP_NUM : Z := 2.

(** A new node: one of the pool, else the least recently used unreferenced one. *)
Definition claim_node : cache_m (option Z) :=
  node ← node_pool_alloc;
  match node with
  | Some a => mret (Some a)
  | None =>
      s ← get_state;
      if node_list_get_size (dead_nlist s) <=? DLIST_KEEP_NUM then mret None
      else
        match node_list_tail_get (dead_nlist s) with
        | None => mret None
        | Some a => list_remove_dead a ;; on_hash node_hash_remove a ;; mret (Some a)
        end
  end.

Definition fatfs_node_alloc (d : fatfs_dir_entry_t) : cache_m (option Z) :=
  node ← claim_node;
  match node with
  | None => mret None
  | Some a =>
      modify (upd_cached a (set_dentry d)) ;;
      modify (upd_cached a (set_refcnt 0)) ;;
      list_add_dead a ;;
      on_hash node_hash_add a ;;
      mret (Some a)
  end.

Definition fatfs_node_touch (node : Z) : cache_m unit :=
  s ← get_state;
  if refcnt (node_pool_base s node) =? 0 then list_remove_dead node ;; list_add_dead node
  else list_remove_live node ;; list_add_live node.

Definition fatfs_node_ref (node : Z) : cache_m unit :=
  s ← get_state;
  let r := u32 (refcnt (node_pool_base s node) + 1) in
  modify (upd_cached node (set_refcnt r)) ;;
  if 1 =? r then list_remove_dead node ;; list_add_live node else mret tt.

Definition fatfs_node_unref (node : Z) : cache_m unit :=
  s ← get_state;
  let r := u32 (refcnt (node_pool_base s node) - 1) in
  modify (upd_cached node (set_refcnt r)) ;;
  if 0 =? r then list_remove_live node ;; list_add_dead node else mret tt.

Definition fatfs_node_free (node : Z) : cache_m unit :=
  list_remove_dead node ;;
  on_hash node_hash_remove node ;;
  node_pool_free node.

Definition fatfs_node_rehash (node : Z) : cache_m unit :=
  on_hash node_hash_remove_keyless node ;;
  on_hash node_hash_add node.

Definition fatfs_node_find (name : list byte) (namelen parent : Z) : cache_m (option Z) :=
  s ← get_state;
  match node_hash_find (node_hash s) (node_pool_base s) name namelen parent with
  | Some r => mret r
  | None => crash
  end.

Definition fatfs_get_live_node_count (s : fatfs_ncache_t) : Z := node_list_get_size (live_nlist s).
Definition fatfs_get_dead_node_count (s : fatfs_ncache_t) : Z := node_list_get_size (dead_nlist s).

(** ** The extra checks (CYGDBG_FS_FAT_NODE_CACHE_EXTRA_CHECKS)

    Each check is [true] when every assertion it makes holds; a walk that exceeds
    its fuel or leaves the structure is [false]. *)
Definition ref_between (h : node_heap) (min_ref max_ref a : Z) : bool :=
  (refcnt (h a) >=? min_ref) && (refcnt (h a) <=? max_ref).

Definition same_ptr (p q : option Z) : bool := bool_decide (p = q).

(** [while (node->list_next != NULL)] with the assertions after it. *)
Fixpoint list_check_loop (fuel : nat) (h : node_heap) (L : fatfs_node_list_t) (min_ref max_ref i node : Z)
    (pnode : option Z) : bool :=
  match fuel with
  | O => false
  | S fuel =>
      match list_next (h node) with
      | Some next =>
          same_ptr (list_prev (h node)) pnode && ref_between h min_ref max_ref node
          && list_check_loop fuel h L min_ref max_ref (i + 1) next (Some node)
      | None =>
          same_ptr (list_prev (h node)) pnode && (list_size L =? i) && same_ptr (Some node) (list_last L)
      end
  end.

Definition node_list_check (h : node_heap) (L : fatfs_node_list_t) (min_ref max_ref : Z) : bool :=
  match list_first L, list_last L with
  | None, None => list_size L =? 0
  | Some first, Some last =>
      same_ptr (list_prev (h first)) None && same_ptr (list_next (h last)) None
      && ref_between h min_ref max_ref first && ref_between h min_ref max_ref last
      && list_check_loop chain_fuel h L min_ref max_ref 1 first None
  | _, _ => false
  end.

Definition node_lists_check (s : fatfs_ncache_t) : bool :=
  node_list_check (node_pool_base s) (live_nlist s) 1 99999
  && node_list_check (node_pool_base s) (dead_nlist s) 0 0.

(** The walk of one slot; [None] is a failed assertion, else the count so far. *)
Fixpoint chain_check (fuel : nat) (h : node_heap) (n : Z) (pnode lnode : option Z) : option Z :=
  match fuel with
  | O => None
  | S fuel =>
      match lnode with
      | None => Some n
      | Some l =>
          let next := chain_check fuel h (n + 1) lnode (hash_next (h l)) in
          match pnode with
          | None => next
          | Some p =>
              let c := strcasecmp (filename (dentry (h p))) (filename (dentry (h l))) in
              if (c <=? 0)
                 && (negb (parent_cluster (dentry (h p)) =? parent_cluster (dentry (h l))) || negb (0 =? c))
              then next else None
          end
      end
  end.

Fixpoint slots_check (h : node_heap) (n : Z) (slots : list (option Z)) : option Z :=
  match slots with
  | [] => Some n
  | slot :: slots => n ← chain_check chain_fuel h n None slot; slots_check h n slots
  end.

Definition node_hash_check (h : node_heap) (tbl : fatfs_hash_table_t) : bool :=
  match slots_check h 0 (take (Z.to_nat (tbl_size tbl)) (tbl_nodes tbl)) with
  | Some n => tbl_n tbl =? n
  | None => false
  end.

Definition SANITY_CHECK (s : fatfs_ncache_t) : bool :=
  node_lists_check s && node_hash_check (node_pool_base s) (node_hash s)
  && (u32 (list_size (live_nlist s) + list_size (dead_nlist s)) =? tbl_n (node_hash s)).

(** The node has the name and the parent. *)
Definition is_entry (h : node_heap) (name : list byte) (namelen parent a : Z) : bool :=
  (parent_cluster (dentry (h a)) =? parent)
  && (namelen =? Z.of_nat (length (filename (dentry (h a)))))
  && (0 =? strncasecmp name (filename (dentry (h a))) (Z.to_nat namelen)).

(** A walk along a list, stopped by [f]. *)
Fixpoint walk_list (fuel : nat) (h : node_heap) (f : Z -> option bool) (node : option Z) : option bool :=
  match fuel with
  | O => Some false
  | S fuel =>
      match node with
      | None => None
      | Some a =>
          match f a with
          | Some b => Some b
          | None => walk_list fuel h f (list_next (h a))
          end
      end
  end.

(** The walk of the live list, then that of the dead list, then [otherwise]. *)
Definition walk_lists (s : fatfs_ncache_t) (f : Z -> option bool) (otherwise : bool) : bool :=
  match walk_list chain_fuel (node_pool_base s) f (node_list_get_head (live_nlist s)) with
  | Some b => b
  | None =>
      default otherwise
        (walk_list chain_fuel (node_pool_base s) f (node_list_get_head (dead_nlist s)))
  end.

Definition node_hash_not_found_check (s : fatfs_ncache_t) (name : list byte) (namelen parent : Z) : bool :=
  walk_lists s
    (fun a => if is_entry (node_pool_base s) name namelen parent a then Some false else None) true.

Definition node_hash_found_check (s : fatfs_ncache_t) (name : list byte) (namelen parent node : Z) : bool :=
  walk_lists s
    (fun a => if a =? node then Some (is_entry (node_pool_base s) name namelen parent node) else None) false.

Definition NODE_FIND_CHECK (s : fatfs_ncache_t) (name : list byte) (namelen parent : Z)
    (node : option Z) : bool :=
  match node with
  | None => node_hash_not_found_check s name namelen parent
  | Some a => node_hash_found_check s name namelen parent a
  end.
End Code.
