(* ===== verification/FatNodeSpec.v ===== *)
(** * FAT node cache: the lists and the hash table

    The pointer structures of the node cache against lists of addresses: what
    each primitive of the lists, of the hash table and of the name comparison
    does to the list that the structure represents. *)
From stdpp Require Import functions.
From S2P Require Import Prelude FatFile FatDentry FatNode.

(** ** Comparing names *)

(** The characters of a name: neither the terminator nor out of range. *)
Definition name_bytes (s : list byte) : Prop := Forall (fun c => 0 < c < 256) s.

(** The order and the equality of names, without regard to case. *)
Definition name_le (s t : list byte) : Prop := strcasecmp s t <= 0.
Definition same_name (s t : list byte) : Prop := map toupper s = map toupper t.

Lemma toupper_pos c : 0 < c -> 0 < toupper c.
Proof. unfold toupper. case_match; bool_lia. Qed.

Lemma strcasecmp_eq s t : name_bytes s -> name_bytes t -> strcasecmp s t = 0 <-> same_name s t.
Proof.
  intros Hs. revert t. unfold same_name. induction Hs as [|c s Hc Hs IH]; intros t Ht.
  - destruct Ht as [|d t Hd Ht]; cbn; [done|]. pose proof (toupper_pos d).
    split; [|done]. change (toupper 0) with 0. lia.
  - destruct Ht as [|d t Hd Ht]; cbn; pose proof (toupper_pos c).
    + split; [|done]. change (toupper 0) with 0. lia.
    + case_match eqn:E; bool_lia.
      * rewrite IH by done. split; [by intros ->; f_equal|by intros [= _ ->]].
      * split; [lia|congruence].
Qed.

Lemma name_le_trans s t u :
  name_bytes s -> name_bytes t -> name_bytes u -> name_le s t -> name_le t u -> name_le s u.
Proof.
  unfold name_le. intros Hs. revert t u.
  induction Hs as [|c s Hc Hs IH]; intros t u [|d t' Hd Ht] [|e u' He Hu]; cbn;
    change (toupper 0) with 0; try pose proof (toupper_pos c); try pose proof (toupper_pos d);
    try pose proof (toupper_pos e); repeat case_match; bool_lia; intros; eauto; lia.
Qed.

Lemma name_le_total s t : strcasecmp s t > 0 -> name_le t s.
Proof.
  unfold name_le. revert t. induction s as [|c s IH]; intros [|d t']; cbn;
    try case_match eqn:E1; try case_match eqn:E2; bool_lia; eauto; lia.
Qed.

(** [strncasecmp] on the first [n] characters of a string that has them. *)
Lemma strncasecmp_take s t n :
  name_bytes s -> name_bytes t -> (n <= length t)%nat ->
  strncasecmp s t n = strcasecmp (take n s) (take n t).
Proof.
  intros Hs. revert t n. induction Hs as [|c s Hc Hs IH]; intros t [|n] Ht Hn; try done.
  - destruct Ht as [|d t Hd Ht]; [cbn in Hn; lia|]. cbn. pose proof (toupper_pos d).
    change (toupper 0) with 0. destruct (toupper d), n; try done; lia.
  - destruct Ht as [|d t Hd Ht]; [cbn in Hn; lia|]. cbn -[strncasecmp]. cbn in Hn.
    change (strncasecmp (c :: s) (d :: t) (S n)) with
      (if toupper c =? toupper d then
        match n with S _ => strncasecmp s t n | O => toupper c - toupper d end
       else toupper c - toupper d).
    case_match eqn:E; [|done]. destruct n as [|n]; [rewrite !take_0; cbn; bool_lia|].
    apply IH; [done|lia].
Qed.

(** The hash does not regard case. *)
Lemma toupper_signed c : 0 <= c < 256 -> toupper (signed_char c) = signed_char (toupper c).
Proof.
  intros H. unfold toupper, signed_char. repeat case_match; bool_lia.
Qed.

Lemma hash_fn_case s t :
  name_bytes s -> name_bytes t -> same_name s t ->
  hash_fn s (Z.of_nat (length s)) = hash_fn t (Z.of_nat (length t)).
Proof.
  unfold hash_fn, upto, same_name. rewrite !Nat2Z.id, !firstn_all. generalize 0.
  intros v Hs. revert t v. induction Hs as [|c s Hc Hs IH]; intros t v Ht; destruct Ht as [|d t Hd Ht];
    try done.
  intros [= Hcd Hst]. cbn. rewrite !toupper_signed, Hcd by lia. by apply IH.
Qed.

(** ** Doubly linked segments *)
Definition hd_or (l : list Z) (q : option Z) : option Z :=
  match l with [] => q | a :: _ => Some a end.
Fixpoint last_or (p : option Z) (l : list Z) : option Z :=
  match l with [] => p | a :: l => last_or (Some a) l end.

(** The nodes of [l] are linked to one another, to [p] before and to [q] after. *)
Fixpoint seg (h : node_heap) (p : option Z) (l : list Z) (q : option Z) : Prop :=
  match l with
  | [] => True
  | a :: l => list_prev (h a) = p /\ list_next (h a) = hd_or l q /\ seg h (Some a) l q
  end.

Record is_list (h : node_heap) (L : fatfs_node_list_t) (l : list Z) : Prop := {
  il_size : list_size L = Z.of_nat (length l);
  il_first : list_first L = hd_or l None;
  il_last : list_last L = last_or None l;
  il_seg : seg h None l None;
}.

(** What the operations on the lists and those on the hash table leave alone. *)
Definition same_links (h h' : node_heap) (a : Z) : Prop :=
  list_prev (h' a) = list_prev (h a) /\ list_next (h' a) = list_next (h a).
Record list_frame (h h' : node_heap) : Prop := {
  lf_dentry a : dentry (h' a) = dentry (h a);
  lf_refcnt a : refcnt (h' a) = refcnt (h a);
  lf_hash a : hash_next (h' a) = hash_next (h a);
}.
Record hash_frame (h h' : node_heap) : Prop := {
  hf_dentry a : dentry (h' a) = dentry (h a);
  hf_refcnt a : refcnt (h' a) = refcnt (h a);
  hf_links a : same_links h h' a;
}.

Lemma upd_eq a f h : upd a f h a = f (h a).
Proof. apply fn_lookup_alter. Qed.
Lemma upd_ne a b f h : a <> b -> upd a f h b = h b.
Proof. apply fn_lookup_alter_ne. Qed.
Lemma upd_cases a f h b : upd a f h b = if decide (a = b) then f (h b) else h b.
Proof. case_decide; [subst; apply upd_eq|by apply upd_ne]. Qed.

(** Reads through updates of the heap. *)
Ltac heap :=
  repeat match goal with
  | |- context [upd ?a ?f ?h ?a] => rewrite (upd_eq a f h)
  | |- context [upd ?a ?f ?h ?b] => rewrite (upd_ne a b f h) by (done || congruence || set_solver)
  end.

Ltac frame_cases := intros; cbn; rewrite ?upd_cases; repeat case_decide; subst; by cbn.

#[export] Instance list_frame_trans : Transitive list_frame.
Proof. intros x y z [] []. split; congruence. Qed.
#[export] Instance list_frame_refl : Reflexive list_frame.
Proof. by split. Qed.
#[export] Instance hash_frame_trans : Transitive hash_frame.
Proof.
  intros x y z [D1 R1 L1] [D2 R2 L2]. split; [congruence..|].
  intros a. destruct (L1 a), (L2 a). split; congruence.
Qed.
#[export] Instance hash_frame_refl : Reflexive hash_frame.
Proof. by split. Qed.

Lemma list_frame_prev a p h : list_frame h (upd a (set_prev p) h).
Proof. split; frame_cases. Qed.
Lemma list_frame_next a p h : list_frame h (upd a (set_next p) h).
Proof. split; frame_cases. Qed.
Lemma hash_frame_next a p h : hash_frame h (upd a (set_hash_next p) h).
Proof. split; try split; frame_cases. Qed.

Lemma seg_ext h h' p l q : (forall a, a ∈ l -> same_links h h' a) -> seg h p l q -> seg h' p l q.
Proof.
  revert p. induction l as [|a l IH]; intros p He; [done|]. intros (Hp & Hn & Hl).
  cbn. destruct (He a ltac:(set_solver)) as [-> ->]. split_and!; [done..|]. apply IH; set_solver.
Qed.

Lemma is_list_ext h h' L l : (forall a, a ∈ l -> same_links h h' a) -> is_list h L l -> is_list h' L l.
Proof. intros He [? ? ? Hseg]. split; [done..|]. by apply (seg_ext h). Qed.

Lemma last_or_app p l1 l2 : last_or p (l1 ++ l2) = last_or (last_or p l1) l2.
Proof. revert p. induction l1; cbn; auto. Qed.
Lemma hd_or_app l1 l2 q : hd_or (l1 ++ l2) q = hd_or l1 (hd_or l2 q).
Proof. by destruct l1. Qed.
Lemma last_or_in p l a : last_or p l = Some a -> Some a = p \/ a ∈ l.
Proof.
  revert p. induction l as [|b l IH]; intros p; cbn; [by left|].
  intros [[= ->]|H]%IH; right; set_solver.
Qed.

Lemma seg_app h p l1 l2 q :
  seg h p (l1 ++ l2) q <-> seg h p l1 (hd_or l2 q) /\ seg h (last_or p l1) l2 q.
Proof.
  revert p. induction l1 as [|a l1 IH]; intros p; cbn; [naive_solver|].
  rewrite IH, hd_or_app. naive_solver.
Qed.

Lemma first_last l : NoDup l -> hd_or l None = last_or None l -> (length l <= 1)%nat.
Proof.
  intros Hnd. destruct l as [|a [|b l]]; cbn; [lia..|]. intros Hl. symmetry in Hl.
  apply last_or_in in Hl as [[= ->]|Hin]; inversion_clear Hnd; set_solver.
Qed.

Ltac frame_done :=
  repeat (etrans; [|first [apply list_frame_prev | apply list_frame_next | apply hash_frame_next]]);
  reflexivity.

(** [node_list_head_add] adds a node that is not in the list in front of it. *)
Lemma head_add_spec h L l a :
  is_list h L l -> NoDup (a :: l) -> Z.of_nat (length l) + 1 < 2 ^ 32 ->
  exists L' h', node_list_head_add L a h = (L', h') /\ is_list h' L' (a :: l) /\ list_frame h h' /\
    (forall b, b ∉ a :: l -> same_links h h' b).
Proof.
  intros [Hs Hf Hl Hseg] [Ha Hnd]%NoDup_cons Hlen. unfold node_list_head_add. rewrite Hf.
  destruct l as [|f l]; cbn -[upd]; eexists _, _; (split; [done|]).
  - split_and!; [|frame_done|].
    + split; cbn -[upd]; [rewrite Hs; by vm_compute|done..|]. heap. done.
    + intros b Hb. split; heap; done.
  - cbn in Hseg. destruct Hseg as (Hp & Hn & Hseg).
    apply NoDup_cons in Hnd as [Hfl _]. split_and!; [|frame_done|].
    + split; cbn -[upd]; [rewrite Hs, uwrap_small; unfold fits; cbn in *; lia|done|by rewrite Hl|].
      heap. split_and!; [done..|]. apply (seg_ext h); [|done].
      intros b Hb. split; rewrite !upd_cases; repeat case_decide; subst; try done; set_solver.
    + intros b Hb. split; heap; done.
Qed.

(** A chain of updates does not touch the links of a node it does not name. *)
Ltac links_done := intros; split; rewrite ?upd_cases; repeat case_decide; subst; try done; set_solver.

(** [node_list_remove] removes a node of the list. *)
Lemma list_remove_spec h L l1 a l2 :
  is_list h L (l1 ++ a :: l2) -> NoDup (l1 ++ a :: l2) ->
  Z.of_nat (length (l1 ++ a :: l2)) < 2 ^ 32 ->
  exists L' h', node_list_remove L a h = Some (L', h') /\ is_list h' L' (l1 ++ l2) /\
    list_frame h h' /\ (forall b, b ∉ l1 ++ l2 -> same_links h h' b).
Proof.
  intros [Hs Hf Hl Hseg] Hnd Hlen. unfold node_list_remove. rewrite Hf, Hl, Hs.
  assert (Hsize : u32 (Z.of_nat (length (l1 ++ a :: l2)) - 1) = Z.of_nat (length (l1 ++ l2))).
  { rewrite length_app in *. cbn in *. rewrite uwrap_small; [rewrite length_app|unfold fits]; lia. }
  rewrite Hsize. case_decide as Hone.
  { apply first_last in Hone; [|done]. rewrite length_app in Hone. cbn in Hone.
    destruct l1, l2; cbn in Hone; try lia. cbn. rewrite decide_True by done.
    eexists _, _. split; [done|]. split_and!; [by split|reflexivity|by intros]. }
  destruct l1 as [|p l1 _] using rev_ind.
  { cbn. rewrite decide_True by done. cbn in Hseg. destruct Hseg as (Hp & Hn & Hseg).
    destruct l2 as [|n l2]; [by destruct Hone|]. rewrite Hn. cbn -[upd]. cbn in Hseg.
    destruct Hseg as (Hp2 & Hn2 & Hseg). apply NoDup_cons in Hnd as [Ha [Hn' _]%NoDup_cons].
    eexists _, _. split; [done|]. split_and!; [|frame_done|links_done].
    split; cbn -[upd]; [done..|]. heap. split_and!; [done..|].
    apply (seg_ext h); [|done]. links_done. }
  assert (Hpa : p <> a) by (apply NoDup_app in Hnd as (_ & Hd & _); specialize (Hd p); set_solver).
  assert (Hfirst : hd_or ((l1 ++ [p]) ++ a :: l2) None <> Some a).
  { apply NoDup_app in Hnd as (_ & Hd & _). destruct l1 as [|f l1]; cbn; [congruence|].
    intros [= ->]. specialize (Hd a). set_solver. }
  rewrite decide_False by done. rewrite last_or_app. cbn -[upd].
  apply seg_app in Hseg as [Hseg1 Hseg2]. rewrite last_or_app in Hseg2. cbn in Hseg2.
  destruct Hseg2 as (Hp & Hn & Hseg2). apply seg_app in Hseg1 as [Hseg1 Hsp]. cbn in Hsp.
  destruct Hsp as (Hpp & Hpn & _).
  assert (p ∉ l1 /\ p ∉ l2 /\ a ∉ l1 /\ a ∉ l2 /\ NoDup l2 /\ (forall x, x ∈ l1 -> x ∉ l2))
    as (Hpl1 & Hpl2 & Hal1 & Hal2 & Hnd2 & Hd12).
  { rewrite !NoDup_app, !NoDup_cons in Hnd. set_solver. }
  destruct l2 as [|n l2].
  - cbn -[upd]. rewrite decide_True by done. rewrite Hp. cbn -[upd].
    eexists _, _. split; [done|]. split_and!; [|frame_done|links_done].
    rewrite app_nil_r. split; cbn -[upd]; [done|by destruct l1|by rewrite last_or_app|].
    apply seg_app. split; [apply (seg_ext h); [links_done|done]|]. cbn -[upd]. heap. done.
  - rewrite decide_False; cycle 1.
    { cbn. intros [[= ->]|?]%last_or_in; set_solver. }
    rewrite Hp. cbn -[upd]. heap. rewrite Hn. cbn -[upd].
    eexists _, _. split; [done|]. split_and!; [|frame_done|links_done].
    apply not_elem_of_cons in Hpl2 as [Hpn' Hpl2], Hal2 as [Han Hal2].
    split; cbn -[upd]; [done|by destruct l1|by rewrite !last_or_app|].
    rewrite <- app_assoc. cbn -[upd]. cbn in Hseg2. destruct Hseg2 as (Hnp & Hnn & Hseg2).
    apply NoDup_cons in Hnd2 as [Hnl2 _].
    apply seg_app. split; [apply (seg_ext h); [links_done|done]|]. cbn -[upd]. heap. cbn.
    split_and!; [done..|]. apply (seg_ext h); [links_done|done].
Qed.

(** ** The hash table *)

(** The nodes of [l] are chained to one another and to [q] after. *)
Fixpoint hseg (h : node_heap) (l : list Z) (q : option Z) : Prop :=
  match l with
  | [] => True
  | a :: l => hash_next (h a) = hd_or l q /\ hseg h l q
  end.

Lemma hseg_app h l1 l2 q : hseg h (l1 ++ l2) q <-> hseg h l1 (hd_or l2 q) /\ hseg h l2 q.
Proof. induction l1 as [|a l1 IH]; cbn; [naive_solver|]. rewrite IH, hd_or_app. naive_solver. Qed.

Lemma hseg_ext h h' l q :
  (forall a, a ∈ l -> hash_next (h' a) = hash_next (h a)) -> hseg h l q -> hseg h' l q.
Proof.
  induction l as [|a l IH]; intros He; [done|]. cbn. rewrite He by set_solver.
  intros [? ?]. split; [done|]. apply IH; set_solver.
Qed.

(** The table's slots hold the chains. *)
Record hash_rep (h : node_heap) (tbl : fatfs_hash_table_t) (chains : list (list Z)) : Prop := {
  hr_size : tbl_size tbl = Z.of_nat (length chains);
  hr_nodes : tbl_nodes tbl = (fun l => hd_or l None) <$> chains;
  hr_n : tbl_n tbl = Z.of_nat (length (concat chains));
  hr_chain : Forall (fun l => hseg h l None) chains;
  hr_nodup : NoDup (concat chains);
}.

Definition node_name (h : node_heap) (a : Z) : list byte := filename (dentry (h a)).
Definition name_slot (size : Z) (s : list byte) : Z := hash_fn s (Z.of_nat (length s)) mod size.

(** Every node is in the chain of its name, and the chains are sorted. *)
Record keys_ok (h : node_heap) (i : nat) (size : Z) (l : list Z) : Prop := {
  ko_slot : Forall (fun a => name_slot size (node_name h a) = Z.of_nat i) l;
  ko_sorted : StronglySorted name_le (node_name h <$> l);
}.
Definition table_keys (h : node_heap) (chains : list (list Z)) : Prop :=
  forall i l, chains !! i = Some l -> keys_ok h i (Z.of_nat (length chains)) l.

Lemma concat_middle {A} (c1 : list (list A)) l c2 : concat (c1 ++ l :: c2) = concat c1 ++ l ++ concat c2.
Proof. by rewrite concat_app. Qed.

Lemma elem_of_concat {A} (a : A) (ls : list (list A)) :
  a ∈ concat ls <-> exists l, l ∈ ls /\ a ∈ l.
Proof.
  rewrite list_elem_of_In, in_concat. by setoid_rewrite list_elem_of_In.
Qed.

(** A table changed in one chain. *)
Lemma hash_rep_change h h' tbl n v c1 l l' c2 :
  hash_rep h tbl (c1 ++ l :: c2) ->
  (forall a, a ∈ concat c1 ++ concat c2 -> hash_next (h' a) = hash_next (h a)) ->
  hseg h' l' None -> v = hd_or l' None ->
  NoDup (concat (c1 ++ l' :: c2)) -> n = Z.of_nat (length (concat (c1 ++ l' :: c2))) ->
  hash_rep h' (set_slot tbl (Z.of_nat (length c1)) n v) (c1 ++ l' :: c2).
Proof.
  intros [Hs Hn _ Hc _] Hsame Hl' -> Hnd ->. split; cbn; [|..|done].
  - rewrite Hs, !length_app. done.
  - rewrite Hn, Nat2Z.id, !fmap_app, insert_app_r_alt by (rewrite length_fmap; lia).
    by rewrite length_fmap, Nat.sub_diag.
  - done.
  - rewrite Forall_app, Forall_cons in *. destruct Hc as (H1 & _ & H2). split_and!; [|done|].
    all: rewrite Forall_forall in *; intros x Hx; apply (hseg_ext h); [|by auto].
    all: intros a Ha; apply Hsame; rewrite elem_of_app, !elem_of_concat; eauto.
Qed.

(** The chain of a slot. *)
Lemma hash_rep_slot h tbl c1 l c2 :
  hash_rep h tbl (c1 ++ l :: c2) -> tbl_nodes tbl !! Z.to_nat (Z.of_nat (length c1)) = Some (hd_or l None).
Proof.
  intros [_ Hn _ _ _]. rewrite Hn, Nat2Z.id, list_lookup_fmap, list_lookup_middle by done. done.
Qed.

Lemma hash_rep_hseg h tbl c1 l c2 : hash_rep h tbl (c1 ++ l :: c2) -> hseg h l None.
Proof. intros [_ _ _ Hc _]. rewrite Forall_app, Forall_cons in Hc. tauto. Qed.

Lemma set_n_slot h tbl c1 l c2 n :
  hash_rep h tbl (c1 ++ l :: c2) -> set_n n tbl = set_slot tbl (Z.of_nat (length c1)) n (hd_or l None).
Proof.
  intros Hrep. unfold set_n, set_slot. f_equal. symmetry. apply list_insert_id.
  by apply (hash_rep_slot _ _ _ _ _ Hrep).
Qed.

(** [link_node] puts a new node anywhere in a chain. *)
Lemma link_node_spec h tbl c1 l1 l2 c2 a :
  hash_rep h tbl (c1 ++ (l1 ++ l2) :: c2) -> a ∉ concat (c1 ++ (l1 ++ l2) :: c2) ->
  tbl_n tbl + 1 < 2 ^ 32 ->
  exists tbl' h',
    link_node tbl (Z.of_nat (length c1)) a (last_or None l1) (hd_or l2 None) h = (tbl', h') /\
    hash_rep h' tbl' (c1 ++ (l1 ++ a :: l2) :: c2) /\ hash_frame h h'.
Proof.
  intros Hrep Ha Hlt. pose proof (hash_rep_hseg _ _ _ _ _ Hrep) as Hseg.
  apply hseg_app in Hseg as [H1 H2]. pose proof (hr_nodup _ _ _ Hrep) as Hnd.
  rewrite concat_middle in Ha, Hnd.
  assert (Hn : u32 (tbl_n tbl + 1) = Z.of_nat (length (concat (c1 ++ (l1 ++ a :: l2) :: c2)))).
  { rewrite (hr_n _ _ _ Hrep) in *. rewrite !concat_middle, !length_app in *. cbn.
    rewrite uwrap_small; unfold fits; lia. }
  assert (Hnd' : NoDup (concat (c1 ++ (l1 ++ a :: l2) :: c2))).
  { rewrite concat_middle. rewrite <- !app_assoc in *. cbn.
    rewrite <- (Permutation_middle l1). rewrite <- (Permutation_middle (concat c1)).
    by constructor. }
  assert (Hout : forall b, b ∈ concat c1 ++ concat c2 -> b <> a /\ b ∉ l1 /\ b ∉ l2).
  { rewrite !NoDup_app in Hnd. set_solver. }
  assert (Hal : a ∉ l1 /\ a ∉ l2 /\ NoDup l1 /\ NoDup l2 /\ (forall b, b ∈ l1 -> b ∉ l2)).
  { rewrite !NoDup_app in Hnd. set_solver. }
  destruct Hal as (Hal1 & Hal2 & Hndl1 & Hndl2 & Hl12).
  unfold link_node. destruct l1 as [|p l1 _] using rev_ind; cbn -[upd].
  - eexists _, _. split; [done|]. split; [|apply hash_frame_next]. rewrite Hn.
    apply (hash_rep_change h _ _ _ _ _ l2); try done.
    + intros b Hb. rewrite upd_ne by (destruct (Hout b); done). done.
    + cbn. heap. split; [done|]. apply (hseg_ext h); [|done].
      intros b Hb. by rewrite upd_ne by set_solver.
  - rewrite last_or_app. cbn -[upd]. rewrite (set_n_slot _ _ _ _ _ _ Hrep), Hn.
    eexists _, _. split; [done|]. split; [|frame_done].
    apply hseg_app in H1 as [H1 [Hp _]]. apply NoDup_app in Hndl1 as (_ & Hpl1 & _).
    apply (hash_rep_change h _ _ _ _ _ ((l1 ++ [p]) ++ l2)); try done.
    + intros b Hb. destruct (Hout b) as (? & ? & ?); [done|]. heap. done.
    + rewrite <- app_assoc. apply hseg_app. split; [|cbn -[upd]; heap; split_and!; [done..|]].
      all: apply (hseg_ext h); [|done]; intros b Hb; specialize (Hpl1 b); specialize (Hl12 b).
      all: rewrite !upd_cases; repeat case_decide; subst; try done; set_solver.
    + by destruct l1.
Qed.

(** Taking a node out of its chain. *)
Lemma unlink_spec h tbl c1 l1 a l2 c2 fuel :
  hash_rep h tbl (c1 ++ (l1 ++ a :: l2) :: c2) -> tbl_n tbl < 2 ^ 32 -> (0 < fuel)%nat ->
  exists tbl' h',
    unlink_loop fuel tbl (Z.of_nat (length c1)) a (last_or None l1) (Some a) h = Some (true, tbl', h') /\
    hash_rep h' tbl' (c1 ++ (l1 ++ l2) :: c2) /\ hash_frame h h'.
Proof.
  intros Hrep Hlt Hfuel. pose proof (hash_rep_hseg _ _ _ _ _ Hrep) as Hseg.
  apply hseg_app in Hseg as [H1 [Ha H2]]. pose proof (hr_nodup _ _ _ Hrep) as Hnd.
  rewrite concat_middle in Hnd.
  assert (Hn : u32 (tbl_n tbl - 1) = Z.of_nat (length (concat (c1 ++ (l1 ++ l2) :: c2)))).
  { rewrite (hr_n _ _ _ Hrep) in *. rewrite !concat_middle, !length_app in *. cbn in *.
    rewrite uwrap_small; unfold fits; lia. }
  rewrite !NoDup_app, NoDup_cons in Hnd.
  assert (Hnd' : NoDup (concat (c1 ++ (l1 ++ l2) :: c2))).
  { rewrite concat_middle, !NoDup_app. set_solver. }
  assert (Hout : forall b, b ∈ concat c1 ++ concat c2 -> b <> a /\ b ∉ l1 /\ b ∉ l2) by set_solver.
  assert (a ∉ l1 /\ a ∉ l2 /\ NoDup l1 /\ (forall b, b ∈ l1 -> b ∉ l2))
    as (Hal1 & Hal2 & Hndl1 & Hl12) by set_solver.
  clear Hnd. destruct fuel as [|fuel]; [lia|]. cbn -[upd]. rewrite decide_True by done.
  rewrite Ha, Hn. destruct l1 as [|p l1 _] using rev_ind; cbn -[upd].
  - eexists _, _. split; [done|]. split; [|frame_done].
    apply (hash_rep_change h _ _ _ _ _ (a :: l2)); try done.
    + intros b Hb. destruct (Hout b) as (? & ? & ?); [done|]. heap. done.
    + apply (hseg_ext h); [|done]. intros b Hb. by rewrite upd_ne by set_solver.
  - rewrite last_or_app. cbn -[upd]. rewrite (set_n_slot _ _ _ _ _ _ Hrep).
    eexists _, _. split; [done|]. split; [|frame_done].
    apply hseg_app in H1 as [H1 [Hp _]]. apply NoDup_app in Hndl1 as (_ & Hpl1 & _).
    apply (hash_rep_change h _ _ _ _ _ ((l1 ++ [p]) ++ a :: l2)); try done.
    + intros b Hb. destruct (Hout b) as (? & ? & ?); [done|]. heap. done.
    + rewrite <- app_assoc. apply hseg_app. split; [|cbn -[upd]; heap; split; [done|]].
      all: apply (hseg_ext h); [|done]; intros b Hb; specialize (Hpl1 b); specialize (Hl12 b).
      all: rewrite !upd_cases; repeat case_decide; subst; try done; set_solver.
    + by destruct l1.
Qed.

Lemma unlink_loop_found h tbl c1 l1 la a l2 c2 fuel :
  hash_rep h tbl (c1 ++ ((l1 ++ la) ++ a :: l2) :: c2) -> tbl_n tbl < 2 ^ 32 ->
  (length la < fuel)%nat ->
  exists tbl' h',
    unlink_loop fuel tbl (Z.of_nat (length c1)) a (last_or None l1) (hd_or (la ++ a :: l2) None) h
    = Some (true, tbl', h') /\
    hash_rep h' tbl' (c1 ++ ((l1 ++ la) ++ l2) :: c2) /\ hash_frame h h'.
Proof.
  intros Hrep Hlt. revert l1 fuel Hrep. induction la as [|b la IH]; intros l1 fuel Hrep Hfuel.
  - rewrite app_nil_r in *. by apply unlink_spec.
  - cbn in Hfuel. destruct fuel as [|fuel]; [lia|]. cbn -[upd].
    rewrite decide_False; cycle 1.
    { intros ->. pose proof (hr_nodup _ _ _ Hrep) as Hnd. rewrite concat_middle, !NoDup_app in Hnd.
      set_solver. }
    pose proof (hash_rep_hseg _ _ _ _ _ Hrep) as Hseg. rewrite <- app_assoc in Hseg.
    apply hseg_app in Hseg as [_ [Hb _]]. rewrite Hb.
    specialize (IH (l1 ++ [b]) fuel). rewrite <- !app_assoc, last_or_app in IH. cbn in IH.
    rewrite <- !app_assoc. cbn. apply IH; [|lia]. by rewrite <- !app_assoc in Hrep.
Qed.

Lemma unlink_loop_absent h tbl i l a p fuel :
  hseg h l None -> a ∉ l -> (length l < fuel)%nat ->
  unlink_loop fuel tbl i a p (hd_or l None) h = Some (false, tbl, h).
Proof.
  revert p fuel. induction l as [|b l IH]; intros p [|fuel] Hs Ha Hfuel; cbn in Hfuel; try lia; [done|].
  cbn. rewrite decide_False by set_solver. destruct Hs as [-> Hs]. apply IH; [done|set_solver|lia].
Qed.

(** [add_loop] walks to the first name that is greater. *)
Lemma add_loop_spec fuel tbl i a h l1 l2 :
  hseg h l2 None -> a ∉ l2 -> (length l2 < fuel)%nat -> l1 ++ l2 <> [] ->
  exists la lb, l2 = la ++ lb /\
    Forall (fun b => name_le (node_name h b) (node_name h a)) la /\
    Forall (fun b => strcasecmp (node_name h b) (node_name h a) > 0) (take 1 lb) /\
    add_loop fuel tbl i a (last_or None l1) (hd_or l2 None) h
    = let '(tbl', h') := link_node tbl i a (last_or None (l1 ++ la)) (hd_or lb None) h in
      Some (true, tbl', h').
Proof.
  revert fuel l1. induction l2 as [|b l2 IH]; intros [|fuel] l1 Hs Ha Hfuel Hne; cbn in Hfuel; try lia.
  - exists [], []. cbn. rewrite app_nil_r in *. split_and!; [done..|].
    destruct l1 as [|p l1 _] using rev_ind; [done|]. by rewrite last_or_app.
  - cbn -[link_node]. rewrite decide_False by set_solver. destruct Hs as [Hn Hs].
    destruct (strcasecmp _ _ >? 0) eqn:E.
    + exists [], (b :: l2). rewrite app_nil_r. cbn. split_and!; [done..| |done].
      repeat constructor. unfold node_name. apply Z.gtb_lt in E. lia.
    + destruct (IH fuel (l1 ++ [b]) Hs ltac:(set_solver) ltac:(lia) ltac:(by destruct l1))
        as (la & lb & -> & Hla & Hlb & Heq).
      exists (b :: la), lb. split_and!; [done| |done|].
      * constructor; [|done]. unfold name_le, node_name. rewrite Z.gtb_ltb in E. bool_lia.
      * rewrite Hn. rewrite last_or_app in Heq. cbn in Heq. rewrite Heq, <- app_assoc. done.
Qed.

(** ** Keys *)
Definition names_ok (h : node_heap) (l : list Z) : Prop :=
  Forall (fun a => name_bytes (node_name h a)) l.

Lemma frame_names h h' a : hash_frame h h' -> node_name h' a = node_name h a.
Proof. intros [D _ _]. unfold node_name. by rewrite D. Qed.

Lemma keys_ok_frame h h' i size l :
  (forall a, a ∈ l -> node_name h' a = node_name h a) -> keys_ok h i size l -> keys_ok h' i size l.
Proof.
  intros Hn [Hs Hsort]. split.
  - rewrite Forall_forall in *. intros a Ha. rewrite Hn; auto.
  - by rewrite (list_fmap_ext _ (node_name h)) by (intros ???%list_elem_of_lookup_2; auto).
Qed.

(** The keys of a table of which one chain has changed. *)
Lemma table_keys_change h h' c1 l l' c2 :
  hash_frame h h' -> table_keys h (c1 ++ l :: c2) ->
  keys_ok h (length c1) (Z.of_nat (length (c1 ++ l :: c2))) l' ->
  table_keys h' (c1 ++ l' :: c2).
Proof.
  intros Hf Hk Hl i k Hi. rewrite !length_app in *. cbn in *.
  apply (keys_ok_frame h); [intros; by apply frame_names|].
  destruct (decide (i = length c1)) as [->|Hne].
  - rewrite list_lookup_middle in Hi by done. by injection Hi as <-.
  - specialize (Hk i k). rewrite !length_app in Hk. apply Hk.
    revert Hi. destruct (decide (i < length c1)%nat); [by rewrite !lookup_app_l by done|].
    rewrite !lookup_app_r by lia. by destruct (i - length c1)%nat eqn:?; [lia|].
Qed.

Lemma keys_ok_remove h i size l1 a l2 : keys_ok h i size (l1 ++ a :: l2) -> keys_ok h i size (l1 ++ l2).
Proof.
  intros [Hs Hsort]. split.
  - rewrite Forall_app, Forall_cons in Hs. apply Forall_app. tauto.
  - rewrite fmap_app in *. cbn in Hsort. rewrite StronglySorted_app, StronglySorted_cons in *.
    set_solver.
Qed.

Lemma keys_ok_insert h i size la a lb :
  names_ok h (a :: la ++ lb) -> keys_ok h i size (la ++ lb) ->
  name_slot size (node_name h a) = Z.of_nat i ->
  Forall (fun b => name_le (node_name h b) (node_name h a)) la ->
  Forall (fun b => strcasecmp (node_name h b) (node_name h a) > 0) (take 1 lb) ->
  keys_ok h i size (la ++ a :: lb).
Proof.
  intros Hnames [Hs Hsort] Ha Hla Hlb. split.
  - rewrite Forall_app, Forall_cons in *. tauto.
  - rewrite fmap_app in *. cbn. unfold names_ok in Hnames.
    rewrite Forall_cons, Forall_app in Hnames. destruct Hnames as (Hna & Hnla & Hnlb).
    rewrite Forall_forall in Hnla, Hnlb, Hla.
    assert (Hlb' : forall b, b ∈ lb -> name_le (node_name h a) (node_name h b)).
    { rewrite StronglySorted_app in Hsort. destruct Hsort as (_ & _ & Hsort).
      destruct lb as [|b0 lb]; [set_solver|]. cbn in Hlb, Hsort.
      apply Forall_singleton, name_le_total in Hlb.
      apply StronglySorted_cons in Hsort as [H0 _]. rewrite Forall_fmap, Forall_forall in H0.
      intros b [->|Hb]%elem_of_cons; [done|].
      apply (name_le_trans _ (node_name h b0)); [done|apply Hnlb; set_solver..|done|by apply H0]. }
    rewrite StronglySorted_app, StronglySorted_cons in *. destruct Hsort as (H1 & H2 & H3).
    split_and!; [|done| |done].
    + intros x y (b & -> & Hb)%list_elem_of_fmap [->|(b' & -> & Hb')%list_elem_of_fmap]%elem_of_cons;
        [by apply Hla|]. apply H1; by apply list_elem_of_fmap_2.
    + rewrite Forall_fmap, Forall_forall. exact Hlb'.
Qed.

(** ** The operations of the hash table *)
Section Table.
Context (POOL : Z) (past_end : fatfs_dir_entry_t -> Z -> byte).

(** A table whose nodes are all in the chain of their name. *)
Record hashed (h : node_heap) tbl (chains : list (list Z)) : Prop := {
  ha_rep : hash_rep h tbl chains;
  ha_keys : table_keys h chains;
  ha_names : names_ok h (concat chains);
  ha_size : chains <> [];
  ha_pool : Z.of_nat (length (concat chains)) <= POOL;
}.

Lemma in_chain_length {A} (l : list A) (ls : list (list A)) : l ∈ ls -> (length l <= length (concat ls))%nat.
Proof.
  intros (l1 & l2 & ->)%list_elem_of_split. rewrite concat_middle, !length_app. lia.
Qed.

Lemma chain_of (chains : list (list Z)) s :
  chains <> [] -> exists c1 l c2, chains = c1 ++ l :: c2 /\
    name_slot (Z.of_nat (length chains)) s = Z.of_nat (length c1).
Proof.
  intros Hne. set (i := name_slot (Z.of_nat (length chains)) s).
  assert (Hi : 0 <= i < Z.of_nat (length chains)).
  { apply Z.mod_pos_bound. destruct chains; [done|]. cbn. lia. }
  destruct (lookup_lt_is_Some_2 chains (Z.to_nat i)) as [l Hl]; [lia|].
  exists (take (Z.to_nat i) chains), l, (drop (S (Z.to_nat i)) chains).
  split; [by rewrite take_drop_middle|]. rewrite length_take. lia.
Qed.

Lemma hashed_ext h h' tbl chains :
  (forall a, a ∈ concat chains -> hash_next (h' a) = hash_next (h a) /\ node_name h' a = node_name h a) ->
  hashed h tbl chains -> hashed h' tbl chains.
Proof.
  intros He [[Hs Hn Hl Hc Hnd] Hkeys Hnames Hne Hpool].
  assert (Hin : forall l a, l ∈ chains -> a ∈ l -> a ∈ concat chains)
    by (intros l a ??; apply elem_of_concat; eauto).
  split; [split; [done..| |done]| | |done..].
  - rewrite Forall_forall in *. intros l Hl'. apply (hseg_ext h); [|by apply Hc].
    intros a Ha. apply He. eauto.
  - intros i l Hi. apply (keys_ok_frame h); [|by apply Hkeys].
    intros a Ha. apply He. eapply Hin; [by eapply list_elem_of_lookup_2|done].
  - unfold names_ok in *. rewrite Forall_forall in *. intros a Ha.
    destruct (He a Ha) as [_ ->]. by apply Hnames.
Qed.

Lemma node_hash_add_spec h tbl chains a :
  hashed h tbl chains -> a ∉ concat chains -> name_bytes (node_name h a) ->
  Z.of_nat (length (concat chains)) < POOL -> POOL < 2 ^ 32 ->
  exists tbl' h' chains', node_hash_add POOL tbl a h = Some (true, tbl', h') /\
    hashed h' tbl' chains' /\ hash_frame h h' /\ concat chains' ≡ₚ a :: concat chains.
Proof.
  intros [Hrep Hkeys Hnames Hne Hpool] Ha Hna Hlen Hp.
  destruct (chain_of chains (node_name h a) Hne) as (c1 & l & c2 & -> & Hslot).
  pose proof (hash_rep_hseg _ _ _ _ _ Hrep) as Hseg.
  assert (Hsz : node_slot tbl (dentry (h a)) = Z.of_nat (length c1)).
  { rewrite <- Hslot, <- (hr_size _ _ _ Hrep). done. }
  unfold node_hash_add. rewrite Hsz, (hash_rep_slot _ _ _ _ _ Hrep). cbn [mbind option_bind].
  assert (Hcode : exists la lb, l = la ++ lb /\
    Forall (fun b => name_le (node_name h b) (node_name h a)) la /\
    Forall (fun b => strcasecmp (node_name h b) (node_name h a) > 0) (take 1 lb) /\
    match hd_or l None with
    | Some _ => add_loop (chain_fuel POOL) tbl (Z.of_nat (length c1)) a None (hd_or l None) h
    | None => Some (true, set_slot tbl (Z.of_nat (length c1)) (u32 (tbl_n tbl + 1)) (Some a),
                    upd a (set_hash_next None) h)
    end = let '(tbl', h') := link_node tbl (Z.of_nat (length c1)) a (last_or None la) (hd_or lb None) h in
          Some (true, tbl', h')).
  { destruct l as [|b l]; [by exists [], []|]. cbn [hd_or].
    apply (add_loop_spec _ _ _ _ _ [] (b :: l)); [done| | |done].
    - rewrite concat_middle in Ha. set_solver.
    - unfold chain_fuel. pose proof (in_chain_length (b :: l) (c1 ++ (b :: l) :: c2)).
      specialize (H ltac:(set_solver)). lia. }
  destruct Hcode as (la & lb & -> & Hla & Hlb & ->).
  destruct (link_node_spec _ _ _ _ _ _ _ Hrep Ha) as (tbl' & h' & -> & Hrep' & Hf).
  { rewrite (hr_n _ _ _ Hrep). lia. }
  assert (Hperm : concat (c1 ++ (la ++ a :: lb) :: c2) ≡ₚ a :: concat (c1 ++ (la ++ lb) :: c2)).
  { rewrite !concat_middle, <- !app_assoc. cbn. rewrite <- (Permutation_middle la).
    by rewrite <- (Permutation_middle (concat c1)). }
  exists tbl', h', (c1 ++ (la ++ a :: lb) :: c2). split_and!; [done| |done|done].
  split; [done| | |by destruct c1|rewrite Hperm; cbn; lia].
  - apply (table_keys_change h _ _ (la ++ lb)); [done..|]. apply keys_ok_insert; try done.
    + constructor; [done|]. unfold names_ok in Hnames.
      rewrite concat_middle, !Forall_app in Hnames. apply Forall_app. tauto.
    + apply Hkeys. by rewrite list_lookup_middle.
  - unfold names_ok. rewrite Hperm. constructor; [by rewrite (frame_names h)|].
    eapply Forall_impl; [exact Hnames|]. intros b. by rewrite (frame_names h h').
Qed.
Lemma split_chain a (chains : list (list Z)) :
  a ∈ concat chains -> exists c1 l1 l2 c2, chains = c1 ++ (l1 ++ a :: l2) :: c2.
Proof.
  intros (l & (c1 & c2 & ->)%list_elem_of_split & (l1 & l2 & ->)%list_elem_of_split)%elem_of_concat.
  by exists c1, l1, l2, c2.
Qed.

Lemma concat_split_perm a c1 (l1 l2 : list Z) c2 :
  concat (c1 ++ (l1 ++ a :: l2) :: c2) ≡ₚ a :: concat (c1 ++ (l1 ++ l2) :: c2).
Proof.
  rewrite !concat_middle, <- !app_assoc. cbn. rewrite <- (Permutation_middle l1).
  by rewrite <- (Permutation_middle (concat c1)).
Qed.

(** Without the node [a] the table is in order; the name of [a] may have changed. *)
Record hashed_but a h tbl (chains : list (list Z)) : Prop := {
  hb_rep : hash_rep h tbl chains;
  hb_keys : forall i l, chains !! i = Some l ->
    keys_ok h i (Z.of_nat (length chains)) (filter (fun b => b <> a) l);
  hb_names : names_ok h (filter (fun b => b <> a) (concat chains));
  hb_pool : Z.of_nat (length (concat chains)) <= POOL;
}.

Lemma filter_absent (a : Z) (l : list Z) : a ∉ l -> filter (fun b => b <> a) l = l.
Proof.
  induction l as [|b l IH]; intros Ha; [done|]. rewrite filter_cons_True by set_solver.
  rewrite IH by set_solver. done.
Qed.

(** The table after the removal of [a] from its chain. *)
Lemma hashed_removed a h h' tbl tbl' c1 l1 l2 c2 :
  hashed_but a h tbl (c1 ++ (l1 ++ a :: l2) :: c2) ->
  hash_rep h' tbl' (c1 ++ (l1 ++ l2) :: c2) -> hash_frame h h' ->
  hashed h' tbl' (c1 ++ (l1 ++ l2) :: c2).
Proof.
  intros [Hrep Hkeys Hnames Hpool] Hrep' Hf. pose proof (hr_nodup _ _ _ Hrep) as Hnd.
  pose proof (concat_split_perm a c1 l1 l2 c2) as Hperm. rewrite Hperm in Hnd.
  apply NoDup_cons in Hnd as [Ha _]. split; [done| | |by destruct c1|].
  - apply (table_keys_change h _ _ (l1 ++ l2)); [done| |].
    + intros i l Hi. rewrite !length_app in *. cbn in *.
      assert (Hal : a ∉ l).
      { intros Hal. apply Ha, elem_of_concat. exists l. split; [|done].
        by apply list_elem_of_lookup_2 in Hi. }
      specialize (Hkeys i).
      destruct (decide (i = length c1)) as [->|Hne].
      * rewrite list_lookup_middle in Hi by done. injection Hi as <-.
        specialize (Hkeys (l1 ++ a :: l2)). rewrite list_lookup_middle in Hkeys by done.
        rewrite filter_app, filter_cons_False in Hkeys by naive_solver.
        rewrite <- filter_app, filter_absent in Hkeys by done. by apply Hkeys.
      * rewrite <- (filter_absent a l) by done. apply Hkeys. revert Hi.
        destruct (decide (i < length c1)%nat); [by rewrite !lookup_app_l by done|].
        rewrite !lookup_app_r by lia. by destruct (i - length c1)%nat eqn:?; [lia|].
    + specialize (Hkeys (length c1) (l1 ++ a :: l2)). rewrite list_lookup_middle in Hkeys by done.
      rewrite filter_app, filter_cons_False, <- filter_app in Hkeys by naive_solver.
      rewrite filter_absent in Hkeys by (rewrite concat_middle in Ha; set_solver).
      rewrite !length_app in *. by apply Hkeys.
  - unfold names_ok in *. rewrite Forall_forall in *. intros b Hb. rewrite (frame_names h h') by done.
    apply Hnames, list_elem_of_filter. split; [by intros ->|]. rewrite Hperm. by apply elem_of_cons; right.
  - rewrite Hperm in Hpool. cbn in Hpool. lia.
Qed.

Lemma hashed_weaken a h tbl chains : hashed h tbl chains -> hashed_but a h tbl chains.
Proof.
  intros [Hrep Hkeys Hnames _ Hpool]. split; [done| | |done].
  - intros i l Hi. destruct (decide (a ∈ l)) as [(l1 & l2 & ->)%list_elem_of_split|];
      [|rewrite filter_absent by done; by apply Hkeys].
    assert (Ha : a ∉ l1 ++ l2).
    { pose proof (hr_nodup _ _ _ Hrep) as Hnd. apply list_elem_of_lookup_2 in Hi.
      apply list_elem_of_split in Hi as (c1 & c2 & ->). rewrite concat_split_perm in Hnd.
      apply NoDup_cons in Hnd as [Hnd _]. rewrite concat_middle in Hnd. set_solver. }
    rewrite filter_app, filter_cons_False, <- filter_app, filter_absent by (done || naive_solver).
    apply (keys_ok_remove _ _ _ _ a). by apply Hkeys.
  - unfold names_ok in *. rewrite Forall_forall in *. intros b [_ Hb]%list_elem_of_filter. auto.
Qed.

(** Only the name of [a] has changed. *)
Lemma hashed_renamed a d h tbl chains :
  hashed h tbl chains -> hashed_but a (upd a (set_dentry d) h) tbl chains.
Proof.
  intros Hh. destruct (hashed_weaken a _ _ _ Hh) as [[Hs Hn Hl Hc Hnd] Hkeys Hnames Hpool].
  assert (Hsame : forall b, b <> a -> node_name (upd a (set_dentry d) h) b = node_name h b).
  { intros b Hb. unfold node_name. by rewrite upd_ne. }
  split; [split; [done..| |done]| | |done].
  - eapply Forall_impl; [exact Hc|]. intros l. apply hseg_ext. intros b _.
    rewrite upd_cases. by case_decide; subst.
  - intros i l Hi. apply (keys_ok_frame h); [|by apply Hkeys].
    intros b [Hb _]%list_elem_of_filter. by apply Hsame.
  - unfold names_ok in *. rewrite Forall_forall in *. intros b Hb. rewrite Hsame; [by apply Hnames|].
    by apply list_elem_of_filter in Hb as [? _].
Qed.

Lemma node_hash_remove_spec h tbl chains a :
  hashed h tbl chains -> a ∈ concat chains -> POOL < 2 ^ 32 ->
  exists tbl' h' chains', node_hash_remove POOL tbl a h = Some (true, tbl', h') /\
    hashed h' tbl' chains' /\ hash_frame h h' /\ concat chains ≡ₚ a :: concat chains'.
Proof.
  intros Hh (c1 & l1 & l2 & c2 & ->)%split_chain Hp. pose proof Hh as [Hrep Hkeys _ _ Hpool].
  assert (Hslot : node_slot tbl (dentry (h a)) = Z.of_nat (length c1)).
  { destruct (Hkeys (length c1) (l1 ++ a :: l2)) as [Hs _]; [by apply list_lookup_middle|].
    apply Forall_app in Hs as [_ [Hs _]%Forall_cons]. unfold node_slot.
    rewrite (hr_size _ _ _ Hrep). done. }
  unfold node_hash_remove. rewrite Hslot, (hash_rep_slot _ _ _ _ _ Hrep). cbn [mbind option_bind].
  destruct (unlink_loop_found h tbl c1 [] l1 a l2 c2 (chain_fuel POOL))
    as (tbl' & h' & Hrun & Hrep' & Hf).
  - done.
  - rewrite (hr_n _ _ _ Hrep). lia.
  - unfold chain_fuel. rewrite concat_middle, !length_app in Hpool. lia.
  - cbn [last_or app] in Hrun. rewrite Hrun.
    exists tbl', h', (c1 ++ (l1 ++ l2) :: c2). split_and!; [done| |done|apply concat_split_perm].
    by eapply hashed_removed; [apply hashed_weaken| |].
Qed.

Lemma remove_slots_spec h tbl a c0 c1 l1 l2 c2 :
  hash_rep h tbl (c0 ++ c1 ++ (l1 ++ a :: l2) :: c2) -> POOL < 2 ^ 32 ->
  Z.of_nat (length (concat (c0 ++ c1 ++ (l1 ++ a :: l2) :: c2))) <= POOL ->
  exists tbl' h', remove_slots POOL (length (c1 ++ (l1 ++ a :: l2) :: c2)) tbl a h = Some (true, tbl', h') /\
    hash_rep h' tbl' (c0 ++ c1 ++ (l1 ++ l2) :: c2) /\ hash_frame h h'.
Proof.
  intros Hrep Hp Hpool. revert c0 Hrep Hpool. induction c1 as [|l c1 IH]; intros c0 Hrep Hpool.
  - cbn [app length remove_slots].
    replace (tbl_size tbl - Z.of_nat (S (length c2))) with (Z.of_nat (length c0))
      by (rewrite (hr_size _ _ _ Hrep), length_app; cbn; lia).
    rewrite (hash_rep_slot _ _ _ _ _ Hrep). cbn [mbind option_bind].
    destruct (unlink_loop_found h tbl c0 [] l1 a l2 c2 (chain_fuel POOL))
    as (tbl' & h' & Hrun & Hrep' & Hf).
    + done.
    + rewrite (hr_n _ _ _ Hrep). cbn in *. lia.
    + unfold chain_fuel. cbn in Hpool. rewrite concat_middle, !length_app in Hpool. lia.
    + cbn [last_or app] in Hrun. rewrite Hrun. by exists tbl', h'.
  - cbn [app] in Hrep, Hpool. cbn [app length remove_slots]. rewrite length_app. cbn [length].
    replace (tbl_size tbl - Z.of_nat (S (length c1 + S (length c2)))) with (Z.of_nat (length c0))
      by (rewrite (hr_size _ _ _ Hrep), !length_app; cbn; rewrite length_app; cbn; lia).
    rewrite (hash_rep_slot _ _ _ _ _ Hrep). cbn [mbind option_bind].
    pose proof (hr_nodup _ _ _ Hrep) as Hnd. rewrite concat_middle in Hpool, Hnd.
    rewrite concat_middle in Hpool, Hnd. rewrite unlink_loop_absent; cycle 1.
    + by apply (hash_rep_hseg _ _ _ _ _ Hrep).
    + intros Ha. rewrite !NoDup_app in Hnd. set_solver.
    + unfold chain_fuel. rewrite !length_app in Hpool. lia.
    + cbn [mbind option_bind]. specialize (IH (c0 ++ [l])). rewrite <- !app_assoc in IH.
      cbn [app] in IH. rewrite length_app in IH. cbn [length] in IH. apply IH; [done|].
      by rewrite concat_middle, concat_middle.
Qed.

(** [fatfs_node_rehash] removes a node whose name has changed and adds it again. *)
Lemma node_hash_remove_keyless_spec h tbl chains a :
  hashed_but a h tbl chains -> a ∈ concat chains -> POOL < 2 ^ 32 ->
  exists tbl' h' chains', node_hash_remove_keyless POOL tbl a h = Some (true, tbl', h') /\
    hashed h' tbl' chains' /\ hash_frame h h' /\ concat chains ≡ₚ a :: concat chains'.
Proof.
  intros Hb (c1 & l1 & l2 & c2 & ->)%split_chain Hp. pose proof Hb as [Hrep _ _ Hpool].
  unfold node_hash_remove_keyless. rewrite (hr_size _ _ _ Hrep), Nat2Z.id.
  destruct (remove_slots_spec h tbl a [] c1 l1 l2 c2) as (tbl' & h' & -> & Hrep' & Hf); [done..|].
  exists tbl', h', (c1 ++ (l1 ++ l2) :: c2). split_and!; [done| |done|apply concat_split_perm].
  by eapply hashed_removed.
Qed.

(** ** Finding a name *)
Definition matches h (nm : list byte) parent (a : Z) : Prop :=
  parent_cluster (dentry (h a)) = parent /\ same_name (node_name h a) nm.

Lemma same_name_length s t : same_name s t -> length s = length t.
Proof. unfold same_name. intros H%(f_equal length). by rewrite !length_map in H. Qed.

(** The name of the node ends at [namelen], or what follows its end happens to be 0. *)
Lemma filename_at_spec d n :
  name_bytes (filename d) -> (n < 13)%nat -> exists c, filename_at past_end d (Z.of_nat n) = Some c /\
    (c = 0 -> (length (filename d) <= n)%nat) /\ (length (filename d) = n -> c = 0).
Proof.
  intros Hb Hn. unfold filename_at. rewrite (proj2 (andb_true_iff _ _)) by (split; bool_lia).
  eexists. split; [done|]. split.
  - case_match eqn:E; [|bool_lia]. apply Z.ltb_lt in E. unfold nthZ. rewrite Nat2Z.id. intros H0.
    assert (Hin : nth n (filename d) 0 ∈ filename d) by (apply list_elem_of_In, nth_In; lia).
    unfold name_bytes in Hb. rewrite Forall_forall in Hb. specialize (Hb _ Hin). lia.
  - intros ->. rewrite Z.ltb_irrefl, Z.eqb_refl. done.
Qed.

(** The comparison of a node's name with the first [n] characters of [name]. *)
Lemma compare_name f name n :
  name_bytes f -> name_bytes name -> (length f <= n <= length name)%nat ->
  strncasecmp f name n = strcasecmp f (take n name).
Proof. intros. rewrite strncasecmp_take, take_ge by (done || lia). done. Qed.

Lemma name_bytes_take n s : name_bytes s -> name_bytes (take n s).
Proof. apply Forall_take. Qed.

(** No name after a greater one matches. *)
Lemma sorted_no_match f nm g :
  name_bytes f -> name_bytes nm -> name_bytes g ->
  strcasecmp f nm > 0 -> name_le f g -> ~ same_name g nm.
Proof.
  intros Hf Hnm Hg Hgt Hle Hs%strcasecmp_eq; [|done..].
  pose proof (name_le_trans f g nm Hf Hg Hnm Hle). unfold name_le in *. lia.
Qed.

Lemma find_loop_spec fuel h name n parent l :
  hseg h l None -> (length l < fuel)%nat -> names_ok h l ->
  StronglySorted name_le (node_name h <$> l) ->
  name_bytes name -> (n <= length name)%nat -> (n < 13)%nat ->
  exists r, find_loop past_end fuel h name (Z.of_nat n) parent (hd_or l None) = Some r /\
    match r with
    | Some a => a ∈ l /\ matches h (take n name) parent a
    | None => forall a, a ∈ l -> ~ matches h (take n name) parent a
    end.
Proof.
  revert fuel. induction l as [|a l IH]; intros [|fuel] Hs Hfuel Hok Hsort Hname Hn Hn13;
    cbn in Hfuel; try lia; [exists None; split; [done|set_solver]|].
  apply Forall_cons in Hok as [Hna Hok]. destruct Hs as [Hnext Hs].
  cbn in Hsort. apply StronglySorted_cons in Hsort as [Ha Hsort].
  rewrite Forall_fmap, Forall_forall in Ha.
  cbn [hd_or find_loop]. rewrite Hnext.
  destruct (IH fuel Hs ltac:(lia) Hok Hsort Hname Hn Hn13) as (r & Hr & Hspec).
  rewrite Hr. clear IH.
  assert (Hskip : ~ matches h (take n name) parent a ->
    exists r', Some r = Some r' /\
    match r' with
    | Some b => b ∈ a :: l /\ matches h (take n name) parent b
    | None => forall b, b ∈ a :: l -> ~ matches h (take n name) parent b
    end).
  { intros Hno. exists r. split; [done|]. destruct r as [b|]; [split; [set_solver|tauto]|].
    intros b [->|?]%elem_of_cons; auto. }
  destruct (parent =? _) eqn:Ep; [|apply Hskip; intros [H _]; bool_lia]. apply Z.eqb_eq in Ep.
  destruct (filename_at_spec (dentry (h a)) n Hna Hn13) as (c & -> & Hc0 & Hlen).
  cbn [mbind option_bind]. destruct (0 =? c) eqn:Ec.
  2: { apply Hskip. intros [_ H%same_name_length]. rewrite length_take in H. bool_lia.
       unfold node_name in H. lia. }
  apply Z.eqb_eq in Ec. rewrite Nat2Z.id, compare_name by (done || lia).
  pose proof (name_bytes_take n name Hname) as Htake.
  pose proof (strcasecmp_eq (node_name h a) (take n name) Hna Htake) as Heq.
  unfold node_name in Heq. destruct (_ =? 0) eqn:E0; [|destruct (_ >? 0) eqn:E1].
  - apply Z.eqb_eq in E0. exists (Some a). split; [done|]. split; [set_solver|].
    split; [done|]. by apply Heq.
  - apply Z.gtb_lt in E1. exists None. split; [done|]. intros b [->|Hb]%elem_of_cons [_ Hm].
    + apply Heq in Hm. lia.
    + unfold names_ok in Hok. rewrite Forall_forall in Hok.
      apply (sorted_no_match (node_name h a) (take n name) (node_name h b));
        [done|done|by apply Hok|unfold node_name; lia|by apply Ha|done].
  - apply Hskip. intros [_ H]. apply Heq in H. bool_lia.
Qed.

(** [node_hash_find] is the search for a node with the given parent and name. *)
Lemma node_hash_find_spec h tbl chains name n parent :
  hashed h tbl chains -> name_bytes name -> (n <= length name)%nat -> (n < 13)%nat ->
  exists r, node_hash_find POOL past_end tbl h name (Z.of_nat n) parent = Some r /\
    match r with
    | Some a => a ∈ concat chains /\ matches h (take n name) parent a
    | None => forall a, a ∈ concat chains -> ~ matches h (take n name) parent a
    end.
Proof.
  intros [Hrep Hkeys Hnames Hne Hpool] Hname Hn Hn13.
  destruct (chain_of chains (take n name) Hne) as (c1 & l & c2 & -> & Hslot).
  assert (Hh : hash_fn name (Z.of_nat n) mod tbl_size tbl = Z.of_nat (length c1)).
  { rewrite <- Hslot, (hr_size _ _ _ Hrep). unfold name_slot, hash_fn, upto.
    rewrite !Nat2Z.id, length_take, take_take. do 3 f_equal. lia. }
  unfold node_hash_find. rewrite Hh, (hash_rep_slot _ _ _ _ _ Hrep). cbn [mbind option_bind].
  destruct (Hkeys (length c1) l ltac:(by apply list_lookup_middle)) as [Hs Hsort].
  pose proof (in_chain_length l (c1 ++ l :: c2) ltac:(set_solver)).
  assert (Hl : names_ok h l).
  { unfold names_ok in Hnames. rewrite concat_middle, !Forall_app in Hnames. apply Hnames. }
  destruct (find_loop_spec (chain_fuel POOL) h name n parent l) as (r & -> & Hr); try done.
  - by apply (hash_rep_hseg _ _ _ _ _ Hrep).
  - unfold chain_fuel. lia.
  - exists r. split; [done|]. rewrite concat_middle. destruct r as [a|]; [set_solver|].
    (* a match would be in the slot of the name *)
    intros a Ha Hm. destruct Hm as [Hp Hm]. apply (Hr a); [|by split].
    assert (Hnt : name_bytes (take n name)) by by apply name_bytes_take.
    rewrite <- concat_middle in Ha. apply elem_of_concat in Ha as (k & [i Hk]%list_elem_of_lookup & Ha).
    destruct (Hkeys i k Hk) as [Hsk _]. rewrite Forall_forall in Hsk. specialize (Hsk a Ha).
    assert (Hsame : name_slot (Z.of_nat (length (c1 ++ l :: c2))) (node_name h a)
      = name_slot (Z.of_nat (length (c1 ++ l :: c2))) (take n name)).
    { unfold name_slot. f_equal. apply hash_fn_case; [|done..].
      unfold names_ok in Hnames. rewrite Forall_forall in Hnames. apply Hnames, elem_of_concat.
      exists k. split; [by eapply list_elem_of_lookup_2|done]. }
    assert (i = length c1) as -> by lia. rewrite list_lookup_middle in Hk by done. congruence.
Qed.
End Table.
