(* ===== verification/FatNodeOps.v ===== *)
(** * FAT node cache: the contract

    The cache as three lists of nodes (referenced, unreferenced by recency,
    free) with their entries and reference counts, what each exported function
    does to them, and the proof that the code does it. *)
From stdpp Require Import functions.
From S2P Require Import Prelude FatTable FatFile FatDentry FatNode FatNodeSpec.

(** ** The abstract cache *)
Record cache_view := View {
  v_live : list Z;
  v_dead : list Z;
  v_free : list Z;
  v_dentry : Z -> fatfs_dir_entry_t;
  v_refcnt : Z -> Z;
}.

#[export] Instance same_name_dec s t : Decision (same_name s t) := decide (map toupper s = map toupper t).

(** The node is the one of the entry [nm] of the directory at [parent]. *)
Definition has_key (D : Z -> fatfs_dir_entry_t) (nm : list byte) (parent a : Z) : Prop :=
  parent_cluster (D a) = parent /\ same_name (filename (D a)) nm.
(** Two entries of one directory with the same name. *)
Definition same_key (d e : fatfs_dir_entry_t) : Prop :=
  parent_cluster d = parent_cluster e /\ same_name (filename d) (filename e).
Definition without (a : Z) (l : list Z) : list Z := filter (fun b => b <> a) l.

Inductive cache_op :=
  | OpAlloc (d : fatfs_dir_entry_t)
  | OpTouch (a : Z)
  | OpRef (a : Z)
  | OpUnref (a : Z)
  | OpFree (a : Z)
  | OpRename (a : Z) (d : fatfs_dir_entry_t)
  | OpFind (name : list byte) (namelen parent : Z)
  | OpFlush.

(** The answer and the cache afterwards. *)
Definition spec_op (op : cache_op) (v : cache_view) : option Z * cache_view :=
  let 'View live dead free D R := v in
  match op with
  | OpAlloc d =>
      match free with
      | a :: free => (Some a, View live (a :: dead) free (<[a:=d]> D) (<[a:=0]> R))
      | [] =>
          if decide (length dead <= 2)%nat then (None, v)
          else match last dead with
               | Some a => (Some a, View live (a :: without a dead) [] (<[a:=d]> D) (<[a:=0]> R))
               | None => (None, v)
               end
      end
  | OpTouch a =>
      (None, if decide (a ∈ live) then View (a :: without a live) dead free D R
             else View live (a :: without a dead) free D R)
  | OpRef a =>
      let R' := <[a:=R a + 1]> R in
      (None, if decide (a ∈ live) then View live dead free D R'
             else View (a :: live) (without a dead) free D R')
  | OpUnref a =>
      let R' := <[a:=R a - 1]> R in
      (None, if decide (R a = 1) then View (without a live) (a :: dead) free D R'
             else View live dead free D R')
  | OpFree a => (None, View live (without a dead) (a :: free) D R)
  | OpRename a d => (None, View live dead free (<[a:=d]> D) R)
  | OpFind name n parent =>
      (snd <$> list_find (has_key D (take (Z.to_nat n) name) parent) (live ++ dead), v)
  | OpFlush => (None, View [] [] (rev dead ++ rev live ++ free) D R)
  end.

(** What the callers of a function guarantee. *)
Definition op_ok (op : cache_op) (v : cache_view) : Prop :=
  let 'View live dead free D R := v in
  match op with
  | OpAlloc d => name_bytes (filename d) /\
      Forall (fun a => ~ same_key (D a) d) (live ++ dead)
  | OpTouch a => a ∈ live ++ dead
  | OpRef a => a ∈ live ++ dead /\ R a + 1 < 2 ^ 32
  | OpUnref a => a ∈ live
  | OpFree a => a ∈ dead
  | OpRename a d => a ∈ live ++ dead /\ name_bytes (filename d) /\
      Forall (fun b => b = a \/ ~ same_key (D b) d) (live ++ dead)
  | OpFind name n parent => name_bytes name /\ 0 <= n <= 12 /\ n <= Z.of_nat (length name)
  | OpFlush => True
  end.

#[export] Instance name_bytes_dec s : Decision (name_bytes s).
Proof. unfold name_bytes. apply _. Defined.
#[export] Instance same_key_dec d e : Decision (same_key d e).
Proof. unfold same_key. apply _. Defined.
#[export] Instance op_ok_dec op v : Decision (op_ok op v).
Proof. destruct v, op; cbn; apply _. Defined.

Section Cache.
Context (POOL : Z) (past_end : fatfs_dir_entry_t -> Z -> byte).
Context (HPOOL : 1 <= POOL < 2 ^ 32).

Definition run_op (op : cache_op) : M fatfs_ncache_t (option Z) :=
  match op with
  | OpAlloc d => fatfs_node_alloc POOL d
  | OpTouch a => fatfs_node_touch a ;; mret None
  | OpRef a => fatfs_node_ref a ;; mret None
  | OpUnref a => fatfs_node_unref a ;; mret None
  | OpFree a => fatfs_node_free POOL a ;; mret None
  | OpRename a d => modify (upd_cached a (set_dentry d)) ;; fatfs_node_rehash POOL a ;; mret None
  | OpFind name n parent => fatfs_node_find POOL past_end name n parent
  | OpFlush => fatfs_node_cache_flush POOL ;; mret None
  end.

(** The invariant of the abstract cache: every node of the pool is in one list,
    the counts tell which, and no two nodes have the same key. *)
Record view_ok (v : cache_view) : Prop := {
  vo_part : v_live v ++ v_dead v ++ v_free v ≡ₚ seqZ 0 POOL;
  vo_live : Forall (fun a => 0 < v_refcnt v a < 2 ^ 32) (v_live v);
  vo_dead : Forall (fun a => v_refcnt v a = 0) (v_dead v);
  vo_names : Forall (fun a => name_bytes (filename (v_dentry v a))) (v_live v ++ v_dead v);
  vo_keys a b : a ∈ v_live v ++ v_dead v -> b ∈ v_live v ++ v_dead v ->
    same_key (v_dentry v a) (v_dentry v b) -> a = b;
}.

(** The state holds the view, with [chains] in the hash table. *)
Record rep_with (s : fatfs_ncache_t) (v : cache_view) (chains : list (list Z)) : Prop := {
  rw_live : is_list (node_pool_base s) (live_nlist s) (v_live v);
  rw_dead : is_list (node_pool_base s) (dead_nlist s) (v_dead v);
  rw_cnt : node_pool_free_cnt s = Z.of_nat (length (v_free v));
  rw_pool : take (length (v_free v)) (node_pool s) = rev (v_free v);
  rw_pool_size : Z.of_nat (length (node_pool s)) = POOL;
  rw_hash : hashed POOL (node_pool_base s) (node_hash s) chains;
  rw_dentry a : dentry (node_pool_base s a) = v_dentry v a;
  rw_refcnt a : refcnt (node_pool_base s a) = v_refcnt v a;
}.

Definition rep (s : fatfs_ncache_t) (v : cache_view) : Prop :=
  exists chains, rep_with s v chains /\ concat chains ≡ₚ v_live v ++ v_dead v.

(** ** The primitives *)
Lemma without_split a l1 l2 : NoDup (l1 ++ a :: l2) -> without a (l1 ++ a :: l2) = l1 ++ l2.
Proof.
  intros Hnd. rewrite <- Permutation_middle in Hnd. apply NoDup_cons in Hnd as [Ha _].
  unfold without. rewrite filter_app, filter_cons_False, <- filter_app by naive_solver.
  by apply filter_absent.
Qed.

Lemma without_head a l : NoDup (a :: l) -> without a (a :: l) = l.
Proof. apply (without_split a []). Qed.

Lemma without_perm a l : NoDup l -> a ∈ l -> l ≡ₚ a :: without a l.
Proof.
  intros Hnd (l1 & l2 & ->)%list_elem_of_split. rewrite without_split by done.
  symmetry. apply Permutation_middle.
Qed.

(** The lists of the cache after a change of the links. *)
Lemma rep_links s h' L L' live live' dead dead' free D R ch :
  rep_with s (View live dead free D R) ch -> list_frame (node_pool_base s) h' ->
  is_list h' L live' -> is_list h' L' dead' ->
  rep_with (set_dead L' (set_live L (set_pool_base h' s))) (View live' dead' free D R) ch.
Proof.
  intros [_ _ Hcnt Hpool Hsize Hh Hd Hr] [Fd Fr Fh] Hl Hd'.
  split; cbn in *; try done; try (intros; rewrite ?Fd, ?Fr; by auto).
  eapply hashed_ext; [|done]. intros a _. unfold node_name. by rewrite Fh, Fd.
Qed.

Abbreviation small l := (Z.of_nat (length l) < 2 ^ 32).

Lemma list_remove_dead_spec s live dead free D R ch a :
  rep_with s (View live dead free D R) ch -> NoDup (live ++ dead) -> small dead -> a ∈ dead ->
  wp (list_remove_dead a)
    (fun _ s' => rep_with s' (View live (without a dead) free D R) ch) s.
Proof.
  intros Hrep Hnd Hlen (l1 & l2 & ->)%list_elem_of_split. pose proof Hrep as [Hl Hd _ _ _ _ _ _].
  cbn in Hl, Hd. apply NoDup_app in Hnd as (_ & Hdis & Hnd).
  destruct (list_remove_spec _ _ _ _ _ Hd Hnd Hlen) as (L' & h' & Hrun & Hd' & Hf & Hsame).
  unfold list_remove_dead. apply wp_get. rewrite Hrun. eexists tt, _. split; [done|].
  rewrite without_split by done.
  change (set_dead L' (set_pool_base h' s)) with (set_dead L' (set_live (live_nlist s) (set_pool_base h' s))).
  eapply rep_links; [done..| |done]. apply (is_list_ext (node_pool_base s)); [|done].
  intros b Hb. apply Hsame. specialize (Hdis b Hb). set_solver.
Qed.

Lemma list_remove_live_spec s live dead free D R ch a :
  rep_with s (View live dead free D R) ch -> NoDup (live ++ dead) -> small live -> a ∈ live ->
  wp (list_remove_live a)
    (fun _ s' => rep_with s' (View (without a live) dead free D R) ch) s.
Proof.
  intros Hrep Hnd Hlen (l1 & l2 & ->)%list_elem_of_split. pose proof Hrep as [Hl Hd _ _ _ _ _ _].
  cbn in Hl, Hd. apply NoDup_app in Hnd as (Hnd & Hdis & _).
  destruct (list_remove_spec _ _ _ _ _ Hl Hnd Hlen) as (L' & h' & Hrun & Hl' & Hf & Hsame).
  unfold list_remove_live. apply wp_get. rewrite Hrun. eexists tt, _. split; [done|].
  rewrite without_split by done.
  change (set_live L' (set_pool_base h' s)) with (set_dead (dead_nlist s) (set_live L' (set_pool_base h' s))).
  eapply rep_links; [done..|]. apply (is_list_ext (node_pool_base s)); [|done].
  intros b Hb. apply Hsame. intros Hb'. apply (Hdis b); set_solver.
Qed.

Lemma list_add_dead_spec s live dead free D R ch a :
  rep_with s (View live dead free D R) ch -> NoDup (live ++ a :: dead) -> small (a :: dead) ->
  wp (list_add_dead a) (fun _ s' => rep_with s' (View live (a :: dead) free D R) ch) s.
Proof.
  intros Hrep Hnd Hlen. pose proof Hrep as [Hl Hd _ _ _ _ _ _]. cbn in Hl, Hd, Hlen.
  apply NoDup_app in Hnd as (_ & Hdis & Hnd).
  destruct (head_add_spec _ _ _ _ Hd Hnd ltac:(lia)) as (L' & h' & Hrun & Hd' & Hf & Hsame).
  eexists tt, _. split; [done|]. rewrite Hrun.
  change (set_dead L' (set_pool_base h' s)) with (set_dead L' (set_live (live_nlist s) (set_pool_base h' s))).
  eapply rep_links; [done..| |done]. apply (is_list_ext (node_pool_base s)); [|done].
  intros b Hb. by apply Hsame, Hdis.
Qed.

Lemma list_add_live_spec s live dead free D R ch a :
  rep_with s (View live dead free D R) ch -> NoDup (a :: live ++ dead) -> small (a :: live) ->
  wp (list_add_live a) (fun _ s' => rep_with s' (View (a :: live) dead free D R) ch) s.
Proof.
  intros Hrep Hnd Hlen. pose proof Hrep as [Hl Hd _ _ _ _ _ _]. cbn in Hl, Hd, Hlen.
  rewrite app_comm_cons in Hnd. apply NoDup_app in Hnd as (Hnd & Hdis & _).
  destruct (head_add_spec _ _ _ _ Hl Hnd ltac:(lia)) as (L' & h' & Hrun & Hl' & Hf & Hsame).
  eexists tt, _. split; [done|]. rewrite Hrun.
  change (set_live L' (set_pool_base h' s)) with (set_dead (dead_nlist s) (set_live L' (set_pool_base h' s))).
  eapply rep_links; [done..|]. apply (is_list_ext (node_pool_base s)); [|done].
  intros b Hb. apply Hsame. intros Hb'. by apply (Hdis b).
Qed.

(** The cache after a change of the hash table. *)
Lemma rep_table s h' tbl' v ch ch' :
  rep_with s v ch -> hash_frame (node_pool_base s) h' -> hashed POOL h' tbl' ch' ->
  rep_with (set_hash tbl' (set_pool_base h' s)) v ch'.
Proof.
  intros [Hl Hd Hcnt Hpool Hsize _ Hde Hr] [Fd Fr Fl] Hh.
  split; cbn; try done; try (intros; rewrite ?Fd, ?Fr; by auto).
  all: eapply is_list_ext; [|done]; intros; apply Fl.
Qed.

Lemma hash_remove_spec s v ch a :
  rep_with s v ch -> a ∈ concat ch ->
  wp (on_hash (node_hash_remove POOL) a)
    (fun _ s' => exists ch', rep_with s' v ch' /\ concat ch ≡ₚ a :: concat ch') s.
Proof.
  intros Hrep Ha.
  destruct (node_hash_remove_spec POOL _ _ _ _ (rw_hash _ _ _ Hrep) Ha ltac:(lia))
    as (tbl' & h' & ch' & Hrun & Hh & Hf & Hperm).
  unfold on_hash. apply wp_get. rewrite Hrun. eexists tt, _. split; [done|].
  exists ch'. split; [|done]. by eapply rep_table.
Qed.

Lemma hash_add_spec s v ch a :
  rep_with s v ch -> a ∉ concat ch -> name_bytes (filename (v_dentry v a)) ->
  Z.of_nat (length (concat ch)) < POOL ->
  wp (on_hash (node_hash_add POOL) a)
    (fun _ s' => exists ch', rep_with s' v ch' /\ concat ch' ≡ₚ a :: concat ch) s.
Proof.
  intros Hrep Ha Hname Hlen.
  destruct (node_hash_add_spec POOL _ _ _ a (rw_hash _ _ _ Hrep) Ha)
    as (tbl' & h' & ch' & Hrun & Hh & Hf & Hperm); [|done|lia|].
  { unfold node_name. by rewrite (rw_dentry _ _ _ Hrep). }
  unfold on_hash. apply wp_get. rewrite Hrun. eexists tt, _. split; [done|].
  exists ch'. split; [|done]. by eapply rep_table.
Qed.

Lemma pool_alloc_spec s live dead free D R ch :
  rep_with s (View live dead free D R) ch ->
  wp node_pool_alloc (fun r s' =>
    match free with
    | a :: free => r = Some a /\ rep_with s' (View live dead free D R) ch
    | [] => r = None /\ s' = s
    end) s.
Proof.
  intros [Hl Hd Hcnt Hpool Hsize Hh Hde Hr]. cbn in *. unfold node_pool_alloc. apply wp_get.
  rewrite Hcnt. destruct free as [|a free]; cbn [length].
  - by apply wp_ret.
  - rewrite (proj2 (Z.gtb_lt _ _)) by lia. cbn [length rev] in Hpool.
    replace (Z.to_nat (Z.of_nat (S (length free)) - 1)) with (length free) by lia.
    assert (Ha : take (S (length free)) (node_pool s) !! length free = Some a).
    { rewrite Hpool. apply list_lookup_middle. by rewrite length_rev. }
    rewrite lookup_take_lt in Ha by lia. rewrite Ha. eexists (Some a), _. split; [done|].
    split; [done|]. split; cbn; try done; [lia|].
    rewrite (take_S_r _ _ a) in Hpool by done. by apply app_inj_tail in Hpool as [-> _].
Qed.

Lemma pool_free_spec s live dead free D R ch a :
  rep_with s (View live dead free D R) ch -> Z.of_nat (length free) < POOL ->
  wp (node_pool_free a) (fun _ s' => rep_with s' (View live dead (a :: free) D R) ch) s.
Proof.
  intros [Hl Hd Hcnt Hpool Hsize Hh Hde Hr] Hlen. cbn in *. unfold node_pool_free. apply wp_get.
  rewrite Hcnt, Nat2Z.id, decide_True by lia. eexists tt, _. split; [done|].
  split; cbn; try done.
  - rewrite uwrap_small; unfold fits; lia.
  - rewrite (take_S_r _ _ a) by (apply list_lookup_insert_eq; lia).
    by rewrite take_insert_ge, Hpool by lia.
  - by rewrite length_insert.
Qed.

(** ** Changing a node *)
Lemma set_refcnt_spec s live dead free D R ch a r :
  rep_with s (View live dead free D R) ch ->
  rep_with (upd_cached a (set_refcnt r) s) (View live dead free D (<[a:=r]> R)) ch.
Proof.
  intros [Hl Hd Hcnt Hpool Hsize Hh Hde Hr]. cbn in *.
  split; cbn; try done.
  1,2: eapply is_list_ext; [|done]; intros; split; rewrite upd_cases; by case_decide; subst.
  - eapply hashed_ext; [|done]. intros b _. unfold node_name. rewrite upd_cases.
    by case_decide; subst.
  - intros b. rewrite upd_cases. case_decide; subst; apply Hde.
  - intros b. unfold insert, fn_insert. rewrite upd_cases. case_decide; [done|apply Hr].
Qed.

Lemma set_dentry_spec s live dead free D R ch a d :
  rep_with s (View live dead free D R) ch -> a ∉ concat ch ->
  rep_with (upd_cached a (set_dentry d) s) (View live dead free (<[a:=d]> D) R) ch.
Proof.
  intros [Hl Hd Hcnt Hpool Hsize Hh Hde Hr] Ha. cbn in *.
  split; cbn; try done.
  1,2: eapply is_list_ext; [|done]; intros; split; rewrite upd_cases; by case_decide; subst.
  - eapply hashed_ext; [|done]. intros b Hb. unfold node_name. by rewrite upd_ne by congruence.
  - intros b. unfold insert, fn_insert. rewrite upd_cases. case_decide; [done|apply Hde].
  - intros b. rewrite upd_cases. case_decide; subst; apply Hr.
Qed.

(** ** The functions *)
Lemma view_facts live dead free D R :
  view_ok (View live dead free D R) ->
  NoDup (live ++ dead ++ free) /\
  Z.of_nat (length live) + Z.of_nat (length dead) + Z.of_nat (length free) = POOL.
Proof.
  intros [Hp _ _ _ _]. cbn in Hp. split; [rewrite Hp; apply NoDup_seqZ|].
  apply Permutation_length in Hp. rewrite !length_app, length_seqZ in Hp. lia.
Qed.

Lemma last_or_last l : last_or None l = last l.
Proof. destruct l as [|a l _] using rev_ind; [done|]. by rewrite last_or_app, last_snoc. Qed.

(** Follows a call by its specification. *)
Tactic Notation "call" uconstr(spec) := apply wp_bind; eapply wp_mono; [eapply spec; try done | cbn beta; intros].

Lemma claim_node_spec s live dead free D R :
  rep s (View live dead free D R) -> view_ok (View live dead free D R) ->
  wp (claim_node POOL) (fun r s' =>
    match free, decide (length dead <= 2)%nat, last dead with
    | a :: free, _, _ => r = Some a /\ rep s' (View live dead free D R)
    | [], right _, Some a => r = Some a /\ rep s' (View live (without a dead) [] D R)
    | _, _, _ => r = None /\ s' = s
    end) s.
Proof.
  intros (ch & Hrep & Hch) Hok. destruct (view_facts _ _ _ _ _ Hok) as [Hnd Hlen].
  unfold claim_node. call pool_alloc_spec. destruct free as [|b free].
  2: { destruct H as [-> H]. apply wp_ret. split; [done|]. by exists ch. }
  destruct H as [-> ->]. wp_steps.
  unfold node_list_get_size, node_list_tail_get, DLIST_KEEP_NUM.
  rewrite (il_size _ _ _ (rw_dead _ _ _ Hrep)), (il_last _ _ _ (rw_dead _ _ _ Hrep)), last_or_last.
  cbn [v_dead v_live] in *. case_decide as Hd.
  { rewrite (proj2 (Z.leb_le _ _)) by lia. by apply wp_ret. }
  rewrite (proj2 (Z.leb_gt _ _)) by lia. rewrite app_nil_r in Hnd. cbn in Hlen.
  destruct (last dead) as [a|] eqn:Ha; [|by apply wp_ret].
  assert (Hin : a ∈ dead).
  { apply last_Some in Ha as [l ->]. set_solver. }
  call list_remove_dead_spec; [lia|].
  call (hash_remove_spec s' _ _ a); [rewrite Hch; set_solver|].
  destruct H0 as (ch' & Hrep' & Hch'). apply wp_ret. split; [done|]. exists ch'. split; [done|].
  apply (inj (cons a)). rewrite <- Hch', Hch. cbn.
  rewrite (without_perm a dead) at 1; [|apply NoDup_app in Hnd; tauto|done].
  symmetry. apply Permutation_middle.
Qed.

Lemma install_spec s live dead free D R a d :
  rep s (View live dead free D R) -> NoDup (a :: live ++ dead) -> name_bytes (filename d) ->
  Z.of_nat (length (live ++ dead)) < POOL ->
  wp (modify (upd_cached a (set_dentry d)) ;; modify (upd_cached a (set_refcnt 0)) ;;
      list_add_dead a ;; on_hash (node_hash_add POOL) a ;; mret (Some a))
    (fun r s' => r = Some a /\ rep s' (View live (a :: dead) free (<[a:=d]> D) (<[a:=0]> R))) s.
Proof.
  intros (ch & Hrep & Hch) Hnd Hname Hlen. cbn in Hch.
  assert (Ha : a ∉ concat ch) by (rewrite Hch; apply NoDup_cons in Hnd; tauto).
  apply (set_dentry_spec _ _ _ _ _ _ _ a d) in Hrep; [|done].
  apply (set_refcnt_spec _ _ _ _ _ _ _ a 0) in Hrep.
  apply wp_modify, wp_modify. rewrite length_app in Hlen.
  call list_add_dead_spec.
  { by rewrite <- Permutation_middle. }
  { cbn. lia. }
  call (hash_add_spec s' _ _ a).
  { cbn. by rewrite fn_lookup_insert. }
  { rewrite Hch, length_app. lia. }
  destruct H0 as (ch' & Hrep' & Hch'). apply wp_ret. split; [done|]. exists ch'. split; [done|].
  cbn. rewrite Hch', Hch. apply Permutation_middle.
Qed.

Lemma alloc_spec s v d :
  rep s v -> view_ok v -> op_ok (OpAlloc d) v ->
  wp (fatfs_node_alloc POOL d) (fun r s' =>
    r = fst (spec_op (OpAlloc d) v) /\ rep s' (snd (spec_op (OpAlloc d) v))) s.
Proof.
  destruct v as [live dead free D R]. intros Hrep Hok [Hname _].
  destruct (view_facts _ _ _ _ _ Hok) as [Hnd Hlen].
  unfold fatfs_node_alloc. call claim_node_spec. cbn.
  destruct free as [|b free].
  - case_decide; [destruct H as [-> ->]; by apply wp_ret|].
    destruct (last dead) as [b|] eqn:Hb; destruct H as [-> H]; [|subst; by apply wp_ret].
    apply last_Some in Hb as [l ->]. rewrite app_nil_r in Hnd. cbn in Hlen.
    rewrite without_split in * by (apply NoDup_app in Hnd; tauto). rewrite app_nil_r in *.
    rewrite length_app in Hlen. cbn in Hlen.
    apply install_spec; [done| |done|rewrite length_app; lia].
    by rewrite app_assoc, (Permutation_app_comm _ [b]) in Hnd.
  - destruct H as [-> H]. cbn in Hlen. apply install_spec; [done| |done|rewrite length_app; lia].
    rewrite app_assoc, <- Permutation_middle, app_comm_cons in Hnd.
    apply NoDup_app in Hnd. tauto.
Qed.

(** The lists of a cache in order. *)
Lemma view_lists live dead free D R :
  view_ok (View live dead free D R) ->
  NoDup (live ++ dead) /\ small (live ++ dead) /\ Z.of_nat (length (live ++ dead)) <= POOL.
Proof.
  intros Hok. destruct (view_facts _ _ _ _ _ Hok) as [Hnd Hlen].
  rewrite app_assoc in Hnd. apply NoDup_app in Hnd. rewrite length_app.
  split_and!; [tauto|lia..].
Qed.

Lemma not_in_without a l : a ∉ without a l.
Proof. unfold without. rewrite list_elem_of_filter. tauto. Qed.

Lemma without_elem a b l : b ∈ without a l <-> b ∈ l /\ b <> a.
Proof. unfold without. rewrite list_elem_of_filter. tauto. Qed.

Lemma nodup_without a l : NoDup l -> NoDup (without a l).
Proof. apply NoDup_filter. Qed.

Lemma length_without a l : (length (without a l) <= length l)%nat.
Proof. apply length_filter. Qed.

(** The count of a node tells its list. *)
Lemma live_iff live dead free D R a :
  view_ok (View live dead free D R) -> a ∈ live ++ dead -> a ∈ live <-> R a <> 0.
Proof.
  intros [_ Hl Hd _ _] Ha. cbn in *. rewrite Forall_forall in *.
  apply elem_of_app in Ha as [Ha|Ha].
  - specialize (Hl a Ha). cbn in Hl. split; [lia|done].
  - specialize (Hd a Ha). cbn in Hd. split; [|done]. intros Hal. specialize (Hl a Hal). cbn in Hl. lia.
Qed.

Lemma move_dead s live dead free D R ch a :
  rep_with s (View live dead free D R) ch -> NoDup (live ++ dead) -> small (live ++ dead) -> a ∈ dead ->
  wp (list_remove_dead a ;; list_add_dead a)
    (fun _ s' => rep_with s' (View live (a :: without a dead) free D R) ch) s.
Proof.
  intros Hrep Hnd Hlen Ha. rewrite length_app in Hlen. call list_remove_dead_spec; [lia|].
  rewrite NoDup_app in Hnd. destruct Hnd as (Hnl & Hdis & Hnd).
  pose proof (Permutation_length (without_perm a dead Hnd Ha)). cbn in *.
  apply list_add_dead_spec; [done| |cbn; lia]. by rewrite <- (without_perm a dead), NoDup_app.
Qed.

Lemma move_live s live dead free D R ch a :
  rep_with s (View live dead free D R) ch -> NoDup (live ++ dead) -> small (live ++ dead) -> a ∈ live ->
  wp (list_remove_live a ;; list_add_live a)
    (fun _ s' => rep_with s' (View (a :: without a live) dead free D R) ch) s.
Proof.
  intros Hrep Hnd Hlen Ha. rewrite length_app in Hlen. call list_remove_live_spec; [lia|].
  assert (Hnl : NoDup live) by (apply NoDup_app in Hnd; tauto).
  pose proof (Permutation_length (without_perm a live Hnl Ha)). cbn in *.
  apply list_add_live_spec; [done| |cbn; lia].
  by rewrite app_comm_cons, <- (without_perm a live).
Qed.

Lemma revive s live dead free D R ch a :
  rep_with s (View live dead free D R) ch -> NoDup (live ++ dead) -> small (live ++ dead) -> a ∈ dead ->
  wp (list_remove_dead a ;; list_add_live a)
    (fun _ s' => rep_with s' (View (a :: live) (without a dead) free D R) ch) s.
Proof.
  intros Hrep Hnd Hlen Ha. rewrite length_app in Hlen. call list_remove_dead_spec; [lia|].
  assert (Hn : NoDup dead) by (apply NoDup_app in Hnd; tauto).
  pose proof (Permutation_length (without_perm a dead Hn Ha)). cbn in *.
  apply list_add_live_spec; [done| |cbn; lia].
  by rewrite Permutation_middle, <- (without_perm a dead).
Qed.

Lemma retire s live dead free D R ch a :
  rep_with s (View live dead free D R) ch -> NoDup (live ++ dead) -> small (live ++ dead) -> a ∈ live ->
  wp (list_remove_live a ;; list_add_dead a)
    (fun _ s' => rep_with s' (View (without a live) (a :: dead) free D R) ch) s.
Proof.
  intros Hrep Hnd Hlen Ha. rewrite length_app in Hlen. call list_remove_live_spec; [lia|].
  assert (Hn : NoDup live) by (apply NoDup_app in Hnd; tauto).
  pose proof (Permutation_length (without_perm a live Hn Ha)). cbn in *.
  apply list_add_dead_spec; [done| |cbn; lia].
  by rewrite <- Permutation_middle, app_comm_cons, <- (without_perm a live).
Qed.

Lemma chains_moved live dead live' dead' free' D' R' s ch :
  rep_with s (View live' dead' free' D' R') ch -> concat ch ≡ₚ live ++ dead ->
  live' ++ dead' ≡ₚ live ++ dead -> rep s (View live' dead' free' D' R').
Proof. intros Hrep Hch Hp. exists ch. split; [done|]. cbn. by rewrite Hp. Qed.

(** The state after one of the operations on a node of the lists. *)
Definition does (op : cache_op) : Prop := forall s v,
  rep s v -> view_ok v -> op_ok op v ->
  wp (run_op op) (fun r s' => r = fst (spec_op op v) /\ rep s' (snd (spec_op op v))) s.

Lemma touch_does a : does (OpTouch a).
Proof.
  intros s [live dead free D R] (ch & Hrep & Hch) Hok Ha. cbn in Ha, Hch. cbn [run_op spec_op fst snd].
  destruct (view_lists _ _ _ _ _ Hok) as (Hnd & Hlen & _). pose proof (live_iff _ _ _ _ _ a Hok Ha) as Hl.
  unfold fatfs_node_touch. apply wp_bind, wp_get. rewrite (rw_refcnt _ _ _ Hrep). cbn [v_refcnt].
  destruct (R a =? 0) eqn:E; bool_lia.
  - rewrite decide_False by tauto. assert (a ∈ dead) by (apply elem_of_app in Ha; tauto).
    eapply wp_mono; [by apply move_dead|]. intros ? s' H'; cbn beta in H'. apply wp_ret. split; [done|].
    eapply chains_moved; [done..|]. rewrite <- (without_perm a dead); [done| |done].
    apply NoDup_app in Hnd; tauto.
  - rewrite decide_True by tauto.
    eapply wp_mono; [apply move_live; [done..|tauto]|]. intros ? s' H'; cbn beta in H'. apply wp_ret. split; [done|].
    eapply chains_moved; [done..|]. rewrite <- (without_perm a live); [done| |tauto].
    apply NoDup_app in Hnd; tauto.
Qed.

Lemma ref_does a : does (OpRef a).
Proof.
  intros s [live dead free D R] (ch & Hrep & Hch) Hok [Ha Hmax]. cbn in Hch. cbn [run_op spec_op fst snd].
  destruct (view_lists _ _ _ _ _ Hok) as (Hnd & Hlen & _). pose proof (live_iff _ _ _ _ _ a Hok Ha) as Hl.
  assert (HR : 0 <= R a).
  { destruct Hok as [_ HL HD _ _]. cbn in *. rewrite Forall_forall in *.
    apply elem_of_app in Ha as [Ha|Ha]; [specialize (HL a Ha)|specialize (HD a Ha)]; cbn in *; lia. }
  unfold fatfs_node_ref. apply wp_bind, wp_get. rewrite (rw_refcnt _ _ _ Hrep). cbn [v_refcnt].
  rewrite uwrap_small by (unfold fits; lia).
  apply (set_refcnt_spec _ _ _ _ _ _ _ a (R a + 1)) in Hrep. apply wp_modify.
  destruct (1 =? R a + 1) eqn:E; bool_lia.
  - rewrite decide_False by (rewrite Hl; lia).
    assert (Hd : a ∈ dead) by (apply elem_of_app in Ha as [?|?]; [|done]; exfalso; apply Hl in H; lia).
    eapply wp_mono; [by apply revive|]. intros ? s' H'; cbn beta in H'. apply wp_ret. split; [done|].
    eapply chains_moved; [done..|]. cbn. rewrite Permutation_middle, <- (without_perm a dead); [done| |done].
    apply NoDup_app in Hnd; tauto.
  - rewrite decide_True by (rewrite Hl; lia). apply wp_ret, wp_ret. split; [done|]. by exists ch.
Qed.

Lemma unref_does a : does (OpUnref a).
Proof.
  intros s [live dead free D R] (ch & Hrep & Hch) Hok Ha. cbn in Ha, Hch. cbn [run_op spec_op fst snd].
  destruct (view_lists _ _ _ _ _ Hok) as (Hnd & Hlen & _).
  assert (HR : 0 < R a < 2 ^ 32).
  { pose proof (vo_live _ Hok) as HL. cbn in HL. rewrite Forall_forall in HL. by apply HL. }
  unfold fatfs_node_unref. apply wp_bind, wp_get. rewrite (rw_refcnt _ _ _ Hrep). cbn [v_refcnt].
  rewrite uwrap_small by (unfold fits; lia).
  apply (set_refcnt_spec _ _ _ _ _ _ _ a (R a - 1)) in Hrep. apply wp_modify.
  destruct (0 =? R a - 1) eqn:E; bool_lia.
  - rewrite decide_True by lia.
    eapply wp_mono; [by apply retire|]. intros ? s' H'; cbn beta in H'. apply wp_ret. split; [done|].
    eapply chains_moved; [done..|]. rewrite <- Permutation_middle, app_comm_cons.
    rewrite <- (without_perm a live); [done| |done]. apply NoDup_app in Hnd; tauto.
  - rewrite decide_False by lia. apply wp_ret, wp_ret. split; [done|]. by exists ch.
Qed.

Lemma free_does a : does (OpFree a).
Proof.
  intros s [live dead free D R] (ch & Hrep & Hch) Hok Ha. cbn in Ha, Hch. cbn [run_op spec_op fst snd].
  destruct (view_lists _ _ _ _ _ Hok) as (Hnd & Hlen & _).
  destruct (view_facts _ _ _ _ _ Hok) as [_ Hsum]. rewrite length_app in Hlen.
  assert (Hn : NoDup dead) by (apply NoDup_app in Hnd; tauto).
  pose proof (without_perm a dead Hn Ha) as Hp. pose proof (Permutation_length Hp) as Hpl.
  unfold fatfs_node_free. apply wp_bind. call list_remove_dead_spec; [lia|].
  call (hash_remove_spec s' _ _ a); [rewrite Hch; set_solver|].
  destruct H0 as (ch' & Hrep' & Hch'). cbn in Hpl.
  eapply wp_mono; [eapply pool_free_spec; [done|lia]|]. intros ? s2 H2; cbn beta in H2. apply wp_ret.
  split; [done|]. exists ch'. split; [done|]. cbn. apply (inj (cons a)).
  rewrite <- Hch', Hch, Permutation_middle, <- Hp. done.
Qed.

Lemma find_does name n parent : does (OpFind name n parent).
Proof.
  intros s [live dead free D R] (ch & Hrep & Hch) Hok (Hname & Hn & Hlen). cbn in Hch.
  cbn [run_op spec_op fst snd]. unfold fatfs_node_find. apply wp_get.
  destruct (node_hash_find_spec POOL past_end _ _ _ name (Z.to_nat n) parent (rw_hash _ _ _ Hrep))
    as (r & Hr & Hspec); [done|lia..|].
  rewrite Z2Nat.id in Hr by lia. rewrite Hr. apply wp_ret. split; [|by exists ch].
  assert (Hm : forall a, matches (node_pool_base s) (take (Z.to_nat n) name) parent a
    <-> has_key D (take (Z.to_nat n) name) parent a).
  { intros a. unfold matches, node_name. by rewrite (rw_dentry _ _ _ Hrep). }
  destruct (list_find _ _) as [[i b]|] eqn:Hf.
  - apply list_find_Some in Hf as (Hi & Hb & _). apply list_elem_of_lookup_2 in Hi. cbn.
    destruct r as [a|].
    + destruct Hspec as [Ha Ham%Hm]. rewrite Hch in Ha. f_equal.
      apply (vo_keys _ Hok); [done..|]. cbn. destruct Ham, Hb. split; [congruence|].
      unfold same_name in *. congruence.
    + exfalso. apply (Hspec b); [by rewrite Hch|by apply Hm].
  - destruct r as [a|]; [|done]. destruct Hspec as [Ha Ham%Hm]. rewrite Hch in Ha.
    apply list_find_None in Hf. rewrite Forall_forall in Hf. by apply Hf in Ha.
Qed.

Lemma alloc_does d : does (OpAlloc d).
Proof. intros s v. apply alloc_spec. Qed.

Lemma rename_does a d : does (OpRename a d).
Proof.
  intros s [live dead free D R] (ch & Hrep & Hch) Hok (Ha & Hname & Huniq). cbn in Hch.
  cbn [run_op spec_op fst snd]. destruct (view_lists _ _ _ _ _ Hok) as (Hnd & _ & Hlen).
  apply wp_modify. pose proof Hrep as [Hl Hd Hcnt Hpool Hsize Hh Hde Hr].
  pose proof (hashed_renamed POOL a d _ _ _ Hh) as Hb.
  assert (Hac : a ∈ concat ch) by by rewrite Hch.
  destruct (node_hash_remove_keyless_spec POOL _ _ _ a Hb Hac ltac:(lia))
    as (tbl' & h' & ch' & Hrun & Hh' & Hf & Hperm).
  set (s1 := set_hash tbl' (set_pool_base h' (upd_cached a (set_dentry d) s))).
  assert (Hrep1 : rep_with s1 (View live dead free (<[a:=d]> D) R) ch').
  { destruct Hf as [Fd Fr Fl]. subst s1. split; cbn in *; try done.
    1,2: eapply is_list_ext; [|done]; intros b _; unfold same_links; destruct (Fl b) as [-> ->];
      split; rewrite upd_cases; by case_decide; subst.
    - intros b. rewrite Fd, upd_cases. unfold insert, fn_insert. case_decide; [done|apply Hde].
    - intros b. rewrite Fr, upd_cases. by case_decide; subst; rewrite <- Hr. }
  unfold fatfs_node_rehash. do 2 apply wp_bind. unfold on_hash at 1. apply wp_get.
  cbn [node_hash node_pool_base upd_cached set_pool_base]. rewrite Hrun.
  eexists tt, s1. split; [done|].
  assert (Hlen' : length (live ++ dead) = S (length (concat ch'))) by by rewrite <- Hch, Hperm.
  eapply wp_mono; [apply (hash_add_spec s1 _ ch' a Hrep1)|].
  - rewrite Hch in Hperm. rewrite Hperm in Hnd. by apply NoDup_cons in Hnd as [? _].
  - cbn. by rewrite fn_lookup_insert.
  - lia.
  - intros ? s2 (ch2 & Hrep2 & Hch2). apply wp_ret. split; [done|]. exists ch2. split; [done|].
    cbn. by rewrite Hch2, <- Hperm.
Qed.

(** The two loops of [fatfs_node_cache_flush]. *)
Lemma flush_node s v ch a :
  rep_with s v ch -> concat ch ≡ₚ a :: v_live v ++ v_dead v ->
  Z.of_nat (length (v_free v)) < POOL ->
  wp (on_hash (node_hash_remove POOL) a ;; node_pool_free a)
    (fun _ s' => rep s' (View (v_live v) (v_dead v) (a :: v_free v) (v_dentry v) (v_refcnt v))) s.
Proof.
  destruct v as [live dead free D R]. cbn. intros Hrep Hch Hlen.
  call (hash_remove_spec s _ ch a); [rewrite Hch; set_solver|].
  destruct H as (ch' & Hrep' & Hch'). eapply wp_mono; [by eapply pool_free_spec|].
  intros ? s2 H2. exists ch'. split; [done|]. cbn. apply (inj (cons a)). by rewrite <- Hch', Hch.
Qed.

Lemma flush_live fuel s live dead free D R :
  rep s (View live dead free D R) -> NoDup (live ++ dead) -> (length live < fuel)%nat ->
  Z.of_nat (length live + length dead + length free) = POOL ->
  wp (flush_loop POOL fuel list_remove_live (hd_or live None))
    (fun _ s' => rep s' (View [] dead (rev live ++ free) D R)) s.
Proof.
  revert fuel s free. induction live as [|a live IH]; intros [|fuel] s free (ch & Hrep & Hch) Hnd Hfuel Hlen;
    cbn in Hfuel, Hch, Hlen; try lia; [apply wp_ret; by exists ch|].
  cbn [hd_or flush_loop]. apply wp_get.
  unfold node_list_get_next. destruct (il_seg _ _ _ (rw_live _ _ _ Hrep)) as (_ & -> & _).
  call list_remove_live_spec; [cbn; lia|set_solver|].
  rewrite without_head in H by (apply NoDup_app in Hnd; tauto). cbn in Hnd.
  apply NoDup_cons in Hnd as [_ Hnd].
  assert (Hn : Z.of_nat (length free) < POOL) by lia.
  pose proof (flush_node s' _ ch a H Hch Hn) as Hw. apply wp_bind_inv in Hw. apply wp_bind.
  eapply wp_mono; [exact Hw|]. intros ? s2 H2. cbn beta in H2. apply wp_bind.
  eapply wp_mono; [exact H2|]. intros ? s3 H3. cbn beta in H3.
  cbn [rev]. rewrite <- app_assoc. cbn. apply IH; [done..|lia|cbn; lia].
Qed.

Lemma flush_dead fuel s dead free D R :
  rep s (View [] dead free D R) -> NoDup dead -> (length dead < fuel)%nat ->
  Z.of_nat (length dead + length free) = POOL ->
  wp (flush_loop POOL fuel list_remove_dead (hd_or dead None))
    (fun _ s' => rep s' (View [] [] (rev dead ++ free) D R)) s.
Proof.
  revert fuel s free. induction dead as [|a dead IH]; intros [|fuel] s free (ch & Hrep & Hch) Hnd Hfuel Hlen;
    cbn in Hfuel, Hch, Hlen; try lia; [apply wp_ret; by exists ch|].
  cbn [hd_or flush_loop]. apply wp_get.
  unfold node_list_get_next. destruct (il_seg _ _ _ (rw_dead _ _ _ Hrep)) as (_ & -> & _).
  call list_remove_dead_spec; [cbn; lia|set_solver|].
  rewrite without_head in H by done. apply NoDup_cons in Hnd as [_ Hnd].
  assert (Hn : Z.of_nat (length free) < POOL) by lia.
  pose proof (flush_node s' _ ch a H Hch Hn) as Hw. apply wp_bind_inv in Hw. apply wp_bind.
  eapply wp_mono; [exact Hw|]. intros ? s2 H2. cbn beta in H2. apply wp_bind.
  eapply wp_mono; [exact H2|]. intros ? s3 H3. cbn beta in H3.
  cbn [rev]. rewrite <- app_assoc. cbn. apply IH; [done..|lia|cbn; lia].
Qed.

Lemma flush_does : does OpFlush.
Proof.
  intros s [live dead free D R] Hrep Hok _. cbn [run_op spec_op fst snd].
  destruct (view_facts _ _ _ _ _ Hok) as [Hnd Hlen]. rewrite app_assoc in Hnd.
  assert (Hnd' : NoDup (live ++ dead)) by (apply NoDup_app in Hnd; tauto).
  unfold fatfs_node_cache_flush. apply wp_bind, wp_get, wp_bind.
  assert (Hhead : forall s l d f D R, rep s (View l d f D R) ->
    node_list_get_head (live_nlist s) = hd_or l None /\ node_list_get_head (dead_nlist s) = hd_or d None).
  { intros ?????? (ch & Hr & _).
    split; [apply (il_first _ _ _ (rw_live _ _ _ Hr))|apply (il_first _ _ _ (rw_dead _ _ _ Hr))]. }
  rewrite (proj1 (Hhead _ _ _ _ _ _ Hrep)).
  eapply wp_mono; [apply flush_live; [done..|unfold chain_fuel; lia|lia]|].
  intros ? s1 H1. cbn beta in H1. apply wp_get. rewrite (proj2 (Hhead _ _ _ _ _ _ H1)).
  eapply wp_mono; [apply flush_dead; [done|apply NoDup_app in Hnd'; tauto|unfold chain_fuel; lia|]|].
  { rewrite length_app, length_rev. lia. }
  intros ? s2 H2. by apply wp_ret.
Qed.

Lemma op_does op : does op.
Proof.
  destruct op; [apply alloc_does|apply touch_does|apply ref_does|apply unref_does|apply free_does
    |apply rename_does|apply find_does|apply flush_does].
Qed.

(** ** The invariant *)
Lemma same_key_sym d e : same_key d e -> same_key e d.
Proof. unfold same_key, same_name. by intros [-> ->]. Qed.

Lemma fn_insert_forall {A} (P : A -> Prop) (f : Z -> A) a x l :
  P x -> Forall (fun b => P (f b)) l -> Forall (fun b => P (<[a:=x]> f b)) l.
Proof.
  intros Hx Hl. eapply Forall_impl; [exact Hl|]. intros b Hb. unfold insert, fn_insert. by case_decide.
Qed.

Lemma fn_insert_other {A} (P : Z -> A -> Prop) (f : Z -> A) a x l :
  a ∉ l -> Forall (fun b => P b (f b)) l -> Forall (fun b => P b (<[a:=x]> f b)) l.
Proof.
  intros Ha. rewrite !Forall_forall. intros Hl b Hb.
  rewrite fn_lookup_insert_ne by congruence. by apply Hl.
Qed.

(** Entering an entry with a key of its own. *)
Lemma keys_insert (l : list Z) (D : Z -> fatfs_dir_entry_t) a d :
  (forall x y, x ∈ l -> y ∈ l -> same_key (D x) (D y) -> x = y) ->
  (forall x, x ∈ l -> x <> a -> ~ same_key (D x) d) ->
  forall x y, x ∈ a :: l -> y ∈ a :: l -> same_key (<[a:=d]> D x) (<[a:=d]> D y) -> x = y.
Proof.
  intros Hk Hd x y Hx Hy. unfold insert, fn_insert. repeat case_decide; subst; try done.
  - intros Hs%same_key_sym. destruct (Hd y); [set_solver|congruence|done].
  - intros Hs. destruct (Hd x); [set_solver|congruence|done].
  - apply Hk; set_solver.
Qed.

Lemma view_alloc live dead dead0 free free0 D R a d :
  view_ok (View live dead free D R) -> name_bytes (filename d) ->
  (forall b, b ∈ live ++ dead -> ~ same_key (D b) d) ->
  live ++ (a :: dead0) ++ free0 ≡ₚ live ++ dead ++ free -> dead0 ⊆ dead ->
  view_ok (View live (a :: dead0) free0 (<[a:=d]> D) (<[a:=0]> R)).
Proof.
  intros Hok Hname Huniq Hperm Hsub. pose proof (view_facts _ _ _ _ _ Hok) as [Hnd _].
  destruct Hok as [Hp Hl Hd Hn Hk]. cbn in *.
  assert (Ha : a ∉ live /\ a ∉ dead0).
  { rewrite <- Hperm, !NoDup_app, !NoDup_cons in Hnd. set_solver. }
  split; cbn.
  - by rewrite Hperm.
  - apply (fn_insert_other (fun _ r => 0 < r < 2 ^ 32)); tauto.
  - constructor; [by rewrite fn_lookup_insert|]. apply (fn_insert_forall (fun r => r = 0)); [done|].
    rewrite Forall_forall in *. auto.
  - rewrite <- Permutation_middle. constructor; [by rewrite fn_lookup_insert|].
    apply (fn_insert_forall (fun d => name_bytes (filename d))); [done|].
    rewrite Forall_forall in *. intros b Hb. apply Hn. set_solver.
  - intros x y Hx Hy. apply (keys_insert (live ++ dead)); [done|auto|set_solver..].
Qed.

(** Moving the nodes between the lists, with counts that tell the list. *)
Lemma view_move live dead free live' dead' free' D R R' :
  view_ok (View live dead free D R) ->
  live' ++ dead' ++ free' ≡ₚ live ++ dead ++ free -> live' ++ dead' ⊆ live ++ dead ->
  Forall (fun a => 0 < R' a < 2 ^ 32) live' -> Forall (fun a => R' a = 0) dead' ->
  view_ok (View live' dead' free' D R').
Proof.
  intros [Hp Hl Hd Hn Hk] Hperm Hsub Hl' Hd'. split; cbn in *; [by rewrite Hperm|done|done| |].
  - rewrite Forall_forall in *. auto.
  - intros x y Hx Hy. apply Hk; auto.
Qed.

Lemma without_forall (P : Z -> Prop) a l : Forall P l -> Forall P (without a l).
Proof. rewrite !Forall_forall. intros H x [Hx _]%without_elem. auto. Qed.

Lemma spec_op_ok op v : view_ok v -> op_ok op v -> view_ok (snd (spec_op op v)).
Proof.
  destruct v as [live dead free D R]. intros Hok Hop.
  destruct (view_facts _ _ _ _ _ Hok) as [Hnd _]. pose proof Hok as [Hp Hl Hd Hn Hk].
  rewrite app_assoc in Hnd. assert (Hnd' : NoDup (live ++ dead)) by (apply NoDup_app in Hnd; tauto).
  pose proof Hnd' as Hnd2. apply NoDup_app in Hnd2 as (Hndl & Hdis & Hndd).
  cbn in Hl, Hd, Hn, Hk. destruct op; cbn in Hop |- *.
  - destruct Hop as [Hname Huniq]. rewrite Forall_forall in Huniq. destruct free as [|b free].
    + case_decide; [done|]. destruct (last dead) as [b|] eqn:Hb; [|done]. cbn.
      assert (Hin : b ∈ dead) by (apply last_Some in Hb as [l ->]; set_solver).
      eapply view_alloc; [done..| |by intros x [? _]%without_elem].
      by rewrite <- (without_perm b dead).
    + cbn. eapply view_alloc; [done..| |done]. cbn. by rewrite (Permutation_middle dead).
  - case_decide as Ha.
    + eapply view_move; [done|by rewrite <- (without_perm a live)|by rewrite <- (without_perm a live)| |done].
      by rewrite <- (without_perm a live).
    + assert (a ∈ dead) by set_solver.
      eapply view_move; [done|by rewrite <- (without_perm a dead)|by rewrite <- (without_perm a dead)|done|].
      by rewrite <- (without_perm a dead).
  - destruct Hop as [Ha Hmax]. pose proof (live_iff _ _ _ _ _ a Hok Ha) as Hlive. case_decide as Hal; cbn.
    + assert (0 < R a < 2 ^ 32) by (rewrite Forall_forall in Hl; by apply Hl).
      eapply view_move; [done..| |].
      * apply (fn_insert_forall (fun r => 0 < r < 2 ^ 32)); [lia|done].
      * apply (fn_insert_other (fun _ r => r = 0)); [by apply Hdis|done].
    + assert (Had : a ∈ dead) by set_solver. assert (HR : R a = 0) by (destruct (Z.eq_dec (R a) 0); tauto).
      assert (Hpd : a :: live ++ without a dead ≡ₚ live ++ dead).
      { by rewrite Permutation_middle, <- (without_perm a dead). }
      eapply view_move; [done|cbn; by rewrite app_assoc, app_comm_cons, Hpd, app_assoc|cbn; by rewrite Hpd| |].
      * constructor; [rewrite fn_lookup_insert; lia|].
        apply (fn_insert_forall (fun r => 0 < r < 2 ^ 32)); [lia|done].
      * apply (fn_insert_other (fun _ r => r = 0)); [apply not_in_without|by apply without_forall].
  - assert (Hal : a ∉ dead) by by apply Hdis.
    assert (0 < R a < 2 ^ 32) by (rewrite Forall_forall in Hl; by apply Hl).
    case_decide as HR; cbn.
    + assert (Hpd : without a live ++ a :: dead ≡ₚ live ++ dead).
      { by rewrite <- Permutation_middle, app_comm_cons, <- (without_perm a live). }
      eapply view_move; [done|cbn; by rewrite app_comm_cons, app_assoc, Hpd, app_assoc|cbn; by rewrite Hpd| |].
      * apply (fn_insert_other (fun _ r => 0 < r < 2 ^ 32)); [apply not_in_without|by apply without_forall].
      * constructor; [rewrite fn_lookup_insert; lia|].
        by apply (fn_insert_other (fun _ r => r = 0)).
    + eapply view_move; [done..| |].
      * apply (fn_insert_forall (fun r => 0 < r < 2 ^ 32)); [lia|done].
      * by apply (fn_insert_other (fun _ r => r = 0)).
  - eapply view_move; [done| | |done|by apply without_forall].
    + by rewrite <- (Permutation_middle (without a dead)), app_comm_cons, <- (without_perm a dead).
    + intros x. rewrite !elem_of_app, without_elem. tauto.
  - destruct Hop as (Ha & Hname & Huniq). split; cbn; [done..| |].
    + by apply (fn_insert_forall (fun d => name_bytes (filename d))).
    + rewrite Forall_forall in Huniq. intros x y Hx Hy.
      apply (keys_insert (live ++ dead)); [done|naive_solver|set_solver..].
  - done.
  - eapply view_move; [done| |set_solver|constructor..].
    cbn. rewrite <- (Permutation_rev dead), <- (Permutation_rev live).
    apply Permutation_app_swap_app.
Qed.

(** ** Sequences of calls *)
Fixpoint run_ops (ops : list cache_op) : M fatfs_ncache_t (list (option Z)) :=
  match ops with
  | [] => mret []
  | op :: ops => r ← run_op op; rs ← run_ops ops; mret (r :: rs)
  end.

Fixpoint spec_ops (ops : list cache_op) (v : cache_view) : list (option Z) * cache_view :=
  match ops with
  | [] => ([], v)
  | op :: ops =>
      let '(r, v) := spec_op op v in
      let '(rs, v) := spec_ops ops v in (r :: rs, v)
  end.

Fixpoint ops_ok (ops : list cache_op) (v : cache_view) : Prop :=
  match ops with
  | [] => True
  | op :: ops => op_ok op v /\ ops_ok ops (snd (spec_op op v))
  end.

Lemma run_ops_spec ops s v :
  rep s v -> view_ok v -> ops_ok ops v ->
  wp (run_ops ops) (fun rs s' =>
    rs = fst (spec_ops ops v) /\ rep s' (snd (spec_ops ops v)) /\ view_ok (snd (spec_ops ops v))) s.
Proof.
  revert s v. induction ops as [|op ops IH]; intros s v Hrep Hok Hops; [by apply wp_ret|].
  destruct Hops as [Hop Hops]. cbn [run_ops spec_ops]. call op_does.
  destruct H as [-> Hrep']. pose proof (spec_op_ok op v Hok Hop) as Hok'.
  destruct (spec_op op v) as [r v']. cbn [fst snd] in *. call IH.
  destruct H as (-> & Hrep2 & Hok2). destruct (spec_ops ops v') as [rs v2]. by apply wp_ret.
Qed.

#[export] Instance ops_ok_dec ops v : Decision (ops_ok ops v).
Proof. revert v. induction ops; intros v; cbn; apply _. Defined.

(** The cache after [fatfs_node_cache_init]; what the nodes hold does not matter. *)
Definition empty_view (s : fatfs_ncache_t) : cache_view :=
  View [] [] (rev (seqZ 0 POOL)) (fun a => dentry (node_pool_base s a))
    (fun a => refcnt (node_pool_base s a)).

Lemma concat_replicate_nil n : concat (replicate n []) = ([] : list Z).
Proof. by induction n. Qed.

Lemma cache_init_spec SIZE s :
  1 <= SIZE < 2 ^ 32 ->
  wp (fatfs_node_cache_init SIZE POOL) (fun _ s' => rep s' (empty_view s)) s.
Proof.
  intros HSIZE. unfold fatfs_node_cache_init, node_pool_init. do 3 apply wp_modify.
  eexists tt, _. split; [done|]. exists (replicate (Z.to_nat SIZE) []).
  assert (Hlen : length (rev (seqZ 0 POOL)) = Z.to_nat POOL) by by rewrite length_rev, length_seqZ.
  split; [|by rewrite concat_replicate_nil].
  split; cbn; [by split..|rewrite Hlen; lia| |rewrite length_seqZ; lia| |done|done].
  - rewrite Hlen, rev_involutive. apply take_ge. rewrite length_seqZ. lia.
  - split; [split| | | |].
    + cbn. rewrite length_replicate. lia.
    + cbn. by rewrite fmap_replicate.
    + cbn. by rewrite concat_replicate_nil.
    + by apply Forall_replicate.
    + rewrite concat_replicate_nil. constructor.
    + intros i l [-> _]%lookup_replicate_1. by split; constructor.
    + unfold names_ok. rewrite concat_replicate_nil. constructor.
    + destruct (Z.to_nat SIZE) eqn:E; [lia|done].
    + rewrite concat_replicate_nil. cbn. lia.
Qed.

Lemma empty_view_ok s : view_ok (empty_view s).
Proof.
  split; cbn; [by rewrite <- Permutation_rev|constructor..|set_solver].
Qed.

(** ** The contract *)

(** C34: the node cache refines its abstract specification: after the
    initialisation, any sequence of calls whose callers keep to the rules (no
    second node for an entry, counts that fit, no release of a node in use)
    runs to the end, answers as the three lists of nodes prescribe (an entry is
    found if and only if it is cached, a node in use is never recycled, the one
    recycled is the least recently used and two are kept) and leaves lists and a
    hash table that hold exactly those nodes. *)
Theorem node_cache_refines SIZE (HSIZE : 1 <= SIZE < 2 ^ 32) s ops :
  ops_ok ops (empty_view s) ->
  wp (fatfs_node_cache_init SIZE POOL ;; run_ops ops) (fun rs s' =>
    let v := snd (spec_ops ops (empty_view s)) in
    rs = fst (spec_ops ops (empty_view s)) /\ rep s' v /\ view_ok v /\
    fatfs_get_live_node_count s' = Z.of_nat (length (v_live v)) /\
    fatfs_get_dead_node_count s' = Z.of_nat (length (v_dead v))) s.
Proof.
  intros Hops. call cache_init_spec. eapply wp_mono; [apply run_ops_spec; [done| |done]|].
  - apply empty_view_ok.
  - intros rs s2 (-> & Hrep & Hok). pose proof Hrep as (ch & Hrw & _). split_and!; try done.
    + apply (il_size _ _ _ (rw_live _ _ _ Hrw)).
    + apply (il_size _ _ _ (rw_dead _ _ _ Hrw)).
Qed.
End Cache.

(** A pool of four nodes and a history that recycles one. *)
Definition toy_entry (c parent : Z) : fatfs_dir_entry_t :=
  mk_dentry [65; c] 0 0 0 0 0 0 0 parent (mk_pos 0 0 0).
Definition toy_raw_cache : fatfs_ncache_t :=
  mk_ncache (fun _ => mk_node (toy_entry 0 0) 7 None None None) [] 0
    node_list_init node_list_init (mk_hash_table 0 0 []).
Definition toy_ops : list cache_op :=
  [OpAlloc (toy_entry 97 1); OpAlloc (toy_entry 98 1); OpAlloc (toy_entry 97 2); OpRef 3; OpRef 3;
   OpFind [97; 65; 47] 2 1; OpFind [97; 99] 2 1; OpTouch 2; OpAlloc (toy_entry 99 1);
   OpAlloc (toy_entry 100 1); OpFind [97; 97] 2 2; OpRename 3 (toy_entry 101 2); OpUnref 3; OpUnref 3;
   OpFree 3; OpFind [65; 98] 2 1; OpFlush].

Example node_cache_refines_witness :
  exists s', (fatfs_node_cache_init 8 4 ;; run_ops 4 (fun _ _ => 0) toy_ops) toy_raw_cache
    = Some ([Some 3; Some 2; Some 1; None; None; Some 3; None; None; Some 0; Some 1; None; None; None;
             None; None; Some 2; None], s') /\
    fatfs_get_dead_node_count s' = 0.
Proof.
  destruct (node_cache_refines 4 (fun _ _ => 0) ltac:(lia) 8 ltac:(lia) toy_raw_cache toy_ops)
    as (rs & s' & Hrun & -> & _ & _ & _ & Hdead).
  - apply (bool_decide_unpack _). vm_compute. exact I.
  - exists s'. split; [exact Hrun|exact Hdead].
Defined.
