(* ===== verification/FatNodeCheck.v ===== *)
(** * FAT node cache: its extra checks

    The assertions that FATFS_NODE_CACHE_EXTRA_CHECKS compiles into the node
    cache hold in every state that the cache reaches. *)
From stdpp Require Import functions.
From S2P Require Import Prelude FatFile FatDentry FatNode FatNodeSpec FatNodeOps.

Section Checks.
Context (POOL : Z) (past_end : fatfs_dir_entry_t -> Z -> byte).
Context (HPOOL : 1 <= POOL < 2 ^ 32).

Lemma same_ptr_refl p : same_ptr p p = true.
Proof. by apply bool_decide_eq_true_2. Qed.

Lemma list_check_loop_ok fuel h L min_ref max_ref i a l p :
  seg h p (a :: l) None -> (length l < fuel)%nat ->
  Forall (fun b => ref_between h min_ref max_ref b = true) l ->
  ref_between h min_ref max_ref a = true ->
  list_size L = i + Z.of_nat (length l) -> list_last L = last_or (Some a) l ->
  list_check_loop fuel h L min_ref max_ref i a p = true.
Proof.
  revert fuel i a p. induction l as [|b l IH]; intros [|fuel] i a p Hs Hf Hr Ha Hi Hl; cbn in Hf; try lia.
  - destruct Hs as (Hp & Hn & _). cbn in *. rewrite Hp, Hn, Hl, !same_ptr_refl, !andb_true_r.
    cbn. bool_lia.
  - destruct Hs as (Hp & Hn & Hs). cbn [hd_or length last_or] in *. cbn [list_check_loop].
    apply Forall_cons in Hr as [Hb Hr]. rewrite Hp, Hn, same_ptr_refl, Ha. cbn [andb].
    apply IH; [done|lia|done|done|lia|done].
Qed.

Lemma last_or_cons a l : exists b, last_or (Some a) l = Some b /\ b ∈ a :: l.
Proof.
  revert a. induction l as [|b l IH]; intros a; cbn; [exists a; set_solver|].
  destruct (IH b) as (c & -> & Hc). exists c. set_solver.
Qed.

Lemma seg_last h p l q b : seg h p l q -> l <> [] -> last_or p l = Some b -> list_next (h b) = q.
Proof.
  revert p. induction l as [|a l IH]; intros p Hs Hne; [done|]. destruct Hs as (_ & Hn & Hs).
  cbn. destruct l as [|c l]; [by intros [= <-]|]. by apply IH.
Qed.

Lemma node_list_check_ok h L l min_ref max_ref :
  is_list h L l -> Z.of_nat (length l) <= POOL ->
  Forall (fun b => ref_between h min_ref max_ref b = true) l ->
  node_list_check POOL h L min_ref max_ref = true.
Proof.
  intros [Hs Hf Hl Hseg] Hlen Hr. unfold node_list_check. rewrite Hf, Hl.
  destruct l as [|a l]; cbn [hd_or last_or]; [by rewrite Hs|].
  destruct (last_or_cons a l) as (b & Hb & Hin). rewrite Hb.
  pose proof (seg_last _ _ _ _ b Hseg ltac:(done) Hb) as Hbn. pose proof Hseg as (Hp & _ & _).
  pose proof Hr as Hr'. rewrite Forall_forall in Hr'.
  rewrite Hp, Hbn, same_ptr_refl, (Hr' a), (Hr' b) by set_solver. cbn [andb].
  apply Forall_cons in Hr as [Ha Hr]. cbn in Hs, Hlen.
  apply (list_check_loop_ok _ _ _ _ _ _ _ l); try done.
  - unfold chain_fuel. lia.
  - lia.
Qed.

(** ** The hash table *)
Definition distinct_keys (h : node_heap) (l : list Z) : Prop :=
  forall a b, a ∈ l -> b ∈ l -> same_key (dentry (h a)) (dentry (h b)) -> a = b.

Lemma chain_check_ok fuel h n l p :
  hseg h l None -> (length l < fuel)%nat ->
  names_ok h (option_list p ++ l) -> NoDup (option_list p ++ l) ->
  StronglySorted name_le (node_name h <$> option_list p ++ l) ->
  distinct_keys h (option_list p ++ l) ->
  chain_check fuel h n p (hd_or l None) = Some (n + Z.of_nat (length l)).
Proof.
  revert fuel n p. induction l as [|a l IH]; intros [|fuel] n p Hs Hf Hok Hnd Hsort Hk; cbn in Hf; try lia.
  - cbn. f_equal. lia.
  - destruct Hs as [Hn Hs]. cbn [hd_or chain_check]. rewrite Hn.
    assert (Hrest : chain_check fuel h (n + 1) (Some a) (hd_or l None) = Some (n + Z.of_nat (length (a :: l)))).
    { rewrite IH; [cbn; f_equal; lia|done|lia|..].
      - by apply Forall_app in Hok as [_ ?].
      - apply NoDup_app in Hnd. tauto.
      - rewrite fmap_app in Hsort. by apply StronglySorted_app_1_r in Hsort.
      - intros x y Hx Hy. apply Hk; set_solver. }
    destruct p as [q|]; [|done]. cbn in Hsort, Hnd, Hok, Hk.
    apply StronglySorted_cons in Hsort as [[Hle _]%Forall_cons _].
    apply Forall_cons in Hok as [Hq [Ha _]%Forall_cons]. unfold name_le, node_name in Hle.
    rewrite (proj2 (Z.leb_le _ _)) by done. cbn [andb].
    destruct (negb _ || negb _) eqn:E; [done|]. exfalso. apply orb_false_elim in E as [E1 E2].
    apply negb_false_iff, Z.eqb_eq in E1, E2. apply NoDup_cons in Hnd as [Hnq _].
    apply Hnq. rewrite (Hk q a); [set_solver..|].
    split; [done|]. apply strcasecmp_eq; [done..|lia].
Qed.

Lemma slots_check_ok h n (chains : list (list Z)) :
  Forall (fun l => forall m,
    chain_check (chain_fuel POOL) h m None (hd_or l None) = Some (m + Z.of_nat (length l))) chains ->
  slots_check POOL h n ((fun l => hd_or l None) <$> chains) = Some (n + Z.of_nat (length (concat chains))).
Proof.
  revert n. induction chains as [|l chains IH]; intros n Hc; [cbn; f_equal; lia|].
  apply Forall_cons in Hc as [Hl Hc]. cbn [fmap list_fmap slots_check]. rewrite Hl.
  cbn [mbind option_bind]. rewrite IH by done. cbn [concat]. rewrite length_app. f_equal. lia.
Qed.

Lemma node_hash_check_ok h tbl chains :
  hashed POOL h tbl chains -> distinct_keys h (concat chains) -> node_hash_check POOL h tbl = true.
Proof.
  intros [[Hs Hn Hl Hc Hnd] Hkeys Hnames Hne Hpool] Hd. unfold node_hash_check.
  rewrite Hn, take_ge by (rewrite length_fmap; lia). rewrite slots_check_ok; [rewrite Hl; bool_lia|].
  rewrite Forall_forall in *. intros l Hin m.
  pose proof Hin as Hi. apply list_elem_of_lookup in Hi as [i Hi].
  destruct (Hkeys i l Hi) as [_ Hsort]. pose proof (in_chain_length l chains Hin).
  apply chain_check_ok; cbn; [by apply Hc|unfold chain_fuel; lia| | |done|].
  - unfold names_ok in *. rewrite Forall_forall in *. intros a Ha. apply Hnames, elem_of_concat. eauto.
  - apply list_elem_of_split in Hin as (c1 & c2 & ->). rewrite concat_middle, !NoDup_app in Hnd. tauto.
  - intros a b Ha Hb. apply Hd; apply elem_of_concat; eauto.
Qed.

(** ** Walks along the lists *)
Lemma walk_list_none fuel h f p l :
  seg h p l None -> (length l < fuel)%nat -> (forall a, a ∈ l -> f a = None) ->
  walk_list fuel h f (hd_or l None) = None.
Proof.
  revert fuel p. induction l as [|a l IH]; intros [|fuel] p Hs Hf Hn; cbn in Hf; try lia; [done|].
  destruct Hs as (_ & Hnext & Hs). cbn [hd_or walk_list]. rewrite Hn, Hnext by set_solver.
  apply (IH _ (Some a)); [done|lia|]. intros b Hb. apply Hn. set_solver.
Qed.

Lemma walk_list_some fuel h f p l1 a l2 b :
  seg h p (l1 ++ a :: l2) None -> (length l1 < fuel)%nat -> (forall c, c ∈ l1 -> f c = None) ->
  f a = Some b -> walk_list fuel h f (hd_or (l1 ++ a :: l2) None) = Some b.
Proof.
  revert fuel p. induction l1 as [|c l1 IH]; intros [|fuel] p Hs Hf Hn Ha; cbn in Hf; try lia.
  - cbn. by rewrite Ha.
  - destruct Hs as (_ & Hnext & Hs). cbn [app hd_or walk_list]. rewrite Hn, Hnext by set_solver.
    apply (IH _ (Some c)); [done|lia| |done]. intros x Hx. apply Hn. set_solver.
Qed.

(** The assertion's test is the abstract one. *)
Lemma is_entry_iff h name n parent a :
  name_bytes name -> name_bytes (node_name h a) -> (n <= length name)%nat ->
  is_entry h name (Z.of_nat n) parent a = true <-> matches h (take n name) parent a.
Proof.
  intros Hname Ha Hn. unfold is_entry, matches. rewrite !andb_true_iff, !Z.eqb_eq, Nat2Z.id.
  assert (Hlen : same_name (node_name h a) (take n name) -> n = length (node_name h a)).
  { intros H%same_name_length. rewrite length_take in H. lia. }
  unfold node_name in *. split.
  - intros [[Hp Hl] Hs]. split; [done|]. assert (n = length (filename (dentry (h a)))) by lia. subst n.
    rewrite strncasecmp_take, (take_ge (filename _)) in Hs by (done || lia).
    symmetry in Hs. apply strcasecmp_eq in Hs; [done|by apply name_bytes_take|done].
  - intros [Hp Hs]. pose proof (Hlen Hs) as Hl. split_and!; [done|lia|]. subst n.
    rewrite strncasecmp_take, (take_ge (filename _)) by (done || lia).
    symmetry. apply strcasecmp_eq; [by apply name_bytes_take|done|done].
Qed.

Section State.
Context s v (Hrep : rep POOL s v) (Hok : view_ok POOL v).

Lemma heap_key a : dentry (node_pool_base s a) = v_dentry v a.
Proof. destruct Hrep as (ch & Hrw & _). apply (rw_dentry _ _ _ _ Hrw). Qed.

Lemma sanity_check_ok :
  Forall (fun a => v_refcnt v a <= 99999) (v_live v) -> SANITY_CHECK POOL s = true.
Proof.
  intros Hmax. destruct Hrep as (ch & Hrw & Hch). destruct v as [live dead free D R].
  destruct (view_lists POOL HPOOL _ _ _ _ _ Hok) as (Hnd & Hlen & Hpool).
  pose proof Hok as [_ Hl Hd _ Hk]. cbn in *. rewrite length_app in *.
  unfold SANITY_CHECK, node_lists_check.
  assert (Hrefs : forall l m M, Forall (fun a => m <= R a <= M) l ->
    Forall (fun b => ref_between (node_pool_base s) m M b = true) l).
  { intros l m M HF. eapply Forall_impl; [exact HF|]. cbn. intros a Ha. unfold ref_between.
    rewrite (rw_refcnt _ _ _ _ Hrw). cbn. apply andb_true_iff. split; [apply Z.geb_le|apply Z.leb_le]; lia. }
  rewrite (node_list_check_ok _ _ live), (node_list_check_ok _ _ dead); cycle 1.
  1,4: by destruct Hrw. 1,3: lia.
  - apply Hrefs. eapply Forall_impl; [exact Hd|]. cbn. lia.
  - apply Hrefs. rewrite Forall_forall in *. intros a Ha. specialize (Hl a Ha). specialize (Hmax a Ha).
    cbn in *. lia.
  - rewrite (node_hash_check_ok _ _ ch); [|by destruct Hrw|].
    + rewrite (il_size _ _ _ (rw_live _ _ _ _ Hrw)), (il_size _ _ _ (rw_dead _ _ _ _ Hrw)). cbn.
      rewrite (hr_n _ _ _ (ha_rep _ _ _ _ (rw_hash _ _ _ _ Hrw))), Hch, length_app.
      rewrite uwrap_small by (unfold fits; lia). apply Z.eqb_eq. lia.
    + intros a b Ha Hb. rewrite !(rw_dentry _ _ _ _ Hrw). cbn. apply Hk; by rewrite <- Hch.
Qed.

Lemma find_check_ok name n parent :
  op_ok (OpFind name n parent) v ->
  NODE_FIND_CHECK POOL s name n parent (fst (spec_op (OpFind name n parent) v)) = true.
Proof.
  intros Hop. destruct Hrep as (ch & Hrw & Hch). pose proof Hok as [_ _ _ Hnames _].
  destruct v as [live dead free D R].
  destruct Hop as (Hname & Hn & Hlen). destruct (view_lists POOL HPOOL _ _ _ _ _ Hok) as (Hnd & _ & Hpool).
  cbn in Hnames, Hch. rewrite length_app in Hpool. cbn [spec_op fst].
  assert (Hentry : forall a, a ∈ live ++ dead ->
    is_entry (node_pool_base s) name n parent a = true <-> has_key D (take (Z.to_nat n) name) parent a).
  { intros a Ha. replace n with (Z.of_nat (Z.to_nat n)) at 1 by lia.
    rewrite is_entry_iff; [|done| |lia].
    - unfold matches, node_name, has_key. by rewrite (rw_dentry _ _ _ _ Hrw).
    - unfold node_name. rewrite (rw_dentry _ _ _ _ Hrw). rewrite Forall_forall in Hnames. by apply Hnames. }
  pose proof (rw_live _ _ _ _ Hrw) as [_ Hlf _ Hls]. pose proof (rw_dead _ _ _ _ Hrw) as [_ Hdf _ Hds].
  cbn in Hlf, Hls, Hdf, Hds.
  destruct (list_find _ _) as [[i a]|] eqn:Hf; cbn [fmap option_fmap option_map snd NODE_FIND_CHECK].
  - apply list_find_Some in Hf as (Hi & Hb & _). apply list_elem_of_lookup_2 in Hi.
    apply Hentry in Hb; [|done]. unfold node_hash_found_check, walk_lists.
    unfold node_list_get_head. rewrite Hlf, Hdf.
    assert (Hne : forall l1 l2, NoDup (l1 ++ a :: l2) -> forall c, c ∈ l1 ->
      (if c =? a then Some (is_entry (node_pool_base s) name n parent a) else None) = None).
    { intros l1 l2 Hn1 c Hc. destruct (c =? a) eqn:E; [|done]. apply Z.eqb_eq in E. subst c.
      apply NoDup_app in Hn1 as (_ & Hd & _). destruct (Hd a Hc). set_solver. }
    apply elem_of_app in Hi as [Hi|Hi]; apply list_elem_of_split in Hi as (l1 & l2 & ->).
    + apply NoDup_app in Hnd as (Hnd & _ & _). rewrite length_app in Hpool.
      rewrite (walk_list_some _ _ _ _ _ _ _ true Hls); [done|unfold chain_fuel; lia|by eapply Hne|].
      by rewrite Z.eqb_refl, Hb.
    + pose proof Hnd as Hnd'. rewrite app_assoc in Hnd'. rewrite length_app in Hpool.
      rewrite (walk_list_none _ _ _ _ _ Hls); [|unfold chain_fuel; lia|].
      * apply NoDup_app in Hnd as (_ & _ & Hnd).
        rewrite (walk_list_some _ _ _ _ _ _ _ true Hds); [done|unfold chain_fuel; lia|by eapply Hne|].
        by rewrite Z.eqb_refl, Hb.
      * intros c Hc. apply (Hne (live ++ l1) l2); [done|set_solver].
  - apply list_find_None in Hf. rewrite Forall_forall in Hf.
    unfold node_hash_not_found_check, walk_lists, node_list_get_head. rewrite Hlf, Hdf.
    assert (Hno : forall a, a ∈ live ++ dead ->
      (if is_entry (node_pool_base s) name n parent a then Some false else None) = None).
    { intros a Ha. destruct (is_entry _ _ _ _ _) eqn:E; [|done]. exfalso. apply (Hf a); [done|].
      by apply Hentry. }
    rewrite (walk_list_none _ _ _ _ _ Hls), (walk_list_none _ _ _ _ _ Hds);
      [done|unfold chain_fuel; lia|intros; apply Hno; set_solver|unfold chain_fuel; lia|
       intros; apply Hno; set_solver].
Qed.
End State.

(** No assertion of the node cache's extra checks fails: in every state that the
    cache reaches, the lists are well linked with reference counts in their
    ranges, the chains of the hash table are sorted and without duplicates, the
    sizes agree, and the answer of a search is the right one. *)
Theorem node_checks_pass SIZE (HSIZE : 1 <= SIZE < 2 ^ 32) s ops :
  ops_ok ops (empty_view POOL s) ->
  let v := snd (spec_ops ops (empty_view POOL s)) in
  Forall (fun a => v_refcnt v a <= 99999) (v_live v) ->
  wp (fatfs_node_cache_init SIZE POOL ;; run_ops POOL past_end ops) (fun _ s' =>
    SANITY_CHECK POOL s' = true /\
    forall name n parent, op_ok (OpFind name n parent) v ->
      wp (fatfs_node_find POOL past_end name n parent) (fun node s2 =>
        NODE_FIND_CHECK POOL s2 name n parent node = true) s') s.
Proof.
  intros Hops v Hmax. apply wp_bind. eapply wp_mono; [by apply cache_init_spec|].
  intros ? s1 Hrep. cbn beta in Hrep.
  eapply wp_mono; [apply (run_ops_spec POOL past_end HPOOL ops s1 _ Hrep); [by apply empty_view_ok|done]|].
  intros rs s2 (_ & Hrep2 & Hok2). split; [by eapply sanity_check_ok|].
  intros name n parent Hop.
  eapply wp_mono; [by apply (find_does POOL past_end name n parent s2 v)|].
  cbn beta. intros r s3 [-> Hrep3]. apply (find_check_ok s3 v); [|done..].
  by destruct v.
Qed.
End Checks.

Example node_checks_pass_witness :
  exists rs s', (fatfs_node_cache_init 8 4 ;; run_ops 4 (fun _ _ => 0) (take 12 toy_ops)) toy_raw_cache
    = Some (rs, s') /\ SANITY_CHECK 4 s' = true /\
    wp (fatfs_node_find 4 (fun _ _ => 0) [97; 69; 47] 2 2)
      (fun node s2 => NODE_FIND_CHECK 4 s2 [97; 69; 47] 2 2 node = true) s'.
Proof.
  destruct (node_checks_pass 4 (fun _ _ => 0) ltac:(lia) 8 ltac:(lia) toy_raw_cache (take 12 toy_ops))
    as (rs & s' & Hrun & Hsane & Hfind).
  - apply (bool_decide_unpack _). vm_compute. exact I.
  - apply (bool_decide_unpack _). vm_compute. exact I.
  - exists rs, s'. split_and!; [exact Hrun|exact Hsane|]. apply Hfind.
    apply (bool_decide_unpack _). vm_compute. exact I.
Defined.
