(* ===== verification/FatDir.v ===== *)
(** * FAT file system: directories (fatfs_supp.c)

    Searching a directory, creating, deleting, truncating and renaming files. *)
From S2P Require Import Prelude Blib BlibContract FatDate FatStore FatTable FatTableSpec FatChain.
From S2P Require Import FatFile FatDentry.

Definition add_cluster_pos (n : Z) (pos : fatfs_data_pos_t) : fatfs_data_pos_t :=
  set_cluster_pos (u32 (cluster_pos pos + n)) pos.

Definition set_filename n (d : fatfs_dir_entry_t) := mk_dentry n (mode d) (size d) (ctime d)
  (atime d) (mtime d) (priv_data d) (d_cluster d) (parent_cluster d) (disk_pos d).
Definition set_size s (d : fatfs_dir_entry_t) := mk_dentry (filename d) (mode d) s (ctime d)
  (atime d) (mtime d) (priv_data d) (d_cluster d) (parent_cluster d) (disk_pos d).
Definition set_amtime t (d : fatfs_dir_entry_t) := mk_dentry (filename d) (mode d) (size d) (ctime d)
  t t (priv_data d) (d_cluster d) (parent_cluster d) (disk_pos d).
Definition set_atime t (d : fatfs_dir_entry_t) := mk_dentry (filename d) (mode d) (size d) (ctime d)
  t (mtime d) (priv_data d) (d_cluster d) (parent_cluster d) (disk_pos d).
Definition set_parent_cluster c (d : fatfs_dir_entry_t) := mk_dentry (filename d) (mode d) (size d)
  (ctime d) (atime d) (mtime d) (priv_data d) (d_cluster d) c (disk_pos d).
Definition set_disk_pos p (d : fatfs_dir_entry_t) := mk_dentry (filename d) (mode d) (size d)
  (ctime d) (atime d) (mtime d) (priv_data d) (d_cluster d) (parent_cluster d) p.

(** [raw->cluster = lo; raw->cluster_HI = hi; raw->size = sz] *)
Definition set_raw_cluster lo hi sz (d : fat_raw_dir_entry_t) : fat_raw_dir_entry_t :=
  mk_raw (name d) (ext d) (attr d) (nt_reserved d) (crt_sec_100 d) (crt_time d)
    (crt_date d) (acc_date d) hi (wrt_time d) (wrt_date d) lo sz.

Definition is_root_dir_entry (d : fatfs_dir_entry_t) : bool :=
  (0 =? char_at (filename d)) && (0 =? d_cluster d).

(** [dir_entries] bounds the turns of a search: the entries of the fixed root
    directory and those of every cluster. *)
Definition dir_entries (disk : fatfs_disk_t) : nat :=
  (Z.to_nat (fat_root_dir_size disk / DENTRY_SIZE)
   + Z.to_nat (fat_tbl_nents disk * (cluster_size disk / DENTRY_SIZE)) + 2)%nat.

Definition fatfs_get_root_dir_entry (disk : fatfs_disk_t) : fatfs_dir_entry_t := {|
  filename := [];
  mode := stat_mode_DIR;
  size := fat_root_dir_size disk;
  ctime := 0;
  atime := 0;
  mtime := 0;
  priv_data := 0;
  d_cluster := 0;
  parent_cluster := 0;
  disk_pos := mk_pos 0 0 0;
|}.

Section Dir.
Context {B : Type} {lib : BlockLibrary B}.
Implicit Types (disk : fatfs_disk_t) (pos : fatfs_data_pos_t).

(** The position of the root directory of a FAT32 disk is that of its cluster. *)
Definition correct_root disk pos : fatfs_data_pos_t :=
  if decide (fat_type disk = FATFS_FAT32) then
    if 0 =? cluster pos then set_cluster (fat_root_dir_cluster disk) pos else pos
  else pos.

(** The test at the head of both search loops; [full] is the error at the end
    of the fixed root directory. *)
Definition dir_page disk pos (full opts : Z) : M B (Z * fatfs_data_pos_t) :=
  if 0 =? cluster pos then
    mret (if cluster_pos pos >=? fat_root_dir_size disk then full else ENOERR, pos)
  else if cluster_pos pos >=? cluster_size disk then get_next_cluster disk pos opts
  else mret (ENOERR, pos).

(** Returns the error, the entry read last and the position. *)
Fixpoint next_dentry_loop disk (fuel : nat) pos :
    M B (Z * option fat_raw_dir_entry_t * fatfs_data_pos_t) :=
  match fuel with
  | O => crash
  | S fuel =>
      '(err, pos) ← dir_page disk pos EEOF CO_NONE;
      if negb (err =? ENOERR) then mret (err, None, pos)
      else
        '(err, dentry) ← read_raw_dentry disk pos;
        if negb (err =? ENOERR) then mret (err, None, pos)
        else if DENTRY_IS_ZERO dentry then mret (EEOF, Some dentry, pos)
        else if negb (DENTRY_IS_DELETED dentry) then mret (ENOERR, Some dentry, pos)
        else next_dentry_loop disk fuel (add_cluster_pos DENTRY_SIZE pos)
  end.

Definition read_next_raw_dentry disk pos : M B (Z * option fat_raw_dir_entry_t * fatfs_data_pos_t) :=
  next_dentry_loop disk (dir_entries disk) (correct_root disk pos).

Fixpoint free_dentry_loop disk (fuel : nat) cpos : M B (Z * fatfs_data_pos_t) :=
  match fuel with
  | O => crash
  | S fuel =>
      '(err, cpos) ← dir_page disk cpos ENOSPC (Z.lor CO_EXTEND CO_ERASE_NEW);
      if negb (err =? ENOERR) then mret (err, cpos)
      else
        '(err, raw_dentry) ← read_raw_dentry disk cpos;
        if negb (err =? ENOERR) then mret (err, cpos)
        else if DENTRY_IS_DELETED raw_dentry then mret (ENOERR, cpos)
        else if DENTRY_IS_ZERO raw_dentry then mret (ENOERR, cpos)
        else free_dentry_loop disk fuel (add_cluster_pos DENTRY_SIZE cpos)
  end.

(** On an error the caller's position is not changed. *)
Definition get_free_raw_dentry disk pos : M B (Z * fatfs_data_pos_t) :=
  '(err, cpos) ← free_dentry_loop disk (dir_entries disk) (correct_root disk pos);
  mret (err, if err =? ENOERR then cpos else pos).

(** [strncpy(filename, name, namelen); filename[namelen] = '\0'], where [name] is
    given up to its terminator: a write outside [filename[12+1]] is undefined. *)
Definition copy_filename (name : list byte) (namelen : Z) : M B (list byte) :=
  if (0 <=? namelen) && (namelen <=? 12) then mret (take (Z.to_nat namelen) name) else crash.

Definition init_dir_entry (timestamp : Z) (name : list byte) (namelen mode parent first_cluster : Z)
    pos : M B fatfs_dir_entry_t :=
  let namelen := if 0 =? namelen then 12 else namelen in
  fname ← copy_filename name namelen;
  mret {| filename := fname;
          mode := mode;
          size := 0;
          ctime := timestamp;
          atime := timestamp;
          mtime := timestamp;
          priv_data := 0;
          d_cluster := first_cluster;
          parent_cluster := parent;
          disk_pos := pos |}.

(** Returns the error, the new position and, without error, the entry. *)
Definition fatfs_read_dir_entry disk (dir : fatfs_dir_entry_t) pos :
    M B (Z * fatfs_data_pos_t * option fatfs_dir_entry_t) :=
  '(err, raw_dentry, pos) ← read_next_raw_dentry disk pos;
  if negb (err =? ENOERR) then mret (err, pos, None)
  else
    match raw_dentry with
    | Some raw_dentry =>
        let dentry := raw_to_dentry raw_dentry pos (d_cluster dir) in
        mret (ENOERR, add_cluster_pos DENTRY_SIZE pos, Some dentry)
    | None => crash
    end.

Definition fatfs_write_dir_entry disk (dentry : fatfs_dir_entry_t) : M B Z :=
  write_raw_dentry disk (disk_pos dentry) (dentry_to_raw dentry).

(** The count of [fatfs_delete_file]: [inl] is an error that ends it. *)
Fixpoint count_children disk (fuel : nat) pos (i : Z) : M B (Z + Z) :=
  match fuel with
  | O => crash
  | S fuel =>
      '(err, _, pos) ← read_next_raw_dentry disk pos;
      if EEOF =? err then mret (inr i)
      else if negb (err =? ENOERR) then mret (inl err)
      else count_children disk fuel (add_cluster_pos DENTRY_SIZE pos) (i + 1)
  end.

Definition fatfs_delete_file disk (file : fatfs_dir_entry_t) : M B Z :=
  if is_root_dir_entry file then mret EINVAL
  else
    let raw_dentry := dentry_to_raw file in
    children ← (if DENTRY_IS_DIR raw_dentry then
                  count_children disk (dir_entries disk) (fatfs_initpos file) 0
                else mret (inr 0));
    match children with
    | inl err => mret err
    | inr i =>
        if i >? 2 then mret EPERM
        else
          free_cluster_chain disk
            (Z.lor (cluster_LO raw_dentry) (Z.shiftl (cluster_HI raw_dentry) 16)) ;;
          write_raw_dentry disk (disk_pos file) (raw_dentry_set_deleted raw_dentry)
    end.

(** The creating functions return the error and [*dentry], once it is set. *)
Definition fatfs_create_file (timestamp : Z) disk (dir : fatfs_dir_entry_t) (name : list byte)
    (namelen : Z) : M B (Z * option fatfs_dir_entry_t) :=
  let pos := fatfs_initpos dir in
  '(err, pos) ← get_free_raw_dentry disk pos;
  if negb (err =? ENOERR) then mret (err, None)
  else
    dentry ← init_dir_entry timestamp name namelen stat_mode_REG (d_cluster dir) 0 pos;
    err ← fatfs_write_dir_entry disk dentry;
    mret (err, Some dentry).

Definition fatfs_create_dir (timestamp : Z) disk (dir : fatfs_dir_entry_t) (name : list byte)
    (namelen : Z) : M B (Z * option fatfs_dir_entry_t) :=
  '(err, free_cluster) ← find_next_free_cluster disk 0 (Z.lor CO_MARK_LAST CO_ERASE_NEW);
  if negb (err =? ENOERR) then mret (err, None)
  else
    let pos := fatfs_initpos dir in
    '(err, pos) ← get_free_raw_dentry disk pos;
    if negb (err =? ENOERR) then mret (err, None)
    else
      dentry ← init_dir_entry timestamp name namelen stat_mode_DIR (d_cluster dir) free_cluster pos;
      err ← fatfs_write_dir_entry disk dentry;
      if negb (err =? ENOERR) then mret (err, Some dentry)
      else
        let pos := fatfs_initpos dentry in
        cdentry ← init_dir_entry timestamp [DOT] 0 stat_mode_DIR (d_cluster dentry)
                    (d_cluster dentry) pos;
        err ← fatfs_write_dir_entry disk cdentry;
        if negb (err =? ENOERR) then mret (err, Some dentry)
        else
          let pos := add_cluster_pos DENTRY_SIZE pos in
          cdentry ← init_dir_entry timestamp [DOT; DOT] 0 stat_mode_DIR (d_cluster dentry)
                      (d_cluster dir) pos;
          err ← fatfs_write_dir_entry disk cdentry;
          mret (err, Some dentry).

(** Returns the error and [*file]. *)
Definition fatfs_trunc_file (timestamp : Z) disk (file : fatfs_dir_entry_t) :
    M B (Z * fatfs_dir_entry_t) :=
  if S_ISDIR (mode file) then mret (EINVAL, file)
  else if 0 =? size file then mret (ENOERR, file)
  else
    err ← free_cluster_chain disk (d_cluster file);
    if negb (err =? ENOERR) then mret (err, file)
    else
      let file := set_amtime timestamp (set_size 0 (set_d_cluster 0 file)) in
      err ← fatfs_write_dir_entry disk file;
      mret (err, file).

(** The search for the '..' entry of a directory that has been moved. *)
Fixpoint fix_dotdot disk (fuel : nat) (cluster2 : Z) pos : M B Z :=
  match fuel with
  | O => crash
  | S fuel =>
      '(err, raw_cdentry, pos) ← read_next_raw_dentry disk pos;
      if EEOF =? err then mret EINVAL
      else if negb (err =? ENOERR) then mret err
      else
        match raw_cdentry with
        | None => crash
        | Some raw_cdentry =>
            if (DOT =? nthZ (name raw_cdentry) 0) && (DOT =? nthZ (name raw_cdentry) 1) then
              write_raw_dentry disk pos
                (set_raw_cluster (Z.land cluster2 0xFFFF) (u16 (Z.shiftr cluster2 16))
                   (raw_size raw_cdentry) raw_cdentry)
            else fix_dotdot disk fuel cluster2 (add_cluster_pos DENTRY_SIZE pos)
        end
  end.

(** [same_dir] is the test [dir1 == dir2]. Returns the error and [*target]. *)
Definition fatfs_rename_file disk (same_dir : bool) (target dir2 : fatfs_dir_entry_t)
    (name : list byte) (namelen : Z) : M B (Z * fatfs_dir_entry_t) :=
  if is_root_dir_entry target then mret (EINVAL, target)
  else
    fname ← copy_filename name namelen;
    let target := set_filename fname target in
    if same_dir then
      err ← fatfs_write_dir_entry disk target;
      mret (err, target)
    else
      let new_pos := fatfs_initpos dir2 in
      '(err, new_pos) ← get_free_raw_dentry disk new_pos;
      if negb (err =? ENOERR) then mret (err, target)
      else
        let raw_dentry := dentry_to_raw target in
        err ← write_raw_dentry disk new_pos raw_dentry;
        if negb (err =? ENOERR) then mret (err, target)
        else
          let raw_dentry := set_raw_cluster 0 0 0 (raw_dentry_set_deleted raw_dentry) in
          err ← write_raw_dentry disk (disk_pos target) raw_dentry;
          if negb (err =? ENOERR) then mret (err, target)
          else
            let target := set_parent_cluster (d_cluster dir2) (set_disk_pos new_pos target) in
            if S_ISDIR (mode target) then
              err ← fix_dotdot disk (dir_entries disk) (d_cluster dir2) (fatfs_initpos target);
              mret (err, target)
            else mret (ENOERR, target).
End Dir.
