(* ===== verification/FatDirSpec.v ===== *)
(** * FAT file system: directories, what they promise

    A directory as an array of 32-byte slots, in the fixed area of FAT12 and
    FAT16 or along a chain of clusters, and the searches over it. *)
From S2P Require Import Prelude Blib BlibContract FatDate FatStore FatTable FatTableSpec FatChain.
From S2P Require Import FatFile FatDentry FatDir.

(** Where a directory lies. *)
Inductive dir := RootDir | ChainDir (l : list Z).

Section Spec.
Context {B : Type} {lib : BlockLibrary B} {log2 : Z} {store : BlockStore lib log2}.
Context (disk : fatfs_disk_t) (Hwf : disk_wf log2 disk).
Implicit Types (b : B) (l : list Z) (pos : fatfs_data_pos_t) (d : dir) (i j k : Z).

(** The directory that starts at cluster [c] (0 for the fixed root). *)
Definition holds_dir b c d : Prop :=
  match d with
  | RootDir => c = 0 /\ fat_type disk <> FATFS_FAT32 /\ (32 | fat_root_dir_size disk)
  | ChainDir l => chain disk (fat disk b) c l
  end.

Definition dir_room d : Z :=
  match d with RootDir => fat_root_dir_size disk | ChainDir l => file_room disk l end.
Definition slots d : Z := dir_room d / 32.

Definition slot_bytes b d i : list byte :=
  match d with
  | RootDir => img_read (content b) (fat_root_dir_pos disk + 32 * i) 32
  | ChainDir l => file_read disk b l (32 * i) 32
  end.
Definition slot b d i : fat_raw_dir_entry_t := get_raw (slot_bytes b d i).

(** The position is that of slot [i]. *)
Definition at_slot d pos i : Prop :=
  match d with
  | RootDir => cluster pos = 0 /\ cluster_pos pos = 32 * i
  | ChainDir l => pos_ok disk l pos /\ pos_offset disk pos = 32 * i
  end.

(** The position is not at the end of its cluster. *)
Definition page_in d pos : Prop :=
  match d with RootDir => True | ChainDir _ => cluster_pos pos < cluster_size disk end.

(** The directory may have grown by a cluster of empty slots. *)
Definition dir_extended b b' d d' opts : Prop :=
  match d, d' with
  | RootDir, RootDir => content b' = content b
  | ChainDir l, ChainDir l' => extended disk b b' l l' opts
  | _, _ => False
  end.

Lemma dir_extended_refl b d opts : dir_extended b b d d opts.
Proof. destruct d; [done|]. by left. Qed.

Lemma dir_room_32 b c d : holds_dir b c d -> dir_room d = 32 * slots d /\ 0 <= slots d.
Proof.
  intros Hd. unfold slots. destruct (wf_offsets _ _ Hwf) as (_ & _ & _ & Hcs & (m & Hm) & _).
  destruct d as [|l]; cbn in *.
  - destruct Hd as (_ & Hty & m' & Hm'). destruct (wf_root _ _ Hwf Hty) as (_ & H0 & _).
    rewrite Hm', Z.div_mul by lia. lia.
  - unfold file_room. rewrite Hm. replace (Z.of_nat (length l) * (32 * m)) with
      (Z.of_nat (length l) * m * 32) by lia. rewrite Z.div_mul by lia. nia.
Qed.

Lemma at_slot_range b c d pos i :
  holds_dir b c d -> at_slot d pos i -> match d with RootDir => True | _ => 0 <= i <= slots d end.
Proof.
  intros Hd Hp. pose proof (dir_room_32 _ _ _ Hd) as [Hr _]. destruct d as [|l]; [done|].
  destruct Hp as [Hp Ho]. pose proof (pos_offset_bound disk Hwf l pos Hp). cbn in Hr. lia.
Qed.

(** Inside a cluster, a slot does not cross its end. *)
Lemma slot_in_cluster l pos i :
  pos_ok disk l pos -> pos_offset disk pos = 32 * i -> cluster_pos pos < cluster_size disk ->
  0 <= cluster_pos pos /\ cluster_pos pos + 32 <= cluster_size disk.
Proof.
  intros [_ Hc] Ho Hlt. destruct (wf_offsets _ _ Hwf) as (_ & _ & _ & Hcs & (m & Hm) & _).
  unfold pos_offset in Ho. rewrite Hm in *.
  assert (cluster_pos pos = 32 * (i - cluster_snum pos * m)) by lia. lia.
Qed.

(** ** The test at the head of the search loops *)
Lemma dir_page_spec b c d pos i full opts :
  good b -> holds_dir b c d -> at_slot d pos i -> 0 <= i ->
  wp (dir_page disk pos full opts) (fun '(err, pos') b' =>
    good b' /\ only_changes (claim_region disk b opts) b b' /\
    (has_opt opts CO_EXTEND = false -> content b' = content b) /\
    ((err = ENOERR /\ exists d', dir_extended b b' d d' opts /\ holds_dir b' c d' /\
        at_slot d' pos' i /\ i < slots d' /\
        page_in d' pos' /\
        match d, d' with
        | ChainDir l, ChainDir l' => l' <> l -> cluster_snum pos' = Z.of_nat (length l)
        | _, _ => True
        end) \/
     (err <> ENOERR /\ (err = EEOF -> has_opt opts CO_EXTEND = false -> i = slots d \/
        d = RootDir /\ slots d <= i)) \/ (full = ENOERR))) b.
Proof.
  intros Hb Hd Hp Hi. pose proof (dir_room_32 _ _ _ Hd) as [Hroom H0].
  unfold dir_page. destruct d as [|l]; cbn in Hp.
  - destruct Hp as [Hc Hcp]. rewrite Hc. cbn [Z.eqb]. apply wp_ret.
    do 3 (split; [done|]). rewrite Hcp. cbn in Hroom.
    destruct (Z.geb_spec (32 * i) (fat_root_dir_size disk)).
    + destruct (decide (full = ENOERR)); [by right; right|]. right. left. split; [done|].
      intros _ _. right. split; [done|lia].
    + left. split; [done|]. exists RootDir. split_and!; try done. lia.
  - destruct Hp as [Hp Ho]. pose proof (pos_in_valid _ _ _ _ _ Hd (proj1 Hp)) as Hv.
    rewrite (proj2 (Z.eqb_neq 0 (cluster pos))) by (unfold valid_cluster in Hv; lia).
    eapply wp_mono; [by eapply (turn_page_spec disk Hwf b c l pos opts)|].
    intros [err pos1] b1 (Hb1 & Hch & Hsame & Hr). do 3 (split; [done|]).
    destruct Hr as [(-> & l' & He & Hp1 & Hlt & Ho1 & Hnew)|(Herr & Hp1 & Heof)].
    + left. split; [done|]. exists (ChainDir l'). split; [done|].
      assert (holds_dir b1 c (ChainDir l')) as Hd' by (by eapply (extended_chain disk Hwf)).
      split; [done|]. split; [split; [done|congruence]|]. split; [|split; [done|exact Hnew]].
      destruct (dir_room_32 _ _ _ Hd') as [Hroom' _].
      destruct (slot_in_cluster l' pos1 i Hp1 ltac:(congruence) Hlt) as [_ Hend].
      enough (pos_offset disk pos1 + 32 <= file_room disk l') by (cbn in Hroom'; lia).
      destruct Hp1 as [[Hs Hl] _]. apply lookup_lt_Some in Hl. unfold pos_offset, file_room.
      pose proof (cs_pos disk Hwf). assert ((cluster_snum pos1 + 1) * cluster_size disk <= Z.of_nat (length l') * cluster_size disk)
        by (apply Z.mul_le_mono_nonneg_r; lia). lia.
    + right. left. split; [done|]. intros He Hx. destruct (Heof He Hx) as [_ H]. left.
      cbn in Hroom. lia.
Qed.

(** ** Reading a slot *)
Lemma disk_read_no_eof len p : returns (fun r => r.1.1 <> EEOF) (disk_read (lib := lib) len p).
Proof. apply store_no_eof. Qed.

Lemma root_off_bounds i :
  fat_type disk <> FATFS_FAT32 -> 0 <= i -> 32 * i + 32 <= fat_root_dir_size disk ->
  0 <= fat_root_dir_pos disk + 32 * i /\ fat_root_dir_pos disk + 32 * i + 32 <= fat_data_pos disk /\
  fat_data_pos disk < 2 ^ 32 /\ tables_end disk <= fat_root_dir_pos disk.
Proof.
  intros Hty Hi Hend. destruct (wf_root _ _ Hwf Hty) as (Hr1 & Hr2 & Hr3).
  destruct (wf_data _ _ Hwf). destruct (wf_offsets _ _ Hwf) as (Ht & Ht2 & _ & Hcs & _).
  pose proof (wf_tbl_pos _ _ Hwf). lia.
Qed.

Lemma at_slot_cluster b c d pos i :
  holds_dir b c d -> at_slot d pos i -> 0 <= i < slots d ->
  match d with
  | RootDir => cluster pos = 0 /\ u32 (fat_root_dir_pos disk + cluster_pos pos)
                 = fat_root_dir_pos disk + 32 * i
  | ChainDir _ => cluster pos <> 0
  end.
Proof.
  intros Hd Hp Hi. pose proof (dir_room_32 _ _ _ Hd) as [Hroom _]. destruct d as [|l]; cbn in *.
  - destruct Hp as [Hc Hcp]. split; [done|]. destruct Hd as (_ & Hty & _).
    destruct (root_off_bounds i Hty) as (H1 & H2 & H3 & _); [lia..|]. rewrite Hcp.
    apply uwrap_small. lia.
  - pose proof (pos_in_valid _ _ _ _ _ Hd (proj1 (proj1 Hp))) as Hv. unfold valid_cluster in Hv. lia.
Qed.

Lemma read_raw_dentry_spec b c d pos i :
  good b -> holds_dir b c d -> at_slot d pos i -> 0 <= i < slots d ->
  page_in d pos ->
  wp (read_raw_dentry disk pos) (fun '(err, dentry) b' =>
    good b' /\ content b' = content b /\ err <> EEOF /\ (err = ENOERR -> dentry = slot b d i)) b.
Proof.
  intros Hb Hd Hp Hi Hin. pose proof (dir_room_32 _ _ _ Hd) as [Hroom _].
  pose proof (at_slot_cluster _ _ _ _ _ Hd Hp Hi) as Hcl. unfold read_raw_dentry.
  apply wp_bind.
  apply (wp_mono _ (fun '(err, n, data) b' => good b' /\ content b' = content b /\ err <> EEOF /\
    (err = ENOERR -> data = slot_bytes b d i))).
  - destruct d as [|l]; cbn in Hp, Hroom.
    + destruct Hcl as [-> ->]. cbn [Z.eqb].
      destruct Hd as (_ & Hty & _). destruct (root_off_bounds i Hty) as (H1 & H2 & H3 & _); [lia..|].
      eapply wp_mono; [eapply wp_returns; [apply disk_read_no_eof|]; apply (disk_read_spec b);
        [done|unfold DENTRY_SIZE..]; unfold fits; lia|].
      intros [[err n] data] b' (Heof & Hb' & Hc & Ht & ->). split_and!; try done.
      intros ->. destruct Ht as [[_ ->]|[? _]]; [done|done].
    + rewrite (proj2 (Z.eqb_neq 0 (cluster pos))) by congruence.
      destruct Hp as [Hpok Ho]. pose proof (slot_in_cluster l pos i Hpok Ho Hin) as [Hc0 Hc1].
      pose proof (pos_in_valid _ _ _ _ _ Hd (proj1 Hpok)) as Hv.
      eapply wp_mono; [eapply wp_returns; [apply (disk_cluster_read_no_eof disk)|];
        apply (disk_cluster_read_spec disk b); [done|done|done|lia|unfold DENTRY_SIZE; lia..]|].
      intros [[err n] data] b' (Heof & Hb' & Hc & Ht & ->). split_and!; try done.
      intros ->. destruct Ht as [[_ ->]|[? _]]; [|done]. unfold slot_bytes. rewrite <- Ho.
      apply (file_read_cluster disk Hwf); [apply Hpok|lia|cbn; lia].
  - intros [[err n] data] b' (Hb' & Hc & Heof & Hok). cbn beta iota. apply wp_ret.
    split_and!; try done. intros He. unfold slot. by rewrite (Hok He).
Qed.

(** Extending a directory leaves its slots alone. *)
Lemma slot_same b b' d i : content b' = content b -> slot b' d i = slot b d i.
Proof.
  intros Hc. unfold slot, slot_bytes. destruct d; [by rewrite Hc|].
  by rewrite (file_read_ext disk b b') by done.
Qed.

Lemma holds_same b b' c d : content b' = content b -> holds_dir b c d -> holds_dir b' c d.
Proof.
  intros Hc Hd. destruct d as [|l]; [done|]. cbn in *. eapply chain_ext; [done|].
  intros x _. unfold fat. by rewrite Hc.
Qed.

Lemma at_slot_next d pos i :
  at_slot d pos i -> 0 <= i -> i < slots d -> (exists b c, holds_dir b c d) ->
  page_in d pos ->
  at_slot d (add_cluster_pos DENTRY_SIZE pos) (i + 1).
Proof.
  intros Hp Hi Hlt (b & c & Hd) Hin. pose proof (dir_room_32 _ _ _ Hd) as [Hroom _].
  unfold add_cluster_pos, set_cluster_pos, DENTRY_SIZE.
  destruct (wf_offsets _ _ Hwf) as (_ & _ & _ & Hcs & _).
  destruct d as [|l]; cbn in *.
  - destruct Hp as [? Hcp], Hd as (_ & Hty & _). split; [done|].
    destruct (root_off_bounds i Hty) as (H1 & H2 & H3 & H4); [lia..|].
    pose proof (wf_tbl_pos _ _ Hwf). destruct (wf_offsets _ _ Hwf) as (H5 & H6 & _).
    rewrite uwrap_small; lia.
  - destruct Hp as [Hpok Ho]. pose proof (slot_in_cluster l pos i Hpok Ho Hin) as [Hc0 Hc1].
    rewrite uwrap_small by lia. split.
    + destruct Hpok. split; [done|]. cbn. lia.
    + unfold pos_offset in *. cbn. lia.
Qed.

(** ** Searching for the next entry *)
Definition deleted (r : fat_raw_dir_entry_t) : Prop := DENTRY_IS_ZERO r = false /\ DENTRY_IS_DELETED r = true.
Definition used (r : fat_raw_dir_entry_t) : Prop := DENTRY_IS_ZERO r = false /\ DENTRY_IS_DELETED r = false.

(** The answer: the first slot from [i] on that is in use, deleted ones being
    passed over; or the end of the directory. *)
Definition next_entry b d i (r : Z * option fat_raw_dir_entry_t * fatfs_data_pos_t) b' : Prop :=
  let '(err, dentry, pos') := r in
  good b' /\ content b' = content b /\
  ((err = ENOERR /\ exists j, i <= j < slots d /\ at_slot d pos' j /\
      dentry = Some (slot b d j) /\ used (slot b d j) /\
      page_in d pos' /\
      forall k, i <= k < j -> deleted (slot b d k)) \/
   (err = EEOF /\ exists j, i <= j /\ (j < slots d -> DENTRY_IS_ZERO (slot b d j) = true) /\
      forall k, i <= k < j -> k < slots d -> deleted (slot b d k)) \/
   device_error err).

Lemma next_dentry_loop_spec c d fuel : forall b pos i,
  good b -> holds_dir b c d -> at_slot d pos i -> 0 <= i -> Z.max 0 (slots d - i) < Z.of_nat fuel ->
  wp (next_dentry_loop disk fuel pos) (next_entry b d i) b.
Proof.
  induction fuel as [|fuel IH]; intros b pos i Hb Hd Hp Hi Hf; cbn [next_dentry_loop]; [lia|].
  apply wp_bind. eapply wp_mono; [by eapply dir_page_spec|].
  intros [err pos1] b1 (Hb1 & _ & Hc1 & Hr). specialize (Hc1 eq_refl). cbn beta iota.
  destruct Hr as [(-> & d' & He & Hd' & Hp1 & Hlt & Hin & _)|[(Herr & Heof)|?]]; [| |done].
  2: { rewrite (proj2 (Z.eqb_neq err ENOERR)) by done. apply wp_ret. split_and!; try done.
       right. destruct (decide (err = EEOF)) as [->|]; [left|by right].
       split; [done|]. exists i. split; [lia|]. split; [|lia].
       destruct (Heof eq_refl eq_refl) as [->|[_ ?]]; lia. }
  assert (d' = d) as ->.
  { destruct d, d'; cbn in He; try done. destruct He as [[_ ->]|[? _]]; done. }
  cbn [negb Z.eqb ENOERR].
  apply wp_bind. eapply wp_mono; [by eapply read_raw_dentry_spec|].
  intros [err dentry] b2 (Hb2 & Hc2 & Hne & Hok). cbn beta iota.
  assert (content b2 = content b) as Hc by congruence.
  destruct (Z.eqb_spec err ENOERR) as [->|Herr]; cbn [negb].
  2: { apply wp_ret. split_and!; try done. right. by right. }
  rewrite (Hok eq_refl), (slot_same b b1) by done.
  destruct (DENTRY_IS_ZERO (slot b d i)) eqn:Hz.
  { apply wp_ret. split_and!; try done. right. left. split; [done|]. exists i. split; [lia|].
    split; [done|lia]. }
  destruct (DENTRY_IS_DELETED (slot b d i)) eqn:Hdel; cbn [negb].
  2: { apply wp_ret. split_and!; try done. left. split; [done|]. exists i. split_and!; try done; lia. }
  assert (holds_dir b2 c d) as Hd2 by (by eapply holds_same).
  eapply wp_mono; [apply (IH b2 _ (i + 1)); [done|done|by apply at_slot_next; eauto|lia|lia]|].
  intros [[err dentry'] pos3] b3 (Hb3 & Hc3 & Hr). split; [done|]. split; [congruence|].
  destruct Hr as [(-> & j & Hj & Hpj & Hdj & Hu & Hin' & Hall)|[(-> & j & Hj & Hz' & Hall)|?]]; [| |by right; right].
  - left. split; [done|]. exists j. rewrite (slot_same b b2) in Hdj, Hu by done.
    split_and!; try done; [lia..|]. intros k Hk. destruct (decide (k = i)) as [->|]; [done|].
    rewrite <- (slot_same b b2) by done. apply Hall. lia.
  - right. left. split; [done|]. exists j. split; [lia|]. split.
    + intros Hjs. rewrite <- (slot_same b b2) by done. by apply Hz'.
    + intros k Hk Hks. destruct (decide (k = i)) as [->|]; [done|].
      rewrite <- (slot_same b b2) by done. apply Hall; lia.
Qed.

(** ** Searching for a free slot *)
Lemma chain_not_free f c l x : chain disk f c l -> x ∈ l -> get_tentry_type disk (f x) <> TENTRY_FREE.
Proof.
  intros Hch Hx. apply list_elem_of_lookup in Hx as [i Hi].
  pose proof (chain_drop _ _ _ _ _ _ Hch Hi) as Hd. inversion Hd; congruence.
Qed.

(** The clusters of a chain are apart from what an allocation writes. *)
Lemma chain_unclaimed b c l opts x y :
  chain disk (fat disk b) c l -> x ∈ l -> in_cluster disk x y -> ~ claim_region disk b opts y.
Proof.
  intros Hch Hx Hy [Ht|(_ & k & Hk & Hfree & Hyk)].
  - pose proof (chain_valid _ _ _ _ Hch) as Hva. rewrite Forall_forall in Hva.
    by apply (cluster_not_table disk Hwf x y (Hva x Hx) Hy).
  - rewrite (cluster_disjoint disk Hwf x k y Hy Hyk) in Hx. by apply (chain_not_free _ _ _ _ Hch Hx).
Qed.

Lemma slot_kept b b' c d d' opts i :
  holds_dir b c d -> dir_extended b b' d d' opts -> only_changes (claim_region disk b opts) b b' ->
  0 <= i < slots d -> slot b' d' i = slot b d i.
Proof.
  intros Hd He Hch Hi. pose proof (dir_room_32 _ _ _ Hd) as [Hroom _]. unfold slot. f_equal.
  destruct d as [|l], d' as [|l']; cbn in He; try done; cbn [slot_bytes]; [by rewrite He|].
  assert (l `prefix_of` l') as [r ->].
  { destruct He as [[_ ->]|(_ & ? & n & _ & _ & -> & _)]; [done|by exists [n]]. }
  apply list_fmap_ext. intros n x [-> Hn]%lookup_seq. cbn [Nat.add] in *. unfold file_at.
  destruct (file_index disk Hwf (32 * i + Z.of_nat n) l) as (Hq & Hr & _); [cbn in Hroom; lia|].
  set (q := (32 * i + Z.of_nat n) / cluster_size disk) in *.
  assert (nthZ (l ++ r) q = nthZ l q) as -> by (unfold nthZ; apply app_nth1; lia).
  apply Hch. eapply chain_unclaimed; [exact Hd|by apply nthZ_in|].
  unfold in_cluster, cluster_off. lia.
Qed.

(** The slots of a cluster just appended are empty. *)
Lemma new_slot_zero b b' l l' pos i opts :
  has_opt opts CO_ERASE_NEW = true -> extended disk b b' l l' opts -> l' <> l ->
  pos_ok disk l' pos -> pos_offset disk pos = 32 * i -> cluster_pos pos < cluster_size disk ->
  cluster_snum pos = Z.of_nat (length l) -> DENTRY_IS_ZERO (slot b' (ChainDir l') i) = true.
Proof.
  intros Her He Hne Hp Ho Hlt Hsn. destruct He as [[_ ?]|(_ & x & new & _ & _ & -> & Hap)]; [done|].
  destruct (slot_in_cluster _ _ _ Hp Ho Hlt) as [H0 H1]. destruct Hp as [Hp _].
  assert (cluster pos = new) as Hnew.
  { destruct Hp as [_ Hl]. rewrite Hsn, Nat2Z.id, lookup_app_r, Nat.sub_diag in Hl by done.
    cbn in Hl. congruence. }
  unfold DENTRY_IS_ZERO, slot, get_raw, slot_bytes. cbn [name]. unfold GET_BYTES, file_read, nthZ.
  change (0 =? file_at disk b' (l ++ [new]) (32 * i + Z.of_nat 0) = true).
  rewrite <- Ho. unfold pos_offset. rewrite <- Z.add_assoc, (file_at_pos disk Hwf) by (done || lia).
  rewrite Hnew. by rewrite (ap_erased _ _ _ _ _ _ Hap) by (done || lia).
Qed.

Definition dir_opts : Z := Z.lor CO_EXTEND CO_ERASE_NEW.
Definition available (r : fat_raw_dir_entry_t) : Prop := DENTRY_IS_ZERO r = true \/ DENTRY_IS_DELETED r = true.

(** The answer: the first slot from [i] on that is not in use, perhaps in a
    cluster appended to the directory, which happens only when it is full. *)
Definition free_entry b c d i (r : Z * fatfs_data_pos_t) b' : Prop :=
  let '(err, pos') := r in
  good b' /\ only_changes (claim_region disk b dir_opts) b b' /\
  (err = ENOERR -> exists j d', i <= j < slots d' /\ dir_extended b b' d d' dir_opts /\
     holds_dir b' c d' /\ at_slot d' pos' j /\ page_in d' pos' /\ available (slot b' d' j) /\
     (d' = d \/ slots d <= j) /\
     forall k, i <= k < j -> k < slots d /\ used (slot b d k)).

Lemma page_grown b b' c d d' pos i opts :
  holds_dir b c d -> holds_dir b' c d' -> dir_extended b b' d d' opts -> at_slot d' pos i ->
  match d, d' with
  | ChainDir l, ChainDir l' => l' <> l -> cluster_snum pos = Z.of_nat (length l)
  | _, _ => True
  end -> d' = d \/ slots d <= i.
Proof.
  intros Hd Hd' He Hp Hnew. destruct d as [|l], d' as [|l']; cbn in He; try done; [by left|].
  destruct (decide (l' = l)) as [->|Hne]; [by left|right]. specialize (Hnew Hne).
  pose proof (dir_room_32 _ _ _ Hd) as [Hroom _]. cbn in Hroom. unfold file_room in Hroom.
  destruct Hp as [[_ Hc] Ho]. unfold pos_offset in Ho. rewrite Hnew in Ho. lia.
Qed.

Lemma free_dentry_loop_spec c d fuel : forall b pos i,
  good b -> holds_dir b c d -> at_slot d pos i -> 0 <= i -> Z.max 0 (slots d - i) < Z.of_nat fuel ->
  wp (free_dentry_loop disk fuel pos) (free_entry b c d i) b.
Proof.
  induction fuel as [|fuel IH]; intros b pos i Hb Hd Hp Hi Hf; cbn [free_dentry_loop]; [lia|].
  apply wp_bind. eapply wp_mono; [by apply (dir_page_spec b c d pos i ENOSPC dir_opts)|].
  intros [err pos1] b1 (Hb1 & Hch1 & _ & Hr). cbn beta iota.
  destruct Hr as [(-> & d' & He & Hd' & Hp1 & Hlt & Hin & Hnew)|[(Herr & _)|?]]; [| |done].
  2: { rewrite (proj2 (Z.eqb_neq err ENOERR)) by done. by apply wp_ret. }
  cbn [negb Z.eqb ENOERR].
  apply wp_bind. eapply wp_mono; [by eapply read_raw_dentry_spec|].
  intros [err dentry] b2 (Hb2 & Hc2 & Hne & Hok). cbn beta iota.
  assert (only_changes (claim_region disk b dir_opts) b b2) as Hch2
    by (intros x Hx; rewrite Hc2; by apply Hch1).
  destruct (Z.eqb_spec err ENOERR) as [->|Herr]; cbn [negb]; [|by apply wp_ret].
  rewrite (Hok eq_refl).
  assert (available (slot b1 d' i) -> free_entry b c d i (ENOERR, pos1) b2) as Hfound.
  { intros Hav. split_and!; try done. intros _. exists i, d'. rewrite (slot_same b1 b2) by done.
    split_and!; try done; [|by eapply holds_same|by eapply page_grown|lia].
    destruct d, d'; cbn in He |- *; try done; [congruence|]. destruct He as [[? ->]|(Hx & x & n & ? & ? & ? & Hap)].
    - left. split; congruence.
    - right. split; [done|]. exists x, n. split_and!; try done. destruct Hap. unfold fat in *.
      rewrite <- Hc2 in *. by constructor. }
  destruct (DENTRY_IS_DELETED (slot b1 d' i)) eqn:Hdel; [apply wp_ret, Hfound; by right|].
  destruct (DENTRY_IS_ZERO (slot b1 d' i)) eqn:Hz; [apply wp_ret, Hfound; by left|].
  assert (d' = d) as ->.
  { destruct d as [|l], d' as [|l']; cbn in He; try done. f_equal.
    destruct (decide (l' = l)) as [|Hll]; [done|]. exfalso.
    destruct Hp1 as [Hp1 Ho1]. rewrite (new_slot_zero b b1 l l' pos1 i dir_opts) in Hz; try done.
    by apply Hnew. }
  assert (content b1 = content b) as Hc1.
  { destruct d as [|l]; [done|]. destruct He as [[? _]|(_ & ? & n & _ & _ & Hl & _)]; [done|].
    apply (f_equal length) in Hl. rewrite length_app in Hl. cbn in Hl. lia. }
  assert (content b2 = content b) as Hc by congruence.
  eapply wp_mono; [apply (IH b2 _ (i + 1)); [done|by eapply holds_same|by apply at_slot_next; eauto|lia|lia]|].
  intros [err pos3] b3 (Hb3 & Hch3 & Hr).
  assert (forall x, claim_region disk b2 dir_opts x -> claim_region disk b dir_opts x) as Hreg.
  { intros x [Ht|(Ho & k & Hk & Hfk & Hx)]; [by left|right]. split; [done|]. exists k.
    split_and!; try done. unfold fat in *. congruence. }
  split; [done|]. split; [intros x Hx; rewrite Hch3 by auto; by rewrite Hc|].
  intros He3. destruct (Hr He3) as (j & d' & Hj & He' & Hd3 & Hp3 & Hin3 & Hav & Hgrown & Hall).
  exists j, d'. split_and!; try done; try lia.
  - destruct d, d'; cbn in He' |- *; try done; [congruence|].
    destruct He' as [[? ->]|(Hx & x & n & ? & ? & ? & Hap)]; [left; split; congruence|].
    right. split; [done|]. exists x, n. split_and!; try done. destruct Hap. unfold fat in *.
    rewrite Hc in *. by constructor.
  - intros k Hk. destruct (decide (k = i)) as [->|].
    + split; [done|]. rewrite (slot_same b b1) in Hdel, Hz by done. by split.
    + rewrite <- (slot_same b b2) by done. apply Hall. lia.
Qed.

(** ** The turns of a search are enough *)
Lemma dir_entries_enough b c d : holds_dir b c d -> slots d + 1 < Z.of_nat (dir_entries disk).
Proof.
  intros Hd. pose proof (dir_room_32 _ _ _ Hd) as [Hroom H0]. unfold dir_entries, DENTRY_SIZE.
  destruct (wf_offsets _ _ Hwf) as (_ & _ & _ & Hcs & (m & Hm) & _). pose proof (wf_nents _ _ Hwf).
  assert (cluster_size disk / 32 = m) as -> by (rewrite Hm, Z.mul_comm; apply Z.div_mul; lia).
  destruct d as [|l]; cbn in Hroom.
  - destruct Hd as (_ & Hty & k & Hk). assert (fat_root_dir_size disk / 32 = k) as ->
      by (rewrite Hk; apply Z.div_mul; lia). lia.
  - pose proof (chain_length _ _ _ _ Hd). unfold file_room in Hroom. rewrite Hm in Hroom.
    assert (slots (ChainDir l) = Z.of_nat (length l) * m) as -> by lia.
    assert (Z.of_nat (length l) * m <= fat_tbl_nents disk * m)
      by (apply Z.mul_le_mono_nonneg_r; lia). lia.
Qed.

(** ** The place of a slot *)
Definition slot_off d i : Z :=
  match d with
  | RootDir => fat_root_dir_pos disk + 32 * i
  | ChainDir l => cluster_off disk (nthZ l (32 * i / cluster_size disk)) (32 * i mod cluster_size disk)
  end.
Definition in_slot d i (x : Z) : Prop := slot_off d i <= x < slot_off d i + 32.

(** A slot of a chain lies in one cluster. *)
Lemma chain_slot b c l i :
  holds_dir b c (ChainDir l) -> 0 <= i < slots (ChainDir l) ->
  0 <= 32 * i / cluster_size disk < Z.of_nat (length l) /\ 0 <= 32 * i mod cluster_size disk /\
  32 * i mod cluster_size disk + 32 <= cluster_size disk /\
  32 * i = cluster_size disk * (32 * i / cluster_size disk) + 32 * i mod cluster_size disk.
Proof.
  intros Hd Hi. pose proof (dir_room_32 _ _ _ Hd) as [Hroom _]. cbn in Hroom.
  destruct (wf_offsets _ _ Hwf) as (_ & _ & _ & Hcs & (m & Hm) & _).
  destruct (file_index disk Hwf (32 * i) l) as (Hq & Hr & Heq); [lia|].
  pose proof (Z.div_mod (32 * i) (cluster_size disk)).
  set (q := 32 * i / cluster_size disk) in *. set (r := 32 * i mod cluster_size disk) in *.
  split_and!; lia.
Qed.

Lemma slot_bytes_off b c d i :
  holds_dir b c d -> 0 <= i < slots d -> slot_bytes b d i = img_read (content b) (slot_off d i) 32.
Proof.
  intros Hd Hi. destruct d as [|l]; [done|]. cbn [slot_bytes slot_off].
  destruct (chain_slot _ _ _ _ Hd Hi) as (Hq & Hr0 & Hr1 & Heq). pose proof (cs_pos disk Hwf).
  set (q := 32 * i / cluster_size disk) in *. set (r := 32 * i mod cluster_size disk) in *.
  apply list_fmap_ext. intros n x [-> Hn]%lookup_seq. cbn [Nat.add]. unfold file_at.
  replace (32 * i + Z.of_nat n) with (q * cluster_size disk + (r + Z.of_nat n)) by lia.
  rewrite Z.div_add_l, Z.div_small, Z.add_0_r by lia.
  rewrite Z.add_comm, Z.mod_add, Z.mod_small by lia. unfold cluster_off. f_equal. lia.
Qed.

Lemma at_slot_off b c l pos i :
  holds_dir b c (ChainDir l) -> at_slot (ChainDir l) pos i -> cluster_pos pos < cluster_size disk ->
  cluster_off disk (cluster pos) (cluster_pos pos) = slot_off (ChainDir l) i.
Proof.
  intros Hd [Hp Ho] Hlt. destruct (slot_in_cluster _ _ _ Hp Ho Hlt). pose proof (cs_pos disk Hwf).
  destruct Hp as [[Hs Hl] _]. cbn [slot_off]. rewrite <- Ho. unfold pos_offset.
  rewrite Z.div_add_l, Z.div_small, Z.add_0_r by lia.
  rewrite Z.add_comm, Z.mod_add, Z.mod_small by lia. unfold nthZ. by rewrite nth_lookup, Hl.
Qed.

Lemma slot_in_chain b c l i x :
  holds_dir b c (ChainDir l) -> 0 <= i < slots (ChainDir l) -> in_slot (ChainDir l) i x ->
  exists k, k ∈ l /\ in_cluster disk k x /\ l !! Z.to_nat (32 * i / cluster_size disk) = Some k.
Proof.
  intros Hd Hi Hx. destruct (chain_slot _ _ _ _ Hd Hi) as (Hq & Hr0 & Hr1 & _).
  exists (nthZ l (32 * i / cluster_size disk)). split; [by apply nthZ_in|].
  unfold in_slot, slot_off, in_cluster, cluster_off in *. split; [lia|].
  unfold nthZ. rewrite nth_lookup.
  destruct (lookup_lt_is_Some_2 l (Z.to_nat (32 * i / cluster_size disk))) as [y Hy]; [lia|].
  by rewrite Hy.
Qed.

Lemma slot_not_table b c d i x :
  holds_dir b c d -> 0 <= i < slots d -> in_slot d i x -> ~ in_tables disk x.
Proof.
  intros Hd Hi Hx. pose proof (dir_room_32 _ _ _ Hd) as [Hroom _]. destruct d as [|l].
  - destruct Hd as (_ & Hty & _). cbn in Hroom.
    destruct (root_off_bounds i Hty) as (_ & _ & _ & H); [lia..|].
    unfold in_slot, in_tables in *. cbn in Hx. lia.
  - destruct (slot_in_chain _ _ _ _ _ Hd Hi Hx) as (k & Hk & Hkx & _).
    pose proof (chain_valid _ _ _ _ Hd) as Hva. rewrite Forall_forall in Hva.
    apply (cluster_not_table disk Hwf k); [by apply Hva|done].
Qed.

Lemma slots_disjoint b c d i j x :
  holds_dir b c d -> 0 <= i < slots d -> 0 <= j < slots d -> in_slot d i x -> in_slot d j x -> i = j.
Proof.
  intros Hd Hi Hj Hx Hy. destruct d as [|l]; [unfold in_slot in *; cbn in *; lia|].
  destruct (slot_in_chain _ _ _ _ _ Hd Hi Hx) as (k & _ & Hk & Hli).
  destruct (slot_in_chain _ _ _ _ _ Hd Hj Hy) as (k' & _ & Hk' & Hlj).
  assert (k' = k) as -> by (by eapply (cluster_disjoint disk Hwf)).
  pose proof (NoDup_lookup _ _ _ _ (chain_nodup _ _ _ _ Hd) Hli Hlj) as Hq.
  destruct (chain_slot _ _ _ _ Hd Hi) as (Hqi & Hri & Hei & Hdi).
  destruct (chain_slot _ _ _ _ Hd Hj) as (Hqj & Hrj & Hej & Hdj).
  assert (32 * i / cluster_size disk = 32 * j / cluster_size disk) as Hqq by lia.
  unfold in_slot, slot_off, cluster_off in *. rewrite Hqq in *.
  destruct (wf_offsets _ _ Hwf) as (_ & _ & _ & Hcs & (m & Hm) & _). nia.
Qed.

(** Only the bytes of slot [i] may differ: the tables, the directory and its
    other slots are as they were. *)
Lemma slot_change b b' c d i :
  holds_dir b c d -> 0 <= i < slots d -> only_changes (in_slot d i) b b' ->
  (forall k, entry_index disk k -> fat disk b' k = fat disk b k) /\ holds_dir b' c d /\
  forall j, 0 <= j < slots d -> j <> i -> slot b' d j = slot b d j.
Proof.
  intros Hd Hi Hch.
  assert (forall k, entry_index disk k -> fat disk b' k = fat disk b k) as Hfat.
  { intros k Hk. eapply (fat_outside disk Hwf); [done| |done]. intros x. by eapply slot_not_table. }
  assert (holds_dir b' c d) as Hd'.
  { destruct d as [|l]; [done|]. pose proof (chain_valid _ _ _ _ Hd) as Hva.
    rewrite Forall_forall in Hva. eapply chain_ext; [exact Hd|]. intros x Hx.
    by apply Hfat, valid_index, Hva. }
  split; [done|]. split; [done|]. intros j Hj Hne. unfold slot. f_equal.
  rewrite !(slot_bytes_off _ c) by done. apply list_fmap_ext. intros n x [-> Hn]%lookup_seq.
  apply Hch. intros Hx. apply Hne. eapply slots_disjoint; [exact Hd|done|done| |exact Hx].
  unfold in_slot. lia.
Qed.

(** ** Writing a slot *)
Lemma write_raw_dentry_spec b c d pos i r :
  good b -> holds_dir b c d -> at_slot d pos i -> 0 <= i < slots d -> page_in d pos -> raw_ok r ->
  wp (write_raw_dentry disk pos r) (fun err b' =>
    good b' /\ only_changes (in_slot d i) b b' /\ (err = ENOERR -> slot b' d i = r)) b.
Proof.
  intros Hb Hd Hp Hi Hin Hr. pose proof (dir_room_32 _ _ _ Hd) as [Hroom _].
  pose proof (at_slot_cluster _ _ _ _ _ Hd Hp Hi) as Hcl.
  pose proof (set_raw_bytes r Hr) as Hbytes. pose proof (set_raw_length r Hr) as Hlen.
  unfold write_raw_dentry. apply wp_bind.
  apply (wp_mono _ (fun '(err, n) b' => good b' /\ transferred err n 32 /\
    content b' = img_write (content b) (slot_off d i) (take (Z.to_nat n) (set_raw r)))).
  - destruct d as [|l]; cbn in Hp, Hroom.
    + destruct Hcl as [-> ->]. cbn [Z.eqb]. destruct Hd as (_ & Hty & _).
      destruct (root_off_bounds i Hty) as (H1 & H2 & H3 & _); [lia..|].
      change (slot_off RootDir i) with (fat_root_dir_pos disk + 32 * i).
      apply (disk_write_spec b); [done|done|unfold DENTRY_SIZE; lia..|unfold fits; lia].
    + rewrite (proj2 (Z.eqb_neq 0 (cluster pos))) by congruence.
      destruct (slot_in_cluster l pos i (proj1 Hp) (proj2 Hp) Hin) as [Hc0 Hc1].
      rewrite <- (at_slot_off _ _ _ _ _ Hd Hp Hin).
      apply (disk_cluster_write_spec disk b); [done|done|eapply pos_in_valid; [exact Hd|apply Hp]|
        lia|done|unfold DENTRY_SIZE; lia..].
  - intros [err n] b' (Hb' & Ht & Hc). apply wp_ret. split; [done|]. split.
    { intros x Hx. rewrite Hc. apply img_write_out. rewrite length_take, Hlen. unfold in_slot in Hx.
      lia. }
    intros ->. destruct Ht as [[_ ->]|[? _]]; [|done]. rewrite take_ge in Hc by (rewrite Hlen; lia).
    assert (holds_dir b' c d) as Hd'.
    { eapply slot_change; [exact Hd|exact Hi|]. intros x Hx. rewrite Hc. apply img_write_out.
      rewrite Hlen. exact Hx. }
    unfold slot. rewrite (slot_bytes_off _ c), Hc by done.
    rewrite <- (get_set_raw r Hr). f_equal. rewrite get_set_raw by done.
    apply list_eq. intros k. unfold img_read. rewrite list_lookup_fmap.
    destruct (decide (k < 32)%nat).
    + rewrite lookup_seq_lt by done. cbn. rewrite img_write_in by (rewrite Hlen; lia).
      unfold nthZ. rewrite Nat2Z.id, nth_lookup.
      destruct (lookup_lt_is_Some_2 (set_raw r) k) as [y Hy]; [lia|]. by rewrite Hy.
    + rewrite lookup_seq_ge, lookup_ge_None_2 by lia. done.
Qed.
End Spec.
