(* ===== verification/FatDirOps.v ===== *)
(** * FAT file system: files in directories, what the operations promise

    Reading, creating, deleting and truncating a file, in terms of the slots of
    its directory and of the chains of the disk. *)
From S2P Require Import Prelude Blib BlibContract FatDate FatStore FatTable FatTableSpec FatChain.
From S2P Require Import FatFile FatDentry FatDir FatDirSpec.

Lemma raw_cluster d :
  fits 32 (d_cluster d) ->
  Z.lor (cluster_LO (dentry_to_raw d)) (Z.shiftl (cluster_HI (dentry_to_raw d)) 16) = d_cluster d.
Proof.
  intros Hcl. unfold dentry_to_raw. destruct (set_raw_dentry_filename _ _).
  destruct (date_unix2dos (ctime d)), (date_unix2dos (atime d)), (date_unix2dos (mtime d)). cbn.
  unfold fits in Hcl. rewrite Z.lor_comm. change 0xFFFF with (Z.ones 16).
  rewrite Z.land_ones by lia. rewrite lor_shiftl_add by (lia || apply Z.mod_pos_bound; lia).
  rewrite Z.shiftr_div_pow2, uwrap_small by (Z.to_euclidean_division_equations; lia).
  pose proof (Z.div_mod (d_cluster d) (2 ^ 16)). lia.
Qed.

(** What a directory lists for a stored entry. *)
Definition listed (r : fat_raw_dir_entry_t) (d : fatfs_dir_entry_t) : Prop :=
  used r /\ raw_to_dentry r (disk_pos d) (parent_cluster d) = stored d.

Lemma raw_name_eq d : name (dentry_to_raw d) = fst (set_raw_dentry_filename (filename d) 0).
Proof.
  unfold dentry_to_raw. destruct (set_raw_dentry_filename _ _).
  by destruct (date_unix2dos (ctime d)), (date_unix2dos (atime d)), (date_unix2dos (mtime d)).
Qed.

Lemma dentry_to_raw_used d : dentry_ok d -> used (dentry_to_raw d).
Proof.
  intros Hd. unfold used, DENTRY_IS_ZERO, DENTRY_IS_DELETED. rewrite raw_name_eq.
  destruct (set_raw_dentry_filename (filename d) 0) as [rn rx] eqn:Hset. cbn [fst].
  apply set_filename_good in Hset as (_ & _ & _ & _ & Hx & H0 & _); [|by apply de_name].
  pose proof (de_first d Hd) as HE. rewrite !(proj2 (Z.eqb_neq _ _)); [done| |congruence].
  rewrite Hx. unfold toupper.
  destruct (Z.leb_spec 97 (char_at (filename d))), (Z.leb_spec (char_at (filename d)) 122);
    cbn [andb]; lia.
Qed.

Section Ops.
Context {B : Type} {lib : BlockLibrary B} {log2 : Z} {store : BlockStore lib log2}.
Context (disk : fatfs_disk_t) (Hwf : disk_wf log2 disk).
Implicit Types (b : B) (l : list Z) (pos : fatfs_data_pos_t) (d : dir) (i j k : Z).

(** The first cluster of a directory, corrected for the root of FAT32. *)
Definition start_cluster (dir : fatfs_dir_entry_t) : Z :=
  cluster (correct_root disk (fatfs_initpos dir)).

Lemma start_slot b dir d :
  holds_dir disk b (start_cluster dir) d -> at_slot disk d (correct_root disk (fatfs_initpos dir)) 0.
Proof.
  pose proof (cs_pos disk Hwf). intros Hd. unfold start_cluster in Hd.
  assert (cluster_snum (correct_root disk (fatfs_initpos dir)) = 0 /\
    cluster_pos (correct_root disk (fatfs_initpos dir)) = 0) as [Hs Hp].
  { unfold correct_root. case_decide; [case_match|]; done. }
  destruct d as [|l]; cbn in *.
  - split; [by destruct Hd|lia].
  - destruct (chain_cons _ _ _ _ Hd) as [l' ->]. unfold pos_ok, pos_in, pos_offset.
    rewrite Hs, Hp. cbn. split_and!; try done; lia.
Qed.

(** ** Reading *)

(** The next entry in use, and the position after it. *)
Lemma fatfs_read_dir_entry_spec b c d dir pos i :
  good b -> holds_dir disk b c d -> at_slot disk d (correct_root disk pos) i -> 0 <= i ->
  wp (fatfs_read_dir_entry disk dir pos) (fun '(err, pos', dentry) b' =>
    good b' /\ content b' = content b /\
    ((err = ENOERR /\ exists j p, i <= j < slots disk d /\ at_slot disk d p j /\
        used (slot disk b d j) /\ dentry = Some (raw_to_dentry (slot disk b d j) p (d_cluster dir)) /\
        at_slot disk d pos' (j + 1) /\ forall k, i <= k < j -> deleted (slot disk b d k)) \/
     (err = EEOF /\ exists j, i <= j /\ (j < slots disk d -> DENTRY_IS_ZERO (slot disk b d j) = true) /\
        forall k, i <= k < j -> k < slots disk d -> deleted (slot disk b d k)) \/
     device_error err)) b.
Proof.
  intros Hb Hd Hp Hi. pose proof (dir_entries_enough disk Hwf _ _ _ Hd).
  pose proof (dir_room_32 disk Hwf _ _ _ Hd) as [_ ?].
  apply wp_bind. eapply wp_mono; [eapply (next_dentry_loop_spec disk Hwf c d); [done|done|done|done|lia]|].
  intros [[err dentry] pos1] b1 (Hb1 & Hc1 & Hr). cbn beta iota.
  destruct Hr as [(-> & j & Hj & Hpj & -> & Hu & Hin & Hall)|[(-> & Hr)|He]].
  - cbn [negb Z.eqb ENOERR]. apply wp_ret. split; [done|]. split; [done|]. left. split; [done|].
    exists j, pos1. split_and!; try done; try lia.
    apply (at_slot_next disk Hwf); eauto; lia.
  - apply wp_ret. split_and!; try done. right. by left.
  - rewrite (proj2 (Z.eqb_neq err ENOERR)) by apply He. apply wp_ret. split_and!; try done.
    by right; right.
Qed.

Lemma at_slot_correct b c d pos i :
  holds_dir disk b c d -> at_slot disk d pos i -> correct_root disk pos = pos.
Proof.
  intros Hd Hp. unfold correct_root. case_decide as Hty; [|done].
  destruct d as [|l]; [destruct Hd as (_ & ? & _); done|].
  pose proof (pos_in_valid disk _ _ _ _ Hd (proj1 (proj1 Hp))) as Hv.
  rewrite (proj2 (Z.eqb_neq 0 (cluster pos))) by (unfold valid_cluster in Hv; lia). done.
Qed.

(** ** Creating *)

(** A file whose clusters are not among those of the directory. *)
Definition apart d l : Prop := match d with RootDir => True | ChainDir ld => forall k, k ∈ ld -> k ∉ l end.

(** The chain and the bytes of a file are as they were. *)
Record kept b b' c l : Prop := {
  kept_chain : chain disk (fat disk b') c l;
  kept_bytes k x : k ∈ l -> in_cluster disk k x -> content b' x = content b x;
}.

Lemma kept_extend b b' c d d' f l :
  holds_dir disk b c d -> dir_extended disk b b' d d' dir_opts ->
  only_changes (claim_region disk b dir_opts) b b' -> apart d l -> chain disk (fat disk b) f l ->
  kept b b' f l /\ apart d' l.
Proof.
  intros Hd He Hch Hap Hl.
  assert (forall k x, k ∈ l -> in_cluster disk k x -> content b' x = content b x) as Hbytes.
  { intros k x Hk Hx. apply Hch. by eapply (chain_unclaimed disk Hwf). }
  destruct d as [|ld], d' as [|ld']; cbn in He; try done.
  - split; [|done]. constructor; [|done]. eapply chain_ext; [done|]. intros y _. unfold fat.
    by rewrite He.
  - destruct He as [[Hc ->]|(_ & x & new & Hlast & Hne & -> & Ha)].
    + split; [|done]. constructor; [|done]. eapply chain_ext; [done|]. intros y _. unfold fat.
      by rewrite Hc.
    + split; [constructor; [|done]|].
      * eapply (appended_other disk); [done| |done]. apply Hap. by apply last_Some_elem_of.
      * intros k [Hk| ->%list_elem_of_singleton]%elem_of_app; [by apply Hap|].
        intros Hk. by apply (chain_not_free disk _ _ _ _ Hl Hk), (ap_free _ _ _ _ _ _ Ha).
Qed.

Lemma kept_write b b' c d i f l :
  holds_dir disk b c d -> 0 <= i < slots disk d -> only_changes (in_slot disk d i) b b' ->
  apart d l -> chain disk (fat disk b) f l -> kept b b' f l.
Proof.
  intros Hd Hi Hch Hap Hl. destruct (slot_change disk Hwf b b' c d i Hd Hi Hch) as (Hfat & _ & _).
  pose proof (chain_valid _ _ _ _ Hl) as Hva. rewrite Forall_forall in Hva. constructor.
  - eapply chain_ext; [done|]. intros x Hx. by apply Hfat, valid_index, Hva.
  - intros k x Hk Hx. apply Hch. intros Hs. destruct d as [|ld].
    + destruct Hd as (_ & Hty & m & Hm). destruct (wf_root _ _ Hwf Hty) as (_ & _ & Hr).
      pose proof (Hva k Hk) as Hv. destruct (wf_offsets _ _ Hwf) as (_ & _ & _ & Hcs & _).
      unfold slots, dir_room in Hi. rewrite Hm, Z.div_mul in Hi by lia.
      unfold in_slot, slot_off, in_cluster, cluster_off, valid_cluster in *. nia.
    + destruct (slot_in_chain disk Hwf _ _ _ _ _ Hd Hi Hs) as (k' & Hk' & Hx' & _).
      rewrite (cluster_disjoint disk Hwf k' k x Hx' Hx) in Hk'. by apply (Hap k Hk').
Qed.

Lemma kept_trans b1 b2 b3 c l : kept b1 b2 c l -> kept b2 b3 c l -> kept b1 b3 c l.
Proof. intros [_ H1] [H2 H3]. constructor; [done|]. intros k x Hk Hx. rewrite (H3 k x), (H1 k x) by done. done. Qed.

(** A slot of an erased cluster. *)
Definition empty_raw : fat_raw_dir_entry_t := get_raw (repeat 0 32).

(** The directory has the clusters it had, or it was full and has one more, which
    was free; the slots of that cluster are empty but for slot [j], its first. *)
Record room_made b b' d d' j : Prop := {
  rm_room : d' = d \/ j = slots disk d /\ exists l new,
    d = ChainDir l /\ d' = ChainDir (l ++ [new]) /\ valid_cluster disk new /\
    get_tentry_type disk (fat disk b new) = TENTRY_FREE;
  rm_empty k : slots disk d <= k < slots disk d' -> k <> j -> slot disk b' d' k = empty_raw;
}.

(** The directory lists a new entry in a slot that was available; the other
    slots, and every other file of the disk, are as they were. *)
Record entered b b' c d d' j (dentry : fatfs_dir_entry_t) : Prop := {
  en_slot : 0 <= j < slots disk d';
  en_dir : holds_dir disk b' c d';
  en_pos : at_slot disk d' (disk_pos dentry) j;
  en_first k : 0 <= k < j -> k < slots disk d /\ used (slot disk b d k);
  en_free : j < slots disk d -> available (slot disk b d j);
  en_entry : slot disk b' d' j = dentry_to_raw dentry;
  en_room : room_made b b' d d' j;
  en_same k : 0 <= k < slots disk d -> k <> j -> slot disk b' d' k = slot disk b d k;
  en_kept f l : chain disk (fat disk b) f l -> apart d l -> kept b b' f l;
}.

Lemma slots_extended b b' c d d' opts :
  holds_dir disk b c d -> holds_dir disk b' c d' -> dir_extended disk b b' d d' opts ->
  slots disk d <= slots disk d'.
Proof.
  intros Hd Hd' He. pose proof (dir_room_32 disk Hwf _ _ _ Hd) as [H1 _].
  pose proof (dir_room_32 disk Hwf _ _ _ Hd') as [H2 _].
  destruct d as [|l], d' as [|l']; cbn in He; try done. cbn in H1, H2.
  destruct He as [[_ ->]|(_ & x & n & _ & _ & -> & _)]; [lia|].
  unfold file_room in *. rewrite length_app in H2. cbn in H2. pose proof (cs_pos disk Hwf). nia.
Qed.

(** The slots of the cluster appended to a directory are empty. *)
Lemma new_slots_empty b b' c d d' k :
  holds_dir disk b c d -> holds_dir disk b' c d' -> dir_extended disk b b' d d' dir_opts ->
  slots disk d <= k < slots disk d' -> slot disk b' d' k = empty_raw.
Proof.
  intros Hd Hd' He Hk. pose proof (dir_room_32 disk Hwf _ _ _ Hd) as [H1 H0].
  pose proof (dir_room_32 disk Hwf _ _ _ Hd') as [H2 _].
  assert (0 <= k < slots disk d') as Hk' by lia.
  unfold slot, empty_raw. f_equal. rewrite (slot_bytes_off disk Hwf _ c) by done.
  destruct d as [|l], d' as [|l']; cbn in He; try done; [lia|].
  destruct He as [[_ ->]|(_ & x & n & _ & _ & -> & Ha)]; [lia|].
  destruct (chain_slot disk Hwf _ _ _ _ Hd' Hk') as (Hq & Hr0 & Hr1 & Heq).
  rewrite length_app in Hq. cbn in H1, Hq. unfold file_room in H1. pose proof (cs_pos disk Hwf).
  assert (32 * k / cluster_size disk = Z.of_nat (length l)) as Hqk by nia.
  cbn [slot_off]. rewrite Hqk. unfold nthZ at 1. rewrite Nat2Z.id, app_nth2, Nat.sub_diag by lia.
  cbn [nth]. apply (nth_ext _ _ 0 0).
  { unfold img_read. by rewrite length_map, length_seq. }
  intros i. unfold img_read. rewrite length_map, length_seq. intros Hi.
  rewrite nth_repeat. rewrite nth_lookup, list_lookup_fmap, lookup_seq_lt by lia. cbn.
  pose proof (ap_erased _ _ _ _ _ _ Ha (32 * k mod cluster_size disk + Z.of_nat i) eq_refl) as Hz.
  unfold cluster_off in *. rewrite Z.add_assoc in Hz. apply Hz. lia.
Qed.

Lemma room_extended b b1 b' c d d' j :
  holds_dir disk b c d -> holds_dir disk b1 c d' -> dir_extended disk b b1 d d' dir_opts ->
  0 <= j -> (d' = d \/ slots disk d <= j) -> (forall k, 0 <= k < j -> k < slots disk d) ->
  (forall k, 0 <= k < slots disk d' -> k <> j -> slot disk b' d' k = slot disk b1 d' k) ->
  room_made b b' d d' j.
Proof.
  intros Hd Hd' He Hj Hg Hall Hsame. pose proof (dir_room_32 disk Hwf _ _ _ Hd) as [_ H0].
  constructor.
  - destruct Hg as [->|Hg]; [by left|].
    destruct d as [|l], d' as [|l']; cbn in He; try done; [by left|].
    destruct He as [[_ ->]|(_ & x & n & _ & _ & -> & Ha)]; [by left|right].
    split; [destruct (decide (j = 0)); [lia|]; specialize (Hall (j - 1)); lia|].
    exists l, n. destruct Ha. done.
  - intros k Hk Hne. rewrite Hsame by lia. by apply (new_slots_empty b b1 c d d').
Qed.

(** Finding a slot and filling it. *)
Lemma enter_spec b c d pos (init : fatfs_data_pos_t -> M B fatfs_dir_entry_t) mk :
  good b -> holds_dir disk b c d -> at_slot disk d (correct_root disk pos) 0 ->
  (forall p s, init p s = Some (mk p, s)) ->
  (forall p, disk_pos (mk p) = p /\ dentry_ok (mk p)) ->
  wp ('(err, pos) ← get_free_raw_dentry disk pos;
      if negb (err =? ENOERR) then mret (err, None)
      else
        dentry ← init pos;
        err ← fatfs_write_dir_entry disk dentry;
        mret (err, Some dentry))
    (fun '(err, r) b' => good b' /\ (err = ENOERR -> exists p j d',
       r = Some (mk p) /\ entered b b' c d d' j (mk p))) b.
Proof.
  intros Hb Hd Hp Hinit Hmk. pose proof (dir_entries_enough disk Hwf _ _ _ Hd).
  pose proof (dir_room_32 disk Hwf _ _ _ Hd) as [_ ?]. unfold get_free_raw_dentry.
  apply wp_bind, wp_bind.
  eapply wp_mono; [eapply (free_dentry_loop_spec disk Hwf c d); [done|done|done|done|lia]|].
  intros [err pos1] b1 (Hb1 & Hch1 & Hr). cbn beta iota. apply wp_ret.
  destruct (Z.eqb_spec err ENOERR) as [->|Herr]; cbn [negb]; [|by apply wp_ret].
  destruct (Hr eq_refl) as (j & d' & Hj & He & Hd' & Hpj & Hin & Hav & Hgrown & Hall).
  destruct (Hmk pos1) as [Hpos Hok]. apply wp_bind.
  exists (mk pos1), b1. split; [apply Hinit|]. apply wp_bind. unfold fatfs_write_dir_entry. rewrite Hpos.
  eapply wp_mono; [apply (write_raw_dentry_spec disk Hwf b1 c d' pos1 j);
    [done..|by apply dentry_to_raw_ok]|].
  intros err b2 (Hb2 & Hch2 & Hslot). apply wp_ret. split; [done|]. intros ->.
  destruct (slot_change disk Hwf b1 b2 c d' j Hd' Hj Hch2) as (_ & Hd2 & Hsame).
  exists pos1, j, d'. split; [done|].
  pose proof (slots_extended _ _ _ _ _ _ Hd Hd' He). constructor; try done.
  - by rewrite Hpos.
  - intros Hjs. rewrite <- (slot_kept disk Hwf b b1 c d d' dir_opts j) by (done || lia). done.
  - by apply Hslot.
  - apply (room_extended b b1 b2 c); try done; [lia|]. intros k Hk. by apply Hall.
  - intros k Hk Hne. rewrite Hsame by lia. by apply (slot_kept disk Hwf b b1 c d d' dir_opts).
  - intros f l Hl Hap. destruct (kept_extend b b1 c d d' f l Hd He Hch1 Hap Hl) as [Hk1 Hap'].
    eapply kept_trans; [done|]. eapply (kept_write b1 b2 c d' j); try done. by destruct Hk1.
Qed.

(** The entry [init_dir_entry] makes. *)
Definition new_entry (timestamp : Z) (n : list byte) (m parent first : Z) pos : fatfs_dir_entry_t :=
  mk_dentry n m 0 timestamp timestamp timestamp 0 first parent pos.

Lemma init_dir_entry_eq timestamp n namelen m parent first pos (s : B) :
  0 < namelen <= 12 ->
  init_dir_entry timestamp n namelen m parent first pos s
  = Some (new_entry timestamp (take (Z.to_nat namelen) n) m parent first pos, s).
Proof.
  intros Hn. unfold init_dir_entry, copy_filename.
  rewrite (proj2 (Z.eqb_neq 0 namelen)), (proj2 (Z.leb_le 0 namelen)), (proj2 (Z.leb_le namelen 12))
    by lia. done.
Qed.

Lemma create_file_spec timestamp b d dir n namelen :
  good b -> holds_dir disk b (start_cluster dir) d -> 0 < namelen <= 12 ->
  good_name (take (Z.to_nat namelen) n) -> char_at (take (Z.to_nat namelen) n) <> 0xE5 ->
  0 <= timestamp < 2 ^ 31 ->
  wp (fatfs_create_file timestamp disk dir n namelen) (fun '(err, r) b' =>
    good b' /\ (err = ENOERR -> exists p j d',
      r = Some (new_entry timestamp (take (Z.to_nat namelen) n) stat_mode_REG (d_cluster dir) 0 p) /\
      entered b b' (start_cluster dir) d d' j
        (new_entry timestamp (take (Z.to_nat namelen) n) stat_mode_REG (d_cluster dir) 0 p))) b.
Proof.
  intros Hb Hd Hlen Hn HE Ht. unfold fatfs_create_file.
  apply (enter_spec b (start_cluster dir) d (fatfs_initpos dir)
    (init_dir_entry timestamp n namelen stat_mode_REG (d_cluster dir) 0)); [done|done| | |].
  - by apply (start_slot b).
  - intros p s. by apply init_dir_entry_eq.
  - intros p. split; [done|]. constructor; cbn; try done; try (by right); unfold fits, is_byte; lia.
Qed.

(** ** Deleting and truncating *)
Lemma set_deleted_ok r : raw_ok r -> raw_ok (raw_dentry_set_deleted r).
Proof.
  intros [[Hn Hnb] He Hb Hw Hs]. destruct r as [nm]. cbn in *. constructor; cbn; try done.
  destruct nm as [|c nm]; [done|]. cbn in *. apply Forall_cons in Hnb as [_ Hnb].
  split; [done|]. constructor; [unfold is_byte; lia|done].
Qed.

(** The entries of the chain are free; a directory apart from it is as it was. *)
Lemma freed_dir b b' c d l :
  holds_dir disk b c d -> apart d l -> only_changes (in_tables disk) b b' ->
  (forall n, entry_index disk n -> n ∉ l -> fat disk b' n = fat disk b n) ->
  holds_dir disk b' c d /\ forall k, 0 <= k < slots disk d -> slot disk b' d k = slot disk b d k.
Proof.
  intros Hd Hap Hch Hf. assert (holds_dir disk b' c d) as Hd'.
  { destruct d as [|ld]; [done|]. pose proof (chain_valid _ _ _ _ Hd) as Hva.
    rewrite Forall_forall in Hva. eapply chain_ext; [exact Hd|]. intros x Hx.
    apply Hf; [by apply valid_index, Hva|by apply Hap]. }
  split; [done|]. intros k Hk. unfold slot. f_equal. rewrite !(slot_bytes_off disk Hwf _ c) by done.
  apply list_fmap_ext. intros n x [-> Hn]%lookup_seq. apply Hch.
  eapply (slot_not_table disk Hwf); [exact Hd|exact Hk|]. unfold in_slot. lia.
Qed.

(** Releasing the clusters [l] of a file whose entry is in slot [i], then writing
    that entry: what [fatfs_delete_file] and [fatfs_trunc_file] do. *)
Record released b b' c d i l r : Prop := {
  re_dir : holds_dir disk b' c d;
  re_entry : slot disk b' d i = r;
  re_same k : 0 <= k < slots disk d -> k <> i -> slot disk b' d k = slot disk b d k;
  re_fat n : entry_index disk n -> fat disk b' n = if decide (n ∈ l) then 0 else fat disk b n;
}.

Lemma release_then_write b b1 c d i l pos r :
  good b1 -> holds_dir disk b c d -> apart d l -> only_changes (in_tables disk) b b1 ->
  (forall n, entry_index disk n -> fat disk b1 n = if decide (n ∈ l) then 0 else fat disk b n) ->
  at_slot disk d pos i -> 0 <= i < slots disk d -> page_in disk d pos -> raw_ok r ->
  wp (write_raw_dentry disk pos r) (fun err b' =>
    good b' /\ (err = ENOERR -> released b b' c d i l r)) b1.
Proof.
  intros Hb1 Hd Hap Hch Hf Hp Hi Hin Hr.
  destruct (freed_dir b b1 c d l Hd Hap Hch) as [Hd1 Hs1].
  { intros n Hn Hl. rewrite Hf by done. by rewrite decide_False. }
  eapply wp_mono; [by eapply (write_raw_dentry_spec disk Hwf b1 c d pos i)|].
  intros err b2 (Hb2 & Hch2 & Hslot). split; [done|]. intros ->.
  destruct (slot_change disk Hwf b1 b2 c d i Hd1 Hi Hch2) as (Hf2 & Hd2 & Hs2).
  constructor; [done|by apply Hslot| |].
  - intros k Hk Hne. by rewrite Hs2, Hs1.
  - intros n Hn. by rewrite Hf2, Hf.
Qed.

Lemma good_name_first n : good_name n -> char_at n <> 0.
Proof.
  intros Hn. destruct (set_raw_dentry_filename n 0) as [rn rx] eqn:Hset.
  apply set_filename_good in Hset as (_ & _ & _ & _ & Hx & H0 & _); [|done].
  intros Hc. rewrite Hx, Hc in H0. by vm_compute in H0.
Qed.

Lemma not_root_dir fd : dentry_ok fd -> is_root_dir_entry fd = false.
Proof.
  intros Hd. unfold is_root_dir_entry. pose proof (good_name_first _ (de_name fd Hd)).
  by rewrite (proj2 (Z.eqb_neq 0 (char_at (filename fd)))) by congruence.
Qed.

Lemma regular_not_dir fd : mode fd = stat_mode_REG -> DENTRY_IS_DIR (dentry_to_raw fd) = false.
Proof.
  intros Hm. unfold DENTRY_IS_DIR, dentry_to_raw. destruct (set_raw_dentry_filename _ _).
  destruct (date_unix2dos (ctime fd)), (date_unix2dos (atime fd)), (date_unix2dos (mtime fd)).
  cbn [attr]. by rewrite Hm.
Qed.

Lemma delete_file_spec b b1 c d i l file :
  good b -> holds_dir disk b c d -> at_slot disk d (disk_pos file) i -> 0 <= i < slots disk d ->
  page_in disk d (disk_pos file) -> dentry_ok file -> mode file = stat_mode_REG ->
  chain disk (fat disk b) (d_cluster file) l -> apart d l ->
  free_cluster_chain disk (d_cluster file) b = Some (ENOERR, b1) ->
  wp (fatfs_delete_file disk file) (fun err b' =>
    good b' /\ (err = ENOERR ->
      released b b' c d i l (raw_dentry_set_deleted (dentry_to_raw file)))) b.
Proof.
  intros Hb Hd Hp Hi Hin Hok Hm Hch Hap Hfree. unfold fatfs_delete_file.
  rewrite not_root_dir, regular_not_dir by done. cbv zeta. apply wp_bind, wp_ret.
  change (0 >? 2) with false. cbn iota. rewrite raw_cluster by apply Hok.
  apply wp_bind. exists ENOERR, b1. split; [done|].
  destruct (free_cluster_chain_spec disk Hwf b (d_cluster file) l Hb Hch)
    as (err1 & b1' & Hrun & Hb1 & Hch1 & Hf1). rewrite Hfree in Hrun. injection Hrun as <- <-.
  eapply (release_then_write b b1 c d i l); eauto. by apply set_deleted_ok, dentry_to_raw_ok.
Qed.

(** The file [fatfs_trunc_file] leaves. *)
Definition truncated (timestamp : Z) (file : fatfs_dir_entry_t) : fatfs_dir_entry_t :=
  set_amtime timestamp (set_size 0 (set_d_cluster 0 file)).

Lemma trunc_file_spec timestamp b c d i l file :
  good b -> holds_dir disk b c d -> at_slot disk d (disk_pos file) i -> 0 <= i < slots disk d ->
  page_in disk d (disk_pos file) -> dentry_ok file -> mode file = stat_mode_REG ->
  size file <> 0 -> 0 <= timestamp < 2 ^ 31 ->
  chain disk (fat disk b) (d_cluster file) l -> apart d l ->
  wp (fatfs_trunc_file timestamp disk file) (fun '(err, file') b' =>
    good b' /\ (err = ENOERR -> file' = truncated timestamp file /\
      released b b' c d i l (dentry_to_raw file'))) b.
Proof.
  intros Hb Hd Hp Hi Hin Hok Hm Hsz Ht Hch Hap. unfold fatfs_trunc_file.
  replace (S_ISDIR (mode file)) with false by by rewrite Hm.
  rewrite (proj2 (Z.eqb_neq 0 (size file))) by congruence. apply wp_bind.
  eapply wp_mono; [by apply (free_cluster_chain_spec disk Hwf b _ l)|].
  intros err b1 (Hb1 & Hch1 & Hf1). cbn beta.
  destruct (Z.eqb_spec err ENOERR) as [->|Herr]; cbn [negb]; [|by apply wp_ret].
  apply wp_bind. eapply wp_mono; [eapply (release_then_write b b1 c d i l); eauto|].
  - apply dentry_to_raw_ok. destruct Hok as [Hn Hf0 Hmd [? ?] Hs Hpr Hcl].
    constructor; cbn; try done; unfold fits; lia.
  - intros err b2 [Hb2 Hr]. apply wp_ret. split; [done|]. intros He. split; [done|by apply Hr].
Qed.
End Ops.
