(* ===== verification/FatWrite.v ===== *)
(** * FAT file system: what a write does to a file

    The data written is saved at its place, the rest of the file and the other
    files are as they were; the first write to an empty file gives it a chain. *)
From S2P Require Import Prelude Blib BlibContract FatDate FatStore FatTable FatTableSpec FatChain.
From S2P Require Import FatFile FatDentry FatDir FatDirSpec FatDirOps.

Section Write.
Context {B : Type} {lib : BlockLibrary B} {log2 : Z} {store : BlockStore lib log2}.
Context (disk : fatfs_disk_t) (Hwf : disk_wf log2 disk).
Implicit Types (b : B) (l : list Z) (pos : fatfs_data_pos_t).

(** A file that does not share clusters with the one written is as it was. *)
Lemma grown_other b b' l l' f1 l1 :
  grown disk b b' l l' -> chain disk (fat disk b) f1 l1 -> (forall k, k ∈ l1 -> k ∉ l) ->
  (forall x, ~ file_region disk b l x -> content b' x = content b x) -> kept disk b b' f1 l1.
Proof.
  intros Hg Hch Hap Hreg. pose proof (chain_valid _ _ _ _ Hch) as Hva. rewrite Forall_forall in Hva.
  constructor.
  - eapply chain_ext; [done|]. intros x Hx. apply (gr_same disk _ _ _ _ Hg); [by apply valid_index, Hva|].
    intros Hx'. destruct (gr_from disk _ _ _ _ Hg x Hx') as [?|[_ Hf]]; [by apply (Hap x)|].
    by apply (chain_not_free disk _ _ _ _ Hch Hx).
  - intros k x Hk Hx. apply Hreg. intros [Ht|(k' & Hv & Hkk & Hx')].
    + by apply (cluster_not_table disk Hwf k x (Hva k Hk) Hx).
    + rewrite (cluster_disjoint disk Hwf k' k x Hx' Hx) in Hkk. destruct Hkk as [?|Hf];
        [by apply (Hap k)|by apply (chain_not_free disk _ _ _ _ Hch Hk)].
Qed.

Lemma written_read b b' f0 l l' off src :
  written disk b b' f0 l l' off src -> 0 <= off ->
  off + Z.of_nat (length src) <= file_room disk l' ->
  file_read disk b' l' off (length src) = src.
Proof.
  intros Hw Hoff Hroom. apply list_eq. intros i. unfold file_read. rewrite list_lookup_fmap.
  destruct (decide (i < length src)%nat).
  - rewrite lookup_seq_lt by done. cbn. rewrite (wr_data _ _ _ _ _ _ _ _ Hw) by lia.
    unfold nthZ. replace (Z.to_nat (off + Z.of_nat i - off)) with i by lia.
    rewrite nth_lookup. destruct (lookup_lt_is_Some_2 src i) as [y Hy]; [lia|]. by rewrite Hy.
  - rewrite lookup_seq_ge, lookup_ge_None_2 by lia. done.
Qed.

(** What a successful write of [len] bytes of [buf] at [pos] guarantees of the file
    of chain [l], in state [b], once its chain is [l']. *)
Record saved b b' f0 l l' pos pos' (buf : list byte) len : Prop := {
  sv_chain : chain disk (fat disk b') f0 l';
  sv_prefix : l `prefix_of` l';
  sv_new k : k ∈ l' -> k ∈ l \/ is_free disk b k;
  sv_pos : pos_ok disk l' pos' /\ pos_offset disk pos' = pos_offset disk pos + len;
  sv_data : file_read disk b' l' (pos_offset disk pos) (Z.to_nat len) = take (Z.to_nat len) buf;
  sv_rest o : 0 <= o < file_room disk l ->
    ~ (pos_offset disk pos <= o < pos_offset disk pos + len) -> file_at disk b' l' o = file_at disk b l o;
  sv_others f1 l1 : chain disk (fat disk b) f1 l1 -> (forall k, k ∈ l1 -> k ∉ l) -> kept disk b b' f1 l1;
}.

Lemma write_data_saved b f0 l pos buf len :
  good b -> chain disk (fat disk b) f0 l -> pos_ok disk l pos -> Forall is_byte buf ->
  fits 32 len -> len <= Z.of_nat (length buf) ->
  wp (write_data disk buf len pos) (fun '(err, n, pos') b' =>
    good b' /\ 0 <= n <= len /\
    (err = ENOERR -> n = len /\ exists l', saved b b' f0 l l' pos pos' buf len)) b.
Proof.
  intros Hb Hch Hp Hbuf Hlen Hl. unfold fits in Hlen. apply wp_bind.
  eapply wp_mono; [eapply (write_data_loop_spec disk Hwf f0); [done|done|done|done|lia|lia|done]|].
  intros [[err rem] pos'] b' (Hb' & Hrem & Hreg & Hok). apply wp_ret.
  rewrite uwrap_small by lia. split; [done|]. split; [lia|]. intros He.
  destruct (Hok He) as (-> & l' & Hw & Hp' & Ho). split; [lia|]. exists l'.
  pose proof (wr_grown _ _ _ _ _ _ _ _ Hw) as Hg.
  assert (Z.of_nat (length (take (Z.to_nat len) buf)) = len) as Hln by (rewrite length_take; lia).
  pose proof (pos_offset_bound disk Hwf _ _ Hp). pose proof (pos_offset_bound disk Hwf _ _ Hp').
  constructor.
  - by destruct Hw.
  - by destruct Hg.
  - intros k Hk. destruct (gr_from _ _ _ _ _ Hg k Hk) as [?|[_ ?]]; auto.
  - done.
  - etrans; [|apply (written_read b b' f0 l l' _ _ Hw); lia]. f_equal. lia.
  - intros o Ho1 Ho2. apply (wr_rest _ _ _ _ _ _ _ _ Hw); [done|]. by rewrite Hln.
  - intros f1 l1 Hch1 Hap. by apply (grown_other b b' l l').
Qed.

(** An empty file without a chain: a free cluster [c] is claimed for it. *)
Lemma write_new_saved b file pos buf len :
  good b -> size file = 0 -> d_cluster file = 0 ->
  Forall is_byte buf -> fits 32 len -> len <= Z.of_nat (length buf) ->
  wp (fatfs_write_data disk file pos buf len) (fun '(err, n, pos', file') b' =>
    good b' /\
    (err = ENOERR -> n = len /\ exists c b1 l', file' = set_d_cluster c file /\
       saved b1 b' c [c] l' (fatfs_initpos file') pos' buf len /\
       (forall k, k ∈ l' -> is_free disk b k) /\
       forall f1 l1, chain disk (fat disk b) f1 l1 -> kept disk b b' f1 l1)) b.
Proof.
  intros Hb Hsz Hcl Hbuf Hlen Hl. unfold fatfs_write_data. rewrite Hsz, Hcl. cbn [Z.eqb andb].
  pose proof (wf_nents _ _ Hwf). pose proof (cs_pos disk Hwf). apply wp_bind.
  eapply wp_mono; [apply (find_next_free_cluster_spec disk Hwf); [done|lia]|].
  intros [err c] b1 (Hb1 & Hch1 & Hr). cbn beta iota.
  destruct (Z.eqb_spec err ENOERR) as [->|Herr]; cbn [negb]; [|by apply wp_ret].
  destruct Hr as [(_ & _ & Hc)|[(? & _)|?]]; [|done|done].
  assert (forall n, entry_index disk n -> n <> c -> fat disk b1 n = fat disk b n) as Hfat1.
  { intros n Hn Hne. rewrite (cl_fat _ _ _ _ _ Hc) by done. rewrite decide_False; [done|]. by intros []. }
  assert (chain disk (fat disk b1) c [c]) as Hcc.
  { constructor; [by destruct Hc|]. rewrite (cl_fat _ _ _ _ _ Hc) by by apply valid_index, Hc.
    rewrite decide_True by done. apply last_mark_last. }
  apply wp_bind. eapply wp_mono; [eapply (write_data_saved b1 c [c]); try done|].
  { unfold fatfs_initpos, pos_ok, pos_in. cbn. split_and!; try done; lia. }
  intros [[err n] pos'] b2 (Hb2 & Hn & Hok). apply wp_ret. split; [done|]. intros He.
  destruct (Hok He) as (-> & l' & Hs). split; [done|]. exists c, b1, l'. split; [done|].
  split; [done|]. split_and!.
  - intros k Hk. destruct (sv_new _ _ _ _ _ _ _ _ _ Hs k Hk) as [->%list_elem_of_singleton|Hf].
    + apply Hc.
    + destruct (decide (k = c)) as [->|Hne]; [apply Hc|]. unfold is_free in *.
      rewrite <- Hfat1; [done| |done]. pose proof (chain_valid _ _ _ _ (sv_chain _ _ _ _ _ _ _ _ _ Hs)) as Hva.
      rewrite Forall_forall in Hva. by apply valid_index, Hva.
  - intros f1 l1 Hl1. assert (c ∉ l1) as Hcl1.
    { intros Hin. by apply (chain_not_free disk _ _ _ _ Hl1 Hin), Hc. }
    assert (kept disk b b1 f1 l1) as Hk1.
    { pose proof (chain_valid _ _ _ _ Hl1) as Hva. rewrite Forall_forall in Hva. constructor.
      - eapply chain_ext; [done|]. intros x Hx. apply Hfat1; [by apply valid_index, Hva|congruence].
      - intros k x Hk Hx. apply Hch1. by eapply (chain_unclaimed disk Hwf). }
    eapply (kept_trans disk); [done|]. apply (sv_others _ _ _ _ _ _ _ _ _ Hs); [by destruct Hk1|].
    intros k Hk ->%list_elem_of_singleton. done.
Qed.
End Write.
