(* ===== verification/FatInit.v ===== *)
(** * FAT file system: mounting (fatfs_supp.c)

    The boot record and the geometry [fatfs_init] derives from it. *)
From S2P Require Import Prelude Blib BlibContract FatStore FatTable FatTableSpec FatChain FatFile.
From S2P Require Import FatDentry.

(** [fat_boot_record_t]; [None] is a field the record read does not set. *)
Record fat_boot_record_t := mk_boot {
  jump : Z;
  oem_name : list byte;
  bytes_per_sec : Z;
  sec_per_clu : Z;
  res_sec_num : Z;
  boot_tbls_num : Z;
  max_root_dents : Z;
  sec_num_32 : Z;
  media_desc : Z;
  sec_per_fat : Z;
  sec_per_track : Z;
  heads_num : Z;
  hsec_num : Z;
  sec_num : Z;
  exe_marker : list byte;
  sec_per_fat_32 : option Z;
  ext_flags : option Z;
  fs_ver : option Z;
  root_cluster : option Z;
  fs_info_sec : option Z;
  bk_boot_sec : option Z;
  drv_num : Z;
  ext_sig : Z;
  ser_num : Z;
  vol_name : list byte;
  fat_name : list byte;
}.

(** The fields of the first [0x5A] bytes and of the end marker. *)
Definition parse_boot_record (data marker : list byte) : fat_boot_record_t :=
  let spf := GET_WORD data 0x16 in
  let fat32 := 0 =? spf in
  let only32 v := if fat32 then Some v else None in
  let off (o32 o16 : Z) := if fat32 then o32 else o16 in
  {| jump := GET_WORD data 0x00;
     oem_name := GET_BYTES data 8 0x03;
     bytes_per_sec := GET_WORD data 0x0B;
     sec_per_clu := GET_BYTE data 0x0D;
     res_sec_num := GET_WORD data 0x0E;
     boot_tbls_num := GET_BYTE data 0x10;
     max_root_dents := GET_WORD data 0x11;
     sec_num_32 := GET_WORD data 0x13;
     media_desc := GET_BYTE data 0x15;
     sec_per_fat := spf;
     sec_per_track := GET_WORD data 0x18;
     heads_num := GET_WORD data 0x1A;
     hsec_num := GET_DWORD data 0x1C;
     sec_num := GET_DWORD data 0x20;
     exe_marker := GET_BYTES marker 2 0;
     sec_per_fat_32 := only32 (GET_DWORD data 0x24);
     ext_flags := only32 (GET_WORD data 0x28);
     fs_ver := only32 (GET_WORD data 0x2A);
     root_cluster := only32 (GET_DWORD data 0x2C);
     fs_info_sec := only32 (GET_WORD data 0x30);
     bk_boot_sec := only32 (GET_WORD data 0x32);
     drv_num := GET_BYTE data (off 0x40 0x24);
     ext_sig := GET_BYTE data (off 0x42 0x26);
     ser_num := GET_DWORD data (off 0x43 0x27);
     vol_name := GET_BYTES data 11 (off 0x47 0x2B);
     fat_name := GET_BYTES data 8 (off 0x52 0x36) |}.

Section Init.
Context {B : Type} {lib : BlockLibrary B}.

Definition read_boot_record : M B (Z * option fat_boot_record_t) :=
  '(err, _, data) ← disk_read 0x5A 0;
  if negb (err =? ENOERR) then mret (err, None)
  else
    '(err, _, marker) ← disk_read 0x02 0x1FE;
    if negb (err =? ENOERR) then mret (err, None)
    else mret (ENOERR, Some (parse_boot_record data marker)).

(** The geometry of a boot record whose two sizes are powers of two; a FAT32
    volume reads the cluster of its root directory, which must have been set. *)
Definition geometry (boot_rec : fat_boot_record_t) (sector_log2 cluster_log2 : Z) : option fatfs_disk_t :=
  let sec_num :=
    if negb (sec_num_32 boot_rec =? 0) then sec_num_32 boot_rec else sec_num boot_rec in
  let sec_per_fat :=
    if negb (sec_per_fat boot_rec =? 0) then sec_per_fat boot_rec
    else default 0 (sec_per_fat_32 boot_rec) in
  let root_dir_sec_num :=
    (max_root_dents boot_rec * DENTRY_SIZE + (bytes_per_sec boot_rec - 1)) / bytes_per_sec boot_rec in
  let data_sec_num :=
    u32 (sec_num - (res_sec_num boot_rec + boot_tbls_num boot_rec * sec_per_fat + root_dir_sec_num)) in
  let data_clu_num := data_sec_num / sec_per_clu boot_rec in
  let tbl_pos := bytes_per_sec boot_rec * res_sec_num boot_rec in
  let tbl_size := u32 (bytes_per_sec boot_rec * sec_per_fat) in
  let type :=
    if data_clu_num <? 4085 then FATFS_FAT12
    else if data_clu_num <? 65525 then FATFS_FAT16
    else FATFS_FAT32 in
  let tables := u32 (tbl_pos + boot_tbls_num boot_rec * tbl_size) in
  let disk root_pos root_size root_nents root_clu data_pos := {|
    sector_size := bytes_per_sec boot_rec;
    sector_size_log2 := sector_log2;
    cluster_size := bytes_per_sec boot_rec * sec_per_clu boot_rec;
    cluster_size_log2 := cluster_log2;
    fat_tbl_pos := u32 tbl_pos;
    fat_tbl_size := tbl_size;
    fat_tbl_nents := u32 (data_clu_num + 2);
    fat_tbls_num := boot_tbls_num boot_rec;
    fat_root_dir_pos := root_pos;
    fat_root_dir_size := root_size;
    fat_root_dir_nents := root_nents;
    fat_root_dir_cluster := root_clu;
    fat_data_pos := data_pos;
    fat_type := type;
  |} in
  if decide (type <> FATFS_FAT32) then
    let root_size := max_root_dents boot_rec * DENTRY_SIZE in
    Some (disk tables root_size (max_root_dents boot_rec) 0 (u32 (tables + root_size)))
  else
    match root_cluster boot_rec with
    | Some c => Some (disk 0 0 0 c tables)
    | None => None
    end.

Definition fatfs_init : M B (Z * option fatfs_disk_t) :=
  '(err, boot_rec) ← read_boot_record;
  match boot_rec with
  | None => mret (err, None)
  | Some boot_rec =>
      if negb ((0x29 =? ext_sig boot_rec) || (0x28 =? ext_sig boot_rec))
         || negb (0x55 =? nthZ (exe_marker boot_rec) 0)
         || negb (0xAA =? nthZ (exe_marker boot_rec) 1)
      then mret (EINVAL, None)
      else
        match get_val_log2 (bytes_per_sec boot_rec),
              get_val_log2 (bytes_per_sec boot_rec * sec_per_clu boot_rec) with
        | Some sector_log2, Some cluster_log2 =>
            if (0 =? sector_log2) || (0 =? cluster_log2) then mret (EINVAL, None)
            else
              match geometry boot_rec sector_log2 cluster_log2 with
              | Some disk => mret (ENOERR, Some disk)
              | None => crash
              end
        | _, _ => crash
        end
  end.
End Init.

(** ** The geometry of a consistent volume *)
Section Mount.
Implicit Types (r : fat_boot_record_t).

(** The regions of a volume, in sectors and clusters. *)
Definition vol_sectors r : Z :=
  if negb (sec_num_32 r =? 0) then sec_num_32 r else sec_num r.
Definition vol_fat_sectors r : Z :=
  if negb (sec_per_fat r =? 0) then sec_per_fat r else default 0 (sec_per_fat_32 r).
Definition vol_root_sectors r : Z :=
  (max_root_dents r * DENTRY_SIZE + (bytes_per_sec r - 1)) / bytes_per_sec r.
Definition vol_system r : Z :=
  res_sec_num r + boot_tbls_num r * vol_fat_sectors r + vol_root_sectors r.
Definition vol_clusters r : Z := (vol_sectors r - vol_system r) / sec_per_clu r.
Definition vol_type r : fatfs_type_t :=
  if vol_clusters r <? 4085 then FATFS_FAT12
  else if vol_clusters r <? 65525 then FATFS_FAT16 else FATFS_FAT32.

(** A consistent boot record over blocks of [2 ^ log2] bytes: powers of two, tables
    that cover the clusters, system areas and data within the volume and within
    reach of 32-bit offsets, and no more clusters than regular entries can name. *)
Record volume_ok (log2 sl cl : Z) r : Prop := {
  vo_log2 : 5 <= log2 <= sl + cl /\ sl + cl < 31;
  vo_sector : 0 < sl /\ bytes_per_sec r = 2 ^ sl;
  vo_cluster : 0 <= cl /\ sec_per_clu r = 2 ^ cl;
  vo_tbls : 1 <= boot_tbls_num r < 256;
  vo_res : 0 <= res_sec_num r /\ 0 <= max_root_dents r /\ 0 <= vol_fat_sectors r;
  vo_sectors : vol_system r <= vol_sectors r < 2 ^ 32;
  vo_reach : vol_sectors r * bytes_per_sec r <= 2 ^ (32 + log2);
  vo_data : vol_system r * bytes_per_sec r + 2 ^ (sl + cl) <= 2 ^ 32;
  vo_table : table_bytes (vol_type r) (vol_clusters r + 2) <= vol_fat_sectors r * bytes_per_sec r;
  vo_nents : vol_clusters r + 2 <= entry_limit (vol_type r);
  vo_root : vol_type r = FATFS_FAT32 -> root_cluster r <> None /\ max_root_dents r = 0;
}.

Lemma root_sectors_cover r sl :
  bytes_per_sec r = 2 ^ sl -> 0 < sl -> 0 <= max_root_dents r ->
  0 <= max_root_dents r * DENTRY_SIZE <= vol_root_sectors r * bytes_per_sec r /\ 0 <= vol_root_sectors r.
Proof.
  intros Hb Hsl Hm. unfold vol_root_sectors, DENTRY_SIZE.
  assert (0 < bytes_per_sec r) by (rewrite Hb; apply Z.pow_pos_nonneg; lia).
  pose proof (div_bounds (max_root_dents r * 0x20 + (bytes_per_sec r - 1)) (bytes_per_sec r)).
  split; [lia|]. apply Z.div_pos; lia.
Qed.

(** The clusters do not pass the end of the volume. *)
Lemma clusters_fit r log2 sl cl :
  volume_ok log2 sl cl r ->
  0 <= vol_clusters r /\ vol_clusters r * sec_per_clu r <= vol_sectors r - vol_system r.
Proof.
  intros []. destruct vo_cluster0 as [Hcl Hc]. assert (0 < sec_per_clu r) by lia.
  unfold vol_clusters. pose proof (div_bounds (vol_sectors r - vol_system r) (sec_per_clu r)).
  split; [apply Z.div_pos; lia|lia].
Qed.

(** The regions of the volume are where the boot record puts them. *)
Record laid_out r (vol : fatfs_disk_t) : Prop := {
  lo_type : fat_type vol = vol_type r;
  lo_nents : fat_tbl_nents vol = vol_clusters r + 2;
  lo_cluster : cluster_size vol = bytes_per_sec r * sec_per_clu r;
  lo_tables : fat_tbl_pos vol = res_sec_num r * bytes_per_sec r /\
    fat_tbls_num vol = boot_tbls_num r /\ fat_tbl_size vol = vol_fat_sectors r * bytes_per_sec r;
  lo_root : vol_type r <> FATFS_FAT32 -> fat_root_dir_size vol = max_root_dents r * DENTRY_SIZE /\
    fat_root_dir_pos vol = tables_end vol;
  lo_data : fat_data_pos vol = tables_end vol + (if decide (vol_type r = FATFS_FAT32) then 0
    else max_root_dents r * DENTRY_SIZE);
}.

Lemma geometry_ok r log2 sl cl :
  volume_ok log2 sl cl r ->
  exists disk, geometry r sl (sl + cl) = Some disk /\ disk_wf log2 disk /\ laid_out r disk.
Proof.
  intros Hv. pose proof (clusters_fit _ _ _ _ Hv) as [Hc0 Hcfit]. destruct Hv.
  destruct vo_sector0 as [Hsl Hbps], vo_cluster0 as [Hcl Hspc], vo_res0 as (Hres & Hmax & Hspf).
  pose proof (root_sectors_cover r sl Hbps Hsl Hmax) as [Hroot Hrs].
  assert (bytes_per_sec r * sec_per_clu r = 2 ^ (sl + cl)) as Hcs
    by (rewrite Hbps, Hspc, Z.pow_add_r by lia; done).
  assert (0 < bytes_per_sec r) as Hb0 by lia.
  unfold geometry. fold (vol_sectors r) (vol_fat_sectors r) (vol_root_sectors r).
  assert (0 <= boot_tbls_num r * vol_fat_sectors r) as Htf by (apply Z.mul_nonneg_nonneg; lia).
  change (res_sec_num r + boot_tbls_num r * vol_fat_sectors r + vol_root_sectors r)
    with (vol_system r).
  assert (0 <= vol_system r) by (unfold vol_system; lia).
  rewrite (uwrap_small 32 (vol_sectors r - vol_system r)) by lia. cbv zeta.
  fold (vol_clusters r) (vol_type r).
  assert (vol_system r * bytes_per_sec r
    = res_sec_num r * bytes_per_sec r + boot_tbls_num r * (vol_fat_sectors r * bytes_per_sec r)
      + vol_root_sectors r * bytes_per_sec r) as Hsys by (unfold vol_system; lia).
  assert (0 < 2 ^ (sl + cl)) by (apply Z.pow_pos_nonneg; lia).
  assert (0 <= vol_fat_sectors r * bytes_per_sec r) by (apply Z.mul_nonneg_nonneg; lia).
  assert (vol_fat_sectors r * bytes_per_sec r
    <= boot_tbls_num r * (vol_fat_sectors r * bytes_per_sec r)) by nia.
  rewrite (Z.mul_comm (bytes_per_sec r) (res_sec_num r)),
    (Z.mul_comm (bytes_per_sec r) (vol_fat_sectors r)).
  assert (0 <= res_sec_num r * bytes_per_sec r) by (apply Z.mul_nonneg_nonneg; lia).
  rewrite (uwrap_small 32 (vol_fat_sectors r * bytes_per_sec r)),
    (uwrap_small 32 (res_sec_num r * bytes_per_sec r)) by lia.
  set (tp := res_sec_num r * bytes_per_sec r) in *.
  set (ts := vol_fat_sectors r * bytes_per_sec r) in *.
  rewrite (uwrap_small 32 (tp + boot_tbls_num r * ts)) by lia.
  rewrite (uwrap_small 32 (tp + boot_tbls_num r * ts + max_root_dents r * DENTRY_SIZE)) by lia.
  assert (vol_clusters r + 2 < 2 ^ 32) as Hn32
    by (unfold entry_limit in *; destruct (vol_type r); lia).
  rewrite (uwrap_small 32 (vol_clusters r + 2)) by lia.
  assert (vol_system r * bytes_per_sec r + vol_clusters r * 2 ^ (sl + cl) <= 2 ^ (32 + log2)) as Hend.
  { etrans; [|exact vo_reach0]. rewrite <- Hcs.
    assert (vol_clusters r * sec_per_clu r * bytes_per_sec r
      <= (vol_sectors r - vol_system r) * bytes_per_sec r) by (apply Z.mul_le_mono_nonneg_r; lia).
    lia. }
  destruct (decide (vol_type r <> FATFS_FAT32)) as [Hty|Hty].
  - eexists. split; [done|].
    split; [|constructor; rewrite ?decide_False by done; unfold tables_end; cbn; try done; lia].
    constructor; cbn; try done; unfold tables_end, cluster_off; cbn; try lia.
  - apply dec_stable in Hty.
    destruct (vo_root0 Hty) as [Hrc Hm0]. destruct (root_cluster r) as [rc|]; [|done].
    eexists. split; [done|].
    split; [|constructor; rewrite ?decide_True by done; unfold tables_end; cbn; try done; lia].
    constructor; cbn; try done; unfold tables_end, cluster_off; cbn; try lia.
Qed.
End Mount.
