(* ===== verification/FatFs.v ===== *)
(** * FAT file system: the operations of fileio (fatfs.c)

    The descriptors, path lookup through the node cache and the directories, and
    the operations on names, on one state that holds the block library, the node
    cache and the file descriptors of the file system.
    CYGCFG_FS_FAT_USE_ATTRIBUTES is off. The readings of the clock are
    arguments, in the order of the calls of [cyg_timestamp]. *)
From stdpp Require Import functions.
From S2P Require Import Prelude FatStore FatTable FatFile FatDentry FatNode FatDir FatInit.

(** ** Constants of fcntl.h, unistd.h, fileio.h and codes.h *)
Definition O_CREAT : Z := 8.
Definition O_EXCL : Z := 16.
Definition O_TRUNC : Z := 64.
Definition O_APPEND : Z := 128.
Definition CYG_FILE_MODE_MASK : Z := Z.lor (Z.lor 1 2) (Z.lor 512 128).
Definition SEEK_SET : Z := 0.
Definition SEEK_CUR : Z := 1.
Definition SEEK_END : Z := 2.
Definition FS_INFO_SYNC : Z := 4.
Definition EBUSY : Z := 16.
Definition ENOTDIR : Z := 20.
Definition EISDIR : Z := 21.
Definition EMFILE : Z := 24.
Definition EEXIST : Z := 302.
Definition SLASH : byte := 47.

Definition flag (mode f : Z) : bool := negb (Z.land mode f =? 0).

(** [strncmp], of which the code uses only whether it is 0. *)
Fixpoint strncmp (s1 s2 : list byte) (n : nat) : Z :=
  match n with
  | O => 0
  | S n =>
      if char_at s1 =? char_at s2 then
        match s1 with [] => 0 | _ :: r1 => strncmp r1 (tail s2) n end
      else char_at s1 - char_at s2
  end.

(** ** State *)
Record fatfs_fd_t := mk_fd { fd_node : Z; fd_pos : fatfs_data_pos_t }.

(** The part of [cyg_file] that the file system uses: [f_data] is the descriptor,
    [f_dir] tells [fatfs_dirops] from [fatfs_fileops]. *)
Record cyg_file := mk_file { f_flag : Z; f_dir : bool; f_offset : Z; f_data : Z }.
Definition set_offset o (f : cyg_file) := mk_file (f_flag f) (f_dir f) o (f_data f).

Record fatfs_dirsearch_t := mk_dirsearch {
  ds_dir : Z;
  ds_path : list byte;
  ds_node : option Z;
  ds_name : option (list byte);
  ds_namelen : Z;
  ds_last : bool;
}.
Definition ds_set_node n ds :=
  mk_dirsearch (ds_dir ds) (ds_path ds) n (ds_name ds) (ds_namelen ds) (ds_last ds).

Record stat_t := mk_stat_t {
  st_mode : Z; st_ino : Z; st_nlink : Z; st_size : Z; st_atime : Z; st_mtime : Z; st_ctime : Z }.

Definition stat_of (d : fatfs_dir_entry_t) : stat_t :=
  mk_stat_t (mode d) (d_cluster d) 1 (size d) (atime d) (mtime d) (ctime d).

Section Fs.
Context {B : Type} {lib : BlockLibrary B}.

Record fs_state := mk_fs {
  fs_dev : B;
  fs_cache : fatfs_ncache_t;
  fs_root : Z;
  fatfs_fds_base : Z -> fatfs_fd_t;
  fatfs_fds_pool : list Z;
  fatfs_fds_free_cnt : Z;
  fds_initialized : bool;
}.

Definition set_dev b s := mk_fs b (fs_cache s) (fs_root s) (fatfs_fds_base s) (fatfs_fds_pool s)
  (fatfs_fds_free_cnt s) (fds_initialized s).
Definition set_cache c s := mk_fs (fs_dev s) c (fs_root s) (fatfs_fds_base s) (fatfs_fds_pool s)
  (fatfs_fds_free_cnt s) (fds_initialized s).
Definition set_root r s := mk_fs (fs_dev s) (fs_cache s) r (fatfs_fds_base s) (fatfs_fds_pool s)
  (fatfs_fds_free_cnt s) (fds_initialized s).
Definition set_fds f s := mk_fs (fs_dev s) (fs_cache s) (fs_root s) f (fatfs_fds_pool s)
  (fatfs_fds_free_cnt s) (fds_initialized s).
Definition set_fds_pool p n s := mk_fs (fs_dev s) (fs_cache s) (fs_root s) (fatfs_fds_base s) p n
  (fds_initialized s).
Definition set_initialized s := mk_fs (fs_dev s) (fs_cache s) (fs_root s) (fatfs_fds_base s)
  (fatfs_fds_pool s) (fatfs_fds_free_cnt s) true.

Abbreviation fs_m := (M fs_state).

(** A call that works on the disk, or on the node cache. *)
Definition on_dev {A} (m : M B A) : fs_m A := fun s =>
  match m (fs_dev s) with Some (a, b) => Some (a, set_dev b s) | None => None end.
Definition on_cache {A} (m : M fatfs_ncache_t A) : fs_m A := fun s =>
  match m (fs_cache s) with Some (a, c) => Some (a, set_cache c s) | None => None end.

(** [node->dentry] *)
Definition node_dentry (a : Z) : fs_m fatfs_dir_entry_t :=
  s ← get_state; mret (dentry (node_pool_base (fs_cache s) a)).
Definition put_dentry (a : Z) d : fs_m unit := on_cache (modify (upd_cached a (set_dentry d))).
Definition get_root : fs_m Z := s ← get_state; mret (fs_root s).

(** [fd->pos], [fd->node] *)
Definition get_fd (fd : Z) : fs_m fatfs_fd_t := s ← get_state; mret (fatfs_fds_base s fd).
Definition put_pos (fd : Z) pos : fs_m unit :=
  modify (fun s => set_fds (<[fd := mk_fd (fd_node (fatfs_fds_base s fd)) pos]> (fatfs_fds_base s)) s).

Context (disk : fatfs_disk_t).
Context (FATFS_HASH_TABLE_SIZE FATFS_NODE_POOL_SIZE CYGNUM_FILEIO_NFD : Z).
Context (past_end : fatfs_dir_entry_t -> Z -> byte).

(** ** The descriptors *)
Definition init_fatfs_fds : fs_m unit :=
  s ← get_state;
  if fds_initialized s then mret tt
  else
    modify set_initialized ;;
    modify (set_fds_pool (seqZ 0 CYGNUM_FILEIO_NFD) CYGNUM_FILEIO_NFD).

Definition alloc_fatfs_fd (node : Z) : fs_m (option Z) :=
  s ← get_state;
  if fatfs_fds_free_cnt s >? 0 then
    let cnt := fatfs_fds_free_cnt s - 1 in
    match fatfs_fds_pool s !! Z.to_nat cnt with
    | None => crash
    | Some fd =>
        modify (set_fds_pool (fatfs_fds_pool s) cnt) ;;
        d ← node_dentry node;
        modify (fun s => set_fds (<[fd := mk_fd node (fatfs_initpos d)]> (fatfs_fds_base s)) s) ;;
        mret (Some fd)
    end
  else mret None.

Definition free_fatfs_fd (fd : Z) : fs_m unit :=
  s ← get_state;
  let cnt := fatfs_fds_free_cnt s in
  if decide (Z.to_nat cnt < length (fatfs_fds_pool s))%nat then
    modify (set_fds_pool (<[Z.to_nat cnt := fd]> (fatfs_fds_pool s)) (u32 (cnt + 1)))
  else crash.

(** ** Path lookup *)
Definition init_dirsearch (dir : option Z) (name : list byte) : fs_m fatfs_dirsearch_t :=
  root ← get_root;
  let dir := default root dir in
  mret (mk_dirsearch dir name (Some dir) None 0 false).

(** The search for the entry '.' of the directory [d]: [inl] is an error. *)
Fixpoint find_dot (fuel : nat) (d : fatfs_dir_entry_t) pos : fs_m (Z + fatfs_dir_entry_t) :=
  match fuel with
  | O => crash
  | S fuel =>
      '(err, pos, e) ← on_dev (fatfs_read_dir_entry disk d pos);
      if negb (err =? ENOERR) then mret (inl err)
      else
        match e with
        | None => crash
        | Some e => if decide (filename e = [DOT]) then mret (inr e) else find_dot fuel d pos
        end
  end.

(** The node of an entry that has been read from its directory. *)
Definition node_or_emfile (node : option Z) : Z * option Z :=
  match node with Some a => (ENOERR, Some a) | None => (EMFILE, None) end.

Definition enter_node (d : fatfs_dir_entry_t) (name : list byte) (namelen : Z) : fs_m (Z * option Z) :=
  if 0 =? strncmp name [DOT; DOT] (Z.to_nat namelen) then
    if 0 =? d_cluster d then root ← get_root; mret (ENOERR, Some root)
    else
      r ← find_dot (dir_entries disk) d (fatfs_initpos d);
      match r with
      | inl err => mret (err, None)
      | inr e =>
          node ← on_cache (fatfs_node_find FATFS_NODE_POOL_SIZE past_end (filename e)
                             (Z.of_nat (length (filename e))) (parent_cluster e));
          match node with
          | Some a => on_cache (fatfs_node_touch a) ;; mret (ENOERR, Some a)
          | None => node ← on_cache (fatfs_node_alloc FATFS_NODE_POOL_SIZE e); mret (node_or_emfile node)
          end
      end
  else node ← on_cache (fatfs_node_alloc FATFS_NODE_POOL_SIZE d); mret (node_or_emfile node).

(** The search of the directory of the node [dir]. *)
Fixpoint search_dir (fuel : nat) (dir : Z) (name : list byte) (namelen : Z) pos : fs_m (Z * option Z) :=
  match fuel with
  | O => crash
  | S fuel =>
      d ← node_dentry dir;
      '(err, pos, e) ← on_dev (fatfs_read_dir_entry disk d pos);
      if negb (err =? ENOERR) then mret (if err =? EEOF then ENOERR else err, None)
      else
        match e with
        | None => crash
        | Some e =>
            match filename_at past_end e namelen with
            | None => crash
            | Some c =>
                if (0 =? c) && (0 =? strncasecmp (filename e) name (Z.to_nat namelen))
                then enter_node e name namelen
                else search_dir fuel dir name namelen pos
            end
        end
  end.

(** [namelen] is negative for a name of more than 127 characters, and then the
    hash function reads past the end of the path. *)
Definition find_direntry (ds : fatfs_dirsearch_t) (name : list byte) : fs_m (Z * fatfs_dirsearch_t) :=
  let namelen := ds_namelen ds in
  if 0 =? strncmp [DOT] name (Z.to_nat (u32 namelen)) then mret (ENOERR, ds_set_node (Some (ds_dir ds)) ds)
  else if namelen <? 0 then crash
  else
    dir ← node_dentry (ds_dir ds);
    node ← on_cache (fatfs_node_find FATFS_NODE_POOL_SIZE past_end name namelen (d_cluster dir));
    match node with
    | Some a => on_cache (fatfs_node_touch a) ;; mret (ENOERR, ds_set_node (Some a) ds)
    | None =>
        '(err, node) ← search_dir (dir_entries disk) (ds_dir ds) name namelen (fatfs_initpos dir);
        mret (err, ds_set_node node ds)
    end.

(** The number of characters before a '/' or the end, counted in a [char]. *)
Fixpoint component_length (n : list byte) : nat :=
  match n with
  | c :: n => if c =? SLASH then O else S (component_length n)
  | [] => O
  end.

Definition find_entry (ds : fatfs_dirsearch_t) : fs_m (Z * fatfs_dirsearch_t) :=
  dir ← node_dentry (ds_dir ds);
  if negb (S_ISDIR (mode dir)) then mret (ENOTDIR, ds)
  else
    let name := ds_path ds in
    let len := component_length name in
    let ds := mk_dirsearch (ds_dir ds) (ds_path ds) (ds_node ds) (Some name)
                (signed_char (u8 (Z.of_nat len))) (ds_last ds || bool_decide (drop len name = [])) in
    '(err, ds) ← find_direntry ds name;
    if negb (err =? ENOERR) then mret (err, ds)
    else match ds_node ds with Some _ => mret (ENOERR, ds) | None => mret (ENOENT, ds) end.

(** [ds->path += ds->namelen] and the separator after it. *)
Definition next_path (ds : fatfs_dirsearch_t) : list byte :=
  let path := drop (Z.to_nat (ds_namelen ds)) (ds_path ds) in
  match path with c :: rest => if c =? SLASH then rest else path | [] => [] end.

Fixpoint find_loop (fuel : nat) (ds : fatfs_dirsearch_t) : fs_m (Z * fatfs_dirsearch_t) :=
  match fuel with
  | O => crash
  | S fuel =>
      '(err, ds) ← find_entry ds;
      if negb (err =? ENOERR) then mret (err, ds)
      else if ds_last ds then mret (ENOERR, ds)
      else
        match ds_node ds with
        | None => crash
        | Some node =>
            find_loop fuel (mk_dirsearch node (next_path ds) (ds_node ds) (ds_name ds)
                              (ds_namelen ds) (ds_last ds))
        end
  end.

(** Every turn but the last passes a '/'. *)
Definition fatfs_find (ds : fatfs_dirsearch_t) : fs_m (Z * fatfs_dirsearch_t) :=
  match ds_path ds with
  | [] => mret (ENOERR, ds)
  | _ => find_loop (S (length (ds_path ds))) ds
  end.

(** [init_dirsearch] and [fatfs_find]. *)
Definition lookup (dir : option Z) (name : list byte) : fs_m (Z * fatfs_dirsearch_t) :=
  ds ← init_dirsearch dir name; fatfs_find ds.

(** The node of a search that has succeeded. *)
Definition found (ds : fatfs_dirsearch_t) : fs_m Z :=
  match ds_node ds with Some a => mret a | None => crash end.
Definition found_name (ds : fatfs_dirsearch_t) : fs_m (list byte) :=
  match ds_name ds with Some n => mret n | None => crash end.

(** ** Mounting *)
(** [cyg_io_lookup], the two calls of [malloc] and [cyg_blib_io_create] are given
    by what they return. The allocation of the root node cannot fail: every node
    of the pool is free. *)
Definition fatfs_mount (io_lookup : Z) (disk_mem bcache_mem : bool) (blib_create : Z * B) :
    fs_m (Z * option fatfs_disk_t) :=
  init_fatfs_fds ;;
  if negb (io_lookup =? ENOERR) then mret (io_lookup, None)
  else if negb disk_mem then mret (ENOMEM, None)
  else if negb bcache_mem then mret (ENOMEM, None)
  else
    let '(err, blib) := blib_create in
    if negb (err =? ENOERR) then mret (err, None)
    else
      modify (set_dev blib) ;;
      '(err, disk) ← on_dev fatfs_init;
      if negb (err =? ENOERR) then on_dev lib_delete ;; mret (err, None)
      else
        match disk with
        | None => crash
        | Some disk =>
            on_cache (fatfs_node_cache_init FATFS_HASH_TABLE_SIZE FATFS_NODE_POOL_SIZE) ;;
            root ← on_cache (fatfs_node_alloc FATFS_NODE_POOL_SIZE (fatfs_get_root_dir_entry disk));
            match root with
            | None => crash
            | Some root =>
                modify (set_root root) ;;
                on_cache (fatfs_node_ref root) ;;
                mret (ENOERR, Some disk)
            end
        end.

Definition fatfs_umount : fs_m Z :=
  s ← get_state;
  let root := fs_root s in
  if refcnt (node_pool_base (fs_cache s) root) >? 1 then mret EBUSY
  else if negb (fatfs_get_live_node_count (fs_cache s) =? 1) then mret EBUSY
  else
    on_cache (fatfs_node_unref root) ;;
    on_cache (fatfs_node_cache_flush FATFS_NODE_POOL_SIZE) ;;
    on_dev lib_delete ;;
    mret ENOERR.

(** ** Operations on names *)
(** [node->dentry.atime = node->dentry.mtime = t] *)
Definition touch_times (t node : Z) : fs_m unit :=
  d ← node_dentry node; put_dentry node (set_amtime t d).

(** The first part of [fatfs_open]: the error and the node to open. *)
Definition open_node (t_create t_dir mode : Z) (dir : option Z) (name : list byte) :
    fs_m (Z * option Z) :=
  '(err, ds) ← lookup dir name;
  if err =? ENOENT then
    if ds_last ds && flag mode O_CREAT then
      dname ← found_name ds;
      d ← node_dentry (ds_dir ds);
      '(err, e) ← on_dev (fatfs_create_file t_create disk d dname (ds_namelen ds));
      if negb (err =? ENOERR) then mret (err, None)
      else
        match e with
        | None => crash
        | Some e =>
            node ← on_cache (fatfs_node_alloc FATFS_NODE_POOL_SIZE e);
            match node with
            | None => mret (EMFILE, None)
            | Some node => touch_times t_dir (ds_dir ds) ;; mret (ENOERR, Some node)
            end
        end
    else mret (err, None)
  else if err =? ENOERR then
    if Z.land mode (Z.lor O_CREAT O_EXCL) =? Z.lor O_CREAT O_EXCL then mret (EEXIST, None)
    else mret (ENOERR, ds_node ds)
  else mret (err, None).

(** [times] is what [cyg_timestamp] returns for the entry created, for its
    directory and for the file truncated. *)
Definition fatfs_open (times : Z * Z * Z) (dir : option Z) (name : list byte) (mode : Z)
    (file : cyg_file) : fs_m (Z * cyg_file) :=
  let '(t_create, t_dir, t_trunc) := times in
  '(err, node) ← open_node t_create t_dir mode dir name;
  match node with
  | None => if err =? ENOERR then crash else mret (err, file)
  | Some node =>
      (if flag mode O_TRUNC then
         d ← node_dentry node;
         '(_, d) ← on_dev (fatfs_trunc_file t_trunc disk d);
         put_dentry node d
       else mret tt) ;;
      d ← node_dentry node;
      if S_ISDIR (FatFile.mode d) then mret (EISDIR, file)
      else
        fd ← alloc_fatfs_fd node;
        match fd with
        | None => mret (EMFILE, file)
        | Some fd =>
            on_cache (fatfs_node_ref node) ;;
            (if flag mode O_APPEND then
               f ← get_fd fd;
               '(_, pos) ← on_dev (fatfs_setpos disk d (fd_pos f) (size d));
               put_pos fd pos
             else mret tt) ;;
            mret (ENOERR, mk_file (Z.lor (f_flag file) (Z.land mode CYG_FILE_MODE_MASK)) false
                            (if flag mode O_APPEND then s32 (size d) else 0) fd)
        end
  end.

Definition fatfs_unlink (dir : option Z) (name : list byte) : fs_m Z :=
  '(err, ds) ← lookup dir name;
  if negb (err =? ENOERR) then mret err
  else
    node ← found ds;
    s ← get_state;
    let n := node_pool_base (fs_cache s) node in
    if refcnt n >? 0 then mret EBUSY
    else
      err ← on_dev (fatfs_delete_file disk (dentry n));
      if err =? ENOERR then on_cache (fatfs_node_free FATFS_NODE_POOL_SIZE node) ;; mret err
      else mret err.

Definition fatfs_mkdir (t : Z) (dir : option Z) (name : list byte) : fs_m Z :=
  '(err, ds) ← lookup dir name;
  if err =? ENOENT then
    if ds_last ds then
      dname ← found_name ds;
      d ← node_dentry (ds_dir ds);
      '(err, e) ← on_dev (fatfs_create_dir t disk d dname (ds_namelen ds));
      if negb (err =? ENOERR) then mret err
      else
        match e with
        | None => crash
        | Some e => on_cache (fatfs_node_alloc FATFS_NODE_POOL_SIZE e) ;; mret ENOERR
        end
    else mret err
  else if err =? ENOERR then mret EEXIST
  else mret err.

(** Drops the node of the entry [name] of the directory at [cluster], if there is one. *)
Definition drop_node (name : list byte) (cluster : Z) : fs_m unit :=
  node ← on_cache (fatfs_node_find FATFS_NODE_POOL_SIZE past_end name (Z.of_nat (length name)) cluster);
  match node with
  | Some a => on_cache (fatfs_node_free FATFS_NODE_POOL_SIZE a)
  | None => mret tt
  end.

Definition fatfs_rmdir (dir : option Z) (name : list byte) : fs_m Z :=
  '(err, ds) ← lookup dir name;
  if negb (err =? ENOERR) then mret err
  else
    node ← found ds;
    s ← get_state;
    let n := node_pool_base (fs_cache s) node in
    if negb (S_ISDIR (mode (dentry n))) then mret EPERM
    else if refcnt n >? 0 then mret EBUSY
    else
      err ← on_dev (fatfs_delete_file disk (dentry n));
      if err =? ENOERR then
        drop_node [DOT] (d_cluster (dentry n)) ;;
        d ← node_dentry node;
        drop_node [DOT; DOT] (d_cluster d) ;;
        on_cache (fatfs_node_free FATFS_NODE_POOL_SIZE node) ;;
        mret err
      else mret err.

(** From the second lookup to the label [out]. *)
Definition rename_to (ds1 : fatfs_dirsearch_t) (node1 err : Z) (ds2 : fatfs_dirsearch_t) : fs_m Z :=
  if (err =? ENOERR) && ds_last ds2 then mret EEXIST
  else if (err =? ENOENT) && negb (ds_last ds2) then mret err
  else if decide (Some node1 = ds_node ds2) then mret ENOERR
  else
    target ← node_dentry node1;
    dir2 ← node_dentry (ds_dir ds2);
    name2 ← found_name ds2;
    '(err, target) ← on_dev (fatfs_rename_file disk (bool_decide (ds_dir ds1 = ds_dir ds2))
                               target dir2 name2 (ds_namelen ds2));
    put_dentry node1 target ;;
    on_cache (fatfs_node_rehash FATFS_NODE_POOL_SIZE node1) ;;
    mret err.

Definition fatfs_rename (t : Z) (dir1 : option Z) (name1 : list byte) (dir2 : option Z)
    (name2 : list byte) : fs_m Z :=
  '(err, ds1) ← lookup dir1 name1;
  if negb (err =? ENOERR) then mret err
  else
    node1 ← found ds1;
    on_cache (fatfs_node_ref (ds_dir ds1)) ;;
    on_cache (fatfs_node_ref node1) ;;
    '(err, ds2) ← lookup dir2 name2;
    err ← rename_to ds1 node1 err ds2;
    on_cache (fatfs_node_unref (ds_dir ds1)) ;;
    on_cache (fatfs_node_unref node1) ;;
    if err =? ENOERR then
      touch_times t (ds_dir ds2) ;; touch_times t (ds_dir ds1) ;; mret err
    else mret err.

Definition fatfs_link (dir1 : option Z) (name1 : list byte) (dir2 : option Z) (name2 : list byte)
    (type : Z) : fs_m Z := mret EINVAL.

Definition fatfs_opendir (dir : option Z) (name : list byte) (file : cyg_file) : fs_m (Z * cyg_file) :=
  '(err, ds) ← lookup dir name;
  if negb (err =? ENOERR) then mret (err, file)
  else
    node ← found ds;
    d ← node_dentry node;
    if negb (S_ISDIR (mode d)) then mret (ENOTDIR, file)
    else
      fd ← alloc_fatfs_fd node;
      match fd with
      | None => mret (EMFILE, file)
      | Some fd => on_cache (fatfs_node_ref node) ;; mret (ENOERR, mk_file (f_flag file) true 0 fd)
      end.

(** [dir_out] is whether the caller asks for the directory of [name], which is
    returned, or gives up the directory [dir]. *)
Definition fatfs_chdir (dir : option Z) (name : list byte) (dir_out : bool) : fs_m (Z * option Z) :=
  root ← get_root;
  if dir_out then
    '(err, ds) ← lookup dir name;
    if negb (err =? ENOERR) then mret (err, None)
    else
      node ← found ds;
      d ← node_dentry node;
      if negb (S_ISDIR (mode d)) then mret (ENOTDIR, None)
      else
        (if node =? root then mret tt else on_cache (fatfs_node_ref node)) ;;
        mret (ENOERR, Some node)
  else
    match dir with
    | None => crash
    | Some node =>
        (if node =? root then mret tt else on_cache (fatfs_node_unref node)) ;;
        mret (ENOERR, None)
    end.

Definition fatfs_stat (dir : option Z) (name : list byte) : fs_m (Z * option stat_t) :=
  '(err, ds) ← lookup dir name;
  if negb (err =? ENOERR) then mret (err, None)
  else node ← found ds; d ← node_dentry node; mret (ENOERR, Some (stat_of d)).

(** CYGSEM_FILEIO_BLOCK_USAGE is an option that no file of the system defines. *)
Definition fatfs_getinfo (dir : option Z) (name : list byte) (key : Z) : fs_m Z := mret EINVAL.

Definition fatfs_setinfo (dir : option Z) (name : list byte) (key : Z) : fs_m Z :=
  if key =? FS_INFO_SYNC then on_dev lib_sync else mret EINVAL.
End Fs.
