(* ===== verification/FatFo.v ===== *)
(** * FAT file system: the operations on open files (fatfs.c)

    Reading, writing, positioning and closing. The vectors of a transfer are
    lists of byte buffers; the file object and the transfer residue are returned,
    the position of the descriptor and the entry of the node are in the state. *)
From stdpp Require Import functions.
From S2P Require Import Prelude FatStore FatTable FatFile FatDentry FatNode FatDir FatFs.

(** [sizeof(struct dirent)]: NAME_MAX is 64, CYGPKG_FILEIO_DIRENT_DTYPE is off. *)
Definition sizeof_dirent : Z := 65.

Section Fo.
Context {B : Type} {lib : BlockLibrary B}.
Abbreviation fs_m := (M (@fs_state B)).
Context (disk : fatfs_disk_t).

(** The loop over one vector of [fatfs_fo_read], with [len] bytes still to fill:
    the error, the bytes stored, [pos] and [resid]. Every turn that continues
    stores a byte. *)
Fixpoint read_vector (fuel : nat) (node fd len pos resid : Z) : fs_m (Z * list byte * Z * Z) :=
  match fuel with
  | O => crash
  | S fuel =>
      d ← node_dentry node;
      if (len >? 0) && (pos <? size d) then
        let l := u32 len in
        let l := if l >? u32 (size d - pos) then u32 (size d - pos) else l in
        f ← get_fd fd;
        '(err, l, buf, fpos) ← on_dev (fatfs_read_data disk d (fd_pos f) l);
        put_pos fd fpos ;;
        if negb (err =? ENOERR) then mret (err, buf, pos, resid)
        else
          '(err, rest, pos, resid) ←
            read_vector fuel node fd (s32 (len - l)) (u32 (pos + l)) (s32 (resid - l));
          mret (err, take (Z.to_nat l) buf ++ rest, pos, resid)
      else mret (ENOERR, [], pos, resid)
  end.

(** The vectors [iov_len] in turn; an error ends the call. *)
Fixpoint read_vectors (node fd : Z) (iov : list Z) (pos resid : Z) :
    fs_m (Z * list (list byte) * Z * Z) :=
  match iov with
  | [] => mret (ENOERR, [], pos, resid)
  | len :: iov =>
      '(err, buf, pos, resid) ← read_vector (S (Z.to_nat len)) node fd len pos resid;
      if negb (err =? ENOERR) then mret (err, [buf], pos, resid)
      else
        '(err, bufs, pos, resid) ← read_vectors node fd iov pos resid;
        mret (err, buf :: bufs, pos, resid)
  end.

(** Returns the error, the bytes stored in each vector, [uio_resid] and [*fp]. *)
Definition fatfs_fo_read (t : Z) (fp : cyg_file) (iov : list Z) (uio_resid : Z) :
    fs_m (Z * list (list byte) * Z * cyg_file) :=
  f ← get_fd (f_data fp);
  let node := fd_node f in
  '(err, bufs, pos, resid) ← read_vectors node (f_data fp) iov (u32 (f_offset fp)) uio_resid;
  if negb (err =? ENOERR) then mret (err, bufs, uio_resid, fp)
  else
    d ← node_dentry node;
    put_dentry node (set_atime t d) ;;
    mret (ENOERR, bufs, resid, set_offset (s32 pos) fp).

(** The loop over one vector of [fatfs_fo_write]: [inl] is the error that ends the
    call, [inr] the current error, [pos] and [resid] at the end of the loop. *)
Fixpoint write_vector (fuel : nat) (node fd : Z) (buf : list byte) (len err pos resid : Z) :
    fs_m (Z + Z * Z * Z) :=
  match fuel with
  | O => crash
  | S fuel =>
      if len >? 0 then
        d ← node_dentry node;
        f ← get_fd fd;
        '(err, l, fpos, d) ← on_dev (fatfs_write_data disk d (fd_pos f) buf (u32 len));
        put_pos fd fpos ;;
        put_dentry node d ;;
        let pos := u32 (pos + l) in
        let resid := s32 (resid - l) in
        if err =? ENOSPC then mret (inr (err, pos, resid))
        else if negb (err =? ENOERR) then mret (inl err)
        else write_vector fuel node fd (drop (Z.to_nat l) buf) (s32 (len - l)) err pos resid
      else mret (inr (err, pos, resid))
  end.

Fixpoint write_vectors (node fd : Z) (iov : list (list byte)) (err pos resid : Z) :
    fs_m (Z + Z * Z * Z) :=
  match iov with
  | [] => mret (inr (err, pos, resid))
  | buf :: iov =>
      let len := Z.of_nat (length buf) in
      r ← write_vector (S (Z.to_nat len)) node fd buf len err pos resid;
      match r with
      | inl err => mret (inl err)
      | inr (err, pos, resid) => write_vectors node fd iov err pos resid
      end
  end.

(** Returns the error, [uio_resid] and [*fp]. *)
Definition fatfs_fo_write (t : Z) (fp : cyg_file) (iov : list (list byte)) (uio_resid : Z) :
    fs_m (Z * Z * cyg_file) :=
  let fd := f_data fp in
  f ← get_fd fd;
  let node := fd_node f in
  fp ← (if flag (f_flag fp) O_APPEND then
          d ← node_dentry node;
          '(_, fpos) ← on_dev (fatfs_setpos disk d (fd_pos f) (size d));
          put_pos fd fpos ;;
          mret (set_offset (s32 (size d)) fp)
        else mret fp);
  let pos := u32 (f_offset fp) in
  d ← node_dentry node;
  if pos >? size d then mret (EINVAL, uio_resid, fp)
  else
    r ← write_vectors node fd iov ENOERR pos uio_resid;
    match r with
    | inl err => mret (err, uio_resid, fp)
    | inr (err, pos, resid) =>
        d ← node_dentry node;
        let d := set_amtime t d in
        put_dentry node (if pos >? size d then set_size pos d else d) ;;
        mret (err, resid, set_offset (s32 pos) fp)
    end.

(** Returns the error, [*apos] and [*fp]. *)
Definition fatfs_fo_lseek (fp : cyg_file) (apos whence : Z) : fs_m (Z * Z * cyg_file) :=
  f ← get_fd (f_data fp);
  d ← node_dentry (fd_node f);
  match (if whence =? SEEK_SET then Some apos
         else if whence =? SEEK_CUR then Some (s32 (apos + f_offset fp))
         else if whence =? SEEK_END then Some (s32 (apos + size d))
         else None) with
  | None => mret (EINVAL, apos, fp)
  | Some pos =>
      if (pos <? 0) || (u32 pos >? size d) then mret (EINVAL, apos, fp)
      else
        '(err, fpos) ← on_dev (fatfs_setpos disk d (fd_pos f) (u32 pos));
        put_pos (f_data fp) fpos ;;
        if err =? ENOERR then mret (err, pos, set_offset pos fp) else mret (err, apos, fp)
  end.

Definition fatfs_fo_ioctl (fp : cyg_file) (com data : Z) : fs_m Z := mret EINVAL.

Definition fatfs_fo_fsync (fp : cyg_file) (fmode : Z) : fs_m Z :=
  f ← get_fd (f_data fp);
  d ← node_dentry (fd_node f);
  err ← on_dev (fatfs_write_dir_entry disk d);
  if ENOERR =? err then on_dev lib_sync else mret err.

Definition fatfs_fo_close (fp : cyg_file) : fs_m Z :=
  f ← get_fd (f_data fp);
  let node := fd_node f in
  root ← get_root;
  err ← (if node =? root then mret ENOERR
         else d ← node_dentry node; on_dev (fatfs_write_dir_entry disk d));
  on_cache (fatfs_node_unref node) ;;
  free_fatfs_fd (f_data fp) ;;
  mret err.

Definition fatfs_fo_fstat (fp : cyg_file) : fs_m (Z * stat_t) :=
  f ← get_fd (f_data fp);
  d ← node_dentry (fd_node f);
  mret (ENOERR, stat_of d).

Definition fatfs_fo_getinfo (fp : cyg_file) (key : Z) : fs_m Z := mret EINVAL.
Definition fatfs_fo_setinfo (fp : cyg_file) (key : Z) : fs_m Z := mret EINVAL.

(** ** Directories *)
(** [len] is the length of the only vector. Returns the error, the name stored in
    the vector, [uio_resid] and [*fp]. *)
Definition fatfs_fo_dirread (t : Z) (fp : cyg_file) (len uio_resid : Z) :
    fs_m (Z * option (list byte) * Z * cyg_file) :=
  if u32 len <? sizeof_dirent then mret (EINVAL, None, uio_resid, fp)
  else
    f ← get_fd (f_data fp);
    d ← node_dentry (fd_node f);
    '(err, pos, e) ← on_dev (fatfs_read_dir_entry disk d (fd_pos f));
    put_pos (f_data fp) pos ;;
    if negb (err =? ENOERR) then mret (if err =? EEOF then ENOERR else err, None, uio_resid, fp)
    else
      match e with
      | None => crash
      | Some e =>
          d ← node_dentry (fd_node f);
          put_dentry (fd_node f) (set_atime t d) ;;
          mret (ENOERR, Some (filename e), s32 (uio_resid - sizeof_dirent),
                set_offset (s32 (f_offset fp + 1)) fp)
      end.

Definition fatfs_fo_dirlseek (fp : cyg_file) (apos whence : Z) : fs_m (Z * Z * cyg_file) :=
  if negb (whence =? SEEK_SET) || negb (apos =? 0) then mret (EINVAL, apos, fp)
  else
    f ← get_fd (f_data fp);
    d ← node_dentry (fd_node f);
    '(err, fpos) ← on_dev (fatfs_setpos disk d (fd_pos f) 0);
    put_pos (f_data fp) fpos ;;
    if ENOERR =? err then mret (err, 0, set_offset 0 fp) else mret (err, apos, fp).
End Fo.
