(* ===== verification/FatExample.v ===== *)
(** * FAT file system: a disk to try the theorems on

    The simplest store, a disk held in memory that never fails, and a small FAT12
    volume on it: ten clusters of 32 bytes, two tables, a root directory of two
    slots, with one file of three clusters and one of a single cluster. *)
From S2P Require Import Prelude Blib BlibContract FatDate FatStore FatTable FatTableSpec FatChain.
From S2P Require Import FatFile FatDentry FatDir FatDirSpec FatDirOps.

#[export] Instance ram_library : BlockLibrary image := {
  blib_read len bnum pos := fun c => Some (ENOERR, len, img_read c (bnum * 2 ^ 5 + pos) (Z.to_nat len), c);
  blib_write buf len bnum pos := fun c =>
    Some (ENOERR, len, img_write c (bnum * 2 ^ 5 + pos) (take (Z.to_nat len) buf));
  lib_sync := fun c => Some (ENOERR, c);
  lib_delete := fun c => Some (ENOERR, c);
  blib_block_size _ := 2 ^ 5;
  blib_block_size_log2 _ := 5;
}.

#[export] Instance ram_store : BlockStore ram_library 5.
Proof.
  refine {| good := fun c : image => forall x, is_byte (c x); content := fun c => c; durable := fun c => c |}.
  - lia.
  - done.
  - intros c x Hc. apply Hc.
  - intros c len bnum pos Hc Hlen _ _ _. eexists _, _. split; [reflexivity|].
    split_and!; try done. by left.
  - intros len bnum pos s a s' [= <- _]. done.
  - intros c buf len bnum pos Hc Hbuf Hlen _ _ _ _. eexists _, _. split; [reflexivity|].
    split_and!; try done; [|by left]. apply img_write_byte; [done|by apply Forall_take].
  - intros c Hc. by eexists _, _.
  - intros c Hc. by eexists _, _.
Defined.

Definition toy_disk : fatfs_disk_t := mk_disk 32 5 32 5 32 32 12 2 96 64 2 0 160 FATFS_FAT12.

Lemma toy_wf : disk_wf 5 toy_disk.
Proof. constructor; [..|intros _| |]; vm_compute; repeat split; congruence. Qed.

(** Entries 0 and 1 are reserved; then the chains 2, 3, 5 and 4. *)
Definition toy_table : list byte := [0xF8; 0xFF; 0xFF; 0x03; 0x50; 0x00; 0xF8; 0x8F; 0xFF].

(** 'A.TXT', 80 bytes, dated 2024. *)
Definition toy_file : fatfs_dir_entry_t :=
  mk_dentry [65; 46; 84; 88; 84] stat_mode_REG 80 1709251199 1709251199 1709251199 0 2 0 (mk_pos 0 0 0).

Definition toy_img : image := fun x =>
  if x <? 32 then 0
  else if x <? 64 then nth (Z.to_nat (x - 32)) toy_table 0
  else if x <? 96 then nth (Z.to_nat (x - 64)) toy_table 0
  else if x <? 128 then nth (Z.to_nat (x - 96)) (set_raw (dentry_to_raw toy_file)) 0
  else if x <? 160 then 0
  else x mod 256.

Lemma toy_name83 : good_name [65; 46; 84; 88; 84].
Proof.
  left. exists [65], [84; 88; 84]. split; [|done].
  constructor; cbn; try lia; repeat constructor; unfold is_byte, DOT, SPACE; lia.
Qed.

Lemma toy_file_ok : dentry_ok toy_file.
Proof.
  constructor; cbn; try done; [apply toy_name83|by right].
Qed.

Lemma nth_byte l n : Forall is_byte l -> is_byte (nth n l 0).
Proof. intros Hl. pose proof (nthZ_byte l (Z.of_nat n) Hl) as H. unfold nthZ in H. by rewrite Nat2Z.id in H. Qed.

Lemma bytes_check l : forallb (fun c => (0 <=? c) && (c <? 256)) l = true -> Forall is_byte l.
Proof.
  intros H. rewrite forallb_forall in H. apply Forall_forall. intros c Hc. apply list_elem_of_In in Hc.
  specialize (H c Hc). unfold is_byte. bool_lia.
Qed.

Lemma toy_good : good toy_img.
Proof.
  intros x. unfold toy_img. repeat case_match; try (unfold is_byte; lia).
  - by apply nth_byte, bytes_check.
  - by apply nth_byte, bytes_check.
  - apply nth_byte, set_raw_bytes, dentry_to_raw_ok, toy_file_ok.
  - apply Z.mod_pos_bound. lia.
Qed.

Lemma toy_chain : chain toy_disk (fat toy_disk toy_img) 2 [2; 3; 5].
Proof.
  apply chain_next; [split; vm_compute; congruence|reflexivity|].
  apply chain_next; [split; vm_compute; congruence|reflexivity|].
  apply chain_last; [split; vm_compute; congruence|reflexivity].
Qed.

Lemma toy_chain4 : chain toy_disk (fat toy_disk toy_img) 4 [4].
Proof. apply chain_last; [split; vm_compute; congruence|reflexivity]. Qed.

Lemma toy_root : holds_dir toy_disk toy_img 0 RootDir.
Proof. split; [done|]. split; [done|]. by exists 2. Qed.
