(* ===== verification/FatTheorems.v ===== *)
(** * FAT file system: its theorems

    What the functions of fatfs_supp.c guarantee over any store that satisfies the
    interface of [FatStore]; each is tried on the volume of [FatExample]. *)
From S2P Require Import Prelude Blib BlibContract FatDate FatStore FatTable FatTableSpec FatChain.
From S2P Require Import FatFile FatDentry FatDir FatDirSpec FatDirOps FatWrite FatInit FatExample.

Section Theorems.
Context {B : Type} {lib : BlockLibrary B} {log2 : Z} {store : BlockStore lib log2}.
Context (disk : fatfs_disk_t) (Hwf : disk_wf log2 disk).
Implicit Types (b : B) (l : list Z) (pos : fatfs_data_pos_t).

(** The table is an array. An entry that has been written is what is read
    afterwards, the other entries are as before (in FAT12 two entries share a byte),
    nothing outside the tables changes and the copies of the table stay equal. *)
Theorem fat_entry_update b num e :
  good b -> entry_index disk num -> 0 <= e < 2 ^ entry_bits disk ->
  wp (write_tentry disk num e) (fun err b' =>
    good b' /\ same_data disk (content b) (content b') /\
    (err = ENOERR ->
     (mirrored disk (content b) -> mirrored disk (content b')) /\
     forall n, entry_index disk n ->
       wp (read_tentry disk n) (fun '(err2, x) b2 => good b2 /\ content b2 = content b' /\
         (err2 = ENOERR -> x = Some (if decide (n = num) then e else fat disk b n))) b')) b.
Proof.
  intros Hb Hn He. eapply wp_mono; [by apply (write_tentry_spec disk Hwf)|].
  intros err b' (Hb' & Hs & Hok). do 2 (split; [done|]). intros Herr. specialize (Hok Herr). split.
  { rewrite Hok. by apply (tbl_set_mirrored disk Hwf). }
  intros n Hn'. eapply wp_mono; [by apply (read_tentry_spec disk Hwf)|].
  intros [err2 x] b2 (Hb2 & Hc2 & Hr). do 2 (split; [done|]). intros He2.
  destruct Hr as [[_ ->]|[? _]]; [|done]. f_equal. rewrite Hok. unfold fat.
  apply (tbl_get_set disk Hwf); try done. intros y. by apply store_byte.
Qed.

(** C0: [find_next_free_cluster] claims a cluster that was free, marking it the end
    of a chain and erasing it when asked to; its answer "no space" is only given when
    no other cluster than the first one asked about is free, and then nothing has
    changed. Besides the tables it only touches the erased cluster. *)
Theorem free_cluster_ok b start opts :
  good b -> 0 <= start < fat_tbl_nents disk ->
  wp (find_next_free_cluster disk start opts) (fun '(err, c) b' =>
    good b' /\ only_changes (claim_region disk b opts) b b' /\
    ((err = ENOERR /\ c <> start /\ claimed disk b b' c opts) \/
     (err = ENOSPC /\ c = 0 /\ content b' = content b /\
        forall k, valid_cluster disk k -> k <> start -> not_free disk b k) \/
     err <> ENOERR)) b.
Proof.
  intros Hb Hs. eapply wp_mono; [by apply (find_next_free_cluster_spec disk Hwf)|].
  intros [err c] b' H. exact H.
Qed.

(** Extending a chain appends to it one cluster that was free and that no chain
    contains; every other chain of the disk stays what it was. *)
Theorem append_cluster_ok b f0 l c opts :
  good b -> chain disk (fat disk b) f0 l -> list.last l = Some c ->
  wp (find_and_append_cluster disk c opts) (fun '(err, new) b' =>
    good b' /\ only_changes (claim_region disk b opts) b b' /\
    (err = ENOERR -> chain disk (fat disk b') f0 (l ++ [new]) /\
       forall f1 l1, chain disk (fat disk b) f1 l1 -> c ∉ l1 ->
         new ∉ l1 /\ chain disk (fat disk b') f1 l1)) b.
Proof.
  intros Hb Hch Hlast. pose proof (chain_valid _ _ _ _ Hch) as Hva. rewrite Forall_forall in Hva.
  eapply wp_mono; [apply (find_and_append_cluster_spec disk Hwf); [done|]|].
  { apply Hva. by apply last_Some_elem_of. }
  intros [err new] b' (Hb' & Hc & Hok). do 2 (split; [done|]). intros Herr.
  destruct (Hok Herr) as [Hne Ha]. split; [by eapply (appended_chain disk Hwf)|].
  intros f1 l1 Hch1 Hc1. split; [|by eapply (appended_other disk)].
  intros Hin. by apply (chain_not_free disk _ _ _ _ Hch1 Hin), (ap_free _ _ _ _ _ _ Ha).
Qed.

(** C0: [free_cluster_chain] ends; without an error every cluster of the chain is
    free and every other entry of the table is as it was. *)
Theorem free_chain_ok b c l :
  good b -> chain disk (fat disk b) c l ->
  wp (free_cluster_chain disk c) (fun err b' =>
    good b' /\ only_changes (in_tables disk) b b' /\
    (err = ENOERR -> forall n, entry_index disk n ->
       fat disk b' n = if decide (n ∈ l) then 0 else fat disk b n)) b.
Proof. apply (free_cluster_chain_spec disk Hwf). Qed.

(** C0: [fatfs_get_disk_usage] counts the free clusters of the disk. *)
Theorem disk_usage_ok b :
  good b ->
  wp (fatfs_get_disk_usage disk) (fun '(err, total, nfree) b' =>
    good b' /\ content b' = content b /\
    (err = ENOERR -> total = fat_tbl_nents disk - 2 /\ nfree = free_count disk b)) b.
Proof.
  intros Hb. pose proof (wf_nents _ _ Hwf). destruct (wf_offsets _ _ Hwf) as (_ & _ & _ & _ & _ & Hn).
  apply wp_bind. eapply wp_mono; [apply (usage_loop_spec disk Hwf); [done|lia..]|].
  intros [err k] b1 (Hb1 & Hc1 & Hok). cbn beta iota.
  destruct (Z.eqb_spec err ENOERR) as [->|]; cbn [negb]; apply wp_ret; split_and!; try done.
  intros _. rewrite uwrap_small by lia. split; [done|]. rewrite (Hok eq_refl). unfold free_count.
  by rewrite Z2Nat.id by lia.
Qed.

(** ** Files *)

(** C0: [fatfs_setpos] finds the position of every offset of a file, from any
    earlier position and up to the end of its last cluster, and [fatfs_getpos] reads
    the offset back; past the end of the clusters the answer is an error. *)
Theorem seek_ok b file l pos offset :
  good b -> chain disk (fat disk b) (d_cluster file) l -> pos_ok disk l pos -> fits 32 offset ->
  0 <= size file <= file_room disk l -> file_room disk l < 2 ^ 32 ->
  wp (fatfs_setpos disk file pos offset) (fun '(err, pos') b' =>
    good b' /\ content b' = content b /\
    ((err = ENOERR /\ pos_ok disk l pos' /\ fatfs_getpos disk pos' = offset) \/
     (err = EEOF /\ file_room disk l <= offset /\ offset <> size file) \/
     device_error err)) b.
Proof.
  intros Hb Hch [Hp _] Hoff Hsz Hroom. pose proof (cs_pos disk Hwf) as Hcs.
  pose proof (wf_cluster _ _ Hwf) as Hc2. pose proof (wf_log2 _ _ Hwf) as Hl2.
  assert (forall p, pos_ok disk l p -> fatfs_getpos disk p = pos_offset disk p) as Hget.
  { intros p Hpo. pose proof (pos_offset_bound disk Hwf _ _ Hpo) as Hb2.
    destruct Hpo as [[Hs _] Hcp]. unfold fatfs_getpos, pos_offset in *.
    rewrite Z.shiftl_mul_pow2, <- Hc2 by lia. rewrite (uwrap_small 32 (_ * _)) by nia.
    apply uwrap_small. lia. }
  apply wp_bind. eapply wp_mono; [by eapply (get_position_from_off_spec disk Hwf)|].
  intros [err pos'] b' (Hb' & Hc & Hr). cbn beta iota. apply wp_ret. do 2 (split; [done|]).
  destruct Hr as [(-> & Hp' & Ho & Hcp)|[(-> & Hp' & Hcp & Ho & Hge)|[He1 He2]]].
  - left. assert (pos_ok disk l pos') as Hpo by (split; [done|lia]). split_and!; try done.
    by rewrite Hget.
  - rewrite Z.eqb_refl. cbn [andb]. change (pos_offset disk pos' = file_room disk l) in Ho.
    destruct (Z.eqb_spec offset (size file)) as [->|Hne].
    + left. assert (pos_ok disk l pos') as Hpo by (split; [done|lia]).
      split_and!; try done. rewrite Hget by done. lia.
    + right. left. split_and!; try done. lia.
  - rewrite (proj2 (Z.eqb_neq EEOF err)) by congruence. right. right. by split.
Qed.

(** C0: [fatfs_read_data] delivers the bytes of the file from the position on, across
    the clusters of its chain; it stops early only at the end of the last cluster or
    on a device error, and the bytes it counted are right in any case. *)
Theorem read_file_ok b file l pos len :
  good b -> chain disk (fat disk b) (d_cluster file) l -> pos_ok disk l pos -> fits 32 len ->
  wp (fatfs_read_data disk file pos len) (fun '(err, n, buf, pos') b' =>
    good b' /\ content b' = content b /\ 0 <= n <= len /\
    take (Z.to_nat n) buf = file_read disk b l (pos_offset disk pos) (Z.to_nat n) /\
    (err = ENOERR -> n = len) /\
    (err = EEOF -> n < len /\ pos_offset disk pos + n = file_room disk l) /\
    (err = ENOERR \/ err = EEOF -> pos_ok disk l pos' /\ pos_offset disk pos' = pos_offset disk pos + n)) b.
Proof.
  intros Hb Hch Hp Hlen. unfold fits in Hlen. apply wp_bind.
  eapply wp_mono; [eapply (read_data_loop_spec disk Hwf _ l); [done|done|done|lia|lia]|].
  intros [[[err rem] buf] pos'] b' (Hb' & Hc & Hrem & Hbuf & He1 & He2 & Hpo & Ho).
  apply wp_ret. rewrite uwrap_small by lia. split_and!; try done; try lia.
  intros He. split; [done|by apply Ho].
Qed.

(** C2: what [fatfs_write_data] has written is what [fatfs_read_data] delivers: the
    data of a file follows its writes, the chain growing with free clusters when it
    is too short; the other bytes of the file and every other file keep theirs. *)
Theorem write_read_ok b file l pos buf len :
  good b -> chain disk (fat disk b) (d_cluster file) l -> pos_ok disk l pos ->
  Forall is_byte buf -> fits 32 len -> len <= Z.of_nat (length buf) ->
  wp (fatfs_write_data disk file pos buf len) (fun '(err, n, pos', file') b' =>
    good b' /\ file' = file /\ 0 <= n <= len /\
    (err = ENOERR -> n = len /\ exists l', saved disk b b' (d_cluster file) l l' pos pos' buf len /\
       forall pos2, pos_ok disk l' pos2 -> pos_offset disk pos2 = pos_offset disk pos ->
         wp (fatfs_read_data disk file pos2 len) (fun '(err2, n2, data, _) b2 =>
           content b2 = content b' /\
           (err2 = ENOERR -> n2 = len /\ take (Z.to_nat len) data = take (Z.to_nat len) buf)) b')) b.
Proof.
  intros Hb Hch Hp Hbuf Hlen Hl. unfold fatfs_write_data.
  assert (0 =? d_cluster file = false) as ->.
  { apply Z.eqb_neq. assert (valid_cluster disk (d_cluster file)) as Hv by by inversion Hch.
    unfold valid_cluster in Hv. lia. }
  rewrite andb_false_r. apply wp_bind. eapply wp_mono; [by eapply (write_data_saved disk Hwf)|].
  intros [[err n] pos'] b' (Hb' & Hn & Hok). apply wp_ret. split_and!; try done; try lia.
  intros He. destruct (Hok He) as (-> & l' & Hs). split; [done|]. exists l'. split; [done|].
  intros pos2 Hp2 Ho2. apply wp_bind. unfold fits in Hlen.
  eapply wp_mono; [eapply (read_data_loop_spec disk Hwf); [done|by destruct Hs|done|lia|lia]|].
  intros [[[err2 rem] data] pos3] b2 (_ & Hc2 & Hrem & Hd & He2 & _). apply wp_ret. split; [done|].
  intros ->. specialize (He2 eq_refl) as ->. rewrite Z.sub_0_r in *.
  rewrite uwrap_small by lia. split; [done|]. rewrite Hd, Ho2. apply Hs.
Qed.

(** The first write to an empty file gives it a first cluster that was free; its
    data is then what was written, and no other file has changed. *)
Theorem write_new_ok b file pos buf len :
  good b -> size file = 0 -> d_cluster file = 0 ->
  Forall is_byte buf -> fits 32 len -> len <= Z.of_nat (length buf) ->
  wp (fatfs_write_data disk file pos buf len) (fun '(err, n, pos', file') b' =>
    good b' /\
    (err = ENOERR -> n = len /\ exists c l', file' = set_d_cluster c file /\
       chain disk (fat disk b') c l' /\ (forall k, k ∈ l' -> is_free disk b k) /\
       file_read disk b' l' 0 (Z.to_nat len) = take (Z.to_nat len) buf /\
       pos_offset disk pos' = len /\
       forall f1 l1, chain disk (fat disk b) f1 l1 -> kept disk b b' f1 l1)) b.
Proof.
  intros. eapply wp_mono; [by apply (write_new_saved disk Hwf)|].
  intros [[[err n] pos'] file'] b' [Hb' Hok]. split; [done|]. intros He.
  destruct (Hok He) as (-> & c & b1 & l' & -> & [] & Hfree & Hk). split; [done|].
  destruct sv_pos as [_ Ho]. exists c, l'. split_and!; done.
Qed.

(** ** Directory entries *)

(** Reading a directory delivers its next entry in use: deleted slots are passed
    over, the search ends at the first empty slot or at the end of the directory,
    along the clusters of a directory as in the fixed root; it always ends. *)
Theorem read_dir_ok b c d dir pos i :
  good b -> holds_dir disk b c d -> at_slot disk d (correct_root disk pos) i -> 0 <= i ->
  wp (fatfs_read_dir_entry disk dir pos) (fun '(err, pos', dentry) b' =>
    good b' /\ content b' = content b /\
    ((err = ENOERR /\ exists j p, i <= j < slots disk d /\ at_slot disk d p j /\
        used (slot disk b d j) /\ dentry = Some (raw_to_dentry (slot disk b d j) p (d_cluster dir)) /\
        at_slot disk d pos' (j + 1) /\ forall k, i <= k < j -> deleted (slot disk b d k)) \/
     (err = EEOF /\ exists j, i <= j /\ (j < slots disk d -> DENTRY_IS_ZERO (slot disk b d j) = true) /\
        forall k, i <= k < j -> k < slots disk d -> deleted (slot disk b d k)) \/
     device_error err)) b.
Proof. apply (fatfs_read_dir_entry_spec disk Hwf). Qed.

Lemma raw_to_dentry_pos r p p' parent :
  raw_to_dentry r p parent = set_disk_pos p (raw_to_dentry r p' parent).
Proof. done. Qed.

(** An entry that was stored in slot [j] is what reading the directory there delivers. *)
Lemma entry_read_back b c d j dir file :
  good b -> holds_dir disk b c d -> at_slot disk d (disk_pos file) j -> 0 <= j < slots disk d ->
  slot disk b d j = dentry_to_raw file -> dentry_ok file -> parent_cluster file = d_cluster dir ->
  315532800 <= ctime file -> 315532800 <= atime file -> 315532800 <= mtime file ->
  wp (fatfs_read_dir_entry disk dir (disk_pos file)) (fun '(err, pos', dentry) b' =>
    content b' = content b /\
    ((err = ENOERR /\ at_slot disk d pos' (j + 1) /\ exists p, at_slot disk d p j /\
        dentry = Some (set_disk_pos p (stored file))) \/ device_error err)) b.
Proof.
  intros Hb Hd Hp Hj Hslot Hok Hpar Hc Ha Hm. destruct (dentry_to_raw_used file Hok) as [Hz Hdel].
  rewrite <- Hslot in Hz, Hdel.
  eapply wp_mono; [eapply (fatfs_read_dir_entry_spec disk Hwf b c d dir (disk_pos file) j);
    [done|done| |lia]|].
  { by rewrite (at_slot_correct disk _ _ _ _ _ Hd Hp). }
  intros [[err pos'] dentry] b' (_ & Hc' & Hr). split; [done|].
  destruct Hr as [(-> & k & p & Hk & Hpk & _ & -> & Hn & Hall)|[(-> & k & Hk & Hkz & Hall)|He]]; [left| |by right].
  - assert (k = j) as ->.
    { destruct (decide (k = j)); [done|]. destruct (Hall j); [lia|congruence]. }
    split_and!; [done..|]. exists p. split; [done|]. rewrite Hslot. f_equal.
    rewrite (raw_to_dentry_pos _ p (disk_pos file)), <- Hpar. by rewrite raw_dentry_roundtrip.
  - exfalso. destruct (decide (k = j)) as [->|]; [rewrite Hkz in Hz by lia; done|].
    destruct (Hall j); [lia..|congruence].
Qed.

(** C38: an entry written to a slot of a directory by [fatfs_write_dir_entry] changes no
    byte outside the slot, and [fatfs_read_dir_entry] at that slot then delivers it, or
    an error of the device, and never the end of the directory: the name comes back in
    upper case, the times rounded to two seconds and the date of access to the day, the
    other fields as they were. The entry is one the format can hold: its name is 8.3
    (or one of the two links), its first byte is not 0xE5, the mark of a deleted entry,
    which the code does not escape, and its times lie between 1980 and 2038. *)
Theorem dentry_roundtrip b c d i dir file :
  good b -> holds_dir disk b c d -> at_slot disk d (disk_pos file) i -> 0 <= i < slots disk d ->
  page_in disk d (disk_pos file) -> dentry_ok file -> parent_cluster file = d_cluster dir ->
  315532800 <= ctime file -> 315532800 <= atime file -> 315532800 <= mtime file ->
  wp (fatfs_write_dir_entry disk file) (fun err b' =>
    good b' /\ holds_dir disk b' c d /\ only_changes (in_slot disk d i) b b' /\
    (err = ENOERR ->
      wp (fatfs_read_dir_entry disk dir (disk_pos file)) (fun '(err2, pos2, dentry) b2 =>
        content b2 = content b' /\
        ((err2 = ENOERR /\ at_slot disk d pos2 (i + 1) /\ exists p, at_slot disk d p i /\
            dentry = Some (set_disk_pos p (stored file))) \/ device_error err2)) b')) b.
Proof.
  intros Hb Hd Hp Hi Hin Hok Hpar Hc Ha Hm. unfold fatfs_write_dir_entry.
  eapply wp_mono; [apply (write_raw_dentry_spec disk Hwf b c d (disk_pos file) i);
    [done..|by apply dentry_to_raw_ok]|].
  intros err b' (Hb' & Hch & Hslot).
  destruct (slot_change disk Hwf b b' c d i Hd Hi Hch) as (_ & Hd' & _). split_and!; try done.
  intros He. apply (entry_read_back b' c d i); auto.
Qed.

(** C28: when [fatfs_create_file] succeeds, it has filled the first slot of the directory
    that was not in use. Only when every slot was in use has the directory changed its
    clusters: it has one more at its end, which was free, and whose other slots are
    empty. The new entry, as the format stores it, is what reading the directory there
    delivers, and neither the other slots nor any other file have changed. The name
    is 8.3 with at most 12 characters and its first byte is not 0xE5, and the time lies
    between 1980 and 2038. *)
Theorem create_file_ok timestamp b d dir n namelen :
  good b -> holds_dir disk b (start_cluster disk dir) d -> 0 < namelen <= 12 ->
  good_name (take (Z.to_nat namelen) n) -> char_at (take (Z.to_nat namelen) n) <> 0xE5 ->
  315532800 <= timestamp < 2 ^ 31 ->
  wp (fatfs_create_file timestamp disk dir n namelen) (fun '(err, r) b' =>
    good b' /\ (err = ENOERR -> exists p j d', let file :=
        new_entry timestamp (take (Z.to_nat namelen) n) stat_mode_REG (d_cluster dir) 0 p in
      r = Some file /\ entered disk b b' (start_cluster disk dir) d d' j file /\
      wp (fatfs_read_dir_entry disk dir p) (fun '(err2, pos2, dentry) b2 =>
        content b2 = content b' /\
        ((err2 = ENOERR /\ at_slot disk d' pos2 (j + 1) /\ exists p2, at_slot disk d' p2 j /\
            dentry = Some (set_disk_pos p2 (stored file))) \/ device_error err2)) b')) b.
Proof.
  intros Hb Hd Hlen Hn HE Ht.
  eapply wp_mono; [eapply (create_file_spec disk Hwf timestamp b d); try done; lia|].
  intros [err r] b' [Hb' Hok]. split; [done|]. intros He.
  destruct (Hok He) as (p & j & d' & Hr & Hen). exists p, j, d'. cbv zeta. do 2 (split; [done|]).
  destruct Hen as [Hj Hd' Hp _ _ Hslot].
  apply (entry_read_back b' (start_cluster disk dir) d' j dir (new_entry _ _ _ _ _ p));
    try done; cbn; try lia.
  constructor; cbn; try done; try (by right); unfold fits, is_byte; lia.
Qed.

(** C30: once its clusters are released, [fatfs_delete_file] marks the entry of the file
    deleted: all its clusters are free, the other entries of the table, the other
    slots and the rest of the directory are as they were. *)
Theorem delete_file_ok b b1 c d i l file :
  good b -> holds_dir disk b c d -> at_slot disk d (disk_pos file) i -> 0 <= i < slots disk d ->
  page_in disk d (disk_pos file) -> dentry_ok file -> mode file = stat_mode_REG ->
  chain disk (fat disk b) (d_cluster file) l -> apart d l ->
  free_cluster_chain disk (d_cluster file) b = Some (ENOERR, b1) ->
  wp (fatfs_delete_file disk file) (fun err b' =>
    good b' /\ (err = ENOERR -> DENTRY_IS_DELETED (slot disk b' d i) = true /\
      released disk b b' c d i l (raw_dentry_set_deleted (dentry_to_raw file)))) b.
Proof.
  intros. eapply wp_mono; [by eapply (delete_file_spec disk Hwf b b1 c d i l)|].
  intros err b' [Hb' Hok]. split; [done|]. intros He. specialize (Hok He). split; [|done].
  by rewrite (re_entry _ _ _ _ _ _ _ _ Hok).
Qed.

(** C0: [fatfs_trunc_file] leaves a file of size 0 without clusters: all those it had
    are free, its entry on the disk says so, and nothing else has changed. *)
Theorem trunc_file_ok timestamp b c d i l file :
  good b -> holds_dir disk b c d -> at_slot disk d (disk_pos file) i -> 0 <= i < slots disk d ->
  page_in disk d (disk_pos file) -> dentry_ok file -> mode file = stat_mode_REG ->
  size file <> 0 -> 0 <= timestamp < 2 ^ 31 ->
  chain disk (fat disk b) (d_cluster file) l -> apart d l ->
  wp (fatfs_trunc_file timestamp disk file) (fun '(err, file') b' =>
    good b' /\ (err = ENOERR -> size file' = 0 /\ d_cluster file' = 0 /\ mtime file' = timestamp /\
      released disk b b' c d i l (dentry_to_raw file'))) b.
Proof.
  intros. eapply wp_mono; [by eapply (trunc_file_spec disk Hwf timestamp b c d i l)|].
  intros [err file'] b' [Hb' Hok]. split; [done|]. intros He. destruct (Hok He) as [-> Hr]. done.
Qed.

(** Deleting an empty file releases the chain that starts at cluster 0, which is
    no cluster: when entry 0 of the table reads as the end of a chain, as it does for
    a hard disk (media 0xF8), the media descriptor is overwritten with 0. *)
Theorem delete_empty_file_clears_media b file :
  good b -> dentry_ok file -> mode file = stat_mode_REG -> d_cluster file = 0 ->
  get_tentry_type disk (fat disk b 0) = TENTRY_LAST ->
  wp (free_cluster_chain disk 0) (fun err b1 =>
    good b1 /\ (err = ENOERR -> fat disk b1 0 = 0 /\ fatfs_delete_file disk file b
      = write_raw_dentry disk (disk_pos file) (raw_dentry_set_deleted (dentry_to_raw file)) b1)) b.
Proof.
  intros Hb Hok Hm Hcl Hlast. pose proof (wf_nents _ _ Hwf) as Hn.
  assert (entry_index disk 0) as Hi by (unfold entry_index; lia).
  assert (wp (free_cluster_chain disk 0) (fun err b1 => good b1 /\ (err = ENOERR -> fat disk b1 0 = 0)) b)
    as (err & b1 & Hrun & Hb1 & Hf).
  { unfold free_cluster_chain. cbn [free_chain_loop]. apply wp_bind.
    eapply wp_mono; [by apply (read_fat_spec disk Hwf)|].
    intros [err e] b1 (Hb1 & Hc1 & Hr). cbn beta iota.
    destruct Hr as [[-> ->]|[[He _] ->]]; [|by apply wp_ret].
    rewrite decide_True by done.
    eapply wp_mono; [by apply (mark_cluster_spec disk Hwf b1 0 TENTRY_FREE 0); [..|apply set_free]|].
    intros err b2 (Hb2 & _ & Hok2). split; [done|]. intros He. rewrite (Hok2 He 0 Hi).
    by rewrite decide_True. }
  exists err, b1. split; [done|]. split; [done|]. intros ->. split; [by apply Hf|].
  unfold fatfs_delete_file. rewrite not_root_dir, regular_not_dir by done. cbv zeta.
  rewrite raw_cluster, Hcl by apply Hok. unfold mbind, M_bind, mret, M_ret.
  change (0 >? 2) with false. cbn beta iota. by rewrite Hrun.
Qed.

(** ** Mounting *)

(** The boot record in the first blocks of an image. *)
Definition boot_of (c : image) : fat_boot_record_t :=
  parse_boot_record (img_read c 0 0x5A) (img_read c 0x1FE 2).
Definition signed (r : fat_boot_record_t) : Prop :=
  (ext_sig r = 0x29 \/ ext_sig r = 0x28) /\ nthZ (exe_marker r) 0 = 0x55 /\ nthZ (exe_marker r) 1 = 0xAA.

Lemma read_boot_record_spec b :
  good b ->
  wp read_boot_record (fun '(err, r) b' => good b' /\ content b' = content b /\
    ((err = ENOERR /\ r = Some (boot_of (content b))) \/ (err <> ENOERR /\ r = None))) b.
Proof.
  intros Hb. unfold read_boot_record. apply wp_bind.
  eapply wp_mono; [apply (disk_read_spec b); [done|lia|lia|lia|by unfold fits]|].
  intros [[err n] data] b1 (Hb1 & Hc1 & Ht & ->). cbn beta iota.
  destruct (Z.eqb_spec err ENOERR) as [->|Herr]; cbn [negb]; [|apply wp_ret; split_and!; auto].
  destruct Ht as [[_ ->]|[? _]]; [|done]. apply wp_bind.
  eapply wp_mono; [apply (disk_read_spec b1); [done|lia|lia|lia|by unfold fits]|].
  intros [[err n] data2] b2 (Hb2 & Hc2 & Ht2 & ->). cbn beta iota.
  destruct (Z.eqb_spec err ENOERR) as [->|Herr]; cbn [negb]; apply wp_ret;
    (split; [done|]; split; [congruence|]); [left|by right].
  destruct Ht2 as [[_ ->]|[? _]]; [|done]. split; [done|]. unfold boot_of. by rewrite Hc1.
Qed.

(** C29: mounting reads the geometry of the volume from its boot record and nothing is
    written. On a volume with the signatures of a boot record whose record is
    consistent ([volume_ok]: sector and cluster sizes are powers of two, at least a
    block to the cluster, the tables cover the clusters, the system areas end below
    4 GB, the volume holds what it says, and no more clusters than regular entries can
    name) it succeeds unless the device fails to deliver the record: the tables, the
    root directory and the clusters are where the record puts them, of the type that
    the number of clusters gives, and the geometry is well formed, that is, without
    overlap and within reach, as all the theorems on mounted volumes require. *)
Theorem mount_ok b sl cl :
  good b -> signed (boot_of (content b)) -> volume_ok log2 sl cl (boot_of (content b)) ->
  wp fatfs_init (fun '(err, d) b' => good b' /\ content b' = content b /\
    match d with
    | Some vol => err = ENOERR /\ disk_wf log2 vol /\ laid_out (boot_of (content b)) vol
    | None => err <> ENOERR /\ exists b1, read_boot_record b = Some (err, None, b1)
    end) b.
Proof.
  intros Hb [Hsig [Hm0 Hm1]] Hv. destruct (geometry_ok _ _ _ _ Hv) as (vol & Hg & Hvw & Hlo).
  destruct Hv as [[Hl1 Hl2] [Hsl Hbps] [Hcl Hspc]].
  destruct (read_boot_record_spec b Hb) as ([err r] & b1 & Hrun & Hb1 & Hc1 & Hr).
  apply wp_bind. exists (err, r), b1. split; [done|].
  destruct Hr as [[-> ->]|[Herr ->]]; cbn beta iota; [|apply wp_ret; split_and!; eauto].
  set (rec := boot_of (content b)) in *.
  assert ((0x29 =? ext_sig rec) || (0x28 =? ext_sig rec) = true) as ->.
  { destruct Hsig as [-> | ->]; done. }
  rewrite Hm0, Hm1, !Z.eqb_refl. cbn [negb orb].
  rewrite Hbps, Hspc, <- Z.pow_add_r, !get_val_log2_pow by lia.
  rewrite (proj2 (Z.eqb_neq 0 sl)), (proj2 (Z.eqb_neq 0 (sl + cl))) by lia. cbn [orb].
  rewrite Hg. by apply wp_ret.
Qed.

(** A volume without the signatures of a boot record, or whose sector or cluster
    size is not a power of two, is refused. *)
Theorem mount_rejects b :
  good b -> let r := boot_of (content b) in
  0 < bytes_per_sec r < 2 ^ 32 -> 0 < bytes_per_sec r * sec_per_clu r < 2 ^ 32 ->
  ~ signed r \/ (forall k, 0 <= k -> bytes_per_sec r <> 2 ^ k) \/
    (forall k, 0 <= k -> bytes_per_sec r * sec_per_clu r <> 2 ^ k) ->
  wp fatfs_init (fun '(err, d) b' => good b' /\ content b' = content b /\ err <> ENOERR /\ d = None) b.
Proof.
  intros Hb r Hs1 Hs2 Hbad. apply wp_bind. eapply wp_mono; [by apply read_boot_record_spec|].
  intros [err r'] b1 (Hb1 & Hc1 & [[-> ->]|[Herr ->]]); cbn beta iota; [|by apply wp_ret].
  fold r. destruct (_ || _ || _) eqn:Hsig; [by apply wp_ret|].
  apply orb_false_iff in Hsig as [Hsig Hm1]. apply orb_false_iff in Hsig as [Hsig Hm0].
  apply negb_false_iff in Hsig, Hm0, Hm1. apply orb_true_iff in Hsig. rewrite !Z.eqb_eq in *.
  destruct Hbad as [Hns|Hpow].
  { exfalso. apply Hns. split; [|done]. destruct Hsig; [left|right]; done. }
  destruct (log2_loop_total _ Hs1) as (i1 & k1 & Hl1 & _).
  destruct (log2_loop_total _ Hs2) as (i2 & k2 & Hl2 & _).
  assert (exists v, get_val_log2 (bytes_per_sec r) = Some v) as [v1 Hv1]
    by (unfold get_val_log2; rewrite Hl1; case_match; eauto).
  assert (exists v, get_val_log2 (bytes_per_sec r * sec_per_clu r) = Some v) as [v2 Hv2]
    by (unfold get_val_log2; rewrite Hl2; case_match; eauto).
  rewrite Hv1, Hv2. assert ((0 =? v1) || (0 =? v2) = true) as ->; [|by apply wp_ret].
  destruct Hpow as [Hp|Hp]; apply orb_true_iff; [left|right]; apply Z.eqb_eq.
  - rewrite (get_val_log2_other _ Hs1 Hp) in Hv1. by injection Hv1.
  - rewrite (get_val_log2_other _ Hs2 Hp) in Hv2. by injection Hv2.
Qed.
End Theorems.

(** ** On the volume of [FatExample] *)
#[local] Ltac in_range := (unfold entry_index, fits, valid_cluster; vm_compute; split; congruence).

Lemma toy_pos : pos_ok toy_disk [2; 3; 5] (mk_pos 3 1 20).
Proof. split; [split; [|reflexivity]|]; vm_compute; [|split]; congruence. Qed.

Lemma toy_slot : at_slot toy_disk RootDir (mk_pos 0 0 0) 0.
Proof. done. Qed.

Lemma toy_bytes : Forall is_byte (repeat 7 40).
Proof. by apply bytes_check. Qed.

Lemma fat_entry_update_witness :
  wp (write_tentry toy_disk 4 6) (fun err b' =>
    good b' /\ same_data toy_disk (content toy_img) (content b') /\
    (err = ENOERR ->
     (mirrored toy_disk (content toy_img) -> mirrored toy_disk (content b')) /\
     forall n, entry_index toy_disk n ->
       wp (read_tentry toy_disk n) (fun '(err2, x) b2 => good b2 /\ content b2 = content b' /\
         (err2 = ENOERR -> x = Some (if decide (n = 4) then 6 else fat toy_disk toy_img n))) b')) toy_img.
Proof. apply (fat_entry_update toy_disk toy_wf toy_img 4 6); [apply toy_good|in_range..]. Defined.

Lemma free_cluster_ok_witness :
  wp (find_next_free_cluster toy_disk 3 CO_MARK_LAST) (fun '(err, c) b' =>
    good b' /\ only_changes (claim_region toy_disk toy_img CO_MARK_LAST) toy_img b' /\
    ((err = ENOERR /\ c <> 3 /\ claimed toy_disk toy_img b' c CO_MARK_LAST) \/
     (err = ENOSPC /\ c = 0 /\ content b' = content toy_img /\
        forall k, valid_cluster toy_disk k -> k <> 3 -> not_free toy_disk toy_img k) \/
     err <> ENOERR)) toy_img.
Proof. apply (free_cluster_ok toy_disk toy_wf toy_img 3 CO_MARK_LAST); [apply toy_good|in_range]. Defined.

Lemma append_cluster_ok_witness :
  wp (find_and_append_cluster toy_disk 5 CO_EXTEND) (fun '(err, new) b' =>
    good b' /\ only_changes (claim_region toy_disk toy_img CO_EXTEND) toy_img b' /\
    (err = ENOERR -> chain toy_disk (fat toy_disk b') 2 ([2; 3; 5] ++ [new]) /\
       forall f1 l1, chain toy_disk (fat toy_disk toy_img) f1 l1 -> 5 ∉ l1 ->
         new ∉ l1 /\ chain toy_disk (fat toy_disk b') f1 l1)) toy_img.
Proof.
  apply (append_cluster_ok toy_disk toy_wf toy_img 2 [2; 3; 5] 5 CO_EXTEND);
    [apply toy_good|apply toy_chain|reflexivity].
Defined.

Lemma free_chain_ok_witness :
  wp (free_cluster_chain toy_disk 2) (fun err b' =>
    good b' /\ only_changes (in_tables toy_disk) toy_img b' /\
    (err = ENOERR -> forall n, entry_index toy_disk n ->
       fat toy_disk b' n = if decide (n ∈ [2; 3; 5]) then 0 else fat toy_disk toy_img n)) toy_img.
Proof. apply (free_chain_ok toy_disk toy_wf toy_img 2 [2; 3; 5]); [apply toy_good|apply toy_chain]. Defined.

Lemma disk_usage_ok_witness :
  wp (fatfs_get_disk_usage toy_disk) (fun '(err, total, nfree) b' =>
    good b' /\ content b' = content toy_img /\
    (err = ENOERR -> total = fat_tbl_nents toy_disk - 2 /\ nfree = free_count toy_disk toy_img)) toy_img.
Proof. apply (disk_usage_ok toy_disk toy_wf toy_img), toy_good. Defined.

Lemma seek_ok_witness :
  wp (fatfs_setpos toy_disk toy_file (mk_pos 3 1 20) 70) (fun '(err, pos') b' =>
    good b' /\ content b' = content toy_img /\
    ((err = ENOERR /\ pos_ok toy_disk [2; 3; 5] pos' /\ fatfs_getpos toy_disk pos' = 70) \/
     (err = EEOF /\ file_room toy_disk [2; 3; 5] <= 70 /\ 70 <> size toy_file) \/
     device_error err)) toy_img.
Proof.
  apply (seek_ok toy_disk toy_wf toy_img toy_file [2; 3; 5] (mk_pos 3 1 20) 70);
    [apply toy_good|apply toy_chain|apply toy_pos|in_range|in_range|reflexivity].
Defined.

Lemma read_file_ok_witness :
  wp (fatfs_read_data toy_disk toy_file (mk_pos 3 1 20) 30) (fun '(err, n, buf, pos') b' =>
    good b' /\ content b' = content toy_img /\ 0 <= n <= 30 /\
    take (Z.to_nat n) buf = file_read toy_disk toy_img [2; 3; 5] (pos_offset toy_disk (mk_pos 3 1 20)) (Z.to_nat n) /\
    (err = ENOERR -> n = 30) /\
    (err = EEOF -> n < 30 /\ pos_offset toy_disk (mk_pos 3 1 20) + n = file_room toy_disk [2; 3; 5]) /\
    (err = ENOERR \/ err = EEOF -> pos_ok toy_disk [2; 3; 5] pos' /\
       pos_offset toy_disk pos' = pos_offset toy_disk (mk_pos 3 1 20) + n)) toy_img.
Proof.
  apply (read_file_ok toy_disk toy_wf toy_img toy_file [2; 3; 5] (mk_pos 3 1 20) 30);
    [apply toy_good|apply toy_chain|apply toy_pos|in_range].
Defined.

Lemma write_read_ok_witness :
  wp (fatfs_write_data toy_disk toy_file (mk_pos 3 1 20) (repeat 7 40) 40) (fun '(err, n, pos', file') b' =>
    good b' /\ file' = toy_file /\ 0 <= n <= 40 /\
    (err = ENOERR -> n = 40 /\ exists l',
       saved toy_disk toy_img b' (d_cluster toy_file) [2; 3; 5] l' (mk_pos 3 1 20) pos' (repeat 7 40) 40 /\
       forall pos2, pos_ok toy_disk l' pos2 ->
         pos_offset toy_disk pos2 = pos_offset toy_disk (mk_pos 3 1 20) ->
         wp (fatfs_read_data toy_disk toy_file pos2 40) (fun '(err2, n2, data, _) b2 =>
           content b2 = content b' /\
           (err2 = ENOERR -> n2 = 40 /\
              take (Z.to_nat 40) data = take (Z.to_nat 40) (repeat 7 40))) b')) toy_img.
Proof.
  apply (write_read_ok toy_disk toy_wf toy_img toy_file [2; 3; 5] (mk_pos 3 1 20) (repeat 7 40) 40);
    [apply toy_good|apply toy_chain|apply toy_pos|apply toy_bytes|in_range|vm_compute; congruence].
Defined.

Definition toy_empty : fatfs_dir_entry_t := set_size 0 (set_d_cluster 0 toy_file).

Lemma write_new_ok_witness :
  wp (fatfs_write_data toy_disk toy_empty (mk_pos 0 0 0) (repeat 7 40) 40) (fun '(err, n, pos', file') b' =>
    good b' /\
    (err = ENOERR -> n = 40 /\ exists c l', file' = set_d_cluster c toy_empty /\
       chain toy_disk (fat toy_disk b') c l' /\ (forall k, k ∈ l' -> is_free toy_disk toy_img k) /\
       file_read toy_disk b' l' 0 (Z.to_nat 40) = take (Z.to_nat 40) (repeat 7 40) /\
       pos_offset toy_disk pos' = 40 /\
       forall f1 l1, chain toy_disk (fat toy_disk toy_img) f1 l1 -> kept toy_disk toy_img b' f1 l1)) toy_img.
Proof.
  apply (write_new_ok toy_disk toy_wf toy_img toy_empty (mk_pos 0 0 0) (repeat 7 40) 40);
    [apply toy_good|reflexivity|reflexivity|apply toy_bytes|in_range|vm_compute; congruence].
Defined.

Lemma dentry_roundtrip_witness :
  wp (fatfs_write_dir_entry toy_disk toy_file) (fun err b' =>
    good b' /\ holds_dir toy_disk b' 0 RootDir /\ only_changes (in_slot toy_disk RootDir 0) toy_img b' /\
    (err = ENOERR ->
      wp (fatfs_read_dir_entry toy_disk (fatfs_get_root_dir_entry toy_disk) (mk_pos 0 0 0))
        (fun '(err2, pos2, dentry) b2 => content b2 = content b' /\
        ((err2 = ENOERR /\ at_slot toy_disk RootDir pos2 (0 + 1) /\
          exists p, at_slot toy_disk RootDir p 0 /\
            dentry = Some (set_disk_pos p (stored toy_file))) \/ device_error err2)) b')) toy_img /\
  option_map fst (fatfs_write_dir_entry toy_disk toy_file toy_img) = Some ENOERR.
Proof.
  split; [|reflexivity].
  apply (dentry_roundtrip toy_disk toy_wf toy_img 0 RootDir 0 (fatfs_get_root_dir_entry toy_disk) toy_file);
    [apply toy_good|apply toy_root|apply toy_slot|in_range|exact I|apply toy_file_ok|reflexivity|
     vm_compute; congruence..].
Defined.

Lemma read_dir_ok_witness :
  wp (fatfs_read_dir_entry toy_disk (fatfs_get_root_dir_entry toy_disk) (mk_pos 0 0 0))
    (fun '(err, pos', dentry) b' =>
    good b' /\ content b' = content toy_img /\
    ((err = ENOERR /\ exists j p, 0 <= j < slots toy_disk RootDir /\ at_slot toy_disk RootDir p j /\
        used (slot toy_disk toy_img RootDir j) /\
        dentry = Some (raw_to_dentry (slot toy_disk toy_img RootDir j) p 0) /\
        at_slot toy_disk RootDir pos' (j + 1) /\
        forall k, 0 <= k < j -> deleted (slot toy_disk toy_img RootDir k)) \/
     (err = EEOF /\ exists j, 0 <= j /\
        (j < slots toy_disk RootDir -> DENTRY_IS_ZERO (slot toy_disk toy_img RootDir j) = true) /\
        forall k, 0 <= k < j -> k < slots toy_disk RootDir -> deleted (slot toy_disk toy_img RootDir k)) \/
     device_error err)) toy_img.
Proof.
  apply (read_dir_ok toy_disk toy_wf toy_img 0 RootDir (fatfs_get_root_dir_entry toy_disk) (mk_pos 0 0 0) 0);
    [apply toy_good|apply toy_root|apply toy_slot|lia].
Defined.

(** A directory that is full: cluster 4, whose one slot is in use. *)
Definition toy_dir : fatfs_dir_entry_t :=
  mk_dentry [68] stat_mode_DIR 0 1709251199 1709251199 1709251199 0 4 0 (mk_pos 0 0 0).

Lemma create_file_ok_witness :
  let n := [65; 46; 84; 88; 84; 47] in
  wp (fatfs_create_file 1709251199 toy_disk toy_dir n 5) (fun '(err, r) b' =>
    good b' /\ (err = ENOERR -> exists p j d', let file :=
        new_entry 1709251199 (take (Z.to_nat 5) n) stat_mode_REG 4 0 p in
      r = Some file /\
      entered toy_disk toy_img b' (start_cluster toy_disk toy_dir) (ChainDir [4]) d' j file /\
      wp (fatfs_read_dir_entry toy_disk toy_dir p) (fun '(err2, pos2, dentry) b2 =>
        content b2 = content b' /\
        ((err2 = ENOERR /\ at_slot toy_disk d' pos2 (j + 1) /\ exists p2, at_slot toy_disk d' p2 j /\
            dentry = Some (set_disk_pos p2 (stored file))) \/ device_error err2)) b')) toy_img /\
  option_map (fun '(err, _, b') => (err, fat toy_disk b' 4)) (fatfs_create_file 1709251199 toy_disk toy_dir n 5 toy_img)
    = Some (ENOERR, 6).
Proof.
  split; [|vm_compute; reflexivity].
  apply (create_file_ok toy_disk toy_wf 1709251199 toy_img (ChainDir [4]) toy_dir
    [65; 46; 84; 88; 84; 47] 5); [apply toy_good|apply toy_chain4|lia|apply toy_name83|discriminate|lia].
Defined.

Lemma toy_free_run : exists b1, free_cluster_chain toy_disk 2 toy_img = Some (ENOERR, b1).
Proof.
  assert (option_map fst (free_cluster_chain toy_disk 2 toy_img) = Some ENOERR) as H by reflexivity.
  destruct (free_cluster_chain toy_disk 2 toy_img) as [[err b1]|]; [|discriminate].
  injection H as ->. by exists b1.
Qed.

Lemma delete_file_ok_witness :
  exists b1, wp (fatfs_delete_file toy_disk toy_file) (fun err b' =>
    good b' /\ (err = ENOERR -> DENTRY_IS_DELETED (slot toy_disk b' RootDir 0) = true /\
      released toy_disk toy_img b' 0 RootDir 0 [2; 3; 5] (raw_dentry_set_deleted (dentry_to_raw toy_file))))
    toy_img /\ free_cluster_chain toy_disk 2 toy_img = Some (ENOERR, b1).
Proof.
  destruct toy_free_run as [b1 Hb1]. exists b1. split; [|exact Hb1].
  apply (delete_file_ok toy_disk toy_wf toy_img b1 0 RootDir 0 [2; 3; 5] toy_file);
    [apply toy_good|apply toy_root|apply toy_slot|in_range|exact I|apply toy_file_ok|reflexivity|
     apply toy_chain|exact I|exact Hb1].
Defined.

Lemma trunc_file_ok_witness :
  wp (fatfs_trunc_file 1709251199 toy_disk toy_file) (fun '(err, file') b' =>
    good b' /\ (err = ENOERR -> size file' = 0 /\ d_cluster file' = 0 /\ mtime file' = 1709251199 /\
      released toy_disk toy_img b' 0 RootDir 0 [2; 3; 5] (dentry_to_raw file'))) toy_img.
Proof.
  apply (trunc_file_ok toy_disk toy_wf 1709251199 toy_img 0 RootDir 0 [2; 3; 5] toy_file);
    [apply toy_good|apply toy_root|apply toy_slot|in_range|exact I|apply toy_file_ok|reflexivity|
     discriminate|lia|apply toy_chain|exact I].
Defined.

Lemma delete_empty_file_clears_media_witness :
  wp (free_cluster_chain toy_disk 0) (fun err b1 =>
    good b1 /\ (err = ENOERR -> fat toy_disk b1 0 = 0 /\ fatfs_delete_file toy_disk toy_empty toy_img
      = write_raw_dentry toy_disk (disk_pos toy_empty) (raw_dentry_set_deleted (dentry_to_raw toy_empty)) b1))
    toy_img.
Proof.
  apply (delete_empty_file_clears_media toy_disk toy_wf toy_img toy_empty);
    [apply toy_good| |reflexivity..].
  constructor; [apply toy_name83|discriminate|by right|vm_compute; repeat split; congruence..].
Defined.

(** A FAT12 boot record: 512-byte sectors of one cluster each, two tables of one
    sector, 16 root entries, 100 sectors. *)
Definition toy_boot : list byte :=
  [0xEB; 0x3C; 0x90] ++ repeat 32 8 ++ [0x00; 0x02; 1; 1; 0; 2; 16; 0; 100; 0; 0xF8; 1; 0; 32; 0; 2; 0]
  ++ repeat 0 8 ++ [0; 0; 0x29] ++ repeat 0 471 ++ [0x55; 0xAA].
Definition toy_volume : image := fun x =>
  if x <? 0 then 0 else nth (Z.to_nat x) toy_boot 0.

Lemma toy_volume_good : good toy_volume.
Proof.
  intros x. unfold toy_volume. case_match; [unfold is_byte; lia|]. apply nth_byte.
  by apply bytes_check.
Qed.

Lemma toy_signed : signed (boot_of (content toy_volume)).
Proof. split; [by left|done]. Qed.

Lemma toy_volume_ok : volume_ok 5 9 0 (boot_of (content toy_volume)).
Proof. constructor; vm_compute; repeat split; congruence. Qed.

Lemma mount_ok_witness :
  wp fatfs_init (fun '(err, d) b' => good b' /\ content b' = content toy_volume /\
    match d with
    | Some vol => err = ENOERR /\ disk_wf 5 vol /\ laid_out (boot_of (content toy_volume)) vol
    | None => err <> ENOERR /\ exists b1, read_boot_record toy_volume = Some (err, None, b1)
    end) toy_volume /\
  match fatfs_init toy_volume with
  | Some (err, Some vol, _) => err = ENOERR /\ fat_type vol = FATFS_FAT12 /\ fat_data_pos vol = 512 * 4
  | _ => False
  end.
Proof.
  split; [|vm_compute; split_and!; reflexivity].
  apply (mount_ok toy_volume 9 0); [apply toy_volume_good|apply toy_signed|apply toy_volume_ok].
Defined.

(** The same volume without its end marker. *)
Definition toy_unsigned : image := fun x => if x =? 511 then 0 else toy_volume x.

Lemma toy_unsigned_good : good toy_unsigned.
Proof. intros x. unfold toy_unsigned. case_match; [unfold is_byte; lia|]. apply toy_volume_good. Qed.

Lemma mount_rejects_witness :
  wp fatfs_init (fun '(err, d) b' =>
    good b' /\ content b' = content toy_unsigned /\ err <> ENOERR /\ d = None) toy_unsigned.
Proof.
  apply (mount_rejects toy_unsigned);
    [apply toy_unsigned_good|vm_compute; split; congruence|vm_compute; split; congruence|].
  left. intros (_ & _ & Hm). vm_compute in Hm. discriminate Hm.
Defined.
