(* ===== verification/FatOpen.v ===== *)
(** * FAT file system: an open file is a string of bytes

    An open file as its contents and an offset, what reading, writing and
    seeking do to them, and the proof that the operations of [FatFo] do it. *)
From stdpp Require Import functions.
From S2P Require Import Prelude Blib BlibContract FatStore FatTable FatTableSpec FatChain.
From S2P Require Import FatFile FatDentry FatNode FatNodeSpec FatDir FatDirSpec FatDirOps.
From S2P Require Import FatWrite FatFs FatFo.
From S2P Require Import FatExample.

(** ** The abstract file *)
Record file_view := mk_view { fv_data : list byte; fv_off : Z }.

Inductive file_op :=
  | FRead (iov : list Z)
  | FWrite (buf : list byte)
  | FSeek (apos whence : Z).

(** The bytes [l] dealt out to vectors of the lengths [iov]. *)
Fixpoint deal (iov : list Z) (l : list byte) : list (list byte) :=
  match iov with
  | [] => []
  | n :: iov => take (Z.to_nat n) l :: deal iov (drop (Z.to_nat n) l)
  end.

(** [src] laid over [l] at [o], which is not past the end. *)
Definition overwrite (l : list byte) (o : Z) (src : list byte) : list byte :=
  take (Z.to_nat o) l ++ src ++ drop (Z.to_nat o + length src) l.

Definition total (iov : list Z) : Z := foldr Z.add 0 iov.

(** The target of a seek. *)
Definition seek_target (apos whence : Z) (v : file_view) : option Z :=
  if whence =? SEEK_SET then Some apos
  else if whence =? SEEK_CUR then Some (apos + fv_off v)
  else if whence =? SEEK_END then Some (apos + Z.of_nat (length (fv_data v)))
  else None.

(** The vectors filled, what is left of the transfer (or the new offset), and the
    file afterwards; [None] is a seek that fails. *)
Definition spec_fop (op : file_op) (v : file_view) :
    option (list (list byte) * Z * file_view) :=
  match op with
  | FRead iov =>
      let bufs := deal iov (drop (Z.to_nat (fv_off v)) (fv_data v)) in
      let n := Z.of_nat (length (concat bufs)) in
      Some (bufs, total iov - n, mk_view (fv_data v) (fv_off v + n))
  | FWrite buf =>
      Some ([], 0, mk_view (overwrite (fv_data v) (fv_off v) buf) (fv_off v + Z.of_nat (length buf)))
  | FSeek apos whence =>
      o ← seek_target apos whence v;
      if (0 <=? o) && (o <=? Z.of_nat (length (fv_data v)))
      then Some ([], o, mk_view (fv_data v) o) else None
  end.

(** The lengths and offsets stay within [off_t]. *)
Definition fop_ok (op : file_op) (v : file_view) : Prop :=
  match op with
  | FRead iov => Forall (fun n => 0 <= n) iov /\ total iov < 2 ^ 31
  | FWrite buf => Forall is_byte buf /\
      Z.of_nat (length (fv_data v)) + Z.of_nat (length buf) < 2 ^ 31
  | FSeek apos whence => match seek_target apos whence v with
                         | Some o => - 2 ^ 31 <= apos < 2 ^ 31 /\ - 2 ^ 31 <= o < 2 ^ 31
                         | None => True
                         end
  end.

Fixpoint spec_fops (ops : list file_op) (v : file_view) :
    option (list (list (list byte) * Z) * file_view) :=
  match ops with
  | [] => Some ([], v)
  | op :: ops =>
      '(bufs, n, v) ← spec_fop op v;
      '(answers, v) ← spec_fops ops v;
      Some ((bufs, n) :: answers, v)
  end.

(** Every operation is within bounds when its turn comes. *)
Fixpoint fops_ok (ops : list file_op) (v : file_view) : Prop :=
  match ops with
  | [] => True
  | op :: ops => fop_ok op v /\
      match spec_fop op v with Some (_, _, v) => fops_ok ops v | None => True end
  end.

(** ** Bytes of a file *)
Lemma overwrite_length l o src :
  0 <= o <= Z.of_nat (length l) ->
  length (overwrite l o src) = Nat.max (length l) (Z.to_nat o + length src).
Proof. intros. unfold overwrite. rewrite !length_app, length_take, length_drop. lia. Qed.

Lemma overwrite_nil l o : overwrite l o [] = l.
Proof. unfold overwrite. cbn. by rewrite Nat.add_0_r, take_drop. Qed.

Lemma concat_deal_length iov l : (length (concat (deal iov l)) <= length l)%nat.
Proof.
  revert l. induction iov as [|n iov IH]; intros l; cbn; [lia|].
  rewrite length_app, length_take. specialize (IH (drop (Z.to_nat n) l)).
  rewrite length_drop in IH. lia.
Qed.

Section Open.
Context {B : Type} {lib : BlockLibrary B} {log2 : Z} {store : BlockStore lib log2}.
Context (disk : fatfs_disk_t) (Hwf : disk_wf log2 disk).
Implicit Types (b : B) (l : list Z) (pos : fatfs_data_pos_t) (s : @fs_state B) (data : list byte).

(** The contents [data] of the file at cluster [c], with the chain [l], and a
    position at [off]; a file without a chain is empty. *)
Definition holds_file b (c : Z) l data : Prop :=
  match l with
  | [] => c = 0 /\ data = []
  | _ => chain disk (fat disk b) c l /\ Z.of_nat (length data) <= file_room disk l /\
      data = file_read disk b l 0 (length data)
  end.
Definition at_offset l pos (off : Z) : Prop :=
  match l with
  | [] => pos = mk_pos 0 0 0 /\ off = 0
  | _ => pos_ok disk l pos /\ pos_offset disk pos = off
  end.

Record file_pos b c l data pos (off : Z) : Prop := {
  fp_good : good b;
  fp_file : holds_file b c l data;
  fp_pos : at_offset l pos off;
  fp_off : 0 <= off <= Z.of_nat (length data);
  fp_len : Z.of_nat (length data) < 2 ^ 31;
}.

(** The other files keep their chains and bytes, and none of them shares a cluster
    with [l'] that it did not share with [l]. *)
Definition others_kept b b' l l' : Prop :=
  forall f1 l1, chain disk (fat disk b) f1 l1 -> (forall k, k ∈ l1 -> k ∉ l) ->
    kept disk b b' f1 l1 /\ forall k, k ∈ l1 -> k ∉ l'.

Lemma kept_same b b' f1 l1 : content b' = content b -> chain disk (fat disk b) f1 l1 -> kept disk b b' f1 l1.
Proof.
  intros Hc Hch. constructor; [|intros; by rewrite Hc]. eapply chain_ext; [done|].
  intros x _. unfold fat. by rewrite Hc.
Qed.

Lemma others_same b b' l : content b' = content b -> others_kept b b' l l.
Proof. intros Hc f1 l1 Hch Hap. split; [by apply kept_same|done]. Qed.

Lemma others_trans b1 b2 b3 l1 l2 l3 :
  others_kept b1 b2 l1 l2 -> others_kept b2 b3 l2 l3 -> others_kept b1 b3 l1 l3.
Proof.
  intros H1 H2 f l Hch Hap. destruct (H1 f l Hch Hap) as [K1 A1].
  destruct (H2 f l (kept_chain _ _ _ _ _ K1) A1) as [K2 A2]. split; [by eapply kept_trans|done].
Qed.

Lemma file_pos_same b b' c l data pos pos' off off' :
  file_pos b c l data pos off -> good b' -> content b' = content b -> at_offset l pos' off' ->
  0 <= off' <= Z.of_nat (length data) -> file_pos b' c l data pos' off'.
Proof.
  intros [_ Hf _ _ Hlen] Hb Hc Hp Ho. constructor; try done. destruct l as [|k l]; [done|].
  destruct Hf as (Hch & Hroom & Hd). split; [|split; [done|by rewrite (file_read_ext disk b b')]].
  eapply chain_ext; [done|]. intros x _. unfold fat. by rewrite Hc.
Qed.

(** A piece of the contents. *)
Lemma file_read_slice b l n o k :
  0 <= o -> (Z.to_nat o + k <= n)%nat ->
  file_read disk b l o k = take k (drop (Z.to_nat o) (file_read disk b l 0 n)).
Proof.
  intros Ho Hk. replace n with (Z.to_nat o + (k + (n - Z.to_nat o - k)))%nat by lia.
  rewrite file_read_app, drop_app_length' by (by rewrite file_read_length).
  rewrite Z.add_0_l, Z2Nat.id by lia.
  by rewrite file_read_app, take_app_length' by by rewrite file_read_length.
Qed.

Lemma file_read_eq b b' l l' o k :
  (forall i, o <= i < o + Z.of_nat k -> file_at disk b' l' i = file_at disk b l i) ->
  file_read disk b' l' o k = file_read disk b l o k.
Proof.
  intros H. unfold file_read. apply list_fmap_ext. intros i x [-> Hi]%lookup_seq. apply H. lia.
Qed.

(** ** The transfers of one chunk *)
Lemma read_at_spec b c l data pos off d len :
  file_pos b c l data pos off -> 0 < len -> off + len <= Z.of_nat (length data) ->
  wp (fatfs_read_data disk d pos len) (fun '(err, n, buf, pos') b' =>
    good b' /\ content b' = content b /\
    (err = ENOERR -> n = len /\ take (Z.to_nat len) buf = take (Z.to_nat len) (drop (Z.to_nat off) data) /\
       file_pos b' c l data pos' (off + len))) b.
Proof.
  intros Hf Hlen Hend. pose proof Hf as [Hb Hd Hp Hoff Hsize].
  destruct l as [|k l]; [destruct Hd as [_ ->]; cbn in Hend; lia|].
  destruct Hd as (Hch & Hroom & Hdata). destruct Hp as [Hp Ho]. apply wp_bind.
  eapply wp_mono; [eapply (read_data_loop_spec disk Hwf _ (k :: l)); [done|done|done|lia|lia]|].
  intros [[[err rem] buf] pos'] b' (Hb' & Hc & Hrem & Hbuf & He1 & _ & Hpo & Ho'). apply wp_ret.
  do 2 (split; [done|]). intros ->. specialize (He1 eq_refl) as ->.
  rewrite Z.sub_0_r in *. rewrite uwrap_small by lia. split; [done|]. rewrite Hbuf, Ho. split.
  - rewrite Hdata. apply file_read_slice; lia.
  - eapply file_pos_same; try done; [|lia]. split; [done|]. rewrite Ho' by auto. lia.
Qed.

(** The contents once [src] is saved at [off]. *)
Lemma saved_contents b b' c c0 l l' data pos pos' src :
  l <> [] -> Z.of_nat (length data) <= file_room disk l -> data = file_read disk b l 0 (length data) ->
  0 <= pos_offset disk pos <= Z.of_nat (length data) ->
  saved disk b b' c l l' pos pos' src (Z.of_nat (length src)) -> c0 = c ->
  holds_file b' c0 l' (overwrite data (pos_offset disk pos) src).
Proof.
  intros Hl Hroom Hdata Hoff [Hch Hpre _ [Hp Ho] Hsrc Hrest _] ->.
  destruct l' as [|k l']; [by apply prefix_nil_inv in Hpre|].
  pose proof (pos_offset_bound disk Hwf _ _ Hp) as Hpb.
  pose proof (file_room_prefix disk Hwf _ _ Hpre) as Hrp.
  set (o := pos_offset disk pos) in *. split; [done|].
  rewrite overwrite_length by done. split; [lia|].
  rewrite Nat2Z.id, firstn_all in Hsrc.
  replace (Nat.max (length data) (Z.to_nat o + length src))
    with (Z.to_nat o + (length src + (length data - (Z.to_nat o + length src))))%nat by lia.
  rewrite !file_read_app, Z.add_0_l, Z2Nat.id by lia. unfold overwrite. f_equal; [|f_equal].
  - rewrite (file_read_eq b b' l) by (intros; apply Hrest; lia).
    rewrite (file_read_slice b l (length data)) by lia. by rewrite <- Hdata.
  - done.
  - rewrite (file_read_eq b b' l) by (intros; apply Hrest; lia).
    destruct (decide (Z.to_nat o + length src <= length data)%nat) as [Hle|Hgt].
    2: { rewrite drop_ge by lia. by replace (length data - _)%nat with 0%nat by lia. }
    rewrite (file_read_slice b l (length data)) by lia. rewrite <- Hdata.
    replace (Z.to_nat (o + Z.of_nat (length src))) with (Z.to_nat o + length src)%nat by lia.
    rewrite take_ge; [done|]. rewrite length_drop. lia.
Qed.

Lemma write_at_spec b c l data pos off d buf :
  file_pos b c l data pos off -> d_cluster d = c -> (l = [] -> size d = 0) -> Forall is_byte buf ->
  Z.of_nat (length data) + Z.of_nat (length buf) < 2 ^ 31 -> buf <> [] ->
  wp (fatfs_write_data disk d pos buf (Z.of_nat (length buf))) (fun '(err, n, pos', d') b' =>
    (err = ENOERR -> n = Z.of_nat (length buf) /\ exists c' l', d' = set_d_cluster c' d /\ l' <> [] /\
       file_pos b' c' l' (overwrite data off buf) pos' (off + Z.of_nat (length buf)) /\
       others_kept b b' l l')) b.
Proof.
  intros [Hb Hf Hp Hoff Hsize] Hc Hnew Hbuf Hmax Hne. subst c.
  assert (Z.of_nat (length (overwrite data off buf)) < 2 ^ 31) as Hlen
    by (rewrite overwrite_length by done; lia).
  assert (0 <= off + Z.of_nat (length buf) <= Z.of_nat (length (overwrite data off buf))) as Hend
    by (rewrite overwrite_length by done; lia).
  destruct l as [|k l].
  - destruct Hf as [Hc ->], Hp as [-> ->].
    eapply wp_mono; [apply (write_new_saved disk Hwf); try done; [by apply Hnew|unfold fits; lia]|].
    intros [[[err n] pos'] d'] b' [Hb' Hok] He. destruct (Hok He) as (-> & c & b1 & l' & -> & Hs & Hfree & Hk).
    split; [done|]. exists c, l'. split; [done|]. pose proof Hs as [Hch Hpre _ [Hpo Ho] _ _ _].
    destruct l' as [|k' l']; [by apply prefix_nil_inv in Hpre|]. split; [done|]. split.
    + constructor; try done.
      change 0 with (pos_offset disk (fatfs_initpos (set_d_cluster c d))) at 1.
      eapply (saved_contents b1); [| | | |exact Hs|done]; [done|cbn|done|done].
      unfold file_room. pose proof (cs_pos disk Hwf). cbn. lia.
    + intros f1 l1 Hch1 Hap. split; [by apply Hk|]. intros x Hx Hx'.
      by apply (chain_not_free disk _ _ _ _ Hch1 Hx), Hfree.
  - destruct Hf as (Hch & Hroom & Hdata), Hp as [Hp Ho]. unfold fatfs_write_data.
    assert (0 =? d_cluster d = false) as ->.
    { apply Z.eqb_neq. assert (valid_cluster disk (d_cluster d)) as Hv by by inversion Hch.
      unfold valid_cluster in Hv. lia. }
    rewrite andb_false_r. apply wp_bind.
    eapply wp_mono; [eapply (write_data_saved disk Hwf _ (d_cluster d) (k :: l)); try done;
      unfold fits; lia|].
    intros [[err n] pos'] b' (Hb' & _ & Hok). apply wp_ret. intros He.
    destruct (Hok He) as (-> & l' & Hs). split; [done|]. exists (d_cluster d), l'.
    pose proof Hs as [Hch' Hpre Hnew' [Hpo Ho'] _ _ Hoth].
    destruct l' as [|k' l']; [by apply prefix_nil_inv in Hpre|]. split; [by destruct d|]. split; [done|]. split.
    + rewrite <- Ho. constructor; try done; try (by rewrite Ho).
      eapply (saved_contents b); [| | | |exact Hs|done]; try done. by rewrite Ho.
    + intros f1 l1 Hch1 Hap. split; [by apply Hoth|]. intros x Hx Hx'.
      destruct (Hnew' x Hx') as [?|Hfr]; [by apply (Hap x)|].
      by apply (chain_not_free disk _ _ _ _ Hch1 Hx).
Qed.

(** A seek within the file. *)
Lemma setpos_at_spec b c l data pos off d o :
  file_pos b c l data pos off -> d_cluster d = c -> size d = Z.of_nat (length data) ->
  0 <= o <= Z.of_nat (length data) ->
  wp (fatfs_setpos disk d pos o) (fun '(err, pos') b' =>
    good b' /\ content b' = content b /\ (err = ENOERR -> file_pos b' c l data pos' o)) b.
Proof.
  intros Hf Hc Hsize Ho. pose proof Hf as [Hb Hfl Hp Hoff Hlen]. subst c.
  destruct l as [|k l].
  - destruct Hfl as [Hc ->], Hp as [-> ->]. replace o with 0 in * by (cbn in Ho; lia).
    rewrite Hc in *. exists (ENOERR, mk_pos 0 0 0), b. split; [|done].
    unfold fatfs_setpos. rewrite Hc. unfold get_position_from_off, mbind, M_bind. rewrite Z.shiftr_0_l. done.
  - destruct Hfl as (Hch & Hroom & Hdata), Hp as [[Hp _] Hpo]. apply wp_bind.
    eapply wp_mono; [eapply (get_position_from_off_spec disk Hwf _ (d_cluster d) (k :: l)); try done;
      unfold fits; lia|].
    intros [err pos'] b' (Hb' & Hc & Hr). apply wp_ret. do 2 (split; [done|]). intros He.
    eapply file_pos_same; try done.
    destruct Hr as [(-> & Hp' & Ho' & Hcp)|[(-> & Hp' & Hcp & Ho' & Hge)|[He1 He2]]].
    + split; [|done]. split; [done|lia].
    + pose proof (cs_pos disk Hwf). split; [split; [done|lia]|]. unfold file_room in Hroom. lia.
    + exfalso. destruct (Z.eqb_spec EEOF err) as [<-|Hne]; [done|]. cbn in He. done.
Qed.

(** ** The steps on the state of the file system *)
Lemma wp_on_dev {A} (m : M B A) Q s :
  wp m (fun a b' => Q a (set_dev b' s)) (fs_dev s) -> wp (on_dev m) Q s.
Proof.
  intros (a & b' & Hm & HQ). exists a, (set_dev b' s). unfold on_dev. by rewrite Hm.
Qed.

Lemma wp_node_dentry {A} a (f : fatfs_dir_entry_t -> M (@fs_state B) A) Q s :
  wp (f (dentry (node_pool_base (fs_cache s) a))) Q s -> wp (node_dentry a ≫= f) Q s.
Proof. done. Qed.

Lemma wp_get_fd {A} fd (f : fatfs_fd_t -> M (@fs_state B) A) Q s :
  wp (f (fatfs_fds_base s fd)) Q s -> wp (get_fd fd ≫= f) Q s.
Proof. done. Qed.

Lemma wp_put_pos {A} fd pos (f : unit -> M (@fs_state B) A) Q s :
  wp (f tt) Q (set_fds (<[fd := mk_fd (fd_node (fatfs_fds_base s fd)) pos]> (fatfs_fds_base s)) s) ->
  wp (put_pos fd pos ≫= f) Q s.
Proof. done. Qed.

Lemma wp_put_dentry {A} a d (f : unit -> M (@fs_state B) A) Q s :
  wp (f tt) Q (set_cache (upd_cached a (set_dentry d) (fs_cache s)) s) -> wp (put_dentry a d ≫= f) Q s.
Proof. done. Qed.

(** The node of a descriptor and its entry. *)
Definition fd_entry s fd : fatfs_dir_entry_t :=
  dentry (node_pool_base (fs_cache s) (fd_node (fatfs_fds_base s fd))).

Definition open_desc s fd l data (off : Z) : Prop :=
  file_pos (fs_dev s) (d_cluster (fd_entry s fd)) l data (fd_pos (fatfs_fds_base s fd)) off.

(** Only the disk and the position of the descriptor have changed. *)
Record moved fd s s' : Prop := {
  mv_cache : fs_cache s' = fs_cache s;
  mv_node : fd_node (fatfs_fds_base s' fd) = fd_node (fatfs_fds_base s fd);
  mv_others fd' : fd' <> fd -> fatfs_fds_base s' fd' = fatfs_fds_base s fd';
}.

Lemma moved_trans fd s1 s2 s3 : moved fd s1 s2 -> moved fd s2 s3 -> moved fd s1 s3.
Proof. intros [] []. constructor; [congruence..|]. intros fd' Hne. rewrite mv_others1; auto. Qed.

Lemma moved_entry fd s s' : moved fd s s' -> fd_entry s' fd = fd_entry s fd.
Proof. intros [Hc Hn _]. unfold fd_entry. by rewrite Hc, Hn. Qed.

Definition step (fd : Z) b pos s : fs_state :=
  set_fds (<[fd := mk_fd (fd_node (fatfs_fds_base s fd)) pos]> (fatfs_fds_base s)) (set_dev b s).

Lemma fds_insert (f : Z -> fatfs_fd_t) fd x : <[fd:=x]> f fd = x.
Proof. unfold insert, fn_insert. by rewrite decide_True. Qed.

Lemma moved_step fd b pos s : moved fd s (step fd b pos s).
Proof.
  constructor; cbn; [done|by rewrite fds_insert|]. intros fd' Hne.
  unfold insert, fn_insert. by rewrite decide_False.
Qed.

Lemma open_desc_step fd b pos s l data off :
  file_pos b (d_cluster (fd_entry s fd)) l data pos off -> open_desc (step fd b pos s) fd l data off.
Proof.
  intros H. unfold open_desc. rewrite (moved_entry fd s _ (moved_step fd b pos s)). cbn.
  by rewrite fds_insert.
Qed.

(** ** Reading *)
Lemma read_vector_spec fd fuel : forall s l data off len resid,
  open_desc s fd l data off -> size (fd_entry s fd) = Z.of_nat (length data) ->
  0 <= len < Z.of_nat fuel -> len <= resid < 2 ^ 31 ->
  wp (read_vector disk fuel (fd_node (fatfs_fds_base s fd)) fd len off resid)
    (fun '(err, buf, pos, resid') s' =>
      moved fd s s' /\ content (fs_dev s') = content (fs_dev s) /\
      (err = ENOERR -> buf = take (Z.to_nat len) (drop (Z.to_nat off) data) /\
         pos = off + Z.of_nat (length buf) /\ resid' = resid - Z.of_nat (length buf) /\
         open_desc s' fd l data pos)) s.
Proof.
  induction fuel as [|fuel IH]; intros s l data off len resid Hd Hsize Hlen Hres; [lia|].
  cbn [read_vector]. pose proof (fp_off _ _ _ _ _ _ Hd) as Hoff. pose proof (fp_len _ _ _ _ _ _ Hd) as Hl.
  apply wp_node_dentry. fold (fd_entry s fd). rewrite Hsize.
  destruct (Z.gtb_spec len 0) as [Hpos|Hpos]; [destruct (Z.ltb_spec off (Z.of_nat (length data))) as [Hin|Hin]|];
    cbn [andb].
  2, 3: apply wp_ret; split; [by constructor|]; split; [done|]; intros _; cbn;
    rewrite Z.add_0_r, Z.sub_0_r; split; [|done].
  2: by rewrite drop_ge, take_nil by lia.
  2: by replace (Z.to_nat len) with 0%nat by lia.
  rewrite (uwrap_small 32 len), (uwrap_small 32 (_ - off)) by lia. cbv zeta.
  set (c := if len >? _ then _ else len).
  assert (c = Z.min len (Z.of_nat (length data) - off)) as Hc
    by (unfold c; destruct (Z.gtb_spec len (Z.of_nat (length data) - off)); lia).
  apply wp_get_fd, wp_bind, wp_on_dev.
  eapply wp_mono; [apply (read_at_spec _ _ _ _ _ _ (fd_entry s fd) c Hd); lia|].
  intros [[[err n] buf] pos'] b' (Hb' & Hc' & Hok). cbn beta iota. apply wp_put_pos.
  change (set_fds _ (set_dev b' s)) with (step fd b' pos' s).
  pose proof (moved_step fd b' pos' s) as Hm.
  destruct (Z.eqb_spec err ENOERR) as [->|Herr]; cbn [negb]; [|by apply wp_ret].
  destruct (Hok eq_refl) as (-> & Hbuf & Hp). rewrite Hbuf.
  rewrite s32_small, (uwrap_small 32 (off + c)), s32_small by lia.
  pose proof (IH (step fd b' pos' s) l data (off + c) (len - c) (resid - c)) as Hrec.
  rewrite (mv_node _ _ _ Hm), (moved_entry _ _ _ Hm) in Hrec.
  apply wp_bind. eapply wp_mono; [apply Hrec; [by apply open_desc_step|done|lia|lia]|].
  intros [[[err rest] pos2] resid2] s2 (Hm2 & Hc2 & Hok2). apply wp_ret. split; [by eapply moved_trans|].
  split; [by rewrite Hc2|]. intros He. destruct (Hok2 He) as (-> & -> & -> & Hd2).
  assert (length (take (Z.to_nat c) (drop (Z.to_nat off) data)) = Z.to_nat c) as Hlc
    by (rewrite length_take, length_drop; lia).
  rewrite length_app, Hlc. split; [|split; [lia|split; [lia|done]]].
  replace (Z.to_nat len) with (Z.to_nat c + Z.to_nat (len - c))%nat by lia.
  replace (Z.to_nat (off + c)) with (Z.to_nat off + Z.to_nat c)%nat by lia.
  by rewrite <- drop_drop, take_take_drop.
Qed.

Lemma read_vectors_spec fd iov : forall s l data off resid,
  open_desc s fd l data off -> size (fd_entry s fd) = Z.of_nat (length data) ->
  Forall (fun n => 0 <= n) iov -> total iov <= resid < 2 ^ 31 ->
  wp (read_vectors disk (fd_node (fatfs_fds_base s fd)) fd iov off resid)
    (fun '(err, bufs, pos, resid') s' =>
      moved fd s s' /\ content (fs_dev s') = content (fs_dev s) /\
      (err = ENOERR -> bufs = deal iov (drop (Z.to_nat off) data) /\
         pos = off + Z.of_nat (length (concat bufs)) /\
         resid' = resid - Z.of_nat (length (concat bufs)) /\ open_desc s' fd l data pos)) s.
Proof.
  induction iov as [|n iov IH]; intros s l data off resid Hd Hsize Hiov Hres; cbn [read_vectors].
  { apply wp_ret. split; [by constructor|]. split; [done|]. intros _. cbn.
    by rewrite Z.add_0_r, Z.sub_0_r. }
  apply Forall_cons in Hiov as [Hn Hiov]. cbn [total foldr] in Hres. fold (total iov) in Hres.
  assert (0 <= total iov) as Htot.
  { clear -Hiov. unfold total. induction Hiov; cbn; lia. }
  apply wp_bind. eapply wp_mono; [apply (read_vector_spec fd _ s l data); [done|done|lia|lia]|].
  intros [[[err buf] pos] resid1] s1 (Hm & Hc & Hok). cbn beta iota.
  destruct (Z.eqb_spec err ENOERR) as [->|Herr]; cbn [negb]; [|by apply wp_ret].
  destruct (Hok eq_refl) as (Hbuf & -> & -> & Hd1).
  pose proof (fp_off _ _ _ _ _ _ Hd). pose proof (fp_off _ _ _ _ _ _ Hd1).
  assert (Z.of_nat (length buf) <= n) by (rewrite Hbuf, length_take; lia).
  pose proof (IH s1 l data (off + Z.of_nat (length buf)) (resid - Z.of_nat (length buf))) as Hrec.
  rewrite (mv_node _ _ _ Hm), (moved_entry _ _ _ Hm) in Hrec.
  apply wp_bind. eapply wp_mono; [apply Hrec; done || lia|].
  intros [[[err bufs] pos2] resid2] s2 (Hm2 & Hc2 & Hok2). apply wp_ret.
  split; [by eapply moved_trans|]. split; [by rewrite Hc2|]. intros He.
  destruct (Hok2 He) as (-> & -> & -> & Hd2). cbn [concat]. rewrite length_app.
  split; [|split; [lia|split; [lia|done]]].
  cbn [deal]. rewrite Hbuf at 1. f_equal.
  rewrite Hbuf. destruct (decide (Z.to_nat n <= length (drop (Z.to_nat off) data))%nat) as [Hle|Hgt].
  - rewrite length_take, Nat.min_l by lia. rewrite drop_drop. do 2 f_equal. lia.
  - rewrite length_take, Nat.min_r, !drop_ge by (rewrite ?length_drop in *; lia). done.
Qed.

(** ** Whole operations *)
(** The open file holds the view. *)
Record open_file s (fp : cyg_file) l (v : file_view) : Prop := {
  of_desc : open_desc s (f_data fp) l (fv_data v) (fv_off v);
  of_size : size (fd_entry s (f_data fp)) = Z.of_nat (length (fv_data v));
  of_offset : f_offset fp = fv_off v;
}.

(** What an operation on the descriptor [fd] leaves alone: the other descriptors,
    the other nodes and the other files of the disk. *)
Record apart_from fd s s' l l' : Prop := {
  af_node : fd_node (fatfs_fds_base s' fd) = fd_node (fatfs_fds_base s fd);
  af_fds fd' : fd' <> fd -> fatfs_fds_base s' fd' = fatfs_fds_base s fd';
  af_nodes a : a <> fd_node (fatfs_fds_base s fd) ->
    node_pool_base (fs_cache s') a = node_pool_base (fs_cache s) a;
  af_files : others_kept (fs_dev s) (fs_dev s') l l';
}.

Lemma apart_refl fd s l : apart_from fd s s l l.
Proof. constructor; done || by apply others_same. Qed.

Lemma apart_trans fd s1 s2 s3 l1 l2 l3 :
  apart_from fd s1 s2 l1 l2 -> apart_from fd s2 s3 l2 l3 -> apart_from fd s1 s3 l1 l3.
Proof.
  intros [N1 F1 A1 O1] [N2 F2 A2 O2]. constructor; [congruence| | |by eapply others_trans].
  - intros fd' Hne. rewrite F2; auto.
  - intros a Hne. rewrite A2; [by apply A1|congruence].
Qed.

Lemma moved_apart fd s s' l l' :
  moved fd s s' -> others_kept (fs_dev s) (fs_dev s') l l' -> apart_from fd s s' l l'.
Proof. intros [] ?. constructor; try done. intros. congruence. Qed.

(** [node->dentry = d] for the node of the descriptor. *)
Definition with_entry fd d s : fs_state :=
  set_cache (upd_cached (fd_node (fatfs_fds_base s fd)) (set_dentry d) (fs_cache s)) s.

Lemma with_entry_entry fd d s : fd_entry (with_entry fd d s) fd = d.
Proof. unfold fd_entry, with_entry. cbn. rewrite upd_cases. by rewrite decide_True. Qed.

Lemma with_entry_apart fd d s l : apart_from fd s (with_entry fd d s) l l.
Proof.
  constructor; [done|done| |by apply others_same]. intros a Ha. cbn. rewrite upd_cases.
  by rewrite decide_False.
Qed.

Lemma with_entry_desc fd d s l data off c :
  file_pos (fs_dev s) c l data (fd_pos (fatfs_fds_base s fd)) off -> d_cluster d = c ->
  open_desc (with_entry fd d s) fd l data off.
Proof. intros H Hd. unfold open_desc. rewrite with_entry_entry, Hd. done. Qed.

Lemma fo_read_spec t s fp l v iov :
  open_file s fp l v -> fop_ok (FRead iov) v ->
  wp (fatfs_fo_read disk t fp iov (total iov)) (fun '(err, bufs, resid, fp') s' =>
    err = ENOERR -> exists v', spec_fop (FRead iov) v = Some (bufs, resid, v') /\
      open_file s' fp' l v' /\ fp' = set_offset (fv_off v') fp /\
      apart_from (f_data fp) s s' l l) s.
Proof.
  intros [Hd Hsize Ho] [Hiov Htot]. pose proof (fp_off _ _ _ _ _ _ Hd). pose proof (fp_len _ _ _ _ _ _ Hd).
  unfold fatfs_fo_read. apply wp_get_fd. rewrite Ho, uwrap_small by lia.
  apply wp_bind. eapply wp_mono; [by apply (read_vectors_spec _ _ s l (fv_data v))|].
  intros [[[err bufs] pos] resid] s1 (Hm & Hc & Hok). cbn beta iota.
  destruct (Z.eqb_spec err ENOERR) as [->|Herr]; cbn [negb]; [|by apply wp_ret].
  destruct (Hok eq_refl) as (-> & -> & -> & Hd1). pose proof (fp_off _ _ _ _ _ _ Hd1).
  apply wp_node_dentry, wp_put_dentry, wp_ret. intros _. rewrite <- (mv_node _ _ _ Hm).
  fold (fd_entry s1 (f_data fp)).
  change (set_cache _ s1) with (with_entry (f_data fp) (set_atime t (fd_entry s1 (f_data fp))) s1).
  rewrite s32_small by lia. eexists. split; [done|]. split; [|split; [done|]].
  - constructor; cbn; [| |done].
    + by eapply with_entry_desc; [exact Hd1|].
    + rewrite with_entry_entry. cbn. by rewrite (moved_entry _ _ _ Hm).
  - eapply apart_trans; [by apply moved_apart, others_same|apply with_entry_apart].
Qed.

(** ** Writing *)
Lemma size_empty b c l data pos off : file_pos b c l data pos off -> l = [] -> data = [].
Proof. intros [_ Hf _ _ _] ->. apply Hf. Qed.

(** The loop over a vector: all of it is written, or the call or the loop ends
    with an error. *)
Lemma write_vector_spec fd fuel s l data off buf resid :
  (length buf < fuel)%nat ->
  open_desc s fd l data off -> size (fd_entry s fd) = Z.of_nat (length data) -> Forall is_byte buf ->
  Z.of_nat (length data) + Z.of_nat (length buf) < 2 ^ 31 -> Z.of_nat (length buf) <= resid < 2 ^ 31 ->
  wp (write_vector disk fuel (fd_node (fatfs_fds_base s fd)) fd buf
        (Z.of_nat (length buf)) ENOERR off resid)
    (fun r s' =>
      match r with
      | inl err => err <> ENOERR
      | inr (err, pos, resid') => err = ENOERR ->
          pos = off + Z.of_nat (length buf) /\ resid' = resid - Z.of_nat (length buf) /\
          exists l', open_desc s' fd l' (overwrite data off buf) pos /\
            size (fd_entry s' fd) = Z.of_nat (length data) /\ apart_from fd s s' l l'
      end) s.
Proof.
  intros Hfuel Hd Hsize Hbuf Hmax Hres. pose proof (fp_off _ _ _ _ _ _ Hd) as Hoff.
  destruct fuel as [|fuel]; [lia|]. destruct (decide (buf = [])) as [->|Hne].
  { cbn. apply wp_ret. intros _. rewrite overwrite_nil, Z.add_0_r, Z.sub_0_r. do 2 (split; [done|]).
    exists l. split_and!; [done..|apply apart_refl]. }
  assert (0 < length buf)%nat by (destruct buf; [done|cbn; lia]).
  cbn [write_vector]. rewrite (proj2 (Z.gtb_lt _ 0)) by lia.
  apply wp_node_dentry, wp_get_fd, wp_bind, wp_on_dev. fold (fd_entry s fd).
  rewrite (uwrap_small 32 (Z.of_nat (length buf))) by lia.
  eapply wp_mono; [eapply (write_at_spec _ _ _ _ _ _ (fd_entry s fd) buf Hd); try done|].
  { intros Hl. by rewrite Hsize, (size_empty _ _ _ _ _ _ Hd Hl). }
  intros [[[err n] pos'] d'] b' Hok. cbn beta iota. apply wp_put_pos.
  change (set_fds _ (set_dev b' s)) with (step fd b' pos' s). apply wp_put_dentry.
  pose proof (moved_step fd b' pos' s) as Hm. rewrite <- (mv_node _ _ _ Hm).
  change (set_cache _ _) with (with_entry fd d' (step fd b' pos' s)).
  destruct (Z.eqb_spec err ENOSPC) as [->|_]; [by apply wp_ret|].
  destruct (Z.eqb_spec err ENOERR) as [->|Herr]; cbn [negb]; [|by apply wp_ret].
  destruct (Hok eq_refl) as (-> & c & l' & -> & Hl' & Hp & Hoth).
  rewrite Z.sub_diag, (s32_small 0) by lia. destruct fuel as [|fuel]; [lia|].
  cbn [write_vector Z.gtb Z.compare]. apply wp_ret. intros _.
  rewrite uwrap_small, s32_small by lia. do 2 (split; [done|]). exists l'. split; [|split].
  - eapply with_entry_desc; [|done]. unfold step. cbn. by rewrite fds_insert.
  - by rewrite with_entry_entry.
  - eapply apart_trans; [apply moved_apart; [done|exact Hoth]|apply with_entry_apart].
Qed.

Lemma fo_write_spec t s fp l v buf :
  open_file s fp l v -> flag (f_flag fp) O_APPEND = false -> fop_ok (FWrite buf) v ->
  wp (fatfs_fo_write disk t fp [buf] (Z.of_nat (length buf))) (fun '(err, resid, fp') s' =>
    err = ENOERR -> exists v' l', spec_fop (FWrite buf) v = Some ([], resid, v') /\
      open_file s' fp' l' v' /\ fp' = set_offset (fv_off v') fp /\
      apart_from (f_data fp) s s' l l') s.
Proof.
  intros [Hd Hsize Ho] Hflag [Hbuf Hmax]. pose proof (fp_off _ _ _ _ _ _ Hd) as Hoff.
  unfold fatfs_fo_write. apply wp_get_fd. rewrite Hflag. apply wp_bind, wp_ret.
  rewrite Ho, uwrap_small by lia. apply wp_node_dentry. fold (fd_entry s (f_data fp)). rewrite Hsize.
  destruct (Z.gtb_spec (fv_off v) (Z.of_nat (length (fv_data v)))); [lia|].
  cbn [write_vectors]. rewrite Nat2Z.id. apply wp_bind, wp_bind.
  eapply wp_mono; [apply (write_vector_spec _ _ s l (fv_data v)); try done; lia|].
  intros [err|[[err pos] resid]] s1 Hok; apply wp_ret; [by apply wp_ret|].
  apply wp_node_dentry. cbv zeta. apply wp_put_dentry, wp_ret. intros ->.
  destruct (Hok eq_refl) as (-> & -> & l' & Hd1 & Hs1 & Hap).
  rewrite <- (af_node _ _ _ _ _ Hap). fold (fd_entry s1 (f_data fp)). rewrite Z.sub_diag.
  change (set_cache _ s1) with (with_entry (f_data fp)
    (if fv_off v + Z.of_nat (length buf) >? size (fd_entry s1 (f_data fp))
     then set_size (fv_off v + Z.of_nat (length buf)) (set_amtime t (fd_entry s1 (f_data fp)))
     else set_amtime t (fd_entry s1 (f_data fp))) s1).
  rewrite s32_small by lia. eexists _, l'. split; [done|].
  split; [|split; [done|by eapply apart_trans; [|apply with_entry_apart]]].
  constructor; cbn; [| |done].
  - eapply with_entry_desc; [exact Hd1|]. by case_match.
  - rewrite with_entry_entry, overwrite_length, Hs1 by done.
    destruct (Z.gtb_spec (fv_off v + Z.of_nat (length buf)) (Z.of_nat (length (fv_data v)))); cbn; lia.
Qed.

(** ** Seeking *)
Lemma fo_lseek_spec s fp l v apos whence :
  open_file s fp l v -> fop_ok (FSeek apos whence) v ->
  wp (fatfs_fo_lseek disk fp apos whence) (fun '(err, pos, fp') s' =>
    (spec_fop (FSeek apos whence) v = None -> err = EINVAL /\ pos = apos /\ fp' = fp /\ s' = s) /\
    (err = ENOERR -> exists v', spec_fop (FSeek apos whence) v = Some ([], pos, v') /\
      open_file s' fp' l v' /\ fp' = set_offset (fv_off v') fp /\ apart_from (f_data fp) s s' l l)) s.
Proof.
  intros [Hd Hsize Ho] Hok. pose proof (fp_off _ _ _ _ _ _ Hd) as Hoff.
  pose proof (fp_len _ _ _ _ _ _ Hd) as Hlen.
  unfold fatfs_fo_lseek. apply wp_get_fd, wp_node_dentry. fold (fd_entry s (f_data fp)).
  rewrite Hsize, Ho. cbn [fop_ok spec_fop] in *.
  assert ((if whence =? SEEK_SET then Some apos
    else if whence =? SEEK_CUR then Some (s32 (apos + fv_off v))
    else if whence =? SEEK_END then Some (s32 (apos + Z.of_nat (length (fv_data v)))) else None)
    = seek_target apos whence v) as ->.
  { unfold seek_target in *. destruct (whence =? SEEK_SET), (whence =? SEEK_CUR), (whence =? SEEK_END); try done;
    by rewrite s32_small by lia. }
  destruct (seek_target apos whence v) as [o|]; [|by apply wp_ret].
  destruct Hok as [Ha Hr]. cbn [mbind option_bind].
  destruct (Z.ltb_spec o 0) as [Hneg|Hneg]; cbn [orb].
  { apply wp_ret. rewrite (proj2 (Z.leb_gt 0 o)) by done. done. }
  rewrite (proj2 (Z.leb_le 0 o)), (uwrap_small 32 o) by lia.
  destruct (Z.gtb_spec o (Z.of_nat (length (fv_data v)))) as [Hgt|Hle].
  { apply wp_ret. rewrite (proj2 (Z.leb_gt o _)) by lia. done. }
  rewrite (proj2 (Z.leb_le o _)) by lia. apply wp_bind, wp_on_dev.
  eapply wp_mono; [eapply (setpos_at_spec _ _ _ _ _ _ (fd_entry s (f_data fp)) o Hd); done|].
  intros [err pos'] b' (Hb' & Hc & Hp). cbn beta iota. apply wp_put_pos.
  change (set_fds _ (set_dev b' s)) with (step (f_data fp) b' pos' s).
  pose proof (moved_step (f_data fp) b' pos' s) as Hm.
  destruct (Z.eqb_spec err ENOERR) as [->|Herr]; apply wp_ret; [|done]. split; [done|]. intros _.
  eexists. split; [done|]. split; [|split; [done|by apply moved_apart, others_same]].
  constructor; cbn; [by apply open_desc_step, Hp| |done]. by rewrite (moved_entry _ _ _ Hm).
Qed.

(** ** Sequences of operations *)
(** The error, the answer (vectors filled; residue or offset) and the file object. *)
Definition run_fop (t : Z) (op : file_op) (fp : cyg_file) :
    M (@fs_state B) (Z * (list (list byte) * Z) * cyg_file) :=
  match op with
  | FRead iov =>
      '(err, bufs, resid, fp) ← fatfs_fo_read disk t fp iov (total iov);
      mret (err, (bufs, resid), fp)
  | FWrite buf =>
      '(err, resid, fp) ← fatfs_fo_write disk t fp [buf] (Z.of_nat (length buf));
      mret (err, ([], resid), fp)
  | FSeek apos whence =>
      '(err, pos, fp) ← fatfs_fo_lseek disk fp apos whence;
      mret (err, ([], pos), fp)
  end.

(** Runs until an error, with the times of the clock for each operation. *)
Fixpoint run_fops (ops : list (Z * file_op)) (fp : cyg_file) :
    M (@fs_state B) (Z + list (list (list byte) * Z) * cyg_file) :=
  match ops with
  | [] => mret (inr ([], fp))
  | (t, op) :: ops =>
      '(err, answer, fp) ← run_fop t op fp;
      if negb (err =? ENOERR) then mret (inl err)
      else
        r ← run_fops ops fp;
        match r with
        | inl err => mret (inl err)
        | inr (answers, fp) => mret (inr (answer :: answers, fp))
        end
  end.

Lemma run_fop_spec t op s fp l v :
  open_file s fp l v -> flag (f_flag fp) O_APPEND = false -> fop_ok op v ->
  wp (run_fop t op fp) (fun '(err, (bufs, n), fp') s' =>
    err = ENOERR -> exists v' l', spec_fop op v = Some (bufs, n, v') /\ open_file s' fp' l' v' /\
      fp' = set_offset (fv_off v') fp /\ apart_from (f_data fp) s s' l l') s.
Proof.
  intros Hf Hflag Hok. destruct op as [iov|buf|apos whence]; apply wp_bind; eapply wp_mono.
  - by apply (fo_read_spec t s fp l v).
  - intros [[[err bufs] resid] fp'] s' H. apply wp_ret. intros He. destruct (H He) as (v' & H'). eauto.
  - by apply (fo_write_spec t s fp l v).
  - intros [[err resid] fp'] s' H. apply wp_ret. done.
  - by apply (fo_lseek_spec s fp l v).
  - intros [[err pos] fp'] s' [_ H]. apply wp_ret. intros He. destruct (H He) as (v' & H'). eauto.
Qed.

Lemma run_fops_spec ops : forall s fp l v,
  open_file s fp l v -> flag (f_flag fp) O_APPEND = false -> fops_ok (snd <$> ops) v ->
  wp (run_fops ops fp) (fun r s' =>
    match r with
    | inl err => err <> ENOERR
    | inr (answers, fp') => exists v' l', spec_fops (snd <$> ops) v = Some (answers, v') /\
        open_file s' fp' l' v' /\ fp' = set_offset (fv_off v') fp /\ apart_from (f_data fp) s s' l l'
    end) s.
Proof.
  induction ops as [|[t op] ops IH]; intros s fp l v Hf Hflag Hok; cbn [run_fops].
  { apply wp_ret. exists v, l. split; [done|]. split; [done|]. split; [|apply apart_refl].
    rewrite <- (of_offset _ _ _ _ Hf). by destruct fp. }
  destruct Hok as [Hop Hops]. cbn [fmap list_fmap snd] in Hop, Hops.
  apply wp_bind. eapply wp_mono; [by apply (run_fop_spec t op s fp l v)|].
  intros [[err [bufs n]] fp1] s1 H1. cbn beta iota.
  destruct (Z.eqb_spec err ENOERR) as [->|Herr]; cbn [negb]; [|by apply wp_ret].
  destruct (H1 eq_refl) as (v1 & l1 & Hs & Hf1 & -> & Hap). rewrite Hs in Hops. apply wp_bind.
  eapply wp_mono; [by apply (IH s1 _ l1 v1)|]. intros [err|[answers fp2]] s2 H2; apply wp_ret; [done|].
  destruct H2 as (v2 & l2 & Hs2 & Hf2 & -> & Hap2). exists v2, l2.
  cbn [fmap list_fmap spec_fops snd]. rewrite Hs. cbn [mbind option_bind]. rewrite Hs2.
  split; [done|]. split; [done|]. split; [done|by eapply apart_trans].
Qed.

(** C1: an open file is a string of bytes with an offset. On a file that was opened
    without O_APPEND, whatever sequence of reads (into any vectors), writes (of one
    buffer each) and seeks, with lengths and offsets within [off_t], runs without an
    error, the bytes delivered, the residues and the offsets are those of the string,
    and the descriptor holds the string that results; the other descriptors, the other
    nodes and every other file of the disk are as they were. Nothing is said of
    appending, where the code ignores that it could not move to the end, nor of writes
    of several vectors, where it goes on after a vector for which the disk was full. *)
Theorem open_file_refines ops s fp l v :
  open_file s fp l v -> flag (f_flag fp) O_APPEND = false -> fops_ok (snd <$> ops) v ->
  wp (run_fops ops fp) (fun r s' =>
    match r with
    | inl err => err <> ENOERR
    | inr (answers, fp') => exists v' l', spec_fops (snd <$> ops) v = Some (answers, v') /\
        open_file s' fp' l' v' /\ apart_from (f_data fp) s s' l l'
    end) s.
Proof.
  intros. eapply wp_mono; [by apply run_fops_spec|]. intros [err|[answers fp']] s' H'; [done|].
  destruct H' as (v' & l' & Hs & Hf & _ & Hap). by exists v', l'.
Qed.

(** C0: [fatfs_fo_lseek] answers EINVAL, and changes nothing, exactly when the origin
    is none of the three or the target is outside the file; else it returns the
    target, which becomes the offset, unless the device fails. *)
Theorem lseek_ok s fp l v apos whence :
  open_file s fp l v -> fop_ok (FSeek apos whence) v ->
  wp (fatfs_fo_lseek disk fp apos whence) (fun '(err, pos, fp') s' =>
    (spec_fop (FSeek apos whence) v = None -> err = EINVAL /\ pos = apos /\ fp' = fp /\ s' = s) /\
    (err = ENOERR -> exists v', spec_fop (FSeek apos whence) v = Some ([], pos, v') /\
      open_file s' fp' l v' /\ f_offset fp' = pos)) s.
Proof.
  intros Hf Hok. eapply wp_mono; [by apply (fo_lseek_spec s fp l v)|].
  intros [[err pos] fp'] s' [H1 H2]. split; [done|]. intros He. destruct (H2 He) as (v' & Hs & Hf' & -> & _).
  exists v'. split; [done|]. split; [done|]. cbn in Hs |- *.
  destruct (seek_target apos whence v); [|done]. cbn in Hs. case_match; [|done]. by injection Hs as <- <-.
Qed.

(** ** Synchronising *)
Lemma holds_file_kept b b' c l data :
  (chain disk (fat disk b) c l -> kept disk b b' c l) -> holds_file b c l data -> holds_file b' c l data.
Proof.
  intros Hk Hf. destruct l as [|k l]; [done|]. destruct Hf as (Hch & Hroom & Hdata).
  destruct (Hk Hch) as [Hch' Hbytes]. split; [done|]. split; [done|]. rewrite Hdata at 1. symmetry.
  apply file_read_eq. intros o Ho. destruct (file_index disk Hwf o (k :: l)) as (Hq & Hr & _); [lia|].
  unfold file_at. apply (Hbytes (nthZ (k :: l) (o / cluster_size disk))); [by apply nthZ_in|].
  unfold in_cluster, cluster_off. lia.
Qed.

Lemma holds_file_same b b' c l data :
  content b' = content b -> holds_file b c l data -> holds_file b' c l data.
Proof. intros Hc. apply holds_file_kept. by apply kept_same. Qed.

(** C32: after an [fsync] that answers no error the file survives without the cache:
    any disk with the bytes that are on the device then has the entry of the file,
    with its size, in its slot of the directory, and its contents in its clusters. *)
Theorem fsync_ok s fp l v c dir i m :
  let file := fd_entry s (f_data fp) in
  open_file s fp l v -> holds_dir disk (fs_dev s) c dir -> at_slot disk dir (disk_pos file) i ->
  0 <= i < slots disk dir -> page_in disk dir (disk_pos file) -> dentry_ok file -> apart dir l ->
  wp (fatfs_fo_fsync disk fp m) (fun err s' =>
    err = ENOERR -> open_file s' fp l v /\
      forall b, content b = durable (fs_dev s') ->
        slot disk b dir i = dentry_to_raw file /\ holds_file b (d_cluster file) l (fv_data v)) s.
Proof.
  intros file [Hd Hsize Ho] Hdir Hp Hi Hin Hok Hap. pose proof Hd as [Hb Hf Hpos Hoff Hlen].
  apply wp_get_fd, wp_node_dentry. fold (fd_entry s (f_data fp)) file. apply wp_bind, wp_on_dev.
  eapply wp_mono; [eapply (write_raw_dentry_spec disk Hwf _ c dir); try done; by apply dentry_to_raw_ok|].
  intros err b1 (Hb1 & Hch1 & Hslot). destruct (Z.eqb_spec ENOERR err) as [<-|Herr]; [|by apply wp_ret].
  apply wp_on_dev. eapply wp_mono; [by apply store_sync|]. cbn.
  intros err b2 (Hb2 & Hc2 & Hdur) ->. specialize (Hdur eq_refl). specialize (Hslot eq_refl).
  assert (holds_file b1 (d_cluster file) l (fv_data v)) as Hf1.
  { eapply holds_file_kept; [|exact Hf]. by apply (kept_write disk Hwf _ b1 c dir i). }
  split.
  - constructor; [|done|done]. constructor; try done. by eapply holds_file_same.
  - intros b Hcb. rewrite Hdur in Hcb. split; [|by eapply holds_file_same].
    rewrite <- Hslot. unfold slot, slot_bytes. destruct dir; [by rewrite Hcb|].
    f_equal. by apply file_read_ext.
Qed.
End Open.

(** ** On the volume of [FatExample] *)
Definition toy_fs : @fs_state image := {|
  fs_dev := toy_img;
  fs_cache := mk_ncache (fun _ => mk_node toy_file 1 None None None) [] 0
    (mk_node_list 1 (Some 0) (Some 0)) node_list_init (mk_hash_table 1 1 [Some 0]);
  fs_root := 1;
  fatfs_fds_base := fun _ => mk_fd 0 (mk_pos 3 1 20);
  fatfs_fds_pool := [0; 1];
  fatfs_fds_free_cnt := 1;
  fds_initialized := true;
|}.
Definition toy_fp : cyg_file := mk_file 3 false 52 1.
Definition toy_view : file_view := mk_view (file_read toy_disk toy_img [2; 3; 5] 0 80) 52.

Lemma toy_open : open_file toy_disk toy_fs toy_fp [2; 3; 5] toy_view.
Proof.
  constructor; [|reflexivity|reflexivity]. constructor.
  - apply toy_good.
  - split; [apply toy_chain|]. split; [vm_compute; congruence|reflexivity].
  - split; [|reflexivity]. split; [split; [|reflexivity]|]; vm_compute; [|split]; congruence.
  - vm_compute. split; congruence.
  - reflexivity.
Qed.

Lemma open_file_refines_witness :
  let ops := [(0, FWrite (repeat 7 40)); (0, FSeek 52 SEEK_SET); (0, FRead [16; 100])] in
  wp (run_fops toy_disk ops toy_fp) (fun r s' =>
    match r with
    | inl err => err <> ENOERR
    | inr (answers, fp') => exists v' l', spec_fops (snd <$> ops) toy_view = Some (answers, v') /\
        open_file toy_disk s' fp' l' v' /\ apart_from toy_disk (f_data toy_fp) toy_fs s' [2; 3; 5] l'
    end) toy_fs /\
  match run_fops toy_disk ops toy_fp toy_fs with Some (inr _, _) => true | _ => false end = true.
Proof.
  split; [|vm_compute; reflexivity].
  apply (open_file_refines toy_disk toy_wf); [apply toy_open|reflexivity|].
  split; [split; [by apply bytes_check|reflexivity]|]. cbn. split_and!; try lia; try done.
  repeat constructor; lia.
Defined.

Lemma lseek_ok_witness :
  wp (fatfs_fo_lseek toy_disk toy_fp (-10) SEEK_END) (fun '(err, pos, fp') s' =>
    (spec_fop (FSeek (-10) SEEK_END) toy_view = None ->
      err = EINVAL /\ pos = -10 /\ fp' = toy_fp /\ s' = toy_fs) /\
    (err = ENOERR -> exists v', spec_fop (FSeek (-10) SEEK_END) toy_view = Some ([], pos, v') /\
      open_file toy_disk s' fp' [2; 3; 5] v' /\ f_offset fp' = pos)) toy_fs.
Proof. apply (lseek_ok toy_disk toy_wf); [apply toy_open|]. cbn. lia. Defined.

Lemma fsync_ok_witness :
  wp (fatfs_fo_fsync toy_disk toy_fp 0) (fun err s' =>
    err = ENOERR -> open_file toy_disk s' toy_fp [2; 3; 5] toy_view /\
      forall b : image, content b = durable (fs_dev s') ->
        slot toy_disk b RootDir 0 = dentry_to_raw toy_file /\
        holds_file toy_disk b 2 [2; 3; 5] (fv_data toy_view)) toy_fs.
Proof.
  apply (fsync_ok toy_disk toy_wf toy_fs toy_fp [2; 3; 5] toy_view 0 RootDir 0 0);
    [apply toy_open|apply toy_root|split; reflexivity|vm_compute; split; congruence|exact I|
     apply toy_file_ok|exact I].
Defined.
