(* ===== verification/FatLookup.v ===== *)
(** * FAT file system: what path lookup finds

    One component of a path, against the node cache as its abstract view and the
    directory as its slots on the disk: the node cached for the entry, else the
    first entry in use with the name, for which a node is made. *)
From stdpp Require Import functions.
From S2P Require Import Prelude Blib BlibContract FatStore FatTable FatTableSpec FatChain.
From S2P Require Import FatFile FatDentry FatNode FatNodeSpec FatNodeOps FatDir FatDirSpec FatDirOps.
From S2P Require Import FatFs FatOpen FatExample.

(** ** Comparing names *)
Lemma strncmp_eq s t n :
  name_bytes s -> name_bytes t -> strncmp s t n = 0 <-> take n s = take n t.
Proof.
  intros Hs. revert t n. induction Hs as [|c s Hc Hs IH]; intros t [|n] Ht; try done; cbn [strncmp take].
  - destruct Ht as [|d t Hd Ht]; [done|]. cbn [char_at hd tail take]. rewrite (proj2 (Z.eqb_neq 0 d)) by lia. split; [lia|done].
  - destruct Ht as [|d t Hd Ht]; cbn [char_at hd tail take].
    + rewrite (proj2 (Z.eqb_neq c 0)) by lia. split; [lia|done].
    + destruct (Z.eqb_spec c d) as [->|Hne]; [|split; [lia|congruence]].
      rewrite IH by done. split; congruence.
Qed.

Lemma dot_bytes : name_bytes [DOT] /\ name_bytes [DOT; DOT].
Proof. split; repeat constructor; unfold DOT; lia. Qed.

(** The test of [search_dir] on an entry. *)
Lemma match_name past_end d name n :
  name_bytes (filename d) -> name_bytes name -> (n <= length name)%nat -> (n < 13)%nat ->
  exists c, filename_at past_end d (Z.of_nat n) = Some c /\
    (0 =? c) && (0 =? strncasecmp (filename d) name n) = bool_decide (same_name (filename d) (take n name)).
Proof.
  intros Hf Hname Hn H13. destruct (filename_at_spec past_end d n Hf H13) as (c & Hc & H0 & Hlen).
  exists c. split; [done|]. pose proof (name_bytes_take n name Hname) as Ht.
  pose proof (strcasecmp_eq (filename d) (take n name) Hf Ht) as Heq.
  apply eq_bool_prop_intro. rewrite Is_true_true, Is_true_true, bool_decide_eq_true, andb_true_iff, !Z.eqb_eq.
  split.
  - intros [<- H]. apply Heq. rewrite <- compare_name; [done|done|done|]. specialize (H0 eq_refl). lia.
  - intros Hsn. pose proof (same_name_length _ _ Hsn) as Hl. rewrite length_take in Hl.
    split; [rewrite Hlen; lia|]. rewrite compare_name by (done || lia). symmetry. by apply Heq.
Qed.

Lemma component_take path :
  take (component_length path) path ++ drop (component_length path) path = path /\
  (component_length path <= length path)%nat.
Proof.
  split; [apply take_drop|]. induction path as [|c path IH]; cbn; [lia|]. case_match; lia.
Qed.

Section Lookup.
Context {B : Type} {lib : BlockLibrary B} {log2 : Z} {store : BlockStore lib log2}.
Context (disk : fatfs_disk_t) (Hwf : disk_wf log2 disk).
Context (POOL : Z) (HPOOL : 1 <= POOL < 2 ^ 32) (past_end : fatfs_dir_entry_t -> Z -> byte).
Implicit Types (s : @fs_state B) (v : cache_view) (D : dir).

(** ** What a directory lists *)
(** Slot [j] is in use, before the end of the directory, and has the name. *)
Definition named (b : B) D (comp : list byte) (j : Z) : Prop :=
  0 <= j < slots disk D /\ used (slot disk b D j) /\
  (forall k, 0 <= k < j -> DENTRY_IS_ZERO (slot disk b D k) = false) /\
  same_name (get_raw_dentry_filename (slot disk b D j)) comp.

(** The names in use are C strings that fit their array. *)
Definition names_fit (b : B) D : Prop :=
  forall j, 0 <= j < slots disk D -> used (slot disk b D j) ->
    name_bytes (get_raw_dentry_filename (slot disk b D j)).

(** The entry with the name that a search of the directory meets first. *)
Definition first_named (b : B) D comp parent (e : fatfs_dir_entry_t) : Prop :=
  exists j p, named b D comp j /\ (forall k, 0 <= k < j -> ~ named b D comp k) /\
    at_slot disk D p j /\ e = raw_to_dentry (slot disk b D j) p parent.

(** No node of the cache is that of the entry. *)
Definition not_cached v comp parent : Prop :=
  Forall (fun a => ~ has_key (v_dentry v) comp parent a) (v_live v ++ v_dead v).

(** The disk and the cache a step leaves, with the same contents of the disk. *)
Definition fs_rep s0 s v : Prop :=
  good (fs_dev s) /\ content (fs_dev s) = content (fs_dev s0) /\ rep POOL (fs_cache s) v /\
  fs_root s = fs_root s0 /\ fatfs_fds_base s = fatfs_fds_base s0.

Lemma wp_on_cache {A} (m : M fatfs_ncache_t A) Q s :
  wp m (fun a c => Q a (set_cache c s)) (fs_cache s) -> wp (on_cache m) Q s.
Proof. intros (a & c & Hm & HQ). exists a, (set_cache c s). unfold on_cache. by rewrite Hm. Qed.

(** A call of the node cache, by its contract. *)
Lemma wp_cache_op op (m : M fatfs_ncache_t (option Z)) Q s0 s v :
  fs_rep s0 s v -> view_ok POOL v -> op_ok op v -> m = run_op POOL past_end op ->
  (forall s', fs_rep s0 s' (snd (spec_op op v)) -> view_ok POOL (snd (spec_op op v)) ->
     Q (fst (spec_op op v)) s') ->
  wp (on_cache m) Q s.
Proof.
  intros (Hb & Hc & Hrep & Hr & Hf) Hok Hop -> HQ. apply wp_on_cache.
  eapply wp_mono; [by apply (op_does POOL past_end HPOOL op)|]. cbn. intros r c [-> Hrep'].
  apply HQ; [|by apply spec_op_ok]. by split_and!.
Qed.

(** The entry found may enter the cache. *)
Lemma alloc_allowed b D comp parent e v :
  names_fit b D -> not_cached v comp parent -> first_named b D comp parent e -> op_ok (OpAlloc e) v.
Proof.
  intros Hfit Hnc (j & p & (Hj & Hu & _ & Hs) & _ & _ & ->). destruct v as [live dead free De R].
  cbn. split; [by apply Hfit|]. unfold not_cached in Hnc. cbn in Hnc.
  eapply Forall_impl; [exact Hnc|]. intros a Ha [Hp Hn]. apply Ha. cbn in *. split; [done|].
  unfold same_name in *. congruence.
Qed.

Lemma node_dentry_spec {A} a (f : fatfs_dir_entry_t -> M (@fs_state B) A) Q s0 s v :
  fs_rep s0 s v -> wp (f (v_dentry v a)) Q s -> wp (node_dentry a ≫= f) Q s.
Proof.
  intros (_ & _ & (ch & Hrep & _) & _) H. apply wp_node_dentry. by rewrite (rw_dentry _ _ _ _ Hrep).
Qed.

(** Reading the directory leaves the rest of the state. *)
Lemma fs_rep_dev s0 s v b :
  fs_rep s0 s v -> good b -> content b = content (fs_dev s) -> fs_rep s0 (set_dev b s) v.
Proof. intros (_ & Hc & Hrep & Hr & Hf) Hb Hcb. unfold fs_rep. cbn. split_and!; try done. congruence. Qed.

(** What a search for [comp] in the directory [D] answers. *)
Definition searched s0 v D comp parent (r : Z * option Z) s' : Prop :=
  let '(err, node) := r in
  (exists e, first_named (fs_dev s0) D comp parent e /\
     (err, node) = node_or_emfile (fst (spec_op (OpAlloc e) v)) /\
     fs_rep s0 s' (snd (spec_op (OpAlloc e) v)) /\ view_ok POOL (snd (spec_op (OpAlloc e) v))) \/
  (err = ENOERR /\ node = None /\ (forall j, ~ named (fs_dev s0) D comp j) /\ fs_rep s0 s' v) \/
  (device_error err /\ node = None /\ fs_rep s0 s' v).

Lemma search_dir_spec s0 v D dir name n fuel :
  let d := v_dentry v dir in let comp := take n name in
  good (fs_dev s0) -> view_ok POOL v -> holds_dir disk (fs_dev s0) (start_cluster disk d) D ->
  names_fit (fs_dev s0) D -> not_cached v comp (d_cluster d) ->
  name_bytes name -> (0 < n <= length name)%nat -> (n < 13)%nat -> comp <> [DOT] -> comp <> [DOT; DOT] ->
  forall s pos i, fs_rep s0 s v -> at_slot disk D (correct_root disk pos) i -> 0 <= i <= slots disk D ->
  slots disk D + 1 - i < Z.of_nat fuel ->
  (forall k, 0 <= k < i -> ~ named (fs_dev s0) D comp k) ->
  (forall k, 0 <= k < i -> DENTRY_IS_ZERO (slot disk (fs_dev s0) D k) = false) ->
  wp (search_dir disk POOL past_end fuel dir name (Z.of_nat n) pos)
    (searched s0 v D comp (d_cluster d)) s.
Proof.
  intros d comp Hb0 Hok HD Hfit Hnc Hname Hn H13 Hdot Hdotdot.
  induction fuel as [|fuel IH]; intros s pos i Hs Hp Hi Hfuel Hno Hnz; [lia|].
  cbn [search_dir]. apply (node_dentry_spec _ _ _ s0 s v Hs). fold d.
  pose proof Hs as (Hb & Hc & _).
  apply wp_bind, wp_on_dev. eapply wp_mono.
  { eapply (fatfs_read_dir_entry_spec disk Hwf _ _ D); [done|by eapply holds_same|done|lia]. }
  intros [[err pos'] de] b' (Hb' & Hc' & Hr). cbn beta iota.
  pose proof (fs_rep_dev _ _ _ _ Hs Hb' Hc') as Hs'.
  assert (forall k, slot disk (fs_dev s) D k = slot disk (fs_dev s0) D k) as Hsl
    by (intros; by apply slot_same).
  destruct Hr as [(-> & j & p & Hj & Hpj & Hu & -> & Hp' & Hdel)|[(-> & j & Hij & Hz & Hdel)|He]].
  - change (negb (ENOERR =? ENOERR)) with false. cbv iota. rewrite Hsl in *.
    assert (forall k, 0 <= k < j -> DENTRY_IS_ZERO (slot disk (fs_dev s0) D k) = false) as Hnz'.
    { intros k Hk. destruct (decide (k < i)); [apply Hnz; lia|]. rewrite <- Hsl. apply (Hdel k). lia. }
    assert (forall k, 0 <= k < j -> ~ named (fs_dev s0) D comp k) as Hno'.
    { intros k Hk. destruct (decide (k < i)); [apply Hno; lia|]. intros (_ & [_ Hk2] & _).
      rewrite <- Hsl in Hk2. destruct (Hdel k) as [_ ?]; [lia|]. congruence. }
    set (e := raw_to_dentry _ p _).
    destruct (match_name past_end e name n) as (c & -> & Hmatch);
      [by apply Hfit; [lia|]|done|lia|done|].
    rewrite Nat2Z.id, Hmatch. case_bool_decide as Hsn.
    + unfold enter_node. rewrite Nat2Z.id.
      destruct (Z.eqb_spec 0 (strncmp name [DOT; DOT] n)) as [H0|_].
      { exfalso. symmetry in H0. apply strncmp_eq in H0; [|done|apply dot_bytes]. fold comp in H0.
        destruct n as [|[|n]]; [lia|done|by rewrite take_ge in H0 by (cbn; lia)]. }
      assert (first_named (fs_dev s0) D comp (d_cluster d) e) as Hfe.
      { exists j, p. split; [|done]. split; [lia|done]. }
      apply wp_bind. eapply (wp_cache_op (OpAlloc e)); [exact Hs'|done| |done|].
      { by eapply alloc_allowed. }
      intros s2 Hs2 Hok2. apply wp_ret. unfold searched.
      destruct (node_or_emfile _) as [err node] eqn:E. left. by exists e.
    + apply (IH _ pos' (j + 1)); [done| |lia|lia| |].
      * by rewrite (at_slot_correct disk _ _ _ _ _ HD Hp').
      * intros k Hk. destruct (decide (k = j)) as [->|]; [|apply Hno'; lia]. intros (_ & _ & _ & H).
        by apply Hsn.
      * intros k Hk. destruct (decide (k = j)) as [->|]; [apply Hu|apply Hnz'; lia].
  - cbn [negb Z.eqb ENOERR EEOF Pos.eqb]. apply wp_ret. right. left. split_and!; try done.
    intros k Hn'. pose proof Hn' as (Hk & [Hkz Hku] & Hknz & _). rewrite <- Hsl in Hkz, Hku.
    destruct (Z.lt_trichotomy k j) as [Hlt|[->|Hgt]].
    + destruct (decide (k < i)); [apply (Hno k); [lia|done]|]. destruct (Hdel k) as [_ Hd]; [lia..|]. congruence.
    + rewrite Hz in Hkz; [done|lia].
    + specialize (Hknz j ltac:(lia)). rewrite <- Hsl, Hz in Hknz; [done|lia].
  - rewrite (proj2 (Z.eqb_neq err ENOERR)) by apply He. cbn [negb].
    rewrite (proj2 (Z.eqb_neq err EEOF)) by apply He. apply wp_ret. right. right. by split_and!.
Qed.

(** ** One component of a path *)
Lemma not_dot path n :
  name_bytes path -> (0 < n)%nat -> take n path <> [DOT] -> (0 =? strncmp [DOT] path n) = false.
Proof.
  intros Hp Hn Hd. apply Z.eqb_neq. intros H0. symmetry in H0.
  apply strncmp_eq in H0; [|apply dot_bytes|done]. apply Hd. rewrite <- H0. destruct n as [|[|n]]; [lia|done..].
Qed.

Lemma touch_dentry a v : v_dentry (snd (spec_op (OpTouch a) v)) = v_dentry v.
Proof. destruct v. cbn. by case_decide. Qed.

(** The answer of [find_direntry] for [comp]: the node cached for the entry, which
    has become the most recent of its list; else the result of the search. *)
Definition component_found s0 v D comp parent err (node : option Z) s' : Prop :=
  (exists a, err = ENOERR /\ node = Some a /\ a ∈ v_live v ++ v_dead v /\
     has_key (v_dentry v) comp parent a /\
     fs_rep s0 s' (snd (spec_op (OpTouch a) v)) /\ view_ok POOL (snd (spec_op (OpTouch a) v))) \/
  (not_cached v comp parent /\ searched s0 v D comp parent (err, node) s').

Lemma find_direntry_spec s v D ds path n :
  let d := v_dentry v (ds_dir ds) in let comp := take n path in
  fs_rep s s v -> view_ok POOL v -> holds_dir disk (fs_dev s) (start_cluster disk d) D ->
  names_fit (fs_dev s) D -> name_bytes path -> (0 < n <= length path)%nat -> (n < 13)%nat ->
  comp <> [DOT] -> comp <> [DOT; DOT] -> ds_namelen ds = Z.of_nat n ->
  wp (find_direntry disk POOL past_end ds path) (fun '(err, ds') s' =>
    ds' = ds_set_node (ds_node ds') ds /\
    component_found s v D comp (d_cluster d) err (ds_node ds') s') s.
Proof.
  intros d comp Hs Hok HD Hfit Hpath Hn H13 Hdot Hdotdot Hlen. unfold find_direntry. rewrite Hlen.
  rewrite uwrap_small, Nat2Z.id, not_dot by (done || lia).
  rewrite (proj2 (Z.ltb_ge _ 0)) by lia. apply (node_dentry_spec _ _ _ s s v Hs). fold d.
  apply wp_bind. eapply (wp_cache_op (OpFind path (Z.of_nat n) (d_cluster d))); [exact Hs|done| |done|].
  { destruct v. cbn. split; [done|lia]. }
  assert (spec_op (OpFind path (Z.of_nat n) (d_cluster d)) v
    = (snd <$> list_find (has_key (v_dentry v) comp (d_cluster d)) (v_live v ++ v_dead v), v)) as ->.
  { destruct v. cbn. by rewrite Nat2Z.id. }
  cbn [fst snd]. intros s1 Hs1 _. destruct (list_find _ _) as [[i a]|] eqn:Hfind; cbn [fmap option_fmap option_map].
  - apply list_find_Some in Hfind as (Hi & Hkey & _). apply list_elem_of_lookup_2 in Hi.
    apply wp_bind. apply wp_on_cache. destruct Hs1 as (Hb1 & Hc1 & Hrep1 & Hr1 & Hf1).
    assert (op_ok (OpTouch a) v) as Htouch by by destruct v.
    pose proof (op_does POOL past_end HPOOL (OpTouch a) _ _ Hrep1 Hok Htouch) as Ht. cbn [run_op] in Ht.
    apply wp_bind_inv in Ht. eapply wp_mono; [exact Ht|]. cbn. intros _ c (r & c' & [= <- <-] & _ & Hrep2).
    apply wp_ret. split; [done|]. left. exists a. split_and!; try done. by apply spec_op_ok.
  - apply list_find_None in Hfind. apply wp_bind. eapply wp_mono.
    { pose proof (start_slot disk Hwf _ _ _ HD) as Hslot.
      pose proof (dir_entries_enough disk Hwf _ _ _ HD). pose proof (dir_room_32 disk Hwf _ _ _ HD).
      apply (search_dir_spec s v D (ds_dir ds) path n) with (i := 0); fold d; fold comp; try done; try lia.
      apply Hs. }
    intros [err node] s2 Hsearch. apply wp_ret. split; [by destruct ds|]. right. by destruct ds.
Qed.

(** C31: one step along a path, for a component of 1 to 12 characters that is neither
    '.' nor '..' (a longer one is compared beyond the end of the names it meets), in a
    directory whose names fit their 13 bytes. The component is the node cached for
    the entry of that name, without regard to case, which becomes the most recent
    of its list. If no node is cached, it is the first entry in use of the directory
    with that name, entered into the cache (or EMFILE when no node can be had); or
    ENOENT, and then the directory lists no such entry; or an error of the device,
    which leaves the cache as it was. *)
Theorem find_entry_ok s v D ds :
  let d := v_dentry v (ds_dir ds) in
  let n := component_length (ds_path ds) in let comp := take n (ds_path ds) in
  fs_rep s s v -> view_ok POOL v -> S_ISDIR (mode d) = true ->
  holds_dir disk (fs_dev s) (start_cluster disk d) D -> names_fit (fs_dev s) D ->
  name_bytes (ds_path ds) -> (0 < n < 13)%nat -> comp <> [DOT] -> comp <> [DOT; DOT] ->
  wp (find_entry disk POOL past_end ds) (fun '(err, ds') s' =>
    ds' = mk_dirsearch (ds_dir ds) (ds_path ds) (ds_node ds') (Some (ds_path ds)) (Z.of_nat n)
            (ds_last ds || bool_decide (drop n (ds_path ds) = [])) /\
    ((exists a, err = ENOERR /\ ds_node ds' = Some a /\ a ∈ v_live v ++ v_dead v /\
        has_key (v_dentry v) comp (d_cluster d) a /\ fs_rep s s' (snd (spec_op (OpTouch a) v))) \/
     (not_cached v comp (d_cluster d) /\
        ((exists e, first_named (fs_dev s) D comp (d_cluster d) e /\
            (err, ds_node ds') = node_or_emfile (fst (spec_op (OpAlloc e) v)) /\
            fs_rep s s' (snd (spec_op (OpAlloc e) v))) \/
         (err = ENOENT /\ ds_node ds' = None /\ (forall j, ~ named (fs_dev s) D comp j) /\
            fs_rep s s' v))) \/
     (device_error err /\ fs_rep s s' v))) s.
Proof.
  intros d n comp Hs Hok Hdir HD Hfit Hpath Hn Hdot Hdotdot.
  destruct (component_take (ds_path ds)) as [_ Hle]. fold n in Hle.
  unfold find_entry. apply (node_dentry_spec _ _ _ s s v Hs). fold d. rewrite Hdir. cbn [negb].
  fold n. cbv zeta. assert (signed_char (u8 (Z.of_nat n)) = Z.of_nat n) as ->.
  { rewrite uwrap_small by lia. unfold signed_char. by rewrite (proj2 (Z.ltb_lt _ _)) by lia. }
  apply wp_bind. eapply wp_mono; [apply (find_direntry_spec s v D _ (ds_path ds) n); try done; lia|].
  cbn [ds_dir ds_path ds_last ds_name ds_namelen].
  intros [err ds'] s' [Hds Hr]. cbn [ds_dir] in Hr. fold d comp in Hr.
  destruct (Z.eqb_spec err ENOERR) as [->|Herr]; cbn [negb].
  - destruct (ds_node ds') as [a|] eqn:Hnode; apply wp_ret; (split; [by rewrite Hds, ?Hnode at 1|]).
    + destruct Hr as [(a' & _ & [= <-] & Ha & Hk & Ht & _)|[Hnc [(e & He)|[(_ & ? & _)|[[? _] _]]]]];
        [left; by exists a| |done..].
      right. left. split; [done|]. left. rewrite Hnode. exists e. tauto.
    + destruct Hr as [(a & _ & [=] & _)|[Hnc [(e & _ & He & _)|[(_ & _ & Hno & Hs')|[[? _] _]]]]]; [| |done].
      * unfold node_or_emfile in He. by case_match.
      * right. left. split; [done|]. by right.
  - apply wp_ret. split; [by rewrite Hds at 1|]. right.
    destruct Hr as [(a & ? & _)|[Hnc [(e & He)|[(? & _)|(He & Hnode & Hs')]]]]; [done| |done|].
    + left. split; [done|]. left. exists e. tauto.
    + by right.
Qed.
End Lookup.

(** ** On the volume of [FatExample] *)
Definition toy_ds (root : Z) (path : list byte) : fatfs_dirsearch_t :=
  mk_dirsearch root path (Some root) None 0 false.

(** A cache that holds the root directory, as [fatfs_mount] makes it. *)
Lemma toy_mounted : exists c v root,
  rep 4 c v /\ view_ok 4 v /\ root ∈ v_live v ++ v_dead v /\
  v_dentry v root = fatfs_get_root_dir_entry toy_disk.
Proof.
  assert (1 <= 4 < 2 ^ 32) as H4 by lia. assert (1 <= 8 < 2 ^ 32) as H8 by lia.
  destruct (cache_init_spec 4 H4 8 toy_raw_cache H8) as (_ & c & _ & Hrep).
  destruct (op_does 4 (fun _ _ => 0) H4 (OpAlloc (fatfs_get_root_dir_entry toy_disk)) _ _ Hrep)
    as (r & c' & _ & _ & Hrep'); [by apply empty_view_ok|by split; constructor|].
  eexists c', _, 3. split; [exact Hrep'|]. split; [|split; [by left|done]].
  apply (spec_op_ok 4 (fun _ _ => 0)); [done|by apply empty_view_ok|by split; constructor].
Qed.

Lemma toy_names : names_fit toy_disk toy_img RootDir.
Proof.
  intros j Hj. change (slots toy_disk RootDir) with 2 in Hj.
  assert (j = 0 \/ j = 1) as [-> | ->] by lia; intros [H0 _].
  - vm_compute. repeat constructor; lia.
  - exfalso. revert H0. vm_compute. discriminate.
Qed.

Lemma find_entry_ok_witness : exists c v root,
  let path := [97; 46; 116; 120; 116] in let s := set_cache c (set_root root toy_fs) in
  wp (find_entry toy_disk 4 (fun _ _ => 0) (toy_ds root path)) (fun '(err, ds') s' =>
    ds' = mk_dirsearch root path (ds_node ds') (Some path) 5 true /\
    ((exists a, err = ENOERR /\ ds_node ds' = Some a /\ a ∈ v_live v ++ v_dead v /\
        has_key (v_dentry v) path 0 a /\ fs_rep 4 s s' (snd (spec_op (OpTouch a) v))) \/
     (not_cached v path 0 /\
        ((exists e, first_named toy_disk toy_img RootDir path 0 e /\
            (err, ds_node ds') = node_or_emfile (fst (spec_op (OpAlloc e) v)) /\
            fs_rep 4 s s' (snd (spec_op (OpAlloc e) v))) \/
         (err = ENOENT /\ ds_node ds' = None /\ (forall j, ~ named toy_disk toy_img RootDir path j) /\
            fs_rep 4 s s' v))) \/
     (device_error err /\ fs_rep 4 s s' v))) s.
Proof.
  destruct toy_mounted as (c & v & root & Hrep & Hok & Hin & Hd). exists c, v, root. intros path s.
  assert (1 <= 4 < 2 ^ 32) as H4 by lia.
  pose proof (find_entry_ok toy_disk toy_wf 4 H4 (fun _ _ => 0) s v RootDir (toy_ds root path)) as H.
  cbn [toy_ds ds_dir ds_path ds_last] in H. rewrite Hd in H. apply H; clear H.
  - split; [apply toy_good|]. by split_and!.
  - exact Hok.
  - reflexivity.
  - apply toy_root.
  - apply toy_names.
  - repeat constructor; lia.
  - cbn. lia.
  - discriminate.
  - discriminate.
Defined.
