(* ===== verification/FatFds.v ===== *)
(** * FAT file system: the pool of file descriptors

    No descriptor is in use twice, and one can be had as long as fewer than
    CYGNUM_FILEIO_NFD are in use. *)
From stdpp Require Import functions.
From S2P Require Import Prelude FatStore FatTable FatFile FatNode FatNodeOps FatFs FatOpen FatExample.

(** The nodes of the open files, as descriptors are taken and given back. *)
Inductive fd_op := FdAlloc (node : Z) | FdFree (i : nat).

Definition spec_fd (NFD : Z) (op : fd_op) (nodes : list Z) : list Z :=
  match op with
  | FdAlloc node => if decide (Z.of_nat (length nodes) < NFD) then node :: nodes else nodes
  | FdFree i => delete i nodes
  end.

Section Fds.
Context {B : Type} (NFD : Z) (HNFD : 0 <= NFD < 2 ^ 32).
Implicit Types (s : @fs_state B) (inuse : list Z).

(** The same on the descriptors in use. *)
Definition run_fd (op : fd_op) (inuse : list Z) : M (@fs_state B) (list Z) :=
  match op with
  | FdAlloc node =>
      r ← alloc_fatfs_fd node;
      mret (match r with Some fd => fd :: inuse | None => inuse end)
  | FdFree i =>
      match inuse !! i with
      | Some fd => free_fatfs_fd fd ;; mret (delete i inuse)
      | None => mret inuse
      end
  end.

Fixpoint run_fds (ops : list fd_op) (inuse : list Z) : M (@fs_state B) (list Z) :=
  match ops with
  | [] => mret inuse
  | op :: ops => inuse ← run_fd op inuse; run_fds ops inuse
  end.

(** Every descriptor is in use or among the free ones at the bottom of the pool. *)
Record fds_rep s inuse (nodes : list Z) : Prop := {
  fr_cnt : 0 <= fatfs_fds_free_cnt s;
  fr_len : length (fatfs_fds_pool s) = Z.to_nat NFD;
  fr_part : inuse ++ take (Z.to_nat (fatfs_fds_free_cnt s)) (fatfs_fds_pool s) ≡ₚ seqZ 0 NFD;
  fr_nodes : (fun fd => fd_node (fatfs_fds_base s fd)) <$> inuse = nodes;
  fr_bound : fatfs_fds_free_cnt s <= NFD;
}.

Lemma fds_facts s inuse nodes :
  fds_rep s inuse nodes ->
  Z.of_nat (length inuse) + fatfs_fds_free_cnt s = NFD /\ length nodes = length inuse /\ NoDup inuse.
Proof.
  intros [Hc Hl Hp Hn Hb]. pose proof (Permutation_length Hp) as H.
  rewrite length_app, length_take, length_seqZ, Hl in H. split; [lia|]. split; [by rewrite <- Hn, length_fmap|].
  assert (NoDup (inuse ++ take (Z.to_nat (fatfs_fds_free_cnt s)) (fatfs_fds_pool s))) as Hnd
    by (rewrite Hp; apply NoDup_seqZ).
  apply NoDup_app in Hnd. tauto.
Qed.

Lemma run_fd_spec op s inuse nodes :
  fds_rep s inuse nodes -> wp (run_fd op inuse) (fun inuse' s' => fds_rep s' inuse' (spec_fd NFD op nodes)) s.
Proof.
  intros Hrep. destruct (fds_facts _ _ _ Hrep) as (Hcnt & Hlen & Hnd). pose proof Hrep as [Hc Hl Hp Hn Hb].
  destruct op as [node|i]; cbn [run_fd spec_fd].
  - unfold alloc_fatfs_fd. apply wp_bind, wp_get. destruct (Z.gtb_spec (fatfs_fds_free_cnt s) 0) as [Hpos|Hz].
    2: { apply wp_ret, wp_ret. by rewrite decide_False by lia. }
    rewrite decide_True by lia. set (cnt := fatfs_fds_free_cnt s - 1).
    destruct (lookup_lt_is_Some_2 (fatfs_fds_pool s) (Z.to_nat cnt)) as [fd Hfd]; [lia|]. rewrite Hfd.
    apply wp_modify, wp_node_dentry, wp_modify, wp_ret, wp_ret.
    replace (Z.to_nat (fatfs_fds_free_cnt s)) with (S (Z.to_nat cnt)) in Hp by lia.
    rewrite (take_S_r _ _ _ Hfd), app_assoc, Permutation_app_comm in Hp.
    constructor; cbn; [lia|done|done| |lia]. rewrite fds_insert. f_equal. rewrite <- Hn.
    apply list_fmap_ext. intros j x Hx. cbn. unfold insert, fn_insert. rewrite decide_False; [done|].
    intros ->. assert (NoDup ([x] ++ inuse ++ take (Z.to_nat cnt) (fatfs_fds_pool s))) as Hnd'
      by (rewrite Hp; apply NoDup_seqZ).
    apply NoDup_cons in Hnd' as [Hnin _]. apply Hnin, elem_of_app. left. by eapply list_elem_of_lookup_2.
  - destruct (inuse !! i) as [fd|] eqn:Hi.
    2: { apply wp_ret. apply lookup_ge_None in Hi.
       rewrite delete_take_drop, take_ge, drop_ge, app_nil_r by lia. done. }
    pose proof (lookup_lt_Some _ _ _ Hi). unfold free_fatfs_fd. apply wp_bind, wp_get.
    rewrite decide_True by lia. eexists _, _. split; [done|]. apply wp_ret.
    pose proof (delete_Permutation _ _ _ Hi) as Hperm.
    constructor; cbn; rewrite ?uwrap_small by lia; [lia|by rewrite length_insert| | |lia].
    + replace (Z.to_nat (fatfs_fds_free_cnt s + 1)) with (S (Z.to_nat (fatfs_fds_free_cnt s))) by lia.
      rewrite (take_S_r _ _ fd) by (apply list_lookup_insert_eq; lia).
      rewrite take_insert_ge, <- Hp by lia.
      etrans; [|apply Permutation_app_tail; symmetry; exact Hperm].
      by rewrite app_assoc, Permutation_app_comm.
    + by rewrite list_fmap_delete, Hn.
Qed.

Lemma run_fds_spec ops : forall s inuse nodes,
  fds_rep s inuse nodes ->
  wp (run_fds ops inuse) (fun inuse' s' =>
    fds_rep s' inuse' (fold_left (fun n op => spec_fd NFD op n) ops nodes)) s.
Proof.
  induction ops as [|op ops IH]; intros s inuse nodes Hrep; [by apply wp_ret|].
  apply wp_bind. eapply wp_mono; [by apply run_fd_spec|]. intros inuse1 s1 H1. by apply IH.
Qed.

(** The descriptors in use are distinct elements of the array, each with the node
    it was taken for, after any sequence of opens and closes that follows the
    initialisation; an open fails only when all of them are in use. *)
Theorem fd_pool_ok s ops :
  fds_initialized s = false ->
  wp (init_fatfs_fds NFD ;; run_fds ops []) (fun inuse s' =>
    NoDup inuse /\ Forall (fun fd => 0 <= fd < NFD) inuse /\
    (fun fd => fd_node (fatfs_fds_base s' fd)) <$> inuse
      = fold_left (fun n op => spec_fd NFD op n) ops [] /\
    fatfs_fds_free_cnt s' = NFD - Z.of_nat (length inuse)) s.
Proof.
  intros Hinit. unfold init_fatfs_fds. apply wp_bind, wp_get. rewrite Hinit. apply wp_modify.
  eexists _, _. split; [done|]. eapply wp_mono; [apply (run_fds_spec _ _ [] [])|].
  - constructor; cbn; try done; try lia; [by rewrite length_seqZ|].
    rewrite take_ge; [done|]. rewrite length_seqZ. lia.
  - intros inuse s' Hrep. destruct (fds_facts _ _ _ Hrep) as (Hcnt & _ & Hnd).
    split_and!; [done| |apply (fr_nodes _ _ _ Hrep)|lia]. apply Forall_forall. intros fd Hfd.
    assert (fd ∈ seqZ 0 NFD) as Hin.
    { rewrite <- (fr_part _ _ _ Hrep). apply elem_of_app. by left. }
    apply elem_of_seqZ in Hin. lia.
Qed.
End Fds.

Lemma fd_pool_ok_witness :
  let ops := [FdAlloc 5; FdAlloc 6; FdAlloc 7; FdFree 1; FdAlloc 8] in
  let s := mk_fs toy_img toy_raw_cache 0 (fun _ => mk_fd 0 (mk_pos 0 0 0)) [] 0 false in
  wp (init_fatfs_fds 2 ;; run_fds ops []) (fun inuse s' =>
    NoDup inuse /\ Forall (fun fd => 0 <= fd < 2) inuse /\
    (fun fd => fd_node (fatfs_fds_base s' fd)) <$> inuse = [8; 6] /\
    fatfs_fds_free_cnt s' = 2 - Z.of_nat (length inuse)) s.
Proof. intros ops s. apply (fd_pool_ok 2 ltac:(lia) s ops). reflexivity. Defined.
