(* ===== verification/CStr.v ===== *)
(** * Strings of C and the library routines that read numbers from them

    What the access point's own code uses of libc and of the resolver: strtol.cxx
    and strtoul.cxx (language/c/libc/stdlib), atoi (atox.inl), strtok.cxx
    (libc/string), inet_addr.c and inet_ntoa.c (net/common), with strcmp, strstr
    and strlcpy of the standard.

    A C string is the list of its characters without the terminating NUL. A
    routine that is given memory which may not be terminated, or not be
    initialised, reads a [mem]: the bytes from the pointer to the end of the
    object, [None] where nothing was ever stored. Reading such a byte, or past the
    end, is undefined. *)
From stdpp Require Export strings.
From S2P Require Import Prelude.

#[global] Open Scope list_scope.
#[global] Open Scope Z_scope.

(** ** Characters *)
Definition cstring : Type := list Z.

(** The string literal. *)
Fixpoint str (s : string) : cstring :=
  match s with
  | EmptyString => []
  | String a s' => Z.of_N (Ascii.N_of_ascii a) :: str s'
  end.

Definition isdigit (c : Z) : bool := (48 <=? c) && (c <=? 57).
Definition isupper (c : Z) : bool := (65 <=? c) && (c <=? 90).
Definition islower (c : Z) : bool := (97 <=? c) && (c <=? 122).
Definition isalpha (c : Z) : bool := isupper c || islower c.
Definition isxdigit (c : Z) : bool :=
  isdigit c || (65 <=? c) && (c <=? 70) || (97 <=? c) && (c <=? 102).
Definition isspace (c : Z) : bool := (c =? 32) || (9 <=? c) && (c <=? 13).

(** ** Memory *)
Definition mem : Type := list (option Z).

(** The memory a terminated string occupies. *)
Definition c_str (s : cstring) : mem := map Some s ++ [Some 0].

(** An array of [n] characters nobody has written to. *)
Definition uninit (n : nat) : mem := replicate n None.

(** [buf[i] = c] *)
Definition store (buf : mem) (i : Z) (c : Z) : option mem :=
  if (0 <=? i) && (i <? Z.of_nat (length buf)) then Some (<[Z.to_nat i := Some c]> buf) else None.

(** [*p++] *)
Definition fetch (p : mem) : option (Z * mem) :=
  match p with Some c :: p' => Some (c, p') | _ => None end.

(** The string at a pointer: its characters up to the NUL. *)
Fixpoint string_at (p : mem) : option cstring :=
  match p with
  | Some c :: p' => if c =? 0 then Some [] else s ← string_at p'; Some (c :: s)
  | _ => None
  end.

(** ** strtol, strtoul, atoi *)
Definition LONG_MAX : Z := 2 ^ 31 - 1.
Definition LONG_MIN : Z := - 2 ^ 31.
Definition ULONG_MAX : Z := 2 ^ 32 - 1.

Fixpoint skip_space (p : mem) : option (Z * mem) :=
  match p with
  | Some c :: p' => if isspace c then skip_space p' else Some (c, p')
  | _ => None
  end.

(** The value of a digit, or nothing when the character ends the number. *)
Definition digit_value (base c : Z) : option Z :=
  if isdigit c then (if c - 48 >=? base then None else Some (c - 48))
  else if isalpha c then
    let v := c - (if isupper c then 65 - 10 else 97 - 10) in
    if v >=? base then None else Some v
  else None.

(** The accumulating loop both functions share, from the character [c] already
    read; the result is [acc] and [any]. *)
Fixpoint strto_loop (base cutoff cutlim acc any c : Z) (s : mem) : option (Z * Z) :=
  match digit_value base c with
  | None => Some (acc, any)
  | Some v =>
      let '(acc', any') :=
        if (any <? 0) || (acc >? cutoff) || (acc =? cutoff) && (v >? cutlim) then (acc, -1)
        else (u32 (u32 (acc * base) + v), 1) in
      match s with
      | Some c' :: s' => strto_loop base cutoff cutlim acc' any' c' s'
      | _ => None
      end
  end.

(** White space, sign and base prefix: sign, base and what follows. *)
Definition strto_prefix (nptr : mem) (base : Z) : option (bool * Z * Z * mem) :=
  '(c, s) ← skip_space nptr;
  '(neg, c, s) ← (if c =? 45 then '(c, s) ← fetch s; Some (true, c, s)
                  else if c =? 43 then '(c, s) ← fetch s; Some (false, c, s)
                  else Some (false, c, s));
  hex ← (if ((base =? 0) || (base =? 16)) && (c =? 48)
         then '(x, _) ← fetch s; Some ((x =? 120) || (x =? 88)) else Some false);
  if hex : bool then
    '(_, s) ← fetch s; '(c, s) ← fetch s; Some (neg, 16, c, s)
  else if base =? 0 then Some (neg, if c =? 48 then 8 else 10, c, s)
  else Some (neg, base, c, s).

(** [strtol(nptr, NULL, base)]: the value and whether errno is set to ERANGE. *)
Definition strtol (nptr : mem) (base : Z) : option (Z * bool) :=
  '(neg, base, c, s) ← strto_prefix nptr base;
  let cutoff := if neg : bool then - LONG_MIN else LONG_MAX in
  '(acc, any) ← strto_loop base (cutoff / base) (cutoff mod base) 0 0 c s;
  Some (if any <? 0 then (if neg then LONG_MIN else LONG_MAX, true)
        else (s32 (if neg then u32 (- acc) else acc), false)).

(** [strtoul(nptr, NULL, base)] *)
Definition strtoul (nptr : mem) (base : Z) : option (Z * bool) :=
  '(neg, base, c, s) ← strto_prefix nptr base;
  '(acc, any) ← strto_loop base (ULONG_MAX / base) (ULONG_MAX mod base) 0 0 c s;
  Some (if any <? 0 then (ULONG_MAX, true) else (if neg : bool then u32 (- acc) else acc, false)).

Definition atoi (nptr : mem) : option Z := fst <$> strtol nptr 10.

(** ** strcmp, strlcpy, strstr, strtok *)
Definition streq (s t : cstring) : bool := bool_decide (s = t).

(** What [strlcpy(dst, src, size)] leaves in [dst]. *)
Definition strlcpy (src : cstring) (size : Z) : cstring := take (Z.to_nat (size - 1)) src.

Fixpoint starts_with (t s : cstring) : bool :=
  match t, s with
  | [], _ => true
  | x :: t', y :: s' => (x =? y) && starts_with t' s'
  | _, [] => false
  end.

(** The offset of the first occurrence of [t]. *)
Fixpoint strstr (s t : cstring) : option nat :=
  if starts_with t s then Some 0%nat
  else match s with [] => None | _ :: s' => S <$> strstr s' t end.

Definition in_set (delim : cstring) (c : Z) : bool := existsb (Z.eqb c) delim.

Fixpoint skip_delim (delim s : cstring) : cstring :=
  match s with
  | [] => []
  | c :: s' => if in_set delim c then skip_delim delim s' else s
  end.

(** The token up to the next delimiter and the string behind that, when there is one. *)
Fixpoint scan_token (delim s : cstring) : cstring * option cstring :=
  match s with
  | [] => ([], None)
  | c :: s' => if in_set delim c then ([], Some s')
               else let '(tok, rest) := scan_token delim s' in (c :: tok, rest)
  end.

(** [strtok_r(s1, delim, &last)]: the token and the new [last]. *)
Definition strtok_r (s1 : option cstring) (delim : cstring) (last : option cstring)
    : option cstring * option cstring :=
  match (match s1 with Some s => Some s | None => last end) with
  | None => (None, last)
  | Some s => match skip_delim delim s with
              | [] => (None, None)
              | s' => let '(tok, rest) := scan_token delim s' in (Some tok, rest)
              end
  end.

(** ** inet_aton, inet_ntoa *)

(** The characters isascii() of inet_addr.c accepts. *)
Definition isascii (c : Z) : bool := (0x20 <=? c) && (c <=? 0x7F).

(** [*cp], and the string behind it. *)
Definition char_at (cp : cstring) : Z := hd 0 cp.

(** The inner loop: digits of one part. *)
Fixpoint aton_digits (base val : Z) (cp : cstring) : Z * cstring :=
  match cp with
  | c :: cp' =>
      if isascii c && isdigit c then aton_digits base (u32 (u32 (val * base) + (c - 48))) cp'
      else if (base =? 16) && isascii c && isxdigit c then
        aton_digits base (Z.lor (u32 (Z.shiftl val 4)) (c + 10 - (if islower c then 97 else 65))) cp'
      else (val, cp)
  | [] => (val, [])
  end.

(** One part with its base prefix; [None] when it does not start with a digit. *)
Definition aton_part (cp : cstring) : option (Z * cstring) :=
  let c := char_at cp in
  if negb (isdigit c) then None
  else if c =? 48 then
    let cp := tl cp in
    let c := char_at cp in
    if (c =? 120) || (c =? 88) then Some (aton_digits 16 0 (tl cp))
    else Some (aton_digits 8 0 cp)
  else Some (aton_digits 10 0 cp).

(** The outer loop: [room] more parts may be followed by a dot. *)
Fixpoint aton_parts (room : nat) (parts : list Z) (cp : cstring) : option (list Z * Z * cstring) :=
  '(val, cp) ← aton_part cp;
  if char_at cp =? 46 then
    match room with
    | O => None
    | S room' => aton_parts room' (parts ++ [val]) (tl cp)
    end
  else Some (parts, val, cp).

(** The address in host order, which is network order on this big-endian target. *)
Definition inet_aton (cp : cstring) : option Z :=
  '(parts, val, cp) ← aton_parts 3 [] cp;
  let c := char_at cp in
  if negb (c =? 0) && (negb (isascii c) || negb (isspace c)) then None
  else match parts with
  | [] => Some val
  | [a] => if (val >? 0xffffff) || (a >? 0xff) then None
           else Some (Z.lor val (u32 (Z.shiftl a 24)))
  | [a; b] => if (val >? 0xffff) || (a >? 0xff) || (b >? 0xff) then None
              else Some (Z.lor val (Z.lor (u32 (Z.shiftl a 24)) (Z.shiftl b 16)))
  | [a; b; c] => if (val >? 0xff) || (a >? 0xff) || (b >? 0xff) || (c >? 0xff) then None
                 else Some (Z.lor val (Z.lor (Z.lor (u32 (Z.shiftl a 24)) (Z.shiftl b 16)) (Z.shiftl c 8)))
  | _ => None
  end.

Definition INADDR_NONE : Z := 0xffffffff.

Definition inet_addr (cp : cstring) : Z :=
  match inet_aton cp with Some a => a | None => INADDR_NONE end.

(** [%d] of a value below 256. *)
Definition show_byte (b : Z) : cstring :=
  if b <? 10 then [48 + b]
  else if b <? 100 then [48 + b / 10; 48 + b mod 10]
  else [48 + b / 100; 48 + b / 10 mod 10; 48 + b mod 10].

(** The byte [ucp[i]] of an address, most significant first. *)
Definition ip_byte (ip i : Z) : Z := Z.land (Z.shiftr ip (24 - 8 * i)) 0xff.

Definition inet_ntoa (ip : Z) : cstring :=
  show_byte (ip_byte ip 0) ++ str "." ++ show_byte (ip_byte ip 1) ++ str "." ++
  show_byte (ip_byte ip 2) ++ str "." ++ show_byte (ip_byte ip 3).

(** ** Decimal numbers *)
Definition is_digit (c : Z) : Prop := 48 <= c <= 57.
Definition all_digits (s : cstring) : bool := forallb isdigit s.

(** The number a string of digits denotes. *)
Definition dec_value (s : cstring) : Z := fold_left (fun v c => v * 10 + (c - 48)) s 0.

Lemma isdigit_spec c : isdigit c = true <-> is_digit c.
Proof. unfold isdigit, is_digit. split; intros; bool_lia. Qed.

Lemma all_digits_spec s : all_digits s = true <-> Forall is_digit s.
Proof.
  unfold all_digits. rewrite forallb_forall, Forall_forall. unfold elem_of.
  split; intros H c Hc; apply isdigit_spec, H; by apply list_elem_of_In.
Qed.

Lemma dec_from s : forall v, fold_left (fun v c => v * 10 + (c - 48)) s v = v * 10 ^ Z.of_nat (length s) + dec_value s.
Proof.
  unfold dec_value. induction s as [|c s IH]; intros v; cbn [fold_left length]; [lia|].
  rewrite IH, (IH (0 * 10 + _)), Nat2Z.inj_succ, Z.pow_succ_r by lia. lia.
Qed.

Lemma dec_value_app s t : dec_value (s ++ t) = dec_value s * 10 ^ Z.of_nat (length t) + dec_value t.
Proof. unfold dec_value at 1. rewrite fold_left_app. apply dec_from. Qed.

Lemma dec_value_pos s : Forall is_digit s -> 0 <= dec_value s.
Proof.
  induction 1 as [|c s Hc _ IH]; [done|].
  change (c :: s) with ([c] ++ s). rewrite dec_value_app. unfold is_digit in Hc.
  assert (0 <= dec_value [c]) by (cbn; lia). nia.
Qed.

Lemma dec_value_bound s : Forall is_digit s -> dec_value s < 10 ^ Z.of_nat (length s).
Proof.
  induction 1 as [|c s Hc _ IH]; [done|].
  change (c :: s) with ([c] ++ s). rewrite dec_value_app. unfold is_digit in Hc.
  rewrite length_app, Nat2Z.inj_add, Z.pow_add_r by lia.
  assert (0 <= dec_value [c] <= 9) by (cbn; lia). cbn [length]. nia.
Qed.

(** A character that ends a decimal number. *)
Lemma digit_value_none c : ~ is_digit c -> digit_value 10 c = None.
Proof.
  intros Hc. unfold digit_value. destruct (isdigit c) eqn:E; [by apply isdigit_spec in E|].
  unfold isalpha, isupper, islower. repeat case_match; try done; bool_lia.
Qed.

Lemma digit_value_some c : is_digit c -> digit_value 10 c = Some (c - 48).
Proof.
  intros Hc. unfold digit_value. rewrite (proj2 (isdigit_spec c) Hc).
  unfold is_digit in Hc. case_match; [lia|done].
Qed.

(** What the loop knows of the digits read so far, [v] being their value. *)
Definition loop_state (lim v acc any : Z) : Prop :=
  any = -1 /\ lim < v \/ 0 <= any /\ acc = v /\ v <= lim.

Lemma loop_step lim v acc any d :
  0 < lim < 2 ^ 32 -> 0 <= v -> 0 <= d <= 9 -> loop_state lim v acc any ->
  exists acc' any', loop_state lim (v * 10 + d) acc' any' /\
    (if (any <? 0) || (acc >? lim / 10) || (acc =? lim / 10) && (d >? lim mod 10) then (acc, -1)
     else (u32 (u32 (acc * 10) + d), 1)) = (acc', any').
Proof.
  intros Hl Hv Hd Hs. pose proof (Z.div_mod lim 10). pose proof (Z.mod_pos_bound lim 10).
  unfold loop_state in *. case_match eqn:E; do 2 eexists; (split; [|reflexivity]).
  - left. split; [done|].
    apply orb_true_iff in E as [E|E]; [apply orb_true_iff in E as [E|E]|]; bool_lia.
  - right. destruct (orb_false_elim _ _ E) as [E1 E2]. destruct (orb_false_elim _ _ E1) as [E3 E4].
    assert (v * 10 + d <= lim).
    { destruct Hs as [Hs|Hs]; [bool_lia|]. destruct (Z.eq_dec acc (lim / 10)); [|bool_lia].
      apply andb_false_iff in E2 as [E2|E2]; bool_lia. }
    destruct Hs as [Hs|(Ha & -> & Hs)]; [bool_lia|].
    rewrite !uwrap_small; rewrite ?uwrap_small; lia.
Qed.

Lemma strto_loop_digits lim s : forall v acc any c0 d m,
  0 < lim < 2 ^ 32 -> 0 <= v -> loop_state lim v acc any ->
  Forall is_digit (c0 :: s) -> ~ is_digit d ->
  exists acc' any', loop_state lim (v * 10 ^ Z.of_nat (length (c0 :: s)) + dec_value (c0 :: s)) acc' any' /\
    strto_loop 10 (lim / 10) (lim mod 10) acc any c0 (map Some s ++ Some d :: m) = Some (acc', any').
Proof.
  induction s as [|c1 s IH]; intros v acc any c0 d m Hl Hv Hs Hds Hd; inversion Hds as [|? ? Hc0 Hr]; subst;
    pose proof Hc0 as Hc0'; unfold is_digit in Hc0';
    destruct (loop_step lim v acc any (c0 - 48) Hl Hv) as (acc1 & any1 & Hs1 & E); [lia|done| |lia|done|].
  - exists acc1, any1. split; [by replace (v * _ + _) with (v * 10 + (c0 - 48)) by (change (10 ^ Z.of_nat (length [c0])) with 10; cbn; lia)|].
    cbn [map app strto_loop]. rewrite (digit_value_some c0), E by done. by destruct m; cbn [strto_loop]; rewrite (digit_value_none d).
  - destruct (IH (v * 10 + (c0 - 48)) acc1 any1 c1 d m) as (acc2 & any2 & Hs2 & E2); [done|lia|done|done|done|].
    exists acc2, any2. split.
    + change (c0 :: c1 :: s) with ([c0] ++ c1 :: s). rewrite dec_value_app, length_app.
      change (length [c0]) with 1%nat. rewrite Nat2Z.inj_add, Z.pow_add_r by lia.
      change (dec_value [c0]) with (0 * 10 + (c0 - 48)).
      change (10 ^ Z.of_nat 1) with 10.
      by replace (v * _ + _) with ((v * 10 + (c0 - 48)) * 10 ^ Z.of_nat (length (c1 :: s)) + dec_value (c1 :: s)) by ring.
    + cbn [map app]. unfold strto_loop; fold strto_loop. by rewrite (digit_value_some c0), E.
Qed.

Lemma prefix_digits c s m :
  is_digit c -> strto_prefix (Some c :: s ++ m) 10 = Some (false, 10, c, s ++ m).
Proof.
  intros Hc. unfold is_digit in Hc. unfold strto_prefix. cbn [skip_space].
  assert (isspace c = false) as -> by (unfold isspace; repeat apply orb_false_intro; try apply andb_false_intro2; lia).
  cbn. assert ((c =? 45) = false) as -> by lia. by assert ((c =? 43) = false) as -> by lia.
Qed.

(** strtol and strtoul read a string of decimal digits as its value, cut off at
    the largest value of their type, whatever follows the digits. *)
Lemma strtol_digits s d m :
  s <> [] -> Forall is_digit s -> ~ is_digit d ->
  strtol (map Some s ++ Some d :: m) 10 = Some (Z.min (dec_value s) LONG_MAX, bool_decide (LONG_MAX < dec_value s)).
Proof.
  intros Hne Hs Hd. destruct s as [|c s]; [done|]. unfold strtol.
  cbn [map app]. rewrite prefix_digits by (by inversion Hs). cbn [mbind option_bind].
  destruct (strto_loop_digits LONG_MAX s 0 0 0 c d m) as (acc & any & Hst & E); [done|lia| |done|done|].
  { right. done. }
  rewrite E. cbn [mbind option_bind]. rewrite Z.mul_0_l, Z.add_0_l in Hst.
  destruct Hst as [[-> Hgt]|(Ha & -> & Hle)].
  - rewrite bool_decide_eq_true_2, Z.min_r by lia. done.
  - rewrite bool_decide_eq_false_2 by lia. case_match eqn:E1; [bool_lia|].
    pose proof (dec_value_pos _ Hs). unfold LONG_MAX in *. rewrite s32_small, Z.min_l by lia. done.
Qed.

Lemma strtoul_digits s d m :
  s <> [] -> Forall is_digit s -> ~ is_digit d ->
  strtoul (map Some s ++ Some d :: m) 10 = Some (Z.min (dec_value s) ULONG_MAX, bool_decide (ULONG_MAX < dec_value s)).
Proof.
  intros Hne Hs Hd. destruct s as [|c s]; [done|]. unfold strtoul.
  cbn [map app]. rewrite prefix_digits by (by inversion Hs). cbn [mbind option_bind].
  destruct (strto_loop_digits ULONG_MAX s 0 0 0 c d m) as (acc & any & Hst & E); [done|lia| |done|done|].
  { right. done. }
  rewrite E. cbn [mbind option_bind]. rewrite Z.mul_0_l, Z.add_0_l in Hst.
  destruct Hst as [[-> Hgt]|(Ha & -> & Hle)].
  - rewrite bool_decide_eq_true_2, Z.min_r by lia. done.
  - rewrite bool_decide_eq_false_2 by lia. case_match eqn:E1; [bool_lia|].
    rewrite Z.min_l by lia. done.
Qed.

Lemma atoi_digits s d m :
  s <> [] -> Forall is_digit s -> ~ is_digit d ->
  atoi (map Some s ++ Some d :: m) = Some (Z.min (dec_value s) LONG_MAX).
Proof. intros. unfold atoi. by rewrite strtol_digits. Qed.

(** ** Addresses in dotted notation *)
Lemma ip_byte_bound ip i : 0 <= ip_byte ip i < 256.
Proof. apply land_ff_bounded. Qed.

Lemma show_byte_digits b : 0 <= b < 256 -> Forall is_digit (show_byte b).
Proof.
  intros Hb. unfold show_byte, is_digit.
  repeat case_match; bool_lia; repeat constructor; Z.div_mod_to_equations; lia.
Qed.

Lemma show_byte_value b : 0 <= b < 256 -> dec_value (show_byte b) = b.
Proof.
  intros Hb. unfold show_byte. repeat case_match; bool_lia; cbn; Z.div_mod_to_equations; lia.
Qed.

Lemma show_byte_length b : (1 <= length (show_byte b) <= 3)%nat.
Proof. unfold show_byte. repeat case_match; cbn; lia. Qed.

Lemma show_byte_nonempty b : show_byte b <> [].
Proof. unfold show_byte. by repeat case_match. Qed.

(** The first digit is a zero for the number zero only. *)
Lemma show_byte_head b :
  0 < b < 256 -> exists c s, show_byte b = c :: s /\ is_digit c /\ c <> 48.
Proof.
  intros Hb. unfold show_byte, is_digit.
  repeat case_match; bool_lia; do 2 eexists; (split; [reflexivity|]); Z.div_mod_to_equations; lia.
Qed.

(** What may follow a part: nothing, or a character that does not continue it. *)
Definition ends_part (s : cstring) : Prop :=
  match s with [] => True | c :: _ => ~ is_digit c /\ c <> 120 /\ c <> 88 end.

Lemma aton_digits_stop base val s :
  base <> 16 -> ends_part s -> aton_digits base val s = (val, s).
Proof.
  intros Hb Hs. destruct s as [|c s]; [done|]. destruct Hs as [Hc _]. cbn.
  assert (isdigit c = false) as -> by (apply not_true_iff_false; by rewrite isdigit_spec).
  rewrite andb_false_r. by assert ((base =? 16) = false) as -> by lia.
Qed.

Lemma aton_digits_dec s t : forall v,
  Forall is_digit s -> ends_part t -> 0 <= v -> v * 10 ^ Z.of_nat (length s) + dec_value s < 2 ^ 32 ->
  aton_digits 10 v (s ++ t) = (v * 10 ^ Z.of_nat (length s) + dec_value s, t).
Proof.
  induction s as [|c s IH]; intros v Hs Ht Hv Hlt.
  { cbn [app length]. rewrite aton_digits_stop by done. cbn. f_equal. lia. }
  inversion Hs as [|? ? Hc Hr]; subst. pose proof Hc as Hc'. unfold is_digit in Hc'.
  change (c :: s) with ([c] ++ s) in Hlt |- *. rewrite dec_value_app, length_app in Hlt |- *.
  change (length [c]) with 1%nat in *. rewrite Nat2Z.inj_add, Z.pow_add_r in Hlt |- * by lia.
  change (10 ^ Z.of_nat 1) with 10 in *. change (dec_value [c]) with (0 * 10 + (c - 48)) in *.
  pose proof (dec_value_pos _ Hr). assert (0 < 10 ^ Z.of_nat (length s)) by lia.
  cbn [app aton_digits]. rewrite (proj2 (isdigit_spec c) Hc), andb_true_r.
  assert (isascii c = true) as -> by (unfold isascii; lia).
  assert (v * 10 + (c - 48) < 2 ^ 32) by nia.
  rewrite !uwrap_small by (rewrite ?uwrap_small; lia). rewrite IH by (done || lia). f_equal. ring.
Qed.

Lemma aton_part_byte b s :
  0 <= b < 256 -> ends_part s -> aton_part (show_byte b ++ s) = Some (b, s).
Proof.
  intros Hb Hs. destruct (Z.eq_dec b 0) as [->|].
  { unfold aton_part. cbn. destruct s as [|c s]; [done|]. cbn [char_at hd].
    assert (((c =? 120) || (c =? 88)) = false) as -> by (destruct Hs as (_ & ? & ?); lia).
    by rewrite aton_digits_stop. }
  destruct (show_byte_head b) as (c & r & Hr & Hc & Hc0); [lia|].
  assert (aton_part (show_byte b ++ s) = Some (aton_digits 10 0 (show_byte b ++ s))) as ->.
  { unfold aton_part. rewrite Hr. cbn [app char_at hd]. rewrite (proj2 (isdigit_spec c) Hc).
    by assert ((c =? 48) = false) as -> by lia. }
  pose proof (show_byte_value b Hb) as Hv.
  rewrite aton_digits_dec by (try apply show_byte_digits; lia || done). by rewrite Hv.
Qed.

Lemma ip_bytes ip :
  0 <= ip < 2 ^ 32 ->
  ip = ip_byte ip 0 * 2 ^ 24 + ip_byte ip 1 * 2 ^ 16 + ip_byte ip 2 * 2 ^ 8 + ip_byte ip 3.
Proof.
  intros Hip. unfold ip_byte. change 0xff with (Z.ones 8).
  rewrite !Z.land_ones, !Z.shiftr_div_pow2 by lia. cbn. Z.div_mod_to_equations. lia.
Qed.

Lemma pack_bytes a b c d :
  0 <= a < 256 -> 0 <= b < 256 -> 0 <= c < 256 -> 0 <= d < 256 ->
  Z.lor d (Z.lor (Z.lor (u32 (Z.shiftl a 24)) (Z.shiftl b 16)) (Z.shiftl c 8)) =
  a * 2 ^ 24 + b * 2 ^ 16 + c * 2 ^ 8 + d.
Proof.
  intros. rewrite Z.lor_comm.
  replace (u32 (Z.shiftl a 24)) with (Z.shiftl (Z.shiftl (Z.shiftl a 8) 8) 8)
    by (rewrite !Z.shiftl_shiftl by lia; rewrite uwrap_small; [done|rewrite Z.shiftl_mul_pow2; lia]).
  replace (Z.shiftl b 16) with (Z.shiftl (Z.shiftl b 8) 8) by by rewrite Z.shiftl_shiftl by lia.
  rewrite <- !Z.shiftl_lor, !lor_shiftl_add by lia. ring.
Qed.

Lemma aton_parts_byte room parts b s :
  0 <= b < 256 -> ends_part s ->
  aton_parts room parts (show_byte b ++ s) =
  if char_at s =? 46 then
    match room with O => None | S room' => aton_parts room' (parts ++ [b]) (tl s) end
  else Some (parts, b, s).
Proof. intros. destruct room; cbn [aton_parts]; by rewrite aton_part_byte. Qed.

(** Printing an address and reading it back gives the address. *)
Lemma aton_ntoa ip : 0 <= ip < 2 ^ 32 -> inet_aton (inet_ntoa ip) = Some ip.
Proof.
  intros Hip. pose proof (ip_byte_bound ip) as Hb. unfold inet_aton, inet_ntoa.
  rewrite <- (app_nil_r (show_byte (ip_byte ip 3))). change (str ".") with [46].
  do 4 (rewrite aton_parts_byte by (apply Hb || (cbn; unfold is_digit; lia)); cbn -[aton_parts ip_byte show_byte]).
  cbn -[Z.lor Z.shiftl ip_byte uwrap Z.gtb].
  repeat match goal with
  | |- context [ip_byte ip ?i >? 255] =>
      replace (ip_byte ip i >? 255) with false by (specialize (Hb i); lia)
  end.
  cbn [orb]. f_equal. rewrite pack_bytes by apply Hb. symmetry. by apply ip_bytes.
Qed.
