(* ===== verification/NwAddr.v ===== *)
(** * Addresses of the network configuration

    The address checks and computations of ecosap_nw.c: dotted notation, address
    classes and ranges, netmasks, broadcast addresses, the change of the LAN
    subnet, and the tests on rule arguments. A function that returns 0 or 1 is a
    [bool]; [None] is undefined behaviour, in particular the use of a local array
    before it is written. findClass always reads one character of its array that
    it has not written: that memory, what the stack holds when it is called, is an
    argument here. *)
From S2P Require Import Prelude.
From S2P Require Import CStr.

Definition MAX_IPFW_RULE_ARGS_SIZE : Z := 24.
Definition IPADDR_SIZE : Z := 16.
Definition PPPOE_MTU_MIN : Z := 1340.
Definition PPPOE_MTU_MAX : Z := 1492.
Definition dot : Z := 46.

(** ** Digits *)
Fixpoint isvalid_digit (s : cstring) : bool :=
  match s with
  | [] => true
  | c :: s' => if (c >=? 48) && (c <=? 57) then isvalid_digit s' else false
  end.

Definition isvalid_ipfw_digit : cstring -> bool := isvalid_digit.

(** ** Classes and ranges *)

(** The loop of findClass: [temp[i] = str[i]] up to the first dot. *)
Fixpoint copy_octet (temp : mem) (i : Z) (s : cstring) : option mem :=
  match s with
  | [] => None
  | c :: s' => if c =? dot then Some temp
               else temp' ← store temp i c; copy_octet temp' (i + 1) s'
  end.

(** [temp] is the uninitialised array of four characters, [erange] whether errno
    is already ERANGE. *)
Definition findClass (temp : mem) (erange : bool) (s : cstring) : option Z :=
  temp ← copy_octet temp 0 s;
  '(v, e) ← strtoul temp 10;
  let ip := s32 v in
  Some (if (u32 ip =? ULONG_MAX) && (erange || e) then 88
        else if (ip >=? 1) && (ip <=? 126) then 65
        else if (ip >=? 128) && (ip <=? 191) then 66
        else if (ip >=? 192) && (ip <=? 223) then 67
        else if (ip >=? 224) && (ip <=? 239) then 68
        else 69).

(** [NW_HOST_ADDR] *)
Record nw_host := NwHost { network : mem; host : mem }.

(** Copies up to the next dot; the rest starts at that dot. *)
Fixpoint copy_to_dot (buf : mem) (i : Z) (s : cstring) : option (mem * cstring) :=
  match s with
  | [] => None
  | c :: s' => if c =? dot then Some (buf, s)
               else buf' ← store buf i c; copy_to_dot buf' (i + 1) s'
  end.

(** [while (dotCount < n)]: copies a character, then looks at the next one. *)
Fixpoint copy_dots (buf : mem) (i dots n : Z) (s : cstring) : option (mem * cstring) :=
  match s with
  | [] => None
  | c :: s' =>
      buf' ← store buf i c;
      let dots' := if char_at s' =? dot then dots + 1 else dots in
      if dots' <? n then copy_dots buf' (i + 1) dots' n s' else Some (buf', s')
  end.

Fixpoint copy_to_end (buf : mem) (i : Z) (s : cstring) : option mem :=
  match s with
  | [] => Some buf
  | c :: s' => buf' ← store buf i c; copy_to_end buf' (i + 1) s'
  end.

(** [for (k = 0; k < 12; k++) buf[k] = '\0'] *)
Definition clear12 (buf : mem) : mem := replicate 12 (Some 0) ++ drop 12 buf.

Definition separate (ip_addr : cstring) (ipClass : Z) (var : nw_host) : option nw_host :=
  let net := clear12 (network var) in
  let hst := clear12 (host var) in
  let finish '(net', rest) := hst' ← copy_to_end hst 0 (tl rest); Some (NwHost net' hst') in
  if ipClass =? 65 then copy_to_dot net 0 ip_addr ≫= finish
  else if ipClass =? 66 then copy_dots net 0 0 2 ip_addr ≫= finish
  else if ipClass =? 67 then copy_dots net 0 0 3 ip_addr ≫= finish
  else Some (NwHost net hst).

(** Turns every dot into a zero, then reads a number. *)
Definition remove_dots (buf : mem) : option Z :=
  s ← string_at buf;
  v ← atoi (c_str (map (fun c => if c =? dot then 48 else c) s));
  Some (u32 v).

(** What the stack holds where isvalidrange and the functions it calls put their
    arrays, and the state of errno. *)
Record range_stack := RangeStack {
  rs_temp1 : mem; rs_temp2 : mem; rs_var1 : nw_host; rs_var2 : nw_host; rs_erange : bool }.

Definition same_network (a b : nw_host) : option bool :=
  n1 ← string_at (network a); n2 ← string_at (network b); Some (streq n1 n2).

Definition isvalidrange (st : range_stack) (ip1 ip2 : cstring) : option bool :=
  class1 ← findClass (rs_temp1 st) (rs_erange st) ip1;
  class2 ← findClass (rs_temp2 st) (rs_erange st) ip2;
  if negb (class1 =? class2) then Some false
  else
    var1 ← separate ip1 class1 (rs_var1 st);
    var2 ← separate ip2 class1 (rs_var2 st);
    if class1 =? 67 then
      same ← same_network var1 var2;
      if negb same then Some false
      else h1 ← atoi (host var1); h2 ← atoi (host var2); Some (h1 <=? h2)
    else if (class1 =? 65) || (class1 =? 66) then
      host1 ← remove_dots (host var1);
      host2 ← remove_dots (host var2);
      same ← same_network var1 var2;
      Some (same && (host1 <=? host2))
    else Some false.

(** ** Masks and broadcast addresses *)
Definition isvalid_mask (netmask : cstring) : bool :=
  match inet_aton netmask with
  | None => false
  | Some mask =>
      if (mask =? 0) || (mask =? 0xFFFFFFFF) then false
      else Z.land mask (Z.shiftr (u32 (Z.lnot mask)) 1) =? 0
  end.

(** [None] is the error return, otherwise the broadcast address written. *)
Definition gen_broadcast_addr (host_ip netmask : cstring) : option cstring :=
  match inet_aton host_ip with
  | None => None
  | Some h => match inet_aton netmask with
              | None => None
              | Some m => Some (strlcpy (inet_ntoa (Z.lor h (u32 (Z.lnot m)))) IPADDR_SIZE)
              end
  end.

(** The mask of a class, as set_lanmask copies it. *)
Definition set_lanmask (class : Z) : option cstring :=
  if class =? 65 then Some (strlcpy (str "255.0.0.0") IPADDR_SIZE)
  else if class =? 66 then Some (strlcpy (str "255.255.0.0") IPADDR_SIZE)
  else if class =? 67 then Some (strlcpy (str "255.255.255.0") IPADDR_SIZE)
  else None.

Definition is_bcast_ip (ip_str : cstring) : bool :=
  match inet_aton ip_str with
  | None => false
  | Some ip => (Z.land ip 0xFF =? 0xFF) && negb (Z.land ip 0xFF000000 =? 0)
  end.

(** ** Validity of an address *)

(** The loop of isvalidip and isvalid_subnetip, which differ in how a number is
    read: [conv] gives the number, or nothing when the function returns false.
    The result is the array, the numbers in [addr_arr] and [dots], or nothing when
    the function has returned false. *)
Fixpoint ip_loop (conv : mem -> option (option Z)) (temp : mem) (digit : Z) (arr : list Z)
    (dots : Z) (s : cstring) : option (option (mem * list Z * Z)) :=
  match s with
  | [] => Some (Some (temp, arr, dots))
  | c :: s' =>
      if isdigit c && (digit <? 4) then
        temp ← store temp digit c; temp ← store temp (digit + 1) 0;
        ip_loop conv temp (digit + 1) arr dots s'
      else if digit =? 4 then Some None
      else if (c =? dot) && negb (char_at s' =? 0) then
        if digit =? 0 then Some None
        else
          n ← conv temp;
          match n with
          | None => Some None
          | Some v => if Nat.ltb (length arr) 8 then ip_loop conv temp 0 (arr ++ [v]) (dots + 1) s' else None
          end
      else Some None
  end.

(** What both functions do behind the loop; [last] is their final test. *)
Definition ip_check (conv : mem -> option (option Z)) (last : list Z -> bool) (addr : cstring) : option bool :=
  r ← ip_loop conv (uninit 8) 0 [] 0 addr;
  match r with
  | None => Some false
  | Some (temp, arr, dots) =>
      n ← conv temp;
      match n with
      | None => Some false
      | Some v =>
          if Nat.ltb (length arr) 8 then
            let arr := arr ++ [v] in
            Some (if negb (Nat.eqb (length arr) 4) then false
                  else if dots >? 3 then false
                  else if existsb (fun o => (o <? 0) || (o >? 255)) arr then false
                  else if streq addr (str "0.0.0.0") || streq addr (str "255.255.255.255") then false
                  else last arr)
          else None
      end
  end.

Definition conv_atoi (temp : mem) : option (option Z) := Some <$> atoi temp.

Definition conv_strtoul (temp : mem) : option (option Z) :=
  '(ret, erange) ← strtoul temp 10;
  Some (if (ret =? ULONG_MAX) && erange then None else Some ret).

Definition isvalidip : cstring -> option bool :=
  ip_check conv_atoi (fun a =>
    negb ((nthZ a 0 =? 0) || (nthZ a 0 =? 127) || (nthZ a 3 =? 255) || (nthZ a 3 =? 0))).

Definition isvalid_subnetip : cstring -> option bool :=
  ip_check conv_strtoul (fun a => negb ((nthZ a 0 =? 0) || (nthZ a 3 =? 255))).

(** ** The subnet of the LAN *)

(** The string up to its third dot. *)
Fixpoint cut_third_dot (dot_count : Z) (s : cstring) : cstring :=
  match s with
  | [] => []
  | c :: s' => if c =? dot then if dot_count + 1 =? 3 then [] else c :: cut_third_dot (dot_count + 1) s'
               else c :: cut_third_dot dot_count s'
  end.

Definition issamesubnet (wan_ip lan_ip : cstring) : option bool :=
  result ← isvalidip wan_ip;
  let temp := strlcpy lan_ip 32 in
  if result : bool then
    Some (match strstr wan_ip (cut_third_dot 0 temp) with Some _ => true | None => false end)
  else Some false.

Definition change_octal (ip : Z) : Z :=
  let o := Z.shiftr (Z.land ip 0x0000FF00) 8 in
  if negb ((o =? 0xFF) || (o =? 0xFE)) then
    let o := u32 (Z.shiftl (o + 1) 8) in
    let temp := Z.land ip 0x000000FF in
    if (temp =? 0xFF) || (temp =? 0xFE) then u32 (Z.land ip 0xFFFF0000 + o)
    else u32 (Z.land ip 0xFFFF00FF + o)
  else
  let o := Z.shiftr (Z.land ip 0x00FF0000) 16 in
  if negb ((o =? 0xFF) || (o =? 0xFE)) then
    let o := u32 (Z.shiftl (o + 1) 16) in
    let temp := Z.shiftr (Z.land ip 0x0000FF00) 8 in
    if (temp =? 0xFF) || (temp =? 0xFE) then u32 (Z.land ip 0xFF0000FF + o)
    else u32 (Z.land ip 0xFF00FFFF + o)
  else
  let o := Z.shiftr (Z.land ip 0xFF000000) 24 in
  if (o =? 0xFF) || (o =? 0xFE) then 0
  else
    let o := u32 (Z.shiftl (o + 1) 24) in
    let temp := Z.shiftr (Z.land ip 0x00FF0000) 16 in
    let ip := if (temp =? 0xFF) || (temp =? 0xFE) then u32 (Z.land ip 0x0000FFFF + o)
              else u32 (Z.land ip 0xFF00FFFF + o) in
    let temp1 := Z.shiftr (Z.land ip 0x0000FF00) 8 in
    if (temp1 =? 0xFF) || (temp1 =? 0xFE) then Z.land ip 0xFFFF00FF else ip.

(** ** Arguments of firewall rules *)

(** Replaces the first occurrence, when the result fits an argument. *)
Definition replace (ori_str old_str new_str : cstring) : cstring :=
  match strstr ori_str old_str with
  | None => ori_str
  | Some pos =>
      let newlen := Z.of_nat (length ori_str) - Z.of_nat (length old_str) + Z.of_nat (length new_str) in
      if newlen <? MAX_IPFW_RULE_ARGS_SIZE then
        take pos ori_str ++ new_str ++ strlcpy (drop (pos + length old_str) ori_str) (newlen + 1)
      else ori_str
  end.

(** Address, slash, number of bits: what isvalid_addr and isvalid_ip_mask test
    on their copy of the argument. *)
Definition addr_slash_bits (buffer : cstring) : option bool :=
  let '(token, last) := strtok_r (Some buffer) (str "/") None in
  match token with
  | None => Some false
  | Some a =>
      ok ← isvalid_subnetip a;
      if ok : bool then
        match fst (strtok_r None (str "/") last) with
        | Some b => if isvalid_digit b then n ← atoi (c_str b); Some (n <? 32) else Some false
        | None => Some false
        end
      else Some false
  end.

(** The result and the argument, in which [%2F] has become a slash. *)
Definition isvalid_addr (addr : cstring) : option (bool * cstring) :=
  let addr := replace addr (str "%2F") (str "/") in
  ok ← addr_slash_bits (strlcpy addr MAX_IPFW_RULE_ARGS_SIZE);
  Some (ok, addr).

Definition isvalid_ip_mask (addr : cstring) : option bool :=
  addr_slash_bits (strlcpy addr 32).

Definition isvalidip_port (s : cstring) : option bool :=
  let '(token1, last) := strtok_r (Some s) (str ": ") None in
  match token1 with
  | None => Some false
  | Some a =>
      ok ← isvalidip a;
      if ok : bool then
        match fst (strtok_r None (str ":") last) with
        | None => Some false
        | Some p => Some (isvalid_ipfw_digit p)
        end
      else Some false
  end.

Definition is_valid_mtu (c : Z) : bool := (c >=? PPPOE_MTU_MIN) && (c <=? PPPOE_MTU_MAX).

Definition isvalidTime (x : Z) : bool := (x <? 400000) && (x >? 0).

(** The number of digits a reversed name starts with; when there is nothing else
    the code reads in front of the name. *)
Fixpoint leading_digits (s : cstring) : option nat :=
  match s with
  | [] => None
  | c :: s' => if isdigit c then S <$> leading_digits s' else Some 0%nat
  end.

Definition get_unit (interface_name : cstring) : option Z :=
  digits ← leading_digits (rev interface_name);
  atoi (c_str (drop (length interface_name - digits) interface_name)).
