(* ===== verification/NwAddrSpec.v ===== *)
(** * What the address functions compute

    Reference definitions (numbers between dots, masks of leading ones, octets of
    a word) and the proofs that the functions of ecosap_nw.c agree with them. *)
From S2P Require Import Prelude.
From S2P Require Import CStr.
From S2P Require Import NwAddr.

(** ** Numbers between dots *)
Fixpoint split_dot (s : cstring) : list cstring :=
  match s with
  | [] => [[]]
  | c :: s' => if c =? dot then [] :: split_dot s'
               else match split_dot s' with o :: os => (c :: o) :: os | [] => [[c]] end
  end.

Definition octet (n : nat) (o : cstring) : bool :=
  all_digits o && bool_decide (1 <= length o <= n)%nat.

(** Every number has one to three digits, the last one up to four. *)
Fixpoint octets_ok (os : list cstring) : bool :=
  match os with
  | [] => false
  | [o] => octet 4 o
  | o :: os' => octet 3 o && octets_ok os'
  end.

(** The four numbers of an address. *)
Definition dotted_quad (s : cstring) : option (list Z) :=
  let os := split_dot s in
  if octets_ok os && Nat.eqb (length os) 4 then Some (map dec_value os) else None.

(** The addresses isvalidip accepts: four numbers up to 255, not of network 0 or
    127, host part of the last octet neither 0 nor 255. *)
Definition unicast_quad (s : cstring) : bool :=
  match dotted_quad s with
  | Some a => forallb (fun o => o <=? 255) a &&
      negb ((nthZ a 0 =? 0) || (nthZ a 0 =? 127) || (nthZ a 3 =? 255) || (nthZ a 3 =? 0))
  | None => false
  end.

(** The same for isvalid_subnetip. *)
Definition subnet_quad (s : cstring) : bool :=
  match dotted_quad s with
  | Some a => forallb (fun o => o <=? 255) a && negb ((nthZ a 0 =? 0) || (nthZ a 3 =? 255))
  | None => false
  end.

Fixpoint dots (s : cstring) : nat :=
  match s with [] => 0 | c :: s' => if (c =? dot)%Z then S (dots s') else dots s' end.

(** A string has no character NUL. *)
Definition c_string (s : cstring) : Prop := Forall (fun c => c <> 0) s.

Lemma digit_not_dot c : is_digit c -> c <> dot.
Proof. unfold is_digit, dot. lia. Qed.

Lemma isdigit_dot c : isdigit c = true -> (c =? dot) = false.
Proof. intros H%isdigit_spec%digit_not_dot. lia. Qed.

Lemma split_nonempty s : split_dot s <> [].
Proof. destruct s as [|c s]; cbn; [done|]. repeat case_match; done. Qed.

Lemma split_digits cur : Forall is_digit cur -> split_dot cur = [cur].
Proof.
  induction 1 as [|c s Hc _ IH]; [done|]. cbn. rewrite IH.
  by rewrite (proj2 (Z.eqb_neq c dot) (digit_not_dot _ Hc)).
Qed.

Lemma split_at_dot cur s :
  Forall is_digit cur -> split_dot (cur ++ dot :: s) = cur :: split_dot s.
Proof.
  induction 1 as [|c cur Hc _ IH]; [done|]. cbn [app split_dot]. rewrite IH.
  by rewrite (proj2 (Z.eqb_neq c dot) (digit_not_dot _ Hc)).
Qed.

Lemma split_other cur c s :
  Forall is_digit cur -> c <> dot -> exists o os, split_dot (cur ++ c :: s) = (cur ++ c :: o) :: os.
Proof.
  intros Hcur Hc. induction Hcur as [|d cur Hd _ IH].
  - cbn. rewrite (proj2 (Z.eqb_neq c dot) Hc). destruct (split_dot s); eauto.
  - destruct IH as (o & os & IH). cbn [app split_dot]. rewrite IH.
    rewrite (proj2 (Z.eqb_neq d dot) (digit_not_dot _ Hd)). eauto.
Qed.

Lemma octet_false n o : (n < length o)%nat -> octet n o = false.
Proof. intros. unfold octet. rewrite bool_decide_eq_false_2 by lia. apply andb_false_r. Qed.

Lemma octet_nondigit n a c b : isdigit c = false -> octet n (a ++ c :: b) = false.
Proof.
  intros Hc. unfold octet, all_digits. rewrite forallb_app. cbn. rewrite Hc. by rewrite !andb_false_r.
Qed.

(** The first number decides against the address. *)
Lemma octets_ok_cons o os :
  octet 4 o = false -> octets_ok (o :: os) = false.
Proof.
  intros H. cbn. destruct os; [done|].
  assert (octet 3 o = false) as ->; [|done].
  unfold octet in *. apply andb_false_iff in H as [->|H]; [done|].
  apply bool_decide_eq_false in H. rewrite bool_decide_eq_false_2 by lia. apply andb_false_r.
Qed.

(** ** The loop of isvalidip without its buffers *)
Fixpoint scan (cur : cstring) (arr : list Z) (s : cstring) : option (list Z * cstring) :=
  match s with
  | [] => Some (arr, cur)
  | c :: s' =>
      if isdigit c && (Z.of_nat (length cur) <? 4) then scan (cur ++ [c]) arr s'
      else if Z.of_nat (length cur) =? 4 then None
      else if (c =? dot) && negb (char_at s' =? 0) then
        if Z.of_nat (length cur) =? 0 then None else scan [] (arr ++ [dec_value cur]) s'
      else None
  end.

Lemma scan_spec s : forall cur arr,
  c_string s -> Forall is_digit cur -> (length cur <= 4)%nat -> cur ++ s <> [] ->
  scan cur arr s =
  (let os := split_dot (cur ++ s) in
   if octets_ok os then Some (arr ++ map dec_value (removelast os), List.last os []) else None).
Proof.
  induction s as [|c s IH]; intros cur arr Hs Hcur Hlen Hne.
  { rewrite app_nil_r in *. rewrite split_digits by done. cbn [scan octets_ok removelast List.last map].
    unfold octet. rewrite (proj2 (all_digits_spec _) Hcur), bool_decide_eq_true_2.
    - by rewrite app_nil_r.
    - destruct cur; [done|]. cbn in *. lia. }
  inversion Hs as [|? ? Hc0 Hs']; subst. cbn [scan].
  destruct (isdigit c) eqn:Hc.
  - pose proof (proj1 (isdigit_spec c) Hc) as Hd. cbn [andb].
    destruct (Z.ltb_spec (Z.of_nat (length cur)) 4).
    + rewrite IH; [by rewrite <- app_assoc|done| | |by destruct cur].
      * apply Forall_app. by split; [|constructor].
      * rewrite length_app. cbn. lia.
    + rewrite (proj2 (Z.eqb_eq _ 4)) by lia.
      destruct (split_other cur c s Hcur (digit_not_dot _ Hd)) as (o & os & ->). cbn zeta.
      rewrite octets_ok_cons; [done|]. apply octet_false. rewrite length_app. cbn. lia.
  - cbn [andb]. destruct (Z.eqb_spec c dot) as [->|Hcd].
    + rewrite split_at_dot by done. cbn zeta.
      destruct (split_dot s) as [|o os] eqn:Eos; [by apply split_nonempty in Eos|].
      change (octets_ok (cur :: o :: os)) with (octet 3 cur && octets_ok (o :: os)).
      destruct (Z.eqb_spec (Z.of_nat (length cur)) 4); [by rewrite octet_false by lia|].
      destruct s as [|c' s].
      { cbn in Eos. injection Eos as <- <-. cbn. by rewrite andb_false_r. }
      inversion Hs' as [|? ? Hc' _]; subst. cbn [andb char_at hd]. rewrite (proj2 (Z.eqb_neq c' 0)) by done.
      cbn [negb]. destruct (Z.eqb_spec (Z.of_nat (length cur)) 0).
      { unfold octet. rewrite bool_decide_eq_false_2 by lia. by rewrite andb_false_r. }
      rewrite IH by (done || cbn; lia). cbn [app]. rewrite Eos. cbn zeta.
      assert (octet 3 cur = true) as ->.
      { unfold octet. rewrite (proj2 (all_digits_spec _) Hcur), bool_decide_eq_true_2 by lia. done. }
      cbn [andb]. destruct (octets_ok (o :: os)); [|done]. cbn [removelast map List.last].
      by rewrite <- app_assoc.
    + cbn [andb]. destruct (split_other cur c s Hcur Hcd) as (o & os & ->). cbn zeta.
      rewrite octets_ok_cons by by apply octet_nondigit. by case_match.
Qed.

(** ** The loop refines it *)

(** [temp] holds the digits of the current number, when there are any. *)
Definition holds (temp : mem) (cur : cstring) : Prop :=
  length temp = 8%nat /\ (cur = [] \/ exists m, temp = map Some cur ++ Some 0 :: m).

(** Reading the buffer gives the number in it. *)
Definition conv_ok (conv : mem -> option (option Z)) : Prop :=
  forall temp cur, holds temp cur -> cur <> [] -> Forall is_digit cur -> (length cur <= 4)%nat ->
  conv temp = Some (Some (dec_value cur)).

Lemma four_digits cur : Forall is_digit cur -> (length cur <= 4)%nat -> 0 <= dec_value cur < 10000.
Proof.
  intros Hd Hl. pose proof (dec_value_pos _ Hd). pose proof (dec_value_bound _ Hd).
  assert (10 ^ Z.of_nat (length cur) <= 10 ^ 4) by (apply Z.pow_le_mono_r; lia). lia.
Qed.

Lemma not_digit_nul : ~ is_digit 0.
Proof. unfold is_digit. lia. Qed.

Lemma conv_atoi_ok : conv_ok conv_atoi.
Proof.
  intros temp cur [_ [->|[m ->]]] Hne Hd Hl; [done|]. pose proof (four_digits _ Hd Hl).
  unfold conv_atoi. rewrite atoi_digits by (done || apply not_digit_nul). cbn.
  by rewrite Z.min_l by (unfold LONG_MAX; lia).
Qed.

Lemma conv_strtoul_ok : conv_ok conv_strtoul.
Proof.
  intros temp cur [_ [->|[m ->]]] Hne Hd Hl; [done|]. pose proof (four_digits _ Hd Hl).
  unfold conv_strtoul. rewrite strtoul_digits by (done || apply not_digit_nul). cbn [mbind option_bind].
  rewrite Z.min_l, bool_decide_eq_false_2, andb_false_r by (unfold ULONG_MAX; lia). done.
Qed.

Lemma store_in buf i c :
  0 <= i < Z.of_nat (length buf) -> store buf i c = Some (<[Z.to_nat i := Some c]> buf).
Proof. intros. unfold store. by replace ((0 <=? i) && (i <? Z.of_nat (length buf))) with true by lia. Qed.

Lemma store_after (pre rest : mem) x c :
  store (pre ++ x :: rest) (Z.of_nat (length pre)) c = Some (pre ++ Some c :: rest).
Proof.
  rewrite store_in by (rewrite length_app; cbn; lia). f_equal.
  rewrite Nat2Z.id, insert_app_r_alt by lia. by rewrite Nat.sub_diag.
Qed.

Lemma holds_split temp cur :
  holds temp cur -> (length cur < 4)%nat ->
  exists pre x y rest, temp = pre ++ x :: y :: rest /\ length pre = length cur /\
    (cur <> [] -> pre = map Some cur).
Proof.
  intros [Hl Hc] Hlt. destruct Hc as [->|[m ->]].
  - destruct temp as [|x [|y rest]]; [done|done|]. by exists [], x, y, rest.
  - rewrite length_app, length_map in Hl. cbn in Hl. destruct m as [|y m]; [cbn in *; lia|].
    exists (map Some cur), (Some 0), y, m. by rewrite length_map.
Qed.

(** [temp[digit++] = c; temp[digit] = 0] *)
Lemma store_digit temp cur c :
  holds temp cur -> (length cur < 4)%nat ->
  exists temp1 temp2, store temp (Z.of_nat (length cur)) c = Some temp1 /\
    store temp1 (Z.of_nat (length cur) + 1) 0 = Some temp2 /\ holds temp2 (cur ++ [c]).
Proof.
  intros Hh Hlt. destruct (holds_split _ _ Hh Hlt) as (pre & x & y & rest & -> & Hp & Hpre).
  exists (pre ++ Some c :: y :: rest), (pre ++ Some c :: Some 0 :: rest).
  rewrite <- Hp. split; [apply store_after|]. split.
  - pose proof (store_after (pre ++ [Some c]) rest y 0) as E.
    rewrite length_app, Nat2Z.inj_add, <- !app_assoc in E. exact E.
  - destruct Hh as [Hl _]. split; [by rewrite !length_app in *|]. right. exists rest.
    rewrite map_app, <- app_assoc. f_equal. destruct cur; [by destruct pre|]. by apply Hpre.
Qed.

Lemma dots_dot s : dots (dot :: s) = S (dots s).
Proof. done. Qed.

Lemma dots_cons c s : (dots s <= dots (c :: s))%nat.
Proof. cbn. case_match; lia. Qed.

Lemma ip_loop_scan conv s : conv_ok conv -> forall temp cur arr,
  holds temp cur -> Forall is_digit cur -> (length cur <= 4)%nat -> (length arr + dots s < 8)%nat ->
  match scan cur arr s with
  | None => ip_loop conv temp (Z.of_nat (length cur)) arr (Z.of_nat (length arr)) s = Some None
  | Some (arr', cur') => exists temp', holds temp' cur' /\
      ip_loop conv temp (Z.of_nat (length cur)) arr (Z.of_nat (length arr)) s =
      Some (Some (temp', arr', Z.of_nat (length arr')))
  end.
Proof.
  intros Hconv. induction s as [|c s IH]; intros temp cur arr Hh Hd Hl Ha; [by exists temp|].
  cbn [scan ip_loop]. pose proof (dots_cons c s).
  destruct (isdigit c && (Z.of_nat (length cur) <? 4)) eqn:E.
  - apply andb_true_iff in E as [E1 E2]. apply Z.ltb_lt in E2.
    destruct (store_digit temp cur c Hh ltac:(lia)) as (t1 & t2 & E3 & E4 & Hh2).
    rewrite E3. cbn [mbind option_bind]. rewrite E4. cbn [mbind option_bind].
    specialize (IH t2 (cur ++ [c]) arr Hh2). rewrite length_app, Nat2Z.inj_add in IH.
    apply IH; [|cbn; lia|lia]. apply Forall_app. split; [done|]. by constructor; [apply isdigit_spec|].
  - destruct (Z.eqb_spec (Z.of_nat (length cur)) 4); [done|].
    destruct ((c =? dot) && negb (char_at s =? 0)) eqn:E2; [|done].
    destruct (Z.eqb_spec (Z.of_nat (length cur)) 0); [done|].
    rewrite (Hconv _ _ Hh) by (done || (by intros ->) || lia). cbn [mbind option_bind].
    apply andb_true_iff in E2 as [->%Z.eqb_eq _]. rewrite dots_dot in Ha.
    rewrite (proj2 (Nat.ltb_lt _ _)) by lia.
    specialize (IH temp [] (arr ++ [dec_value cur])). rewrite length_app, Nat2Z.inj_add in IH.
    apply IH; [split; [apply Hh|by left]|constructor|cbn; lia|cbn; lia].
Qed.

Lemma scan_length s : forall cur arr arr' cur',
  scan cur arr s = Some (arr', cur') -> (length arr' <= length arr + dots s)%nat.
Proof.
  induction s as [|c s IH]; intros cur arr arr' cur'; cbn [scan]; [intros [= <- <-]; lia|].
  pose proof (dots_cons c s). destruct (isdigit c && _); [intros ?%IH; lia|].
  case_match; [done|]. destruct (c =? dot) eqn:Ed; [|done].
  apply Z.eqb_eq in Ed as ->. rewrite dots_dot. cbn [andb].
  case_match; [|done]. case_match; [done|]. intros E%IH. rewrite length_app in E. cbn in E. lia.
Qed.

Lemma octets_ok_last os :
  octets_ok os = true -> Forall is_digit (List.last os []) /\ (1 <= length (List.last os []) <= 4)%nat.
Proof.
  induction os as [|o os IH]; [done|]. cbn [octets_ok]. destruct os as [|o' os'].
  - unfold octet. intros [H1 H2]%andb_true_iff. apply all_digits_spec in H1.
    by apply bool_decide_eq_true in H2.
  - intros [_ H]%andb_true_iff. by apply IH.
Qed.

Lemma removelast_app_last {A} (d : A) os : os <> [] -> removelast os ++ [List.last os d] = os.
Proof. intros. symmetry. by apply app_removelast_last. Qed.

Lemma exists_outside a :
  Forall (fun o => 0 <= o) a ->
  existsb (fun o => (o <? 0) || (o >? 255)) a = negb (forallb (fun o => o <=? 255) a).
Proof.
  induction 1 as [|o a Ho _ IH]; [done|]. cbn. rewrite IH.
  replace (o <? 0) with false by lia. cbn.
  destruct (Z.leb_spec o 255); [replace (o >? 255) with false by lia|replace (o >? 255) with true by lia]; done.
Qed.

Lemma octets_ok_digits os : octets_ok os = true -> Forall (Forall is_digit) os.
Proof.
  induction os as [|o os IH]; [done|]. cbn [octets_ok]. destruct os.
  - unfold octet. intros [H1%all_digits_spec _]%andb_true_iff. by repeat constructor.
  - intros [H1 H2]%andb_true_iff. unfold octet in H1. apply andb_true_iff in H1 as [H1%all_digits_spec _].
    constructor; [done|]. by apply IH.
Qed.

Lemma dotted_quad_pos s a : dotted_quad s = Some a -> Forall (fun o => 0 <= o) a.
Proof.
  unfold dotted_quad. destruct (octets_ok (split_dot s)) eqn:E; [|done]. cbn [andb].
  case_match; [|done]. intros [= <-]. apply Forall_map, (Forall_impl _ _ _ (octets_ok_digits _ E)).
  apply dec_value_pos.
Qed.

(** Both checks: the numbers, then the test [last]. *)
Lemma ip_check_spec conv last addr :
  conv_ok conv -> c_string addr -> addr <> [] -> (dots addr < 8)%nat ->
  ip_check conv last addr =
  Some (match dotted_quad addr with
        | Some a => forallb (fun o => o <=? 255) a &&
            (if streq addr (str "0.0.0.0") || streq addr (str "255.255.255.255") then false else last a)
        | None => false
        end).
Proof.
  intros Hconv Hs Hne Hdots. unfold ip_check.
  pose proof (ip_loop_scan conv addr Hconv (uninit 8) [] []) as Hloop.
  pose proof (scan_spec addr [] [] Hs ltac:(constructor) ltac:(cbn; lia) Hne) as Hscan.
  cbn [app length] in Hloop, Hscan. cbn zeta in Hscan. change (Z.of_nat 0) with 0 in Hloop. unfold dotted_quad.
  destruct (octets_ok (split_dot addr)) eqn:Eok; rewrite Hscan in Hloop.
  2: { rewrite Hloop; [done|by split; [|left]|constructor|lia|lia]. }
  pose proof (scan_length _ _ _ _ _ Hscan) as Hlen. cbn [length] in Hlen.
  destruct Hloop as (temp & Hh & ->); [by split; [|left]|constructor|lia|lia|].
  destruct (octets_ok_last _ Eok) as [Hd Hl].
  cbn [mbind option_bind]. rewrite (Hconv _ _ Hh) by (done || (by intros H0; rewrite H0 in Hl; cbn in Hl; lia) || lia).
  cbn [mbind option_bind]. rewrite (proj2 (Nat.ltb_lt _ _)) by lia. f_equal.
  assert (map dec_value (removelast (split_dot addr)) ++ [dec_value (List.last (split_dot addr) [])] =
          map dec_value (split_dot addr)) as ->.
  { rewrite <- (removelast_app_last [] (split_dot addr) (split_nonempty addr)) at 3. by rewrite map_app. }
  rewrite length_map. cbn [andb]. destruct (Nat.eqb_spec (length (split_dot addr)) 4) as [E4|]; [|done].
  cbn [negb]. assert (length (map dec_value (removelast (split_dot addr))) = 3%nat) as E3.
  { pose proof (f_equal length (removelast_app_last [] _ (split_nonempty addr))) as E.
    rewrite length_app in E. rewrite length_map. cbn in E. unfold cstring in *. lia. }
  rewrite E3. cbn [Z.of_nat Z.gtb Z.compare].
  rewrite exists_outside by (apply Forall_map, (Forall_impl _ _ _ (octets_ok_digits _ Eok)), dec_value_pos).
  by destruct (forallb _ _).
Qed.

Lemma isvalidip_quad addr :
  c_string addr -> addr <> [] -> (dots addr < 8)%nat -> isvalidip addr = Some (unicast_quad addr).
Proof.
  intros. unfold isvalidip, unicast_quad.
  rewrite ip_check_spec by (done || apply conv_atoi_ok). f_equal.
  unfold streq. repeat case_bool_decide; subst; try done; reflexivity.
Qed.

Lemma isvalid_subnetip_quad addr :
  c_string addr -> addr <> [] -> (dots addr < 8)%nat -> isvalid_subnetip addr = Some (subnet_quad addr).
Proof.
  intros. unfold isvalid_subnetip, subnet_quad.
  rewrite ip_check_spec by (done || apply conv_strtoul_ok). f_equal.
  unfold streq. repeat case_bool_decide; subst; try done; reflexivity.
Qed.

(** ** Canonical notation *)
Lemma digits_c_string s : Forall is_digit s -> c_string s.
Proof. intros H. apply (Forall_impl _ _ _ H). unfold is_digit. intros; lia. Qed.

Lemma show_byte_ok ip i : Forall is_digit (show_byte (ip_byte ip i)).
Proof. apply show_byte_digits, ip_byte_bound. Qed.

Lemma inet_ntoa_eq ip :
  inet_ntoa ip = show_byte (ip_byte ip 0) ++ dot :: show_byte (ip_byte ip 1) ++ dot ::
                 show_byte (ip_byte ip 2) ++ dot :: show_byte (ip_byte ip 3).
Proof. done. Qed.

Lemma ntoa_split ip :
  split_dot (inet_ntoa ip) = map show_byte [ip_byte ip 0; ip_byte ip 1; ip_byte ip 2; ip_byte ip 3].
Proof.
  rewrite inet_ntoa_eq, !split_at_dot, split_digits by apply show_byte_ok. done.
Qed.

Lemma show_byte_octet ip i n : (3 <= n)%nat -> octet n (show_byte (ip_byte ip i)) = true.
Proof.
  intros. unfold octet. rewrite (proj2 (all_digits_spec _) (show_byte_ok ip i)).
  pose proof (show_byte_length (ip_byte ip i)). by rewrite bool_decide_eq_true_2 by lia.
Qed.

Lemma ntoa_quad ip :
  dotted_quad (inet_ntoa ip) = Some [ip_byte ip 0; ip_byte ip 1; ip_byte ip 2; ip_byte ip 3].
Proof.
  unfold dotted_quad. rewrite ntoa_split. cbn [map octets_ok].
  rewrite !show_byte_octet by lia. cbn [andb length Nat.eqb map].
  by rewrite !show_byte_value by apply ip_byte_bound.
Qed.

Lemma ntoa_c_string ip : c_string (inet_ntoa ip).
Proof.
  rewrite inet_ntoa_eq. unfold c_string.
  repeat first [apply Forall_cons; split | apply digits_c_string, show_byte_ok | apply Forall_app; split | done].
Qed.

Lemma dots_app s t : dots (s ++ t) = (dots s + dots t)%nat.
Proof. induction s as [|c s IH]; [done|]. cbn. rewrite IH. by case_match. Qed.

Lemma dots_digits s : Forall is_digit s -> dots s = 0%nat.
Proof.
  induction 1 as [|c s Hc _ IH]; [done|]. cbn. by rewrite (proj2 (Z.eqb_neq c dot) (digit_not_dot _ Hc)).
Qed.

Lemma ntoa_dots ip : dots (inet_ntoa ip) = 3%nat.
Proof.
  rewrite inet_ntoa_eq, !dots_app. cbn [dots]. rewrite !dots_app. cbn [dots].
  rewrite Z.eqb_refl, !dots_app. cbn [dots]. rewrite Z.eqb_refl, !dots_digits by apply show_byte_ok. done.
Qed.

Lemma ntoa_length ip : (7 <= length (inet_ntoa ip) <= 15)%nat.
Proof.
  rewrite inet_ntoa_eq, !length_app. cbn [length]. rewrite !length_app. cbn [length]. rewrite !length_app.
  cbn [length]. pose proof (fun i => show_byte_length (ip_byte ip i)) as H.
  pose proof (H 0). pose proof (H 1). pose proof (H 2). pose proof (H 3). lia.
Qed.

Lemma ntoa_nonempty ip : inet_ntoa ip <> [].
Proof. intros E. pose proof (ntoa_length ip) as H. rewrite E in H. cbn in H. lia. Qed.

(** strlcpy into a buffer of an address does not cut an address. *)
Lemma strlcpy_ntoa ip n : 16 <= n -> strlcpy (inet_ntoa ip) n = inet_ntoa ip.
Proof. intros. apply take_ge. pose proof (ntoa_length ip). lia. Qed.

(** The host addresses isvalidip accepts, as words. *)
Definition unicast (ip : Z) : bool :=
  negb ((ip_byte ip 0 =? 0) || (ip_byte ip 0 =? 127) || (ip_byte ip 3 =? 255) || (ip_byte ip 3 =? 0)).

Lemma isvalidip_ntoa ip : isvalidip (inet_ntoa ip) = Some (unicast ip).
Proof.
  rewrite isvalidip_quad by (apply ntoa_c_string || apply ntoa_nonempty || rewrite ntoa_dots; lia).
  unfold unicast_quad. rewrite ntoa_quad. f_equal. pose proof (ip_byte_bound ip) as H.
  pose proof (H 0). pose proof (H 1). pose proof (H 2). pose proof (H 3).
  cbn [forallb]. rewrite !(proj2 (Z.leb_le _ 255)) by lia. done.
Qed.

(** ** Masks *)

(** The masks of a prefix: ones, then [k] zeros. *)
Definition prefix_mask (k : Z) : Z := 2 ^ 32 - 2 ^ k.

Lemma lnot_bits x n : 0 <= n < 32 -> Z.testbit (u32 (Z.lnot x)) n = negb (Z.testbit x n).
Proof.
  intros. rewrite uwrap_testbit by lia. rewrite Z.lnot_spec by lia.
  by replace (n <? 32) with true by lia.
Qed.

Lemma prefix_mask_bits k n : 0 <= k <= 32 -> 0 <= n ->
  Z.testbit (prefix_mask k) n = (k <=? n) && (n <? 32).
Proof.
  intros. unfold prefix_mask.
  replace (2 ^ 32 - 2 ^ k) with (Z.shiftl (Z.ones (32 - k)) k).
  - rewrite Z.shiftl_spec by lia. destruct (Z.leb_spec k n).
    + rewrite Z.testbit_ones by lia. cbn [andb]. lia.
    + rewrite Z.testbit_neg_r by lia. done.
  - rewrite Z.shiftl_mul_pow2, Z.ones_equiv by lia.
    replace (Z.pred (2 ^ (32 - k)) * 2 ^ k) with (2 ^ (32 - k) * 2 ^ k - 2 ^ k) by lia.
    rewrite <- Z.pow_add_r by lia. do 2 f_equal. lia.
Qed.

(** The test of isvalid_mask: no one below a zero. *)
Lemma mask_test m :
  fits 32 m ->
  Z.land m (Z.shiftr (u32 (Z.lnot m)) 1) = 0 <->
  (forall n, 0 <= n < 31 -> Z.testbit m n = true -> Z.testbit m (n + 1) = true).
Proof.
  intros Hm. split.
  - intros E n Hn Hb. apply (f_equal (fun x => Z.testbit x n)) in E.
    rewrite Z.land_spec, Z.bits_0, Z.shiftr_spec, lnot_bits, Hb in E by lia. cbn in E.
    by destruct (Z.testbit m (n + 1)).
  - intros H. apply Z.bits_inj'. intros n Hn. rewrite Z.land_spec, Z.bits_0, Z.shiftr_spec by lia.
    destruct (Z.ltb_spec n 31).
    + rewrite lnot_bits by lia. destruct (Z.testbit m n) eqn:E; [|done]. by rewrite (H n) by (done || lia).
    + rewrite (testbit_high 32 (u32 _)) by (try lia; apply uwrap_range; lia). apply andb_false_r.
Qed.

(** A mask without a one below a zero is a prefix mask, [k] its lowest one. *)
Lemma ones_up m k :
  (forall n, 0 <= n < 31 -> Z.testbit m n = true -> Z.testbit m (n + 1) = true) ->
  0 <= k < 32 -> Z.testbit m k = true -> forall n, k <= n < 32 -> Z.testbit m n = true.
Proof.
  intros H Hk Hb n Hn. replace n with (k + Z.of_nat (Z.to_nat (n - k))) by lia.
  assert (k + Z.of_nat (Z.to_nat (n - k)) < 32) as Hlt by lia.
  revert Hlt. generalize (Z.to_nat (n - k)) as j. induction j as [|j IH]; intros Hlt.
  - by rewrite Z.add_0_r.
  - replace (k + Z.of_nat (S j)) with (k + Z.of_nat j + 1) by lia. apply H; [lia|]. apply IH. lia.
Qed.

Lemma lowest_one m n :
  0 <= n -> Z.testbit m n = true ->
  exists k, 0 <= k <= n /\ Z.testbit m k = true /\ forall i, 0 <= i < k -> Z.testbit m i = false.
Proof.
  intros Hn. pattern n. apply Zlt_0_ind; [|done]. clear n Hn. intros n IH Hn Hb.
  destruct (decide (Exists (fun i => Z.testbit m i = true) (seqZ 0 n))) as [H|H].
  - apply Exists_exists in H as (i & Hi & Hbi). apply elem_of_seqZ in Hi.
    destruct (IH i) as (k & Hk & ?); [lia|done|]. exists k. split; [lia|done].
  - exists n. split; [lia|]. split; [done|]. intros i Hi. apply not_true_iff_false. intros Hbi.
    apply H, Exists_exists. exists i. split; [|done]. apply elem_of_seqZ. lia.
Qed.

Lemma contiguous_mask m :
  fits 32 m -> m <> 0 ->
  (forall n, 0 <= n < 31 -> Z.testbit m n = true -> Z.testbit m (n + 1) = true) ->
  exists k, 0 <= k < 32 /\ m = prefix_mask k.
Proof.
  intros Hm H0 H. assert (0 < m) as Hp by (unfold fits in Hm; lia).
  assert (Z.log2 m < 32) by (apply Z.log2_lt_pow2; unfold fits in Hm; lia).
  destruct (lowest_one m (Z.log2 m)) as (k & Hk & Hb & Hlow); [apply Z.log2_nonneg|by apply Z.bit_log2|].
  exists k. split; [lia|]. apply Z.bits_inj'. intros n Hn. rewrite prefix_mask_bits by lia.
  destruct (Z.leb_spec k n); [|by apply Hlow].
  destruct (Z.ltb_spec n 32); [|by apply (testbit_high 32)]. apply (ones_up m k); lia || done.
Qed.

Lemma prefix_mask_ones k n :
  0 <= k < 32 -> 0 <= n < 31 -> Z.testbit (prefix_mask k) n = true -> Z.testbit (prefix_mask k) (n + 1) = true.
Proof. intros Hk Hn. rewrite !prefix_mask_bits by lia. lia. Qed.

Lemma prefix_mask_fits k : 0 <= k < 32 -> fits 32 (prefix_mask k).
Proof.
  intros. unfold fits, prefix_mask.
  assert (2 ^ 0 <= 2 ^ k <= 2 ^ 31) by (split; apply Z.pow_le_mono_r; lia). lia.
Qed.

(** ** Words and their bytes *)
Definition word (a b c d : Z) : Z := a * 2 ^ 24 + b * 2 ^ 16 + c * 2 ^ 8 + d.

Lemma word_bytes ip : fits 32 ip -> ip = word (ip_byte ip 0) (ip_byte ip 1) (ip_byte ip 2) (ip_byte ip 3).
Proof. apply ip_bytes. Qed.

Section Word.
Context (a b c d : Z) (Ha : is_byte a) (Hb : is_byte b) (Hc : is_byte c) (Hd : is_byte d).

Lemma word_fits : fits 32 (word a b c d).
Proof using All. unfold fits, word, is_byte in *. lia. Qed.

Lemma word_byte i :
  0 <= i < 4 -> ip_byte (word a b c d) i = nthZ [a; b; c; d] i.
Proof using All.
  intros Hi. unfold ip_byte. change 0xff with (Z.ones 8). rewrite Z.land_ones, Z.shiftr_div_pow2 by lia.
  unfold word, is_byte in *.
  assert (i = 0 \/ i = 1 \/ i = 2 \/ i = 3) as [-> | [-> | [-> | ->]]] by lia.
  - change (24 - 8 * 0) with 24. change (nthZ _ _) with a. Z.div_mod_to_equations. lia.
  - change (24 - 8 * 1) with 16. change (nthZ _ _) with b. Z.div_mod_to_equations. lia.
  - change (24 - 8 * 2) with 8. change (nthZ _ _) with c. Z.div_mod_to_equations. lia.
  - change (24 - 8 * 3) with 0. change (nthZ _ _) with d. Z.div_mod_to_equations. lia.
Qed.
End Word.

Lemma land_pack n hi lo mh ml :
  0 <= n -> 0 <= lo < 2 ^ n -> 0 <= ml < 2 ^ n ->
  Z.land (hi * 2 ^ n + lo) (mh * 2 ^ n + ml) = Z.land hi mh * 2 ^ n + Z.land lo ml.
Proof.
  intros Hn Hlo Hml. assert (0 <= Z.land lo ml < 2 ^ n) as Hl.
  { apply bits_bounded; [done|]. intros k Hk. by rewrite Z.land_spec, (testbit_high n). }
  rewrite <- !lor_shiftl_add by done. apply Z.bits_inj'. intros k Hk.
  rewrite !Z.land_spec, !Z.lor_spec, Z.land_spec. destruct (Z.ltb_spec k n).
  - by rewrite !Z.shiftl_spec_low.
  - rewrite !(testbit_high n lo), !(testbit_high n ml), !Z.shiftl_spec, Z.land_spec by done.
    by rewrite !orb_false_r.
Qed.

Lemma land_word a b c d e f g h :
  is_byte b -> is_byte c -> is_byte d -> is_byte f -> is_byte g -> is_byte h ->
  Z.land (word a b c d) (word e f g h) = word (Z.land a e) (Z.land b f) (Z.land c g) (Z.land d h).
Proof.
  unfold is_byte. intros. unfold word.
  replace (a * 2 ^ 24 + b * 2 ^ 16 + c * 2 ^ 8 + d) with (((a * 2 ^ 8 + b) * 2 ^ 8 + c) * 2 ^ 8 + d) by ring.
  replace (e * 2 ^ 24 + f * 2 ^ 16 + g * 2 ^ 8 + h) with (((e * 2 ^ 8 + f) * 2 ^ 8 + g) * 2 ^ 8 + h) by ring.
  rewrite !land_pack by lia. ring.
Qed.

Lemma land_byte_255 x : is_byte x -> Z.land x 255 = x.
Proof. intros. change 255 with (Z.ones 8). rewrite Z.land_ones by lia. by apply Z.mod_small. Qed.

(** Keeps the bytes of a word whose mask is 255. *)
Ltac keep_bytes :=
  rewrite land_word by (unfold is_byte in *; lia);
  rewrite ?land_byte_255, ?Z.land_0_r by (unfold is_byte in *; lia).

Lemma mask_word a b c d m1 m2 m3 m4 (m := word m1 m2 m3 m4) :
  is_byte a -> is_byte b -> is_byte c -> is_byte d ->
  (m1 = 0 \/ m1 = 255) -> (m2 = 0 \/ m2 = 255) -> (m3 = 0 \/ m3 = 255) -> (m4 = 0 \/ m4 = 255) ->
  Z.land (word a b c d) m =
  word (if m1 =? 0 then 0 else a) (if m2 =? 0 then 0 else b) (if m3 =? 0 then 0 else c) (if m4 =? 0 then 0 else d).
Proof.
  intros Ha Hb Hc Hd [-> | ->] [-> | ->] [-> | ->] [-> | ->]; unfold m; by keep_bytes.
Qed.

(** ** The change of subnet *)

(** What change_octal does to the octets of an address. *)
Definition next_subnet (a b c d : Z) : Z :=
  if c <? 254 then word a b (c + 1) (if d <? 254 then d else 0)
  else if b <? 254 then word a (b + 1) 0 d
  else if a <? 254 then word (a + 1) 0 0 d
  else 0.

Lemma top_two x : is_byte x -> ((x =? 0xFF) || (x =? 0xFE)) = negb (x <? 254).
Proof. unfold is_byte. intros. destruct (Z.ltb_spec x 254); lia. Qed.

Lemma change_octal_word a b c d :
  is_byte a -> is_byte b -> is_byte c -> is_byte d ->
  change_octal (word a b c d) = next_subnet a b c d.
Proof.
  intros Ha Hb Hc Hd. unfold change_octal, next_subnet.
  change (Z.land ?x 0x0000FF00) with (Z.land x (word 0 0 255 0)). change (Z.land ?x 0x000000FF) with (Z.land x (word 0 0 0 255)).
  change (Z.land ?x 0xFFFF0000) with (Z.land x (word 255 255 0 0)). change (Z.land ?x 0xFFFF00FF) with (Z.land x (word 255 255 0 255)).
  change (Z.land ?x 0x00FF0000) with (Z.land x (word 0 255 0 0)). change (Z.land ?x 0xFF0000FF) with (Z.land x (word 255 0 0 255)).
  change (Z.land ?x 0xFF00FFFF) with (Z.land x (word 255 0 255 255)). change (Z.land ?x 0xFF000000) with (Z.land x (word 255 0 0 0)).
  change (Z.land ?x 0x0000FFFF) with (Z.land x (word 0 0 255 255)).
  rewrite !(mask_word a b c d) by (done || (by left) || (by right)). cbn [Z.eqb].
  assert (Z.shiftr (word 0 0 c 0) 8 = c) as -> by (rewrite Z.shiftr_div_pow2 by lia; unfold word, is_byte in *; Z.div_mod_to_equations; lia).
  assert (Z.shiftr (word 0 b 0 0) 16 = b) as -> by (rewrite Z.shiftr_div_pow2 by lia; unfold word, is_byte in *; Z.div_mod_to_equations; lia).
  assert (Z.shiftr (word a 0 0 0) 24 = a) as -> by (rewrite Z.shiftr_div_pow2 by lia; unfold word, is_byte in *; Z.div_mod_to_equations; lia).
  assert (word 0 0 0 d = d) as -> by (unfold word; lia).
  rewrite !top_two by done. rewrite !negb_involutive.
  destruct (Z.ltb_spec c 254); cbn [negb].
  { rewrite !Z.shiftl_mul_pow2 by lia. unfold word, is_byte in *.
    destruct (Z.ltb_spec d 254); cbn [negb]; rewrite !uwrap_small by (rewrite ?uwrap_small; lia); lia. }
  destruct (Z.ltb_spec b 254); cbn [negb].
  { rewrite !Z.shiftl_mul_pow2 by lia. unfold word, is_byte in *.
    rewrite !uwrap_small by (rewrite ?uwrap_small; lia). lia. }
  destruct (Z.ltb_spec a 254); cbn [negb]; [|done].
  assert (u32 (word 0 0 c d + u32 (Z.shiftl (a + 1) 24)) = word (a + 1) 0 c d) as ->.
  { rewrite !Z.shiftl_mul_pow2 by lia. unfold word, is_byte in *. rewrite !uwrap_small by (rewrite ?uwrap_small; lia). lia. }
  rewrite !(mask_word (a + 1) 0 c d) by (done || (by left) || (by right) || (unfold is_byte in *; lia)). cbn [Z.eqb].
  assert (Z.shiftr (word 0 0 c 0) 8 = c) as -> by (rewrite Z.shiftr_div_pow2 by lia; unfold word, is_byte in *; Z.div_mod_to_equations; lia).
  rewrite top_two by done. by replace (c <? 254) with false by lia.
Qed.

(** ** Substrings *)
Lemma starts_with_spec t s : starts_with t s = true <-> exists q, s = t ++ q.
Proof.
  revert s. induction t as [|x t IH]; intros s; cbn; [split; [by exists s|done]|].
  destruct s as [|y s]; [split; [done|by intros [q ?]]|].
  rewrite andb_true_iff, IH, Z.eqb_eq. split.
  - intros [-> [q ->]]. by exists q.
  - intros [q [= -> ->]]. split; [done|by exists q].
Qed.

Lemma strstr_spec s t : is_Some (strstr s t) <-> exists p q, s = p ++ t ++ q.
Proof.
  induction s as [|c s IH].
  - cbn [strstr]. destruct (starts_with t []) eqn:E.
    + apply starts_with_spec in E as [q E]. split; [by exists [], q|by eexists].
    + split; [by intros []|]. intros (p & q & H). destruct p; [|done].
      assert (starts_with t [] = true) by (apply starts_with_spec; by exists q). congruence.
  - cbn [strstr]. destruct (starts_with t (c :: s)) eqn:E.
    + apply starts_with_spec in E as [q E]. split; [by exists [], q|by eexists].
    + rewrite fmap_is_Some, IH. split.
      * intros (p & q & ->). by exists (c :: p), q.
      * intros (p & q & H). destruct p as [|c' p]; [|injection H as -> ->; by exists p, q].
        assert (starts_with t (c :: s) = true) by (apply starts_with_spec; by exists q). congruence.
Qed.

(** ** The network part of an address *)
Definition net24 (ip : Z) : cstring :=
  show_byte (ip_byte ip 0) ++ dot :: show_byte (ip_byte ip 1) ++ dot :: show_byte (ip_byte ip 2).

Definition same24 (ip1 ip2 : Z) : Prop := Z.shiftr ip1 8 = Z.shiftr ip2 8.

Lemma ntoa_net24 ip : inet_ntoa ip = net24 ip ++ dot :: show_byte (ip_byte ip 3).
Proof. unfold net24. rewrite inet_ntoa_eq, <- !app_assoc. cbn. by rewrite <- !app_assoc. Qed.

Lemma split_net24 ip : split_dot (net24 ip) = map show_byte [ip_byte ip 0; ip_byte ip 1; ip_byte ip 2].
Proof. unfold net24. rewrite !split_at_dot, split_digits by apply show_byte_ok. done. Qed.

Lemma show_byte_inj b1 b2 : is_byte b1 -> is_byte b2 -> show_byte b1 = show_byte b2 -> b1 = b2.
Proof. intros H1 H2 E. rewrite <- (show_byte_value b1 H1), <- (show_byte_value b2 H2). by rewrite E. Qed.

Lemma same24_bytes ip1 ip2 :
  fits 32 ip1 -> fits 32 ip2 ->
  same24 ip1 ip2 <-> ip_byte ip1 0 = ip_byte ip2 0 /\ ip_byte ip1 1 = ip_byte ip2 1 /\ ip_byte ip1 2 = ip_byte ip2 2.
Proof.
  intros H1 H2. unfold same24. rewrite (word_bytes ip1 H1), (word_bytes ip2 H2) at 1.
  pose proof (ip_byte_bound ip1) as B1. pose proof (ip_byte_bound ip2) as B2.
  pose proof (B1 0). pose proof (B1 1). pose proof (B1 2). pose proof (B1 3).
  pose proof (B2 0). pose proof (B2 1). pose proof (B2 2). pose proof (B2 3).
  rewrite !Z.shiftr_div_pow2 by lia. unfold word. split; intros; Z.div_mod_to_equations; lia.
Qed.

Lemma net24_inj ip1 ip2 :
  fits 32 ip1 -> fits 32 ip2 -> net24 ip1 = net24 ip2 <-> same24 ip1 ip2.
Proof.
  intros H1 H2. rewrite same24_bytes by done. split.
  - intros E%(f_equal split_dot). rewrite !split_net24 in E. injection E as E0 E1 E2.
    repeat split; (eapply show_byte_inj; [apply ip_byte_bound|apply ip_byte_bound|done]).
  - intros (E0 & E1 & E2). unfold net24. by rewrite E0, E1, E2.
Qed.

Lemma cut_digits s t k : Forall is_digit s -> cut_third_dot k (s ++ t) = s ++ cut_third_dot k t.
Proof.
  induction 1 as [|c s Hc _ IH]; [done|]. cbn.
  rewrite (proj2 (Z.eqb_neq c dot) (digit_not_dot _ Hc)). by rewrite IH.
Qed.

Lemma cut_ntoa ip : cut_third_dot 0 (inet_ntoa ip) = net24 ip.
Proof.
  rewrite inet_ntoa_eq. unfold net24. rewrite cut_digits by apply show_byte_ok. cbn [cut_third_dot].
  rewrite Z.eqb_refl. change (0 + 1 =? 3) with false. cbn. rewrite cut_digits by apply show_byte_ok.
  do 3 f_equal. cbn. rewrite cut_digits by apply show_byte_ok. cbn. by rewrite app_nil_r.
Qed.

Lemma issamesubnet_eq wan ip :
  issamesubnet wan (inet_ntoa ip) =
  (valid ← isvalidip wan;
   Some ((valid : bool) && match strstr wan (net24 ip) with Some _ => true | None => false end)).
Proof.
  unfold issamesubnet. rewrite strlcpy_ntoa, cut_ntoa by lia.
  destruct (isvalidip wan) as [[]|]; done.
Qed.

Lemma same24_found w l :
  fits 32 w -> fits 32 l -> same24 w l -> is_Some (strstr (inet_ntoa w) (net24 l)).
Proof.
  intros Hw Hl Hs. apply strstr_spec. exists [], (dot :: show_byte (ip_byte w 3)).
  rewrite <- (proj2 (net24_inj w l Hw Hl) Hs). apply ntoa_net24.
Qed.

(** ** Classes *)
Definition class_of (b : Z) : Z :=
  if (1 <=? b) && (b <=? 126) then 65
  else if (128 <=? b) && (b <=? 191) then 66
  else if (192 <=? b) && (b <=? 223) then 67
  else if (224 <=? b) && (b <=? 239) then 68
  else 69.

(** The array holds, behind the [n] characters about to be written, a character
    that does not continue a number. *)
Definition ends_number (temp : mem) (n : nat) : Prop :=
  (n < length temp)%nat /\ exists c, temp !! n = Some (Some c) /\ ~ is_digit c.

Lemma copy_octet_digits s : forall pre mid post rest,
  Forall is_digit s -> length mid = length s ->
  copy_octet (pre ++ mid ++ post) (Z.of_nat (length pre)) (s ++ dot :: rest) = Some (pre ++ map Some s ++ post).
Proof.
  induction s as [|c s IH]; intros pre mid post rest Hs Hm.
  { by destruct mid. }
  destruct mid as [|x mid]; [done|]. inversion Hs as [|? ? Hc Hr]; subst.
  cbn [app copy_octet map]. rewrite (proj2 (Z.eqb_neq c dot) (digit_not_dot _ Hc)).
  rewrite store_after. cbn [mbind option_bind].
  specialize (IH (pre ++ [Some c]) mid post rest Hr ltac:(by injection Hm)).
  rewrite length_app, Nat2Z.inj_add, <- !app_assoc in IH. exact IH.
Qed.

Lemma ends_number_split temp n :
  ends_number temp n -> exists mid c post, temp = mid ++ Some c :: post /\ length mid = n /\ ~ is_digit c.
Proof.
  intros [Hl (c & Hc & Hd)]. exists (take n temp), c, (drop (S n) temp).
  split; [symmetry; by apply take_drop_middle|]. split; [rewrite length_take; lia|done].
Qed.

Lemma findClass_byte temp erange b rest :
  is_byte b -> ends_number temp (length (show_byte b)) ->
  findClass temp erange (show_byte b ++ dot :: rest) = Some (class_of b).
Proof.
  intros Hb Ht. destruct (ends_number_split _ _ Ht) as (mid & c & post & -> & Hm & Hc).
  unfold findClass.
  pose proof (copy_octet_digits (show_byte b) [] mid (Some c :: post) rest) as E. cbn [app length] in E.
  change (Z.of_nat 0) with 0 in E. rewrite E; [|by apply show_byte_digits|done]. cbn [mbind option_bind].
  rewrite strtoul_digits by (apply show_byte_nonempty || (by apply show_byte_digits) || done).
  rewrite show_byte_value by done. cbn [mbind option_bind]. unfold is_byte in Hb.
  rewrite Z.min_l by (unfold ULONG_MAX; lia). rewrite s32_small by lia.
  rewrite uwrap_small by lia. replace (b =? ULONG_MAX) with false by (unfold ULONG_MAX; lia).
  cbn [andb]. unfold class_of. f_equal.
  replace (b >=? 1) with (1 <=? b) by lia. replace (b >=? 128) with (128 <=? b) by lia.
  replace (b >=? 192) with (192 <=? b) by lia. by replace (b >=? 224) with (224 <=? b) by lia.
Qed.

(** ** Network and host part *)
Lemma copy_dots_spec n s : forall pre mid post d rest,
  s <> [] -> (length mid = length s)%nat -> d + Z.of_nat (dots (tl s)) + 1 = n ->
  copy_dots (pre ++ mid ++ post) (Z.of_nat (length pre)) d n (s ++ dot :: rest) =
  Some (pre ++ map Some s ++ post, dot :: rest).
Proof.
  induction s as [|c s IH]; intros pre mid post d rest Hne Hm Hd; [done|].
  destruct mid as [|x mid]; [done|]. injection Hm as Hm. cbn [app copy_dots map tl] in *.
  rewrite store_after. cbn [mbind option_bind].
  specialize (IH (pre ++ [Some c]) mid post).
  rewrite length_app, Nat2Z.inj_add, <- !app_assoc in IH. cbn [app] in IH.
  change (Z.of_nat (length [Some c])) with 1 in IH.
  destruct s as [|c' s].
  - cbn [app char_at hd]. rewrite Z.eqb_refl. cbn [dots] in Hd.
    replace (d + 1 <? n) with false by lia. by destruct mid.
  - cbn [app char_at hd]. cbn [dots] in Hd. cbn [tl] in IH. pose proof (Nat2Z.is_nonneg (dots s)).
    destruct (c' =? dot).
    + replace (d + 1 <? n) with true by lia. apply IH; [done|done|lia].
    + replace (d <? n) with true by lia. apply IH; [done|done|lia].
Qed.

Lemma copy_to_end_spec s : forall pre mid post,
  length mid = length s ->
  copy_to_end (pre ++ mid ++ post) (Z.of_nat (length pre)) s = Some (pre ++ map Some s ++ post).
Proof.
  induction s as [|c s IH]; intros pre mid post Hm; [by destruct mid|].
  destruct mid as [|x mid]; [done|]. injection Hm as Hm. cbn [app copy_to_end map].
  rewrite store_after. cbn [mbind option_bind]. specialize (IH (pre ++ [Some c]) mid post Hm).
  rewrite length_app, Nat2Z.inj_add, <- !app_assoc in IH. exact IH.
Qed.

Lemma string_at_c s m : c_string s -> string_at (map Some s ++ Some 0 :: m) = Some s.
Proof.
  induction 1 as [|c s Hc _ IH]; [done|]. cbn. rewrite (proj2 (Z.eqb_neq c 0)) by done. by rewrite IH.
Qed.

(** The cleared buffer, split behind [n] characters. *)
Lemma clear12_split buf n :
  (n <= 11)%nat -> exists m, clear12 buf = replicate n (Some 0) ++ Some 0 :: m.
Proof.
  intros Hn. exists (replicate (11 - n) (Some 0) ++ drop 12 buf). unfold clear12.
  replace 12%nat with (n + S (11 - n))%nat at 1 by lia. rewrite replicate_add. by rewrite <- app_assoc.
Qed.

Lemma net24_c_string ip : c_string (net24 ip).
Proof.
  unfold net24, c_string.
  repeat first [apply Forall_cons; split | apply digits_c_string, show_byte_ok | apply Forall_app; split | done].
Qed.

Lemma net24_dots ip : dots (tl (net24 ip)) = 2%nat.
Proof.
  assert (dots (net24 ip) = 2%nat) as H.
  { unfold net24. rewrite dots_app. cbn [dots]. rewrite dots_app. cbn [dots].
    by rewrite Z.eqb_refl, !dots_digits by apply show_byte_ok. }
  pose proof (show_byte_ok ip 0) as Hd. unfold net24 in *.
  destruct (show_byte (ip_byte ip 0)) as [|c r] eqn:E; [by apply show_byte_nonempty in E|].
  inversion Hd; subst. cbn [app tl dots] in *. by rewrite (proj2 (Z.eqb_neq c dot)) in H by by apply digit_not_dot.
Qed.

Lemma net24_length ip : (5 <= length (net24 ip) <= 11)%nat.
Proof.
  unfold net24. rewrite length_app. cbn [length]. rewrite length_app. cbn [length].
  pose proof (fun i => show_byte_length (ip_byte ip i)) as H.
  pose proof (H 0). pose proof (H 1). pose proof (H 2). lia.
Qed.

(** An address of class C is taken apart behind its third dot. *)
Lemma separate_c ip var :
  exists m1 m2, separate (inet_ntoa ip) 67 var =
    Some (NwHost (map Some (net24 ip) ++ Some 0 :: m1) (map Some (show_byte (ip_byte ip 3)) ++ Some 0 :: m2)).
Proof.
  destruct (clear12_split (network var) (length (net24 ip))) as [m1 E1]; [apply net24_length|].
  destruct (clear12_split (host var) (length (show_byte (ip_byte ip 3)))) as [m2 E2].
  { pose proof (show_byte_length (ip_byte ip 3)). lia. }
  exists m1, m2. unfold separate. rewrite ntoa_net24, E1, E2. cbn [Z.eqb].
  change (67 =? 65) with false. change (67 =? 66) with false. change (67 =? 67) with true. cbv iota.
  pose proof (copy_dots_spec 3 (net24 ip) [] (replicate (length (net24 ip)) (Some 0)) (Some 0 :: m1) 0
    (show_byte (ip_byte ip 3))) as E. cbn [app length] in E. change (Z.of_nat 0) with 0 in E.
  rewrite E; [| |by rewrite length_replicate|by rewrite net24_dots].
  2: { intros E0. pose proof (net24_length ip) as H. rewrite E0 in H. cbn in H. lia. }
  cbn [mbind option_bind tl].
  pose proof (copy_to_end_spec (show_byte (ip_byte ip 3)) []
    (replicate (length (show_byte (ip_byte ip 3))) (Some 0)) (Some 0 :: m2)) as E'.
  cbn [app length] in E'. change (Z.of_nat 0) with 0 in E'. by rewrite E' by by rewrite length_replicate.
Qed.

Lemma class_c b : is_byte b -> class_of b = 67 <-> 192 <= b <= 223.
Proof. unfold class_of, is_byte. intros. repeat case_match; bool_lia; lia. Qed.

(** Two addresses of a network of class C are ordered as their last octets. *)
Lemma same24_order ip1 ip2 :
  fits 32 ip1 -> fits 32 ip2 -> same24 ip1 ip2 -> ip1 <= ip2 <-> ip_byte ip1 3 <= ip_byte ip2 3.
Proof.
  intros H1 H2 Hs. apply same24_bytes in Hs as (E0 & E1 & E2); [|done|done].
  rewrite (word_bytes ip1 H1), (word_bytes ip2 H2) at 1. rewrite E0, E1, E2. unfold word. lia.
Qed.

Lemma class_of_range b : In (class_of b) [65; 66; 67; 68; 69].
Proof. unfold class_of. cbn. repeat case_match; tauto. Qed.

Lemma bcast_word h k :
  fits 32 h -> 0 <= k < 32 -> Z.lor h (u32 (Z.lnot (prefix_mask k))) = Z.shiftl (Z.shiftr h k) k + (2 ^ k - 1).
Proof.
  intros Hh Hk. assert (u32 (Z.lnot (prefix_mask k)) = Z.ones k) as ->.
  { apply Z.bits_inj'. intros n Hn. destruct (Z.ltb_spec n 32).
    - rewrite lnot_bits, prefix_mask_bits, Z.testbit_ones by lia. lia.
    - rewrite (testbit_high 32) by (try lia; apply uwrap_range; lia).
      rewrite Z.testbit_ones by lia. lia. }
  assert (Z.lor h (Z.ones k) = Z.lor (Z.shiftl (Z.shiftr h k) k) (Z.ones k)) as ->.
  { apply Z.bits_inj'. intros n Hn. rewrite !Z.lor_spec, Z.testbit_ones, Z.shiftl_spec by lia.
    destruct (Z.ltb_spec n k).
    - replace (0 <=? n) with true by lia. by rewrite !orb_true_r.
    - rewrite Z.shiftr_spec by lia. rewrite andb_false_r, !orb_false_r. f_equal. lia. }
  assert (0 <= Z.ones k < 2 ^ k) as Ho by (rewrite Z.ones_equiv; lia).
  rewrite lor_shiftl_add by lia. rewrite Z.ones_equiv, Z.shiftl_mul_pow2 by lia. lia.
Qed.

Lemma change_octal_facts (ip : Z) :
  fits 32 ip ->
  let r := change_octal ip in
  r = next_subnet (ip_byte ip 0) (ip_byte ip 1) (ip_byte ip 2) (ip_byte ip 3) /\
  fits 32 r /\
  (r = 0 <-> 254 <= ip_byte ip 0 /\ 254 <= ip_byte ip 1 /\ 254 <= ip_byte ip 2) /\
  (r <> 0 -> ~ same24 ip r).
Proof.
  intros Hip. pose proof (ip_byte_bound ip) as B.
  pose proof (B 0) as B0. pose proof (B 1) as B1. pose proof (B 2) as B2. pose proof (B 3) as B3.
  assert (change_octal ip = next_subnet (ip_byte ip 0) (ip_byte ip 1) (ip_byte ip 2) (ip_byte ip 3)) as E.
  { rewrite (word_bytes ip Hip) at 1. by apply change_octal_word. }
  pose proof (word_bytes ip Hip) as Hw. cbv zeta. rewrite E. split; [done|]. clear B E. revert Hw B0 B1 B2 B3.
  unfold same24. rewrite !Z.shiftr_div_pow2 by lia.
  generalize (ip_byte ip 0) (ip_byte ip 1) (ip_byte ip 2) (ip_byte ip 3).
  intros a b c d -> Ha Hb Hc Hd. unfold next_subnet, word, fits.
  repeat case_match; bool_lia; repeat split; intros; Z.div_mod_to_equations; lia.
Qed.

(** ** Properties *)

(** Isvalidip and isvalid_subnetip accept exactly the strings of four decimal
    numbers up to 255 (one to three digits, the last one up to four) that are not
    of network 0 (or 127) and whose last octet is not that of a network or a
    broadcast address, for every string of at most seven dots. *)
Theorem isvalidip_ok (addr : cstring) :
  c_string addr -> addr <> [] -> (dots addr < 8)%nat ->
  isvalidip addr = Some (unicast_quad addr) /\ isvalid_subnetip addr = Some (subnet_quad addr).
Proof. intros. split; [by apply isvalidip_quad|by apply isvalid_subnetip_quad]. Qed.

Lemma isvalidip_ok_witness :
  isvalidip (str "192.168.0.1") = Some (unicast_quad (str "192.168.0.1")) /\
  isvalid_subnetip (str "192.168.0.1") = Some (subnet_quad (str "192.168.0.1")).
Proof. apply isvalidip_ok; [repeat constructor; done|done|vm_compute; lia]. Defined.

(** An address survives being printed by inet_ntoa and read by inet_aton; the
    text fits the buffers of the configuration and isvalidip judges it by its
    octets. *)
Theorem address_roundtrip (ip : Z) :
  fits 32 ip ->
  inet_aton (inet_ntoa ip) = Some ip /\
  strlcpy (inet_ntoa ip) IPADDR_SIZE = inet_ntoa ip /\
  isvalidip (inet_ntoa ip) = Some (unicast ip).
Proof.
  intros Hip. split; [by apply aton_ntoa|]. split; [by apply strlcpy_ntoa|apply isvalidip_ntoa].
Qed.

Lemma address_roundtrip_witness :
  inet_aton (inet_ntoa 0xC0A80001) = Some 0xC0A80001 /\
  strlcpy (inet_ntoa 0xC0A80001) IPADDR_SIZE = inet_ntoa 0xC0A80001 /\
  isvalidip (inet_ntoa 0xC0A80001) = Some (unicast 0xC0A80001).
Proof. apply address_roundtrip. unfold fits. lia. Defined.

(** Isvalid_mask accepts exactly the masks of one to thirty-one leading ones,
    and gen_broadcast_addr gives the last address of the network they define. *)
Theorem masks_ok (m h : Z) :
  fits 32 m -> fits 32 h ->
  (isvalid_mask (inet_ntoa m) = true <-> exists k, 1 <= k <= 31 /\ m = prefix_mask k) /\
  (forall k, 0 <= k < 32 ->
   gen_broadcast_addr (inet_ntoa h) (inet_ntoa (prefix_mask k)) =
   Some (inet_ntoa (Z.shiftl (Z.shiftr h k) k + (2 ^ k - 1)))).
Proof.
  intros Hm Hh. split.
  - unfold isvalid_mask. rewrite aton_ntoa by done. split.
    + case_match eqn:E; [done|]. intros Ht. bool_lia. rewrite mask_test in Ht by done.
      destruct (contiguous_mask m Hm) as (k & Hk & ->); [bool_lia|done|].
      exists k. split; [|done]. destruct (Z.eq_dec k 0) as [->|]; [done|lia].
    + intros (k & Hk & ->). pose proof (prefix_mask_fits k ltac:(lia)) as Hf.
      assert (2 ^ 1 <= 2 ^ k <= 2 ^ 31) by (split; apply Z.pow_le_mono_r; lia).
      case_match eqn:E.
      { unfold prefix_mask in E. bool_lia. }
      apply Z.eqb_eq. rewrite mask_test by done. intros n Hn. apply prefix_mask_ones; lia.
  - intros k Hk. unfold gen_broadcast_addr. rewrite !aton_ntoa by (done || by apply prefix_mask_fits).
    rewrite strlcpy_ntoa by done. by rewrite bcast_word.
Qed.

Lemma masks_ok_witness :
  (isvalid_mask (inet_ntoa 0xFFFFFF00) = true <-> exists k, 1 <= k <= 31 /\ 0xFFFFFF00 = prefix_mask k) /\
  (forall k, 0 <= k < 32 ->
   gen_broadcast_addr (inet_ntoa 0xC0A80001) (inet_ntoa (prefix_mask k)) =
   Some (inet_ntoa (Z.shiftl (Z.shiftr 0xC0A80001 k) k + (2 ^ k - 1)))).
Proof. apply masks_ok; unfold fits; lia. Defined.

(** Change_octal moves an address to another network of 24 bits: it counts up
    the third octet, or when that is 254 or more the second and then the first,
    and clears what it has counted over; it gives 0 exactly when all three are 254
    or more. *)
Theorem change_octal_ok (ip : Z) :
  fits 32 ip ->
  let r := change_octal ip in
  r = next_subnet (ip_byte ip 0) (ip_byte ip 1) (ip_byte ip 2) (ip_byte ip 3) /\
  fits 32 r /\
  (r = 0 <-> 254 <= ip_byte ip 0 /\ 254 <= ip_byte ip 1 /\ 254 <= ip_byte ip 2) /\
  (r <> 0 -> ~ same24 ip r).
Proof. apply change_octal_facts. Qed.

Lemma change_octal_ok_witness :
  let r := change_octal 0xC0A80001 in
  r = next_subnet 192 168 0 1 /\ fits 32 r /\
  (r = 0 <-> 254 <= 192 /\ 254 <= 168 /\ 254 <= 0) /\ (r <> 0 -> ~ same24 0xC0A80001 r).
Proof. apply (change_octal_ok 0xC0A80001). unfold fits. lia. Defined.

(** Issamesubnet reports a conflict exactly when the WAN address is valid and
    contains the first three octets of the LAN address as a substring; so it never
    misses two addresses of one network of 24 bits. *)
Theorem issamesubnet_ok (wan : cstring) (w l : Z) :
  fits 32 w -> fits 32 l -> c_string wan -> wan <> [] -> (dots wan < 8)%nat ->
  (issamesubnet wan (inet_ntoa l) = Some true <->
   unicast_quad wan = true /\ exists p q, wan = p ++ net24 l ++ q) /\
  (unicast w = true -> same24 w l -> issamesubnet (inet_ntoa w) (inet_ntoa l) = Some true).
Proof.
  intros Hw Hl Hs Hne Hd. rewrite !issamesubnet_eq, isvalidip_quad, isvalidip_ntoa by done. split.
  - rewrite <- strstr_spec. cbn [mbind option_bind]. destruct (unicast_quad wan); cbn [andb].
    + destruct (strstr wan (net24 l)); cbn; split; try done; by intros [_ []].
    + split; [done|by intros [? _]].
  - intros -> Hsame. cbn [mbind option_bind andb].
    by destruct (same24_found w l Hw Hl Hsame) as [? ->].
Qed.

Lemma issamesubnet_ok_witness :
  (issamesubnet (str "192.168.0.7") (inet_ntoa 0xC0A80001) = Some true <->
   unicast_quad (str "192.168.0.7") = true /\ exists p q, str "192.168.0.7" = p ++ net24 0xC0A80001 ++ q) /\
  (unicast 0xC0A80002 = true -> same24 0xC0A80002 0xC0A80001 ->
   issamesubnet (inet_ntoa 0xC0A80002) (inet_ntoa 0xC0A80001) = Some true).
Proof. apply issamesubnet_ok; unfold fits; try lia; try done; [repeat constructor; done|vm_compute; lia]. Defined.

(** The substring test also reports addresses of different networks. *)
Theorem issamesubnet_false_alarm :
  issamesubnet (str "192.168.10.5") (inet_ntoa 0xC0A80101) = Some true /\ ~ same24 0xC0A80A05 0xC0A80101.
Proof. split; [by vm_compute|done]. Qed.

(** For addresses of class C, isvalidrange accepts exactly the ranges within
    one network of 24 bits whose start is not behind their end, as long as the
    character findClass reads without having written it is not a digit. *)
Theorem isvalidrange_ok (st : range_stack) (ip1 ip2 : Z) :
  fits 32 ip1 -> fits 32 ip2 -> 192 <= ip_byte ip1 0 <= 223 ->
  ends_number (rs_temp1 st) (length (show_byte (ip_byte ip1 0))) ->
  ends_number (rs_temp2 st) (length (show_byte (ip_byte ip2 0))) ->
  exists ok : bool, isvalidrange st (inet_ntoa ip1) (inet_ntoa ip2) = Some ok /\
    (ok = true <-> same24 ip1 ip2 /\ ip1 <= ip2).
Proof.
  intros H1 H2 Hc Ht1 Ht2. unfold isvalidrange.
  rewrite !inet_ntoa_eq, !findClass_byte by (apply ip_byte_bound || done). rewrite <- !inet_ntoa_eq.
  cbn [mbind option_bind]. rewrite (proj2 (class_c _ (ip_byte_bound ip1 0)) Hc).
  destruct (Z.eqb_spec 67 (class_of (ip_byte ip2 0))) as [Ec|Ec]; cbn [negb].
  2: { exists false. split; [done|]. split; [done|]. intros [Hs _].
       apply same24_bytes in Hs as (E0 & _); [|done|done].
       destruct Ec. symmetry. apply class_c; [apply ip_byte_bound|]. by rewrite <- E0. }
  destruct (separate_c ip1 (rs_var1 st)) as (m1 & m1' & ->).
  destruct (separate_c ip2 (rs_var2 st)) as (m2 & m2' & ->).
  cbn [mbind option_bind]. change (67 =? 67) with true. cbv iota. unfold same_network. cbn [network host].
  rewrite !string_at_c by apply net24_c_string. cbn [mbind option_bind]. unfold streq.
  case_bool_decide as E; cbn [negb].
  - apply net24_inj in E; [|done|done].
    rewrite !atoi_digits by (apply show_byte_nonempty || apply show_byte_ok || apply not_digit_nul).
    cbn [mbind option_bind]. rewrite !show_byte_value by apply ip_byte_bound.
    pose proof (ip_byte_bound ip1 3). pose proof (ip_byte_bound ip2 3).
    rewrite !Z.min_l by (unfold LONG_MAX; lia). eexists. split; [done|].
    pose proof (same24_order ip1 ip2 H1 H2 E). rewrite Z.leb_le. tauto.
  - exists false. split; [done|]. split; [done|]. intros [Hs _]. by apply net24_inj in Hs.
Qed.

(** The stack of a first call, all zeros. *)
Definition zero_stack : range_stack :=
  RangeStack (replicate 4 (Some 0)) (replicate 4 (Some 0)) (NwHost (uninit 16) (uninit 16))
    (NwHost (uninit 16) (uninit 16)) false.

Lemma zero_ends n : (n < 4)%nat -> ends_number (replicate 4 (Some 0)) n.
Proof.
  intros. split; [by rewrite length_replicate|]. exists 0. split; [by apply lookup_replicate_2|].
  apply not_digit_nul.
Qed.

Lemma isvalidrange_ok_witness :
  exists ok : bool, isvalidrange zero_stack (inet_ntoa 0xC0A80002) (inet_ntoa 0xC0A800C8) = Some ok /\
    (ok = true <-> same24 0xC0A80002 0xC0A800C8 /\ 0xC0A80002 <= 0xC0A800C8).
Proof.
  apply isvalidrange_ok; [unfold fits; lia|unfold fits; lia|vm_compute; split; done| |];
    apply zero_ends; vm_compute; lia.
Defined.

(** For class A the numbers isvalidrange compares, the host part with zeros in
    place of its dots, are not in the order of the addresses: it refuses the range
    10.0.2.100 to 10.0.10.1 and accepts 10.0.2.1 to 10.0.1.100. *)
Theorem isvalidrange_class_a :
  isvalidrange zero_stack (str "10.0.2.100") (str "10.0.10.1") = Some false /\
  isvalidrange zero_stack (str "10.0.2.1") (str "10.0.1.100") = Some true.
Proof. by vm_compute. Qed.

(** The class of an address depends on a character of the stack: 19.0.0.1 is of
    class A when it is a NUL and of class C when it is the digit 5. *)
Theorem findClass_stack :
  findClass [Some 0; Some 0; Some 0; Some 0] false (str "19.0.0.1") = Some 65 /\
  findClass [Some 0; Some 0; Some 53; Some 0] false (str "19.0.0.1") = Some 67.
Proof. by vm_compute. Qed.
