(* ===== verification/NwStruct.v ===== *)
(** * The configuration structure and its layout in flash

    The structures of ecosap_nw_http.h as records, and for each of them the object
    representation the big-endian MIPS compiler gives it (o32: words of four bytes,
    aligned). A [codec] is such a representation: how many bytes, which ones, and
    how they are read back. A [char] array that holds a string is that string; the
    bytes behind its NUL, which no code looks at, are written as zeros. *)
From S2P Require Import Prelude.
From S2P Require Import CStr.

Definition CONFIG_MAGIC_NUM : Z := 0x210818.
Definition CONFIG_WLAN_MAGIC_NUM : Z := 98765.
Definition FLASH_IPFW_INDEX_SIZE : nat := 5.
Definition MAX_IPFW_RULE_ARGC : nat := 16.
Definition MAX_BRINTERFACES : nat := 10.

(** enum conn_type *)
Definition DHCP : Z := 0.
Definition PPPoE : Z := 1.
Definition STATIC_IP : Z := 2.

Record bridge_conf := BridgeConf {
  inaddr_ip : Z; inaddr_mas : Z; inaddr_gw : Z; inaddr_broad : Z }.

Record wan_config := WanConfig {
  w_IPAddr : cstring; w_Mask : cstring; w_Gateway : cstring; w_DNS : cstring; w_ADNS : cstring;
  w_Broadcast : cstring; w_Server : cstring }.

Record lan_config := LanConfig { l_IPAddr : cstring; l_Mask : cstring; l_Broadcast : cstring }.

Record pppoe_config := PppoeConfig {
  Username : cstring; Passwd : cstring; MTU : Z; Service_Name : cstring; Server_Name : cstring;
  MAX_Idle_Time : Z }.

Record dhcp_config := DhcpConfig {
  dhcps_enable : Z; DHCP_From : cstring; DHCP_To : cstring; Lease_Time : Z }.

Record ipfw_rule := IpfwRule { ipfw_rules : list cstring; ipfw_argc : Z; is_deleted : Z }.

Record vpnpt_config := VpnptConfig { is_pptp_enable : Z; is_l2tp_enable : Z; is_ipsec_enable : Z }.

Record br_info := BrInfo { br_name : cstring; br_intno : Z; br_interfaces : list cstring }.

Record vlan_config := VlanConfig { vlan_flag : Z; is_tagged : Z; inet_value : Z; iptv_value : Z }.

Record dmz_config := DmzConfig { dmz_status : Z; dmz_host : cstring }.

Record wlan_ap := WlanAp {
  ap_if_idx : Z; ap_ssid : cstring; ap_channel : Z; ap_bw : Z; ap_wlan_mode : cstring;
  ap_security : cstring; ap_passphrase : cstring; ap_beacon_int : Z; ap_wds : Z }.

Record wlan_iptv := WlanIptv {
  iptv_ssid : cstring; iptv_channel : Z; iptv_security : cstring; iptv_passphrase : cstring;
  iptv_beacon_int : Z }.

Record wlan_sta := WlanSta {
  sta_if_idx : Z; sta_ssid : cstring; sta_security : cstring; sta_passphrase : cstring; sta_wds : Z }.

Record wlan_default := WlanDefault {
  wlan_magic : Z; wlan_mode : cstring; ap_config : wlan_ap; vlan_iptv_ap_config : wlan_iptv;
  sta_config : wlan_sta }.

(** The members up to the WAN configuration. *)
Record conf_head := ConfHead {
  mac_addr : list byte; conf_pad : list byte; Magic_Number : Z; Connection_Type : Z; lan_status : Z;
  wan_status : Z; is_flashrule_full : Z }.

(** [ECOSAP_CONFIG_STRUCT] *)
Record ecosap_config := EcosapConfig {
  head : conf_head; vlan : vlan_config; vpnpt : vpnpt_config; wan_addrs : wan_config;
  pppoe : pppoe_config; bridge : bridge_conf; dhcp_server : dhcp_config; bridge_info : br_info;
  ipfw : list ipfw_rule; dmz : dmz_config; igmp_status : Z; reserved : list byte; wlan : wlan_default }.

(** ** Object representations *)
Record codec (A : Type) := Codec {
  size : nat;
  enc : A -> list byte;
  dec : list byte -> A;
  fit : A -> bool }.
Arguments Codec {A}.
Arguments size {A}.
Arguments enc {A}.
Arguments dec {A}.
Arguments fit {A}.

(** Unsigned integers of [n] bytes, most significant first. *)
Fixpoint be_bytes (n : nat) (x : Z) : list byte :=
  match n with O => [] | S n' => be_bytes n' (x / 256) ++ [x mod 256] end.
Definition be_value (bs : list byte) : Z := fold_left (fun v b => v * 256 + b) bs 0.

Definition c_uint (n : nat) : codec Z :=
  Codec n (be_bytes n) (fun bs => be_value (take n bs)) (fun x => (0 <=? x) && (x <? 2 ^ (8 * Z.of_nat n))).

(** int and long int *)
Definition c_int : codec Z :=
  Codec 4 (fun x => be_bytes 4 (u32 x)) (fun bs => s32 (be_value (take 4 bs))) 
    (fun x => (- 2 ^ 31 <=? x) && (x <? 2 ^ 31)).

(** Raw bytes. *)
Definition c_bytes (n : nat) : codec (list byte) :=
  Codec n (fun bs => bs) (take n) (fun bs => Nat.eqb (length bs) n && forallb (fun b => (0 <=? b) && (b <? 256)) bs).

(** The characters in front of the first NUL. *)
Fixpoint until_nul (bs : list byte) : cstring :=
  match bs with [] => [] | b :: bs' => if b =? 0 then [] else b :: until_nul bs' end.

(** char[n] that holds a string. *)
Definition c_chars (n : nat) : codec cstring :=
  Codec n (fun s => s ++ replicate (n - length s) 0) (fun bs => until_nul (take n bs))
    (fun s => Nat.ltb (length s) n && forallb (fun c => (0 <? c) && (c <? 256)) s).

(** Bytes the compiler inserts for alignment. *)
Definition c_pad (n : nat) : codec unit :=
  Codec n (fun _ => replicate n 0) (fun _ => tt) (fun _ => true).

Definition c_pair {A B} (ca : codec A) (cb : codec B) : codec (A * B) :=
  Codec (size ca + size cb) (fun '(a, b) => enc ca a ++ enc cb b)
    (fun bs => (dec ca bs, dec cb (drop (size ca) bs))) (fun '(a, b) => fit ca a && fit cb b).

(** An array of [n] elements. *)
Fixpoint dec_many {A} (c : codec A) (n : nat) (bs : list byte) : list A :=
  match n with O => [] | S n' => dec c bs :: dec_many c n' (drop (size c) bs) end.

Definition c_array {A} (n : nat) (c : codec A) : codec (list A) :=
  Codec (n * size c) (fun l => l ≫= enc c) (dec_many c n) (fun l => Nat.eqb (length l) n && forallb (fit c) l).

(** A structure, given as the tuple of its members. *)
Definition c_struct {A B} (c : codec A) (of_tuple : A -> B) (to_tuple : B -> A) : codec B :=
  Codec (size c) (fun b => enc c (to_tuple b)) (fun bs => of_tuple (dec c bs)) (fun b => fit c (to_tuple b)).

#[local] Infix "∗" := c_pair (at level 60, right associativity).

Definition u32c : codec Z := c_uint 4.

Definition bridge_codec : codec bridge_conf :=
  c_struct (u32c ∗ u32c ∗ u32c ∗ u32c) (fun '(a, (b, (c, d))) => BridgeConf a b c d)
    (fun x => (inaddr_ip x, (inaddr_mas x, (inaddr_gw x, inaddr_broad x)))).

Definition wan_codec : codec wan_config :=
  let s := c_chars 16 in
  c_struct (s ∗ s ∗ s ∗ s ∗ s ∗ s ∗ s) (fun '(a, (b, (c, (d, (e, (f, g)))))) => WanConfig a b c d e f g)
    (fun x => (w_IPAddr x, (w_Mask x, (w_Gateway x, (w_DNS x, (w_ADNS x, (w_Broadcast x, w_Server x))))))).

Definition pppoe_codec : codec pppoe_config :=
  c_struct (c_chars 32 ∗ c_chars 32 ∗ c_uint 2 ∗ c_chars 16 ∗ c_chars 16 ∗ c_pad 2 ∗ u32c)
    (fun '(a, (b, (c, (d, (e, (_, f)))))) => PppoeConfig a b c d e f)
    (fun x => (Username x, (Passwd x, (MTU x, (Service_Name x, (Server_Name x, (tt, MAX_Idle_Time x))))))).

Definition dhcp_codec : codec dhcp_config :=
  c_struct (u32c ∗ c_chars 16 ∗ c_chars 16 ∗ u32c) (fun '(a, (b, (c, d))) => DhcpConfig a b c d)
    (fun x => (dhcps_enable x, (DHCP_From x, (DHCP_To x, Lease_Time x)))).

Definition ipfw_codec : codec ipfw_rule :=
  c_struct (c_array MAX_IPFW_RULE_ARGC (c_chars 24) ∗ u32c ∗ u32c) (fun '(a, (b, c)) => IpfwRule a b c)
    (fun x => (ipfw_rules x, (ipfw_argc x, is_deleted x))).

Definition vpnpt_codec : codec vpnpt_config :=
  c_struct (u32c ∗ u32c ∗ u32c) (fun '(a, (b, c)) => VpnptConfig a b c)
    (fun x => (is_pptp_enable x, (is_l2tp_enable x, is_ipsec_enable x))).

Definition br_codec : codec br_info :=
  c_struct (c_chars 16 ∗ c_uint 1 ∗ c_array MAX_BRINTERFACES (c_chars 16)) (fun '(a, (b, c)) => BrInfo a b c)
    (fun x => (br_name x, (br_intno x, br_interfaces x))).

Definition vlan_codec : codec vlan_config :=
  c_struct (u32c ∗ u32c ∗ u32c ∗ u32c) (fun '(a, (b, (c, d))) => VlanConfig a b c d)
    (fun x => (vlan_flag x, (is_tagged x, (inet_value x, iptv_value x)))).

Definition dmz_codec : codec dmz_config :=
  c_struct (u32c ∗ c_chars 16) (fun '(a, b) => DmzConfig a b) (fun x => (dmz_status x, dmz_host x)).

Definition ap_codec : codec wlan_ap :=
  c_struct (c_int ∗ c_chars 36 ∗ u32c ∗ u32c ∗ c_chars 16 ∗ c_chars 16 ∗ c_chars 65 ∗ c_pad 3 ∗ c_int ∗ c_int)
    (fun '(a, (b, (c, (d, (e, (f, (g, (_, (h, i))))))))) => WlanAp a b c d e f g h i)
    (fun x => (ap_if_idx x, (ap_ssid x, (ap_channel x, (ap_bw x, (ap_wlan_mode x, (ap_security x,
              (ap_passphrase x, (tt, (ap_beacon_int x, ap_wds x)))))))))).

Definition iptv_codec : codec wlan_iptv :=
  c_struct (c_chars 36 ∗ u32c ∗ c_chars 16 ∗ c_chars 65 ∗ c_pad 3 ∗ c_int)
    (fun '(a, (b, (c, (d, (_, e))))) => WlanIptv a b c d e)
    (fun x => (iptv_ssid x, (iptv_channel x, (iptv_security x, (iptv_passphrase x, (tt, iptv_beacon_int x)))))).

Definition sta_codec : codec wlan_sta :=
  c_struct (c_int ∗ c_chars 36 ∗ c_chars 16 ∗ c_chars 64 ∗ c_int)
    (fun '(a, (b, (c, (d, e)))) => WlanSta a b c d e)
    (fun x => (sta_if_idx x, (sta_ssid x, (sta_security x, (sta_passphrase x, sta_wds x))))).

Definition wlan_codec : codec wlan_default :=
  c_struct (u32c ∗ c_chars 16 ∗ ap_codec ∗ iptv_codec ∗ sta_codec)
    (fun '(a, (b, (c, (d, e)))) => WlanDefault a b c d e)
    (fun x => (wlan_magic x, (wlan_mode x, (ap_config x, (vlan_iptv_ap_config x, sta_config x))))).

Definition head_codec : codec conf_head :=
  c_struct (c_bytes 24 ∗ c_bytes 8 ∗ u32c ∗ u32c ∗ u32c ∗ u32c ∗ u32c)
    (fun '(a, (b, (c, (d, (e, (f, g)))))) => ConfHead a b c d e f g)
    (fun x => (mac_addr x, (conf_pad x, (Magic_Number x, (Connection_Type x, (lan_status x,
              (wan_status x, is_flashrule_full x))))))).

Definition conf_codec : codec ecosap_config :=
  c_struct (head_codec ∗ vlan_codec ∗ vpnpt_codec ∗ wan_codec ∗ pppoe_codec ∗ bridge_codec ∗ dhcp_codec ∗
            br_codec ∗ c_pad 3 ∗ c_array FLASH_IPFW_INDEX_SIZE ipfw_codec ∗ dmz_codec ∗ u32c ∗ c_bytes 24 ∗
            wlan_codec)
    (fun '(a, (b, (c, (d, (e, (f, (g, (h, (_, (i, (j, (k, (l, m))))))))))))) =>
       EcosapConfig a b c d e f g h i j k l m)
    (fun x => (head x, (vlan x, (vpnpt x, (wan_addrs x, (pppoe x, (bridge x, (dhcp_server x,
              (bridge_info x, (tt, (ipfw x, (dmz x, (igmp_status x, (reserved x, wlan x)))))))))))))).

(** [sizeof(ECOSAP_CONFIG_STRUCT)] *)
Definition sizeof_config : nat := size conf_codec.

(** ** Every representation is read back *)
Class CodecOk {A} (c : codec A) : Prop := {
  enc_length a : fit c a = true -> length (enc c a) = size c;
  enc_bytes a : fit c a = true -> Forall is_byte (enc c a);
  dec_enc a rest : fit c a = true -> dec c (enc c a ++ rest) = a }.

Lemma forallb_Forall {A} (f : A -> bool) l : forallb f l = true -> Forall (fun x => f x = true) l.
Proof. rewrite forallb_forall, Forall_forall. intros H x Hx. by apply H, list_elem_of_In. Qed.

Lemma be_bytes_length n x : length (be_bytes n x) = n.
Proof. revert x. induction n as [|n IH]; intros x; [done|]. cbn. rewrite length_app, IH. cbn. lia. Qed.

Lemma be_bytes_byte n x : Forall is_byte (be_bytes n x).
Proof.
  revert x. induction n as [|n IH]; intros x; [constructor|]. cbn. apply Forall_app. split; [done|].
  constructor; [|constructor]. unfold is_byte. apply Z.mod_pos_bound. lia.
Qed.

Lemma be_value_bytes n x : 0 <= x < 2 ^ (8 * Z.of_nat n) -> be_value (be_bytes n x) = x.
Proof.
  revert x. induction n as [|n IH]; intros x Hx; [cbn in *; lia|].
  cbn. unfold be_value in *. rewrite fold_left_app, IH.
  - cbn. pose proof (Z.div_mod x 256). lia.
  - rewrite Nat2Z.inj_succ, Z.mul_succ_r, Z.pow_add_r in Hx by lia. change (2 ^ 8) with 256 in Hx.
    split; [apply Z.div_pos; lia|]. apply Z.div_lt_upper_bound; lia.
Qed.

Lemma take_length_app {A} n (l r : list A) : length l = n -> take n (l ++ r) = l.
Proof. intros <-. apply take_app_length. Qed.

#[export] Instance c_uint_ok n : CodecOk (c_uint n).
Proof.
  constructor; cbn; intros.
  - apply be_bytes_length.
  - apply be_bytes_byte.
  - rewrite take_length_app by apply be_bytes_length. apply be_value_bytes. lia.
Qed.

#[export] Instance c_int_ok : CodecOk c_int.
Proof.
  constructor; cbn [enc dec fit size c_int]; intros.
  - apply be_bytes_length.
  - apply be_bytes_byte.
  - rewrite take_length_app by apply be_bytes_length. rewrite be_value_bytes by (apply uwrap_range; lia).
    destruct (s32_eq (u32 a)) as [k Hk]. destruct (u32_eq a) as [j Hj].
    pose proof (s32_range (u32 a)). lia.
Qed.

#[export] Instance c_bytes_ok n : CodecOk (c_bytes n).
Proof.
  constructor; cbn; intros * [<-%Nat.eqb_eq Hb%forallb_Forall]%andb_true_iff; [done| |by apply take_length_app].
  apply (Forall_impl _ _ _ Hb). unfold is_byte. intros. lia.
Qed.

Lemma until_nul_spec s r : Forall (fun c => 0 < c < 256) s -> until_nul (s ++ 0 :: r) = s.
Proof.
  induction 1 as [|c s Hc _ IH]; [done|]. cbn. rewrite (proj2 (Z.eqb_neq c 0)) by lia. by rewrite IH.
Qed.

#[export] Instance c_chars_ok n : CodecOk (c_chars n).
Proof.
  constructor; cbn; intros * [Hl%Nat.ltb_lt Hb%forallb_Forall]%andb_true_iff;
    assert (Forall (fun c => 0 < c < 256) a) as Hs by (apply (Forall_impl _ _ _ Hb); intros; lia).
  - rewrite length_app, length_replicate. lia.
  - apply Forall_app. split; [|by apply Forall_replicate].
    apply (Forall_impl _ _ _ Hs). unfold is_byte. lia.
  - rewrite take_length_app by (rewrite length_app, length_replicate; lia).
    destruct (n - length a)%nat eqn:E; [lia|]. by apply until_nul_spec.
Qed.

#[export] Instance c_pad_ok n : CodecOk (c_pad n).
Proof.
  constructor; cbn; intros; [apply length_replicate|by apply Forall_replicate|by destruct a].
Qed.

#[export] Instance c_pair_ok {A B} (ca : codec A) (cb : codec B) :
  CodecOk ca -> CodecOk cb -> CodecOk (c_pair ca cb).
Proof.
  constructor; cbn; intros [a b] * [Ha Hb]%andb_true_iff.
  - by rewrite length_app, !enc_length.
  - apply Forall_app. split; by apply enc_bytes.
  - rewrite <- app_assoc, dec_enc by done. f_equal.
    rewrite <- (enc_length (c := ca) a) by done. rewrite drop_app_length. by apply dec_enc.
Qed.

Section Array.
Context {A} (c : codec A) `{!CodecOk c}.

Lemma array_length l : Forall (fun a => fit c a = true) l -> length (l ≫= enc c) = (length l * size c)%nat.
Proof using All.
  induction 1 as [|a l Ha _ IH]; [done|]. cbn. by rewrite length_app, IH, enc_length.
Qed.

Lemma array_dec l r : Forall (fun a => fit c a = true) l -> dec_many c (length l) ((l ≫= enc c) ++ r) = l.
Proof using All.
  induction 1 as [|a l Ha _ IH]; [done|]. cbn. rewrite <- app_assoc, dec_enc by done. f_equal.
  rewrite <- (enc_length (c := c) a) by done. by rewrite drop_app_length.
Qed.
End Array.

#[export] Instance c_array_ok {A} n (c : codec A) : CodecOk c -> CodecOk (c_array n c).
Proof.
  constructor; cbn; intros l * [<-%Nat.eqb_eq Hl%forallb_Forall]%andb_true_iff.
  - by apply array_length.
  - induction Hl as [|a l Ha _ IH]; [constructor|]. cbn. apply Forall_app. split; [by apply enc_bytes|done].
  - by apply array_dec.
Qed.

Lemma c_struct_ok {A B} (c : codec A) (f : A -> B) (g : B -> A) :
  (forall b, f (g b) = b) -> CodecOk c -> CodecOk (c_struct c f g).
Proof.
  intros Hfg Hc. constructor; cbn; intros b *; intros Hb.
  - by apply enc_length.
  - by apply enc_bytes.
  - by rewrite dec_enc.
Qed.

#[export] Hint Extern 1 (CodecOk (c_struct _ _ _)) =>
  (apply c_struct_ok; [by intros []|apply _]) : typeclass_instances.

#[export] Instance ap_ok : CodecOk ap_codec.
Proof. unfold ap_codec, u32c. apply _. Qed.
#[export] Instance iptv_ok : CodecOk iptv_codec.
Proof. unfold iptv_codec, u32c. apply _. Qed.
#[export] Instance sta_ok : CodecOk sta_codec.
Proof. unfold sta_codec, u32c. apply _. Qed.
#[export] Instance wlan_ok : CodecOk wlan_codec.
Proof. unfold wlan_codec, u32c. apply _. Qed.
#[export] Instance head_ok : CodecOk head_codec.
Proof. unfold head_codec, u32c. apply _. Qed.
#[export] Instance vlan_ok : CodecOk vlan_codec.
Proof. unfold vlan_codec, u32c. apply _. Qed.
#[export] Instance vpnpt_ok : CodecOk vpnpt_codec.
Proof. unfold vpnpt_codec, u32c. apply _. Qed.
#[export] Instance wan_ok : CodecOk wan_codec.
Proof. unfold wan_codec. apply _. Qed.
#[export] Instance pppoe_ok : CodecOk pppoe_codec.
Proof. unfold pppoe_codec, u32c. apply _. Qed.
#[export] Instance bridge_ok : CodecOk bridge_codec.
Proof. unfold bridge_codec, u32c. apply _. Qed.
#[export] Instance dhcp_ok : CodecOk dhcp_codec.
Proof. unfold dhcp_codec, u32c. apply _. Qed.
#[export] Instance br_ok : CodecOk br_codec.
Proof. unfold br_codec. apply _. Qed.
#[export] Instance ipfw_ok : CodecOk ipfw_codec.
Proof. unfold ipfw_codec, u32c. apply _. Qed.
#[export] Instance dmz_ok : CodecOk dmz_codec.
Proof. unfold dmz_codec, u32c. apply _. Qed.
#[export] Instance conf_ok : CodecOk conf_codec.
Proof. unfold conf_codec, u32c. apply _. Qed.

Lemma sizeof_config_eq : sizeof_config = 2968%nat.
Proof. by vm_compute. Qed.

Lemma size_ok c : fit conf_codec c = true -> length (enc conf_codec c) = sizeof_config.
Proof. intros. by apply enc_length. Qed.

Lemma dec_conf c : fit conf_codec c = true -> dec conf_codec (enc conf_codec c) = c.
Proof. intros. rewrite <- (app_nil_r (enc conf_codec c)). by apply dec_enc. Qed.

#[global] Opaque sizeof_config.
