(* ===== verification/NwConf.v ===== *)
(** * The configuration in memory and in flash

    The state functions of ecosap_nw.c with flash.c of the shell underneath: the
    two copies of the configuration, how they start, how they are written to their
    sector of the flash, and the table of firewall rules they hold. The flash
    package and the firewall are other packages: their functions are the operations
    of the class [Platform], about which [FlashLaws] states what the code relies on.
    Messages to the console and to a web client are left out. *)
From S2P Require Import Prelude.
From S2P Require Import CStr.
From S2P Require Import NwAddr.
From S2P Require Import NwStruct.

(** Result codes of flash.c. *)
Definition BADSIZE : Z := 99.
Definition BADSECTOR : Z := 98.
Definition NOMEM : Z := 97.
Definition ALLGOOD : Z := 0.
Definition SECTOR_SIZE : nat := Z.to_nat 4096.
Definition DOMAIN_MAX : Z := 1.
Definition CONFIG_DATA : Z := 0.

Definition INET_LOCAL_VLANID : Z := 3.
Definition VLAN_VALUE_MIN : Z := 4.
Definition VLAN_VALUE_MAX : Z := 4096.

Class Platform := {
  flash_state : Type;
  fw_state : Type;
  (** The configuration sector as it is mapped into memory. *)
  flash_memory : flash_state -> list byte;
  cyg_flash_init : flash_state -> Z * flash_state;
  cyg_flash_erase : flash_state -> Z * flash_state;
  cyg_flash_program : list byte -> flash_state -> Z * flash_state;
  (** The result and the new contents of the buffer. *)
  cyg_flash_read : list byte -> flash_state -> Z * list byte * flash_state;
  (** The firewall gets the number of arguments and the array, which it may change. *)
  ecosap_nw_ipfw_rules_config : Z -> list cstring -> fw_state -> Z * list cstring * fw_state;
  ecosap_nw_nat_config : Z -> Z -> list cstring -> fw_state -> Z * list cstring * fw_state;
  enable_dmz_ipfw_rule : fw_state -> Z * fw_state;
  disable_dmz_ipfw_rule : fw_state -> Z * fw_state }.

(** The documented behaviour of the flash package. *)
Class FlashLaws `(P : Platform) : Prop := {
  flash_length f : length (flash_memory f) = SECTOR_SIZE;
  flash_bytes f : Forall is_byte (flash_memory f);
  init_keeps f : flash_memory (snd (cyg_flash_init f)) = flash_memory f;
  program_ok bs f f1 f2 :
    cyg_flash_erase f = (0, f1) -> cyg_flash_program bs f1 = (0, f2) ->
    length bs = SECTOR_SIZE -> Forall is_byte bs -> flash_memory f2 = bs;
  read_keeps buf f : flash_memory (snd (cyg_flash_read buf f)) = flash_memory f;
  read_ok buf bs f f1 :
    cyg_flash_read buf f = (0, bs, f1) -> bs = take (length buf) (flash_memory f) }.

(** ** State *)
Section Conf.
Context `{P : Platform}.

Record nw := Nw {
  cfg : ecosap_config;          (* ecosap_config_struct *)
  new_cfg : ecosap_config;      (* ecosap_new_nw_config *)
  lan_addrs : lan_config;       (* LAN_config_addrs *)
  vlan_names : list cstring;    (* VLAN1 ... VLAN4 *)
  is_flash_rule : Z;
  ipfw_args : list cstring;     (* cli_utils.c *)
  locked : bool;                (* write_nw_mutex *)
  rebooting : bool;             (* watchdog_reboot has been called *)
  heap_ok : bool;               (* malloc of a sector succeeds *)
  flash : flash_state;
  fw : fw_state }.

Definition set_cfg (c : ecosap_config) (s : nw) : nw :=
  Nw c (new_cfg s) (lan_addrs s) (vlan_names s) (is_flash_rule s) (ipfw_args s) (locked s) (rebooting s)
    (heap_ok s) (flash s) (fw s).
Definition set_new_cfg (c : ecosap_config) (s : nw) : nw :=
  Nw (cfg s) c (lan_addrs s) (vlan_names s) (is_flash_rule s) (ipfw_args s) (locked s) (rebooting s)
    (heap_ok s) (flash s) (fw s).
Definition set_lan_addrs (l : lan_config) (s : nw) : nw :=
  Nw (cfg s) (new_cfg s) l (vlan_names s) (is_flash_rule s) (ipfw_args s) (locked s) (rebooting s)
    (heap_ok s) (flash s) (fw s).
Definition set_vlan_names (v : list cstring) (s : nw) : nw :=
  Nw (cfg s) (new_cfg s) (lan_addrs s) v (is_flash_rule s) (ipfw_args s) (locked s) (rebooting s)
    (heap_ok s) (flash s) (fw s).
Definition set_is_flash_rule (z : Z) (s : nw) : nw :=
  Nw (cfg s) (new_cfg s) (lan_addrs s) (vlan_names s) z (ipfw_args s) (locked s) (rebooting s)
    (heap_ok s) (flash s) (fw s).
Definition set_ipfw_args (a : list cstring) (s : nw) : nw :=
  Nw (cfg s) (new_cfg s) (lan_addrs s) (vlan_names s) (is_flash_rule s) a (locked s) (rebooting s)
    (heap_ok s) (flash s) (fw s).
Definition set_locked (b : bool) (s : nw) : nw :=
  Nw (cfg s) (new_cfg s) (lan_addrs s) (vlan_names s) (is_flash_rule s) (ipfw_args s) b (rebooting s)
    (heap_ok s) (flash s) (fw s).
Definition set_rebooting (s : nw) : nw :=
  Nw (cfg s) (new_cfg s) (lan_addrs s) (vlan_names s) (is_flash_rule s) (ipfw_args s) (locked s) true
    (heap_ok s) (flash s) (fw s).
Definition set_flash (f : flash_state) (s : nw) : nw :=
  Nw (cfg s) (new_cfg s) (lan_addrs s) (vlan_names s) (is_flash_rule s) (ipfw_args s) (locked s) (rebooting s)
    (heap_ok s) f (fw s).
Definition set_fw (f : fw_state) (s : nw) : nw :=
  Nw (cfg s) (new_cfg s) (lan_addrs s) (vlan_names s) (is_flash_rule s) (ipfw_args s) (locked s) (rebooting s)
    (heap_ok s) (flash s) f.

(** Members of a configuration that the functions assign. *)
Definition with_head (h : conf_head) (c : ecosap_config) : ecosap_config :=
  EcosapConfig h (vlan c) (vpnpt c) (wan_addrs c) (pppoe c) (bridge c) (dhcp_server c) (bridge_info c)
    (ipfw c) (dmz c) (igmp_status c) (reserved c) (wlan c).
Definition with_vlan (v : vlan_config) (c : ecosap_config) : ecosap_config :=
  EcosapConfig (head c) v (vpnpt c) (wan_addrs c) (pppoe c) (bridge c) (dhcp_server c) (bridge_info c)
    (ipfw c) (dmz c) (igmp_status c) (reserved c) (wlan c).
Definition with_vpnpt (v : vpnpt_config) (c : ecosap_config) : ecosap_config :=
  EcosapConfig (head c) (vlan c) v (wan_addrs c) (pppoe c) (bridge c) (dhcp_server c) (bridge_info c)
    (ipfw c) (dmz c) (igmp_status c) (reserved c) (wlan c).
Definition with_wan (w : wan_config) (c : ecosap_config) : ecosap_config :=
  EcosapConfig (head c) (vlan c) (vpnpt c) w (pppoe c) (bridge c) (dhcp_server c) (bridge_info c)
    (ipfw c) (dmz c) (igmp_status c) (reserved c) (wlan c).
Definition with_pppoe (p : pppoe_config) (c : ecosap_config) : ecosap_config :=
  EcosapConfig (head c) (vlan c) (vpnpt c) (wan_addrs c) p (bridge c) (dhcp_server c) (bridge_info c)
    (ipfw c) (dmz c) (igmp_status c) (reserved c) (wlan c).
Definition with_bridge (b : bridge_conf) (c : ecosap_config) : ecosap_config :=
  EcosapConfig (head c) (vlan c) (vpnpt c) (wan_addrs c) (pppoe c) b (dhcp_server c) (bridge_info c)
    (ipfw c) (dmz c) (igmp_status c) (reserved c) (wlan c).
Definition with_dhcp (d : dhcp_config) (c : ecosap_config) : ecosap_config :=
  EcosapConfig (head c) (vlan c) (vpnpt c) (wan_addrs c) (pppoe c) (bridge c) d (bridge_info c)
    (ipfw c) (dmz c) (igmp_status c) (reserved c) (wlan c).
Definition with_ipfw (r : list ipfw_rule) (c : ecosap_config) : ecosap_config :=
  EcosapConfig (head c) (vlan c) (vpnpt c) (wan_addrs c) (pppoe c) (bridge c) (dhcp_server c) (bridge_info c)
    r (dmz c) (igmp_status c) (reserved c) (wlan c).
Definition with_dmz (d : dmz_config) (c : ecosap_config) : ecosap_config :=
  EcosapConfig (head c) (vlan c) (vpnpt c) (wan_addrs c) (pppoe c) (bridge c) (dhcp_server c) (bridge_info c)
    (ipfw c) d (igmp_status c) (reserved c) (wlan c).
Definition with_igmp (z : Z) (c : ecosap_config) : ecosap_config :=
  EcosapConfig (head c) (vlan c) (vpnpt c) (wan_addrs c) (pppoe c) (bridge c) (dhcp_server c) (bridge_info c)
    (ipfw c) (dmz c) z (reserved c) (wlan c).

Definition with_connection (t : Z) (c : ecosap_config) : ecosap_config :=
  let h := head c in
  with_head (ConfHead (mac_addr h) (conf_pad h) (Magic_Number h) t (lan_status h) (wan_status h)
    (is_flashrule_full h)) c.
Definition with_full (z : Z) (c : ecosap_config) : ecosap_config :=
  let h := head c in
  with_head (ConfHead (mac_addr h) (conf_pad h) (Magic_Number h) (Connection_Type h) (lan_status h)
    (wan_status h) z) c.

(** ** Effects *)
Definition lift {A} (o : option A) : M nw A := fun s => match o with Some a => Some (a, s) | None => None end.

(** pthread_mutex_lock of a mutex that is already held blocks for ever. *)
Definition mutex_lock : M nw unit :=
  s ← get_state; if locked s then crash else modify (set_locked true).
Definition mutex_unlock : M nw unit := modify (set_locked false).

Definition watchdog_reboot : M nw unit := modify set_rebooting.

(** [both]: the assignment is written out for both copies. *)
Definition both (f : ecosap_config -> ecosap_config) : M nw unit :=
  modify (fun s => set_new_cfg (f (new_cfg s)) (set_cfg (f (cfg s)) s)).

(** A call of a function of the flash package. *)
Definition flash_op (op : flash_state -> Z * flash_state) : M nw Z :=
  s ← get_state;
  let '(ret, f) := op (flash s) in
  _ ← modify (set_flash f); mret ret.

(** ** flash.c *)
Definition cyg_flash_setconf (buf : list byte) (sz : nat) (whose : Z) : M nw Z :=
  if whose >=? DOMAIN_MAX then mret BADSECTOR
  else if Nat.ltb SECTOR_SIZE sz then mret BADSIZE
  else
    ret ← flash_op cyg_flash_init;
    if negb (ret =? 0) then mret ret
    else
      s ← get_state;
      if negb (heap_ok s) then mret NOMEM
      else
        let ram_base := take sz buf ++ drop sz (flash_memory (flash s)) in
        ret ← flash_op cyg_flash_erase;
        if negb (ret =? 0) then mret ret
        else
          ret ← flash_op (cyg_flash_program ram_base);
          if negb (ret =? 0) then mret ret else mret (Z.of_nat sz).

(** The result and the new contents of [buf], which has [sz] bytes. *)
Definition cyg_flash_getconf (buf : list byte) (sz : nat) (whose : Z) : M nw (Z * list byte) :=
  if Nat.ltb SECTOR_SIZE sz then mret (BADSIZE, buf)
  else if whose >=? DOMAIN_MAX then mret (BADSECTOR, buf)
  else
    ret ← flash_op cyg_flash_init;
    if negb (ret =? 0) then mret (ret, buf)
    else
      s ← get_state;
      let '(ret, bs, f) := cyg_flash_read buf (flash s) in
      _ ← modify (set_flash f);
      if negb (ret =? 0) then mret (ret, bs) else mret (ALLGOOD, bs).

(** ** Start *)
Definition write_nw_flash : M nw unit :=
  s ← get_state;
  _ ← cyg_flash_setconf (enc conf_codec (new_cfg s)) sizeof_config CONFIG_DATA;
  mret tt.

Definition Is_Config_Available : M nw Z :=
  s ← get_state;
  '(n, bs) ← cyg_flash_getconf (enc conf_codec (cfg s)) sizeof_config CONFIG_DATA;
  _ ← modify (set_cfg (dec conf_codec bs));
  if n <? 0 then mret (-1)
  else
    s ← get_state;
    if CONFIG_MAGIC_NUM =? Magic_Number (head (cfg s)) then mret 1 else mret 0.

Definition copy_nw_config_to_new_struct : M nw unit :=
  modify (fun s => set_new_cfg (cfg s) s).

(** One of the five rules of default_flash_rule: its arguments and six empty ones. *)
Definition default_rule (args : list cstring) : ipfw_rule :=
  IpfwRule (args ++ replicate 6 []) 10 1.

Definition default_rules : list ipfw_rule :=
  map (fun a => default_rule (map str a))
    [ ["ipfw"; "add"; "140"; "allow"; "tcp"; "from"; "any"; "to"; "any"; "80"];
      ["ipfw"; "add"; "150"; "allow"; "tcp"; "from"; "any"; "80"; "to"; "any"];
      ["ipfw"; "add"; "160"; "allow"; "udp"; "from"; "any"; "to"; "any"; "53"];
      ["ipfw"; "add"; "170"; "allow"; "udp"; "from"; "any"; "53"; "to"; "any"];
      ["ipfw"; "add"; "180"; "allow"; "udp"; "from"; "any"; "to"; "any"; "123"] ]%string.

Definition default_flash_rule : M nw unit := both (with_ipfw default_rules).

Definition default_mac : list byte :=
  [0x00; 0x03; 0x7F; 0xFF; 0xFF; 0xFF; 0x00; 0x03; 0x7F; 0xFF; 0xFF; 0xFE;
   0x8C; 0xFD; 0xF0; 0xAA; 0xBB; 0xCC; 0; 0; 0; 0; 0; 0].

(** [htonl(inet_addr(...))] of a literal. *)
Definition addr_const (s : string) : Z := inet_addr (str s).

(** The structure ecosap_nw_config_default fills in, without the macro
    CYGHWR_NET_DRIVER_ETH0_ADDRS_IP; the rules are added by default_flash_rule. The
    size given to strlcpy for the name of the first bridge interface is the address
    of the array, so the name is copied whole. *)
Definition default_config : ecosap_config :=
  EcosapConfig
    (ConfHead default_mac (replicate 8 0) CONFIG_MAGIC_NUM DHCP 0 0 0)
    (VlanConfig 0 0 1 VLAN_VALUE_MIN)
    (VpnptConfig 1 1 1)
    (WanConfig (strlcpy (str "172.16.7.50") IPADDR_SIZE) (strlcpy (str "255.255.255.0") IPADDR_SIZE)
       (strlcpy (str "172.16.7.1") IPADDR_SIZE) (strlcpy (str "172.16.2.31") IPADDR_SIZE)
       (strlcpy (str "8.8.4.4") IPADDR_SIZE) (strlcpy (str "172.16.7.255") IPADDR_SIZE)
       (strlcpy (str "172.16.7.166") IPADDR_SIZE))
    (PppoeConfig (strlcpy (str "username") 32) (strlcpy (str "password") 32) PPPOE_MTU_MAX
       (strlcpy (str "Service_Name") 16) (strlcpy (str "Server_Name") 16) (24 * 60 * 60))
    (BridgeConf (addr_const "192.168.0.1") (addr_const "255.255.255.0") 0 (addr_const "192.168.0.255"))
    (DhcpConfig 1 (strlcpy (str "192.168.0.2") IPADDR_SIZE) (strlcpy (str "192.168.0.200") IPADDR_SIZE)
       (24 * 60 * 60))
    (BrInfo (strlcpy (str "br0") 16) 1 (str "eth1" :: replicate 9 []))
    (replicate FLASH_IPFW_INDEX_SIZE (IpfwRule (replicate MAX_IPFW_RULE_ARGC []) 0 0))
    (DmzConfig 0 (strlcpy (str "192.168.0.10") IPADDR_SIZE))
    0
    (replicate 24 0)
    (WlanDefault CONFIG_WLAN_MAGIC_NUM (str "ap")
       (WlanAp 0 (str "hello_tenda") 6 40 (str "11NG") (str "open") (str "1234567890") 100 0)
       (WlanIptv (str "hello_tenda_iptv") 6 (str "open") (str "1234567890") 100)
       (WlanSta 1 (str "hello_tenda") (str "open") [] 0)).

Definition ecosap_nw_config_default : M nw unit :=
  _ ← modify (set_cfg default_config);
  _ ← default_flash_rule;
  s ← get_state;
  _ ← cyg_flash_setconf (enc conf_codec (cfg s)) sizeof_config CONFIG_DATA;
  mret tt.

(** [%d]; the [fuel] is the number of digits an int can have. *)
Fixpoint show_digits (fuel : nat) (n : Z) : cstring :=
  match fuel with
  | O => []
  | S fuel' => if n <? 10 then [48 + n] else show_digits fuel' (n / 10) ++ [48 + n mod 10]
  end.
Definition show_int (n : Z) : cstring :=
  if n <? 0 then 45 :: show_digits 10 (- n) else show_digits 10 n.

(** sprintf of an unsigned value with [%d] into a buffer of eight characters. *)
Definition vlan_id (v : Z) : option cstring :=
  let s := show_int (s32 v) in
  if Nat.ltb (length s) 8 then Some s else None.

(** is_flash_data_valid does nothing with FLASH_VALIDATION 0. *)
Definition ecosap_read_nw_config : M nw unit :=
  s ← get_state;
  let v := vlan (cfg s) in
  if vlan_flag v =? 0 then mret tt
  else
    id1 ← lift (vlan_id (inet_value v));
    id2 ← lift (vlan_id (iptv_value v));
    id3 ← lift (vlan_id INET_LOCAL_VLANID);
    modify (set_vlan_names
      [str "eth0v" ++ id1; str "eth0v" ++ id2; str "eth1v" ++ id2; str "eth1v" ++ id3]).

Definition ecosap_nw_default_start : M nw unit :=
  status ← Is_Config_Available;
  _ ← (if 0 =? status then ecosap_nw_config_default else ecosap_read_nw_config);
  copy_nw_config_to_new_struct.
End Conf.
