(* ===== verification/NwRules.v ===== *)
(** * The firewall rules in the configuration, and the LAN subnet

    The functions of ecosap_nw.c that change the table of firewall rules kept in
    both copies of the configuration, the tests on rule commands, and the change of
    the LAN subnet with its DHCP pool. *)
From S2P Require Import Prelude.
From S2P Require Import CStr.
From S2P Require Import NwAddr.
From S2P Require Import NwStruct.
From S2P Require Import NwConf.

(** An argument of a rule, [None] when the array has no such element. *)
Definition arg (args : list cstring) (i : nat) : option cstring := args !! i.

(** [strcmp(args[i], s) == 0] *)
Definition arg_is (args : list cstring) (i : nat) (s : string) : option bool :=
  a ← arg args i; Some (streq a (str s)).

(** ** Deletion *)
Definition set_deleted_flag (r : ipfw_rule) : ipfw_rule := IpfwRule (ipfw_rules r) (ipfw_argc r) 1.

(** The loop of delete_rule_from_flash and delete_nat_from_flash: [kind] is the
    word they compare the first argument with. The result is the value of [flag]. *)
Fixpoint delete_loop (kind : string) (id : cstring) (cs ns : list ipfw_rule) (flag : Z)
    : option (list ipfw_rule * list ipfw_rule * Z) :=
  match cs, ns with
  | [], [] => Some ([], [], flag)
  | c :: cs', n :: ns' =>
      same_kind ← arg_is (ipfw_rules c) 1 kind;
      id_c ← arg (ipfw_rules c) 2;
      let hit := same_kind && streq id_c id && (is_deleted c =? 0) in
      '(cs2, ns2, flag2) ← delete_loop kind id cs' ns' (if hit then 1 else flag);
      Some ((if hit then set_deleted_flag c else c) :: cs2,
            (if hit then set_deleted_flag n else n) :: ns2, flag2)
  | _, _ => None
  end.

Section Rules.
Context `{P : Platform}.

Definition delete_from_flash (kind : string) (id : cstring) : M nw unit :=
  s ← get_state;
  '(cs, ns, flag) ← lift (delete_loop kind id (ipfw (cfg s)) (ipfw (new_cfg s)) 0);
  _ ← modify (fun s => set_new_cfg (with_ipfw ns (new_cfg s)) (set_cfg (with_ipfw cs (cfg s)) s));
  _ ← modify (set_is_flash_rule flag);
  both (with_full flag).

Definition delete_rule_from_flash : cstring -> M nw unit := delete_from_flash "add".
Definition delete_nat_from_flash : cstring -> M nw unit := delete_from_flash "nat".

Definition cli_http_rule_deletion : M nw unit :=
  s ← get_state;
  if is_flash_rule s =? 1 then _ ← both (with_full 0); write_nw_flash
  else mret tt.

(** ** Insertion *)
Fixpoint is_flash_ipfw_full (rules : list ipfw_rule) : Z :=
  match rules with
  | [] => 1
  | r :: rs => if is_deleted r =? 1 then 0 else is_flash_ipfw_full rs
  end.

(** The loop of del_duplicate_nat, which looks at the new configuration. *)
Fixpoint duplicate_loop (id : cstring) (cs ns : list ipfw_rule) : option (list ipfw_rule * list ipfw_rule) :=
  match cs, ns with
  | [], [] => Some ([], [])
  | c :: cs', n :: ns' =>
      id_n ← arg (ipfw_rules n) 2;
      let hit := streq id_n id && (is_deleted n =? 0) in
      '(cs2, ns2) ← duplicate_loop id cs' ns';
      Some ((if hit then set_deleted_flag c else c) :: cs2, (if hit then set_deleted_flag n else n) :: ns2)
  | _, _ => None
  end.

Definition del_duplicate_nat (id : cstring) : M nw unit :=
  s ← get_state;
  '(cs, ns) ← lift (duplicate_loop id (ipfw (cfg s)) (ipfw (new_cfg s)));
  modify (fun s => set_new_cfg (with_ipfw ns (new_cfg s)) (set_cfg (with_ipfw cs (cfg s)) s)).

(** The slot the loop of write_ipfw_rules_in_flash stops at. *)
Fixpoint first_deleted (rules : list ipfw_rule) : option nat :=
  match rules with
  | [] => None
  | r :: rs => if is_deleted r =? 1 then Some 0%nat else S <$> first_deleted rs
  end.

(** The rule as it is stored: all sixteen arguments are copied, those from [argc]
    on are cleared. *)
Definition stored_rule (argc : Z) (args : list cstring) : ipfw_rule :=
  IpfwRule (take (Z.to_nat argc) args ++ replicate (MAX_IPFW_RULE_ARGC - Z.to_nat argc) []) argc 0.

(** The part of write_ipfw_rules_in_flash behind the removal of duplicates. *)
Definition store_rule (argc : Z) (args : list cstring) : M nw unit :=
  s ← get_state;
  let full := is_flash_ipfw_full (ipfw (cfg s)) in
  _ ← both (with_full full);
  if full =? 1 then mret tt
  else if full =? 0 then
    s ← get_state;
    match first_deleted (ipfw (new_cfg s)) with
    | None => mret tt
    | Some k =>
        _ ← both (fun c => with_ipfw (<[k := stored_rule argc args]> (ipfw c)) c);
        write_nw_flash
    end
  else mret tt.

Definition write_ipfw_rules_in_flash (argc : Z) (args : list cstring) : M nw unit :=
  _ ← mutex_lock;
  is_nat ← lift (arg_is args 1 "nat");
  _ ← (if is_nat : bool then id ← lift (arg args 2); del_duplicate_nat id else mret tt);
  _ ← store_rule argc args;
  mutex_unlock.

(** ** Flush and zero *)

(** A call of ecosap_nw_ipfw_rules_config with the array it may change. *)
Definition rules_config (argc : Z) (args : list cstring) : M nw (Z * list cstring) :=
  s ← get_state;
  let '(ret, args', f) := ecosap_nw_ipfw_rules_config argc args (fw s) in
  _ ← modify (set_fw f); mret (ret, args').

Definition nat_config (from_flash argc : Z) (args : list cstring) : M nw (Z * list cstring) :=
  s ← get_state;
  let '(ret, args', f) := ecosap_nw_nat_config from_flash argc args (fw s) in
  _ ← modify (set_fw f); mret (ret, args').

(** The result and the array of arguments afterwards. *)
Definition do_flush_action (ac : Z) (flush_arg : list cstring) : M nw (Z * list cstring) :=
  let args := <[0%nat := str "ipfw"]> (<[1%nat := str "flush"]> flush_arg) in
  if negb (ac =? 3) then mret (-1, args)
  else
    what ← lift (arg args 2);
    if streq what (str "all") then
      '(r, args) ← rules_config ac (<[2%nat := str "0"]> args);
      if r =? -1 then mret (-1, args)
      else _ ← default_flash_rule; _ ← both (with_full 0); _ ← write_nw_flash; mret (0, args)
    else if streq what (str "user") then
      '(r, args) ← rules_config ac (<[2%nat := str "1"]> args);
      if r =? -1 then mret (-1, args)
      else
        _ ← both (fun c => with_ipfw (map set_deleted_flag (ipfw c)) c);
        _ ← both (with_full 0); _ ← write_nw_flash; mret (0, args)
    else if streq what (str "default") then
      '(r, args) ← rules_config ac (<[2%nat := str "2"]> args);
      if r =? -1 then mret (-1, args) else _ ← write_nw_flash; mret (0, args)
    else mret (-1, args).

(** The loop of do_ipfw_zero over the arguments from the third one on. *)
Fixpoint all_numbers (args : list cstring) : bool :=
  match args with
  | [] => true
  | a :: args' => if isvalid_ipfw_digit a then all_numbers args' else false
  end.

Definition do_ipfw_zero (ac : Z) (args : list cstring) : M nw (Z * list cstring) :=
  if Nat.ltb (length args) (Z.to_nat ac) then crash
  else if negb (all_numbers (drop 2 (take (Z.to_nat ac) args))) then mret (-1, args)
  else
    '(r, args) ← rules_config ac args;
    mret (if r =? -1 then -1 else 0, args).

(** ** The LAN subnet *)

(** The host octet of a pool address in the subnet of [ip]. *)
Definition move_pool (pool : cstring) (ip : Z) : option cstring :=
  a ← inet_aton pool;
  Some (strlcpy (inet_ntoa (Z.lor (Z.land a 0x000000FF) (Z.land ip 0xFFFFFF00))) IPADDR_SIZE).

Definition change_dhcp_pool : M nw unit :=
  s ← get_state;
  let d := dhcp_server (new_cfg s) in
  let ip := inaddr_ip (bridge (new_cfg s)) in
  from ← lift (move_pool (DHCP_From d) ip);
  to ← lift (move_pool (DHCP_To d) ip);
  modify (fun s => set_new_cfg (with_dhcp (DhcpConfig (dhcps_enable d) from to (Lease_Time d)) (new_cfg s)) s).

Definition change_lan_subnet : M nw unit :=
  _ ← mutex_lock;
  _ ← modify (fun s =>
         let b := bridge (new_cfg s) in
         let ip := change_octal (inaddr_ip b) in
         set_new_cfg (with_bridge (BridgeConf ip (inaddr_mas b) (inaddr_gw b)
           (Z.lor (Z.land ip 0xFFFFFF00) 0x000000FF)) (new_cfg s)) s);
  _ ← change_dhcp_pool;
  _ ← mutex_unlock;
  _ ← write_nw_flash;
  watchdog_reboot.
End Rules.

(** ** Tests on rule commands *)
Definition ACTION_COUNT : nat := 29.
Definition PROTO_COUNT : nat := 27.

(** The names of getproto.c; its last entry has none. *)
Definition protocols : list (option cstring) :=
  map (fun s => Some (str s))
    ["ip"; "all"; "icmp"; "igmp"; "ggp"; "ipencap"; "st"; "tcp"; "egp"; "pup"; "udp"; "hmp"; "xns-idp";
     "rdp"; "iso-tp4"; "xtp"; "ddp"; "idpr-cmtp"; "gre"; "esp"; "ah"; "ipv6-icmp"; "rspf"; "vmtp"; "ospf";
     "ipip"; "encap"]%string ++ [None].

(** The search of a name among the first [n] entries of a table; comparing with an
    entry without a name, or behind the table, is undefined. *)
Fixpoint search_table (s : cstring) (table : list (option cstring)) (n : nat) : option bool :=
  match n, table with
  | O, _ => Some false
  | S n', Some name :: table' => if streq s name then Some true else search_table s table' n'
  | S _, _ => None
  end.

Section Commands.
(** The actions of the firewall package. *)
Variable rule_actions : list (option cstring).

(** isvalidip, isvalid_addr or "any"; isvalid_addr may rewrite the argument. *)
Definition rule_address (cmd : list cstring) (i : nat) : option (bool * list cstring) :=
  a ← arg cmd i;
  ip ← isvalidip a;
  if ip : bool then Some (true, cmd)
  else
    '(ok, a') ← isvalid_addr a;
    let cmd := <[i := a']> cmd in
    if ok : bool then Some (true, cmd) else Some (streq a' (str "any"), cmd).

(** The part of isvalid_cmd from the protocol on. *)
Definition valid_rule_tail (cmd : list cstring) (i : nat) : option (bool * list cstring) :=
  proto ← arg cmd i;
  known ← search_table proto protocols PROTO_COUNT;
  if negb known then Some (false, cmd)
  else
    let i := S i in
    from ← arg_is cmd i "from";
    if negb from then Some (false, cmd)
    else
      let i := S i in
      '(src, cmd) ← rule_address cmd i;
      if negb src then Some (false, cmd)
      else
        let i := S i in
        port ← arg cmd i;
        let i := if isvalid_digit port then S i else i in
        to ← arg_is cmd i "to";
        if negb to then Some (false, cmd) else rule_address cmd (S i).

(** isvalid_cmd: the result and the arguments it may have rewritten. *)
Definition isvalid_cmd (cmd : list cstring) : option (bool * list cstring) :=
  ipfw ← arg_is cmd 0 "ipfw";
  if negb ipfw then Some (false, cmd)
  else
    add ← arg_is cmd 1 "add";
    if add : bool then
      number ← arg cmd 2;
      let i := if negb (isvalid_digit number) then 2%nat else 3%nat in
      check ← arg_is cmd i "check-state";
      if check : bool then
        next ← arg cmd (S i); Some (Nat.eqb (length next) 0, cmd)
      else
        action ← arg cmd i;
        known ← search_table action rule_actions ACTION_COUNT;
        if negb known then Some (false, cmd)
        else if streq action (str "nat") then
          id ← arg cmd (S i);
          if isvalid_digit id then valid_rule_tail cmd (S (S i)) else Some (false, cmd)
        else valid_rule_tail cmd (S i)
    else
      nat ← arg_is cmd 1 "nat";
      if negb nat then Some (false, cmd)
      else
        id ← arg cmd 2;
        if isvalid_digit id then
          config ← arg_is cmd 3 "config";
          if negb config then Some (false, cmd)
          else
            what ← arg cmd 4;
            proto ← search_table what protocols PROTO_COUNT;
            a ← arg cmd 5;
            if proto : bool then
              ip ← isvalidip a;
              if ip : bool then Some (true, cmd)
              else '(ok, a') ← isvalid_addr a; Some (ok, <[5%nat := a']> cmd)
            else if streq what (str "if") then
              Some (streq a (str "eth0") || streq a (str "ppp0"), cmd)
            else Some (false, cmd)
        else
          config ← arg_is cmd 3 "config";
          Some (streq id (str "show") && config, cmd).
End Commands.

(** The nested tests of is_valid_nat_cmd. *)
Definition is_valid_nat_cmd (cmd : list cstring) : option bool :=
  id ← arg cmd 2; config ← arg_is cmd 3 "config"; ifw ← arg_is cmd 4 "if";
  ifname ← arg cmd 5; redirect ← arg_is cmd 6 "redirect_port"; proto ← arg cmd 7;
  target ← arg cmd 8; port ← arg cmd 9;
  if isvalid_ipfw_digit id && config && ifw && (streq ifname (str "ppp0") || streq ifname (str "eth0")) &&
     redirect && (streq proto (str "tcp") || streq proto (str "udp")) then
    ok ← isvalidip_port target;
    Some ((ok : bool) && isvalid_ipfw_digit port)
  else Some false.

Definition is_valid_nat_config (a : list cstring) : option bool :=
  ipfw ← arg_is a 0 "ipfw"; nat ← arg_is a 1 "nat"; id ← arg a 2; config ← arg_is a 3 "config";
  what ← arg a 4; v ← arg a 5;
  if ipfw && nat && isvalid_ipfw_digit id && config then
    if streq what (str "ip") then
      ip ← isvalidip v;
      if ip : bool then Some true else isvalid_ip_mask v
    else if streq what (str "if") then Some (streq v (str "eth0") || streq v (str "ppp0"))
    else Some false
  else Some false.
