(* ===== verification/NwConfSpec.v ===== *)
(** * What the configuration in flash contains

    The configuration written by write_nw_flash is the one the next start finds;
    what a first start and a start with a read error do. *)
From S2P Require Import Prelude.
From S2P Require Import CStr.
From S2P Require Import NwAddr.
From S2P Require Import NwStruct.
From S2P Require Import NwConf.

Section Flash.
Context `{P : Platform} `{!FlashLaws P}.

(** The device, once initialised, writes, and reads, without errors. *)
Record flash_writes : Prop := {
  init_works f : fst (cyg_flash_init f) = 0;
  erase_works f f1 : cyg_flash_init f = (0, f1) -> fst (cyg_flash_erase f1) = 0;
  program_works bs f f1 f2 :
    cyg_flash_init f = (0, f1) -> cyg_flash_erase f1 = (0, f2) -> length bs = SECTOR_SIZE -> Forall is_byte bs ->
    fst (cyg_flash_program bs f2) = 0 }.

Definition flash_reads : Prop := forall buf f f1,
  cyg_flash_init f = (0, f1) -> (0 < length buf <= SECTOR_SIZE)%nat -> fst (fst (cyg_flash_read buf f1)) = 0.

(** The sector holds [c]. *)
Definition holds_config (c : ecosap_config) (f : flash_state) : Prop :=
  take sizeof_config (flash_memory f) = enc conf_codec c.

(** Everything but the flash. *)
Definition same_but_flash (s s' : nw) : Prop := s' = set_flash (flash s') s.

Lemma wp_lift {A} (o : option A) a (Q : A -> nw -> Prop) s :
  o = Some a -> Q a s -> wp (lift o) Q s.
Proof using. intros -> HQ. by exists a, s. Qed.

Lemma wp_flash_op op (Q : Z -> nw -> Prop) s :
  Q (fst (op (flash s))) (set_flash (snd (op (flash s))) s) -> wp (flash_op op) Q s.
Proof using.
  intros H. unfold flash_op. apply wp_get. destruct (op (flash s)) as [ret f]. cbn in H.
  apply wp_modify, wp_ret. exact H.
Qed.

Lemma config_fits : (sizeof_config <= SECTOR_SIZE)%nat.
Proof using. rewrite sizeof_config_eq. unfold SECTOR_SIZE. lia. Qed.

Lemma ltb_config : Nat.ltb SECTOR_SIZE sizeof_config = false.
Proof using. apply Nat.ltb_ge, config_fits. Qed.

(** cyg_flash_setconf changes nothing but the flash; when the device and malloc do
    not fail it returns the size, and the sector holds the data. *)
Lemma setconf_spec c s :
  fit conf_codec c = true ->
  wp (cyg_flash_setconf (enc conf_codec c) sizeof_config CONFIG_DATA)
    (fun r s' => same_but_flash s s' /\
       (flash_writes -> heap_ok s = true -> r = Z.of_nat sizeof_config /\ holds_config c (flash s'))) s.
Proof using All.
  intros Hc. unfold cyg_flash_setconf. change (CONFIG_DATA >=? DOMAIN_MAX) with false. rewrite ltb_config. cbv iota.
  apply wp_bind, wp_flash_op. set (s1 := set_flash _ s).
  destruct (fst (cyg_flash_init (flash s)) =? 0) eqn:E1; cbn [negb].
  2: { apply wp_ret. split; [done|]. intros W. by rewrite (init_works W) in E1. }
  apply Z.eqb_eq in E1. assert (cyg_flash_init (flash s) = (0, flash s1)) as Ei by by rewrite <- E1, <- surjective_pairing.
  apply wp_get. change (heap_ok s1) with (heap_ok s).
  destruct (heap_ok s) eqn:Eh; cbn [negb]; [|by apply wp_ret].
  set (ram := take sizeof_config (enc conf_codec c) ++ drop sizeof_config (flash_memory (flash s1))).
  assert (length ram = SECTOR_SIZE /\ Forall is_byte ram) as [Hram Hby].
  { unfold ram. rewrite length_app, length_take, length_drop, size_ok, flash_length by done.
    pose proof config_fits. split; [lia|]. apply Forall_app. split; [by apply Forall_take, enc_bytes|].
    apply Forall_drop, flash_bytes. }
  apply wp_bind, wp_flash_op. set (s2 := set_flash _ s1).
  destruct (fst (cyg_flash_erase (flash s1)) =? 0) eqn:E2; cbn [negb].
  2: { apply wp_ret. split; [done|]. intros W. by rewrite (erase_works W _ _ Ei) in E2. }
  apply Z.eqb_eq in E2. assert (cyg_flash_erase (flash s1) = (0, flash s2)) as Ee by by rewrite <- E2, <- surjective_pairing.
  apply wp_bind, wp_flash_op. set (s3 := set_flash _ s2).
  destruct (fst (cyg_flash_program ram (flash s2)) =? 0) eqn:E3; cbn [negb].
  2: { apply wp_ret. split; [done|]. intros W. by rewrite (program_works W _ _ _ _ Ei Ee Hram Hby) in E3. }
  apply Z.eqb_eq in E3. apply wp_ret. split; [done|]. intros _ _. split; [done|]. unfold holds_config.
  rewrite (program_ok ram (flash s1) (flash s2) (flash s3)); [|done|by rewrite <- E3, <- surjective_pairing|done|done].
  unfold ram. rewrite take_app_le by (rewrite length_take, size_ok by done; lia).
  rewrite take_take, Nat.min_id. apply take_ge. by rewrite size_ok.
Qed.

Lemma write_nw_flash_spec s :
  fit conf_codec (new_cfg s) = true ->
  wp write_nw_flash (fun _ s' => same_but_flash s s' /\
    (flash_writes -> heap_ok s = true -> holds_config (new_cfg s) (flash s'))) s.
Proof using All.
  intros Hc. unfold write_nw_flash. apply wp_get, wp_bind.
  eapply wp_mono; [by apply setconf_spec|]. cbn. intros r s' (Hs & Hw).
  apply wp_ret. split; [done|]. intros W Hh. by apply Hw.
Qed.

(** What the configuration sector decodes to. *)
Definition stored_config (f : flash_state) : ecosap_config :=
  dec conf_codec (take sizeof_config (flash_memory f)).

Lemma stored_holds c f : fit conf_codec c = true -> holds_config c f -> stored_config f = c.
Proof using. intros Hc Hh. unfold stored_config. rewrite Hh. by apply dec_conf. Qed.

(** The answer of Is_Config_Available about a configuration. *)
Definition available (c : ecosap_config) : Z :=
  if CONFIG_MAGIC_NUM =? Magic_Number (head c) then 1 else 0.

(** A working device is read into ecosap_config_struct. *)
Lemma available_spec s :
  fit conf_codec (cfg s) = true -> flash_writes -> flash_reads ->
  wp Is_Config_Available (fun r s' => exists f, s' = set_flash f (set_cfg (stored_config (flash s)) s) /\
    flash_memory f = flash_memory (flash s) /\ r = available (stored_config (flash s))) s.
Proof using All.
  intros Hold W R. unfold Is_Config_Available. apply wp_get, wp_bind. unfold cyg_flash_getconf.
  change (CONFIG_DATA >=? DOMAIN_MAX) with false. rewrite ltb_config. cbv iota.
  apply wp_bind, wp_flash_op. rewrite (init_works W). cbn [negb Z.eqb]. apply wp_get.
  set (f1 := snd (cyg_flash_init (flash s))). change (flash (set_flash f1 s)) with f1.
  assert (cyg_flash_init (flash s) = (0, f1)) as Ei by by rewrite <- (init_works W (flash s)), <- surjective_pairing.
  pose proof (R (enc conf_codec (cfg s)) _ f1 Ei) as Hr. rewrite size_ok in Hr by done.
  pose proof config_fits. specialize (Hr ltac:(rewrite sizeof_config_eq in *; lia)).
  pose proof (read_keeps (enc conf_codec (cfg s)) f1) as Hk.
  destruct (cyg_flash_read (enc conf_codec (cfg s)) f1) as [[r bs] f2] eqn:E. cbn in Hr, Hk. subst r.
  apply read_ok in E. rewrite size_ok in E by done. unfold f1 in E. rewrite init_keeps in E.
  apply wp_modify. cbn [negb Z.eqb]. apply wp_ret, wp_modify.
  unfold f1 in Hk. rewrite init_keeps in Hk. change (ALLGOOD <? 0) with false. apply wp_get. cbn [cfg set_cfg].
  subst bs. unfold available, stored_config. destruct (CONFIG_MAGIC_NUM =? _); apply wp_ret; by exists f2.
Qed.

(** A read that fails with a code above zero, as those of the flash package are,
    and leaves the buffer alone passes for a successful one. *)
Lemma available_error s f1 r f2 :
  fit conf_codec (cfg s) = true ->
  cyg_flash_init (flash s) = (0, f1) -> cyg_flash_read (enc conf_codec (cfg s)) f1 = (r, enc conf_codec (cfg s), f2) ->
  0 < r ->
  wp Is_Config_Available (fun n s' => s' = set_flash f2 s /\ n = available (cfg s)) s.
Proof using All.
  intros Hc E1 E2 Hr. unfold Is_Config_Available. apply wp_get, wp_bind. unfold cyg_flash_getconf.
  change (CONFIG_DATA >=? DOMAIN_MAX) with false. rewrite ltb_config. cbv iota.
  apply wp_bind, wp_flash_op. rewrite E1. cbn [fst snd negb Z.eqb]. apply wp_get.
  change (flash (set_flash f1 s)) with f1. rewrite E2. apply wp_modify.
  replace (r =? 0) with false by lia. cbn [negb]. apply wp_ret, wp_modify.
  rewrite dec_conf by done. replace (r <? 0) with false by lia. apply wp_get. cbn [cfg set_cfg].
  unfold available. destruct (CONFIG_MAGIC_NUM =? _); apply wp_ret; by destruct s.
Qed.

(** ** The factory configuration *)
Definition factory_config : ecosap_config := with_ipfw default_rules default_config.

Lemma factory_fits : fit conf_codec factory_config = true.
Proof using. by vm_compute. Qed.

Lemma config_default_spec s :
  wp ecosap_nw_config_default (fun _ s' =>
    s' = set_flash (flash s') (set_new_cfg (with_ipfw default_rules (new_cfg s)) (set_cfg factory_config s)) /\
    (flash_writes -> heap_ok s = true -> holds_config factory_config (flash s'))) s.
Proof using All.
  unfold ecosap_nw_config_default. apply wp_modify. unfold default_flash_rule, both. apply wp_modify, wp_get.
  cbn [cfg set_new_cfg set_cfg new_cfg]. fold factory_config.
  apply wp_bind. eapply wp_mono; [apply (setconf_spec factory_config), factory_fits|].
  cbn. intros r s' (Hs & Hw). apply wp_ret. split; [exact Hs|]. intros W Hh. by apply Hw.
Qed.

(** ** Start *)

(** The VLAN names fit the buffer of eight characters they are printed into. *)
Definition small_vlans (c : ecosap_config) : Prop :=
  vlan_flag (vlan c) = 0 \/ 0 <= inet_value (vlan c) < 10 ^ 7 /\ 0 <= iptv_value (vlan c) < 10 ^ 7.

Lemma show_digits_length k : forall fuel n, 0 <= n < 10 ^ Z.of_nat (S k) -> (length (show_digits fuel n) <= S k)%nat.
Proof using.
  induction k as [|k IH]; intros fuel n Hn; destruct fuel as [|fuel]; cbn [show_digits length]; try lia.
  - replace (n <? 10) with true by lia. done.
  - destruct (Z.ltb_spec n 10); [cbn; lia|]. rewrite length_app. cbn [length].
    assert (length (show_digits fuel (n / 10)) <= S k)%nat; [|lia]. apply IH.
    rewrite (Nat2Z.inj_succ (S k)), Z.pow_succ_r in Hn by lia.
    split; [apply Z.div_pos; lia|apply Z.div_lt_upper_bound; lia].
Qed.

Lemma vlan_id_small v : 0 <= v < 10 ^ 7 -> is_Some (vlan_id v).
Proof using.
  intros Hv. unfold vlan_id, show_int. rewrite s32_small by lia. replace (v <? 0) with false by lia.
  pose proof (show_digits_length 6 10 v Hv). rewrite (proj2 (Nat.ltb_lt _ 8)) by lia. by eexists.
Qed.

Lemma read_nw_config_spec s :
  small_vlans (cfg s) -> wp ecosap_read_nw_config (fun _ s' => exists v, s' = set_vlan_names v s) s.
Proof using.
  intros Hv. unfold ecosap_read_nw_config. apply wp_get.
  destruct (Z.eqb_spec (vlan_flag (vlan (cfg s))) 0).
  { apply wp_ret. exists (vlan_names s). by destruct s. }
  destruct Hv as [|[H1 H2]]; [done|].
  destruct (vlan_id_small _ H1) as [i1 E1]. destruct (vlan_id_small _ H2) as [i2 E2].
  apply wp_bind, (wp_lift _ i1 _ _ E1), wp_bind, (wp_lift _ i2 _ _ E2), wp_bind.
  eapply (wp_lift _ _ _ _ eq_refl). eexists tt, _. split; [reflexivity|]. by eexists.
Qed.

Lemma wp_copy (Q : unit -> nw -> Prop) s :
  Q tt (set_new_cfg (cfg s) s) -> wp copy_nw_config_to_new_struct Q s.
Proof using. intros H. eexists tt, _. by split. Qed.

(** A start that finds a configuration loads it into both copies. *)
Lemma start_stored s :
  flash_writes -> flash_reads -> fit conf_codec (cfg s) = true ->
  available (stored_config (flash s)) = 1 -> small_vlans (stored_config (flash s)) ->
  wp ecosap_nw_default_start (fun _ s' =>
    cfg s' = stored_config (flash s) /\ new_cfg s' = stored_config (flash s) /\
    flash_memory (flash s') = flash_memory (flash s)) s.
Proof using All.
  intros W R Hf Ha Hv. unfold ecosap_nw_default_start. apply wp_bind.
  eapply wp_mono; [by apply available_spec|]. cbn beta. intros r s1 (f & -> & Hf1 & ->). rewrite Ha.
  change (0 =? 1) with false. apply wp_bind. eapply wp_mono; [by apply read_nw_config_spec|]. cbn beta.
  intros _ s2 [v ->]. apply wp_copy. cbn [cfg new_cfg flash set_new_cfg set_vlan_names set_flash set_cfg]. auto.
Qed.

(** A start that finds none sets the factory configuration and stores it. *)
Lemma start_empty s :
  flash_writes -> flash_reads -> heap_ok s = true -> fit conf_codec (cfg s) = true ->
  available (stored_config (flash s)) = 0 ->
  wp ecosap_nw_default_start (fun _ s' =>
    cfg s' = factory_config /\ new_cfg s' = factory_config /\ holds_config factory_config (flash s')) s.
Proof using All.
  intros W R Hh Hf Ha. unfold ecosap_nw_default_start. apply wp_bind.
  eapply wp_mono; [by apply available_spec|]. cbn beta. intros r s1 (f & -> & Hf1 & ->). rewrite Ha.
  apply wp_bind. eapply wp_mono; [apply config_default_spec|]. cbn beta. intros _ s2 (-> & H2).
  apply wp_copy. cbn [cfg new_cfg flash set_new_cfg set_vlan_names set_flash set_cfg]. auto.
Qed.
End Flash.

(** ** Properties *)

(** A configuration saved by write_nw_flash is the one both copies have after the next
    start. *)
Lemma config_survives `{P : Platform} `{!FlashLaws P} (s : nw) :
  flash_writes -> flash_reads -> heap_ok s = true -> fit conf_codec (new_cfg s) = true ->
  Magic_Number (head (new_cfg s)) = CONFIG_MAGIC_NUM -> small_vlans (new_cfg s) ->
  wp write_nw_flash (fun _ s1 =>
    forall s2 : nw, fit conf_codec (cfg s2) = true -> flash_memory (flash s2) = flash_memory (flash s1) ->
    wp ecosap_nw_default_start (fun _ s3 =>
      cfg s3 = new_cfg s /\ new_cfg s3 = new_cfg s /\ holds_config (new_cfg s) (flash s3)) s2) s.
Proof.
  intros W R Hh Hc Hm Hv. eapply wp_mono; [by apply write_nw_flash_spec|]. cbn beta.
  intros _ s1 (_ & H1). specialize (H1 W Hh). intros s2 Hf2 Hmem.
  assert (stored_config (flash s2) = new_cfg s) as E.
  { apply stored_holds; [done|]. unfold holds_config. by rewrite Hmem. }
  eapply wp_mono; [apply start_stored; try done|].
  - unfold available. rewrite E, Hm. by rewrite Z.eqb_refl.
  - by rewrite E.
  - cbn beta. intros _ s3 (-> & -> & Hm3). rewrite E. split; [done|]. split; [done|].
    unfold holds_config. by rewrite Hm3, Hmem.
Qed.

(** A start on a flash without the magic number, an empty one for example, sets
    the factory configuration, and the start after it finds that configuration. *)
Theorem first_start_stores_defaults `{P : Platform} `{!FlashLaws P} (s : nw) :
  flash_writes -> flash_reads -> heap_ok s = true -> fit conf_codec (cfg s) = true ->
  available (stored_config (flash s)) = 0 ->
  wp ecosap_nw_default_start (fun _ s1 =>
    cfg s1 = factory_config /\ new_cfg s1 = factory_config /\
    forall s2 : nw, fit conf_codec (cfg s2) = true -> flash_memory (flash s2) = flash_memory (flash s1) ->
    wp ecosap_nw_default_start (fun _ s3 => cfg s3 = factory_config /\ new_cfg s3 = factory_config) s2) s.
Proof.
  intros W R Hh Hc Ha. eapply wp_mono; [by apply start_empty|]. cbn beta.
  intros _ s1 (-> & -> & H1). split; [done|]. split; [done|]. intros s2 Hf2 Hmem.
  assert (stored_config (flash s2) = factory_config) as E.
  { apply stored_holds; [apply factory_fits|]. unfold holds_config. by rewrite Hmem. }
  eapply wp_mono; [apply start_stored; rewrite ?E; try done; by left|]. cbn beta.
  intros _ s3 (-> & -> & _). by rewrite E.
Qed.

(** A start during which reading the flash fails replaces the stored
    configuration, whatever it is, by the factory configuration: the result codes of
    the flash package are not negative, so the error passes for a successful read of
    the memory at start, which has no magic number. *)
Theorem read_error_erases_config `{P : Platform} `{!FlashLaws P} (s : nw) f1 r f2 :
  flash_writes -> heap_ok s = true -> fit conf_codec (cfg s) = true -> available (cfg s) = 0 ->
  cyg_flash_init (flash s) = (0, f1) ->
  cyg_flash_read (enc conf_codec (cfg s)) f1 = (r, enc conf_codec (cfg s), f2) -> 0 < r ->
  wp ecosap_nw_default_start (fun _ s' => holds_config factory_config (flash s')) s.
Proof.
  intros W Hh Hc Ha E1 E2 Hr. unfold ecosap_nw_default_start. apply wp_bind.
  eapply wp_mono; [by eapply available_error|]. cbn beta. intros n s1 (-> & ->). rewrite Ha.
  apply wp_bind. eapply wp_mono; [apply config_default_spec|]. cbn beta. intros _ s2 (-> & H2).
  apply wp_copy. cbn [cfg new_cfg flash set_new_cfg set_vlan_names set_flash set_cfg]. auto.
Qed.

(** ** A flash in memory, on which the properties are tried *)
Definition pad_sector (bs : list byte) : list byte := take SECTOR_SIZE (map u8 bs ++ replicate SECTOR_SIZE 0xff).

(** [fails] is what reading returns. *)
#[export] Instance ram_platform (fails : Z) : Platform := {|
  flash_state := list byte;
  fw_state := unit;
  flash_memory := pad_sector;
  cyg_flash_init f := (0, f);
  cyg_flash_erase f := (0, replicate SECTOR_SIZE 0xff);
  cyg_flash_program bs f := (0, bs);
  cyg_flash_read buf f :=
    if fails =? 0 then (0, take (length buf) (pad_sector f), f) else (fails, buf, f);
  ecosap_nw_ipfw_rules_config ac args w := (0, args, w);
  ecosap_nw_nat_config ff ac args w := (0, args, w);
  enable_dmz_ipfw_rule w := (0, w);
  disable_dmz_ipfw_rule w := (0, w) |}.

#[export] Instance ram_platform_laws fails : FlashLaws (ram_platform fails).
Proof.
  constructor; cbn.
  - intros f. unfold pad_sector. rewrite length_take, length_app, length_replicate. lia.
  - intros f. unfold pad_sector. apply Forall_take, Forall_app. split; [|by apply Forall_replicate].
    apply Forall_fmap, Forall_true. intros x. apply (uwrap_range 8). lia.
  - done.
  - intros bs f f1 f2 [= <-] [= <-] Hl Hby. unfold pad_sector.
    assert (map u8 bs = bs) as ->.
    { clear Hl. induction Hby as [|b bs Hb _ IH]; [done|]. cbn [map]. rewrite IH. f_equal. by apply (uwrap_small 8). }
    rewrite take_app_le by lia. apply take_ge. lia.
  - intros. by case_match.
  - intros buf bs f f1. case_match; bool_lia; intros; by simplify_eq.
Qed.

Lemma ram_writes fails : @flash_writes (ram_platform fails).
Proof. by constructor. Qed.

Lemma ram_reads : @flash_reads (ram_platform 0).
Proof. done. Qed.

(** The memory at start. *)
Definition blank_config : ecosap_config :=
  EcosapConfig (ConfHead (replicate 24 0) (replicate 8 0) 0 0 0 0 0) (VlanConfig 0 0 0 0) (VpnptConfig 0 0 0)
    (WanConfig [] [] [] [] [] [] []) (PppoeConfig [] [] 0 [] [] 0) (BridgeConf 0 0 0 0) (DhcpConfig 0 [] [] 0)
    (BrInfo [] 0 (replicate 10 [])) (replicate 5 (IpfwRule (replicate 16 []) 0 0)) (DmzConfig 0 []) 0
    (replicate 24 0)
    (WlanDefault 0 [] (WlanAp 0 [] 0 0 [] [] [] 0 0) (WlanIptv [] 0 [] [] 0) (WlanSta 0 [] [] [] 0)).

Definition boot_state fails (bs : list byte) : @nw (ram_platform fails) :=
  @Nw (ram_platform fails) blank_config blank_config (LanConfig [] [] []) [] 0 (replicate 16 []) false false true bs tt.

Definition factory_state : @nw (ram_platform 0) :=
  set_new_cfg factory_config (set_cfg factory_config (boot_state 0 [])).

Lemma first_start_stores_defaults_witness :
  wp ecosap_nw_default_start (fun _ s1 =>
    cfg s1 = factory_config /\ new_cfg s1 = factory_config /\
    forall s2 : @nw (ram_platform 0), fit conf_codec (cfg s2) = true -> flash_memory (flash s2) = flash_memory (flash s1) ->
    wp ecosap_nw_default_start (fun _ s3 => cfg s3 = factory_config /\ new_cfg s3 = factory_config) s2)
    (boot_state 0 []).
Proof.
  apply first_start_stores_defaults; [apply ram_writes|apply ram_reads|done|vm_compute; done|].
  unfold stored_config. rewrite sizeof_config_eq. vm_compute. done.
Defined.

Lemma read_error_erases_config_witness :
  wp ecosap_nw_default_start (fun _ s' => holds_config factory_config (flash s'))
    (boot_state 3 (enc conf_codec factory_config)).
Proof.
  eapply (read_error_erases_config _ _ 3); [apply ram_writes|done|vm_compute; done|done|done|done|done].
Defined.
