(* ===== verification/NwRulesSpec.v ===== *)
(** * The table of firewall rules

    The rules of the two copies of the configuration refine one table of five
    slots, each empty or holding the arguments of a rule; the functions of
    ecosap_nw.c delete from it and insert into it. The move of the LAN to another
    subnet keeps its configuration consistent. *)
From S2P Require Import Prelude.
From S2P Require Import CStr.
From S2P Require Import NwAddr.
From S2P Require Import NwAddrSpec.
From S2P Require Import NwStruct.
From S2P Require Import NwConf.
From S2P Require Import NwConfSpec.
From S2P Require Import NwRules.

(** ** Well-formed rules *)
Definition rule_ok (r : ipfw_rule) : bool :=
  fit ipfw_codec r && ((is_deleted r =? 0) || (is_deleted r =? 1)).

Definition table_ok (rs : list ipfw_rule) : Prop :=
  length rs = FLASH_IPFW_INDEX_SIZE /\ Forall (fun r => rule_ok r = true) rs.

Lemma ipfw_fit_eq r :
  fit ipfw_codec r = fit (c_array MAX_IPFW_RULE_ARGC (c_chars 24)) (ipfw_rules r) &&
                     (fit u32c (ipfw_argc r) && fit u32c (is_deleted r)).
Proof. done. Qed.

Lemma rule_args r : rule_ok r = true -> length (ipfw_rules r) = 16%nat.
Proof.
  unfold rule_ok. rewrite ipfw_fit_eq, !andb_true_iff. intros [[H _] _]. cbn in H.
  apply andb_true_iff in H as [H _]. by apply Nat.eqb_eq in H.
Qed.

Lemma rule_arg r i : rule_ok r = true -> (i < 16)%nat -> exists a, arg (ipfw_rules r) i = Some a.
Proof. intros Hr Hi. apply lookup_lt_is_Some_2. by rewrite rule_args. Qed.

Lemma deleted_ok r : rule_ok r = true -> rule_ok (set_deleted_flag r) = true.
Proof.
  unfold rule_ok. rewrite !ipfw_fit_eq. cbn [ipfw_rules ipfw_argc is_deleted set_deleted_flag].
  rewrite !andb_true_iff. intros [(H1 & H2 & _) _]. by rewrite H1, H2.
Qed.

(** ** The abstract table *)
Definition slot : Type := option (list cstring).

Definition live (r : ipfw_rule) : slot := if is_deleted r =? 0 then Some (ipfw_rules r) else None.

Definition slots (rs : list ipfw_rule) : list slot := map live rs.

(** Whether argument [i] of the rule is [a]. *)
Definition has_arg (i : nat) (a : cstring) (args : list cstring) : bool :=
  bool_decide (arg args i = Some a).

(** Empties the slots whose rule satisfies [p]. *)
Definition remove_rules (p : list cstring -> bool) (t : list slot) : list slot :=
  map (fun o => match o with Some a => if p a then None else Some a | None => None end) t.

(** Puts a rule into the first empty slot, when there is one. *)
Fixpoint add_rule (a : list cstring) (t : list slot) : list slot :=
  match t with
  | [] => []
  | None :: t' => Some a :: t'
  | Some b :: t' => Some b :: add_rule a t'
  end.

Definition table_full (t : list slot) : bool := forallb (fun o => match o with Some _ => true | None => false end) t.

(** ** The loops *)
Lemma arg_is_eq args i s a : arg args i = Some a -> arg_is args i s = Some (streq a (str s)).
Proof. intros H. unfold arg_is. by rewrite H. Qed.

Lemma has_arg_eq args i a b : arg args i = Some b -> has_arg i a args = streq b a.
Proof.
  intros H. unfold has_arg, streq. rewrite H. apply bool_decide_ext. split; [by intros [= ->]|by intros ->].
Qed.

(** The slots a deletion of [kind] and [id] empties. *)
Definition rule_of (kind : string) (id : cstring) (args : list cstring) : bool :=
  has_arg 1 (str kind) args && has_arg 2 id args.

Definition any_rule (p : list cstring -> bool) (t : list slot) : bool :=
  existsb (fun o => match o with Some a => p a | None => false end) t.

Lemma delete_loop_spec kind id rs : forall flag,
  Forall (fun r => rule_ok r = true) rs ->
  exists rs', delete_loop kind id rs rs flag =
      Some (rs', rs', if any_rule (rule_of kind id) (slots rs) then 1 else flag) /\
    Forall (fun r => rule_ok r = true) rs' /\ length rs' = length rs /\
    slots rs' = remove_rules (rule_of kind id) (slots rs).
Proof.
  induction rs as [|r rs IH]; intros flag Hrs; [by exists []|].
  inversion Hrs as [|? ? Hr Hrs']; subst.
  destruct (rule_arg r 1 Hr) as [k Hk]; [lia|]. destruct (rule_arg r 2 Hr) as [i Hi]; [lia|].
  assert (rule_of kind id (ipfw_rules r) = streq k (str kind) && streq i id) as Hof.
  { unfold rule_of. by rewrite (has_arg_eq _ _ _ _ Hk), (has_arg_eq _ _ _ _ Hi). }
  set (hit := streq k (str kind) && streq i id && (is_deleted r =? 0)).
  destruct (IH (if hit then 1 else flag) Hrs') as (rs' & E & Hok & Hl & Hs).
  exists ((if hit then set_deleted_flag r else r) :: rs').
  cbn [delete_loop]. rewrite (arg_is_eq _ _ _ _ Hk). cbn [mbind option_bind]. rewrite Hi. cbn [mbind option_bind].
  fold hit. rewrite E. cbn [mbind option_bind].
  split; [|split; [|split]].
  - f_equal. f_equal. unfold slots, any_rule. cbn [map existsb]. unfold live at 2.
    unfold hit. destruct (is_deleted r =? 0); rewrite ?andb_true_r, ?andb_false_r, ?Hof; [|done].
    by destruct (streq k (str kind) && streq i id), (existsb _ _).
  - constructor; [|done]. destruct hit; [by apply deleted_ok|done].
  - cbn. by rewrite Hl.
  - unfold slots in *. cbn [map remove_rules]. rewrite Hs. f_equal.
    unfold hit, live. destruct (is_deleted r =? 0) eqn:E0; rewrite ?andb_true_r, ?andb_false_r, ?Hof.
    + destruct (streq k (str kind) && streq i id); cbn; [done|]. by rewrite E0.
    + by rewrite E0.
Qed.

Lemma duplicate_loop_spec id rs :
  Forall (fun r => rule_ok r = true) rs ->
  exists rs', duplicate_loop id rs rs = Some (rs', rs') /\
    Forall (fun r => rule_ok r = true) rs' /\ length rs' = length rs /\
    slots rs' = remove_rules (has_arg 2 id) (slots rs).
Proof.
  induction rs as [|r rs IH]; intros Hrs; [by exists []|].
  inversion Hrs as [|? ? Hr Hrs']; subst. destruct (rule_arg r 2 Hr) as [i Hi]; [lia|].
  destruct (IH Hrs') as (rs' & E & Hok & Hl & Hs).
  exists ((if streq i id && (is_deleted r =? 0) then set_deleted_flag r else r) :: rs').
  cbn [duplicate_loop]. rewrite Hi. cbn [mbind option_bind]. rewrite E. cbn [mbind option_bind].
  split; [done|]. split; [|split].
  - constructor; [|done]. case_match; [by apply deleted_ok|done].
  - cbn. by rewrite Hl.
  - unfold slots in *. cbn [map remove_rules]. rewrite Hs. f_equal. unfold live.
    destruct (is_deleted r =? 0) eqn:E0; rewrite ?andb_true_r, ?andb_false_r, ?(has_arg_eq _ _ _ _ Hi).
    + destruct (streq i id); cbn; [done|]. by rewrite E0.
    + by rewrite E0.
Qed.

Lemma full_spec rs :
  Forall (fun r => rule_ok r = true) rs -> is_flash_ipfw_full rs = if table_full (slots rs) then 1 else 0.
Proof.
  induction 1 as [|r rs Hr _ IH]; [done|]. cbn. rewrite IH. unfold live.
  unfold rule_ok in Hr. apply andb_true_iff in Hr as [_ Hr].
  destruct (Z.eqb_spec (is_deleted r) 1) as [->|]; [done|]. by replace (is_deleted r =? 0) with true by lia.
Qed.

Lemma first_deleted_spec rs new :
  Forall (fun r => rule_ok r = true) rs -> table_full (slots rs) = false -> is_deleted new = 0 ->
  exists k, first_deleted rs = Some k /\ (k < length rs)%nat /\
    slots (<[k := new]> rs) = add_rule (ipfw_rules new) (slots rs).
Proof.
  intros Hrs Hf Hn. induction Hrs as [|r rs Hr _ IH]; [done|].
  cbn [first_deleted slots map table_full forallb] in *. unfold live at 1 in Hf.
  unfold rule_ok in Hr. apply andb_true_iff in Hr as [_ Hr].
  destruct (Z.eqb_spec (is_deleted r) 1) as [E|E].
  - exists 0%nat. cbn. split; [done|]. split; [lia|]. unfold live. by rewrite E, Hn.
  - assert ((is_deleted r =? 0) = true) as E0 by lia. rewrite E0 in Hf. cbn in Hf. destruct (IH Hf) as (k & -> & Hk & Hs).
    exists (S k). split; [done|]. split; [cbn; lia|].
    change (<[S k := new]> (r :: rs)) with (r :: <[k := new]> rs).
    unfold slots in *. cbn [map]. rewrite Hs. unfold live. by rewrite E0.
Qed.

(** ** The two copies *)
#[global] Arguments conf_codec : simpl never.

Lemma conf_fit_eq c :
  fit conf_codec c = fit head_codec (head c) && (fit vlan_codec (vlan c) && (fit vpnpt_codec (vpnpt c) &&
    (fit wan_codec (wan_addrs c) && (fit pppoe_codec (pppoe c) && (fit bridge_codec (bridge c) &&
    (fit dhcp_codec (dhcp_server c) && (fit br_codec (bridge_info c) && (true &&
    (fit (c_array FLASH_IPFW_INDEX_SIZE ipfw_codec) (ipfw c) && (fit dmz_codec (dmz c) &&
    (fit u32c (igmp_status c) && (fit (c_bytes 24) (reserved c) && fit wlan_codec (wlan c))))))))))))).
Proof. done. Qed.

Lemma head_fit_eq h :
  fit head_codec h = fit (c_bytes 24) (mac_addr h) && (fit (c_bytes 8) (conf_pad h) &&
    (fit u32c (Magic_Number h) && (fit u32c (Connection_Type h) && (fit u32c (lan_status h) &&
    (fit u32c (wan_status h) && fit u32c (is_flashrule_full h)))))).
Proof. done. Qed.

Lemma u32_fit z : 0 <= z < 2 ^ 32 -> fit u32c z = true.
Proof. cbn [fit u32c c_uint]. change (2 ^ (8 * Z.of_nat 4)) with (2 ^ 32). lia. Qed.

Lemma table_fits rs : table_ok rs -> fit (c_array FLASH_IPFW_INDEX_SIZE ipfw_codec) rs = true.
Proof.
  intros [Hl Hr]. cbn [fit c_array]. apply andb_true_iff. split; [by apply Nat.eqb_eq|].
  apply forallb_forall. rewrite Forall_forall in Hr. intros r Hin%list_elem_of_In%Hr.
  by apply andb_true_iff in Hin as [? _].
Qed.

Lemma fit_with_ipfw c rs : fit conf_codec c = true -> table_ok rs -> fit conf_codec (with_ipfw rs c) = true.
Proof.
  rewrite !conf_fit_eq, !andb_true_iff. intros H Ht%table_fits.
  cbn [head vlan vpnpt wan_addrs pppoe bridge dhcp_server bridge_info ipfw dmz igmp_status reserved wlan with_ipfw].
  tauto.
Qed.

Lemma fit_with_head c h : fit conf_codec c = true -> fit head_codec h = true -> fit conf_codec (with_head h c) = true.
Proof.
  rewrite !conf_fit_eq, !andb_true_iff. intros H Hh.
  cbn [head vlan vpnpt wan_addrs pppoe bridge dhcp_server bridge_info ipfw dmz igmp_status reserved wlan with_head].
  tauto.
Qed.

Lemma fit_with_full c z : fit conf_codec c = true -> 0 <= z < 2 ^ 32 -> fit conf_codec (with_full z c) = true.
Proof.
  intros Hc Hz. apply fit_with_head; [done|]. rewrite conf_fit_eq, andb_true_iff, head_fit_eq in Hc.
  rewrite head_fit_eq. cbn [mac_addr conf_pad Magic_Number Connection_Type lan_status wan_status is_flashrule_full].
  rewrite !andb_true_iff in Hc |- *. pose proof (u32_fit z Hz). tauto.
Qed.

Section Sync.
Context `{P : Platform}.

(** Both copies hold the same well-formed table. *)
Definition in_sync (s : nw) : Prop := ipfw (cfg s) = ipfw (new_cfg s) /\ table_ok (ipfw (cfg s)).

(** The table of a state. *)
Definition table (s : nw) : list slot := slots (ipfw (new_cfg s)).

Lemma wp_modify_last (g : nw -> nw) (Q : unit -> nw -> Prop) s : Q tt (g s) -> wp (modify g) Q s.
Proof using. intros H. by exists tt, (g s). Qed.

(** The state with [rs] and the flag [z] in both copies. *)
Definition with_rules (rs : list ipfw_rule) (z : Z) (s : nw) : nw :=
  set_new_cfg (with_full z (with_ipfw rs (new_cfg s))) (set_cfg (with_full z (with_ipfw rs (cfg s))) s).

Lemma with_rules_sync rs z s : table_ok rs -> in_sync (with_rules rs z s).
Proof using. done. Qed.

Lemma delete_from_flash_spec kind id s :
  in_sync s ->
  wp (delete_from_flash kind id) (fun _ s' => exists rs,
    table_ok rs /\ slots rs = remove_rules (rule_of kind id) (table s) /\
    let flag := if any_rule (rule_of kind id) (table s) then 1 else 0 in
    s' = with_rules rs flag (set_is_flash_rule flag s)) s.
Proof using.
  intros (Heq & Hl & Hok). unfold table. rewrite <- Heq. unfold delete_from_flash. apply wp_get, wp_bind.
  destruct (delete_loop_spec kind id (ipfw (cfg s)) 0 Hok) as (rs & E & Hok' & Hl' & Hs).
  rewrite <- Heq. apply (wp_lift _ _ _ _ E). apply wp_modify, wp_modify, wp_modify_last.
  exists rs. split; [split; [by rewrite Hl'|done]|]. split; [done|]. by destruct s.
Qed.
End Sync.

(** ** Properties *)

(** Delete_rule_from_flash and delete_nat_from_flash followed by
    cli_http_rule_deletion empty exactly the slots that hold a rule of that kind
    with that number, in both copies; the copies stay equal and are marked as not
    full, and when a slot was emptied the new configuration is in the flash. *)
Theorem delete_rule_ok `{P : Platform} `{!FlashLaws P} (kind : string) (id : cstring) (s : nw) :
  in_sync s -> fit conf_codec (new_cfg s) = true ->
  wp (_ ← delete_from_flash kind id; cli_http_rule_deletion) (fun _ s' =>
    in_sync s' /\ table s' = remove_rules (rule_of kind id) (table s) /\
    is_flashrule_full (head (new_cfg s')) = 0 /\
    (any_rule (rule_of kind id) (table s) = true -> flash_writes -> heap_ok s = true ->
     holds_config (new_cfg s') (flash s'))) s.
Proof.
  intros Hs Hf. apply wp_bind. eapply wp_mono; [by apply delete_from_flash_spec|]. cbn beta.
  intros _ s1 (rs & Hok & Hrs & ->). cbv zeta. unfold cli_http_rule_deletion. apply wp_get.
  destruct (any_rule (rule_of kind id) (table s)); cbn [is_flash_rule with_rules set_new_cfg set_cfg set_is_flash_rule].
  - change (1 =? 1) with true. cbv iota. apply wp_modify.
    eapply wp_mono; [apply write_nw_flash_spec|].
    { cbn. apply fit_with_full; [|lia]. apply fit_with_full; [|lia]. by apply fit_with_ipfw. }
    cbn beta. intros _ s2 (-> & H2). cbn in H2 |- *. split; [done|]. split; [done|]. split; [done|].
    intros _ W Hh. by apply H2.
  - apply wp_ret. done.
Qed.

(** The arguments of a rule as they are stored. *)
Definition stored_args (argc : Z) (args : list cstring) : list cstring := ipfw_rules (stored_rule argc args).

(** The table without the rules that carry the number of a new NAT rule. *)
Definition without_duplicates (args : list cstring) (t : list slot) : list slot :=
  match arg args 1, arg args 2 with
  | Some k, Some id => if streq k (str "nat") then remove_rules (has_arg 2 id) t else t
  | _, _ => t
  end.

Lemma stored_rule_ok argc args :
  0 <= argc <= 16 -> length args = 16%nat -> forallb (fit (c_chars 24)) args = true ->
  rule_ok (stored_rule argc args) = true.
Proof.
  intros Ha Hl Hf. unfold rule_ok. rewrite ipfw_fit_eq. cbn [ipfw_rules ipfw_argc is_deleted stored_rule].
  assert (fit (c_array MAX_IPFW_RULE_ARGC (c_chars 24))
    (take (Z.to_nat argc) args ++ replicate (MAX_IPFW_RULE_ARGC - Z.to_nat argc) []) = true) as ->.
  { cbn [fit c_array]. rewrite andb_true_iff, forallb_app, andb_true_iff. split; [|split].
    - apply Nat.eqb_eq. rewrite length_app, length_take, length_replicate. unfold MAX_IPFW_RULE_ARGC. lia.
    - rewrite <- (take_drop (Z.to_nat argc) args), forallb_app in Hf. by apply andb_true_iff in Hf as [? _].
    - apply forallb_forall. intros x Hx%list_elem_of_In%elem_of_replicate_inv. by subst x. }
  by rewrite (u32_fit argc), (u32_fit 0) by lia.
Qed.

Lemma insert_ok k r rs : rule_ok r = true -> table_ok rs -> table_ok (<[k := r]> rs).
Proof.
  intros Hr [Hl Hok]. split; [by rewrite length_insert|]. by apply Forall_insert.
Qed.

Lemma add_rule_full a t : table_full t = true -> add_rule a t = t.
Proof. induction t as [|[b|] t IH]; cbn; intros H; [done| |done]. by rewrite IH. Qed.

Section Insert.
Context `{P : Platform} `{!FlashLaws P}.

Lemma del_duplicate_spec id s :
  in_sync s ->
  wp (del_duplicate_nat id) (fun _ s' => exists rs,
    table_ok rs /\ slots rs = remove_rules (has_arg 2 id) (table s) /\
    s' = set_new_cfg (with_ipfw rs (new_cfg s)) (set_cfg (with_ipfw rs (cfg s)) s)) s.
Proof using.
  intros (Heq & Hl & Hok). unfold table. rewrite <- Heq. unfold del_duplicate_nat. apply wp_get, wp_bind.
  destruct (duplicate_loop_spec id (ipfw (cfg s)) Hok) as (rs & E & Hok' & Hl' & Hs).
  rewrite <- Heq. apply (wp_lift _ _ _ _ E), wp_modify_last.
  exists rs. split; [split; [by rewrite Hl'|done]|]. by split.
Qed.

Lemma store_rule_spec argc args s :
  in_sync s -> fit conf_codec (new_cfg s) = true -> rule_ok (stored_rule argc args) = true ->
  wp (store_rule argc args) (fun _ s' =>
    in_sync s' /\ heap_ok s' = heap_ok s /\
    table s' = add_rule (stored_args argc args) (table s) /\
    is_flashrule_full (head (new_cfg s')) = (if table_full (table s) then 1 else 0) /\
    (table_full (table s) = false -> flash_writes -> heap_ok s = true -> holds_config (new_cfg s') (flash s'))) s.
Proof using All.
  intros [Heq Htab] Hf Hr. unfold table. unfold store_rule. apply wp_get.
  rewrite full_spec by apply Htab. rewrite Heq. apply wp_modify.
  destruct (table_full (slots (ipfw (new_cfg s)))) eqn:E.
  - change (1 =? 1) with true. cbv iota. apply wp_ret. cbn.
    split; [by split; [cbn; congruence|]|]. split; [done|]. by rewrite add_rule_full.
  - change (0 =? 1) with false. change (0 =? 0) with true. cbv iota. apply wp_get.
    cbn [new_cfg set_new_cfg ipfw with_full with_head].
    destruct (first_deleted_spec (ipfw (new_cfg s)) (stored_rule argc args)) as (k & -> & Hk & Hs);
      [rewrite <- Heq; apply Htab|done|done|].
    apply wp_modify. rewrite Heq in Htab. eapply wp_mono; [apply write_nw_flash_spec|].
    { cbn. apply fit_with_ipfw; [by apply fit_with_full|]. by apply insert_ok. }
    cbn beta. intros _ s' (-> & Hw). cbn in Hw |- *. split; [|split; [done|split; [done|split; [done|]]]].
    + split; cbn; [by rewrite Heq|]. rewrite Heq. by apply insert_ok.
    + intros _ W Hh. by apply Hw.
Qed.
End Insert.

(** Write_ipfw_rules_in_flash puts the rule into the first empty slot of both
    copies and of the flash, after a NAT rule has removed every rule with its
    number; when no slot is empty the table stays as it is and both copies are
    marked as full; the mutex is released. *)
Theorem write_rule_ok `{P : Platform} `{!FlashLaws P} (argc : Z) (args : list cstring) (s : nw) :
  in_sync s -> fit conf_codec (new_cfg s) = true -> locked s = false ->
  0 <= argc <= 16 -> length args = 16%nat -> forallb (fit (c_chars 24)) args = true ->
  wp (write_ipfw_rules_in_flash argc args) (fun _ s' =>
    let t := without_duplicates args (table s) in
    in_sync s' /\ locked s' = false /\
    table s' = add_rule (stored_args argc args) t /\
    is_flashrule_full (head (new_cfg s')) = (if table_full t then 1 else 0) /\
    (table_full t = false -> flash_writes -> heap_ok s = true -> holds_config (new_cfg s') (flash s'))) s.
Proof.
  intros Hs Hf Hlk Ha Hl Hfa. pose proof (stored_rule_ok _ _ Ha Hl Hfa) as Hr.
  destruct (lookup_lt_is_Some_2 args 1) as [k Hk]; [lia|]. destruct (lookup_lt_is_Some_2 args 2) as [id Hid]; [lia|].
  cbv zeta.
  replace (without_duplicates args (table s)) with
    (if streq k (str "nat") then remove_rules (has_arg 2 id) (table s) else table s)
    by (unfold without_duplicates, arg; by rewrite Hk, Hid).
  unfold write_ipfw_rules_in_flash, mutex_lock. apply wp_bind, wp_get. rewrite Hlk. apply wp_modify_last, wp_bind.
  apply (wp_lift _ _ _ _ (arg_is_eq _ _ _ _ Hk)), wp_bind.
  assert (forall s1 : nw, in_sync s1 -> fit conf_codec (new_cfg s1) = true -> heap_ok s1 = heap_ok s ->
    table s1 = (if streq k (str "nat") then remove_rules (has_arg 2 id) (table s) else table s) ->
    wp (_ ← store_rule argc args; mutex_unlock) (fun _ s' =>
      let t := if streq k (str "nat") then remove_rules (has_arg 2 id) (table s) else table s in
      in_sync s' /\ locked s' = false /\ table s' = add_rule (stored_args argc args) t /\
      is_flashrule_full (head (new_cfg s')) = (if table_full t then 1 else 0) /\
      (table_full t = false -> flash_writes -> heap_ok s = true -> holds_config (new_cfg s') (flash s'))) s1) as Hstore.
  { intros s1 H1 H2 H3 H4. cbv zeta. rewrite <- H4, <- H3. apply wp_bind.
    eapply wp_mono; [by apply store_rule_spec|]. cbn beta. intros _ s2 (G1 & _ & G2). by apply wp_modify_last. }
  destruct (streq k (str "nat")).
  - apply wp_bind, (wp_lift _ _ _ _ Hid). eapply wp_mono; [by apply del_duplicate_spec|]. cbn beta.
    intros _ s1 (rs & Hok & Hrs & ->). apply Hstore; [done|by apply fit_with_ipfw|done|done].
  - apply wp_ret. by apply Hstore.
Qed.

(** ** The LAN *)

(** [pool] is an address of the network of [ip]. *)
Definition in_subnet (ip : Z) (pool : cstring) : Prop :=
  exists a, fits 32 a /\ pool = inet_ntoa a /\ same24 a ip.

(** The broadcast address and the DHCP pool belong to the network of the LAN. *)
Definition lan_ok (c : ecosap_config) : Prop :=
  let ip := inaddr_ip (bridge c) in
  fits 32 ip /\ inaddr_broad (bridge c) = word (ip_byte ip 0) (ip_byte ip 1) (ip_byte ip 2) 255 /\
  in_subnet ip (DHCP_From (dhcp_server c)) /\ in_subnet ip (DHCP_To (dhcp_server c)).

(** Network of [ip], host [h]. *)
Definition host_in (ip h : Z) : Z := word (ip_byte ip 0) (ip_byte ip 1) (ip_byte ip 2) h.

Lemma host_in_ok ip h : fits 32 ip -> is_byte h ->
  fits 32 (host_in ip h) /\ same24 (host_in ip h) ip /\ ip_byte (host_in ip h) 3 = h.
Proof.
  intros Hip Hh. assert (fits 32 (host_in ip h)) as Hf by (apply word_fits; done || apply ip_byte_bound).
  split; [done|]. unfold host_in in *. split.
  - apply same24_bytes; [done|done|]. rewrite !word_byte by (done || apply ip_byte_bound || lia). done.
  - by rewrite word_byte by (done || apply ip_byte_bound || lia).
Qed.

Lemma lor_disjoint_word a b c d h :
  is_byte a -> is_byte b -> is_byte c -> is_byte h -> d = 0 -> Z.lor h (word a b c d) = word a b c h.
Proof.
  intros Ha Hb Hc Hh ->. unfold word, is_byte in *.
  replace (a * 2 ^ 24 + b * 2 ^ 16 + c * 2 ^ 8 + 0) with (Z.shiftl (a * 2 ^ 16 + b * 2 ^ 8 + c) 8)
    by (rewrite Z.shiftl_mul_pow2 by lia; ring).
  rewrite Z.lor_comm, lor_shiftl_add by lia. ring.
Qed.

Lemma mask_net ip : fits 32 ip -> Z.land ip 0xFFFFFF00 = word (ip_byte ip 0) (ip_byte ip 1) (ip_byte ip 2) 0.
Proof.
  intros Hip. rewrite (word_bytes ip Hip) at 1. change 0xFFFFFF00 with (word 255 255 255 0).
  by rewrite mask_word by (apply ip_byte_bound || (by left) || by right).
Qed.

Lemma mask_host ip : fits 32 ip -> Z.land ip 0x000000FF = ip_byte ip 3.
Proof. done. Qed.

Lemma move_pool_spec a ip :
  fits 32 a -> fits 32 ip -> move_pool (inet_ntoa a) ip = Some (inet_ntoa (host_in ip (ip_byte a 3))).
Proof.
  intros Ha Hip. unfold move_pool. rewrite aton_ntoa by done. cbn [mbind option_bind].
  rewrite mask_net, mask_host by done. rewrite lor_disjoint_word by (done || apply ip_byte_bound).
  by rewrite strlcpy_ntoa.
Qed.

Lemma ntoa_fit ip : fit (c_chars 16) (inet_ntoa ip) = true.
Proof.
  cbn [fit c_chars]. pose proof (ntoa_length ip). rewrite (proj2 (Nat.ltb_lt _ _)) by lia. cbn [andb].
  rewrite inet_ntoa_eq. pose proof (show_byte_ok ip) as Hok.
  assert (forall i, forallb (fun c => (0 <? c) && (c <? 256)) (show_byte (ip_byte ip i)) = true) as Hd.
  { intros i. apply forallb_forall. intros c Hc%list_elem_of_In. specialize (Hok i).
    rewrite Forall_forall in Hok. specialize (Hok c Hc). unfold is_digit in Hok. lia. }
  by repeat first [rewrite forallb_app | rewrite Hd | progress cbn [forallb andb]].
Qed.

Lemma fit_with_bridge c b :
  fit conf_codec c = true -> fit bridge_codec b = true -> fit conf_codec (with_bridge b c) = true.
Proof.
  rewrite !conf_fit_eq, !andb_true_iff. intros H Hb.
  cbn [head vlan vpnpt wan_addrs pppoe bridge dhcp_server bridge_info ipfw dmz igmp_status reserved wlan with_bridge].
  tauto.
Qed.

Lemma fit_with_dhcp c d :
  fit conf_codec c = true -> fit dhcp_codec d = true -> fit conf_codec (with_dhcp d c) = true.
Proof.
  rewrite !conf_fit_eq, !andb_true_iff. intros H Hb.
  cbn [head vlan vpnpt wan_addrs pppoe bridge dhcp_server bridge_info ipfw dmz igmp_status reserved wlan with_dhcp].
  tauto.
Qed.

Lemma dhcp_fit_eq d :
  fit dhcp_codec d = fit u32c (dhcps_enable d) && (fit (c_chars 16) (DHCP_From d) &&
    (fit (c_chars 16) (DHCP_To d) && fit u32c (Lease_Time d))).
Proof. done. Qed.

Lemma bridge_fit_eq b :
  fit bridge_codec b = fit u32c (inaddr_ip b) && (fit u32c (inaddr_mas b) && (fit u32c (inaddr_gw b) &&
    fit u32c (inaddr_broad b))).
Proof. done. Qed.

(** The pool of [d] in the network of [ip]. *)
Definition pool_in (ip : Z) (d : dhcp_config) (from to : Z) : dhcp_config :=
  DhcpConfig (dhcps_enable d) (inet_ntoa (host_in ip (ip_byte from 3))) (inet_ntoa (host_in ip (ip_byte to 3)))
    (Lease_Time d).

Lemma pool_fit c ip from to :
  fit conf_codec c = true -> fit dhcp_codec (pool_in ip (dhcp_server c) from to) = true.
Proof.
  rewrite conf_fit_eq, !andb_true_iff, !dhcp_fit_eq, !andb_true_iff. intros H. cbn [pool_in dhcps_enable DHCP_From DHCP_To Lease_Time].
  rewrite !ntoa_fit. tauto.
Qed.

Lemma change_dhcp_pool_spec `{P : Platform} s from to :
  fits 32 from -> fits 32 to -> fits 32 (inaddr_ip (bridge (new_cfg s))) ->
  DHCP_From (dhcp_server (new_cfg s)) = inet_ntoa from -> DHCP_To (dhcp_server (new_cfg s)) = inet_ntoa to ->
  wp change_dhcp_pool (fun _ s' => s' =
    set_new_cfg (with_dhcp (pool_in (inaddr_ip (bridge (new_cfg s))) (dhcp_server (new_cfg s)) from to) (new_cfg s)) s) s.
Proof.
  intros Hf Ht Hip E1 E2. unfold change_dhcp_pool. apply wp_get. rewrite E1, E2.
  apply wp_bind, (wp_lift _ _ _ _ (move_pool_spec from _ Hf Hip)).
  apply wp_bind, (wp_lift _ _ _ _ (move_pool_spec to _ Ht Hip)). by apply wp_modify_last.
Qed.

Lemma pool_in_subnet ip d from to :
  fits 32 ip -> in_subnet ip (DHCP_From (pool_in ip d from to)) /\ in_subnet ip (DHCP_To (pool_in ip d from to)).
Proof.
  intros Hip. split; cbn.
  - exists (host_in ip (ip_byte from 3)). pose proof (host_in_ok ip _ Hip (ip_byte_bound from 3)). tauto.
  - exists (host_in ip (ip_byte to 3)). pose proof (host_in_ok ip _ Hip (ip_byte_bound to 3)). tauto.
Qed.

(** Change_lan_subnet gives the LAN the address change_octal computes and moves
    the broadcast address and the DHCP pool with it: the hosts of the pool stay, the
    network is another one (unless no network is left and the address becomes 0);
    the result is in the flash, the mutex is free and the system reboots. *)
Theorem change_lan_subnet_ok `{P : Platform} `{!FlashLaws P} (s : nw) (from to : Z) :
  let ip := inaddr_ip (bridge (new_cfg s)) in
  locked s = false -> lan_ok (new_cfg s) -> fit conf_codec (new_cfg s) = true ->
  fits 32 from -> fits 32 to ->
  DHCP_From (dhcp_server (new_cfg s)) = inet_ntoa from -> DHCP_To (dhcp_server (new_cfg s)) = inet_ntoa to ->
  wp change_lan_subnet (fun _ s' =>
    let ip' := inaddr_ip (bridge (new_cfg s')) in
    ip' = change_octal ip /\ lan_ok (new_cfg s') /\
    DHCP_From (dhcp_server (new_cfg s')) = inet_ntoa (host_in ip' (ip_byte from 3)) /\
    DHCP_To (dhcp_server (new_cfg s')) = inet_ntoa (host_in ip' (ip_byte to 3)) /\
    (ip' <> 0 -> ~ same24 ip ip') /\
    locked s' = false /\ rebooting s' = true /\
    (flash_writes -> heap_ok s = true -> holds_config (new_cfg s') (flash s'))) s.
Proof.
  cbv zeta. intros Hlk Hlan Hfit Hf Ht E1 E2. destruct Hlan as (Hip & _).
  destruct (change_octal_facts _ Hip) as (_ & Hip' & _ & Hdiff).
  set (ip := inaddr_ip (bridge (new_cfg s))) in *.
  unfold change_lan_subnet, mutex_lock. apply wp_bind, wp_get. rewrite Hlk.
  apply wp_modify_last, wp_modify, wp_bind.
  eapply wp_mono; [by apply (change_dhcp_pool_spec _ from to)|]. cbn beta. intros _ s1 ->.
  apply wp_modify, wp_bind. cbn [new_cfg set_new_cfg set_locked bridge with_bridge inaddr_ip with_dhcp dhcp_server].
  fold ip. rewrite mask_net, Z.lor_comm, lor_disjoint_word by (done || apply ip_byte_bound).
  eapply wp_mono; [apply write_nw_flash_spec|].
  { cbn. fold ip. apply fit_with_dhcp; [|by apply pool_fit]. apply fit_with_bridge; [done|].
    rewrite conf_fit_eq, !andb_true_iff, bridge_fit_eq, !andb_true_iff in Hfit. rewrite bridge_fit_eq.
    cbn [inaddr_ip inaddr_mas inaddr_gw inaddr_broad].
    destruct (host_in_ok (change_octal ip) 255 Hip' ltac:(done)) as (Hb & _).
    unfold host_in in Hb. rewrite (u32_fit _ Hip'), (u32_fit _ Hb), !andb_true_iff. tauto. }
  cbn beta. intros _ s2 (-> & Hw). apply wp_modify_last. cbn in Hw |- *. fold ip in Hw |- *.
  split; [done|]. split; [|repeat split; try done; by intros].
  unfold lan_ok. cbn. fold ip. split; [done|]. split; [done|].
  apply (pool_in_subnet (change_octal ip) (dhcp_server (new_cfg s)) from to Hip').
Qed.

(** ** The properties on the factory configuration *)
Lemma factory_sync : in_sync factory_state.
Proof.
  split; [done|]. split; [done|]. apply forallb_Forall. by vm_compute.
Qed.

Lemma factory_fit : fit conf_codec (new_cfg factory_state) = true.
Proof. by vm_compute. Qed.

Lemma factory_lan : lan_ok (new_cfg factory_state).
Proof.
  split; [vm_compute; split; done|]. split; [by vm_compute|].
  split; [exists 0xC0A80002|exists 0xC0A800C8]; (split; [unfold fits; lia|by vm_compute]).
Qed.

Lemma delete_rule_ok_witness :
  wp (_ ← delete_from_flash "add" (str "140"); cli_http_rule_deletion) (fun _ (s' : @nw (ram_platform 0)) =>
    in_sync s' /\ table s' = remove_rules (rule_of "add" (str "140")) (table factory_state) /\
    is_flashrule_full (head (new_cfg s')) = 0 /\
    (any_rule (rule_of "add" (str "140")) (table factory_state) = true -> @flash_writes (ram_platform 0) ->
     heap_ok factory_state = true -> holds_config (new_cfg s') (flash s'))) factory_state.
Proof. apply delete_rule_ok; [apply factory_sync|apply factory_fit]. Defined.

Definition nat_rule : list cstring :=
  map str ["ipfw"; "nat"; "300"; "config"; "if"; "ppp0"]%string ++ replicate 10 [].

Lemma write_rule_ok_witness :
  wp (write_ipfw_rules_in_flash 6 nat_rule) (fun _ (s' : @nw (ram_platform 0)) =>
    let t := without_duplicates nat_rule (table factory_state) in
    in_sync s' /\ locked s' = false /\
    table s' = add_rule (stored_args 6 nat_rule) t /\
    is_flashrule_full (head (new_cfg s')) = (if table_full t then 1 else 0) /\
    (table_full t = false -> @flash_writes (ram_platform 0) -> heap_ok factory_state = true -> holds_config (new_cfg s') (flash s')))
    factory_state.
Proof. apply write_rule_ok; [apply factory_sync|apply factory_fit|done|lia|done|by vm_compute]. Defined.

Lemma change_lan_subnet_ok_witness :
  let ip := inaddr_ip (bridge (new_cfg factory_state)) in
  wp change_lan_subnet (fun _ (s' : @nw (ram_platform 0)) =>
    let ip' := inaddr_ip (bridge (new_cfg s')) in
    ip' = change_octal ip /\ lan_ok (new_cfg s') /\
    DHCP_From (dhcp_server (new_cfg s')) = inet_ntoa (host_in ip' (ip_byte 0xC0A80002 3)) /\
    DHCP_To (dhcp_server (new_cfg s')) = inet_ntoa (host_in ip' (ip_byte 0xC0A800C8 3)) /\
    (ip' <> 0 -> ~ same24 ip ip') /\
    locked s' = false /\ rebooting s' = true /\
    (@flash_writes (ram_platform 0) -> heap_ok factory_state = true -> holds_config (new_cfg s') (flash s'))) factory_state.
Proof.
  apply (change_lan_subnet_ok factory_state 0xC0A80002 0xC0A800C8);
    [done|apply factory_lan|apply factory_fit|unfold fits; lia|unfold fits; lia|by vm_compute|by vm_compute].
Defined.
