(* ===== verification/NwCmd.v ===== *)
(** * The configuration commands of the shell

    The commands of shell/cli_utils.c that change the configuration. A command gets
    the list of its arguments ([argv], [argc] its length) and returns its result
    code; where it calls findClass or isvalidrange, what the stack holds is a further
    argument. Using an argument that is not there, or a pointer that no option has
    set, is undefined. The packages the commands belong to are all present. *)
From S2P Require Import Prelude.
From S2P Require Import CStr.
From S2P Require Import NwAddr.
From S2P Require Import NwStruct.
From S2P Require Import NwConf.
From S2P Require Import NwRules.

Definition SHELL_OK : Z := 0.
Definition SHELL_INVALID_ARGUMENT : Z := 3.
Definition MIN_CLI_HTTP_IPFW_ARGC : Z := 2.
Definition MAX_CLI_HTTP_IPFW_ARGC : Z := 14.
Definition NAT_DELETE_ARGC : Z := 4.

(** Options in pairs: [step] handles a name and its value and gives the options set
    so far, or the code the command returns at once. *)
Fixpoint options {A} (step : A -> cstring -> cstring -> option (A + Z)) (acc : A) (argv : list cstring)
    : option (A + Z) :=
  match argv with
  | name :: value :: rest =>
      r ← step acc name value;
      match r with inl acc' => options step acc' rest | inr code => Some (inr code) end
  | _ => Some (inl acc)
  end.

(** ** Options *)
Record pppoe_opts := PppoeOpts { o_user : option cstring; o_pass : option cstring; o_mtu : Z }.

Definition pppoe_step (o : pppoe_opts) (name value : cstring) : option (pppoe_opts + Z) :=
  if streq name (str "-U") then Some (inl (PppoeOpts (Some value) (o_pass o) (o_mtu o)))
  else if streq name (str "-P") then Some (inl (PppoeOpts (o_user o) (Some value) (o_mtu o)))
  else if streq name (str "-M") then
    if isvalid_digit value then
      v ← atoi (c_str value);
      let mtu := u16 v in
      if is_valid_mtu mtu then Some (inl (PppoeOpts (o_user o) (o_pass o) mtu))
      else Some (inr SHELL_INVALID_ARGUMENT)
    else Some (inr SHELL_INVALID_ARGUMENT)
  else Some (inr SHELL_INVALID_ARGUMENT).

Record static_opts := StaticOpts {
  s_ip : option cstring; s_gateway : option cstring; s_mask : option cstring; s_dns : option cstring;
  s_adns : option cstring; s_server : option cstring }.

Definition no_static : static_opts := StaticOpts None None None None None None.

(** An option whose value must satisfy [check]; otherwise the command returns 0. *)
Definition checked {A} (check : option bool) (acc : A) : option (A + Z) :=
  ok ← check; Some (if ok : bool then inl acc else inr 0).

Definition static_step (o : static_opts) (name value : cstring) : option (static_opts + Z) :=
  let '(StaticOpts ip gw mask dns adns server) := o in
  let v := Some value in
  if streq name (str "-I") then checked (isvalidip value) (StaticOpts v gw mask dns adns server)
  else if streq name (str "-G") then checked (isvalidip value) (StaticOpts ip v mask dns adns server)
  else if streq name (str "-M") then checked (Some (isvalid_mask value)) (StaticOpts ip gw v dns adns server)
  else if streq name (str "-D1") then checked (isvalidip value) (StaticOpts ip gw mask v adns server)
  else if streq name (str "-D2") then checked (isvalidip value) (StaticOpts ip gw mask dns v server)
  else if streq name (str "-S") then checked (isvalidip value) (StaticOpts ip gw mask dns adns v)
  else Some (inr 0).

Record dhcp_opts := DhcpOpts { d_ip1 : option cstring; d_ip2 : option cstring; d_time : Z }.

Definition dhcp_step (o : dhcp_opts) (name value : cstring) : option (dhcp_opts + Z) :=
  if streq name (str "-S") then checked (isvalidip value) (DhcpOpts (Some value) (d_ip2 o) (d_time o))
  else if streq name (str "-E") then checked (isvalidip value) (DhcpOpts (d_ip1 o) (Some value) (d_time o))
  else if streq name (str "-T") then
    v ← atoi (c_str value);
    checked (Some (isvalidTime (u32 v))) (DhcpOpts (d_ip1 o) (d_ip2 o) (u32 v))
  else Some (inr 0).

Record route_opts := RouteOpts { r_ip : option cstring; r_mask : option cstring; r_gateway : option cstring }.

Definition route_step (o : route_opts) (name value : cstring) : option (route_opts + Z) :=
  let check acc := ok ← isvalidip value; Some (if ok : bool then inl acc else inr SHELL_INVALID_ARGUMENT) in
  if streq name (str "-I") then check (RouteOpts (Some value) (r_mask o) (r_gateway o))
  else if streq name (str "-M") then check (RouteOpts (r_ip o) (Some value) (r_gateway o))
  else if streq name (str "-G") then check (RouteOpts (r_ip o) (r_mask o) (Some value))
  else Some (inr SHELL_INVALID_ARGUMENT).

(** route_add only looks at its arguments. *)
Definition route_add (argv : list cstring) : option Z :=
  if negb (Nat.eqb (length argv) 7) then Some SHELL_INVALID_ARGUMENT
  else
    add ← arg_is argv 0 "add";
    if negb add then Some SHELL_INVALID_ARGUMENT
    else
      r ← options route_step (RouteOpts None None None) (tl argv);
      Some (match r with inl _ => SHELL_OK | inr code => code end).

Section Commands.
Context `{P : Platform}.

(** The mutex is held while the new configuration is changed and written. *)
Definition save (f : ecosap_config -> ecosap_config) : M nw unit :=
  _ ← mutex_lock;
  _ ← modify (fun s => set_new_cfg (f (new_cfg s)) s);
  _ ← write_nw_flash;
  mutex_unlock.

(** ** VLAN, VPN, defaults *)
Definition setiptvconfig (argv : list cstring) : M nw Z :=
  match argv with
  | [] => mret SHELL_INVALID_ARGUMENT
  | [a] =>
      if streq a (str "disable") then
        _ ← save (fun c => let v := vlan c in
              with_vlan (VlanConfig 0 (is_tagged v) (inet_value v) (iptv_value v)) c);
        mret SHELL_OK
      else mret SHELL_INVALID_ARGUMENT
  | [a; b; t] =>
      if negb (streq a (str "enable")) then mret SHELL_INVALID_ARGUMENT
      else if negb (isvalid_digit b) then mret SHELL_INVALID_ARGUMENT
      else
        v ← lift (atoi (c_str b));
        let vlan_id := u32 v in
        if negb ((vlan_id >=? VLAN_VALUE_MIN) && (vlan_id <=? VLAN_VALUE_MAX)) then mret SHELL_INVALID_ARGUMENT
        else if streq t (str "access") || streq t (str "trunk") then
          let tagged := if streq t (str "access") then 0 else 1 in
          _ ← save (fun c => with_vlan (VlanConfig 1 tagged (inet_value (vlan c)) vlan_id) c);
          mret SHELL_OK
        else mret SHELL_INVALID_ARGUMENT
  | _ => mret SHELL_INVALID_ARGUMENT
  end.

(** The change under the mutex; the flash is written after it is released. *)
Definition vpn_passthrough (argv : list cstring) : M nw Z :=
  match argv with
  | [what; a] =>
      if streq a (str "enable") || streq a (str "disable") then
        let is_enable := if streq a (str "enable") then 1 else 0 in
        let change f :=
          _ ← mutex_lock;
          _ ← modify (fun s => set_new_cfg (with_vpnpt (f (vpnpt (new_cfg s))) (new_cfg s)) s);
          _ ← mutex_unlock;
          _ ← write_nw_flash; mret SHELL_OK in
        if streq what (str "pptp") then
          change (fun v => VpnptConfig is_enable (is_l2tp_enable v) (is_ipsec_enable v))
        else if streq what (str "l2tp") then
          change (fun v => VpnptConfig (is_pptp_enable v) is_enable (is_ipsec_enable v))
        else if streq what (str "ipsec") then
          change (fun v => VpnptConfig (is_pptp_enable v) (is_l2tp_enable v) is_enable)
        else mret SHELL_INVALID_ARGUMENT
      else mret SHELL_INVALID_ARGUMENT
  | _ => mret SHELL_INVALID_ARGUMENT
  end.

Definition make_default (argv : list cstring) : M nw Z :=
  _ ← ecosap_nw_config_default; _ ← watchdog_reboot; mret SHELL_OK.

Definition wflash (argv : list cstring) : M nw Z := _ ← write_nw_flash; mret SHELL_OK.

(** ** WAN *)
Definition set_pppoe (argv : list cstring) : M nw Z :=
  if negb (Nat.eqb (length argv) 7) then mret SHELL_INVALID_ARGUMENT
  else
    r ← lift (options pppoe_step (PppoeOpts None None 0) (tl argv));
    match r with
    | inr code => mret code
    | inl o =>
        user ← lift (o_user o);
        pass ← lift (o_pass o);
        _ ← save (fun c => with_connection PPPoE
              (with_pppoe (PppoeConfig (strlcpy user 32) (strlcpy pass 32) (o_mtu o) (Service_Name (pppoe c))
                (Server_Name (pppoe c)) (MAX_Idle_Time (pppoe c))) c));
        mret SHELL_OK
    end.

(** An address that is given and is the address of the LAN. *)
Definition is_lan_addr (o : option cstring) (c : ecosap_config) : bool :=
  match o with Some a => inet_addr a =? inaddr_ip (bridge c) | None => false end.

Definition set_static (argv : list cstring) : M nw Z :=
  if negb (Nat.eqb (length argv) 13) then mret SHELL_INVALID_ARGUMENT
  else
    r ← lift (options static_step no_static (tl argv));
    match r with
    | inr code => mret code
    | inl o =>
        s ← get_state;
        if is_lan_addr (s_ip o) (cfg s) then mret 0
        else if is_lan_addr (s_dns o) (cfg s) then mret 0
        else if is_lan_addr (s_adns o) (cfg s) then mret 0
        else
          ip ← lift (s_ip o);
          mask ← lift (s_mask o);
          match gen_broadcast_addr ip mask with
          | None => mret 1
          | Some bcast =>
              conflict ← lift (issamesubnet ip (inet_ntoa (inaddr_ip (bridge (cfg s)))));
              if conflict : bool then mret 0
              else
                gateway ← lift (s_gateway o);
                dns ← lift (s_dns o);
                adns ← lift (s_adns o);
                server ← lift (s_server o);
                let cut v := strlcpy v IPADDR_SIZE in
                _ ← save (fun c => with_connection STATIC_IP
                      (with_wan (WanConfig (cut ip) (cut mask) (cut gateway) (cut dns) (cut adns) (cut bcast)
                        (cut server)) c));
                mret SHELL_OK
          end
    end.

Definition set_wan_config (argv : list cstring) : M nw Z :=
  match argv with
  | [] => mret 0
  | a :: _ =>
      if streq a (str "-h") then mret SHELL_INVALID_ARGUMENT
      else if streq a (str "0") then
        if Nat.ltb 2 (length argv) then mret SHELL_INVALID_ARGUMENT
        else _ ← save (with_connection DHCP); mret 0
      else if streq a (str "1") then set_pppoe argv
      else if streq a (str "2") then set_static argv
      else mret SHELL_OK
  end.

(** ** LAN *)
Definition set_lan_config (temp : mem) (erange : bool) (argv : list cstring) : M nw Z :=
  match argv with
  | [] => mret 0
  | a :: _ =>
      ok ← lift (isvalidip a);
      if negb ok then mret (-1)
      else
        let ip := strlcpy a IPADDR_SIZE in
        _ ← modify (fun s => set_lan_addrs (LanConfig ip (l_Mask (lan_addrs s)) (l_Broadcast (lan_addrs s))) s);
        s ← get_state;
        conflict ← lift (issamesubnet (w_IPAddr (wan_addrs (cfg s))) ip);
        if conflict : bool then mret 0
        else
          class ← lift (findClass temp erange ip);
          match set_lanmask class with
          | None => mret (-1)
          | Some mask =>
              _ ← modify (fun s => set_lan_addrs (LanConfig ip mask (l_Broadcast (lan_addrs s))) s);
              match gen_broadcast_addr ip mask with
              | None => mret (-1)
              | Some bcast =>
                  _ ← modify (set_lan_addrs (LanConfig ip mask bcast));
                  _ ← mutex_lock;
                  addr1 ← lift (inet_aton ip);
                  addr2 ← lift (inet_aton bcast);
                  addr3 ← lift (inet_aton mask);
                  _ ← modify (fun s => set_new_cfg (with_bridge
                         (BridgeConf addr1 addr3 (inaddr_gw (bridge (new_cfg s))) addr2) (new_cfg s)) s);
                  _ ← change_dhcp_pool;
                  _ ← write_nw_flash;
                  _ ← mutex_unlock;
                  mret SHELL_OK
              end
          end
  end.

(** ** DHCP server *)
Definition dhcp_serv_config (st : range_stack) (argv : list cstring) : M nw Z :=
  if Nat.ltb (length argv) 2 then mret 0
  else
    help ← lift (arg_is argv 0 "-h");
    if help : bool then mret 0
    else if negb (Nat.eqb (length argv) 6) then mret SHELL_OK
    else
      r ← lift (options dhcp_step (DhcpOpts None None 0) argv);
      match r with
      | inr code => mret code
      | inl o =>
          match d_ip1 o, d_ip2 o with
          | Some ip1, Some ip2 =>
              ok ← lift (isvalidrange st ip1 ip2);
              if ok : bool then
                _ ← save (fun c => with_dhcp (DhcpConfig (dhcps_enable (dhcp_server c))
                      (strlcpy ip1 IPADDR_SIZE) (strlcpy ip2 IPADDR_SIZE) (d_time o)) c);
                mret SHELL_OK
              else mret SHELL_INVALID_ARGUMENT
          | _, _ => mret SHELL_INVALID_ARGUMENT
          end
      end.

Definition start_dhcpd (argv : list cstring) : M nw Z :=
  match argv with
  | [a] =>
      if streq a (str "enable") || streq a (str "disable") then
        let z := if streq a (str "enable") then 1 else 0 in
        _ ← modify (fun s => let d := dhcp_server (new_cfg s) in
               set_new_cfg (with_dhcp (DhcpConfig z (DHCP_From d) (DHCP_To d) (Lease_Time d)) (new_cfg s)) s);
        _ ← write_nw_flash; mret SHELL_OK
      else mret SHELL_INVALID_ARGUMENT
  | _ => mret SHELL_OK
  end.

(** ** DMZ and IGMP *)

(** A call of enable_dmz_ipfw_rule or disable_dmz_ipfw_rule. *)
Definition dmz_rule (op : fw_state -> Z * fw_state) : M nw Z :=
  s ← get_state;
  let '(ret, f) := op (fw s) in
  _ ← modify (set_fw f); mret ret.

(** [strncmp(word, a, strlen(a)) == 0] *)
Definition abbreviates (word : string) (a : cstring) : bool := starts_with a (str word).

Definition dmz_cmd (st1 st2 : range_stack) (argv : list cstring) : M nw Z :=
  s ← get_state;
  let from := strlcpy (DHCP_From (dhcp_server (cfg s))) IPADDR_SIZE in
  let to := strlcpy (DHCP_To (dhcp_server (cfg s))) IPADDR_SIZE in
  match argv with
  | [a] =>
      if abbreviates "disable" a then
        if dmz_status (dmz (new_cfg s)) =? 1 then
          _ ← save (fun c => with_dmz (DmzConfig 0 (dmz_host (dmz c))) c);
          r ← dmz_rule disable_dmz_ipfw_rule;
          mret (if negb (r =? 0) then -1 else SHELL_OK)
        else mret SHELL_OK
      else mret SHELL_OK
  | [a; ip] =>
      if abbreviates "enable" a then
        ok ← lift (isvalidip ip);
        if negb ok then mret SHELL_INVALID_ARGUMENT
        else
          let host := strlcpy ip IPADDR_SIZE in
          from_range ← lift (isvalidrange st1 from host);
          to_range ← lift (isvalidrange st2 host to);
          if from_range && to_range then
            _ ← save (with_dmz (DmzConfig 1 (strlcpy host IPADDR_SIZE)));
            r ← dmz_rule enable_dmz_ipfw_rule;
            mret (if negb (r =? 0) then -1 else SHELL_OK)
          else mret SHELL_OK
      else mret SHELL_OK
  | _ => mret SHELL_OK
  end.

Definition setigmpconfig (argv : list cstring) : M nw Z :=
  s ← get_state;
  let enabled := negb (Z.land (igmp_status (cfg s)) 1 =? 0) in
  match argv with
  | [a] =>
      if streq a (str "enable") then
        if enabled then mret SHELL_OK
        else _ ← modify (fun s => set_new_cfg (with_igmp 1 (new_cfg s)) s); _ ← write_nw_flash; mret SHELL_OK
      else if streq a (str "disable") then
        if enabled then
          _ ← modify (fun s => set_new_cfg (with_igmp 0 (new_cfg s)) s); _ ← write_nw_flash; mret SHELL_OK
        else mret SHELL_OK
      else mret SHELL_INVALID_ARGUMENT
  | _ => mret SHELL_INVALID_ARGUMENT
  end.

(** ** Firewall *)

(** [isvalidip(a) || strcmp(a, "any") == 0 || isvalid_ip_mask(a)] *)
Definition from_or_to (a : cstring) : option bool :=
  ip ← isvalidip a;
  if ip : bool then Some true
  else if streq a (str "any") then Some true else isvalid_ip_mask a.

Definition isvalid_fromto_ips (from to : cstring) : option bool :=
  f ← from_or_to from;
  if f : bool then from_or_to to else Some false.

(** An element of the static array of arguments. *)
Definition ipfw_arg (i : nat) : M nw cstring := s ← get_state; lift (arg (ipfw_args s) i).

(** Calls of the firewall with the static array. *)
Definition call_rules (argc : Z) : M nw Z :=
  s ← get_state; '(r, args) ← rules_config argc (ipfw_args s); _ ← modify (set_ipfw_args args); mret r.
Definition call_nat (argc : Z) : M nw Z :=
  s ← get_state; '(r, args) ← nat_config 0 argc (ipfw_args s); _ ← modify (set_ipfw_args args); mret r.

Definition write_args (argc : Z) : M nw unit := s ← get_state; write_ipfw_rules_in_flash argc (ipfw_args s).

Definition ipfw_add (argc : Z) : M nw Z :=
  a2 ← ipfw_arg 2; a3 ← ipfw_arg 3; a4 ← ipfw_arg 4;
  let nat := streq a3 (str "nat") in
  ok ← (if (argc >? 8) && negb nat then
          f ← ipfw_arg 6; t ← ipfw_arg 8; lift (isvalid_fromto_ips f t)
        else if nat then
          if negb (isvalid_digit a2) || negb (isvalid_digit a4) then mret false
          else f ← ipfw_arg 7; t ← ipfw_arg 9; lift (isvalid_fromto_ips f t)
        else mret true);
  if negb ok then mret SHELL_INVALID_ARGUMENT
  else
    r ← call_rules argc;
    if r =? -1 then mret SHELL_INVALID_ARGUMENT
    else if argc >? 8 then _ ← write_args argc; mret SHELL_OK
    else mret SHELL_OK.

(** The checks of a NAT command with more than six arguments. *)
Definition nat_redirect_ok : M nw bool :=
  a4 ← ipfw_arg 4; a6 ← ipfw_arg 6;
  if streq a4 (str "redirect_port") then lift (isvalidip_port (strlcpy a6 MAX_IPFW_RULE_ARGS_SIZE))
  else if streq a4 (str "redirect_addr") || streq a6 (str "redirect_addr") then
    a5 ← ipfw_arg 5; a7 ← ipfw_arg 7; a8 ← ipfw_arg 8;
    v5 ← lift (isvalidip a5);
    v56 ← (if v5 : bool then lift (isvalidip a6) else mret false);
    if v56 : bool then mret true
    else v7 ← lift (isvalidip a7); if v7 : bool then lift (isvalidip a8) else mret false
  else mret false.

Definition ipfw_nat (argc : Z) (not_accepted : M nw Z) : M nw Z :=
  ok ← (if argc >? 6 then nat_redirect_ok else mret true);
  if negb ok then mret SHELL_INVALID_ARGUMENT
  else if argc >=? 6 then
    r ← call_nat argc;
    if r =? -1 then mret SHELL_INVALID_ARGUMENT else _ ← write_args argc; mret SHELL_OK
  else
    a2 ← ipfw_arg 2; a3 ← ipfw_arg 3;
    if (argc =? NAT_DELETE_ARGC) && streq a2 (str "delete") && isvalid_digit a3 then
      r ← call_rules argc;
      if r =? -1 then mret (-1)
      else
        a3 ← ipfw_arg 3;
        _ ← delete_nat_from_flash a3; _ ← cli_http_rule_deletion; mret SHELL_OK
    else not_accepted.

(** [ipfw_args[0] = "ipfw"; ipfw_args[i] = argv[i - 1]] *)
Definition set_args (argv old : list cstring) : list cstring :=
  let new := str "ipfw" :: map (fun a => strlcpy a MAX_IPFW_RULE_ARGS_SIZE) argv in
  new ++ drop (length new) old.

Definition ipfw_func (argv : list cstring) : M nw Z :=
  let argc := Z.of_nat (length argv) + 1 in
  _ ← modify (fun s => set_ipfw_args (<[0%nat := str "ipfw"]> (ipfw_args s)) s);
  if (argc <? MIN_CLI_HTTP_IPFW_ARGC) || (argc >? MAX_CLI_HTTP_IPFW_ARGC) then mret SHELL_INVALID_ARGUMENT
  else
    _ ← modify (fun s => set_ipfw_args (set_args argv (ipfw_args s)) s);
    a1 ← ipfw_arg 1; a2 ← ipfw_arg 2;
    if streq a1 (str "add") then ipfw_add argc
    else if streq a1 (str "zero") then
      s ← get_state;
      '(r, args) ← do_ipfw_zero argc (ipfw_args s);
      _ ← modify (set_ipfw_args args);
      mret (if r =? -1 then SHELL_INVALID_ARGUMENT else SHELL_OK)
    else if streq a1 (str "delete") && isvalid_digit a2 then
      r ← call_rules argc;
      if r =? -1 then mret SHELL_INVALID_ARGUMENT
      else
        id ← lift (arg argv 1);
        _ ← delete_rule_from_flash id; _ ← cli_http_rule_deletion; mret SHELL_OK
    else if streq a1 (str "flush") then
      s ← get_state;
      '(r, args) ← do_flush_action argc (ipfw_args s);
      _ ← modify (set_ipfw_args args);
      mret (if r =? -1 then SHELL_INVALID_ARGUMENT else SHELL_OK)
    else if streq a1 (str "show") || streq a1 (str "list") then mret SHELL_OK
    else if streq a1 (str "nat") then ipfw_nat argc (mret SHELL_OK)
    else mret SHELL_OK.
End Commands.
