(* ===== verification/NwCmdSpec.v ===== *)
(** * What the configuration commands do

    Every command leaves the mutex free and the tables of firewall rules of the two
    copies equal; the LAN command gives a consistent configuration or refuses. *)
From S2P Require Import Prelude.
From S2P Require Import CStr.
From S2P Require Import NwAddr.
From S2P Require Import NwAddrSpec.
From S2P Require Import NwStruct.
From S2P Require Import NwConf.
From S2P Require Import NwConfSpec.
From S2P Require Import NwRules.
From S2P Require Import NwRulesSpec.
From S2P Require Import NwCmd.

Section Invariant.
Context `{P : Platform}.

(** Equal tables, and the mutex in state [b]. *)
Definition nw_inv (b : bool) (s : nw) : Prop := ipfw (cfg s) = ipfw (new_cfg s) /\ locked s = b.

#[local] Abbreviation stays b := (keeps (nw_inv b) (nw_inv b)).

Lemma stays_get {B} b (k : nw -> M nw B) : (forall s, stays b (k s)) -> stays b (get_state ≫= k).
Proof using. intros H s a s' Hs. by apply H. Qed.

Lemma stays_lift {A} b (o : option A) : stays b (lift o).
Proof using. intros s a s' Hs. unfold lift. destruct o; [|done]. by intros [= _ <-]. Qed.

Lemma stays_flash_op b op : stays b (flash_op op).
Proof using. apply stays_get. intros s. destruct (op (flash s)). apply (keeps_bind _ (nw_inv b)); [by apply keeps_modify|intros; apply keeps_ret]. Qed.

Lemma keeps_lock : keeps (nw_inv false) (nw_inv true) mutex_lock.
Proof using.
  intros s a s' [H1 H2]. unfold mutex_lock, mbind, M_bind, get_state. rewrite H2. by intros [= _ <-].
Qed.

Lemma keeps_unlock : keeps (nw_inv true) (nw_inv false) mutex_unlock.
Proof using. apply keeps_modify. by intros s [H1 H2]. Qed.
End Invariant.
Create HintDb nwkeeps.
#[global] Hint Resolve keeps_lock keeps_unlock : nwkeeps.

(** Follows the code of a computation that keeps [nw_inv b]. *)
Ltac stays_steps :=
  cbv zeta;
  lazymatch goal with
  | |- keeps _ _ (mret _) => apply keeps_ret
  | |- keeps _ _ crash => apply keeps_crash
  | |- keeps _ _ (lift _) => apply stays_lift
  | |- keeps _ _ (flash_op _) => apply stays_flash_op
  | |- keeps _ _ (get_state ≫= _) => apply stays_get; intros ?; stays_steps
  | |- keeps _ _ (modify _) => apply keeps_modify; (intros ? [? ?]; split; cbn in *; congruence)
  | |- keeps _ _ (mutex_lock ≫= _) => apply (keeps_bind _ (nw_inv true)); [apply keeps_lock|intros ?; stays_steps]
  | |- keeps _ _ (mutex_unlock ≫= _) => apply (keeps_bind _ (nw_inv false)); [apply keeps_unlock|intros ?; stays_steps]
  | |- keeps ?I _ (_ ≫= _) => apply (keeps_bind _ I); [stays_steps|intros ?; stays_steps]
  | |- keeps _ _ (match ?x with _ => _ end) => destruct x; stays_steps
  | |- _ => try solve [eauto with nwkeeps]
  end.

Section Commands.
Context `{P : Platform}.
#[local] Abbreviation stays b := (keeps (nw_inv b) (nw_inv b)).

Lemma stays_both b f : (forall c c', ipfw c = ipfw c' -> ipfw (f c) = ipfw (f c')) -> stays b (both f).
Proof using. intros Hf. apply keeps_modify. intros s [H1 H2]. split; [by apply Hf|done]. Qed.

Lemma stays_setconf b buf sz who : stays b (cyg_flash_setconf buf sz who).
Proof using. unfold cyg_flash_setconf. stays_steps. Qed.

Lemma stays_write b : stays b write_nw_flash.
Proof using.
  unfold write_nw_flash. apply stays_get. intros s. eapply keeps_bind; [apply stays_setconf|]. intros. apply keeps_ret.
Qed.

Lemma stays_rules_config b ac args : stays b (rules_config ac args).
Proof using.
  unfold rules_config. apply stays_get. intros s. destruct (ecosap_nw_ipfw_rules_config ac args (fw s)) as [[r a] f].
  stays_steps.
Qed.

Lemma stays_nat_config b ff ac args : stays b (nat_config ff ac args).
Proof using.
  unfold nat_config. apply stays_get. intros s. destruct (ecosap_nw_nat_config ff ac args (fw s)) as [[r a] f].
  stays_steps.
Qed.

(** The loops give equal lists for equal lists. *)
Lemma delete_loop_same kind id rs : forall flag cs ns z,
  delete_loop kind id rs rs flag = Some (cs, ns, z) -> cs = ns.
Proof using.
  induction rs as [|r rs IH]; intros flag cs ns z; cbn [delete_loop]; [by intros [= <- <- _]|].
  destruct (arg_is (ipfw_rules r) 1 kind) as [k|]; cbn [mbind option_bind]; [|done].
  destruct (arg (ipfw_rules r) 2) as [i|]; cbn [mbind option_bind]; [|done].
  destruct (delete_loop kind id rs rs _) as [[[cs2 ns2] z2]|] eqn:E; cbn; [|done].
  intros [= <- <- _]. by rewrite (IH _ _ _ _ E).
Qed.

Lemma duplicate_loop_same id rs : forall cs ns, duplicate_loop id rs rs = Some (cs, ns) -> cs = ns.
Proof using.
  induction rs as [|r rs IH]; intros cs ns; cbn [duplicate_loop]; [by intros [= <- <-]|].
  destruct (arg (ipfw_rules r) 2) as [i|]; cbn [mbind option_bind]; [|done].
  destruct (duplicate_loop id rs rs) as [[cs2 ns2]|] eqn:E; cbn; [|done].
  intros [= <- <-]. by rewrite (IH _ _ eq_refl).
Qed.

(** An assignment of new tables that are equal. *)
Lemma keeps_new_rules b {A} (o : option A) (tables : A -> list ipfw_rule * list ipfw_rule) (s : nw) :
  nw_inv b s -> (forall a, o = Some a -> fst (tables a) = snd (tables a)) ->
  keeps (fun s' => s' = s) (nw_inv b) (a ← lift o;
    modify (fun s => set_new_cfg (with_ipfw (snd (tables a)) (new_cfg s)) (set_cfg (with_ipfw (fst (tables a)) (cfg s)) s))).
Proof using.
  intros [Hs Hl] Ho s0 a s' -> E. destruct o as [x|]; [|done]. injection E as <- <-.
  split; [by apply Ho|done].
Qed.

Lemma stays_delete b kind id : stays b (delete_from_flash kind id).
Proof using.
  unfold delete_from_flash. apply keeps_get. intros s Hs s0 u s' -> E.
  destruct Hs as [Hs Hl]. rewrite <- Hs in E. unfold mbind at 1, M_bind at 1, lift in E.
  destruct (delete_loop kind id (ipfw (cfg s)) (ipfw (cfg s)) 0) as [[[cs ns] z]|] eqn:Ed; [|done].
  apply delete_loop_same in Ed. subst ns. injection E as _ <-. by split.
Qed.

Lemma stays_duplicate b id : stays b (del_duplicate_nat id).
Proof using.
  unfold del_duplicate_nat. apply keeps_get. intros s Hs s0 u s' -> E.
  destruct Hs as [Hs Hl]. rewrite <- Hs in E. unfold mbind at 1, M_bind at 1, lift in E.
  destruct (duplicate_loop id (ipfw (cfg s)) (ipfw (cfg s))) as [[cs ns]|] eqn:Ed; [|done].
  apply duplicate_loop_same in Ed. subst ns. injection E as _ <-. by split.
Qed.

Lemma stays_full b z : stays b (both (with_full z)).
Proof using. by apply stays_both. Qed.

Lemma stays_same_rules b (f : list ipfw_rule -> list ipfw_rule) :
  stays b (both (fun c => with_ipfw (f (ipfw c)) c)).
Proof using. apply stays_both. intros c c' H. cbn. by rewrite H. Qed.

Lemma stays_default_rules b : stays b default_flash_rule.
Proof using. by apply stays_both. Qed.
End Commands.
#[global] Hint Resolve stays_setconf stays_write stays_rules_config stays_nat_config stays_delete
  stays_duplicate stays_full stays_same_rules stays_default_rules : nwkeeps.

Section Invariants.
Context `{P : Platform}.
#[local] Abbreviation stays b := (keeps (nw_inv b) (nw_inv b)).

Lemma stays_http_deletion b : stays b cli_http_rule_deletion.
Proof using. unfold cli_http_rule_deletion. stays_steps. Qed.

Lemma stays_store b argc args : stays b (store_rule argc args).
Proof using. unfold store_rule. stays_steps. Qed.

Lemma stays_pool b : stays b change_dhcp_pool.
Proof using. unfold change_dhcp_pool. stays_steps. Qed.

Lemma stays_write_rule argc args : stays false (write_ipfw_rules_in_flash argc args).
Proof using.
  unfold write_ipfw_rules_in_flash. eapply keeps_bind; [apply keeps_lock|]. intros _.
  eapply keeps_bind; [apply stays_lift|]. intros is_nat.
  eapply (keeps_bind _ (nw_inv true)); [destruct is_nat; stays_steps|]. intros _.
  eapply keeps_bind; [apply stays_store|]. intros _. apply keeps_unlock.
Qed.

Lemma stays_flush b ac args : stays b (do_flush_action ac args).
Proof using. unfold do_flush_action. stays_steps. Qed.

Lemma stays_zero b ac args : stays b (do_ipfw_zero ac args).
Proof using. unfold do_ipfw_zero. stays_steps. Qed.

(** A change under the mutex that leaves the rules alone. *)
Lemma stays_save f : (forall c, ipfw (f c) = ipfw c) -> stays false (save f).
Proof using.
  intros Hf. unfold save. apply (keeps_bind _ (nw_inv true)); [apply keeps_lock|]. intros _.
  apply (keeps_bind _ (nw_inv true)); [|intros; stays_steps].
  apply keeps_modify. intros s [H1 H2]. split; cbn; [by rewrite Hf|done].
Qed.

Lemma stays_defaults b : stays b ecosap_nw_config_default.
Proof using.
  unfold ecosap_nw_config_default. apply (keeps_bind _ (fun s => locked s = b)).
  { apply keeps_modify. by intros s [_ H]. }
  intros _. apply (keeps_bind _ (nw_inv b)); [|intros; stays_steps].
  apply keeps_modify. intros s H. by split.
Qed.
End Invariants.
#[global] Hint Resolve stays_http_deletion stays_store stays_pool stays_write_rule stays_flush stays_zero
  stays_defaults : nwkeeps.
#[global] Hint Extern 1 (keeps _ _ (save _)) => (apply stays_save; done) : nwkeeps.

Section All.
Context `{P : Platform}.
#[local] Abbreviation stays b := (keeps (nw_inv b) (nw_inv b)).

Lemma stays_dmz_rule b op : stays b (dmz_rule op).
Proof using. unfold dmz_rule. apply stays_get. intros s. destruct (op (fw s)). stays_steps. Qed.

Lemma stays_ipfw_arg b i : stays b (ipfw_arg i).
Proof using. unfold ipfw_arg. stays_steps. Qed.

Lemma stays_call_rules b argc : stays b (call_rules argc).
Proof using. unfold call_rules. stays_steps. Qed.

Lemma stays_call_nat b argc : stays b (call_nat argc).
Proof using. unfold call_nat. stays_steps. Qed.

Lemma stays_write_args argc : stays false (write_args argc).
Proof using. unfold write_args. stays_steps. Qed.
#[local] Hint Resolve stays_dmz_rule stays_ipfw_arg stays_call_rules stays_call_nat stays_write_args : nwkeeps.

Lemma stays_ipfw_add argc : stays false (ipfw_add argc).
Proof using. unfold ipfw_add. stays_steps. Qed.

Lemma stays_nat_redirect b : stays b nat_redirect_ok.
Proof using. unfold nat_redirect_ok. stays_steps. Qed.
#[local] Hint Resolve stays_ipfw_add stays_nat_redirect : nwkeeps.

Lemma stays_ipfw_nat argc m : stays false m -> stays false (ipfw_nat argc m).
Proof using. intros Hm. unfold ipfw_nat. stays_steps. Qed.

Lemma stays_ipfw_func argv : stays false (ipfw_func argv).
Proof using.
  unfold ipfw_func. stays_steps. apply stays_ipfw_nat. stays_steps.
Qed.

Lemma stays_static argv : stays false (set_static argv).
Proof using. unfold set_static. stays_steps. Qed.

Lemma stays_pppoe argv : stays false (set_pppoe argv).
Proof using. unfold set_pppoe. stays_steps. Qed.
#[local] Hint Resolve stays_static stays_pppoe : nwkeeps.

(** The commands of the shell, with what the stack holds for those that look. *)
Definition commands (temp : mem) (erange : bool) (st1 st2 : range_stack) : list (list cstring -> M nw Z) :=
  [setiptvconfig; vpn_passthrough; make_default; wflash; set_wan_config; set_lan_config temp erange;
   dhcp_serv_config st1; start_dhcpd; dmz_cmd st1 st2; setigmpconfig; ipfw_func].

Lemma commands_stay temp erange st1 st2 argv : Forall (fun c => stays false (c argv)) (commands temp erange st1 st2).
Proof using.
  unfold commands. repeat apply List.Forall_cons; try apply List.Forall_nil.
  - unfold setiptvconfig. stays_steps.
  - unfold vpn_passthrough. stays_steps.
  - unfold make_default, watchdog_reboot. stays_steps.
  - unfold wflash. stays_steps.
  - unfold set_wan_config. stays_steps.
  - unfold set_lan_config. stays_steps.
  - unfold dhcp_serv_config. stays_steps.
  - unfold start_dhcpd. stays_steps.
  - unfold dmz_cmd. stays_steps.
  - unfold setigmpconfig. stays_steps.
  - apply stays_ipfw_func.
Qed.
End All.

(** ** The system as a state machine *)
Section Machine.
Context `{P : Platform}.

Lemma locked_lift {A} (o : option A) : preserves locked (lift o).
Proof using. intros s a s'. unfold lift. destruct o; [|done]. by intros [= _ <-]. Qed.

Lemma locked_flash_op op : preserves locked (flash_op op).
Proof using.
  intros s a s'. unfold flash_op, mbind, M_bind, get_state, modify. destruct (op (flash s)). by intros [= _ <-].
Qed.
#[local] Hint Resolve locked_lift locked_flash_op : ecos.

Ltac locked_steps :=
  cbv zeta;
  lazymatch goal with
  | |- preserves _ (mret _) => apply preserves_ret
  | |- preserves _ get_state => apply preserves_get
  | |- preserves _ (modify _) => apply preserves_modify; done
  | |- preserves _ (_ ≫= _) => apply preserves_bind; [locked_steps|intros ?; locked_steps]
  | |- preserves _ (match ?x with _ => _ end) => destruct x; locked_steps
  | |- _ => try solve [eauto with ecos]
  end.

Lemma locked_setconf buf sz who : preserves locked (cyg_flash_setconf buf sz who).
Proof using. unfold cyg_flash_setconf. locked_steps. Qed.
#[local] Hint Resolve locked_setconf : ecos.

Lemma locked_available : preserves locked Is_Config_Available.
Proof using.
  unfold Is_Config_Available, cyg_flash_getconf. locked_steps.
Qed.

Lemma locked_default : preserves locked ecosap_nw_config_default.
Proof using. unfold ecosap_nw_config_default, default_flash_rule, both. locked_steps. Qed.

Lemma locked_read : preserves locked ecosap_read_nw_config.
Proof using. unfold ecosap_read_nw_config. locked_steps. Qed.
#[local] Hint Resolve locked_available locked_default locked_read : ecos.

Lemma locked_start : preserves locked ecosap_nw_default_start.
Proof using.
  unfold ecosap_nw_default_start, copy_nw_config_to_new_struct. locked_steps.
Qed.

Lemma start_inv s u s' : ecosap_nw_default_start s = Some (u, s') -> nw_inv (locked s) s'.
Proof using.
  intros E. split; [|by eapply locked_start].
  unfold ecosap_nw_default_start, mbind, M_bind in E. destruct (Is_Config_Available s) as [[z s1]|]; [|done].
  destruct ((if 0 =? z then ecosap_nw_config_default else ecosap_read_nw_config) s1) as [[? s2]|]; [|done].
  by injection E as _ <-.
Qed.

(** A step of the running system: a command with any arguments, or the move of the
    LAN that the WAN side asks for. *)
Inductive nw_step : nw -> nw -> Prop :=
| step_command temp erange st1 st2 c argv s r s' :
    In c (commands temp erange st1 st2) -> c argv s = Some (r, s') -> nw_step s s'
| step_conflict s u s' : change_lan_subnet s = Some (u, s') -> nw_step s s'.

Lemma step_inv s s' : nw_step s s' -> nw_inv false s -> nw_inv false s'.
Proof using.
  intros [temp erange st1 st2 c argv s1 r s2 Hc E|s1 u s2 E] Hs.
  - pose proof (commands_stay temp erange st1 st2 argv) as H. rewrite Forall_forall in H.
    eapply (H c); [by apply list_elem_of_In|done|done].
  - assert (keeps (nw_inv false) (nw_inv false) change_lan_subnet) as H; [|by eapply H].
    unfold change_lan_subnet, watchdog_reboot. stays_steps.
Qed.
End Machine.

(** ** The LAN command *)

(** The mask of a class. *)
Definition class_mask (class : Z) : option Z :=
  if class =? 65 then Some 0xFF000000
  else if class =? 66 then Some 0xFFFF0000
  else if class =? 67 then Some 0xFFFFFF00
  else None.

Lemma set_lanmask_spec class :
  set_lanmask class = inet_ntoa <$> class_mask class.
Proof. unfold set_lanmask, class_mask. by repeat case_match. Qed.

(** The configuration set_lan_config makes of [c] for the address [ip] with the mask
    [m] and the pool addresses [from] and [to]. *)
Definition lan_moved (ip m from to : Z) (c : ecosap_config) : ecosap_config :=
  with_dhcp (pool_in ip (dhcp_server c) from to)
    (with_bridge (BridgeConf ip m (inaddr_gw (bridge c)) (Z.lor ip (u32 (Z.lnot m)))) c).

Lemma lor_mask_fits ip m : fits 32 ip -> fits 32 (Z.lor ip (u32 (Z.lnot m))).
Proof. intros. apply lor_bounded; [lia|done|]. apply uwrap_range. lia. Qed.

Lemma lan_moved_fit ip m from to c :
  fits 32 ip -> fits 32 m -> fit conf_codec c = true -> fit conf_codec (lan_moved ip m from to c) = true.
Proof.
  intros Hip Hm Hc. unfold lan_moved. apply fit_with_dhcp; [|by apply pool_fit].
  apply fit_with_bridge; [done|]. rewrite conf_fit_eq, !andb_true_iff, bridge_fit_eq, !andb_true_iff in Hc.
  rewrite bridge_fit_eq. cbn [inaddr_ip inaddr_mas inaddr_gw inaddr_broad].
  rewrite (u32_fit _ Hip), (u32_fit _ Hm), (u32_fit _ (lor_mask_fits ip m Hip)), !andb_true_iff. tauto.
Qed.

Section Lan.
Context `{P : Platform} `{!FlashLaws P}.

(** The part of the command behind the check of the address. *)
Lemma set_lan_config_spec temp erange ip m from to w s :
  fits 32 ip -> fits 32 w -> unicast ip = true -> class_mask (class_of (ip_byte ip 0)) = Some m ->
  ends_number temp (length (show_byte (ip_byte ip 0))) ->
  locked s = false -> fit conf_codec (new_cfg s) = true ->
  w_IPAddr (wan_addrs (cfg s)) = inet_ntoa w -> strstr (inet_ntoa w) (net24 ip) = None ->
  fits 32 from -> fits 32 to ->
  DHCP_From (dhcp_server (new_cfg s)) = inet_ntoa from -> DHCP_To (dhcp_server (new_cfg s)) = inet_ntoa to ->
  wp (set_lan_config temp erange [inet_ntoa ip]) (fun r s' =>
    r = SHELL_OK /\ new_cfg s' = lan_moved ip m from to (new_cfg s) /\ cfg s' = cfg s /\ locked s' = false /\
    (flash_writes -> heap_ok s = true -> holds_config (new_cfg s') (flash s'))) s.
Proof using All.
  intros Hip Hw Hu Hm Hend Hlk Hfit Ewan Hconf Hf Ht E1 E2.
  assert (fits 32 m) as Hmf.
  { revert Hm. unfold class_mask. repeat case_match; intros [= <-]; unfold fits; lia. }
  unfold set_lan_config. rewrite strlcpy_ntoa by done.
  apply wp_bind, (wp_lift _ true); [by rewrite isvalidip_ntoa, Hu|]. cbn [negb].
  apply wp_modify, wp_get. cbn [cfg set_lan_addrs].
  apply wp_bind, (wp_lift _ false).
  { rewrite Ewan, issamesubnet_eq, isvalidip_ntoa. cbn [mbind option_bind]. rewrite Hconf. by rewrite andb_false_r. }
  apply wp_bind, (wp_lift _ (class_of (ip_byte ip 0))).
  { rewrite inet_ntoa_eq. by apply findClass_byte; [apply ip_byte_bound|]. }
  rewrite set_lanmask_spec, Hm. cbn [fmap option_fmap option_map]. apply wp_modify.
  assert (gen_broadcast_addr (inet_ntoa ip) (inet_ntoa m) = Some (inet_ntoa (Z.lor ip (u32 (Z.lnot m))))) as ->.
  { unfold gen_broadcast_addr. rewrite !aton_ntoa by done. by rewrite strlcpy_ntoa. }
  apply wp_modify. unfold mutex_lock. apply wp_bind, wp_get. cbn [locked set_lan_addrs]. rewrite Hlk.
  apply wp_modify_last.
  apply wp_bind, (wp_lift _ _ _ _ (aton_ntoa _ Hip)).
  apply wp_bind, (wp_lift _ _ _ _ (aton_ntoa _ (lor_mask_fits ip m Hip))).
  apply wp_bind, (wp_lift _ _ _ _ (aton_ntoa _ Hmf)). apply wp_modify, wp_bind.
  eapply wp_mono; [apply (change_dhcp_pool_spec _ from to); done|]. cbn beta. intros _ s1 ->. apply wp_bind.
  eapply wp_mono; [apply write_nw_flash_spec; by apply (lan_moved_fit ip m from to (new_cfg s))|].
  cbn beta. intros _ s2 (-> & Hs). apply wp_bind, wp_modify_last, wp_ret. by cbn in *.
Qed.
End Lan.

(** ** Properties *)

(** C4: in every state the system reaches from a start by commands of the shell, with
    any arguments, and by moves of the LAN, the mutex is free, so that the next
    command does not block for ever, and both copies of the configuration hold the
    same firewall rules. *)
Theorem nw_reachable_ok `{P : Platform} (s0 s1 s : nw) (u : unit) :
  locked s0 = false -> ecosap_nw_default_start s0 = Some (u, s1) -> rtc nw_step s1 s ->
  locked s = false /\ ipfw (cfg s) = ipfw (new_cfg s).
Proof.
  intros Hl Hs Hr. apply start_inv in Hs. rewrite Hl in Hs.
  assert (nw_inv false s) as [H1 H2]; [|done].
  clear Hl. induction Hr as [s|s1 s2 s3 H12 _ IH]; [done|]. apply IH. by eapply step_inv.
Qed.

(** C27: set_lan_config with an address of class A, B or C in dotted notation, the mutex
    being free and the WAN address and the ends of the DHCP pool addresses in dotted
    notation: when the WAN has an address of the same network of 24 bits the command returns
    0 and changes neither copy of the configuration nor the flash; when the WAN address does
    not contain the network of the new one, the LAN gets the address, the mask of its class
    and the broadcast address of that network, the DHCP pool moves with it, the mutex is
    free, and the flash holds the result if malloc succeeds and the flash works
    ([flash_writes]). All this when the byte behind the first number of the address in the
    array [temp] of findClass, which the code does not set, is not a digit by chance
    ([ends_number]): otherwise the class is that of another number. *)
Theorem set_lan_config_ok `{P : Platform} `{!FlashLaws P} temp erange (ip m from to w : Z) (s : nw) :
  fits 32 ip -> fits 32 w -> unicast ip = true -> class_mask (class_of (ip_byte ip 0)) = Some m ->
  ends_number temp (length (show_byte (ip_byte ip 0))) ->
  locked s = false -> fit conf_codec (new_cfg s) = true ->
  w_IPAddr (wan_addrs (cfg s)) = inet_ntoa w -> fits 32 from -> fits 32 to ->
  DHCP_From (dhcp_server (new_cfg s)) = inet_ntoa from -> DHCP_To (dhcp_server (new_cfg s)) = inet_ntoa to ->
  (unicast w = true -> same24 w ip ->
   wp (set_lan_config temp erange [inet_ntoa ip]) (fun r s' =>
     r = 0 /\ new_cfg s' = new_cfg s /\ cfg s' = cfg s /\ flash s' = flash s) s) /\
  (strstr (inet_ntoa w) (net24 ip) = None ->
   wp (set_lan_config temp erange [inet_ntoa ip]) (fun r s' =>
     r = SHELL_OK /\ new_cfg s' = lan_moved ip m from to (new_cfg s) /\ cfg s' = cfg s /\ locked s' = false /\
     (flash_writes -> heap_ok s = true -> holds_config (new_cfg s') (flash s'))) s).
Proof.
  intros Hip Hw Hu Hm Hend Hlk Hfit Ewan Hf Ht E1 E2. split.
  - intros Huw Hsame. unfold set_lan_config. rewrite strlcpy_ntoa by done.
    apply wp_bind, (wp_lift _ true); [by rewrite isvalidip_ntoa, Hu|]. cbn [negb].
    apply wp_modify, wp_get. cbn [cfg set_lan_addrs].
    apply wp_bind, (wp_lift _ true); [|by apply wp_ret].
    rewrite Ewan, issamesubnet_eq, isvalidip_ntoa, Huw. cbn [mbind option_bind andb].
    by destruct (same24_found w ip Hw Hip Hsame) as [? ->].
  - intros Hconf. by apply (set_lan_config_spec temp erange ip m from to w s).
Qed.

Definition lan_state : @nw (ram_platform 0) := factory_state.

Lemma first_start_runs : exists s1, ecosap_nw_default_start (boot_state 0 []) = Some (tt, s1).
Proof.
  destruct (start_empty (boot_state 0 [])) as ([] & s1 & H & _);
    [apply ram_writes|apply ram_reads|done|by vm_compute| |by exists s1].
  unfold stored_config. rewrite sizeof_config_eq. by vm_compute.
Qed.

Lemma set_lan_config_ok_witness :
  let s := lan_state in
  (unicast 0xAC100732 = true -> same24 0xAC100732 0xC0A80501 ->
   wp (set_lan_config (replicate 4 (Some 0)) false [inet_ntoa 0xC0A80501]) (fun r s' =>
     r = 0 /\ new_cfg s' = new_cfg s /\ cfg s' = cfg s /\ flash s' = flash s) s) /\
  (strstr (inet_ntoa 0xAC100732) (net24 0xC0A80501) = None ->
   wp (set_lan_config (replicate 4 (Some 0)) false [inet_ntoa 0xC0A80501]) (fun r s' =>
     r = SHELL_OK /\ new_cfg s' = lan_moved 0xC0A80501 0xFFFFFF00 0xC0A80002 0xC0A800C8 (new_cfg s) /\
     cfg s' = cfg s /\ locked s' = false /\
     (@flash_writes (ram_platform 0) -> heap_ok s = true -> holds_config (new_cfg s') (flash s'))) s).
Proof.
  apply (set_lan_config_ok (replicate 4 (Some 0)) false 0xC0A80501 0xFFFFFF00 0xC0A80002 0xC0A800C8 0xAC100732 lan_state);
    first [apply factory_fit | apply zero_ends; vm_compute; lia | unfold fits; lia | done].
Defined.

Lemma nw_reachable_ok_witness :
  exists s1, ecosap_nw_default_start (boot_state 0 []) = Some (tt, s1) /\
    (locked s1 = false /\ ipfw (cfg s1) = ipfw (new_cfg s1)).
Proof.
  destruct first_start_runs as [s1 H]. exists s1. split; [exact H|].
  apply (nw_reachable_ok (boot_state 0 []) s1 s1 tt); [done|exact H|apply rtc_refl].
Defined.

(** The result of a command, and the LAN address in the new configuration and as it
    was given. *)
Definition lan_after `{P : Platform} (m : M nw Z) (s : nw) : option (Z * Z * cstring) :=
  match m s with
  | Some (r, s') => Some (r, inaddr_ip (bridge (new_cfg s')), l_IPAddr (lan_addrs s'))
  | None => None
  end.

(** The command has undefined behaviour. *)
Definition undefined_in `{P : Platform} (m : M nw Z) (s : nw) : bool :=
  match m s with Some _ => false | None => true end.

(** Isvalidip reads an address with leading zeros in decimal, inet_aton in octal:
    set_lan_config accepts 192.168.010.1 and gives the LAN the address 192.168.8.1. *)
Theorem lan_address_octal :
  lan_after (set_lan_config (replicate 4 (Some 0)) false [str "192.168.010.1"]) lan_state =
  Some (SHELL_OK, 0xC0A80801, str "192.168.010.1").
Proof. by vm_compute. Qed.

(** The static WAN configuration with an option given twice, so that another one
    is missing, uses the null pointer of the missing option. *)
Theorem static_option_twice :
  undefined_in (set_wan_config (map str ["2"; "-I"; "10.1.1.2"; "-G"; "10.1.1.1"; "-M"; "255.255.255.0";
    "-D1"; "8.8.8.8"; "-D2"; "8.8.4.4"; "-D2"; "8.8.4.4"]%string)) lan_state = true.
Proof. by vm_compute. Qed.

(** Route_add checks its netmask as a host address and so refuses every mask of
    24 bits or less. *)
Theorem route_mask_refused :
  route_add (map str ["add"; "-I"; "10.1.1.2"; "-M"; "255.255.255.0"; "-G"; "10.1.1.1"]%string) =
  Some SHELL_INVALID_ARGUMENT.
Proof. by vm_compute. Qed.
