(* ===== verification/Flash.v ===== *)
(** * The flash package

    io/flash/current/src/flash.c: the table of flash devices, their list sorted by
    address, and the operations that erase, program, read, lock and unlock a range
    of addresses through the drivers of the devices it touches. A driver is the
    class [FlashDriver]; what it does to the contents of its device is seen through
    [cell], the byte at an address of the flash. Kernel mutexes are modelled (locking
    one that is held blocks for ever); caches and messages are not. *)
From stdpp Require Import strings.
From S2P Require Import Prelude.

Definition CYG_FLASH_ERR_OK : Z := 0.
Definition CYG_FLASH_ERR_INVALID : Z := 1.
Definition CYG_FLASH_ERR_PROTOCOL : Z := 5.
Definition CYG_FLASH_ERR_NOT_INIT : Z := 7.
Definition CYG_FLASH_ERR_DRV_WRONG_PART : Z := 13.

Record cyg_flash_block_info := BlockInfo { block_size : Z; blocks : Z }.

(** [struct cyg_flash_dev]; the list holds the [num_block_infos] entries of
    [block_info], [next] is an index of the device table. *)
Record cyg_flash_dev := FlashDev {
  start : Z; end_ : Z; block_info : list cyg_flash_block_info;
  pf : Z; dev_init : bool; mutex : bool; next : option nat }.

Definition set_pf (z : Z) (d : cyg_flash_dev) : cyg_flash_dev :=
  FlashDev (start d) (end_ d) (block_info d) z (dev_init d) (mutex d) (next d).
Definition set_init (b : bool) (d : cyg_flash_dev) : cyg_flash_dev :=
  FlashDev (start d) (end_ d) (block_info d) (pf d) b (mutex d) (next d).
Definition set_mutex (b : bool) (d : cyg_flash_dev) : cyg_flash_dev :=
  FlashDev (start d) (end_ d) (block_info d) (pf d) (dev_init d) b (next d).
Definition set_next (n : option nat) (d : cyg_flash_dev) : cyg_flash_dev :=
  FlashDev (start d) (end_ d) (block_info d) (pf d) (dev_init d) (mutex d) n.

(** [struct cyg_flash_dev_funs] of the device with a given index. *)
Class FlashDriver := {
  drv : Type;
  cell : drv -> Z -> byte;
  flash_init : nat -> cyg_flash_dev -> M drv (Z * cyg_flash_dev);
  flash_erase_block : nat -> Z -> M drv Z;
  flash_program : nat -> Z -> list byte -> M drv Z;
  (** A null pointer when the device is read like memory. *)
  flash_read : nat -> option (Z -> Z -> M drv (Z * list byte));
  flash_block_lock : nat -> option (Z -> M drv Z);
  flash_block_unlock : nat -> option (Z -> M drv Z) }.

(** What cyg_flash_get_info fills in. *)
Record cyg_flash_info_t := FlashInfo {
  i_start : Z; i_end : Z; i_block_info : list cyg_flash_block_info }.

Definition info_of (d : cyg_flash_dev) : cyg_flash_info_t := FlashInfo (start d) (end_ d) (block_info d).

(** ** The list of devices *)

(** [flash_head] and the table the pointers lead through. *)
Definition devs : Type := option nat * list cyg_flash_dev.

(** All devices that initialised, in front of the list. *)
Fixpoint push_devs (n : nat) (i : nat) (s : devs) : devs :=
  match n with
  | O => s
  | S n' =>
      let '(head, tab) := s in
      match tab !! i with
      | Some d => push_devs n' (S i) (if dev_init d then (Some i, <[i := set_next head d]> tab) else s)
      | None => s
      end
  end.

(** [*previous_next = n], where [prev] is the device [previous_next] points into. *)
Definition store_next (prev : option nat) (n : option nat) (s : devs) : devs :=
  match prev with
  | None => (n, snd s)
  | Some p => (fst s, alter (set_next n) p (snd s))
  end.

(** One run of the inner loop from [dev] on; the result says whether it moved. *)
Fixpoint ripple_pass (fuel : nat) (prev : option nat) (dev : nat) (s : devs) : option (bool * devs) :=
  match fuel with
  | O => None
  | S fuel' =>
      d ← snd s !! dev;
      match next d with
      | None => Some (false, s)
      | Some n =>
          e ← snd s !! n;
          if start d >? start e then
            let s := store_next prev (Some n) s in
            e ← snd s !! n;
            let s := store_next (Some dev) (next e) s in
            Some (true, store_next (Some n) (Some dev) s)
          else ripple_pass fuel' (Some dev) n s
      end
  end.

(** [do ... while (moved)] *)
Fixpoint ripple_sort (fuel : nat) (s : devs) : option devs :=
  match fuel with
  | O => None
  | S fuel' =>
      head ← fst s;
      '(moved, s) ← ripple_pass (S (length (snd s))) None head s;
      if moved : bool then ripple_sort fuel' s else Some s
  end.

(** The walk that looks for overlaps; [true] when there is none. *)
Fixpoint no_overlap (fuel : nat) (dev : nat) (tab : list cyg_flash_dev) : option bool :=
  match fuel with
  | O => None
  | S fuel' =>
      d ← tab !! dev;
      match next d with
      | None => Some true
      | Some n => e ← tab !! n; if end_ d >=? start e then Some false else no_overlap fuel' n tab
      end
  end.

Definition flash_sort_and_check (s : devs) : option (bool * devs) :=
  let s := push_devs (length (snd s)) 0 s in
  match fst s with
  | None => Some (false, s)
  | Some _ =>
      s ← ripple_sort (S (length (snd s) * length (snd s))) s;
      head ← fst s;
      ok ← no_overlap (S (length (snd s))) head (snd s);
      Some (ok, s)
  end.

(** The loop of find_dev over the list. *)
Fixpoint find_walk (fuel : nat) (dev : option nat) (tab : list cyg_flash_dev) (addr : Z) : option (option nat) :=
  match fuel, dev with
  | _, None => Some None
  | O, _ => None
  | S fuel', Some i =>
      d ← tab !! i;
      if (start d <=? addr) && (addr <=? end_ d) then Some (Some i) else find_walk fuel' (next d) tab addr
  end.

(** ** Blocks *)
Fixpoint region_size (infos : list cyg_flash_block_info) (offset : Z) : Z :=
  match infos with
  | [] => 0
  | b :: infos' =>
      let n := u32 (blocks b * block_size b) in
      if offset <? n then block_size b else region_size infos' (u32 (offset - n))
  end.

Definition flash_block_size (d : cyg_flash_dev) (addr : Z) : Z :=
  region_size (block_info d) (u32 (addr - start d)).

(** Division by the size 0 of an address outside every block is undefined. *)
Definition flash_block_begin (addr : Z) (d : cyg_flash_dev) : option Z :=
  let size := flash_block_size d addr in
  if size =? 0 then None
  else Some (u32 (u32 (u32 (addr - start d) / size * size) + start d)).

(** What is left of the device from an address on, and the last address of a range
    within it. *)
Definition room (d : cyg_flash_dev) (addr : Z) : Z := u32 (u32 (end_ d + 1) - addr).
Definition range_end (d : cyg_flash_dev) (addr len : Z) : Z :=
  if len >? room d addr then end_ d else u32 (u32 (addr + len) - 1).

(** ** The package *)
Section Package.
Context `{D : FlashDriver}.

(** [CYGHWR_IO_FLASH_DEVICE == 1] and [CYGHWR_IO_FLASH_INDIRECT_READS] *)
Variable single indirect : bool.

Record flash_sys := FlashSys {
  flash_ready : bool;           (* init *)
  cyg_flashdevtab : list cyg_flash_dev;
  flash_head : option nat;
  hw : drv }.

Definition set_ready (b : bool) (s : flash_sys) : flash_sys :=
  FlashSys b (cyg_flashdevtab s) (flash_head s) (hw s).
Definition set_devs (v : devs) (s : flash_sys) : flash_sys :=
  FlashSys (flash_ready s) (snd v) (fst v) (hw s).
Definition set_tab (t : list cyg_flash_dev) (s : flash_sys) : flash_sys :=
  FlashSys (flash_ready s) t (flash_head s) (hw s).
Definition set_hw (h : drv) (s : flash_sys) : flash_sys :=
  FlashSys (flash_ready s) (cyg_flashdevtab s) (flash_head s) h.

(** A call of a function of a driver. *)
Definition on_drv {A} (m : M drv A) : M flash_sys A :=
  fun s => match m (hw s) with Some (a, h) => Some (a, set_hw h s) | None => None end.

Definition lift {A} (o : option A) : M flash_sys A :=
  fun s => match o with Some a => Some (a, s) | None => None end.

Definition get_dev (i : nat) : M flash_sys cyg_flash_dev :=
  s ← get_state; lift (cyg_flashdevtab s !! i).
Definition put_dev (i : nat) (d : cyg_flash_dev) : M flash_sys unit :=
  modify (fun s => set_tab (<[i := d]> (cyg_flashdevtab s)) s).

(** LOCK and UNLOCK; a thread that locks a mutex twice waits for ever. *)
Definition LOCK (i : nat) : M flash_sys unit :=
  d ← get_dev i; if mutex d then crash else put_dev i (set_mutex true d).
Definition UNLOCK (i : nat) : M flash_sys unit :=
  d ← get_dev i; put_dev i (set_mutex false d).

(** The device at an address, or the error code find_dev stores. *)
Definition find_dev (addr : Z) : M flash_sys (Z + nat) :=
  s ← get_state;
  if negb (flash_ready s) then mret (inl CYG_FLASH_ERR_NOT_INIT)
  else if single then
    d ← get_dev 0;
    if negb ((addr >=? start d) && (addr <=? end_ d)) then mret (inl CYG_FLASH_ERR_INVALID)
    else if negb (dev_init d) then mret (inl CYG_FLASH_ERR_NOT_INIT)
    else mret (inr 0%nat)
  else
    r ← lift (find_walk (S (length (cyg_flashdevtab s))) (flash_head s) (cyg_flashdevtab s) addr);
    mret (match r with Some i => inr i | None => inl CYG_FLASH_ERR_INVALID end).

(** ** Initialisation *)

(** [dev->pf = pf], under the mutex when the device is initialised. *)
Definition set_one_printf (i : nat) (f : Z) : M flash_sys unit :=
  d ← get_dev i;
  _ ← (if dev_init d then LOCK i else mret tt);
  d ← get_dev i; _ ← put_dev i (set_pf f d);
  (if dev_init d then UNLOCK i else mret tt).

Fixpoint printf_loop (n : nat) (i : nat) (f : Z) : M flash_sys unit :=
  match n with
  | O => mret tt
  | S n' =>
      _ ← set_one_printf i f;
      printf_loop n' (S i) f
  end.

Definition cyg_flash_set_global_printf (f : Z) : M flash_sys unit :=
  s ← get_state; printf_loop (length (cyg_flashdevtab s)) 0 f.

Fixpoint init_loop (n : nat) (i : nat) : M flash_sys unit :=
  match n with
  | O => mret tt
  | S n' =>
      d ← get_dev i;
      _ ← put_dev i (set_mutex false d);
      d ← get_dev i;
      '(err, d) ← on_drv (flash_init i d);
      _ ← put_dev i (if err =? CYG_FLASH_ERR_OK then set_init true d else d);
      init_loop n' (S i)
  end.

Definition cyg_flash_init (f : Z) : M flash_sys Z :=
  _ ← (if negb (f =? 0) then cyg_flash_set_global_printf f else mret tt);
  s ← get_state;
  if flash_ready s then mret CYG_FLASH_ERR_OK
  else
    _ ← init_loop (length (cyg_flashdevtab s)) 0;
    s ← get_state;
    ok ← (if single then mret (negb (Nat.eqb (length (cyg_flashdevtab s)) 0))
          else
            '(ok, v) ← lift (flash_sort_and_check (flash_head s, cyg_flashdevtab s));
            _ ← modify (set_devs v); mret ok);
    if negb ok then mret CYG_FLASH_ERR_INVALID
    else _ ← modify (set_ready true); mret CYG_FLASH_ERR_OK.

(** ** Information *)
Definition cyg_flash_set_printf (flash_base f : Z) : M flash_sys Z :=
  r ← find_dev flash_base;
  match r with
  | inl stat => mret stat
  | inr i =>
      _ ← set_one_printf i f;
      mret CYG_FLASH_ERR_OK
  end.

Definition cyg_flash_verify_addr (address : Z) : M flash_sys Z :=
  r ← find_dev address;
  mret (match r with inl stat => stat | inr _ => CYG_FLASH_ERR_OK end).

(** The [n]th device of the list. *)
Fixpoint nth_dev (fuel : nat) (dev : option nat) (n : Z) (tab : list cyg_flash_dev) : option (option nat) :=
  match fuel, dev with
  | _, None => Some None
  | O, _ => None
  | S fuel', Some i => if n =? 0 then Some (Some i) else d ← tab !! i; nth_dev fuel' (next d) (n - 1) tab
  end.

Definition cyg_flash_get_info (n : Z) : M flash_sys (Z + cyg_flash_info_t) :=
  s ← get_state;
  if negb (flash_ready s) then mret (inl CYG_FLASH_ERR_NOT_INIT)
  else
    r ← (if single then
           d ← get_dev 0; mret (if (n =? 0) && dev_init d then Some 0%nat else None)
         else lift (nth_dev (S (length (cyg_flashdevtab s))) (flash_head s) n (cyg_flashdevtab s)));
    match r with
    | None => mret (inl CYG_FLASH_ERR_INVALID)
    | Some i => d ← get_dev i; mret (inr (info_of d))
    end.

Definition cyg_flash_get_info_addr (flash_base : Z) : M flash_sys (Z + cyg_flash_info_t) :=
  r ← find_dev flash_base;
  match r with inl stat => mret (inl stat) | inr i => d ← get_dev i; mret (inr (info_of d)) end.

(** An error code is returned as if it were a size. *)
Definition cyg_flash_block_size (flash_base : Z) : M flash_sys Z :=
  r ← find_dev flash_base;
  match r with inl stat => mret stat | inr i => d ← get_dev i; mret (flash_block_size d flash_base) end.

(** ** Mutexes *)

(** [from] to [end_] of a device, and the part of the range behind it. *)
Definition beyond (d : cyg_flash_dev) (from len : Z) : option (Z * Z) :=
  if len >? room d from then Some (u32 (end_ d + 1), u32 (len - room d from)) else None.

Fixpoint cyg_flash_mutex_lock (fuel : nat) (from len : Z) : M flash_sys Z :=
  match fuel with
  | O => crash
  | S fuel' =>
      r ← find_dev from;
      match r with
      | inl stat => mret stat
      | inr i =>
          _ ← LOCK i;
          d ← get_dev i;
          match beyond d from len with
          | None => mret CYG_FLASH_ERR_OK
          | Some (from', len') =>
              stat ← cyg_flash_mutex_lock fuel' from' len';
              _ ← (if negb (stat =? CYG_FLASH_ERR_OK) then UNLOCK i else mret tt);
              mret stat
          end
      end
  end.

(** The rest of the range is locked, not unlocked. *)
Definition cyg_flash_mutex_unlock (fuel : nat) (from len : Z) : M flash_sys Z :=
  r ← find_dev from;
  match r with
  | inl stat => mret stat
  | inr i =>
      _ ← UNLOCK i;
      d ← get_dev i;
      match beyond d from len with
      | None => mret CYG_FLASH_ERR_OK
      | Some (from', len') =>
          stat ← cyg_flash_mutex_lock fuel from' len';
          _ ← (if negb (stat =? CYG_FLASH_ERR_OK) then LOCK i else mret tt);
          mret stat
      end
  end.

(** ** Erase *)

(** [*dp++] over [n] addresses from [addr]: what the memory of the flash shows. *)
Definition cells (h : drv) (addr : Z) (n : nat) : list byte :=
  map (fun k => cell h (u32 (addr + Z.of_nat k))) (seq 0 n).

Definition blank (h : drv) (addr n : Z) : bool :=
  forallb (fun b => b =? 0xff) (cells h addr (Z.to_nat n)).

(** The address of a failed operation is stored where [err_address] points, when it
    is not null ([want]). *)
Definition failed (want : bool) (addr : Z) : option Z := if want then Some addr else None.

Fixpoint erase_loop (fuel : nat) (want : bool) (i : nat) (d : cyg_flash_dev) (block erase_count : Z)
    : M flash_sys (Z * option Z) :=
  match fuel with
  | O => crash
  | S fuel' =>
      if erase_count >? 0 then
        let size := flash_block_size d block in
        let erase_count := if erase_count <? size then size else erase_count in
        s ← get_state;
        let erased := match flash_read i with None => blank (hw s) block size | Some _ => false end in
        stat ← (if erased then mret CYG_FLASH_ERR_OK else on_drv (flash_erase_block i block));
        if negb (stat =? CYG_FLASH_ERR_OK) then mret (stat, failed want block)
        else erase_loop fuel' want i d (u32 (block + size)) (u32 (erase_count - size))
      else mret (CYG_FLASH_ERR_OK, None)
  end.

Fixpoint cyg_flash_erase (fuel : nat) (want : bool) (flash_base len : Z) : M flash_sys (Z * option Z) :=
  match fuel with
  | O => crash
  | S fuel' =>
      r ← find_dev flash_base;
      match r with
      | inl stat => mret (stat, None)
      | inr i =>
          _ ← LOCK i;
          d ← get_dev i;
          block ← lift (flash_block_begin flash_base d);
          let erase_count := u32 (u32 (range_end d flash_base len + 1) - block) in
          '(stat, err) ← erase_loop (S (Z.to_nat erase_count)) want i d block erase_count;
          _ ← UNLOCK i;
          if negb (stat =? CYG_FLASH_ERR_OK) then mret (stat, err)
          else match beyond d flash_base len with
               | Some (base', len') => cyg_flash_erase fuel' want base' len'
               | None => mret (CYG_FLASH_ERR_OK, None)
               end
      end
  end.

(** ** Program *)

(** Where in its block an address lies. *)
Definition block_offset (addr : Z) (d : cyg_flash_dev) : option Z :=
  block ← flash_block_begin addr d; Some (if addr =? block then 0 else u32 (addr - block)).

(** The bytes of one transfer: up to the end of the block. *)
Definition this_transfer (size offset count : Z) : Z :=
  if count >? u32 (size - offset) then u32 (size - offset) else count.

(** The result, the error address and the data that are left. *)
Fixpoint program_loop (fuel : nat) (want : bool) (i : nat) (d : cyg_flash_dev) (addr offset write_count : Z)
    (ram : list byte) : M flash_sys (Z * option Z * list byte) :=
  match fuel with
  | O => crash
  | S fuel' =>
      if write_count >? 0 then
        let this_write := this_transfer (flash_block_size d addr) offset write_count in
        let n := Z.to_nat this_write in
        if Nat.ltb (length ram) n then crash
        else
          stat ← on_drv (flash_program i addr (take n ram));
          if negb (stat =? CYG_FLASH_ERR_OK) then mret (stat, failed want addr, ram)
          else program_loop fuel' want i d (u32 (addr + this_write)) 0 (u32 (write_count - this_write)) (drop n ram)
      else mret (CYG_FLASH_ERR_OK, None, ram)
  end.

Fixpoint cyg_flash_program (fuel : nat) (want : bool) (flash_base : Z) (ram : list byte) (len : Z)
    : M flash_sys (Z * option Z) :=
  match fuel with
  | O => crash
  | S fuel' =>
      r ← find_dev flash_base;
      match r with
      | inl stat => mret (stat, None)
      | inr i =>
          _ ← LOCK i;
          d ← get_dev i;
          let write_count := u32 (u32 (range_end d flash_base len + 1) - flash_base) in
          offset ← lift (block_offset flash_base d);
          '(stat, err, ram) ← program_loop (S (Z.to_nat write_count)) want i d flash_base offset write_count ram;
          _ ← UNLOCK i;
          if negb (stat =? CYG_FLASH_ERR_OK) then mret (stat, err)
          else match beyond d flash_base len with
               | Some (base', len') => cyg_flash_program fuel' want base' ram len'
               | None => mret (CYG_FLASH_ERR_OK, None)
               end
      end
  end.

(** ** Read *)

(** The loop over a device with a read function; an error ends it only when there
    is somewhere to store its address. The last component is what was stored. *)
Fixpoint read_loop (fuel : nat) (want : bool) (d : cyg_flash_dev) (read : Z -> Z -> M drv (Z * list byte))
    (stat addr offset read_count : Z) (ram : list byte) : M flash_sys (Z * option Z * list byte) :=
  match fuel with
  | O => crash
  | S fuel' =>
      if read_count >? 0 then
        let this_read := this_transfer (flash_block_size d addr) offset read_count in
        '(stat, bs) ← on_drv (read addr this_read);
        if negb (stat =? CYG_FLASH_ERR_OK) && want then mret (stat, Some addr, ram ++ bs)
        else read_loop fuel' want d read stat (u32 (addr + this_read)) 0 (u32 (read_count - this_read)) (ram ++ bs)
      else mret (stat, None, ram)
  end.

(** The result, the error address and the bytes stored from [ram_base] on. *)
Fixpoint cyg_flash_read (fuel : nat) (want : bool) (flash_base len : Z) : M flash_sys (Z * option Z * list byte) :=
  match fuel with
  | O => crash
  | S fuel' =>
      r ← find_dev flash_base;
      match r with
      | inl stat => mret (stat, None, [])
      | inr i =>
          _ ← LOCK i;
          d ← get_dev i;
          let read_count := u32 (u32 (range_end d flash_base len + 1) - flash_base) in
          '(stat, err, ram) ←
            match flash_read i with
            | None => s ← get_state; mret (CYG_FLASH_ERR_OK, None, cells (hw s) flash_base (Z.to_nat read_count))
            | Some read =>
                if negb indirect then mret (CYG_FLASH_ERR_PROTOCOL, failed want flash_base, [])
                else
                  offset ← lift (block_offset flash_base d);
                  read_loop (S (Z.to_nat read_count)) want d read CYG_FLASH_ERR_OK flash_base offset read_count []
            end;
          _ ← UNLOCK i;
          if negb (stat =? CYG_FLASH_ERR_OK) then mret (stat, err, ram)
          else match beyond d flash_base len with
               | Some (base', len') =>
                   '(stat, err, ram') ← cyg_flash_read fuel' want base' len'; mret (stat, err, ram ++ ram')
               | None => mret (CYG_FLASH_ERR_OK, None, ram)
               end
      end
  end.

(** ** Block locking (CYGHWR_IO_FLASH_BLOCK_LOCKING) *)

(** The loop of cyg_flash_lock and cyg_flash_unlock over the function [f] of the
    driver; like reading, it goes on behind an error without [want]. *)
Fixpoint lock_loop (fuel : nat) (want : bool) (d : cyg_flash_dev) (f : Z -> M drv Z) (stat block lock_count : Z)
    : M flash_sys (Z * option Z) :=
  match fuel with
  | O => crash
  | S fuel' =>
      if lock_count >? 0 then
        let size := flash_block_size d block in
        let lock_count := if lock_count <? size then size else lock_count in
        stat ← on_drv (f block);
        if negb (stat =? CYG_FLASH_ERR_OK) && want then mret (stat, Some block)
        else lock_loop fuel' want d f stat (u32 (block + size)) (u32 (lock_count - size))
      else mret (stat, None)
  end.

(** One device; [rest] goes on with the next one. *)
Definition lock_device (want : bool) (f : nat -> option (Z -> M drv Z))
    (rest : Z -> Z -> M flash_sys (Z * option Z)) (flash_base len : Z) : M flash_sys (Z * option Z) :=
  r ← find_dev flash_base;
  match r with
  | inl stat => mret (stat, None)
  | inr i =>
      match f i with
      | None => mret (CYG_FLASH_ERR_INVALID, None)
      | Some g =>
          _ ← LOCK i;
          d ← get_dev i;
          block ← lift (flash_block_begin flash_base d);
          let lock_count := u32 (u32 (range_end d flash_base len + 1) - block) in
          '(stat, err) ← lock_loop (S (Z.to_nat lock_count)) want d g CYG_FLASH_ERR_OK block lock_count;
          _ ← UNLOCK i;
          if negb (stat =? CYG_FLASH_ERR_OK) then mret (stat, err)
          else match beyond d flash_base len with
               | Some (base', len') => rest base' len'
               | None => mret (CYG_FLASH_ERR_OK, None)
               end
      end
  end.

Fixpoint cyg_flash_lock (fuel : nat) (want : bool) (flash_base len : Z) : M flash_sys (Z * option Z) :=
  match fuel with
  | O => crash
  | S fuel' => lock_device want flash_block_lock (cyg_flash_lock fuel' want) flash_base len
  end.

(** The recursion for the next device calls cyg_flash_lock. *)
Definition cyg_flash_unlock (fuel : nat) (want : bool) (flash_base len : Z) : M flash_sys (Z * option Z) :=
  lock_device want flash_block_unlock (cyg_flash_lock fuel want) flash_base len.
End Package.

(** ** Functions for the tables of drivers *)
Definition cyg_flash_devfn_init_nop : Z := CYG_FLASH_ERR_OK.
Definition cyg_flash_devfn_query_nop : Z := 0.

(** [block_locking]: CYGHWR_IO_FLASH_BLOCK_LOCKING with more than one device. *)
Definition cyg_flash_devfn_lock_nop (block_locking : bool) : Z :=
  if block_locking then CYG_FLASH_ERR_OK else CYG_FLASH_ERR_DRV_WRONG_PART.
Definition cyg_flash_devfn_unlock_nop : bool -> Z := cyg_flash_devfn_lock_nop.

(** cyg_flash_errmsg; CYG_FLASH_ERR_HWR (8) has no message of its own. *)
Definition cyg_flash_errmsg (err : Z) : string :=
  match err with
  | 0 => "No error - operation complete"
  | 9 => "Device is in erase suspend state"
  | 10 => "Device is in program suspend state"
  | 1 => "Invalid FLASH address"
  | 2 => "Error trying to erase"
  | 3 => "Error trying to lock/unlock"
  | 4 => "Error trying to program"
  | 5 => "Generic error"
  | 6 => "Device/region is write-protected"
  | 7 => "FLASH sub-system not initialized"
  | 11 => "Data verify failed after operation"
  | 12 => "Driver timed out waiting for device"
  | 13 => "Driver does not support device"
  | 14 => "Device reports low voltage"
  | _ => "Unknown error"
  end%string.
