(* ===== verification/FlashList.v ===== *)
(** * The list of flash devices

    flash_sort_and_check of io/flash/current/src/flash.c: the ripple sort over the
    [next] fields of the device table ends, keeps the devices of the list and leaves
    them in the order of their addresses; the walk behind it finds an overlap when
    there is one. *)
From stdpp Require Import sorting.
From S2P Require Import Prelude.
From S2P Require Import Flash.

(** ** List segments *)

(** The list that starts at [h]. *)
Fixpoint chain (tab : list cyg_flash_dev) (h : option nat) (l : list nat) : Prop :=
  match l with
  | [] => h = None
  | i :: l' => h = Some i /\ exists d, tab !! i = Some d /\ chain tab (next d) l'
  end.

(** The part of a list from [h] to [t]. *)
Fixpoint seg (tab : list cyg_flash_dev) (h : option nat) (l : list nat) (t : option nat) : Prop :=
  match l with
  | [] => h = t
  | i :: l' => h = Some i /\ exists d, tab !! i = Some d /\ seg tab (next d) l' t
  end.

Lemma chain_app tab l1 : forall h l2, chain tab h (l1 ++ l2) <-> exists m, seg tab h l1 m /\ chain tab m l2.
Proof.
  induction l1 as [|i l1 IH]; intros h l2; cbn.
  - split; [by exists h|]. by intros (m & -> & H).
  - split.
    + intros (-> & d & Hd & (m & Hs & Hc)%IH). exists m. split; [|done]. split; [done|]. by exists d.
    + intros (m & (-> & d & Hd & Hs) & Hc). split; [done|]. exists d. split; [done|]. apply IH. by exists m.
Qed.

Lemma chain_same tab tab' l : (forall i, i ∈ l -> tab' !! i = tab !! i) -> forall h, chain tab h l -> chain tab' h l.
Proof.
  induction l as [|i l IH]; intros Hs h; [done|]. intros (-> & d & Hd & Hc). split; [done|]. exists d.
  split; [rewrite Hs; [done|left]|]. apply IH; [|done]. intros j Hj. apply Hs. by right.
Qed.

Lemma chain_lookup tab l : forall h i, chain tab h l -> i ∈ l -> is_Some (tab !! i).
Proof.
  induction l as [|j l IH]; intros h i Hc Hi; [by apply not_elem_of_nil in Hi|]. destruct Hc as (_ & d & Hd & Hc).
  apply elem_of_cons in Hi as [->|Hi]; [by exists d|by eapply IH].
Qed.

Lemma dev_chain_length tab l : forall h, chain tab h l -> NoDup l -> (length l <= length tab)%nat.
Proof.
  intros h Hc Hl. rewrite <- (length_seq (length tab) 0). apply submseteq_length, NoDup_submseteq; [done|].
  intros i Hi. apply elem_of_seq. destruct (chain_lookup _ _ _ _ Hc Hi) as [d Hd]. apply lookup_lt_Some in Hd. lia.
Qed.

(** Storing behind a part of the list makes that part lead elsewhere. *)
Lemma store_next_seg tab n pre : forall h t, seg tab h pre t -> NoDup pre ->
  seg (snd (store_next (last pre) n (h, tab))) (fst (store_next (last pre) n (h, tab))) pre n /\
  (forall j, j ∉ pre -> snd (store_next (last pre) n (h, tab)) !! j = tab !! j).
Proof.
  induction pre as [|i pre IH]; intros h t Hs Hn; [done|]. apply NoDup_cons in Hn as [Hi Hn].
  destruct Hs as (-> & d & Hd & Hs). destruct (IH _ _ Hs Hn) as [IH1 IH2]. destruct pre as [|j pre].
  - cbn in *. split.
    + split; [done|]. exists (set_next n d). by rewrite list_lookup_alter_eq, Hd.
    + intros k Hk. apply list_lookup_alter_ne. set_solver.
  - assert (exists k, last (i :: j :: pre) = Some k /\ last (j :: pre) = Some k) as (k & Ek & Ek').
    { rewrite last_cons. destruct (last (j :: pre)) as [k|] eqn:E; [by exists k|by apply last_None in E]. }
    rewrite Ek. rewrite Ek' in IH1, IH2. cbn [store_next fst snd] in *. split.
    + split; [done|]. exists d. split; [|done]. rewrite (IH2 i); [done|]. set_solver.
    + intros l Hl. apply IH2. set_solver.
Qed.

(** ** What sorting leaves alone *)
Definition unlinked (tab : list cyg_flash_dev) : list cyg_flash_dev := set_next None <$> tab.

Lemma unlinked_alter n p tab : unlinked (alter (set_next n) p tab) = unlinked tab.
Proof.
  unfold unlinked. apply list_eq. intros i. rewrite !list_lookup_fmap. destruct (decide (i = p)) as [->|Hi].
  - rewrite list_lookup_alter_eq. by destruct (tab !! p).
  - by rewrite list_lookup_alter_ne.
Qed.

Lemma unlinked_store prev n s : unlinked (snd (store_next prev n s)) = unlinked (snd s).
Proof. destruct prev; [apply unlinked_alter|done]. Qed.

Lemma unlinked_length tab tab' : unlinked tab' = unlinked tab -> length tab' = length tab.
Proof. intros H. apply (f_equal length) in H. unfold unlinked in H. by rewrite !length_fmap in H. Qed.

Lemma unlinked_lookup tab tab' i d : unlinked tab' = unlinked tab -> tab !! i = Some d ->
  exists n, tab' !! i = Some (set_next n d).
Proof.
  intros H Hd. apply (f_equal (lookup i)) in H. unfold unlinked in H. rewrite !list_lookup_fmap, Hd in H.
  destruct (tab' !! i) as [d'|]; [|done]. exists (next d'). f_equal. destruct d', d. by injection H as -> -> -> -> -> ->.
Qed.

(** The start of a device by its index. *)
Definition key (tab : list cyg_flash_dev) (i : nat) : Z := from_option start 0 (tab !! i).

Lemma key_unlinked tab tab' i : unlinked tab' = unlinked tab -> key tab' i = key tab i.
Proof.
  intros H. unfold key. destruct (tab !! i) as [d|] eqn:E.
  - by destruct (unlinked_lookup _ _ _ _ H E) as [n ->].
  - apply lookup_ge_None in E. rewrite <- (unlinked_length _ _ H) in E. by rewrite (lookup_ge_None_2 tab').
Qed.

(** ** One pass *)

(** Exchange of the first two neighbours that are out of order. *)
Fixpoint first_swap (key : nat -> Z) (l : list nat) : option (list nat) :=
  match l with
  | x :: (y :: l') as r => if key x >? key y then Some (y :: x :: l') else cons x <$> first_swap key r
  | _ => None
  end.

Lemma first_swap_cons key x y l : first_swap key (x :: y :: l) =
  if key x >? key y then Some (y :: x :: l) else cons x <$> first_swap key (y :: l).
Proof. done. Qed.

Lemma swap_links tab h pre x y post t :
  NoDup (pre ++ x :: y :: post) -> chain tab h (pre ++ x :: y :: post) -> tab !! y = Some t ->
  let s1 := store_next (last pre) (Some y) (h, tab) in
  let s2 := store_next (Some x) (next t) s1 in
  let s3 := store_next (Some y) (Some x) s2 in
  snd s1 !! y = Some t /\ chain (snd s3) (fst s3) (pre ++ y :: x :: post) /\ unlinked (snd s3) = unlinked tab.
Proof.
  intros Hn Hc Ht s1 s2 s3. apply chain_app in Hc as (m & Hs & (-> & d & Hd & Hc)).
  destruct Hc as (Hy & t' & Ht' & Hc). assert (t' = t) as -> by congruence.
  apply NoDup_app in Hn as (Hn1 & Hn2 & Hn3). apply NoDup_cons in Hn3 as [Hx Hn3]. apply NoDup_cons in Hn3 as [Hyp Hn3].
  destruct (store_next_seg tab (Some y) pre h _ Hs Hn1) as [Hseg Hout]. fold s1 in Hseg, Hout.
  assert (y ∉ pre /\ x ∉ pre /\ x <> y /\ forall j, j ∈ post -> j ∉ pre /\ j <> x /\ j <> y) as (Hyn & Hxn & Hxy & Hpost) by set_solver.
  split; [by rewrite Hout|]. split; [|unfold s3, s2, s1; by rewrite !unlinked_store].
  assert (forall j, j <> x -> j <> y -> snd s3 !! j = snd s1 !! j) as Hother.
  { intros j Hjx Hjy. unfold s3, s2. cbn. by rewrite !list_lookup_alter_ne by done. }
  apply chain_app. exists (Some y). split.
  - cbn [s3 s2 store_next fst snd] in *. clear Hs. revert Hseg Hn2. generalize (fst s1), (pre).
    intros h' p. revert h'. induction p as [|i p IH]; intros h' Hseg Hn2; [done|].
    destruct Hseg as (-> & e & He & Hseg). split; [done|]. exists e. split.
    + rewrite !list_lookup_alter_ne; [done| |]; intros ->; apply (Hn2 i); set_solver.
    + apply IH; [done|]. intros j Hj. apply Hn2. by right.
  - split; [done|]. exists (set_next (Some x) t). split.
    { unfold s3. cbn. rewrite list_lookup_alter_eq, list_lookup_alter_ne by done. by rewrite Hout, Ht. }
    split; [done|]. exists (set_next (next t) d). split.
    { unfold s3, s2. cbn. rewrite list_lookup_alter_ne, list_lookup_alter_eq by done. by rewrite Hout, Hd. }
    eapply chain_same; [|exact Hc]. intros j Hj. destruct (Hpost j Hj) as (? & ? & ?). by rewrite Hother, Hout.
Qed.

Lemma ripple_pass_spec : forall fuel pre x post h tab,
  NoDup (pre ++ x :: post) -> chain tab h (pre ++ x :: post) -> (length post < fuel)%nat ->
  match first_swap (key tab) (x :: post) with
  | None => ripple_pass fuel (last pre) x (h, tab) = Some (false, (h, tab))
  | Some l => exists h' tab', ripple_pass fuel (last pre) x (h, tab) = Some (true, (h', tab')) /\
                chain tab' h' (pre ++ l) /\ unlinked tab' = unlinked tab
  end.
Proof.
  induction fuel as [|fuel IH]; intros pre x post h tab Hn Hc Hf; [lia|].
  pose proof Hc as (m & Hs & (-> & d & Hd & Hcp))%chain_app. cbn [ripple_pass snd]. rewrite Hd. cbn [mbind option_bind].
  destruct post as [|y post]; [by cbn in *; rewrite Hcp|]. destruct Hcp as (Hy & t & Ht & Hcp). rewrite Hy, Ht.
  cbn [mbind option_bind]. rewrite first_swap_cons. assert (key tab x = start d /\ key tab y = start t) as [-> ->].
  { unfold key. by rewrite Hd, Ht. }
  destruct (swap_links _ _ _ _ _ _ _ Hn Hc Ht) as (H1 & H2 & H3). destruct (start d >? start t).
  - cbn zeta in *. rewrite H1. cbn [mbind option_bind]. eexists _, _. split; [done|]. split; [|done]. exact H2.
  - specialize (IH (pre ++ [x]) y post h tab). rewrite <- !app_assoc, last_snoc in IH. cbn [app] in IH.
    specialize (IH Hn Hc ltac:(cbn in *; lia)). destruct (first_swap (key tab) (y :: post)) as [l|]; [|done].
    destruct IH as (h' & tab' & -> & Hc' & Hu). exists h', tab'. cbn. by rewrite <- app_assoc in Hc'.
Qed.

(** ** The sort *)

(** Pairs that are out of order. *)
Fixpoint inversions (key : nat -> Z) (l : list nat) : nat :=
  match l with
  | [] => 0
  | x :: l' => length (filter (fun y => key y < key x) l') + inversions key l'
  end.

Lemma inversions_le key l : (inversions key l <= length l * length l)%nat.
Proof.
  induction l as [|x l IH]; [done|]. cbn [inversions length].
  pose proof (length_filter (fun y => key y < key x) l). nia.
Qed.

Lemma first_swap_some key l : forall l', first_swap key l = Some l' ->
  l' ≡ₚ l /\ S (inversions key l') = inversions key l.
Proof.
  induction l as [|x l IH]; intros l'; [done|]. destruct l as [|y l]; [done|]. rewrite first_swap_cons.
  destruct (Z.gtb_spec (key x) (key y)).
  - intros [= <-]. split; [constructor|]. cbn [inversions]. rewrite !filter_cons.
    rewrite decide_False, decide_True by lia. cbn [length]. lia.
  - destruct (first_swap key (y :: l)) as [m|] eqn:E; [|done]. intros [= <-]. destruct (IH m eq_refl) as [Hp Hi].
    split; [by constructor|]. change (inversions key (x :: y :: l)) with
      (length (filter (fun z => (key z < key x)%Z) (y :: l)) + inversions key (y :: l))%nat.
    rewrite <- Hi, <- Hp. cbn. lia.
Qed.

Lemma first_swap_none key l : first_swap key l = None -> Sorted (fun x y => key x <= key y) l.
Proof.
  induction l as [|x l IH]; [constructor|]. destruct l as [|y l]; [by repeat constructor|]. rewrite first_swap_cons.
  destruct (Z.gtb_spec (key x) (key y)); [done|]. destruct (first_swap key (y :: l)); [done|]. intros _.
  constructor; [by apply IH|by constructor].
Qed.

Lemma Sorted_ext {A} (R R' : A -> A -> Prop) l : (forall x y, R x y -> R' x y) -> Sorted R l -> Sorted R' l.
Proof. intros HR. induction 1 as [|x l Hs IH Hh]; constructor; [done|]. destruct Hh; constructor; auto. Qed.

Lemma inversions_ext key key' l : (forall i, key' i = key i) -> inversions key' l = inversions key l.
Proof.
  intros H. induction l as [|x l IH]; [done|]. cbn. f_equal; [|done]. f_equal.
  apply list_filter_iff. intros y. by rewrite !H.
Qed.

Lemma ripple_sort_spec : forall fuel l h tab,
  l <> [] -> NoDup l -> chain tab h l -> (inversions (key tab) l < fuel)%nat ->
  exists h' tab' l', ripple_sort fuel (h, tab) = Some (h', tab') /\ chain tab' h' l' /\ l' ≡ₚ l /\
    Sorted (fun i j => key tab i <= key tab j) l' /\ unlinked tab' = unlinked tab.
Proof.
  induction fuel as [|fuel IH]; intros l h tab Hne Hn Hc Hf; [lia|]. destruct l as [|x l]; [done|].
  pose proof (ripple_pass_spec (S (length tab)) [] x l h tab Hn Hc) as Hp. pose proof (dev_chain_length _ _ _ Hc Hn) as Hlen.
  specialize (Hp ltac:(cbn in *; lia)). cbn [ripple_sort fst snd]. cbn [last] in Hp.
  pose proof Hc as (Hh & _). rewrite Hh. cbn [mbind option_bind]. rewrite <- Hh.
  destruct (first_swap (key tab) (x :: l)) as [m|] eqn:E.
  - destruct Hp as (h1 & tab1 & -> & Hc1 & Hu1). destruct (first_swap_some _ _ _ E) as [Hpm Him].
    destruct (IH m h1 tab1) as (h' & tab' & l' & Hr & Hc' & Hl' & Hs' & Hu').
    + intros ->. by apply Permutation_nil_cons in Hpm.
    + by rewrite Hpm.
    + done.
    + rewrite (inversions_ext (key tab)); [lia|]. intros i. by apply key_unlinked.
    + exists h', tab', l'. split; [exact Hr|]. split; [done|]. split; [by rewrite Hl'|]. split; [|by rewrite Hu'].
      eapply Sorted_ext; [|exact Hs']. cbn. intros i j. by rewrite !(key_unlinked tab tab1).
  - rewrite Hp. exists h, tab, (x :: l). split; [done|]. split; [done|]. split; [done|]. split; [|done].
    by apply first_swap_none.
Qed.

(** ** Filling the list *)
Lemma push_devs_spec : forall n i h tab l,
  (i + n)%nat = length tab -> chain tab h l -> NoDup l -> (forall j, j ∈ l -> (j < i)%nat) ->
  exists h' tab' l', push_devs n i (h, tab) = (h', tab') /\ chain tab' h' l' /\ NoDup l' /\
    unlinked tab' = unlinked tab /\
    (forall j, j ∈ l' <-> j ∈ l \/ (i <= j)%nat /\ exists d, tab !! j = Some d /\ dev_init d = true).
Proof.
  induction n as [|n IH]; intros i h tab l Hlen Hc Hn Hl.
  - exists h, tab, l. repeat (split; [done|]). intros j. split; [auto|]. intros [Hj|(Hij & d & Hd & _)]; [done|].
    apply lookup_lt_Some in Hd. lia.
  - cbn [push_devs]. destruct (lookup_lt_is_Some_2 tab i ltac:(lia)) as [d Hd]. rewrite Hd.
    assert (i ∉ l) as Hil by (intros Hi; apply Hl in Hi; lia). destruct (dev_init d) eqn:Ei.
    + destruct (IH (S i) (Some i) (<[i:=set_next h d]> tab) (i :: l)) as (h' & tab' & l' & Hr & Hc' & Hn' & Hu & Hin).
      * rewrite length_insert. lia.
      * split; [done|]. exists (set_next h d). rewrite list_lookup_insert_eq by lia. split; [done|].
        eapply chain_same; [|exact Hc]. intros j Hj. apply list_lookup_insert_ne. congruence.
      * by constructor.
      * intros j [->|Hj]%elem_of_cons; [lia|]. apply Hl in Hj. lia.
      * exists h', tab', l'. repeat (split; [done|]). split.
        { rewrite Hu. replace (<[i:=set_next h d]> tab) with (alter (set_next h) i tab); [apply unlinked_alter|].
          apply list_eq. intros j. destruct (decide (j = i)) as [->|].
          - by rewrite list_lookup_alter_eq, list_lookup_insert_eq, Hd by lia.
          - by rewrite list_lookup_alter_ne, list_lookup_insert_ne. }
        intros j. rewrite Hin, elem_of_cons. destruct (decide (j = i)) as [->|Hj].
        -- split; [|auto]. intros _. right. split; [done|]. by exists d.
        -- rewrite list_lookup_insert_ne by done. split; intros [?|[? ?]]; auto; try tauto.
           ++ right. split; [lia|done].
           ++ right. split; [lia|done].
    + destruct (IH (S i) h tab l ltac:(lia) Hc Hn) as (h' & tab' & l' & Hr & Hc' & Hn' & Hu & Hin).
      { intros j Hj. apply Hl in Hj. lia. }
      exists h', tab', l'. repeat (split; [done|]). intros j. rewrite Hin. split; intros [?|[? (e & He & Hi)]]; auto.
      * right. split; [lia|]. by exists e.
      * right. split; [|by exists e]. destruct (decide (j = i)) as [->|]; [congruence|lia].
Qed.

(** ** Overlaps *)
Definition fin (tab : list cyg_flash_dev) (i : nat) : Z := from_option end_ 0 (tab !! i).

Definition apart (tab : list cyg_flash_dev) (i j : nat) : Prop := fin tab i < key tab j.

Lemma no_overlap_spec tab l : forall fuel i,
  chain tab (Some i) (i :: l) -> (length l < fuel)%nat ->
  exists b, no_overlap fuel i tab = Some b /\
    if b : bool then Sorted (apart tab) (i :: l)
    else exists l1 x y l2, i :: l = l1 ++ x :: y :: l2 /\ key tab y <= fin tab x.
Proof.
  induction l as [|j l IH]; intros fuel i (_ & d & Hd & Hc) Hf; (destruct fuel as [|fuel]; [lia|]);
    cbn [no_overlap]; rewrite Hd; cbn [mbind option_bind].
  - cbn in Hc. rewrite Hc. exists true. split; [done|]. by repeat constructor.
  - destruct Hc as (Hj & e & He & Hc). rewrite Hj, He. cbn [mbind option_bind].
    assert (fin tab i = end_ d /\ key tab j = start e) as [Hfi Hkj] by (unfold fin, key; by rewrite Hd, He).
    destruct (Z.geb_spec (end_ d) (start e)).
    + exists false. split; [done|]. exists [], i, j, l. split; [done|]. lia.
    + destruct (IH fuel j) as (b & Hb & Hs); [split; [done|by exists e]|cbn in Hf; lia|].
      exists b. split; [done|]. destruct b.
      * constructor; [done|]. constructor. unfold apart. lia.
      * destruct Hs as (l1 & x & y & l2 & -> & Hxy). by exists (i :: l1), x, y, l2.
Qed.

(** Devices that are apart from their neighbour and not upside down are apart. *)
Lemma sorted_apart tab l : (forall i, i ∈ l -> key tab i <= fin tab i + 1) -> Sorted (apart tab) l ->
  forall i j a, i ∈ l -> j ∈ l -> key tab i <= a <= fin tab i -> key tab j <= a <= fin tab j -> i = j.
Proof.
  assert (forall l x, (forall i, i ∈ x :: l -> key tab i <= fin tab i + 1) -> Sorted (apart tab) (x :: l) ->
            forall y, y ∈ l -> fin tab x < key tab y) as Hhd.
  { clear l. induction l as [|z l IH]; intros x Hk Hs y Hy; [by apply not_elem_of_nil in Hy|].
    apply Sorted_inv in Hs as [Hs Hxz]. apply HdRel_inv in Hxz. unfold apart in Hxz.
    apply elem_of_cons in Hy as [->|Hy]; [done|].
    assert (fin tab z < key tab y) by (apply (IH z); [intros i Hi; apply Hk; by right|done|done]).
    pose proof (Hk z ltac:(right; left)). lia. }
  induction l as [|x l IH]; intros Hk Hs i j a Hi Hj Hia Hja; [by apply not_elem_of_nil in Hi|].
  apply elem_of_cons in Hi as [->|Hi]; apply elem_of_cons in Hj as [->|Hj].
  - done.
  - pose proof (Hhd l x Hk Hs j Hj). lia.
  - pose proof (Hhd l x Hk Hs i Hi). lia.
  - apply (IH ltac:(intros y Hy; apply Hk; by right) (proj1 (Sorted_inv Hs)) i j a); done.
Qed.

(** ** flash_sort_and_check *)
Definition initialised (tab : list cyg_flash_dev) (i : nat) : Prop := exists d, tab !! i = Some d /\ dev_init d = true.

Definition overlap (tab : list cyg_flash_dev) : Prop :=
  exists i j, initialised tab i /\ initialised tab j /\ i <> j /\ key tab i <= key tab j <= fin tab i.

Lemma fin_unlinked tab tab' i : unlinked tab' = unlinked tab -> fin tab' i = fin tab i.
Proof.
  intros H. unfold fin. destruct (tab !! i) as [d|] eqn:E.
  - by destruct (unlinked_lookup _ _ _ _ H E) as [n ->].
  - apply lookup_ge_None in E. rewrite <- (unlinked_length _ _ H) in E. by rewrite (lookup_ge_None_2 tab').
Qed.

Lemma sorted_neighbours {A} (R : A -> A -> Prop) l1 x y l2 : Sorted R (l1 ++ x :: y :: l2) -> R x y.
Proof.
  induction l1 as [|z l1 IH]; cbn; intros [Hs Hh]%Sorted_inv; [by apply HdRel_inv in Hh|auto].
Qed.

Lemma flash_sort_and_check_spec tab :
  exists ok h' tab' l, flash_sort_and_check (None, tab) = Some (ok, (h', tab')) /\ chain tab' h' l /\ NoDup l /\
    unlinked tab' = unlinked tab /\ (forall i, i ∈ l <-> initialised tab i) /\
    Sorted (fun i j => key tab i <= key tab j) l /\
    if ok : bool then l <> [] /\ Sorted (apart tab) l else l = [] \/ overlap tab.
Proof.
  destruct (push_devs_spec (length tab) 0 None tab []) as (h1 & tab1 & l1 & Hr & Hc & Hn & Hu & Hin);
    [done|done|constructor|set_solver|].
  assert (forall i, i ∈ l1 <-> initialised tab i) as Hin1.
  { intros i. rewrite Hin. unfold initialised. split; [intros [?%not_elem_of_nil|[_ ?]]; done|]. intros ?. right. split; [lia|done]. }
  unfold flash_sort_and_check. cbn [snd]. rewrite Hr. cbn [fst snd]. destruct l1 as [|x l1].
  { cbn in Hc. rewrite Hc. exists false, None, tab1, []. repeat (split; [done|]). by left. }
  assert (h1 = Some x) as -> by apply Hc. pose proof (dev_chain_length _ _ _ Hc Hn).
  destruct (ripple_sort_spec (S (length tab1 * length tab1)) (x :: l1) (Some x) tab1)
    as (h2 & tab2 & l2 & -> & Hc2 & Hp2 & Hs2 & Hu2); [done|done|done| |].
  { pose proof (inversions_le (key tab1) (x :: l1)). nia. }
  cbn [mbind option_bind fst snd]. destruct l2 as [|y l2]; [by apply Permutation_nil_cons in Hp2|].
  assert (h2 = Some y) as -> by apply Hc2. cbn [mbind option_bind].
  assert (NoDup (y :: l2)) as Hn2 by by rewrite Hp2. pose proof (dev_chain_length _ _ _ Hc2 Hn2).
  destruct (no_overlap_spec tab2 l2 (S (length tab2)) y Hc2) as (b & -> & Hb); [cbn in *; lia|].
  cbn [mbind option_bind]. assert (unlinked tab2 = unlinked tab) as Hu' by by rewrite Hu2.
  exists b, (Some y), tab2, (y :: l2). split; [done|]. split; [done|]. split; [done|]. split; [done|].
  assert (forall i, i ∈ y :: l2 <-> initialised tab i) as Hin2 by (intros i; by rewrite Hp2).
  split; [done|]. assert (Sorted (fun i j => key tab i <= key tab j) (y :: l2)) as Hs.
  { eapply Sorted_ext; [|exact Hs2]. cbn. intros i j. by rewrite !(key_unlinked tab tab1). }
  split; [done|]. destruct b.
  - split; [done|]. eapply Sorted_ext; [|exact Hb]. intros i j. unfold apart.
    by rewrite (key_unlinked tab tab2), (fin_unlinked tab tab2).
  - right. destruct Hb as (k1 & u & v & k2 & E & Huv). rewrite (key_unlinked tab tab2), (fin_unlinked tab tab2) in Huv by done.
    rewrite E in Hs, Hin2, Hn2. apply sorted_neighbours in Hs. exists u, v. split; [apply Hin2; set_solver|].
    split; [apply Hin2; set_solver|]. split; [|lia]. intros ->. apply NoDup_app in Hn2 as (_ & _ & Hn2).
    apply NoDup_cons in Hn2 as [Hv _]. apply Hv. left.
Qed.
