(* ===== verification/FlashSpec.v ===== *)
(** * What the operations of the flash package do to the contents of the flash

    Blocks of a device against their plain definition, what is asked of a driver
    ([DriverLaws]), and erase, program and read over ranges that may run through
    several devices. *)
From S2P Require Import Prelude.
From S2P Require Import Flash.
From S2P Require Import FlashList.

(** ** Blocks *)

(** The block of an address within regions that start at [base]: its begin and size. *)
Fixpoint block_in (infos : list cyg_flash_block_info) (base a : Z) : option (Z * Z) :=
  match infos with
  | [] => None
  | b :: infos' =>
      let n := blocks b * block_size b in
      if a <? base + n then Some (base + (a - base) / block_size b * block_size b, block_size b)
      else block_in infos' (base + n) a
  end.

Definition block_of (d : cyg_flash_dev) (a : Z) : option (Z * Z) :=
  if a <? start d then None else block_in (block_info d) (start d) a.

Definition total (infos : list cyg_flash_block_info) : Z :=
  foldr (fun b n => blocks b * block_size b + n) 0 infos.

(** Every region starts at a multiple of its block size, counted from the start of
    the device, as flash_block_begin assumes. *)
Fixpoint regions_ok (infos : list cyg_flash_block_info) (off : Z) : Prop :=
  match infos with
  | [] => True
  | b :: infos' =>
      0 < block_size b /\ 0 <= blocks b /\ off mod block_size b = 0 /\
      regions_ok infos' (off + blocks b * block_size b)
  end.

(** The blocks lie within the addresses the device claims. *)
Record dev_ok (d : cyg_flash_dev) : Prop := {
  ok_start : 0 <= start d;
  ok_regions : regions_ok (block_info d) 0;
  ok_total : start d + total (block_info d) <= end_ d + 1;
  ok_end : end_ d < 2 ^ 32;
  ok_size : end_ d + 1 - start d < 2 ^ 32 }.

Definition covered (d : cyg_flash_dev) (a : Z) : Prop := start d <= a < start d + total (block_info d).

Lemma total_pos infos : forall off, regions_ok infos off -> 0 <= total infos.
Proof.
  induction infos as [|b infos IH]; intros off H; [done|]. destruct H as (Hs & Hb & _ & Hr).
  pose proof (IH _ Hr). unfold total in *. cbn [foldr]. nia.
Qed.

Lemma block_in_spec infos : forall s0 off a,
  0 <= s0 -> 0 <= off -> s0 + off + total infos <= 2 ^ 32 -> off + total infos < 2 ^ 32 -> regions_ok infos off ->
  s0 + off <= a < s0 + off + total infos ->
  exists b s, block_in infos (s0 + off) a = Some (b, s) /\ 0 < s /\ s0 + off <= b <= a /\
    a < b + s <= s0 + off + total infos /\ region_size infos (a - (s0 + off)) = s /\
    b = (a - s0) / s * s + s0 /\ (forall x, b <= x < b + s -> block_in infos (s0 + off) x = Some (b, s)).
Proof.
  induction infos as [|r infos IH]; intros s0 off a Hs0 Hoff Hlim Hsz Hr Ha; [cbn in *; lia|].
  destruct Hr as (Hs & Hb & Hal & Hr). cbn [total foldr block_in region_size] in *. fold (total infos) in *.
  pose proof (total_pos _ _ Hr). set (n := blocks r * block_size r) in *.
  assert (0 <= n) by (unfold n; nia). rewrite (uwrap_small 32 n) by lia.
  destruct (Z.ltb_spec a (s0 + off + n)).
  - assert (a - (s0 + off) <? n = true) as -> by lia. set (s := block_size r) in *.
    set (k := (a - (s0 + off)) / s). pose proof (div_bounds (a - (s0 + off)) s Hs) as Hd. fold k in Hd.
    assert (0 <= k) by (apply Z.div_pos; lia).
    assert (k < blocks r) by (apply Z.div_lt_upper_bound; unfold n in *; lia).
    assert ((k + 1) * s <= n) by (unfold n; nia).
    exists (s0 + off + k * s), s. split; [done|]. split; [done|]. split; [nia|]. split; [lia|].
    split; [done|]. split.
    + replace (a - s0) with (a - (s0 + off) + off / s * s).
      * rewrite Z.div_add by lia. fold k. pose proof (Z.div_mod off s). nia.
      * pose proof (Z.div_mod off s). nia.
    + intros x Hx. assert (x <? s0 + off + n = true) as -> by lia.
      assert ((x - (s0 + off)) / s = k) as ->; [|done].
      symmetry. apply Z.div_unique with (x - (s0 + off) - k * s); [left; lia|lia].
  - assert (a - (s0 + off) <? n = false) as -> by lia.
    rewrite <- (Z.add_assoc s0 off n). rewrite uwrap_small by lia.
    destruct (IH s0 (off + n) a) as (b & s & Hb1 & Hs1 & Hb2 & Hb3 & Hr1 & Hb4 & Hb5); try done; try lia.
    exists b, s. split; [done|]. split; [done|]. split; [lia|]. split; [lia|].
    split; [by replace (a - (s0 + off) - n) with (a - (s0 + (off + n))) by ring|]. split; [done|].
    intros x Hx. replace (x <? s0 + (off + n)) with false by lia. by apply Hb5.
Qed.

(** The block of an address as the package computes it. *)
Lemma block_of_spec d a :
  dev_ok d -> covered d a ->
  exists b s, block_of d a = Some (b, s) /\ 0 < s /\ start d <= b <= a /\
    a < b + s <= start d + total (block_info d) /\ flash_block_size d a = s /\ flash_block_begin a d = Some b /\
    (forall x, b <= x < b + s -> block_of d x = Some (b, s)).
Proof.
  intros [H0 Hr Ht He Hz] [Ha1 Ha2].
  destruct (block_in_spec (block_info d) (start d) 0 a) as (b & s & Hb & Hs & Hb1 & Hb2 & Hrs & Hb3 & Hall); try lia; [done|].
  rewrite !Z.add_0_r in *. exists b, s. unfold block_of.
  replace (a <? start d) with false by lia. split; [done|]. split; [done|]. split; [done|]. split; [done|].
  assert (flash_block_size d a = s) as Hsz.
  { unfold flash_block_size. rewrite uwrap_small by lia. done. }
  split; [done|]. split.
  - unfold flash_block_begin. rewrite Hsz. replace (s =? 0) with false by lia.
    rewrite (uwrap_small 32 (a - start d)) by lia. rewrite !uwrap_small; [by rewrite Hb3| |]; rewrite ?uwrap_small; lia.
  - intros x Hx. replace (x <? start d) with false by lia. by apply Hall.
Qed.

Lemma block_in_covered infos : forall base off a r,
  regions_ok infos off -> base <= a -> block_in infos base a = Some r -> base <= a < base + total infos.
Proof.
  induction infos as [|b infos IH]; intros base off a r Hr Ha; [done|]. cbn [block_in total foldr].
  destruct Hr as (Hs & Hb & _ & Hr). pose proof (total_pos _ _ Hr). fold (total infos).
  destruct (Z.ltb_spec a (base + blocks b * block_size b)); [lia|].
  intros H2. apply (IH _ _ _ _ Hr) in H2; lia.
Qed.

Lemma block_covered d a r : dev_ok d -> block_of d a = Some r -> covered d a.
Proof.
  intros [] H. unfold block_of in H. destruct (Z.ltb_spec a (start d)); [done|].
  by eapply block_in_covered.
Qed.

(** What the block of an address is. *)
Lemma block_facts d a b z :
  dev_ok d -> block_of d a = Some (b, z) ->
  0 < z /\ start d <= b /\ b <= a < b + z /\ b + z <= start d + total (block_info d) /\
  flash_block_size d a = z /\ flash_block_begin a d = Some b /\
  (forall x, b <= x < b + z -> block_of d x = Some (b, z)).
Proof.
  intros Hok Hb. destruct (block_of_spec d a Hok) as (b' & z' & E & H); [by eapply block_covered|].
  rewrite Hb in E. injection E as <- <-. destruct H as (? & ? & ? & ? & ? & ?). by repeat split; try lia.
Qed.

Lemma block_apart d x y b z c w :
  dev_ok d -> block_of d x = Some (b, z) -> block_of d y = Some (c, w) ->
  b = c /\ z = w \/ b + z <= c \/ c + w <= b.
Proof.
  intros Hok Hx Hy. pose proof (block_facts _ _ _ _ Hok Hx) as (? & ? & ? & ? & _ & _ & Hx').
  pose proof (block_facts _ _ _ _ Hok Hy) as (? & ? & ? & ? & _ & _ & Hy').
  destruct (decide (b + z <= c)); [auto|]. destruct (decide (c + w <= b)); [auto|]. left.
  pose proof (Hx' (Z.max b c) ltac:(lia)) as E. rewrite (Hy' (Z.max b c)) in E by lia. by injection E as -> ->.
Qed.

(** The address behind a block starts the next one. *)
Lemma block_next d x b z :
  dev_ok d -> block_of d x = Some (b, z) -> b + z < start d + total (block_info d) ->
  exists w, block_of d (b + z) = Some (b + z, w).
Proof.
  intros Hok Hb Hlt. pose proof (block_facts _ _ _ _ Hok Hb) as (? & ? & ? & ? & _).
  destruct (block_of_spec d (b + z) Hok) as (c & w & Hc & _); [unfold covered; lia|].
  exists w. rewrite Hc. do 2 f_equal. pose proof (block_facts _ _ _ _ Hok Hc).
  destruct (block_apart _ _ _ _ _ _ _ Hok Hb Hc); lia.
Qed.

(** ** Drivers *)

(** Geometry of a device: its addresses and its regions. *)
Definition geometry (d : cyg_flash_dev) : Z * Z * list cyg_flash_block_info := (start d, end_ d, block_info d).

(** What a driver does: [drv_ok] is its invariant, [regions i] the geometry device [i]
    has once it is initialised when its regions were [declared], [prog_unit i] the
    alignment it needs to program, and [may_fail] that it reports errors at all. *)
Class DriverLaws (D : FlashDriver) := {
  drv_ok : drv -> Prop;
  regions : nat -> Z * Z * list cyg_flash_block_info;
  prog_unit : nat -> Z;
  prog_unit_pos i : 0 < prog_unit i;
  regions_good i d : geometry d = regions i ->
    dev_ok d /\ start d mod prog_unit i = 0 /\ Forall (fun b => block_size b mod prog_unit i = 0) (block_info d);
  cell_byte h a : drv_ok h -> is_byte (cell h a);
  declared : nat -> list cyg_flash_block_info -> Prop;
  may_fail : Prop;
  init_law i d h : drv_ok h -> declared i (block_info d) ->
    wp (flash_init i d) (fun '(r, d') h' =>
      drv_ok h' /\ (forall a, cell h' a = cell h a) /\ next d' = next d /\ mutex d' = mutex d /\
      (r <> CYG_FLASH_ERR_OK -> may_fail) /\ (r = CYG_FLASH_ERR_OK -> geometry d' = regions i) /\
      (dev_init d' = true -> r = CYG_FLASH_ERR_OK \/ dev_init d = true)) h;
  erase_law i d b s h : drv_ok h -> geometry d = regions i -> block_of d b = Some (b, s) ->
    wp (flash_erase_block i b) (fun r h' =>
      drv_ok h' /\ (forall a, ~ b <= a < b + s -> cell h' a = cell h a) /\
      (r <> CYG_FLASH_ERR_OK -> may_fail) /\
      (r = CYG_FLASH_ERR_OK -> forall a, b <= a < b + s -> cell h' a = 0xff)) h;
  program_law i d addr b s data h : drv_ok h -> geometry d = regions i ->
    block_of d addr = Some (b, s) -> addr mod prog_unit i = 0 ->
    data <> [] -> addr + Z.of_nat (length data) <= b + s -> Forall is_byte data ->
    wp (flash_program i addr data) (fun r h' =>
      drv_ok h' /\ (forall a, ~ addr <= a < addr + Z.of_nat (length data) -> cell h' a = cell h a) /\
      (r <> CYG_FLASH_ERR_OK -> may_fail) /\
      (r = CYG_FLASH_ERR_OK -> forall k x, data !! k = Some x ->
         cell h' (addr + Z.of_nat k) = Z.land (cell h (addr + Z.of_nat k)) x)) h;
  read_law i read addr n h : drv_ok h -> flash_read i = Some read -> 0 < n ->
    wp (read addr n) (fun '(r, bs) h' =>
      drv_ok h' /\ (forall a, cell h' a = cell h a) /\ length bs = Z.to_nat n /\ (r <> CYG_FLASH_ERR_OK -> may_fail) /\
      (r = CYG_FLASH_ERR_OK -> bs = cells h addr (Z.to_nat n))) h;
  lock_law i f b h : drv_ok h -> flash_block_lock i = Some f \/ flash_block_unlock i = Some f ->
    wp (f b) (fun _ h' => drv_ok h' /\ (forall a, cell h' a = cell h a)) h }.

(** ** The state between calls *)

Section Package.
Context `{D : FlashDriver} `{!DriverLaws D}.
Variable single indirect : bool.
Implicit Types (s : flash_sys).

Definition has (s : flash_sys) (i : nat) (d : cyg_flash_dev) : Prop :=
  cyg_flashdevtab s !! i = Some d /\ dev_init d = true.

(** The package is initialised; every device that initialised has its geometry and
    is found, no two of them claim an address, and no mutex is held. *)
Record sys_ok (s : flash_sys) : Prop := {
  sys_ready : flash_ready s = true;
  sys_drv : drv_ok (hw s);
  sys_free : Forall (fun d => mutex d = false) (cyg_flashdevtab s);
  sys_dev i d : has s i d -> dev_ok d /\ geometry d = regions i /\
    start d mod prog_unit i = 0 /\ Forall (fun b => block_size b mod prog_unit i = 0) (block_info d);
  sys_apart i j d e a : has s i d -> has s j e -> start d <= a <= end_ d -> start e <= a <= end_ e -> i = j;
  sys_list : if single then length (cyg_flashdevtab s) = 1%nat
             else exists l, chain (cyg_flashdevtab s) (flash_head s) l /\ NoDup l /\
               forall i d, cyg_flashdevtab s !! i = Some d -> (dev_init d = true <-> i ∈ l) }.

(** Some initialised device holds the address. *)
Definition at_dev (s : flash_sys) (a : Z) (i : nat) (d : cyg_flash_dev) : Prop := has s i d /\ covered d a.

Lemma get_dev_wp i d (Q : cyg_flash_dev -> flash_sys -> Prop) s :
  cyg_flashdevtab s !! i = Some d -> Q d s -> wp (get_dev i) Q s.
Proof using. intros Hd HQ. exists d, s. unfold get_dev, lift. cbn. unfold mbind, M_bind, get_state. by rewrite Hd. Qed.

Lemma lift_wp {A} (o : option A) a (Q : A -> flash_sys -> Prop) s : o = Some a -> Q a s -> wp (lift o) Q s.
Proof using. intros -> HQ. by exists a, s. Qed.

Lemma on_drv_wp {A} (m : M drv A) (Q : A -> flash_sys -> Prop) s :
  wp m (fun a h => Q a (set_hw h s)) (hw s) -> wp (on_drv m) Q s.
Proof using. intros (a & h & Hm & HQ). exists a, (set_hw h s). unfold on_drv. by rewrite Hm. Qed.

Lemma find_walk_spec tab a l : forall h fuel,
  chain tab h l -> (length l <= fuel)%nat ->
  exists r, find_walk fuel h tab a = Some r /\
    match r with
    | Some i => i ∈ l /\ exists d, tab !! i = Some d /\ start d <= a <= end_ d
    | None => forall i d, i ∈ l -> tab !! i = Some d -> ~ start d <= a <= end_ d
    end.
Proof using.
  induction l as [|i l IH]; intros h fuel Hc Hf.
  - cbn in Hc. subst h. exists None. destruct fuel; (split; [done|]); intros i d Hi; by apply not_elem_of_nil in Hi.
  - destruct Hc as (-> & d & Hd & Hc). destruct fuel as [|fuel]; [cbn in Hf; lia|]. cbn [find_walk]. rewrite Hd.
    cbn [mbind option_bind]. destruct ((start d <=? a) && (a <=? end_ d)) eqn:E.
    + exists (Some i). split; [done|]. split; [left|]. exists d. split; [done|]. bool_lia.
    + destruct (IH (next d) fuel Hc) as (r & Hr & Hs); [cbn in Hf; lia|]. exists r. split; [done|].
      destruct r as [j|]; [destruct Hs as [Hj Hs]; split; [by right|done]|].
      intros j e Hj He. apply elem_of_cons in Hj as [->|Hj]; [|by eapply Hs].
      rewrite Hd in He. injection He as <-. apply andb_false_iff in E as [E|E]; lia.
Qed.

Lemma find_dev_spec s a i d :
  sys_ok s -> has s i d -> start d <= a <= end_ d -> wp (find_dev single a) (fun r s' => s' = s /\ r = inr i) s.
Proof using.
  intros Hs Hd Ha. unfold find_dev. apply wp_get. rewrite (sys_ready _ Hs). cbn [negb].
  pose proof (sys_list _ Hs) as Hl. destruct single.
  - destruct Hd as [Hd Hi]. assert (i = 0%nat) as -> by (apply lookup_lt_Some in Hd; lia).
    apply wp_bind, (get_dev_wp 0 d); [done|]. rewrite Hi.
    replace ((a >=? start d) && (a <=? end_ d)) with true by (symmetry; apply andb_true_intro; lia).
    cbn [negb]. by apply wp_ret.
  - destruct Hl as (l & Hc & Hn & Hin).
    destruct (find_walk_spec _ a _ _ (S (length (cyg_flashdevtab s))) Hc) as (r & Hr & Hrs).
    { pose proof (dev_chain_length _ _ _ Hc Hn). lia. }
    apply wp_bind, (lift_wp _ r); [done|]. apply wp_ret. split; [done|]. destruct r as [j|].
    + destruct Hrs as (Hj & e & He & Hae). f_equal. symmetry.
      apply (sys_apart _ Hs i j d e a); try done. split; [done|]. by eapply Hin.
    + destruct Hd as [Hd Hi]. exfalso. apply (Hrs i d); try done. by eapply Hin.
Qed.

(** ** Locking around a device *)

(** The state in which the mutex of device [i] is held. *)
Definition held (i : nat) (d : cyg_flash_dev) (s : flash_sys) : flash_sys :=
  set_tab (<[i := set_mutex true d]> (cyg_flashdevtab s)) s.

Lemma free_dev s i d : sys_ok s -> has s i d -> mutex d = false.
Proof using. intros Hs [Hd _]. by eapply Forall_lookup_1 in Hd; [|apply (sys_free _ Hs)]. Qed.

Lemma lock_wp s i d (Q : unit -> flash_sys -> Prop) :
  sys_ok s -> has s i d -> Q tt (held i d s) -> wp (LOCK i) Q s.
Proof using.
  intros Hs Hd HQ. unfold LOCK. apply wp_bind, (get_dev_wp i d); [apply Hd|].
  rewrite (free_dev _ _ _ Hs Hd). by exists tt, (held i d s).
Qed.

Lemma held_dev s i d : has s i d -> cyg_flashdevtab (held i d s) !! i = Some (set_mutex true d).
Proof using. intros [Hd _]. apply list_lookup_insert_eq. by eapply lookup_lt_Some. Qed.

Lemma unlock_wp s i d h (Q : unit -> flash_sys -> Prop) :
  sys_ok s -> has s i d -> Q tt (set_hw h s) -> wp (UNLOCK i) Q (set_hw h (held i d s)).
Proof using.
  intros Hs Hd HQ. unfold UNLOCK. apply wp_bind, (get_dev_wp i (set_mutex true d)); [by apply held_dev|].
  exists tt, (set_hw h s). split; [|done]. unfold put_dev, modify, set_tab, held, set_hw. cbn.
  rewrite list_insert_insert_eq. rewrite list_insert_id; [by destruct s|].
  rewrite (proj1 Hd). f_equal. pose proof (free_dev _ _ _ Hs Hd). by destruct d; cbn in *; subst.
Qed.

Lemma sys_ok_hw s h : sys_ok s -> drv_ok h -> sys_ok (set_hw h s).
Proof using. intros [] Hh. by constructor. Qed.

(** ** Erase within a device *)

(** The bytes of every block that holds an address from [lo] up to [hi]. *)
Definition touched_in (d : cyg_flash_dev) (lo hi a : Z) : Prop :=
  exists x b z, lo <= x < hi /\ block_of d x = Some (b, z) /\ b <= a < b + z.

(** The outcome of erasing the bytes [T], where [B] has the blocks by begin and size: an
    error leaves what lies behind the block it is reported for, and everything before it
    is erased. *)
Record erase_post (B : Z -> Z -> Prop) (T : Z -> Prop) (want : bool) (r : Z) (err : option Z) (h h' : drv) : Prop := {
  ep_drv : drv_ok h';
  ep_rest a : ~ T a -> cell h' a = cell h a;
  ep_done : r = CYG_FLASH_ERR_OK -> forall a, (T a -> cell h' a = 0xff) /\ (cell h' a = 0xff \/ cell h' a = cell h a);
  ep_fail : r <> CYG_FLASH_ERR_OK -> may_fail;
  ep_error : r <> CYG_FLASH_ERR_OK -> exists x z, err = failed want x /\ T x /\ B x z /\ 0 < z /\
    (forall a, T a -> a < x -> cell h' a = 0xff) /\ (forall a, x + z <= a -> cell h' a = cell h a) }.

(** The block that begins at [x] and has [z] bytes, of the device or of any that initialised. *)
Definition block_at (d : cyg_flash_dev) (x z : Z) : Prop := block_of d x = Some (x, z).
Definition block_of_some (s : flash_sys) (x z : Z) : Prop := exists i d, has s i d /\ block_at d x z.

Lemma erase_post_blocks (B B' : Z -> Z -> Prop) T want r err h h' :
  (forall x z, B x z -> B' x z) -> erase_post B T want r err h h' -> erase_post B' T want r err h h'.
Proof using.
  intros HB [P1 P2 P3 PF P4]. split; [done..|]. intros Hr. destruct (P4 Hr) as (x & z & E & Hx & Hb & H). exists x, z. auto.
Qed.

Lemma cells_lookup h addr n k : (k < n)%nat -> cells h addr n !! k = Some (cell h (u32 (addr + Z.of_nat k))).
Proof using. intros Hk. unfold cells. rewrite list_lookup_fmap, lookup_seq_lt by done. done. Qed.

Lemma blank_spec h addr n a :
  0 <= addr -> addr + n <= 2 ^ 32 -> blank h addr n = true -> addr <= a < addr + n -> cell h a = 0xff.
Proof using.
  intros H0 H1 Hb Ha. unfold blank in Hb. rewrite forallb_forall in Hb. apply Z.eqb_eq, Hb, list_elem_of_In.
  apply list_elem_of_lookup. exists (Z.to_nat (a - addr)). rewrite cells_lookup by lia.
  do 2 f_equal. rewrite Z2Nat.id by lia. rewrite uwrap_small; lia.
Qed.

(** The touched bytes, block by block. *)
Lemma touched_step d b z n m a :
  dev_ok d -> block_of d b = Some (b, z) -> 0 < n -> m = Z.max n z - z ->
  touched_in d b (b + n) a <-> b <= a < b + z \/ touched_in d (b + z) (b + z + m) a.
Proof using.
  intros Hok Hb Hn ->. pose proof (block_facts _ _ _ _ Hok Hb) as (? & ? & ? & ? & _ & _ & Hall). split.
  - intros (x & c & w & Hx & Hc & Ha). destruct (decide (x < b + z)).
    + left. rewrite Hall in Hc by lia. by injection Hc as <- <-.
    + right. exists x, c, w. split; [lia|done].
  - intros [Ha|(x & c & w & Hx & Hc & Ha)]; [exists b, b, z|exists x, c, w]; (split; [lia|done]).
Qed.

Lemma touched_above d x b z n a :
  dev_ok d -> block_of d x = Some (b, z) -> touched_in d (b + z) (b + z + n) a -> b + z <= a /\ 0 < n.
Proof using.
  intros Hok Hb (y & c & w & Hy & Hc & Ha). pose proof (block_facts _ _ _ _ Hok Hc) as (? & ? & ? & _).
  pose proof (block_facts _ _ _ _ Hok Hb) as (? & _).
  destruct (block_apart _ _ _ _ _ _ _ Hok Hb Hc); lia.
Qed.

(** Erasing [T1] with success and then [T2] behind it erases both. *)
Lemma erase_post_app B (T1 T2 T : Z -> Prop) want r err h0 h1 h2 m :
  (forall a, T a <-> T1 a \/ T2 a) -> (forall a, T1 a -> a < m) -> (forall a, T2 a -> m <= a) ->
  erase_post B T1 want CYG_FLASH_ERR_OK None h0 h1 -> erase_post B T2 want r err h1 h2 ->
  erase_post B T want r err h0 h2.
Proof using.
  intros HT H1 H2 [_ R1 D1 _ _] [P2 R2 D2 F2 E2]. pose proof (fun a => proj1 (D1 eq_refl a)) as F1.
  pose proof (fun a => proj2 (D1 eq_refl a)) as O1. clear D1. split; [done| | |done|].
  - intros a Ha. rewrite R2, R1; [done| |]; intros ?; apply Ha, HT; auto.
  - intros Hr a. destruct (D2 Hr a) as [T2' O2]. split.
    + intros [Ha|Ha]%HT; [|auto]. destruct O2 as [->| ->]; auto.
    + destruct O2 as [->| ->]; auto.
  - intros Hr. destruct (E2 Hr) as (x & z & E & Hx & HB & Hz & Hlt & Hgt). exists x, z. split; [done|]. split; [apply HT; auto|]. do 2 (split; [done|]). split.
    + intros a [Ha|Ha]%HT Hax; [|auto]. rewrite R2; [auto|]. intros Ha2. apply H1 in Ha. apply H2 in Ha2. lia.
    + intros a Ha. rewrite Hgt by done. apply R1. intros Ha1. apply H1 in Ha1. apply H2 in Hx. lia.
Qed.

Lemma erase_step want i d b z n h s :
  geometry d = regions i -> dev_ok d -> drv_ok h -> block_of d b = Some (b, z) -> 0 < n ->
  wp (if match flash_read i with None => blank h b z | Some _ => false end then mret CYG_FLASH_ERR_OK
      else on_drv (flash_erase_block i b))
    (fun r s' => exists h', s' = set_hw h' s /\
       erase_post (block_at d) (fun a => b <= a < b + z) want r (if r =? CYG_FLASH_ERR_OK then None else failed want b) h h') (set_hw h s).
Proof using Type*.
  intros Hg Hok Hh Hb Hn. pose proof (block_facts _ _ _ _ Hok Hb) as (Hz & ? & ? & ? & _). pose proof Hok as [].
  apply wp_if; intros E.
  - apply wp_ret. exists h. split; [done|]. split; [done|done| |done|done]. intros _ a. split; [|by right]. intros Ha.
    destruct (flash_read i); [done|]. eapply blank_spec; [| |done|done]; lia.
  - apply on_drv_wp. eapply wp_mono; [by eapply erase_law|]. cbn beta. intros r h' (Hh' & Hout & Hfail & Hin). exists h'.
    split; [done|]. split; [done|done| |done|].
    + intros Hr a. split; [by apply Hin|]. destruct (decide (b <= a < b + z)); [left|right]; auto.
    + intros Hr. apply Z.eqb_neq in Hr. rewrite Hr. exists b, z.
      split; [done|]. split; [lia|]. do 2 (split; [done|]). split; [lia|]. intros a Ha. apply Hout. lia.
Qed.

Lemma erase_blocks_spec want i d s : geometry d = regions i -> dev_ok d ->
  forall fuel block count h, drv_ok h -> 0 <= count -> (Z.to_nat count < fuel)%nat ->
  (0 < count -> block + count <= start d + total (block_info d) /\ exists z, block_of d block = Some (block, z)) ->
  wp (erase_loop fuel want i d block count) (fun '(r, err) s' => exists h', s' = set_hw h' s /\
    erase_post (block_at d) (touched_in d block (block + count)) want r err h h') (set_hw h s).
Proof using Type*.
  intros Hg Hok. pose proof Hok as []. induction fuel as [|fuel IH]; intros block count h Hh Hc Hf Hb; [lia|].
  cbn [erase_loop]. destruct (Z.gtb_spec count 0) as [Hpos|Hz].
  2: { apply wp_ret. exists h. split; [done|]. split; try done. intros _ a. split; [|by right].
       intros (x & b & z & Hx & _). lia. }
  destruct (Hb ltac:(lia)) as (Hend & z & Hbz). clear Hb.
  pose proof (block_facts _ _ _ _ Hok Hbz) as (Hz & ? & ? & ? & -> & _). apply wp_get. cbn [hw set_hw].
  apply wp_bind. eapply wp_mono; [by eapply (erase_step want)|]. cbn beta. intros stat s1 (h1 & -> & Hp1).
  assert ((if count <? z then z else count) = Z.max count z) as -> by (destruct (Z.ltb_spec count z); lia).
  assert (forall a, touched_in d block (block + count) a <-> block <= a < block + z \/
            touched_in d (block + z) (block + z + (Z.max count z - z)) a) as HT by (intros; by apply touched_step).
  destruct (Z.eqb_spec stat CYG_FLASH_ERR_OK) as [->|Hstat]; cbn [negb].
  2: { apply wp_ret. exists h1. split; [done|]. destruct Hp1 as [P1 P2 P3 PF P4]. split; [done| |done|done|].
       - intros a Ha. apply P2. intros ?. apply Ha, HT. auto.
       - intros Hr. destruct (P4 Hr) as (x & w & -> & Hx & HB & Hw & Hlt & Hgt). exists x, w. split; [done|].
         split; [apply HT; auto|]. repeat split; try done. intros a [Ha|Ha]%HT Hax; [auto|].
         apply (touched_above _ _ _ _ _ _ Hok Hbz) in Ha. lia. }
  rewrite (uwrap_small 32 (_ - _)) by lia. set (m := Z.max count z - z) in *.
  assert (0 < m -> u32 (block + z) = block + z) as Hnext by (intros; apply uwrap_small; lia).
  eapply wp_mono; [apply (IH (u32 (block + z)) m h1); [apply Hp1|lia|lia|]|].
  { intros Hm. rewrite Hnext by done. split; [lia|]. apply (block_next _ _ _ _ Hok Hbz). lia. }
  intros [r err] s2 (h2 & -> & Hp2). exists h2. split; [done|].
  assert (forall a, touched_in d (u32 (block + z)) (u32 (block + z) + m) a <->
                    touched_in d (block + z) (block + z + m) a) as HT2.
  { intros a. destruct (decide (0 < m)); [by rewrite Hnext|].
    split; intros (x & b & w & Hx & _); lia. }
  eapply (erase_post_app _ _ _ _ _ _ _ _ _ _ (block + z)); [| | |exact Hp1|exact Hp2].
  - intros a. by rewrite HT, HT2.
  - cbn. lia.
  - intros a Ha. apply HT2, (touched_above _ _ _ _ _ _ Hok Hbz) in Ha. lia.
Qed.

(** ** Erase over several devices *)
Definition claims (s : flash_sys) (a : Z) : Prop := exists i d, at_dev s a i d.

Definition touched (s : flash_sys) (base len a : Z) : Prop :=
  exists i d, has s i d /\ touched_in d base (base + len) a.

(** How many devices end at or behind an address: the devices a range that starts
    there may still run through. *)
Definition devices_from (s : flash_sys) (base : Z) : nat :=
  length (filter (fun d => base <= end_ d) (cyg_flashdevtab s)).

Lemma devices_from_le s base : (devices_from s base <= length (cyg_flashdevtab s))%nat.
Proof using. apply length_filter. Qed.

Lemma filter_weaker {A} (P Q : A -> Prop) `{!forall x, Decision (P x)} `{!forall x, Decision (Q x)} l x :
  (forall y, P y -> Q y) -> x ∈ l -> Q x -> ~ P x -> (length (filter P l) < length (filter Q l))%nat.
Proof using.
  intros HPQ. assert (forall k : list A, (length (filter P k) <= length (filter Q k))%nat) as Hle.
  { induction k as [|y k IH]; [done|]. rewrite !filter_cons.
    destruct (decide (P y)), (decide (Q y)); cbn; try lia. exfalso. auto. }
  induction l as [|y l IH]; intros Hx HQ HP; [by apply not_elem_of_nil in Hx|]. rewrite !filter_cons.
  apply elem_of_cons in Hx as [->|Hx].
  - rewrite decide_False, decide_True by done. cbn. specialize (Hle l). lia.
  - specialize (IH Hx HQ HP). destruct (decide (P y)), (decide (Q y)); cbn; try lia. exfalso. auto.
Qed.

Lemma devices_from_lt s i d base :
  has s i d -> base <= end_ d -> (devices_from s (end_ d + 1) < devices_from s base)%nat.
Proof using.
  intros [Hd _] Hb. unfold devices_from. eapply (filter_weaker _ _ _ d); cbn; try lia.
  by eapply list_elem_of_lookup_2.
Qed.

(** The part of a range within a device. *)
Lemma range_within d base len :
  dev_ok d -> covered d base -> 0 < len -> base + len <= 2 ^ 32 ->
  room d base = end_ d + 1 - base /\
  u32 (range_end d base len + 1) = u32 (base + Z.min len (end_ d + 1 - base)) /\
  beyond d base len =
    (if len >? end_ d + 1 - base then Some (end_ d + 1, len - (end_ d + 1 - base)) else None).
Proof using.
  intros [] Hc Hl Hlim. unfold covered in Hc.
  assert (room d base = end_ d + 1 - base) as Hr.
  { unfold room, uwrap. rewrite Zminus_mod_idemp_l. apply Z.mod_small. lia. }
  split; [done|]. unfold range_end, beyond. rewrite Hr. destruct (Z.gtb_spec len (end_ d + 1 - base)).
  - split; [f_equal; lia|]. rewrite !uwrap_small by lia. done.
  - split; [|done]. unfold uwrap. rewrite Zplus_mod_idemp_l, Z.sub_add, Zmod_mod. f_equal. lia.
Qed.

(** Covered ranges: every address lies in a block of an initialised device. *)
Definition covered_range (s : flash_sys) (base len : Z) : Prop := forall a, base <= a < base + len -> claims s a.

Lemma covered_claims s i d a : sys_ok s -> has s i d -> start d <= a <= end_ d -> claims s a -> covered d a.
Proof using.
  intros Hs Hd Ha (j & e & He & Hc). pose proof (sys_dev _ Hs _ _ He) as ([] & _).
  assert (i = j) as <-.
  { apply (sys_apart _ Hs i j d e a Hd He Ha). unfold covered in Hc. lia. }
  destruct Hd as [Hd _], He as [He _]. rewrite Hd in He. by injection He as ->.
Qed.

(** A device that ends within a covered range is covered to its end. *)
Lemma covered_end s i d base len :
  sys_ok s -> has s i d -> covered d base -> covered_range s base len -> 0 < len ->
  base + Z.min len (end_ d + 1 - base) <= start d + total (block_info d).
Proof using.
  intros Hs Hd Hc Hr Hl. pose proof (sys_dev _ Hs _ _ Hd) as ([] & _).
  set (a := base + Z.min len (end_ d + 1 - base) - 1). unfold covered in Hc.
  assert (covered d a) as []; [|lia].
  apply (covered_claims s i); [done|done|lia|]. apply Hr. lia.
Qed.

Lemma touched_begin d base b z hi a :
  dev_ok d -> block_of d base = Some (b, z) -> base < hi -> touched_in d b hi a <-> touched_in d base hi a.
Proof using.
  intros Hok Hb Hlt. pose proof (block_facts _ _ _ _ Hok Hb) as (? & ? & ? & ? & _ & _ & Hall).
  split; intros (x & c & w & Hx & Hc & Ha); [|exists x, c, w; split; [lia|done]].
  destruct (decide (base <= x)); [exists x, c, w; by split; [lia|]|]. exists base, b, z. split; [lia|]. split; [done|].
  rewrite Hall in Hc by lia. by injection Hc as <- <-.
Qed.

(** The first device of a range and the part of the range it holds. *)
Record first_device (s : flash_sys) (base len : Z) (i : nat) (d : cyg_flash_dev) (n : Z) : Prop := {
  fd_has : has s i d;
  fd_ok : dev_ok d;
  fd_mutex : dev_ok (set_mutex true d);
  fd_geom : geometry d = regions i;
  fd_covered : covered d base;
  fd_len : 0 < n <= len;
  fd_within : base + n <= start d + total (block_info d);
  fd_count b : start d <= b <= base -> u32 (u32 (range_end d base len + 1) - b) = base + n - b;
  fd_beyond : beyond d base len = (if n <? len then Some (base + n, len - n) else None);
  fd_rest : n < len -> (devices_from s (base + n) < devices_from s base)%nat /\ end_ d + 1 = base + n }.

Lemma first_device_spec s base len :
  sys_ok s -> 0 < len -> 0 <= base -> base + len <= 2 ^ 32 -> covered_range s base len ->
  exists i d n, first_device s base len i d n.
Proof using Type*.
  intros Hs Hl H0 Hlim Hcov. destruct (Hcov base ltac:(lia)) as (i & d & Hd & Hc).
  pose proof (sys_dev _ Hs _ _ Hd) as (Hok & Hg & _). pose proof Hok as [].
  destruct (range_within d base len Hok Hc Hl Hlim) as (_ & Hend & Hbey).
  pose proof (covered_end _ _ _ _ _ Hs Hd Hc Hcov Hl) as Hce. unfold covered in Hc.
  exists i, d, (Z.min len (end_ d + 1 - base)). split; try done; try lia.
  - intros b Hb. rewrite Hend. unfold uwrap. rewrite Zminus_mod_idemp_l. apply Z.mod_small. lia.
  - rewrite Hbey. destruct (Z.gtb_spec len (end_ d + 1 - base)), (Z.ltb_spec (Z.min len (end_ d + 1 - base)) len);
      try lia; [|done]. do 2 f_equal; lia.
  - intros Hlt. replace (base + Z.min len (end_ d + 1 - base)) with (end_ d + 1) by lia.
    split; [|done]. eapply devices_from_lt; [done|lia].
Qed.

(** The rest of a range begins a new one. *)
Lemma covered_rest s base len n : covered_range s base len -> 0 <= n -> covered_range s (base + n) (len - n).
Proof using. intros H Hn a Ha. apply H. lia. Qed.

Lemma find_wp {A} s base len i d n (k : Z + nat -> M flash_sys A) (Q : A -> flash_sys -> Prop) :
  sys_ok s -> first_device s base len i d n -> wp (k (inr i)) Q s -> wp (find_dev single base ≫= k) Q s.
Proof using Type*.
  intros Hs [Hd Hok _ _ Hc _ _ _ _ _] Hk. pose proof Hok as []. unfold covered in Hc.
  apply wp_bind. eapply wp_mono; [apply (find_dev_spec s base i d); [done|done|lia]|].
  cbn beta. by intros r s' [-> ->].
Qed.

Lemma enter_wp {A} s base len i d n (k : cyg_flash_dev -> M flash_sys A) (Q : A -> flash_sys -> Prop) :
  sys_ok s -> first_device s base len i d n -> wp (k (set_mutex true d)) Q (held i d s) ->
  wp (_ ← LOCK i; d ← get_dev i; k d) Q s.
Proof using Type*.
  intros Hs Hf Hk. apply wp_bind, (lock_wp s i d); [done|apply Hf|].
  apply wp_bind, (get_dev_wp i (set_mutex true d)); [apply held_dev, Hf|done].
Qed.

Lemma touched_split s base len i d n a :
  sys_ok s -> first_device s base len i d n ->
  touched s base len a <-> touched_in d base (base + n) a \/ touched s (base + n) (len - n) a.
Proof using Type*.
  intros Hs [Hd Hok _ _ Hc Hn Hw _ _ Hr]. unfold touched, covered in *. split.
  - intros (j & e & He & x & b & z & Hx & Hb & Ha). destruct (decide (x < base + n)).
    + left. exists x, b, z. split; [lia|].
      assert (j = i) as ->.
      { pose proof (sys_dev _ Hs _ _ He) as (Hoe & _). pose proof (block_covered _ _ _ Hoe Hb) as Hce.
        pose proof Hoe as []. pose proof Hok as []. apply (sys_apart _ Hs j i e d x He Hd); unfold covered in Hce; lia. }
      destruct He as [He _], Hd as [Hd _]. rewrite He in Hd. by injection Hd as ->.
    + right. exists j, e. split; [done|]. exists x, b, z. split; [lia|done].
  - intros [(x & b & z & Hx & Hb & Ha)|(j & e & He & x & b & z & Hx & Hb & Ha)].
    + exists i, d. split; [done|]. exists x, b, z. split; [lia|done].
    + exists j, e. split; [done|]. exists x, b, z. split; [lia|done].
Qed.

(** What an operation on a later part touches lies behind the first device. *)
Lemma touched_behind s base len i d n a :
  sys_ok s -> first_device s base len i d n -> n < len -> touched s (base + n) (len - n) a -> base + n <= a.
Proof using Type*.
  intros Hs [Hd Hok _ _ Hc Hn Hw _ _ Hr] Hlt (j & e & He & x & b & z & Hx & Hb & Ha).
  destruct (Hr Hlt) as [_ Hend]. pose proof (sys_dev _ Hs _ _ He) as (Hoe & _).
  pose proof (block_covered _ _ _ Hoe Hb) as Hce. pose proof (block_facts _ _ _ _ Hoe Hb) as (? & ? & ? & ? & _).
  pose proof Hoe as []. pose proof Hok as []. unfold covered in *. destruct (decide (base + n <= start e)); [lia|].
  exfalso. assert (j = i) as ->.
  { apply (sys_apart _ Hs j i e d (Z.max (start e) (start d)) He Hd); lia. }
  destruct He as [He _], Hd as [Hd _]. rewrite He in Hd. injection Hd as ->. lia.
Qed.

Lemma held_hw i d s h : set_hw h (held i d s) = held i d (set_hw h s).
Proof using. done. Qed.

(** An error in the first part is an error of the whole. *)
Lemma erase_post_stop B (T1 T2 T : Z -> Prop) want r err h h' m :
  (forall a, T a <-> T1 a \/ T2 a) -> (forall a, T1 a -> a < m) -> (forall a, T2 a -> m <= a) ->
  r <> CYG_FLASH_ERR_OK -> erase_post B T1 want r err h h' -> erase_post B T want r err h h'.
Proof using.
  intros HT H1 H2 Hr [P1 P2 _ PF P4]. split; [done| |done|done|].
  - intros a Ha. apply P2. intros ?. apply Ha, HT. auto.
  - intros _. destruct (P4 Hr) as (x & z & E & Hx & HB & Hz & Hlt & Hgt). exists x, z. split; [done|].
    split; [apply HT; auto|]. do 2 (split; [done|]). split; [|done]. intros a [Ha|Ha]%HT Hax; [auto|].
    apply H1 in Hx. apply H2 in Ha. lia.
Qed.

Lemma erase_post_same B (T1 T : Z -> Prop) want r err h h' :
  (forall a, T a <-> T1 a) -> erase_post B T1 want r err h h' -> erase_post B T want r err h h'.
Proof using.
  intros HT [P1 P2 P3 PF P4]. split; [done| | |done|].
  - intros a Ha. apply P2. by rewrite <- HT.
  - intros Hr a. rewrite HT. auto.
  - intros Hr. destruct (P4 Hr) as (x & z & E & Hx & HB & Hz & Hlt & Hgt). exists x, z. split; [done|].
    split; [by apply HT|]. do 2 (split; [done|]). split; [|done]. intros a Ha. apply Hlt. by apply HT.
Qed.

(** The first device of a range does not reach behind it. *)
Lemma touched_first s base len i d n a :
  first_device s base len i d n -> touched_in d base (base + n) a -> n < len -> a < base + n.
Proof using Type*.
  intros [Hd Hok _ _ Hc Hn Hw _ _ Hr] (x & b & z & Hx & Hb & Ha) Hlt. destruct (Hr Hlt) as [_ He].
  pose proof (block_facts _ _ _ _ Hok Hb) as (? & ? & ? & ? & _). pose proof Hok as []. lia.
Qed.

(** What the whole operation touches, in terms of the first device, from the begin of
    its first block, and of the rest. *)
Lemma touched_parts s base len i d n b z :
  sys_ok s -> first_device s base len i d n -> block_of d base = Some (b, z) ->
  (forall a, touched s base len a <-> touched_in d b (base + n) a \/ touched s (base + n) (len - n) a) /\
  (n < len -> forall a, touched_in d b (base + n) a -> a < base + n) /\
  (n < len -> forall a, touched s (base + n) (len - n) a -> base + n <= a) /\
  (~ n < len -> forall a, touched s base len a <-> touched_in d b (base + n) a).
Proof using Type*.
  intros Hs Hfd Hb. pose proof Hfd as [_ Hok _ _ _ Hn _ _ _ _].
  assert (forall a, touched s base len a <-> touched_in d b (base + n) a \/ touched s (base + n) (len - n) a) as HT.
  { intros a. rewrite (touched_split _ _ _ _ _ _ _ Hs Hfd). by rewrite (touched_begin _ _ _ _ _ a Hok Hb) by lia. }
  split; [done|]. split; [|split].
  - intros Hlt a Ha. apply (touched_begin _ _ _ _ _ a Hok Hb) in Ha; [|lia]. by eapply touched_first.
  - intros Hlt a. by eapply touched_behind.
  - intros Hlt a. rewrite HT. split; [|auto]. intros [Ha|(j & e & _ & x & ? & ? & Hx & _)]; [done|lia].
Qed.

Lemma flash_erase_spec fuel want base len s :
  sys_ok s -> 0 < len -> 0 <= base -> base + len <= 2 ^ 32 -> covered_range s base len ->
  (length (cyg_flashdevtab s) < fuel)%nat ->
  wp (cyg_flash_erase single fuel want base len) (fun '(r, err) s' => exists h', s' = set_hw h' s /\
    erase_post (block_of_some s) (touched s base len) want r err (hw s) h') s.
Proof using Type*.
  intros Hs Hl H0 Hlim Hcov Hf. pose proof (devices_from_le s base) as Hn.
  assert (devices_from s base < fuel)%nat as Hf' by lia. clear Hf Hn.
  revert base len s Hs Hl H0 Hlim Hcov Hf'. induction fuel as [|fuel IH]; intros base len s Hs Hl H0 Hlim Hcov Hf; [lia|].
  cbn [cyg_flash_erase]. destruct (first_device_spec s base len) as (i & d & n & Hfd); try done.
  pose proof Hfd as [Hd Hok Hokm Hg Hc Hn Hw Hcnt Hbey Hrest]. pose proof Hok as [].
  apply (find_wp _ _ _ _ _ _ _ _ Hs Hfd), (enter_wp _ _ _ _ _ _ _ _ Hs Hfd).
  destruct (block_of_spec d base Hok Hc) as (b & z & Hb & _).
  pose proof (block_facts _ _ _ _ Hok Hb) as (Hz & ? & ? & ? & _ & Hbeg & Hall).
  apply wp_bind, (lift_wp _ b); [done|].
  change (range_end (set_mutex true d) base len) with (range_end d base len). rewrite Hcnt by lia.
  apply wp_bind. eapply wp_mono.
  { apply (erase_blocks_spec want i (set_mutex true d) (held i d s) Hg Hokm _ b (base + n - b) (hw s)); [apply Hs|lia|lia|].
    intros _. cbn [start block_info set_mutex]. split; [lia|]. exists z. apply Hall. lia. }
  intros [r err] s1 (h1 & -> & Hp1). replace (b + (base + n - b)) with (base + n) in Hp1 by lia.
  apply (erase_post_blocks _ (block_of_some s)) in Hp1; [|intros x w Hx; by exists i, d].
  apply wp_bind, (unlock_wp s i d h1); [done|done|].
  change (beyond (set_mutex true d) base len) with (beyond d base len). rewrite Hbey.
  destruct (touched_parts _ _ _ _ _ _ b z Hs Hfd Hb) as (HT & HT1a & HT2a & HT1).
  destruct (Z.eqb_spec r CYG_FLASH_ERR_OK) as [->|Hr]; cbn [negb].
  2: { apply wp_ret. exists h1. split; [done|]. destruct (decide (n < len)) as [Hlt|Hlt].
       - by eapply (erase_post_stop _ _ _ _ _ _ _ _ _ _ HT (HT1a Hlt) (HT2a Hlt)).
       - by apply (erase_post_same _ _ _ _ _ _ _ _ (HT1 Hlt)). }
  destruct (Z.ltb_spec n len) as [Hlt|Hlt].
  - destruct (Hrest Hlt) as [Hdec _]. eapply wp_mono.
    + apply (IH (base + n) (len - n) (set_hw h1 s)); [apply sys_ok_hw; [done|apply Hp1]|lia|lia|lia| |].
      * apply covered_rest; [exact Hcov|lia].
      * change (devices_from (set_hw h1 s) (base + n)) with (devices_from s (base + n)). lia.
    + intros [r err2] s2 (h2 & -> & Hp2). exists h2. split; [done|].
      eapply (erase_post_app _ _ _ _ _ _ _ _ _ _ _ HT (HT1a Hlt) (HT2a Hlt)); [|exact Hp2].
      destruct Hp1 as [P1 P2 P3 _ _]. by split.
  - apply wp_ret. exists h1. split; [done|]. apply (erase_post_same _ _ _ _ _ _ _ _ (HT1 ltac:(lia))).
    destruct Hp1 as [P1 P2 P3 _ _]. by split.
Qed.

(** C9: cyg_flash_erase over a range of initialised devices that is not empty always
    returns and leaves no mutex held. On success every byte of every block that the range
    touches is 0xff and every other byte of the flash is as it was, through as many
    devices as the range runs; on an error the address reported is that of the block that
    failed, everything touched before it is erased, and from the end of that block on
    nothing has changed. (An empty range that begins within a block erases the block, see
    empty_erase_erases in FlashInit.) *)
Theorem flash_erase_ok fuel want base len s :
  sys_ok s -> 0 < len -> 0 <= base -> base + len <= 2 ^ 32 -> covered_range s base len ->
  (length (cyg_flashdevtab s) < fuel)%nat ->
  wp (cyg_flash_erase single fuel want base len) (fun '(r, err) s' => exists h', s' = set_hw h' s /\
    erase_post (block_of_some s) (touched s base len) want r err (hw s) h') s.
Proof using Type*. apply flash_erase_spec. Qed.

(** ** Program *)
Lemma block_in_unit u infos : forall base a b z,
  0 < u -> base mod u = 0 -> Forall (fun r => block_size r mod u = 0) infos ->
  block_in infos base a = Some (b, z) -> b mod u = 0 /\ z mod u = 0.
Proof using.
  induction infos as [|r infos IH]; intros base a b z Hu Hb Hall; [done|]. cbn [block_in].
  inversion Hall as [|? ? Hr Hall']; subst.
  assert (forall k, k * block_size r mod u = 0) as Hk by (intros k; by rewrite Zmult_mod, Hr, Z.mul_0_r).
  case_match.
  - intros [= <- <-]. split; [|done]. by rewrite Zplus_mod, Hb, Hk.
  - apply IH; [done| |done]. by rewrite Zplus_mod, Hb, Hk.
Qed.

(** The outcome of programming [data] from [base] on: the bytes keep the bits that are
    set in both; after an error this holds below the address that is reported. *)
Record prog_post (base : Z) (data : list byte) (want : bool) (r : Z) (err : option Z) (h h' : drv) : Prop := {
  pp_drv : drv_ok h';
  pp_rest a : ~ base <= a < base + Z.of_nat (length data) -> cell h' a = cell h a;
  pp_done : r = CYG_FLASH_ERR_OK -> forall k x, data !! k = Some x ->
    cell h' (base + Z.of_nat k) = Z.land (cell h (base + Z.of_nat k)) x;
  pp_fail : r <> CYG_FLASH_ERR_OK -> may_fail;
  pp_error : r <> CYG_FLASH_ERR_OK -> exists y, err = failed want y /\ base <= y < base + Z.of_nat (length data) /\
    forall k x, data !! k = Some x -> base + Z.of_nat k < y ->
      cell h' (base + Z.of_nat k) = Z.land (cell h (base + Z.of_nat k)) x }.

Lemma prog_post_nil base want h : drv_ok h -> prog_post base [] want CYG_FLASH_ERR_OK None h h.
Proof using. intros Hh. by split. Qed.

Lemma prog_post_base base base' want r err h h' :
  prog_post base [] want r err h h' -> prog_post base' [] want r err h h'.
Proof using.
  intros [P1 P2 P3 PF P4]. cbn in *. split; [done| |done|done|]; cbn.
  - intros a _. apply P2. lia.
  - intros Hr. destruct (P4 Hr) as (y & _ & Hy & _). lia.
Qed.

Lemma prog_post_app base d1 d2 want r err h0 h1 h2 :
  prog_post base d1 want CYG_FLASH_ERR_OK None h0 h1 ->
  prog_post (base + Z.of_nat (length d1)) d2 want r err h1 h2 ->
  prog_post base (d1 ++ d2) want r err h0 h2.
Proof using.
  intros [_ R1 D1 _ _] [P2 R2 D2 F2 E2]. specialize (D1 eq_refl).
  assert (forall k x, (d1 ++ d2) !! k = Some x ->
            ((length d1 <= k)%nat -> d2 !! (k - length d1)%nat = Some x -> cell h2 (base + Z.of_nat k) = Z.land (cell h1 (base + Z.of_nat k)) x) ->
            cell h2 (base + Z.of_nat k) = Z.land (cell h0 (base + Z.of_nat k)) x) as Hstep.
  { intros k x Hk H2. apply lookup_app_Some in Hk as [Hk|[Hle Hk]].
    - pose proof (lookup_lt_Some _ _ _ Hk). rewrite R2 by lia. by apply D1.
    - rewrite (H2 Hle Hk), R1; [done|lia]. }
  split; [done| | |done|].
  - intros a Ha. rewrite length_app in Ha. rewrite R2, R1; [done|lia|lia].
  - intros Hr k x Hk. apply Hstep; [done|]. intros Hle H2.
    replace (base + Z.of_nat k) with (base + Z.of_nat (length d1) + Z.of_nat (k - length d1)) by lia. by apply D2.
  - intros Hr. destruct (E2 Hr) as (y & E & Hy & Hlt). exists y. split; [done|]. split; [rewrite length_app; lia|].
    intros k x Hk Hky. apply Hstep; [done|]. intros Hle H2.
    replace (base + Z.of_nat k) with (base + Z.of_nat (length d1) + Z.of_nat (k - length d1)) in * by lia. by apply Hlt.
Qed.

(** An error in the first part is an error of the whole. *)
Lemma prog_post_stop base d1 d2 want r err h h' :
  r <> CYG_FLASH_ERR_OK -> prog_post base d1 want r err h h' -> prog_post base (d1 ++ d2) want r err h h'.
Proof using.
  intros Hr [P1 P2 _ PF P4]. split; [done| |done|done|].
  - intros a Ha. rewrite length_app in Ha. apply P2. lia.
  - intros _. destruct (P4 Hr) as (y & E & Hy & Hlt). exists y. split; [done|]. split; [rewrite length_app; lia|].
    intros k x Hk Hky. apply Hlt; [|done]. rewrite lookup_app_l in Hk by lia. done.
Qed.

Lemma program_step want i d addr b z data h s :
  geometry d = regions i -> drv_ok h -> block_of d addr = Some (b, z) -> addr mod prog_unit i = 0 ->
  data <> [] -> addr + Z.of_nat (length data) <= b + z -> Forall is_byte data ->
  wp (on_drv (flash_program i addr data)) (fun r s' => exists h', s' = set_hw h' s /\
    prog_post addr data want r (if r =? CYG_FLASH_ERR_OK then None else failed want addr) h h') (set_hw h s).
Proof using Type*.
  intros Hg Hh Hb Hu Hne Hlen Hby. apply on_drv_wp. eapply wp_mono; [by eapply program_law|].
  cbn beta. intros r h' (Hh' & Hout & Hfail & Hin). exists h'. split; [done|]. split; [done|done|done|done|].
  intros Hr. apply Z.eqb_neq in Hr. rewrite Hr. exists addr. split; [done|]. 
  assert (0 < length data)%nat by (destruct data; [done|cbn; lia]). split; [lia|]. intros k x _ Hk. lia.
Qed.

Lemma program_blocks_spec want i d s : geometry d = regions i -> dev_ok d -> start d mod prog_unit i = 0 ->
  Forall (fun r => block_size r mod prog_unit i = 0) (block_info d) ->
  forall fuel addr offset count ram h, drv_ok h -> 0 <= count -> (Z.to_nat count < fuel)%nat ->
  (Z.to_nat count <= length ram)%nat -> Forall is_byte ram ->
  (0 < count -> addr mod prog_unit i = 0 /\ addr + count <= start d + total (block_info d) /\
     exists z, block_of d addr = Some (addr - offset, z)) ->
  wp (program_loop fuel want i d addr offset count ram) (fun '(r, err, ram') s' => exists h', s' = set_hw h' s /\
    (r = CYG_FLASH_ERR_OK -> ram' = drop (Z.to_nat count) ram) /\
    prog_post addr (take (Z.to_nat count) ram) want r err h h') (set_hw h s).
Proof using Type*.
  intros Hg Hok Hst Hun. pose proof Hok as []. pose proof (prog_unit_pos i).
  induction fuel as [|fuel IH]; intros addr offset count ram h Hh Hc Hf Hram Hby Hb; [lia|].
  cbn [program_loop]. destruct (Z.gtb_spec count 0) as [Hpos|Hz].
  2: { assert (count = 0) as -> by lia. apply wp_ret. exists h. split; [done|]. split; [done|]. by apply prog_post_nil. }
  destruct (Hb ltac:(lia)) as (Hau & Hend & z & Hbz). clear Hb.
  pose proof (block_facts _ _ _ _ Hok Hbz) as (Hz & ? & ? & ? & -> & _). set (b := addr - offset) in *.
  set (n := this_transfer z offset count).
  assert (n = Z.min count (b + z - addr)) as Hn.
  { unfold n, this_transfer. rewrite uwrap_small by lia. destruct (Z.gtb_spec count (z - offset)); lia. }
  replace (Nat.ltb (length ram) (Z.to_nat n)) with false by (symmetry; apply Nat.ltb_ge; lia).
  assert (length (take (Z.to_nat n) ram) = Z.to_nat n) as Hl by (rewrite length_take; lia).
  apply wp_bind. eapply wp_mono.
  { apply (program_step want i d addr b z); try done; [|rewrite Hl; lia|by apply Forall_take].
    intros E. rewrite E in Hl. cbn in Hl. lia. }
  cbn beta. intros stat s1 (h1 & -> & Hp1).
  rewrite <- (take_drop (Z.to_nat n) (take (Z.to_nat count) ram)), take_take, Nat.min_l by lia.
  destruct (Z.eqb_spec stat CYG_FLASH_ERR_OK) as [->|Hstat]; cbn [negb].
  2: { apply wp_ret. exists h1. split; [done|]. split; [done|]. by apply prog_post_stop. }
  rewrite (uwrap_small 32 (count - n)) by lia. rewrite skipn_firstn_comm.
  replace (Z.to_nat count - Z.to_nat n)%nat with (Z.to_nat (count - n)) by lia.
  assert (0 < count - n -> u32 (addr + n) = addr + n) as Hnext by (intros; apply uwrap_small; lia).
  eapply wp_mono.
  { apply (IH (u32 (addr + n)) 0 (count - n) (drop (Z.to_nat n) ram) h1); [apply Hp1|lia|lia| |by apply Forall_drop|].
    - rewrite length_drop. lia.
    - intros Hp. rewrite Hnext by done. assert (addr + n = b + z) as -> by lia. split; [|split; [lia|]].
      + unfold block_of in Hbz. case_match; [done|].
        destruct (block_in_unit (prog_unit i) _ _ _ _ _ (prog_unit_pos i) Hst Hun Hbz) as [E1 E2].
        by rewrite Zplus_mod, E1, E2.
      + rewrite Z.sub_0_r. apply (block_next _ _ _ _ Hok Hbz). lia. }
  intros [[r err] ram'] s2 (h2 & -> & Hr & Hp2). exists h2. split; [done|]. split.
  - intros E. rewrite (Hr E), drop_drop. f_equal. lia.
  - apply (prog_post_app _ _ _ _ _ _ _ h1); [exact Hp1|]. rewrite Hl, Z2Nat.id by lia.
    destruct (decide (0 < count - n)) as [Hp|Hp]; [by rewrite Hnext in Hp2|].
    assert (count - n = 0) as E by lia. rewrite E in *. cbn [Z.to_nat take] in *. by eapply prog_post_base.
Qed.

(** A device is entered at its start when a range reaches it from the device before. *)
Lemma covered_start_unit s base len i d n j e :
  sys_ok s -> first_device s base len i d n -> n < len -> has s j e -> covered e (base + n) ->
  (base + n) mod prog_unit j = 0.
Proof using Type*.
  intros Hs [Hd Hok _ _ Hc Hn Hw _ _ Hr] Hlt He Hce. destruct (Hr Hlt) as [_ Hend].
  pose proof (sys_dev _ Hs _ _ He) as (Hoe & _ & Hst & _). pose proof Hoe as []. pose proof Hok as [].
  unfold covered in *. destruct (decide (start e < base + n)).
  - exfalso. assert (j = i) as ->.
    { apply (sys_apart _ Hs j i e d (Z.max (start e) (start d)) He Hd); lia. }
    destruct He as [He _], Hd as [Hd _]. rewrite He in Hd. injection Hd as ->. lia.
  - by replace (base + n) with (start e) by lia.
Qed.

Lemma flash_program_spec fuel want base ram len s :
  sys_ok s -> 0 < len -> 0 <= base -> base + len <= 2 ^ 32 -> covered_range s base len ->
  (forall i d, has s i d -> covered d base -> base mod prog_unit i = 0) ->
  len <= Z.of_nat (length ram) -> Forall is_byte ram -> (length (cyg_flashdevtab s) < fuel)%nat ->
  wp (cyg_flash_program single fuel want base ram len) (fun '(r, err) s' => exists h', s' = set_hw h' s /\
    prog_post base (take (Z.to_nat len) ram) want r err (hw s) h') s.
Proof using Type*.
  intros Hs Hl H0 Hlim Hcov Hu Hlen Hby Hf. pose proof (devices_from_le s base) as Hn.
  assert (devices_from s base < fuel)%nat as Hf' by lia. clear Hf Hn.
  revert base ram len s Hs Hl H0 Hlim Hcov Hu Hlen Hby Hf'.
  induction fuel as [|fuel IH]; intros base ram len s Hs Hl H0 Hlim Hcov Hu Hlen Hby Hf; [lia|].
  cbn [cyg_flash_program]. destruct (first_device_spec s base len) as (i & d & n & Hfd); try done.
  pose proof Hfd as [Hd Hok Hokm Hg Hc Hn Hw Hcnt Hbey Hrest]. pose proof Hok as [].
  pose proof (sys_dev _ Hs _ _ Hd) as (_ & _ & Hst & Hun).
  apply (find_wp _ _ _ _ _ _ _ _ Hs Hfd), (enter_wp _ _ _ _ _ _ _ _ Hs Hfd).
  destruct (block_of_spec d base Hok Hc) as (b & z & Hb & _).
  pose proof (block_facts _ _ _ _ Hok Hb) as (Hz & ? & ? & ? & _ & Hbeg & Hall).
  change (range_end (set_mutex true d) base len) with (range_end d base len). rewrite Hcnt by (unfold covered in Hc; lia).
  replace (base + n - base) with n by lia.
  apply wp_bind, (lift_wp _ (base - b)).
  { unfold block_offset. change (flash_block_begin base (set_mutex true d)) with (flash_block_begin base d).
    rewrite Hbeg. cbn [mbind option_bind]. destruct (Z.eqb_spec base b); f_equal; [lia|]. apply uwrap_small. lia. }
  apply wp_bind. eapply wp_mono.
  { apply (program_blocks_spec want i (set_mutex true d) (held i d s) Hg Hokm Hst Hun _ base (base - b) n ram (hw s));
      [apply Hs|lia|lia|lia|done|]. intros _. split; [by eapply Hu|]. split; [done|].
    exists z. replace (base - (base - b)) with b by lia. done. }
  intros [[r err] ram'] s1 (h1 & -> & Hram & Hp1). apply wp_bind, (unlock_wp s i d h1); [done|done|].
  change (beyond (set_mutex true d) base len) with (beyond d base len). rewrite Hbey.
  rewrite <- (take_drop (Z.to_nat n) (take (Z.to_nat len) ram)), take_take, Nat.min_l by lia.
  destruct (Z.eqb_spec r CYG_FLASH_ERR_OK) as [->|Hr]; cbn [negb].
  2: { apply wp_ret. exists h1. split; [done|]. by apply prog_post_stop. }
  rewrite (Hram eq_refl). rewrite skipn_firstn_comm.
  replace (Z.to_nat len - Z.to_nat n)%nat with (Z.to_nat (len - n)) by lia.
  assert (prog_post base (take (Z.to_nat n) ram) want CYG_FLASH_ERR_OK None (hw s) h1) as Hp1'.
  { destruct Hp1 as [P1 P2 P3 _ _]. by split. }
  destruct (Z.ltb_spec n len) as [Hlt|Hlt].
  - destruct (Hrest Hlt) as [Hdec _]. eapply wp_mono.
    + apply (IH (base + n) (drop (Z.to_nat n) ram) (len - n) (set_hw h1 s));
        [apply sys_ok_hw; [done|apply Hp1]|lia|lia|lia| | | |by apply Forall_drop|].
      * apply covered_rest; [exact Hcov|lia].
      * intros j e He Hce. by apply (covered_start_unit s base len i d n j e Hs Hfd Hlt).
      * rewrite length_drop. lia.
      * change (devices_from (set_hw h1 s) (base + n)) with (devices_from s (base + n)). lia.
    + intros [r err2] s2 (h2 & -> & Hp2). exists h2. split; [done|].
      apply (prog_post_app _ _ _ _ _ _ _ h1); [exact Hp1'|]. rewrite length_take, Nat.min_l, Z2Nat.id by lia. exact Hp2.
  - apply wp_ret. exists h1. split; [done|].
    replace (Z.to_nat (len - n)) with 0%nat by lia. rewrite take_0, app_nil_r. exact Hp1'.
Qed.

(** C10: cyg_flash_program over a range of initialised devices that is not empty and
    begins at a multiple of what the driver programs at once ([prog_unit]) always returns
    and leaves no mutex held, and only the bytes of the range change. On success each
    byte keeps exactly the bits that are set both in it and in the data; on an error
    this holds for every byte below the address that is reported. (The package does not
    see to the alignment: the driver of the QCA953x, which programs pages, puts the bytes
    of a range that begins within a page and runs into the next one at wrong addresses
    and reports success.) *)
Theorem flash_program_ok fuel want base ram len s :
  sys_ok s -> 0 < len -> 0 <= base -> base + len <= 2 ^ 32 -> covered_range s base len ->
  (forall i d, has s i d -> covered d base -> base mod prog_unit i = 0) ->
  len <= Z.of_nat (length ram) -> Forall is_byte ram -> (length (cyg_flashdevtab s) < fuel)%nat ->
  wp (cyg_flash_program single fuel want base ram len) (fun '(r, err) s' => exists h', s' = set_hw h' s /\
    prog_post base (take (Z.to_nat len) ram) want r err (hw s) h') s.
Proof using Type*. apply flash_program_spec. Qed.

(** ** Read *)
Lemma cells_add h addr n m : cells h addr (n + m) = cells h addr n ++ cells h (u32 (addr + Z.of_nat n)) m.
Proof using.
  unfold cells. rewrite seq_app, map_app. f_equal. rewrite <- (Nat.add_0_r (0 + n)), <- fmap_add_seq.
  unfold fmap. rewrite map_map. apply map_ext. intros k. f_equal. unfold uwrap.
  rewrite Zplus_mod_idemp_l. f_equal. lia.
Qed.

Lemma cells_same h h' addr n : (forall a, cell h' a = cell h a) -> cells h' addr n = cells h addr n.
Proof using. intros H. unfold cells. apply map_ext. intros k. apply H. Qed.

Lemma length_cells h addr n : length (cells h addr n) = n.
Proof using. unfold cells. by rewrite length_map, length_seq. Qed.

Lemma cells_bytes h addr n : drv_ok h -> Forall is_byte (cells h addr n).
Proof using. intros Hh. unfold cells. apply Forall_fmap, Forall_true. intros k. by apply cell_byte. Qed.

(** The outcome of reading [n] bytes from [base] on: nothing changes, and the bytes are
    those of the flash; after an error this holds up to the address that is reported. *)
Record read_post (base : Z) (n : nat) (r : Z) (err : option Z) (ram : list byte) (h h' : drv) : Prop := {
  rp_drv : drv_ok h';
  rp_same a : cell h' a = cell h a;
  rp_done : r = CYG_FLASH_ERR_OK -> ram = cells h base n;
  rp_fail : r <> CYG_FLASH_ERR_OK -> may_fail;
  rp_error : r <> CYG_FLASH_ERR_OK -> exists k, (k < n)%nat /\ err = Some (u32 (base + Z.of_nat k)) /\
    take k ram = cells h base k }.

Lemma read_post_app base n1 n2 b1 b2 base2 r err h0 h1 h2 :
  base2 = u32 (base + Z.of_nat n1) -> read_post base n1 CYG_FLASH_ERR_OK None b1 h0 h1 ->
  read_post base2 n2 r err b2 h1 h2 -> read_post base (n1 + n2) r err (b1 ++ b2) h0 h2.
Proof using.
  intros -> [_ S1 D1 _ _] [P2 S2 D2 F2 E2]. rewrite (D1 eq_refl). split; [done| | |done|].
  - intros a. by rewrite S2.
  - intros Hr. rewrite (D2 Hr), cells_add. f_equal. by apply cells_same.
  - intros Hr. destruct (E2 Hr) as (k & Hk & -> & Ht). exists (n1 + k)%nat. split; [lia|]. split.
    + f_equal. unfold uwrap. rewrite Zplus_mod_idemp_l. f_equal. lia.
    + rewrite take_app_add', Ht, cells_add by (symmetry; apply length_cells). f_equal. by apply cells_same.
Qed.

(** An error in the first part is an error of the whole. *)
Lemma read_post_stop base n1 n2 r err b h h' :
  r <> CYG_FLASH_ERR_OK -> read_post base n1 r err b h h' -> read_post base (n1 + n2) r err b h h'.
Proof using.
  intros Hr [P1 P2 _ PF P4]. split; [done|done|done|done|]. intros _.
  destruct (P4 Hr) as (k & Hk & E & Ht). exists k. by split; [lia|].
Qed.

Lemma read_blocks_spec i read d s : flash_read i = Some read -> dev_ok d ->
  forall fuel addr offset count ram h, drv_ok h -> 0 <= count -> (Z.to_nat count < fuel)%nat ->
  (0 < count -> addr + count <= start d + total (block_info d) /\ exists z, block_of d addr = Some (addr - offset, z)) ->
  wp (read_loop fuel true d read CYG_FLASH_ERR_OK addr offset count ram) (fun '(r, err, ram') s' =>
    exists h' bs, s' = set_hw h' s /\ ram' = ram ++ bs /\ read_post addr (Z.to_nat count) r err bs h h') (set_hw h s).
Proof using Type*.
  intros Hrd Hok. pose proof Hok as []. induction fuel as [|fuel IH]; intros addr offset count ram h Hh Hc Hf Hb; [lia|].
  cbn [read_loop]. destruct (Z.gtb_spec count 0) as [Hpos|Hz].
  2: { assert (count = 0) as -> by lia. apply wp_ret. exists h, []. rewrite app_nil_r. by repeat split. }
  destruct (Hb ltac:(lia)) as (Hend & z & Hbz). clear Hb.
  pose proof (block_facts _ _ _ _ Hok Hbz) as (Hz & ? & ? & ? & -> & _). set (b := addr - offset) in *.
  set (n := this_transfer z offset count).
  assert (n = Z.min count (b + z - addr)) as Hn.
  { unfold n, this_transfer. rewrite uwrap_small by lia. destruct (Z.gtb_spec count (z - offset)); lia. }
  apply wp_bind, on_drv_wp. eapply wp_mono; [eapply read_law; [exact Hh|exact Hrd|lia]|].
  intros [stat bs] h1 (Hh1 & Hsame & Hl & Hfail & Hbs).
  replace (Z.to_nat count) with (Z.to_nat n + Z.to_nat (count - n))%nat by lia.
  destruct (Z.eqb_spec stat CYG_FLASH_ERR_OK) as [->|Hstat]; cbn [negb andb].
  2: { apply wp_ret. exists h1, bs. split; [done|]. split; [done|]. apply read_post_stop; [done|].
       split; [done|done|done|done|]. intros _. exists 0%nat. split; [lia|]. rewrite Z.add_0_r, uwrap_small by lia. done. }
  rewrite (uwrap_small 32 (count - n)) by lia. eapply wp_mono.
  { apply (IH (u32 (addr + n)) 0 (count - n) (ram ++ bs) h1); [done|lia|lia|].
    intros Hp. rewrite (uwrap_small 32 (addr + n)) by lia. assert (addr + n = b + z) as -> by lia. split; [lia|].
    rewrite Z.sub_0_r. apply (block_next _ _ _ _ Hok Hbz). lia. }
  intros [[r err] ram'] s2 (h2 & bs2 & -> & -> & Hp2). exists h2, (bs ++ bs2). split; [done|]. split; [by rewrite app_assoc|].
  eapply read_post_app; [|by split; [..|done]|exact Hp2]. by rewrite Z2Nat.id by lia.
Qed.

(** One device: read like memory, or through its driver. *)
Lemma read_device_spec i d base b z n s :
  sys_ok s -> dev_ok d -> block_of d base = Some (b, z) -> 0 < n -> base + n <= start d + total (block_info d) ->
  flash_read i = None \/ indirect = true ->
  wp (match flash_read i with
      | None => s ← get_state; mret (CYG_FLASH_ERR_OK, None, cells (hw s) base (Z.to_nat n))
      | Some read =>
          if negb indirect then mret (CYG_FLASH_ERR_PROTOCOL, failed true base, [])
          else
            offset ← lift (block_offset base d);
            read_loop (S (Z.to_nat n)) true d read CYG_FLASH_ERR_OK base offset n []
      end) (fun '(r, err, ram) s' => exists h', s' = set_hw h' (held i d s) /\
              read_post base (Z.to_nat n) r err ram (hw s) h') (held i d s).
Proof using Type*.
  intros Hs Hok Hb Hn Hend Hind. pose proof Hok as [].
  pose proof (block_facts _ _ _ _ Hok Hb) as (Hz & ? & ? & ? & _ & Hbeg & _). pose proof (sys_drv _ Hs).
  destruct (flash_read i) as [read|] eqn:Hrd.
  - destruct Hind as [[=]| ->]. cbn [negb]. apply wp_bind, (lift_wp _ (base - b)).
    { unfold block_offset. rewrite Hbeg. cbn [mbind option_bind].
      destruct (Z.eqb_spec base b); f_equal; [lia|]. apply uwrap_small. lia. }
    eapply wp_mono.
    { apply (read_blocks_spec i read d (held i d s) Hrd Hok _ base (base - b) n [] (hw s)); [done|lia|lia|].
      intros _. split; [done|]. exists z. by replace (base - (base - b)) with b by lia. }
    intros [[r err] ram] s' (h' & bs & -> & -> & Hp). by exists h'.
  - apply wp_get, wp_ret. by exists (hw s).
Qed.

Lemma flash_read_spec fuel base len s :
  sys_ok s -> 0 < len -> 0 <= base -> base + len <= 2 ^ 32 -> covered_range s base len ->
  (forall i, flash_read i = None) \/ indirect = true -> (length (cyg_flashdevtab s) < fuel)%nat ->
  wp (cyg_flash_read single indirect fuel true base len) (fun '(r, err, ram) s' => exists h', s' = set_hw h' s /\
    read_post base (Z.to_nat len) r err ram (hw s) h') s.
Proof using Type*.
  intros Hs Hl H0 Hlim Hcov Hind Hf. pose proof (devices_from_le s base) as Hn.
  assert (devices_from s base < fuel)%nat as Hf' by lia. clear Hf Hn.
  revert base len s Hs Hl H0 Hlim Hcov Hf'. induction fuel as [|fuel IH]; intros base len s Hs Hl H0 Hlim Hcov Hf; [lia|].
  cbn [cyg_flash_read]. destruct (first_device_spec s base len) as (i & d & n & Hfd); try done.
  pose proof Hfd as [Hd Hok Hokm Hg Hc Hn Hw Hcnt Hbey Hrest]. pose proof Hok as [].
  apply (find_wp _ _ _ _ _ _ _ _ Hs Hfd), (enter_wp _ _ _ _ _ _ _ _ Hs Hfd).
  destruct (block_of_spec d base Hok Hc) as (b & z & Hb & _).
  change (range_end (set_mutex true d) base len) with (range_end d base len). rewrite Hcnt by (unfold covered in Hc; lia).
  replace (base + n - base) with n by lia.
  apply wp_bind. eapply wp_mono.
  { apply (read_device_spec i (set_mutex true d) base b z n s Hs Hokm Hb); [lia|done|]. by destruct Hind; auto. }
  intros [[r err] ram] s1 (h1 & -> & Hp1). apply wp_bind, (unlock_wp s i d h1); [done|done|].
  change (beyond (set_mutex true d) base len) with (beyond d base len). rewrite Hbey.
  replace (Z.to_nat len) with (Z.to_nat n + Z.to_nat (len - n))%nat by lia.
  destruct (Z.eqb_spec r CYG_FLASH_ERR_OK) as [->|Hr]; cbn [negb].
  2: { apply wp_ret. exists h1. split; [done|]. by apply read_post_stop. }
  assert (read_post base (Z.to_nat n) CYG_FLASH_ERR_OK None ram (hw s) h1) as Hp1' by (destruct Hp1; by split).
  destruct (Z.ltb_spec n len) as [Hlt|Hlt].
  - destruct (Hrest Hlt) as [Hdec _]. apply wp_bind. eapply wp_mono.
    + apply (IH (base + n) (len - n) (set_hw h1 s)); [apply sys_ok_hw; [done|apply Hp1]|lia|lia|lia| |].
      * apply covered_rest; [exact Hcov|lia].
      * change (devices_from (set_hw h1 s) (base + n)) with (devices_from s (base + n)). lia.
    + intros [[r err2] ram2] s2 (h2 & -> & Hp2). apply wp_ret. exists h2. split; [done|].
      eapply read_post_app; [|exact Hp1'|exact Hp2]. rewrite Z2Nat.id, uwrap_small by lia. done.
  - apply wp_ret. exists h1. split; [done|]. replace (len - n) with 0 by lia. by rewrite Nat.add_0_r.
Qed.

(** Cyg_flash_read with a place for the error address always returns,
    changes nothing and leaves no mutex held. On success it delivers the bytes of the
    flash in the range, however many devices the range runs through; on an error those
    up to the address it reports. *)
Theorem flash_read_ok fuel base len s :
  sys_ok s -> 0 < len -> 0 <= base -> base + len <= 2 ^ 32 -> covered_range s base len ->
  (forall i, flash_read i = None) \/ indirect = true -> (length (cyg_flashdevtab s) < fuel)%nat ->
  wp (cyg_flash_read single indirect fuel true base len) (fun '(r, err, ram) s' => exists h', s' = set_hw h' s /\
    read_post base (Z.to_nat len) r err ram (hw s) h') s.
Proof using Type*. apply flash_read_spec. Qed.

End Package.

(** ** A driver in memory

    Two devices that are read like memory, of 2 blocks of 8 bytes each, at 0x100 and
    behind it at 0x110. *)
Definition ram_start (i : nat) : Z := 0x100 + 0x10 * Z.of_nat (Nat.min i 1).
Definition ram_info : list cyg_flash_block_info := [BlockInfo 8 2].
Definition ram_in (lo n a : Z) : bool := (lo <=? a) && (a <? lo + n).

#[export] Instance ram_driver : FlashDriver := {
  drv := Z -> byte;
  cell h a := h a;
  flash_init i d := mret (CYG_FLASH_ERR_OK,
    FlashDev (ram_start i) (ram_start i + 15) ram_info (pf d) (dev_init d) (mutex d) (next d));
  flash_erase_block i b := _ ← modify (fun h a => if ram_in b 8 a then 0xff else h a); mret CYG_FLASH_ERR_OK;
  flash_program i addr data :=
    _ ← modify (fun h a => if ram_in addr (Z.of_nat (length data)) a
                           then Z.land (h a) (nth (Z.to_nat (a - addr)) data 0xff) else h a);
    mret CYG_FLASH_ERR_OK;
  flash_read i := None;
  flash_block_lock i := Some (fun _ => mret CYG_FLASH_ERR_OK);
  flash_block_unlock i := Some (fun _ => mret CYG_FLASH_ERR_OK) }.

Lemma ram_in_spec lo n a : ram_in lo n a = true <-> lo <= a < lo + n.
Proof. unfold ram_in. rewrite andb_true_iff, Z.leb_le, Z.ltb_lt. done. Qed.

Lemma ram_out lo n a : ~ lo <= a < lo + n -> ram_in lo n a = false.
Proof. intros H. apply not_true_is_false. by rewrite ram_in_spec. Qed.

Lemma land_byte a x : is_byte a -> is_byte (Z.land a x).
Proof.
  intros Ha. assert (Z.land a 0xff = a) as E.
  { change 0xff with (Z.ones 8). rewrite Z.land_ones by lia. by apply Z.mod_small. }
  rewrite <- E, <- Z.land_assoc, (Z.land_comm 0xff x), Z.land_assoc. apply land_ff_bounded.
Qed.

Lemma ram_block d i a b z : geometry d = (ram_start i, ram_start i + 15, ram_info) -> block_of d a = Some (b, z) -> z = 8.
Proof.
  intros Hg. unfold block_of. injection Hg as _ _ ->. case_match; [done|]. cbn. case_match; [|done]. by intros [= _ <-].
Qed.

#[export, refine] Instance ram_laws : DriverLaws ram_driver := {
  drv_ok h := forall a, is_byte (h a);
  regions i := (ram_start i, ram_start i + 15, ram_info);
  prog_unit i := 1;
  declared i infos := True;
  may_fail := False }.
Proof.
  - done.
  - intros i d Hg. injection Hg as H1 H2 H3. assert (0 <= Z.of_nat (Nat.min i 1) <= 1) by lia.
    unfold ram_start in *. split; [split; rewrite ?H1, ?H2, ?H3; cbn; try lia; by repeat split|]. rewrite H3. split; [apply Z.mod_1_r|].
    by repeat constructor.
  - cbn. intros h a Hh. apply Hh.
  - intros i d h Hh _. apply wp_ret. repeat (split; [done|]). auto.
  - intros i d b z h Hh Hg Hb. pose proof (ram_block _ _ _ _ _ Hg Hb) as ->. apply wp_bind. eexists _, _. split; [done|].
    apply wp_ret. cbn. split; [|split; [|split; [done|]]].
    + intros a. destruct (ram_in b 8 a); [by split|apply Hh].
    + intros a Ha. by rewrite ram_out.
    + intros _ a Ha. by rewrite (proj2 (ram_in_spec b 8 a)).
  - intros i d addr b z data h Hh Hg Hb _ _ _ Hby. apply wp_bind. eexists _, _. split; [done|].
    apply wp_ret. cbn. split; [|split; [|split; [done|]]].
    + intros a. destruct (ram_in _ _ a); [|apply Hh]. apply land_byte, Hh.
    + intros a Ha. by rewrite ram_out.
    + intros _ k x Hk. pose proof (lookup_lt_Some _ _ _ Hk). rewrite (proj2 (ram_in_spec _ _ _)) by lia.
      replace (addr + Z.of_nat k - addr) with (Z.of_nat k) by lia. rewrite Nat2Z.id. by erewrite nth_lookup_Some.
  - done.
  - intros i f b h Hh [[= <-]|[= <-]]; apply wp_ret; done.
Defined.

(** The package over it once it is initialised. *)
Definition ram_dev (a : Z) (n : option nat) : cyg_flash_dev := FlashDev a (a + 15) ram_info 0 true false n.
Definition ram_sys : flash_sys := FlashSys true [ram_dev 0x100 (Some 1%nat); ram_dev 0x110 None] (Some 0%nat) (fun a => u8 a).

Lemma ram_has i d : has ram_sys i d -> (i < 2)%nat /\ d = ram_dev (ram_start i) (if Nat.eqb i 0 then Some 1%nat else None).
Proof. intros [Hd _]. do 2 (destruct i as [|i]; [split; [lia|by injection Hd as <-]|]). by destruct i. Qed.

Lemma ram_sys_ok : sys_ok false ram_sys.
Proof.
  split.
  - done.
  - intros a. apply (uwrap_range 8); lia.
  - by repeat constructor.
  - intros i d Hd. assert (geometry d = regions i) as Hg.
    { destruct (ram_has i d Hd) as [Hi ->]. by do 2 (destruct i as [|i]; [done|]). }
    by destruct (regions_good i d Hg) as (? & ? & ?).
  - intros i j d e a Hd He. destruct (ram_has i d Hd) as [Hi ->], (ram_has j e He) as [Hj ->].
    cbn [start end_ ram_dev]. unfold ram_start. lia.
  - exists [0%nat; 1%nat]. split; [|split].
    + split; [done|]. eexists. split; [done|]. split; [done|]. eexists. by split.
    + repeat constructor; set_solver.
    + intros i d Hd. do 2 (destruct i as [|i]; [injection Hd as <-; split; [set_solver|done]|]). by destruct i.
Qed.

Lemma ram_covered base len : 0x100 <= base -> base + len <= 0x120 -> covered_range ram_sys base len.
Proof.
  intros H1 H2 a Ha. destruct (decide (a < 0x110)); [exists 0%nat|exists 1%nat]; eexists; (split; [by split|]);
    unfold covered; cbn; lia.
Qed.

Lemma flash_erase_ok_witness :
  wp (cyg_flash_erase false 3 true 0x10c 8) (fun '(r, err) s' => exists h', s' = set_hw h' ram_sys /\
    erase_post (block_of_some ram_sys) (touched ram_sys 0x10c 8) true r err (hw ram_sys) h') ram_sys.
Proof. apply flash_erase_ok; [apply ram_sys_ok|lia|lia|lia|apply ram_covered; lia|cbn; lia]. Defined.

Lemma flash_program_ok_witness :
  wp (cyg_flash_program false 3 true 0x10e [1; 2; 3; 4]%Z 4) (fun '(r, err) s' => exists h', s' = set_hw h' ram_sys /\
    prog_post 0x10e [1; 2; 3; 4]%Z true r err (hw ram_sys) h') ram_sys.
Proof.
  apply flash_program_ok; [apply ram_sys_ok|lia|lia|lia|apply ram_covered; lia| |cbn; lia|by repeat constructor|cbn; lia].
  intros i d _ _. apply Z.mod_1_r.
Defined.

Lemma flash_read_ok_witness :
  wp (cyg_flash_read false false 3 true 0x10c 8) (fun '(r, err, ram) s' => exists h', s' = set_hw h' ram_sys /\
    read_post 0x10c 8 r err ram (hw ram_sys) h') ram_sys.
Proof. apply flash_read_ok; [apply ram_sys_ok|lia|lia|lia|apply ram_covered; lia|by left|cbn; lia]. Defined.
