(* ===== verification/FlashInit.v ===== *)
(** * Initialisation of the flash package

    cyg_flash_init over drivers that keep [DriverLaws]: what state it leaves, when
    it fails, and that it cannot be called again once it failed. *)
From S2P Require Import Prelude.
From S2P Require Import Flash.
From S2P Require Import FlashList.
From S2P Require Import FlashSpec.

Section Init.
Context `{D : FlashDriver} `{!DriverLaws D}.
Variable single : bool.
Implicit Types (s : flash_sys).

(** ** The printf function of the devices *)
Lemma put_dev_wp i d (Q : unit -> flash_sys -> Prop) s :
  Q tt (set_tab (<[i := d]> (cyg_flashdevtab s)) s) -> wp (put_dev i d) Q s.
Proof using. intros HQ. by exists tt, (set_tab (<[i := d]> (cyg_flashdevtab s)) s). Qed.

Lemma set_one_printf_spec i f d (Q : unit -> flash_sys -> Prop) s :
  cyg_flashdevtab s !! i = Some d -> mutex d = false ->
  Q tt (set_tab (<[i := set_pf f d]> (cyg_flashdevtab s)) s) -> wp (set_one_printf i f) Q s.
Proof using.
  intros Hd Hm HQ. pose proof (lookup_lt_Some _ _ _ Hd). unfold set_one_printf. apply wp_bind, (get_dev_wp i d); [done|].
  destruct (dev_init d) eqn:Ei.
  - apply wp_bind. unfold LOCK. apply wp_bind, (get_dev_wp i d); [done|]. rewrite Hm. apply put_dev_wp.
    apply wp_bind, (get_dev_wp i (set_mutex true d)); [by apply list_lookup_insert_eq|].
    apply wp_bind, put_dev_wp. cbn [dev_init set_mutex]. rewrite Ei. unfold UNLOCK.
    apply wp_bind, (get_dev_wp i (set_pf f (set_mutex true d))).
    { apply list_lookup_insert_eq. cbn. by rewrite length_insert. }
    apply put_dev_wp. cbn. rewrite !list_insert_insert_eq.
    replace (set_mutex false (set_pf f (set_mutex true d))) with (set_pf f d); [done|]. by destruct d; cbn in *; subst.
  - apply wp_bind, wp_ret. apply wp_bind, (get_dev_wp i d); [done|]. apply wp_bind, put_dev_wp. rewrite Ei. by apply wp_ret.
Qed.

Lemma printf_loop_spec f : forall n i s, (i + n)%nat = length (cyg_flashdevtab s) ->
  Forall (fun d => mutex d = false) (cyg_flashdevtab s) ->
  wp (printf_loop n i f) (fun _ s' => s' =
    set_tab (take i (cyg_flashdevtab s) ++ (set_pf f <$> drop i (cyg_flashdevtab s))) s) s.
Proof using.
  induction n as [|n IH]; intros i s Hl Hm; cbn [printf_loop].
  - apply wp_ret. rewrite drop_ge, take_ge, app_nil_r by lia. by destruct s.
  - destruct (lookup_lt_is_Some_2 (cyg_flashdevtab s) i ltac:(lia)) as [d Hd].
    assert (mutex d = false) as Hmd by (by eapply Forall_lookup_1 in Hd; [|exact Hm]).
    apply wp_bind, (set_one_printf_spec i f d); [done|done|].
    eapply wp_mono; [apply IH; cbn; [rewrite length_insert; lia|by apply Forall_insert]|].
    cbn. intros _ s' ->. unfold set_tab. cbn. f_equal.
    rewrite (drop_S _ d i Hd), insert_take_drop by (by eapply lookup_lt_Some).
    pose proof (lookup_lt_Some _ _ _ Hd). assert (length (take i (cyg_flashdevtab s)) = i) by (rewrite length_take; lia).
    rewrite cons_middle, app_assoc. rewrite take_app_length', drop_app_length' by (rewrite length_app; cbn; lia). by rewrite <- app_assoc.
Qed.

Lemma set_global_printf_spec f s : Forall (fun d => mutex d = false) (cyg_flashdevtab s) ->
  wp (cyg_flash_set_global_printf f) (fun _ s' => s' = set_tab (set_pf f <$> cyg_flashdevtab s) s) s.
Proof using. intros Hm. unfold cyg_flash_set_global_printf. apply wp_get. by apply printf_loop_spec. Qed.

(** ** The drivers' initialisation *)

(** What a device is after its turn, when it was not initialised before. *)
Definition settled (i : nat) (d : cyg_flash_dev) : Prop :=
  mutex d = false /\ (dev_init d = true -> geometry d = regions i) /\ (dev_init d = true \/ may_fail).

Lemma init_one_spec i d h : drv_ok h -> dev_init d = false -> mutex d = false -> declared i (block_info d) ->
  wp (flash_init i d) (fun '(r, d') h' => drv_ok h' /\ (forall a, cell h' a = cell h a) /\
    settled i (if r =? CYG_FLASH_ERR_OK then set_init true d' else d')) h.
Proof using Type*.
  intros Hh Hi Hm Hde. eapply wp_mono; [by apply (init_law i d)|]. intros [r d'] h' (Hh' & Hc & _ & Hm' & Hf & Hg & Hi').
  split; [done|]. split; [done|]. destruct (Z.eqb_spec r CYG_FLASH_ERR_OK) as [->|Hr].
  - split; [by rewrite <- Hm, <- Hm'|]. split; [|by left]. intros _. by rewrite <- Hg.
  - split; [congruence|]. split; [|right; auto]. intros E. destruct (Hi' E); congruence.
Qed.

Lemma init_loop_spec : forall n i s, (i + n)%nat = length (cyg_flashdevtab s) -> drv_ok (hw s) ->
  (forall j d, cyg_flashdevtab s !! j = Some d -> if decide (j < i)%nat then settled j d else dev_init d = false /\ declared j (block_info d)) ->
  wp (init_loop n i) (fun _ s' => flash_ready s' = flash_ready s /\ flash_head s' = flash_head s /\
    length (cyg_flashdevtab s') = length (cyg_flashdevtab s) /\ drv_ok (hw s') /\
    (forall a, cell (hw s') a = cell (hw s) a) /\
    forall j d, cyg_flashdevtab s' !! j = Some d -> settled j d) s.
Proof using Type*.
  induction n as [|n IH]; intros i s Hl Hh Ht; cbn [init_loop].
  - apply wp_ret. repeat (split; [done|]). intros j d Hd. specialize (Ht j d Hd).
    apply lookup_lt_Some in Hd. by rewrite decide_True in Ht by lia.
  - destruct (lookup_lt_is_Some_2 (cyg_flashdevtab s) i ltac:(lia)) as [d Hd].
    apply wp_bind, (get_dev_wp i d); [done|]. apply wp_bind, put_dev_wp.
    apply wp_bind, (get_dev_wp i (set_mutex false d)); [apply list_lookup_insert_eq; lia|].
    apply wp_bind, on_drv_wp. eapply wp_mono.
    { specialize (Ht i d Hd). rewrite decide_False in Ht by lia. destruct Ht.
      by apply (init_one_spec i (set_mutex false d)). }
    intros [r d'] h' (Hh' & Hc & Hset). apply wp_bind, put_dev_wp. eapply wp_mono.
    { apply (IH (S i)); [cbn; rewrite !length_insert; lia|done|]. cbn. intros j e. rewrite list_insert_insert_eq.
      destruct (decide (j = i)) as [->|Hj].
      - rewrite list_lookup_insert_eq by lia. intros [= <-]. by rewrite decide_True by lia.
      - rewrite list_lookup_insert_ne by done. intros He. specialize (Ht j e He).
        destruct (decide (j < i)%nat); [by rewrite decide_True by lia|by rewrite decide_False by lia]. }
    intros _ s' (H1 & H2 & H3 & H4 & H5 & H6). cbn in *. rewrite !length_insert in H3.
    repeat (split; [done|]). split; [intros a; by rewrite H5, Hc|done].
Qed.

(** ** The package *)

(** The state the program starts with. *)
Record at_boot (s : flash_sys) : Prop := {
  boot_ready : flash_ready s = false;
  boot_head : flash_head s = None;
  boot_drv : drv_ok (hw s);
  boot_devs : Forall (fun d => dev_init d = false /\ mutex d = false) (cyg_flashdevtab s);
  boot_infos i d : cyg_flashdevtab s !! i = Some d -> declared i (block_info d);
  boot_single : single = true -> length (cyg_flashdevtab s) = 1%nat }.

Lemma sorted_sys_ok s tab l :
  drv_ok (hw s) -> (forall j d, tab !! j = Some d -> settled j d) ->
  chain (cyg_flashdevtab s) (flash_head s) l -> NoDup l -> unlinked (cyg_flashdevtab s) = unlinked tab ->
  (forall i, i ∈ l <-> initialised tab i) -> Sorted (apart tab) l ->
  flash_ready s = true -> single = false -> sys_ok single s.
Proof using Type*.
  intros Hh Hset Hc Hn Hu Hin Hso Hr Hsi.
  assert (forall i d, cyg_flashdevtab s !! i = Some d -> exists n, tab !! i = Some (set_next n d)) as Hback.
  { intros i d Hd. by apply (unlinked_lookup (cyg_flashdevtab s)). }
  assert (forall i d, has s i d -> geometry d = regions i) as Hgeo.
  { intros i d [Hd Hi]. destruct (Hback i d Hd) as [n Hn']. by apply (Hset i _ Hn'). }
  assert (forall i, key tab i = key (cyg_flashdevtab s) i /\ fin tab i = fin (cyg_flashdevtab s) i) as Hkf.
  { intros i. by rewrite (key_unlinked (cyg_flashdevtab s) tab), (fin_unlinked (cyg_flashdevtab s) tab). }
  assert (forall i, i ∈ l <-> initialised (cyg_flashdevtab s) i) as Hin'.
  { intros i. rewrite Hin. split; intros (d & Hd & Hi).
    - destruct (unlinked_lookup _ _ _ _ Hu Hd) as [n Hd']. by exists (set_next n d).
    - destruct (Hback i d Hd) as [n Hd']. by exists (set_next n d). }
  split; [done|done| | | |].
  - apply Forall_lookup_2. intros i d Hd. destruct (Hback i d Hd) as [n Hn']. apply (Hset i _ Hn').
  - intros i d Hd. pose proof (Hgeo i d Hd) as Hg. destruct (regions_good i d Hg) as (? & ? & ?). done.
  - intros i j d e a [Hd Hdi] [He Hei] Had Hae. apply (sorted_apart tab l) with a; try done.
    + intros k Hk. destruct (proj1 (Hin' k) Hk) as (g & Hg & Hgi). destruct (Hkf k) as [-> ->].
      unfold key, fin. rewrite Hg. cbn. destruct (regions_good k g (Hgeo k g (conj Hg Hgi))) as ([] & _).
      pose proof (total_pos _ _ ok_regions). lia.
    + apply Hin'. by exists d.
    + apply Hin'. by exists e.
    + destruct (Hkf i) as [-> ->]. unfold key, fin. by rewrite Hd.
    + destruct (Hkf j) as [-> ->]. unfold key, fin. by rewrite He.
  - rewrite Hsi. exists l. split; [done|]. split; [done|]. intros i d Hd. rewrite Hin'. split.
    + intros Hi. by exists d.
    + intros (d' & Hd' & Hi). congruence.
Qed.

Lemma one_sys_ok s : drv_ok (hw s) -> (forall j d, cyg_flashdevtab s !! j = Some d -> settled j d) ->
  flash_ready s = true -> single = true -> length (cyg_flashdevtab s) = 1%nat -> sys_ok single s.
Proof using Type*.
  intros Hh Hset Hr Hsi Hl. split; [done|done| | | |].
  - apply Forall_lookup_2. intros i d Hd. apply (Hset i d Hd).
  - intros i d [Hd Hi]. pose proof (proj1 (proj2 (Hset i d Hd)) Hi) as Hg. by destruct (regions_good i d Hg) as (? & ? & ?).
  - intros i j d e a [Hd _] [He _] _ _. apply lookup_lt_Some in Hd, He. lia.
  - by rewrite Hsi.
Qed.

(** What cyg_flash_init leaves behind. *)
Definition init_post (s : flash_sys) (r : Z) (s' : flash_sys) : Prop :=
  length (cyg_flashdevtab s') = length (cyg_flashdevtab s) /\ (forall a, cell (hw s') a = cell (hw s) a) /\
  (r = CYG_FLASH_ERR_OK /\ sys_ok single s' /\ (forall i d, cyg_flashdevtab s' !! i = Some d -> has s' i d \/ may_fail) \/
   single = false /\ r = CYG_FLASH_ERR_INVALID /\ flash_ready s' = false /\
     ((forall i, ~ initialised (cyg_flashdevtab s') i) \/ overlap (cyg_flashdevtab s'))).

Lemma start_spec s : at_boot s ->
  wp (s ← get_state; init_loop (length (cyg_flashdevtab s)) 0) (fun _ s' => flash_ready s' = false /\
    flash_head s' = None /\ length (cyg_flashdevtab s') = length (cyg_flashdevtab s) /\ drv_ok (hw s') /\
    (forall a, cell (hw s') a = cell (hw s) a) /\ forall j d, cyg_flashdevtab s' !! j = Some d -> settled j d) s.
Proof using Type*.
  intros [Hr Hhd Hd Hb Hde _]. apply wp_get. eapply wp_mono; [apply init_loop_spec; [done|done|]|].
  - intros j d Hj. rewrite decide_False by lia. split; [|by apply Hde]. by apply (Forall_lookup_1 _ _ _ _ Hb) in Hj as [? _].
  - cbn beta. intros _ s'. by rewrite Hr, Hhd.
Qed.

Lemma flash_init_spec f s : at_boot s -> wp (cyg_flash_init single f) (init_post s) s.
Proof using Type*.
  intros Hb. unfold cyg_flash_init. apply wp_bind.
  apply (wp_mono _ (fun _ s' => at_boot s' /\ length (cyg_flashdevtab s') = length (cyg_flashdevtab s) /\ hw s' = hw s)).
  { destruct Hb as [H1 H2 H3 H4 Hde H5]. destruct (negb (f =? 0)); [|by apply wp_ret].
    eapply wp_mono; [apply set_global_printf_spec|].
    - eapply Forall_impl; [exact H4|]. by intros d [_ ?].
    - intros _ s' ->. split; [|split; [apply length_fmap|done]]. split; try done.
      + by apply Forall_fmap.
      + intros i d. cbn [cyg_flashdevtab set_tab]. rewrite list_lookup_fmap.
        destruct (cyg_flashdevtab s !! i) as [e|] eqn:E; [|done]. intros [= <-]. by apply (Hde i e).
      + intros Hs. cbn [cyg_flashdevtab set_tab]. rewrite length_fmap. auto. }
  intros _ s1 (Hb1 & Hl1 & Hw1). apply wp_get. rewrite (boot_ready _ Hb1).
  pose proof (start_spec s1 Hb1) as Hst. destruct Hst as (u & s2 & E & Hr & Hhd & Hl2 & Hd2 & Hc2 & Hset).
  apply wp_bind. exists u, s2. split; [exact E|]. rewrite Hl1 in Hl2.
  assert (forall a, cell (hw s2) a = cell (hw s) a) as Hc by (intros a; by rewrite Hc2, Hw1).
  apply wp_get. pose proof (boot_single _ Hb1) as Hsi. destruct single eqn:Es.
  - specialize (Hsi eq_refl). rewrite Hl1 in Hsi. apply wp_bind, wp_ret. rewrite Hl2, Hsi. cbn [Nat.eqb negb].
    eexists _, _. split; [done|]. split; [done|]. split; [done|]. left. split; [done|].
    split; [apply one_sys_ok; try done; cbn; by rewrite Hl2|].
    intros i d Hd. destruct (proj2 (proj2 (Hset i d Hd))); [by left|by right].
  - destruct (flash_sort_and_check_spec (cyg_flashdevtab s2)) as (ok & h' & tab' & l & Hf & Hch & Hn & Hu & Hin & Hso & Hok).
    apply wp_bind, wp_bind. eapply lift_wp; [by rewrite Hhd|]. apply wp_bind. eexists _, _. split; [done|].
    apply wp_ret. pose proof (unlinked_length _ _ Hu) as Hl3. destruct ok; cbn [negb].
    + eexists _, _. split; [done|]. split; [cbn; lia|]. split; [done|]. left. split; [done|].
      split; [eapply sorted_sys_ok; try done; apply Hok|]. intros i d Hd.
      destruct (unlinked_lookup tab' (cyg_flashdevtab s2) i d ltac:(done) Hd) as [n Hd'].
      destruct (proj2 (proj2 (Hset i _ Hd'))); [by left|by right].
    + apply wp_ret. split; [cbn; lia|]. split; [done|]. right. split; [done|]. split; [done|]. split; [done|]. cbn.
      assert (forall i, initialised tab' i <-> initialised (cyg_flashdevtab s2) i) as Hinit.
      { intros i. split; intros (d & Hd & Hi).
        - destruct (unlinked_lookup tab' (cyg_flashdevtab s2) i d ltac:(done) Hd) as [n Hd']. by exists (set_next n d).
        - destruct (unlinked_lookup _ _ i d Hu Hd) as [n Hd']. by exists (set_next n d). }
      destruct Hok as [->|(i & j & Hi & Hj & Hij & Hk)].
      * left. intros i Hi%Hinit%Hin. by apply not_elem_of_nil in Hi.
      * right. exists i, j. rewrite !Hinit. by rewrite !(key_unlinked (cyg_flashdevtab s2) tab'), (fin_unlinked (cyg_flashdevtab s2) tab').
Qed.

(** C24: the first call of cyg_flash_init always returns: the ripple sort over
    the [next] fields of the devices ends. It changes no byte of the flash, and either
    it succeeds and leaves the package ready, with every device that initialised in the
    list, each with its geometry and no two of them claiming an address, or, with more
    than one device, it fails because none initialised or because two of them overlap. *)
Theorem flash_init_ok f s : at_boot s -> wp (cyg_flash_init single f) (init_post s) s.
Proof using Type*. apply flash_init_spec. Qed.

(** A second call leaves the package as it is, apart from the printf functions. *)
Lemma init_again f s : flash_ready s = true -> Forall (fun d => mutex d = false) (cyg_flashdevtab s) ->
  wp (cyg_flash_init single f) (fun r s' => r = CYG_FLASH_ERR_OK /\
    s' = set_tab ((if f =? 0 then id else set_pf f) <$> cyg_flashdevtab s) s) s.
Proof using.
  intros Hr Hm. unfold cyg_flash_init. apply wp_bind. destruct (f =? 0); cbn [negb].
  - apply wp_ret, wp_get. rewrite Hr. apply wp_ret. split; [done|]. rewrite list_fmap_id. by destruct s.
  - eapply wp_mono; [by apply set_global_printf_spec|]. intros _ s' ->. apply wp_get. cbn [flash_ready set_tab].
    rewrite Hr. by apply wp_ret.
Qed.

End Init.

(** ** Examples *)
Definition ram_boot : flash_sys :=
  FlashSys false [FlashDev 0 0 [] 0 false false None; FlashDev 0 0 [] 0 false false None] None (fun a => u8 a).

Lemma ram_boot_ok : at_boot false ram_boot.
Proof. split; [done|done| |by repeat constructor|done|done]. intros a. apply (uwrap_range 8); lia. Qed.

Lemma flash_init_ok_witness : wp (cyg_flash_init false 1) (init_post false ram_boot) ram_boot.
Proof. apply flash_init_ok, ram_boot_ok. Defined.

(** Two devices that overlap: the first call fails and leaves [flash_head] and the
    [next] fields behind, and a second one pushes the devices in front of them; the list
    is now a circle and the ripple sort goes on for ever. *)
Definition overlapping : list cyg_flash_dev :=
  [FlashDev 0 10 [] 0 true false None; FlashDev 5 20 [] 0 true false None].

Lemma overlap_detected : flash_sort_and_check (None, overlapping) =
  Some (false, (Some 0%nat, [FlashDev 0 10 [] 0 true false (Some 1%nat); FlashDev 5 20 [] 0 true false None])).
Proof. reflexivity. Qed.

Lemma sort_circle : ripple_pass 3 None 0
    (Some 0%nat, [FlashDev 0 10 [] 0 true false (Some 1%nat); FlashDev 5 20 [] 0 true false (Some 0%nat)]) =
  Some (true, (Some 0%nat, [FlashDev 0 10 [] 0 true false (Some 1%nat); FlashDev 5 20 [] 0 true false (Some 0%nat)])).
Proof. reflexivity. Qed.

Lemma second_init_hangs fuel : forall ok s, flash_sort_and_check (None, overlapping) = Some (ok, s) ->
  ripple_sort fuel (push_devs 2 0 s) = None.
Proof.
  rewrite overlap_detected. intros ok s [= <- <-]. destruct fuel as [|fuel]; [done|].
  change (ripple_sort fuel (Some 0%nat, [FlashDev 0 10 [] 0 true false (Some 1%nat);
    FlashDev 5 20 [] 0 true false (Some 0%nat)]) = None).
  induction fuel as [|fuel IH]; [done|]. cbn [ripple_sort fst snd mbind option_bind length]. rewrite sort_circle.
  apply IH.
Qed.

(** * Where the flash package does not do what it means to

    Runs on small devices: unlocking that locks, errors that are lost, blocks that are
    erased for an empty range. *)
Module Flaws.
(** ** Mutexes *)

(** cyg_flash_mutex_unlock over two devices waits for ever for the mutex of the second,
    which cyg_flash_mutex_lock has just locked: the recursion locks the rest of the
    range instead of unlocking it. *)
Lemma mutex_unlock_blocks fuel :
  match cyg_flash_mutex_lock false 3 0x100 0x20 ram_sys with
  | Some (r, s) => r = CYG_FLASH_ERR_OK /\ cyg_flash_mutex_unlock false fuel 0x100 0x20 s = None
  | None => False
  end.
Proof. split; [reflexivity|]. by destruct fuel. Qed.

(** ** Block locking and reading *)

(** Two devices as those of [ram_driver], whose driver notes every lock (true) and
    unlock (false) and fails to read at 0x100. *)
#[local] Instance log_driver : FlashDriver := {
  drv := list (bool * Z);
  cell _ _ := 0xff;
  flash_init i d := mret (CYG_FLASH_ERR_OK, d);
  flash_erase_block i b := mret CYG_FLASH_ERR_OK;
  flash_program i addr data := mret CYG_FLASH_ERR_OK;
  flash_read i := Some (fun addr n =>
    mret (if addr =? 0x100 then (CYG_FLASH_ERR_PROTOCOL, repeat 0 (Z.to_nat n))
          else (CYG_FLASH_ERR_OK, repeat 0xff (Z.to_nat n))));
  flash_block_lock i := Some (fun b => _ ← modify (fun l => l ++ [(true, b)]); mret CYG_FLASH_ERR_OK);
  flash_block_unlock i := Some (fun b => _ ← modify (fun l => l ++ [(false, b)]); mret CYG_FLASH_ERR_OK) }.

Definition log_sys : flash_sys := FlashSys true [ram_dev 0x100 (Some 1%nat); ram_dev 0x110 None] (Some 0%nat) [].

Definition log_of {A} (m : M flash_sys A) : option (A * list (bool * Z)) :=
  match m log_sys with Some (a, s) => Some (a, hw s) | None => None end.

(** cyg_flash_unlock unlocks the blocks of the first device of its range and locks
    those of the next. *)
Lemma unlock_locks_next_device :
  log_of (cyg_flash_unlock false 3 true 0x100 0x20) =
  Some ((CYG_FLASH_ERR_OK, None), [(false, 0x100); (false, 0x108); (true, 0x110); (true, 0x118)]).
Proof. reflexivity. Qed.

(** A failed read is reported when the caller asks for its address; without a place
    for the address the loop goes on, and the next block that can be read makes the
    result a success. *)
Lemma read_error_lost :
  fst <$> log_of (cyg_flash_read false true 3 true 0x100 0x10) =
    Some (CYG_FLASH_ERR_PROTOCOL, Some 0x100, repeat 0 8) /\
  fst <$> log_of (cyg_flash_read false true 3 false 0x100 0x10) =
    Some (CYG_FLASH_ERR_OK, None, repeat 0 8 ++ repeat 0xff 8).
Proof. split; reflexivity. Qed.

(** ** Empty ranges *)

(** Erasing no byte erases a block, unless the address is its first. *)
Lemma empty_erase_erases :
  match cyg_flash_erase false 3 true 0x104 0 ram_sys with
  | Some (r, s) => Some (fst r, cell (hw s) 0x100, cell (hw s) 0x107, cell (hw s) 0x108)
  | None => None
  end = Some (CYG_FLASH_ERR_OK, 0xff, 0xff, 8).
Proof. vm_compute. reflexivity. Qed.

(** The error code 8, a hardware failure, has no message. *)
Lemma hwr_has_no_message : cyg_flash_errmsg 8 = cyg_flash_errmsg 99.
Proof. reflexivity. Qed.
End Flaws.
