(* ===== verification/QcaFlash.v ===== *)
(** * The flash driver of the QCA953x

    devs/flash/mips/qca953x/current/src/mips_qca953x_flash.c with the macros of
    devs_flash_spi_qca953x.h and the registers of qca953x.h: a serial flash behind a
    controller whose pins the driver moves by hand. The registers are the class
    [Mmio]; the window in which the controller shows the flash as memory is its
    [window]. Messages, [display] and the dummy functions' arguments are left out. *)
From S2P Require Import Prelude.
From S2P Require Import Flash.

(** ** Registers *)

(** Volatile words at virtual addresses, and the bytes of the memory-mapped flash. *)
Class Mmio := {
  bus : Type;
  vol_write : Z -> Z -> M bus unit;
  vol_read : Z -> M bus Z;
  window : bus -> Z -> byte }.

Definition KSEG1ADDR (a : Z) : Z := Z.lor (Z.land a 0x1fffffff) 0xa0000000.

Definition ATH_SPI_BASE : Z := 0x1f000000.
Definition ATH_SPI_FS : Z := ATH_SPI_BASE + 0x00.
Definition ATH_SPI_CLOCK : Z := ATH_SPI_BASE + 0x04.
Definition ATH_SPI_WRITE : Z := ATH_SPI_BASE + 0x08.
Definition ATH_SPI_RD_STATUS : Z := ATH_SPI_BASE + 0x0c.
Definition ATH_SPI_CS_DIS : Z := 0x70000.
Definition ATH_SPI_CE_LOW : Z := 0x60000.
Definition ATH_SPI_CE_HIGH : Z := 0x60100.
Definition ATH_SPI_PAGE_SIZE : Z := 256.
Definition ATH_SPI_CMD_WREN : Z := 0x06.
Definition ATH_SPI_CMD_RD_STATUS : Z := 0x05.
Definition ATH_SPI_CMD_PAGE_PROG : Z := 0x02.
Definition ATH_SPI_CMD_SECTOR_ERASE_4K : Z := 0x20.
Definition ATH_SPI_CMD_RDID : Z := 0x9f.
Definition CFG_FLASH_BASE : Z := 0x9f000000.
Definition ATHR_FLASH_START : Z := 0x9f000000.
Definition ATHR_FLASH_SIZE : Z := 0x00100000.
Definition ATHR_FLASH_SECTOR : Z := 0x1000.

Section Driver.
Context `{R : Mmio}.

(** The polls ath_spi_poll is followed for. *)
Variable poll_fuel : nat.

Definition ath_reg_rd (phys : Z) : M bus Z := vol_read (KSEG1ADDR phys).
Definition ath_reg_wr_nf (phys val : Z) : M bus unit := vol_write (KSEG1ADDR phys) val.
Definition ath_reg_wr (phys val : Z) : M bus unit := _ ← ath_reg_wr_nf phys val; _ ← ath_reg_rd phys; mret tt.
Definition ath_reg_rmw_set (reg mask : Z) : M bus unit :=
  v ← ath_reg_rd reg; _ ← ath_reg_wr reg (Z.lor v mask); _ ← ath_reg_rd reg; mret tt.
Definition ath_reg_rmw_clear (reg mask : Z) : M bus unit :=
  v ← ath_reg_rd reg; _ ← ath_reg_wr reg (Z.land v (Z.lnot mask)); _ ← ath_reg_rd reg; mret tt.

(** ** Bits and bytes on the wire *)
Definition ath_be_msb (val i : Z) : Z := Z.shiftr (Z.land val (Z.shiftl 1 (7 - i))) (7 - i).

Fixpoint bang (n : nat) (byte i : Z) : M bus unit :=
  match n with
  | O => mret tt
  | S n' =>
      _ ← ath_reg_wr_nf ATH_SPI_WRITE (Z.lor ATH_SPI_CE_LOW (ath_be_msb byte i));
      _ ← ath_reg_wr_nf ATH_SPI_WRITE (Z.lor ATH_SPI_CE_HIGH (ath_be_msb byte i));
      bang n' byte (i + 1)
  end.

Definition ath_spi_bit_banger (byte : Z) : M bus unit := bang 8 byte 0.

Definition ath_spi_go : M bus unit :=
  _ ← ath_reg_wr_nf ATH_SPI_WRITE ATH_SPI_CE_LOW;
  ath_reg_wr_nf ATH_SPI_WRITE ATH_SPI_CS_DIS.

Definition ath_spi_send_addr (a : Z) : M bus unit :=
  _ ← ath_spi_bit_banger (Z.shiftr (Z.land a 0xff0000) 16);
  _ ← ath_spi_bit_banger (Z.shiftr (Z.land a 0x00ff00) 8);
  ath_spi_bit_banger (Z.land a 0x0000ff).

Definition ath_spi_delay_8 : M bus unit := ath_spi_bit_banger 0.
Definition ath_spi_done : M bus unit := ath_reg_wr_nf ATH_SPI_FS 0.

(** ** Commands *)

(** The id is only printed. *)
Definition ath_spi_read_id : M bus Z :=
  _ ← ath_reg_wr_nf ATH_SPI_WRITE ATH_SPI_CS_DIS;
  _ ← ath_spi_bit_banger ATH_SPI_CMD_RDID;
  _ ← ath_spi_delay_8; _ ← ath_spi_delay_8; _ ← ath_spi_delay_8;
  _ ← ath_spi_go;
  ath_reg_rd ATH_SPI_RD_STATUS.

Definition qca953x_spi_rdid : M bus Z := ath_spi_read_id.

(** One round of the loop of ath_spi_poll. *)
Definition poll_once : M bus Z :=
  _ ← ath_reg_wr_nf ATH_SPI_WRITE ATH_SPI_CS_DIS;
  _ ← ath_spi_bit_banger ATH_SPI_CMD_RD_STATUS;
  _ ← ath_spi_delay_8;
  rd ← ath_reg_rd ATH_SPI_RD_STATUS;
  mret (Z.land rd 1).

Fixpoint poll (fuel : nat) : M bus unit :=
  match fuel with
  | O => crash
  | S fuel' => rd ← poll_once; if negb (rd =? 0) then poll fuel' else mret tt
  end.

Definition ath_spi_poll : M bus unit := poll poll_fuel.

Definition ath_spi_write_enable : M bus unit :=
  _ ← ath_reg_wr_nf ATH_SPI_FS 1;
  _ ← ath_reg_wr_nf ATH_SPI_WRITE ATH_SPI_CS_DIS;
  _ ← ath_spi_bit_banger ATH_SPI_CMD_WREN;
  ath_spi_go.

Definition ath_spi_sector_erase (addr : Z) : M bus unit :=
  _ ← ath_spi_write_enable;
  _ ← ath_spi_bit_banger ATH_SPI_CMD_SECTOR_ERASE_4K;
  _ ← ath_spi_send_addr addr;
  _ ← ath_spi_go;
  ath_spi_poll.

Fixpoint send_data (data : list byte) : M bus unit :=
  match data with
  | [] => mret tt
  | ch :: data' => _ ← ath_spi_bit_banger ch; send_data data'
  end.

Definition ath_spi_write_page (addr : Z) (data : list byte) : M bus unit :=
  _ ← ath_spi_write_enable;
  _ ← ath_spi_bit_banger ATH_SPI_CMD_PAGE_PROG;
  _ ← ath_spi_send_addr addr;
  _ ← send_data data;
  _ ← ath_spi_go;
  ath_spi_poll.

(** ** The functions of the driver *)

(** The address within the device, or the address itself with [false]. *)
Definition qca953x_to_local_addr (d : cyg_flash_dev) (addr : Z) : bool * Z :=
  if (addr >=? start d) && (addr <=? end_ d) then (true, addr - start d) else (false, addr).

(** [while (rbuf_len-- > 0)] over the memory-mapped flash. *)
Fixpoint qca953x_spi_read (h : bus) (addr : Z) (rbuf_len : nat) : list byte :=
  match rbuf_len with
  | O => []
  | S n => window h addr :: qca953x_spi_read h (u32 (addr + 1)) n
  end.

Definition qca953x_init (d : cyg_flash_dev) : M bus (Z * cyg_flash_dev) :=
  _ ← ath_reg_wr_nf ATH_SPI_CLOCK 0x43;
  _ ← ath_reg_rmw_set ATH_SPI_FS 1;
  _ ← ath_spi_read_id;
  _ ← ath_reg_rmw_clear ATH_SPI_FS 1;
  mret (CYG_FLASH_ERR_OK,
        FlashDev ATHR_FLASH_START (ATHR_FLASH_START + ATHR_FLASH_SIZE) (take 1 (block_info d)) (pf d) true
          (mutex d) (next d)).

Definition qca953x_erase_block (block_base : Z) : M bus Z :=
  _ ← ath_spi_sector_erase block_base; _ ← ath_spi_done; mret 0.

(** The rest of the page is counted from [addr], not from [dst]. *)
Definition bytes_this_page (addr : Z) : Z := ATH_SPI_PAGE_SIZE - addr mod ATH_SPI_PAGE_SIZE.

Fixpoint program_pages (fuel : nat) (addr total : Z) (source : list byte) : M bus unit :=
  match fuel with
  | O => crash
  | S fuel' =>
      let len := Z.of_nat (length source) in
      if total <? len then
        let len_this_lp := if len - total >? bytes_this_page addr then bytes_this_page addr else len - total in
        _ ← ath_spi_write_page (u32 (addr + total)) (take (Z.to_nat len_this_lp) (drop (Z.to_nat total) source));
        program_pages fuel' addr (total + len_this_lp) source
      else mret tt
  end.

Definition qca953x_program (addr : Z) (source : list byte) : M bus Z :=
  _ ← program_pages (S (length source)) (u32 (addr - CFG_FLASH_BASE)) 0 source;
  _ ← ath_spi_done;
  mret 0.

(** Dummies. *)
Definition qca953x_read (base len : Z) : Z := 0.
Definition qca953x_lock (base : Z) : M bus Z := mret 0.
Definition qca953x_unlock (base : Z) : M bus Z := mret 0.

(** ** The driver and its device *)

(** [cyg_devs_flash_spi_qca953x_funs]; the read function is null. A byte is part of the
    flash when the controller's window of 16 MB shows it. *)
Definition in_window (a : Z) : bool := (ATHR_FLASH_START <=? a) && (a <? ATHR_FLASH_START + 2 ^ 24).

#[local] Instance cyg_devs_flash_spi_qca953x_funs : FlashDriver := {
  drv := bus;
  cell h a := if in_window a then window h a else 0xff;
  flash_init _ := qca953x_init;
  flash_erase_block _ := qca953x_erase_block;
  flash_program _ := qca953x_program;
  flash_read _ := None;
  flash_block_lock _ := Some qca953x_lock;
  flash_block_unlock _ := Some qca953x_unlock }.
End Driver.

Definition cyg_flash_qca953x_block_info : list cyg_flash_block_info :=
  [BlockInfo ATHR_FLASH_SECTOR (ATHR_FLASH_SIZE / ATHR_FLASH_SECTOR)].

Definition cyg_flash_qca953x_flashdev : cyg_flash_dev :=
  FlashDev ATHR_FLASH_START (ATHR_FLASH_START + ATHR_FLASH_SIZE - 1) cyg_flash_qca953x_block_info 0 false false None.
