(* ===== verification/QcaFlashSpec.v ===== *)
(** * The flash driver of the QCA953x is a driver of the flash package

    What is asked of the controller and of the serial flash behind it ([SpiNor]): the
    pins the driver moves, the commands of a serial flash and its memory-mapped
    window. Over that, erasing a sector and programming pages do what
    [FlashSpec.DriverLaws] asks, every command is written out in bits, and the
    controller is left in the mode in which the flash is read as memory. *)
From S2P Require Import Prelude.
From S2P Require Import Flash.
From S2P Require Import FlashSpec.
From S2P Require Import QcaFlash.

(** ** Bytes and bits *)
Definition byte_bits (b : Z) : list bool := map (fun k => Z.testbit b (7 - Z.of_nat k)) (seq 0 8).

Definition byte_of (a b c d e f g h : bool) : Z :=
  128 * Z.b2z a + 64 * Z.b2z b + 32 * Z.b2z c + 16 * Z.b2z d + 8 * Z.b2z e + 4 * Z.b2z f + 2 * Z.b2z g + Z.b2z h.

(** The bytes of a sequence of bits, first bit first. *)
Fixpoint frame (l : list bool) : option (list Z) :=
  match l with
  | [] => Some []
  | a :: b :: c :: d :: e :: f :: g :: h :: l' => cons (byte_of a b c d e f g h) <$> frame l'
  | _ => None
  end.

Lemma byte_of_bits b : is_byte b ->
  byte_of (Z.testbit b 7) (Z.testbit b 6) (Z.testbit b 5) (Z.testbit b 4)
    (Z.testbit b 3) (Z.testbit b 2) (Z.testbit b 1) (Z.testbit b 0) = b.
Proof.
  intros Hb. assert (forallb (fun k => let b := Z.of_nat k in
    byte_of (Z.testbit b 7) (Z.testbit b 6) (Z.testbit b 5) (Z.testbit b 4)
      (Z.testbit b 3) (Z.testbit b 2) (Z.testbit b 1) (Z.testbit b 0) =? b) (seq 0 256) = true) as H by (by vm_compute).
  rewrite forallb_forall in H. unfold is_byte in Hb. specialize (H (Z.to_nat b)). cbv zeta in H.
  rewrite Z2Nat.id in H by lia. apply Z.eqb_eq, H, in_seq. lia.
Qed.

Lemma frame_byte b l : is_byte b -> frame (byte_bits b ++ l) = cons b <$> frame l.
Proof. intros Hb. cbn -[byte_of Z.testbit]. by rewrite byte_of_bits. Qed.

Definition wire (bs : list Z) : list bool := concat (map byte_bits bs).

Lemma frame_wire bs : Forall is_byte bs -> frame (wire bs) = Some bs.
Proof.
  induction 1 as [|b bs Hb _ IH]; [done|]. change (wire (b :: bs)) with (byte_bits b ++ wire bs).
  by rewrite frame_byte, IH.
Qed.

Lemma wire_app l1 l2 : wire (l1 ++ l2) = wire l1 ++ wire l2.
Proof. unfold wire. by rewrite map_app, concat_app. Qed.

Lemma be_msb_bit b i : 0 <= i <= 7 -> ath_be_msb b i = Z.b2z (Z.testbit b (7 - i)).
Proof.
  intros Hi. unfold ath_be_msb. rewrite Z.shiftr_land, Z.shiftr_shiftl_l by lia. rewrite Z.sub_diag.
  change (Z.shiftl 1 0) with (Z.ones 1). rewrite Z.land_ones by lia.
  rewrite Z.testbit_odd, <- Z.bit0_odd. rewrite Z.bit0_mod. done.
Qed.

(** The three bytes of an address. *)
Definition addr_of (x y z : Z) : Z := 65536 * x + 256 * y + z.

Lemma addr_bytes a :
  Z.shiftr (Z.land a 0xff0000) 16 = a / 65536 mod 256 /\
  Z.shiftr (Z.land a 0x00ff00) 8 = a / 256 mod 256 /\ Z.land a 0x0000ff = a mod 256.
Proof.
  rewrite !Z.shiftr_land. change (Z.shiftr 0xff0000 16) with (Z.ones 8). change (Z.shiftr 0x00ff00 8) with (Z.ones 8).
  change 0x0000ff with (Z.ones 8). rewrite !Z.land_ones, !Z.shiftr_div_pow2 by lia. done.
Qed.

Lemma addr_of_bytes a : addr_of (a / 65536 mod 256) (a / 256 mod 256) (a mod 256) = a mod 2 ^ 24.
Proof. unfold addr_of. change (2 ^ 24) with 16777216. Z.to_euclidean_division_equations. lia. Qed.

(** ** The serial flash *)

(** The bits shifted in since it was selected, its bytes, the write enable latch, the
    polls until it is ready, and whether the pins are moved by the program. *)
Record chip := Chip { bits : list bool; arr : Z -> byte; wel : bool; busy : nat; soft : bool }.

Definition push (l : list bool) (c : chip) : chip := Chip (bits c ++ l) (arr c) (wel c) (busy c) (soft c).

(** Erase of the sector of 4 KB that holds [a]. *)
Definition erased (a : Z) (m : Z -> byte) (x : Z) : byte := if x / 0x1000 =? a / 0x1000 then 0xff else m x.

(** Page program: bytes behind the end of the page go to its beginning. *)
Definition programmed (a : Z) (data : list byte) (m : Z -> byte) (x : Z) : byte :=
  if x / 256 =? a / 256
  then match data !! Z.to_nat ((x - a) mod 256) with Some b => Z.land (m x) b | None => m x end
  else m x.

Definition status_frame : list bool := wire [ATH_SPI_CMD_RD_STATUS; 0].

(** What a command does when it is complete; it keeps the flash busy for at most
    [wait] polls. *)
Definition executed (wait : nat) (cmd : list Z) (c c' : chip) : Prop :=
  match cmd with
  | [] | 0x05 :: _ | 0x9f :: _ => (forall x, arr c' x = arr c x) /\ busy c' = busy c
  | [0x06] => (forall x, arr c' x = arr c x) /\ busy c' = busy c /\ wel c' = true
  | [0x20; x; y; z] => wel c = true -> (forall a, arr c' a = erased (addr_of x y z) (arr c) a) /\ (busy c' <= wait)%nat
  | 0x02 :: x :: y :: z :: data => wel c = true -> (0 < length data <= 256)%nat ->
      (forall a, arr c' a = programmed (addr_of x y z) data (arr c) a) /\ (busy c' <= wait)%nat
  | _ => True
  end.

(** The flash is deselected; while it is busy it takes no command. *)
Definition deselected (wait : nat) (c c' : chip) : Prop :=
  bits c' = [] /\ soft c' = soft c /\
  match frame (bits c) with
  | Some cmd => if Nat.eqb (busy c) 0 then executed wait cmd c c'
                else (forall x, arr c' x = arr c x) /\ busy c' = busy c
  | None => True
  end.

(** ** Pages *)

(** [m] with [data] programmed from [a] on. *)
Definition burned (a : Z) (data : list byte) (m : Z -> byte) (x : Z) : byte :=
  if a <=? x then match data !! Z.to_nat (x - a) with Some b => Z.land (m x) b | None => m x end else m x.

(** A page that is begun at its first byte. *)
Lemma programmed_burned a total n (source : list byte) m x :
  (a + Z.of_nat total) mod 256 = 0 -> (n <= 256)%nat ->
  programmed (a + Z.of_nat total) (take n (drop total source)) (burned a (take total source) m) x =
  burned a (take (total + n) source) m x.
Proof.
  intros Hp Hn. unfold programmed, burned. set (p := a + Z.of_nat total) in *. destruct (Z.eqb_spec (x / 256) (p / 256)) as [E|E].
  - assert (p <= x < p + 256) as Hx by (Z.to_euclidean_division_equations; lia).
    rewrite (Z.mod_small (x - p)) by lia. replace (a <=? x) with true by lia.
    rewrite !lookup_take, lookup_drop. rewrite (decide_False (P := Z.to_nat (x - a) < total)%nat) by lia.
    replace (total + Z.to_nat (x - p))%nat with (Z.to_nat (x - a)) by lia.
    destruct (decide (Z.to_nat (x - p) < n)%nat), (decide (Z.to_nat (x - a) < total + n)%nat); try lia; done.
  - destruct (Z.leb_spec a x); [|done]. rewrite !lookup_take.
    destruct (decide (Z.to_nat (x - a) < total)%nat), (decide (Z.to_nat (x - a) < total + n)%nat); try lia; try done.
    exfalso. apply E. assert (p <= x < p + 256) by lia. Z.to_euclidean_division_equations; lia.
Qed.


Class SpiNor (R : Mmio) := {
  chip_of : bus -> chip;
  wait : nat;
  arr_byte h a : is_byte (arr (chip_of h) a);
  window_law h a : soft (chip_of h) = false -> in_window a = true ->
    window h a = arr (chip_of h) (a - ATHR_FLASH_START);
  clock_law v h : wp (ath_reg_wr_nf ATH_SPI_CLOCK v) (fun _ h' => chip_of h' = chip_of h) h;
  fs_law v h : wp (ath_reg_wr_nf ATH_SPI_FS v) (fun _ h' => exists l, (l = bits (chip_of h) \/ l = []) /\
    chip_of h' = Chip l (arr (chip_of h)) (wel (chip_of h)) (busy (chip_of h)) (Z.testbit v 0)) h;
  fs_read_law h : wp (ath_reg_rd ATH_SPI_FS) (fun _ h' => chip_of h' = chip_of h) h;
  low_law (x : bool) h : soft (chip_of h) = true ->
    wp (ath_reg_wr_nf ATH_SPI_WRITE (Z.lor ATH_SPI_CE_LOW (Z.b2z x))) (fun _ h' => chip_of h' = chip_of h) h;
  high_law (x : bool) h : soft (chip_of h) = true ->
    wp (ath_reg_wr_nf ATH_SPI_WRITE (Z.lor ATH_SPI_CE_HIGH (Z.b2z x))) (fun _ h' => chip_of h' = push [x] (chip_of h)) h;
  cs_law h : soft (chip_of h) = true ->
    wp (ath_reg_wr_nf ATH_SPI_WRITE ATH_SPI_CS_DIS) (fun _ h' => deselected wait (chip_of h) (chip_of h')) h;
  status_law h : soft (chip_of h) = true -> bits (chip_of h) = status_frame ->
    wp (ath_reg_rd ATH_SPI_RD_STATUS) (fun v h' => Z.testbit v 0 = negb (Nat.eqb (busy (chip_of h)) 0) /\
      chip_of h' = Chip status_frame (arr (chip_of h)) (wel (chip_of h)) (pred (busy (chip_of h))) true) h;
  id_law h : soft (chip_of h) = true -> bits (chip_of h) = [] ->
    wp (ath_reg_rd ATH_SPI_RD_STATUS) (fun _ h' => chip_of h' = chip_of h) h }.

(** ** What the flash package sees *)
Definition qca_regions : Z * Z * list cyg_flash_block_info :=
  (ATHR_FLASH_START, ATHR_FLASH_START + ATHR_FLASH_SIZE, cyg_flash_qca953x_block_info).

(** The blocks of the device are its sectors. *)
Lemma sector_of d a b z : geometry d = qca_regions -> block_of d a = Some (b, z) ->
  z = 0x1000 /\ b mod 0x1000 = 0 /\ ATHR_FLASH_START <= b <= a /\ a < b + 0x1000 <= ATHR_FLASH_START + ATHR_FLASH_SIZE.
Proof.
  intros Hg. injection Hg as H1 _ H3. unfold block_of. rewrite H1, H3. destruct (Z.ltb_spec a ATHR_FLASH_START); [done|].
  cbn [block_in cyg_flash_qca953x_block_info blocks block_size].
  unfold ATHR_FLASH_START, ATHR_FLASH_SIZE, ATHR_FLASH_SECTOR in *. case_match; [|done].
  intros [= <- <-]. split; [done|]. change (0x00100000 / 0x1000) with 256 in *. Z.to_euclidean_division_equations; lia.
Qed.

Lemma in_window_spec a : in_window a = true <-> ATHR_FLASH_START <= a < ATHR_FLASH_START + 2 ^ 24.
Proof. unfold in_window. rewrite andb_true_iff, Z.leb_le, Z.ltb_lt. done. Qed.

Section Driver.
Context `{C : SpiNor}.

(** ** Shifting *)
Lemma bang_step n b i (Q : unit -> bus -> Prop) h :
  soft (chip_of h) = true -> 0 <= i <= 7 ->
  (forall h', chip_of h' = push [Z.testbit b (7 - i)] (chip_of h) -> wp (bang n b (i + 1)) Q h') ->
  wp (bang (S n) b i) Q h.
Proof using.
  intros Hs Hi HQ. cbn [bang]. rewrite be_msb_bit by done. apply wp_bind. eapply wp_mono; [by apply low_law|].
  cbn beta. intros _ h1 E1. apply wp_bind. eapply wp_mono; [apply high_law; by rewrite E1|].
  cbn beta. intros _ h2 E2. apply HQ. by rewrite E2, E1.
Qed.

Lemma push_push l1 l2 c : push l2 (push l1 c) = push (l1 ++ l2) c.
Proof using. unfold push. cbn. by rewrite app_assoc. Qed.

Lemma push_nil c : push [] c = c.
Proof using. destruct c. unfold push. cbn. by rewrite app_nil_r. Qed.

Lemma bang_wp b h n : forall i, (i + n = 8)%nat -> soft (chip_of h) = true ->
  wp (bang n b (Z.of_nat i)) (fun _ h' =>
    chip_of h' = push (map (fun k => Z.testbit b (7 - Z.of_nat k)) (seq i n)) (chip_of h)) h.
Proof using.
  revert h. induction n as [|n IH]; intros h i Hi Hs; [apply wp_ret; by rewrite push_nil|].
  apply bang_step; [done|lia|]. intros h1 E1. replace (Z.of_nat i + 1) with (Z.of_nat (S i)) by lia.
  eapply wp_mono; [apply IH; [lia|by rewrite E1]|]. cbn beta. intros _ h2 ->. by rewrite E1, push_push.
Qed.

Lemma byte_wp b h : soft (chip_of h) = true ->
  wp (ath_spi_bit_banger b) (fun _ h' => chip_of h' = push (wire [b]) (chip_of h)) h.
Proof using. intros Hs. apply (bang_wp b h 8 0); [done|done]. Qed.

(** One more byte of a frame. *)
Lemma byte_next {A} b l c (k : unit -> M bus A) (Q : A -> bus -> Prop) h :
  chip_of h = push (wire l) c -> soft c = true ->
  (forall h', chip_of h' = push (wire (l ++ [b])) c -> wp (k tt) Q h') -> wp (ath_spi_bit_banger b ≫= k) Q h.
Proof using.
  intros E Hs HQ. apply wp_bind. eapply wp_mono; [apply byte_wp; by rewrite E|]. cbn beta. intros [] h1 E1.
  apply HQ. by rewrite E1, E, push_push, wire_app.
Qed.

Lemma wp_tail {A} (m : M bus A) (Q : A -> bus -> Prop) h : wp (m ≫= fun a => mret a) Q h -> wp m Q h.
Proof using. intros (a & h' & E & HQ). apply bind_Some in E as ([a1 h1] & E & [= <- <-]). by exists a1, h1. Qed.

Lemma addr_next {A} a l c (k : unit -> M bus A) (Q : A -> bus -> Prop) h :
  chip_of h = push (wire l) c -> soft c = true ->
  (forall h', chip_of h' = push (wire (l ++ [a / 65536 mod 256; a / 256 mod 256; a mod 256])) c -> wp (k tt) Q h') ->
  wp (ath_spi_send_addr a ≫= k) Q h.
Proof using.
  intros E Hs HQ. apply wp_bind. unfold ath_spi_send_addr. destruct (addr_bytes a) as (-> & -> & ->).
  eapply byte_next; [done|done|]. intros h1 E1. eapply byte_next; [done|done|]. intros h2 E2.
  apply wp_tail. eapply byte_next; [done|done|]. intros h3 E3. apply wp_ret, HQ. by rewrite E3, <- !app_assoc.
Qed.

Lemma data_next {A} data l c (k : unit -> M bus A) (Q : A -> bus -> Prop) h :
  chip_of h = push (wire l) c -> soft c = true ->
  (forall h', chip_of h' = push (wire (l ++ data)) c -> wp (k tt) Q h') -> wp (send_data data ≫= k) Q h.
Proof using.
  intros E Hs HQ. apply wp_bind. revert l h E HQ. induction data as [|b data IH]; intros l h E HQ; cbn [send_data].
  - apply wp_ret, HQ. by rewrite app_nil_r.
  - eapply byte_next; [done|done|]. intros h1 E1. apply (IH (l ++ [b])); [done|]. intros h2 E2. apply HQ.
    by rewrite E2, <- app_assoc.
Qed.
(** ** Commands *)

(** Nothing is under way: the flash is ready and holds [m], and no command or only a
    status command is shifted in. *)
Record quiet (m : Z -> byte) (c : chip) : Prop := {
  q_bits : bits c = [] \/ bits c = status_frame;
  q_busy : busy c = 0%nat;
  q_arr x : arr c x = m x }.

(** The flash is deselected and may be written. *)
Record enabled (m : Z -> byte) (c : chip) : Prop := {
  e_bits : bits c = [];
  e_soft : soft c = true;
  e_busy : busy c = 0%nat;
  e_wel : wel c = true;
  e_arr x : arr c x = m x }.

Lemma frame_quiet m c : quiet m c -> exists cmd, frame (bits c) = Some cmd /\ (cmd = [] \/ cmd = [0x05; 0]).
Proof using. intros [[->| ->] _ _]; eexists; (split; [vm_compute; reflexivity|auto]). Qed.

Lemma executed_quiet cmd (c c' : chip) : cmd = [] \/ cmd = [0x05; 0] -> executed wait cmd c c' ->
  (forall x, arr c' x = arr c x) /\ busy c' = busy c.
Proof using. by intros [->| ->]. Qed.

(** Deselecting ends a status command without effect, also while the flash is busy. *)
Lemma deselect_wp (m : Z -> byte) h :
  soft (chip_of h) = true -> bits (chip_of h) = [] \/ bits (chip_of h) = status_frame ->
  (forall x, arr (chip_of h) x = m x) ->
  wp (ath_reg_wr_nf ATH_SPI_WRITE ATH_SPI_CS_DIS) (fun _ h' => bits (chip_of h') = [] /\ soft (chip_of h') = true /\
    busy (chip_of h') = busy (chip_of h) /\ forall x, arr (chip_of h') x = m x) h.
Proof using.
  intros Hs Hb Hm. eapply wp_mono; [by apply cs_law|]. cbn beta. intros _ h' (Hb' & Hs' & Hd).
  assert (exists cmd, frame (bits (chip_of h)) = Some cmd /\ (cmd = [] \/ cmd = [0x05; 0])) as (cmd & Ef & Hcmd).
  { destruct Hb as [->| ->]; eexists; (split; [vm_compute; reflexivity|auto]). }
  rewrite Ef in Hd. destruct (Nat.eqb (busy (chip_of h)) 0).
  - destruct (executed_quiet _ _ _ Hcmd Hd) as [Ha Hbu]. split; [done|]. split; [congruence|]. split; [done|].
    intros x. by rewrite Ha.
  - destruct Hd as [Ha Hbu]. split; [done|]. split; [congruence|]. split; [done|]. intros x. by rewrite Ha.
Qed.

(** A complete command is executed when the flash is deselected. *)
Lemma go_wp cmd c h (Q : unit -> bus -> Prop) :
  chip_of h = push (wire cmd) c -> bits c = [] -> soft c = true -> busy c = 0%nat -> Forall is_byte cmd ->
  (forall h', bits (chip_of h') = [] -> soft (chip_of h') = true -> executed wait cmd (chip_of h) (chip_of h') -> Q tt h') ->
  wp ath_spi_go Q h.
Proof using.
  intros E Hb Hs Hbu Hby HQ. unfold ath_spi_go. change ATH_SPI_CE_LOW with (Z.lor ATH_SPI_CE_LOW (Z.b2z false)).
  apply wp_bind. eapply wp_mono; [apply low_law; by rewrite E|]. cbn beta. intros _ h1 E1.
  eapply wp_mono; [apply cs_law; by rewrite E1, E|]. cbn beta. intros [] h2 (Hb2 & Hs2 & Hd).
  rewrite E1 in Hs2, Hd. assert (frame (bits (chip_of h)) = Some cmd) as Hf.
  { rewrite E. cbn. rewrite Hb. by apply frame_wire. }
  assert (busy (chip_of h) = 0%nat) as Hbu1 by by rewrite E.
  rewrite Hf, Hbu1 in Hd. apply HQ; [done|by rewrite Hs2, E|done].
Qed.

Lemma write_enable_wp m h : quiet m (chip_of h) ->
  wp ath_spi_write_enable (fun _ h' => enabled m (chip_of h')) h.
Proof using.
  intros [Hb Hbu Hm]. unfold ath_spi_write_enable. apply wp_bind. eapply wp_mono; [apply fs_law|].
  cbn beta. intros _ h1 (l & Hl & E1). apply wp_bind. eapply wp_mono.
  { apply (deselect_wp m); rewrite E1; cbn; [done|destruct Hl as [->| ->]; auto|done]. }
  cbn beta. intros _ h2 (Hb2 & Hs2 & Hbu2 & Hm2). rewrite E1 in Hbu2. cbn in Hbu2. rewrite Hbu in Hbu2.
  apply (byte_next _ [] (chip_of h2)); [by rewrite push_nil|done|]. intros h3 E3.
  eapply go_wp; [exact E3|done|done|done|by repeat constructor|]. intros h4 Hb4 Hs4 (Ha4 & Hbu4 & Hw4).
  rewrite E3 in Ha4, Hbu4. cbn in Ha4, Hbu4. split; try done; [congruence|]. intros x. by rewrite Ha4.
Qed.

Lemma poll_once_wp m h :
  soft (chip_of h) = true -> bits (chip_of h) = [] \/ bits (chip_of h) = status_frame ->
  (forall x, arr (chip_of h) x = m x) ->
  wp poll_once (fun rd h' => rd = Z.b2z (negb (Nat.eqb (busy (chip_of h)) 0)) /\ soft (chip_of h') = true /\
    bits (chip_of h') = status_frame /\ (forall x, arr (chip_of h') x = m x) /\
    busy (chip_of h') = pred (busy (chip_of h))) h.
Proof using.
  intros Hs Hb Hm. unfold poll_once. apply wp_bind. eapply wp_mono; [by apply (deselect_wp m)|].
  cbn beta. intros _ h1 (Hb1 & Hs1 & Hbu1 & Hm1).
  apply (byte_next _ [] (chip_of h1)); [by rewrite push_nil|done|]. intros h2 E2.
  eapply byte_next; [exact E2|done|]. intros h3 E3. apply wp_bind. eapply wp_mono.
  { apply status_law; rewrite E3; cbn [soft bits push]; [done|]. by rewrite Hb1. }
  cbn beta. intros v h4 (Hv & E4). apply wp_ret. rewrite E3 in Hv, E4. cbn in Hv, E4. rewrite Hbu1 in Hv, E4.
  rewrite E4. split; [|done]. rewrite <- Hv. change 1 with (Z.ones 1). by rewrite Z.land_ones, <- Z.bit0_mod by lia.
Qed.

(** Polling ends: every poll finds the flash nearer to the end of its command. *)
Lemma poll_wp m : forall n fuel h,
  soft (chip_of h) = true -> bits (chip_of h) = [] \/ bits (chip_of h) = status_frame ->
  (forall x, arr (chip_of h) x = m x) -> (busy (chip_of h) <= n)%nat -> (n < fuel)%nat ->
  wp (poll fuel) (fun _ h' => quiet m (chip_of h')) h.
Proof using.
  induction n as [|n IH]; intros fuel h Hs Hb Hm Hn Hf; (destruct fuel as [|fuel]; [lia|]); cbn [poll];
    apply wp_bind; (eapply wp_mono; [by apply (poll_once_wp m)|]); cbn beta;
    intros rd h1 (-> & Hs1 & Hb1 & Hm1 & Hbu1).
  - assert (busy (chip_of h) = 0%nat) as E by lia. rewrite E in *. apply wp_ret. split; auto.
  - destruct (Nat.eqb_spec (busy (chip_of h)) 0) as [E|E]; cbn [negb Z.b2z Z.eqb].
    + rewrite E in Hbu1. apply wp_ret. split; auto.
    + apply IH; auto; lia.
Qed.

Lemma quiet_ext m m' c : (forall x, m x = m' x) -> quiet m c -> quiet m' c.
Proof using. intros He [Hb Hbu Ha]. split; [done|done|]. intros x. by rewrite Ha. Qed.

Variable poll_fuel : nat.
Hypothesis Hpoll : (wait < poll_fuel)%nat.

Lemma sector_erase_wp a m h : quiet m (chip_of h) ->
  wp (ath_spi_sector_erase poll_fuel a) (fun _ h' => quiet (erased (a mod 2 ^ 24) m) (chip_of h')) h.
Proof using Hpoll.
  intros Hq. unfold ath_spi_sector_erase. apply wp_bind. eapply wp_mono; [by apply write_enable_wp|].
  cbn beta. intros _ h1 [Hb Hs Hbu Hw Ha].
  apply (byte_next _ [] (chip_of h1)); [by rewrite push_nil|done|]. intros h2 E2.
  eapply addr_next; [exact E2|done|]. intros h3 E3. cbn [app] in E3.
  apply wp_bind. eapply go_wp; [exact E3|done|done|done| |].
  { repeat constructor; (apply Z.mod_pos_bound; lia) || done. }
  intros h4 Hb4 Hs4 Hx. rewrite E3 in Hx. cbn in Hx. destruct (Hx Hw) as [Ha4 Hbu4].
  eapply wp_mono; [apply (poll_wp (erased (a mod 2 ^ 24) m) wait); auto|by auto].
  intros x. rewrite Ha4. change (65536 * (a / 65536 mod 256) + 256 * (a / 256 mod 256) + a mod 256)
    with (addr_of (a / 65536 mod 256) (a / 256 mod 256) (a mod 256)). rewrite addr_of_bytes. unfold erased. by rewrite Ha.
Qed.

Lemma write_page_wp a data m h : quiet m (chip_of h) -> Forall is_byte data -> (0 < length data <= 256)%nat ->
  wp (ath_spi_write_page poll_fuel a data) (fun _ h' => quiet (programmed (a mod 2 ^ 24) data m) (chip_of h')) h.
Proof using Hpoll.
  intros Hq Hby Hl. unfold ath_spi_write_page. apply wp_bind. eapply wp_mono; [by apply write_enable_wp|].
  cbn beta. intros _ h1 [Hb Hs Hbu Hw Ha].
  apply (byte_next _ [] (chip_of h1)); [by rewrite push_nil|done|]. intros h2 E2.
  eapply addr_next; [exact E2|done|]. intros h3 E3. eapply data_next; [exact E3|done|]. intros h4 E4. cbn [app] in E4.
  apply wp_bind. eapply go_wp; [exact E4|done|done|done| |].
  { do 4 (constructor; [(apply Z.mod_pos_bound; lia) || done|]). done. }
  intros h5 Hb5 Hs5 Hx. rewrite E4 in Hx. destruct (Hx Hw Hl) as [Ha5 Hbu5].
  eapply wp_mono; [apply (poll_wp (programmed (a mod 2 ^ 24) data m) wait); auto|by auto].
  intros x. rewrite Ha5, addr_of_bytes. unfold programmed. cbn [arr push]. by rewrite Ha.
Qed.

Lemma program_pages_wp a source m : forall fuel total h,
  0 <= a -> a + Z.of_nat (length source) <= 2 ^ 24 -> a mod 256 = 0 -> Forall is_byte source ->
  (total <= length source)%nat -> Z.of_nat total mod 256 = 0 \/ total = length source ->
  (length source - total < fuel)%nat ->
  quiet (burned a (take total source) m) (chip_of h) ->
  wp (program_pages poll_fuel fuel a (Z.of_nat total) source) (fun _ h' => quiet (burned a source m) (chip_of h')) h.
Proof using Hpoll.
  induction fuel as [|fuel IH]; intros total h H0 Hend Ha Hby Hle Hal Hf Hq; [lia|]. cbn [program_pages].
  destruct (Z.ltb_spec (Z.of_nat total) (Z.of_nat (length source))) as [Hlt|Hge].
  2: { apply wp_ret. by rewrite take_ge in Hq by lia. }
  destruct Hal as [Hal|]; [|lia]. unfold bytes_this_page, ATH_SPI_PAGE_SIZE. rewrite Ha, Z.sub_0_r.
  set (n := if Z.of_nat (length source) - Z.of_nat total >? 256 then 256 else Z.of_nat (length source) - Z.of_nat total).
  assert (n = Z.min 256 (Z.of_nat (length source) - Z.of_nat total)) as Hn.
  { unfold n. destruct (Z.gtb_spec (Z.of_nat (length source) - Z.of_nat total) 256); lia. }
  rewrite (uwrap_small 32), Nat2Z.id by lia. apply wp_bind. eapply wp_mono.
  { apply write_page_wp; [exact Hq|by apply Forall_take, Forall_drop|]. rewrite length_take, length_drop. lia. }
  cbn beta. intros _ h1 Hq1. replace (Z.of_nat total + n) with (Z.of_nat (total + Z.to_nat n)) by lia.
  apply IH; try done; try lia.
  - destruct (decide (total + Z.to_nat n = length source)%nat); [auto|left]. assert (n = 256) as -> by lia.
    rewrite Nat2Z.inj_add, Z2Nat.id by lia. by rewrite Zplus_mod, Hal.
  - eapply quiet_ext; [|exact Hq1]. intros x. rewrite Z.mod_small by lia. apply programmed_burned; [|lia].
    by rewrite Zplus_mod, Ha, Hal.
Qed.

(** ** The driver's start *)
Lemma fs_write_quiet v m h : quiet m (chip_of h) ->
  wp (ath_reg_wr_nf ATH_SPI_FS v) (fun _ h' => quiet m (chip_of h') /\ soft (chip_of h') = Z.testbit v 0) h.
Proof using.
  intros [Hb Hbu Ha]. eapply wp_mono; [apply fs_law|]. cbn beta. intros _ h' (l & Hl & E).
  rewrite E. cbn. split; [|done]. split; [|done|done]. cbn. destruct Hl as [->| ->]; auto.
Qed.

Lemma fs_read_quiet m h b : quiet m (chip_of h) -> soft (chip_of h) = b ->
  wp (ath_reg_rd ATH_SPI_FS) (fun _ h' => quiet m (chip_of h') /\ soft (chip_of h') = b) h.
Proof using. intros Hq Hs. eapply wp_mono; [apply fs_read_law|]. cbn beta. by intros _ h' ->. Qed.

Lemma rmw_wp (up : bool) m h : quiet m (chip_of h) ->
  wp (if up then ath_reg_rmw_set ATH_SPI_FS 1 else ath_reg_rmw_clear ATH_SPI_FS 1)
    (fun _ h' => quiet m (chip_of h') /\ soft (chip_of h') = up) h.
Proof using.
  intros Hq. assert (forall v, Z.testbit v 0 = up -> forall h, quiet m (chip_of h) ->
    wp (_ ← ath_reg_wr ATH_SPI_FS v; _ ← ath_reg_rd ATH_SPI_FS; mret tt)
      (fun _ h' => quiet m (chip_of h') /\ soft (chip_of h') = up) h) as Hw.
  { clear h Hq. intros v Hv h Hq. unfold ath_reg_wr. apply wp_bind, wp_bind.
    eapply wp_mono; [by apply fs_write_quiet|]. cbn beta. intros _ h1 [Hq1 Hs1]. rewrite Hv in Hs1.
    apply wp_bind. eapply wp_mono; [by apply fs_read_quiet|]. cbn beta. intros _ h2 [Hq2 Hs2]. apply wp_ret.
    apply wp_bind. eapply wp_mono; [by apply fs_read_quiet|]. cbn beta. intros _ h3 ?. by apply wp_ret. }
  destruct up; apply wp_bind; (eapply wp_mono; [by eapply fs_read_quiet|]); cbn beta; intros v h1 [Hq1 _]; apply Hw;
    try done.
  - rewrite Z.lor_spec. apply orb_true_r.
  - rewrite Z.land_spec. apply andb_false_r.
Qed.

Lemma read_id_wp m h : quiet m (chip_of h) -> soft (chip_of h) = true ->
  wp ath_spi_read_id (fun _ h' => quiet m (chip_of h')) h.
Proof using.
  intros [Hb Hbu Hm] Hs. unfold ath_spi_read_id. apply wp_bind. eapply wp_mono; [by apply (deselect_wp m)|].
  cbn beta. intros _ h1 (Hb1 & Hs1 & Hbu1 & Hm1). rewrite Hbu in Hbu1.
  apply (byte_next _ [] (chip_of h1)); [by rewrite push_nil|done|]. intros h2 E2. unfold ath_spi_delay_8.
  eapply byte_next; [exact E2|done|]. intros h3 E3. eapply byte_next; [exact E3|done|]. intros h4 E4.
  eapply byte_next; [exact E4|done|]. intros h5 E5. apply wp_bind.
  eapply go_wp; [exact E5|done|done|done|by repeat constructor|]. intros h6 Hb6 Hs6 [Ha6 Hbu6].
  rewrite E5 in Ha6, Hbu6. cbn in Ha6, Hbu6. eapply wp_mono; [by apply id_law|]. cbn beta. intros _ h7 ->.
  split; [auto|congruence|]. intros x. by rewrite Ha6.
Qed.

(** ** The driver *)

(** Between calls the flash is ready and shown as memory. *)
Definition at_rest (h : bus) : Prop := quiet (arr (chip_of h)) (chip_of h) /\ soft (chip_of h) = false.

Lemma done_wp m h : quiet m (chip_of h) ->
  wp ath_spi_done (fun _ h' => at_rest h' /\ forall x, arr (chip_of h') x = m x) h.
Proof using.
  intros [Hb Hbu Ha]. unfold ath_spi_done. eapply wp_mono; [apply fs_law|]. cbn beta. intros _ h' (l & Hl & E).
  unfold at_rest. rewrite E. cbn. split; [|done]. split; [|done]. split; [|done|done]. cbn. destruct Hl as [->| ->]; auto.
Qed.

Lemma erase_block_wp b h : at_rest h ->
  wp (qca953x_erase_block poll_fuel b) (fun r h' => r = CYG_FLASH_ERR_OK /\ at_rest h' /\
    forall x, arr (chip_of h') x = erased (b mod 2 ^ 24) (arr (chip_of h)) x) h.
Proof using Hpoll.
  intros [Hq _]. apply wp_bind. eapply wp_mono; [by apply sector_erase_wp|]. cbn beta. intros _ h1 H1.
  apply wp_bind. eapply wp_mono; [by apply done_wp|]. cbn beta. intros _ h2 [H2 Hx]. by apply wp_ret.
Qed.

Lemma program_wp addr data h : at_rest h -> addr mod 256 = 0 -> CFG_FLASH_BASE <= addr ->
  addr + Z.of_nat (length data) <= CFG_FLASH_BASE + 2 ^ 24 -> Forall is_byte data ->
  wp (qca953x_program poll_fuel addr data) (fun r h' => r = CYG_FLASH_ERR_OK /\ at_rest h' /\
    forall x, arr (chip_of h') x = burned (addr - CFG_FLASH_BASE) data (arr (chip_of h)) x) h.
Proof using Hpoll.
  intros [Hq _] Ha H0 Hend Hby. unfold qca953x_program, CFG_FLASH_BASE in *. apply wp_bind.
  rewrite (uwrap_small 32) by lia. eapply wp_mono.
  { apply (program_pages_wp _ _ (arr (chip_of h)) _ 0); try done; try lia; [|by left|].
    - rewrite Zminus_mod, Ha. done.
    - eapply quiet_ext; [|exact Hq]. intros x. unfold burned. cbn. by destruct (_ <=? _). }
  cbn beta. intros _ h1 H1. apply wp_bind. eapply wp_mono; [by apply done_wp|]. cbn beta. intros _ h2 [H2 Hx].
  by apply wp_ret.
Qed.

Lemma init_wp d h : at_rest h ->
  wp (qca953x_init d) (fun '(r, d') h' => r = CYG_FLASH_ERR_OK /\ at_rest h' /\
    (forall x, arr (chip_of h') x = arr (chip_of h) x) /\
    d' = FlashDev ATHR_FLASH_START (ATHR_FLASH_START + ATHR_FLASH_SIZE) (take 1 (block_info d)) (pf d) true (mutex d) (next d)) h.
Proof using.
  intros [Hq _]. unfold qca953x_init. apply wp_bind. eapply wp_mono; [apply clock_law|]. cbn beta. intros _ h1 E1.
  rewrite <- E1 in Hq. apply wp_bind. eapply wp_mono.
  { apply (rmw_wp true (arr (chip_of h)) h1). by rewrite <- E1 in *. }
  cbn beta. intros _ h2 [Hq2 Hs2]. apply wp_bind. eapply wp_mono; [by apply (read_id_wp (arr (chip_of h)))|].
  cbn beta. intros _ h3 Hq3. apply wp_bind. eapply wp_mono; [by apply (rmw_wp false (arr (chip_of h)))|].
  cbn beta. intros _ h4 [Hq4 Hs4]. apply wp_ret. split; [done|]. split; [|split; [apply Hq4|done]].
  split; [|done]. destruct Hq4. split; done.
Qed.

Lemma cell_arr h a : soft (chip_of h) = false ->
  (if in_window a then window h a else 0xff) = if in_window a then arr (chip_of h) (a - ATHR_FLASH_START) else 0xff.
Proof using. intros Hs. destruct (in_window a) eqn:E; [|done]. by apply window_law. Qed.

End Driver.

(** Cells before and after an operation on the bytes of the flash. *)
Lemma cells_changed `{C : SpiNor} poll_fuel (h h' : bus) (f : (Z -> byte) -> Z -> byte) a :
  at_rest h -> at_rest h' -> (forall x, arr (chip_of h') x = f (arr (chip_of h)) x) ->
  @cell (cyg_devs_flash_spi_qca953x_funs poll_fuel) h' a =
  if in_window a then f (arr (chip_of h)) (a - ATHR_FLASH_START) else 0xff.
Proof. intros _ [_ Hs'] Hx. cbn. rewrite cell_arr by done. by rewrite Hx. Qed.

Section Laws.
Context `{C : SpiNor} (poll_fuel : nat) (Hpoll : (wait < poll_fuel)%nat).
#[local] Existing Instance cyg_devs_flash_spi_qca953x_funs.
#[local] Notation qca := (cyg_devs_flash_spi_qca953x_funs poll_fuel).

(** Qca953x_erase_block sends write enable, the erase command with the 24 bits
    of the address and polls until the flash is ready, which ends. Exactly the bytes of
    the sector become 0xff, and the flash can be read as memory again. *)
Lemma qca_erase_ok i d b z (h : bus) :
  at_rest h -> geometry d = qca_regions -> block_of d b = Some (b, z) ->
  wp (@flash_erase_block qca i b) (fun r h' => r = CYG_FLASH_ERR_OK /\ at_rest h' /\
    forall a, @cell qca h' a = if (b <=? a) && (a <? b + z) then 0xff else @cell qca h a) h.
Proof using Hpoll.
  intros Hh Hg Hb. destruct (sector_of d b b z Hg Hb) as (-> & Hal & Hb1 & Hb2).
  eapply wp_mono; [by apply erase_block_wp|]. cbn beta. intros r h' (-> & Hh' & Hx). split; [done|]. split; [done|].
  intros a. rewrite (cells_changed poll_fuel h h' _ a Hh Hh' Hx).
  change (@cell qca h a) with (if in_window a then window h a else 0xff). rewrite cell_arr by apply Hh.
  unfold erased. pose proof (in_window_spec a) as Hw. unfold ATHR_FLASH_START, ATHR_FLASH_SIZE in *.
  destruct (in_window a).
  - destruct (proj1 Hw eq_refl) as [Ha1 Ha2].
    assert (((a - 0x9f000000) / 0x1000 =? b mod 2 ^ 24 / 0x1000) = (b <=? a) && (a <? b + 0x1000)) as ->; [|done].
    change (2 ^ 24) with 16777216. apply eq_true_iff_eq. rewrite andb_true_iff, Z.eqb_eq, Z.leb_le, Z.ltb_lt.
    Z.to_euclidean_division_equations; lia.
  - assert ((b <=? a) && (a <? b + 0x1000) = false) as ->; [|done]. apply not_true_is_false.
    rewrite andb_true_iff, Z.leb_le, Z.ltb_lt. intros [? ?]. assert (false = true); [|done]. apply Hw. lia.
Qed.

(** C25: qca953x_program, from an address at the beginning of a page on, programs the
    data page by page: every byte of the range keeps the bits set in it and in the data,
    no other byte changes, every poll ends, and the flash can be read as memory again. *)
Lemma qca_program_ok i d addr b z data (h : bus) :
  at_rest h -> geometry d = qca_regions -> block_of d addr = Some (b, z) -> addr mod 256 = 0 ->
  addr + Z.of_nat (length data) <= b + z -> Forall is_byte data ->
  wp (@flash_program qca i addr data) (fun r h' => r = CYG_FLASH_ERR_OK /\ at_rest h' /\
    forall a, @cell qca h' a = if addr <=? a
                               then match data !! Z.to_nat (a - addr) with
                                    | Some x => Z.land (@cell qca h a) x
                                    | None => @cell qca h a
                                    end
                               else @cell qca h a) h.
Proof using Hpoll.
  intros Hh Hg Hb Hal Hend Hby. destruct (sector_of d addr b z Hg Hb) as (-> & _ & Hb1 & Hb2).
  unfold ATHR_FLASH_START, ATHR_FLASH_SIZE in *.
  assert (CFG_FLASH_BASE <= addr /\ addr + Z.of_nat (length data) <= CFG_FLASH_BASE + 2 ^ 24) as [H0 H1].
  { unfold CFG_FLASH_BASE. lia. }
  eapply wp_mono; [exact (program_wp poll_fuel Hpoll addr data h Hh Hal H0 H1 Hby)|].
  cbn beta. intros r h' (-> & Hh' & Hx). split; [done|]. split; [done|].
  intros a. rewrite (cells_changed poll_fuel h h' _ a Hh Hh' Hx).
  change (@cell qca h a) with (if in_window a then window h a else 0xff). rewrite cell_arr by apply Hh.
  unfold burned. pose proof (in_window_spec a) as Hw. unfold ATHR_FLASH_START, CFG_FLASH_BASE in *.
  destruct (in_window a).
  - assert ((addr - 0x9f000000 <=? a - 0x9f000000) = (addr <=? a)) as -> by lia.
    by replace (a - 0x9f000000 - (addr - 0x9f000000)) with (a - addr) by lia.
  - destruct (Z.leb_spec addr a); [|done]. destruct (data !! Z.to_nat (a - addr)) eqn:E; [|done].
    apply lookup_lt_Some in E. assert (false = true); [|done]. apply Hw. lia.
Qed.

(** The driver keeps what the flash package asks of one. *)
Definition qca_laws : DriverLaws qca.
Proof using Hpoll.
  refine (@Build_DriverLaws qca at_rest (fun _ => qca_regions) (fun _ => 256) _ _ _
    (fun _ infos => infos = cyg_flash_qca953x_block_info) False _ _ _ _ _).
  - done.
  - intros i d Hg. injection Hg as H1 H2 H3. unfold ATHR_FLASH_START, ATHR_FLASH_SIZE in *. rewrite H3.
    split; [split; rewrite ?H1, ?H2, ?H3; cbn; try lia; by repeat split|]. rewrite H1. split; [done|].
    by repeat constructor.
  - intros h a [_ Hs]. change (is_byte (if in_window a then window h a else 0xff)). rewrite cell_arr by done.
    destruct (in_window a); [apply arr_byte|done].
  - intros i d h Hh Hde. eapply wp_mono; [by apply init_wp|]. cbn beta. intros [r d'] h' (-> & Hh' & Hx & ->).
    split; [done|]. split.
    { intros a. change (@cell qca h a) with (if in_window a then window h a else 0xff).
      rewrite (cells_changed poll_fuel h h' (fun m x => m x) a Hh Hh' Hx). by rewrite cell_arr by apply Hh. }
    split; [done|]. split; [done|]. split; [done|]. split; [|auto]. intros _. unfold geometry. cbn. by rewrite Hde.
  - intros i d b z h Hh Hg Hb. eapply wp_mono; [by eapply qca_erase_ok|]. cbn beta. intros r h' (-> & Hh' & Hx).
    split; [done|]. split.
    + intros a Ha. rewrite Hx. assert ((b <=? a) && (a <? b + z) = false) as ->; [|done].
      apply not_true_is_false. rewrite andb_true_iff, Z.leb_le, Z.ltb_lt. lia.
    + split; [done|]. intros _ a Ha. rewrite Hx. by assert ((b <=? a) && (a <? b + z) = true) as -> by (apply andb_true_intro; lia).
  - intros i d addr b z data h Hh Hg Hb Hal Hne Hend Hby. eapply wp_mono; [by eapply qca_program_ok|].
    cbn beta. intros r h' (-> & Hh' & Hx). split; [done|]. split.
    + intros a Ha. rewrite Hx. destruct (Z.leb_spec addr a); [|done].
      by rewrite (lookup_ge_None_2 data) by lia.
    + split; [done|]. intros _ k x Hk. rewrite Hx. destruct (Z.leb_spec addr (addr + Z.of_nat k)); [|lia].
      replace (addr + Z.of_nat k - addr) with (Z.of_nat k) by lia. by rewrite Nat2Z.id, Hk.
  - done.
  - intros i f b h Hh [[= <-]|[= <-]]; by apply wp_ret.
Defined.
End Laws.

(** ** A simulated flash *)

(** The registers in front of a chip that is busy for three polls after a command. *)
Definition sim_execute (cmd : list Z) (c : chip) : chip :=
  match cmd with
  | [0x06] => Chip [] (arr c) true (busy c) (soft c)
  | [0x20; x; y; z] => if wel c then Chip [] (erased (addr_of x y z) (arr c)) false 3 (soft c) else Chip [] (arr c) (wel c) (busy c) (soft c)
  | 0x02 :: x :: y :: z :: data =>
      if wel c then Chip [] (programmed (addr_of x y z) data (arr c)) false 3 (soft c)
      else Chip [] (arr c) (wel c) (busy c) (soft c)
  | _ => Chip [] (arr c) (wel c) (busy c) (soft c)
  end.

Definition sim_deselect (c : chip) : chip :=
  match frame (bits c) with
  | Some cmd => if Nat.eqb (busy c) 0 then sim_execute cmd c else Chip [] (arr c) (wel c) (busy c) (soft c)
  | None => Chip [] (arr c) (wel c) (busy c) (soft c)
  end.

(** Its bytes, whatever the function that stands for them returns. *)
Definition sim_chip (c : chip) : chip := Chip (bits c) (fun a => u8 (arr c a)) (wel c) (busy c) (soft c).

#[export] Instance sim_mmio : Mmio := {
  bus := chip;
  vol_write a v := modify (fun c =>
    if a =? KSEG1ADDR ATH_SPI_FS then Chip (bits c) (arr c) (wel c) (busy c) (Z.testbit v 0)
    else if a =? KSEG1ADDR ATH_SPI_WRITE then
      if v =? ATH_SPI_CS_DIS then sim_deselect (sim_chip c)
      else if Z.testbit v 8 then push [Z.testbit v 0] c else c
    else c);
  vol_read a := fun c =>
    if (a =? KSEG1ADDR ATH_SPI_RD_STATUS) && bool_decide (bits c = status_frame)
    then Some (Z.b2z (negb (Nat.eqb (busy c) 0)), Chip (bits c) (arr c) (wel c) (pred (busy c)) (soft c))
    else Some (0, c);
  window c a := u8 (arr c (a - ATHR_FLASH_START)) }.

Lemma sim_byte x : is_byte (u8 x).
Proof. apply (uwrap_range 8). lia. Qed.

Lemma sim_erased a (m : Z -> byte) x : (forall y, is_byte (m y)) -> u8 (erased a m x) = erased a m x.
Proof. intros Hm. unfold erased. destruct (_ =? _); [done|]. by apply (uwrap_small 8), Hm. Qed.

Lemma sim_programmed a data (m : Z -> byte) x : (forall y, is_byte (m y)) ->
  u8 (programmed a data m x) = programmed a data m x.
Proof.
  intros Hm. unfold programmed. destruct (_ =? _); [|by apply (uwrap_small 8), Hm].
  destruct (data !! _); [by apply (uwrap_small 8), land_byte, Hm|by apply (uwrap_small 8), Hm].
Qed.

Lemma sim_executed cmd c : (forall y, is_byte (arr c y)) -> executed 3 cmd c (sim_chip (sim_execute cmd c)).
Proof.
  intros Hm. assert (forall x, u8 (arr c x) = arr c x) as Hu by (intros x; by apply (uwrap_small 8), Hm).
  unfold executed, sim_execute. repeat case_match; try done; cbn [sim_chip arr wel busy]; auto.
  - intros _. split; [|done]. intros a. by apply sim_erased.
  - intros _ _. split; [|done]. intros a. by apply sim_programmed.
Qed.

Lemma sim_deselected c : (forall y, is_byte (arr c y)) -> deselected 3 c (sim_chip (sim_deselect c)).
Proof.
  intros Hm. unfold deselected, sim_deselect. destruct (frame (bits c)) as [cmd|]; [|done].
  destruct (Nat.eqb (busy c) 0).
  - split; [|split]; [| |by apply sim_executed]; unfold sim_execute; repeat case_match; done.
  - split; [done|]. split; [done|]. split; [|done]. intros x. by apply (uwrap_small 8), Hm.
Qed.

#[export, refine] Instance sim_spi_nor : SpiNor sim_mmio := { chip_of := sim_chip; wait := 3 }.
Proof.
  - intros h a. apply sim_byte.
  - done.
  - intros v h. by eexists _, _.
  - intros v h. eexists _, _. split; [done|]. cbn -[Z.testbit]. eexists. split; [by left|done].
  - intros h. eexists _, _. by split.
  - intros x h _. eexists _, _. split; [done|]. by destruct x.
  - intros x h _. eexists _, _. split; [done|]. by destruct x.
  - intros h _. eexists _, _. split; [done|]. apply (sim_deselected (sim_chip h)). intros y. apply sim_byte.
  - intros h Hs Hb. assert (bits h = status_frame) as Hb' by exact Hb. eexists _, _. split.
    + cbn -[status_frame]. rewrite bool_decide_true by done. done.
    + cbn -[status_frame]. split; [by destruct (busy h)|]. unfold sim_chip. cbn in *. by rewrite Hb', Hs.
  - intros h _ Hb. assert (bits h = []) as Hb' by exact Hb. eexists _, _. split.
    + cbn -[status_frame]. rewrite bool_decide_false; [done|]. rewrite Hb'. by vm_compute.
    + done.
Defined.

Definition sim_flash : bus := Chip [] (fun _ => 0xff) false 0 false.

Lemma sim_at_rest : at_rest sim_flash.
Proof. split; [|done]. split; [by left|done|done]. Qed.

Lemma sim_polls : (wait < 4)%nat.
Proof. cbn. lia. Qed.

Definition sim_dev : cyg_flash_dev :=
  FlashDev ATHR_FLASH_START (ATHR_FLASH_START + ATHR_FLASH_SIZE) cyg_flash_qca953x_block_info 0 true false None.

#[local] Notation sim_driver := (cyg_devs_flash_spi_qca953x_funs 4).

Lemma qca_erase_ok_witness :
  wp (@flash_erase_block sim_driver 0 0x9f001000) (fun r h' => r = CYG_FLASH_ERR_OK /\ at_rest h' /\
    forall a, @cell sim_driver h' a = if (0x9f001000 <=? a) && (a <? 0x9f001000 + 0x1000) then 0xff
                                      else @cell sim_driver sim_flash a) sim_flash.
Proof. apply (qca_erase_ok 4 sim_polls 0 sim_dev 0x9f001000 0x1000); [apply sim_at_rest|done|by vm_compute]. Defined.

Lemma qca_program_ok_witness :
  wp (@flash_program sim_driver 0 0x9f001100 [1; 2; 3]%Z) (fun r h' => r = CYG_FLASH_ERR_OK /\ at_rest h' /\
    forall a, @cell sim_driver h' a =
      if 0x9f001100 <=? a
      then match [1; 2; 3]%Z !! Z.to_nat (a - 0x9f001100) with
           | Some x => Z.land (@cell sim_driver sim_flash a) x
           | None => @cell sim_driver sim_flash a
           end
      else @cell sim_driver sim_flash a) sim_flash.
Proof.
  apply (qca_program_ok 4 sim_polls 0 sim_dev 0x9f001100 0x9f001000 0x1000);
    [apply sim_at_rest|done|by vm_compute|done|cbn; lia|by repeat constructor].
Defined.

(** Behind the first page the driver still counts the page from the first address:
    a range that begins within a page is not programmed where a later page ends, and
    success is reported. *)
Lemma unaligned_program_wraps :
  match qca953x_program 4 0x9f000040 (repeat 0 460) sim_flash with
  | Some (r, h') => Some (r, @cell sim_driver h' 0x9f0001ff, @cell sim_driver h' 0x9f000200)
  | None => None
  end = Some (CYG_FLASH_ERR_OK, 0, 0xff).
Proof. vm_compute. reflexivity. Qed.

(** The address behind the last sector belongs to the device but to no block of it. *)
Lemma last_address_has_no_block :
  ATHR_FLASH_START + ATHR_FLASH_SIZE <= end_ sim_dev /\
  flash_block_begin (ATHR_FLASH_START + ATHR_FLASH_SIZE) sim_dev = None.
Proof. split; [cbn; lia|reflexivity]. Qed.
