(* ===== verification/NwFlash.v ===== *)
(** * The configuration on the flash of the board

    The platform of the configuration code ([NwConf.Platform]) built from the flash
    package over the driver of the QCA953x: one device, and the configuration in the
    last sector but one. Whatever was proved for a platform that keeps [FlashLaws]
    holds here, and here the flash does not fail. *)
From S2P Require Import Prelude.
From S2P Require Import CStr.
From S2P Require Import NwAddr.
From S2P Require Import NwStruct.
From S2P Require Import NwConf.
From S2P Require Import NwConfSpec.
From S2P Require Import Flash.
From S2P Require Import FlashList.
From S2P Require Import FlashSpec.
From S2P Require Import FlashInit.
From S2P Require Import QcaFlash.
From S2P Require Import QcaFlashSpec.

Definition CONFIG_DATA_ADDR : Z := ATHR_FLASH_START + ATHR_FLASH_SIZE - 2 * ATHR_FLASH_SECTOR.

Lemma pad_sector_ok bs : length (pad_sector bs) = SECTOR_SIZE /\ Forall is_byte (pad_sector bs).
Proof. split; [apply (flash_length (P := ram_platform 0))|apply (flash_bytes (P := ram_platform 0))]. Qed.

Definition read_length (buf : list byte) : nat := Nat.max 1 (Nat.min (length buf) SECTOR_SIZE).

Lemma read_length_ok buf : (0 < read_length buf <= SECTOR_SIZE)%nat.
Proof. unfold read_length, SECTOR_SIZE. lia. Qed.

Section Stack.
Context `{C : SpiNor} (poll_fuel : nat) (Hpoll : (wait < poll_fuel)%nat).

#[local] Instance board_driver : FlashDriver := cyg_devs_flash_spi_qca953x_funs poll_fuel.
#[local] Instance board_laws : DriverLaws board_driver := qca_laws poll_fuel Hpoll.

(** The package before and after its initialisation. *)
Definition stack_ok (s : flash_sys) : Prop :=
  at_boot true s \/ sys_ok true s /\ exists d, has s 0 d.

Definition sector (s : flash_sys) : list byte := cells (hw s) CONFIG_DATA_ADDR SECTOR_SIZE.

Lemma stack_ready s : sys_ok true s -> (exists d, has s 0 d) ->
  forall base len, ATHR_FLASH_START <= base -> base + len <= ATHR_FLASH_START + ATHR_FLASH_SIZE -> covered_range s base len.
Proof using Type*.
  intros Hs [d Hd] base len H1 H2 a Ha. exists 0%nat, d. split; [done|].
  destruct (sys_dev _ _ Hs _ _ Hd) as (_ & Hg & _). injection Hg as E1 _ E3. unfold covered. rewrite E1, E3.
  cbn [total foldr cyg_flash_qca953x_block_info blocks block_size]. unfold ATHR_FLASH_START, ATHR_FLASH_SIZE, ATHR_FLASH_SECTOR in *.
  change (1048576 / 4096) with 256. lia.
Qed.

Lemma stack_length s : stack_ok s -> length (cyg_flashdevtab s) = 1%nat.
Proof using Type*. intros [H|[H _]]; [by apply (boot_single true)|by apply (sys_list true)]. Qed.

Lemma sector_same s s' : (forall a, cell (hw s') a = cell (hw s) a) -> sector s' = sector s.
Proof using Type*. intros H. by apply cells_same. Qed.

Lemma stack_init s : stack_ok s ->
  wp (Flash.cyg_flash_init true 0) (fun r s' => r = 0 /\ sys_ok true s' /\ (exists d, has s' 0 d) /\ sector s' = sector s) s.
Proof using Type*.
  intros [Hb|[Hs Hd]].
  - eapply wp_mono; [by apply flash_init_spec|]. cbn beta. intros r s' (Hl & Hc & [(-> & Hs & Hall)|([=] & _)]).
    split; [done|]. split; [done|]. split; [|by apply sector_same]. rewrite (boot_single _ _ Hb) in Hl by done.
    destruct (lookup_lt_is_Some_2 (cyg_flashdevtab s') 0 ltac:(lia)) as [d Hd]. by destruct (Hall 0%nat d Hd); [exists d|].
  - eapply wp_mono; [apply init_again; [by apply (sys_ready true)|by apply (sys_free true)]|].
    cbn beta. intros r s' [-> ->]. cbn [Z.eqb]. rewrite list_fmap_id. split; [done|]. destruct s. done.
Qed.

(** Operations before the package is ready. *)
Lemma not_ready s a : at_boot true s -> wp (find_dev true a) (fun r s' => s' = s /\ r = inl CYG_FLASH_ERR_NOT_INIT) s.
Proof using Type*. intros Hb. unfold find_dev. apply wp_get. rewrite (boot_ready _ _ Hb). by apply wp_ret. Qed.

Lemma stack_hw s h : sys_ok true s -> (exists d, has s 0 d) -> drv_ok h -> stack_ok (set_hw h s).
Proof using Type*. intros Hs [d Hd] Hh. right. split; [by apply sys_ok_hw|by exists d]. Qed.

(** What an operation on a flash that is not initialised does, and on one that is. *)
Definition stack_post (s : flash_sys) (P : flash_sys -> Prop) (r : Z) (s' : flash_sys) : Prop :=
  stack_ok s' /\ flash_ready s' = flash_ready s /\ (flash_ready s = true -> r = 0) /\ (r = 0 -> P s').

(** The configuration sector is a block of the device. *)
Lemma sector_block s d : sys_ok true s -> has s 0 d -> block_of d CONFIG_DATA_ADDR = Some (CONFIG_DATA_ADDR, 0x1000).
Proof using Type*.
  intros Hs Hd. destruct (sys_dev _ _ Hs _ _ Hd) as (_ & Hg & _). injection Hg as E1 _ E3.
  unfold block_of. by rewrite E1, E3.
Qed.

Lemma sector_touched s a : sys_ok true s -> (exists d, has s 0 d) ->
  CONFIG_DATA_ADDR <= a < CONFIG_DATA_ADDR + 0x1000 -> touched s CONFIG_DATA_ADDR 1 a.
Proof using Type*.
  intros Hs [d Hd] Ha. exists 0%nat, d. split; [done|]. exists CONFIG_DATA_ADDR, CONFIG_DATA_ADDR, 0x1000.
  split; [lia|]. split; [by apply (sector_block s)|done].
Qed.

Lemma sector_lookup s k : (k < SECTOR_SIZE)%nat -> sector s !! k = Some (cell (hw s) (CONFIG_DATA_ADDR + Z.of_nat k)).
Proof using Type*.
  intros Hk. unfold sector. rewrite cells_lookup by done. do 2 f_equal. apply uwrap_small.
  unfold SECTOR_SIZE in Hk. unfold CONFIG_DATA_ADDR, ATHR_FLASH_START, ATHR_FLASH_SIZE, ATHR_FLASH_SECTOR. lia.
Qed.

Lemma sector_length s : length (sector s) = SECTOR_SIZE.
Proof using Type*. apply length_cells. Qed.

Lemma stack_erase s : stack_ok s ->
  wp (Flash.cyg_flash_erase true 2 true CONFIG_DATA_ADDR 1) (fun '(r, err) s' =>
    stack_post s (fun s' => sector s' = replicate SECTOR_SIZE 0xff) r s') s.
Proof using Type*.
  intros [Hb|[Hs Hd]].
  - cbn [Flash.cyg_flash_erase]. apply wp_bind. eapply wp_mono; [by apply not_ready|]. cbn beta.
    intros r s' [-> ->]. apply wp_ret. split; [by left|]. split; [done|]. by rewrite (boot_ready _ _ Hb).
  - pose proof (stack_length s (or_intror (conj Hs Hd))) as Hl. eapply wp_mono.
    { apply flash_erase_spec; [done|lia|done|done|by apply stack_ready|lia]. }
    intros [r err] s' (h' & -> & [P1 P2 P3 PF P4]). split; [by apply stack_hw|]. split; [done|]. split.
    + intros _. destruct (decide (r = CYG_FLASH_ERR_OK)); [done|]. by destruct PF.
    + intros ->. apply list_eq. intros k. destruct (decide (k < SECTOR_SIZE)%nat) as [Hk|Hk].
      * rewrite sector_lookup, lookup_replicate_2 by done. f_equal. apply P3; [done|].
        apply sector_touched; [done|done|]. unfold SECTOR_SIZE in Hk. lia.
      * rewrite !lookup_ge_None_2; [done|rewrite length_replicate; lia|rewrite sector_length; lia].
Qed.

Lemma stack_program bs s : length bs = SECTOR_SIZE -> Forall is_byte bs -> stack_ok s ->
  wp (Flash.cyg_flash_program true 2 true CONFIG_DATA_ADDR bs (Z.of_nat SECTOR_SIZE)) (fun '(r, err) s' =>
    stack_post s (fun s' => sector s' = zip_with Z.land (sector s) bs) r s') s.
Proof using Type*.
  intros Hl Hby [Hb|[Hs Hd]].
  - cbn [Flash.cyg_flash_program]. apply wp_bind. eapply wp_mono; [by apply not_ready|]. cbn beta.
    intros r s' [-> ->]. apply wp_ret. split; [by left|]. split; [done|]. by rewrite (boot_ready _ _ Hb).
  - pose proof (stack_length s (or_intror (conj Hs Hd))) as Hlen. eapply wp_mono.
    { apply flash_program_spec; [done|done|done|done|by apply stack_ready| |by rewrite Hl|done|lia].
      intros i d _ _. done. }
    intros [r err] s' (h' & -> & [P1 P2 P3 PF P4]). split; [by apply stack_hw|]. split; [done|]. split.
    + intros _. destruct (decide (r = CYG_FLASH_ERR_OK)); [done|]. by destruct PF.
    + intros ->. rewrite Nat2Z.id, take_ge in P3 by lia. apply list_eq. intros k.
      rewrite lookup_zip_with. destruct (decide (k < SECTOR_SIZE)%nat) as [Hk|Hk].
      * rewrite !sector_lookup by done. destruct (lookup_lt_is_Some_2 bs k ltac:(lia)) as [x Hx].
        rewrite Hx. cbn [mbind option_bind]. f_equal. by apply P3.
      * by rewrite (lookup_ge_None_2 (sector (set_hw h' s))), (lookup_ge_None_2 (sector s)) by (rewrite sector_length; lia).
Qed.

Lemma stack_read n s : (0 < n <= SECTOR_SIZE)%nat -> stack_ok s ->
  wp (Flash.cyg_flash_read true false 2 true CONFIG_DATA_ADDR (Z.of_nat n)) (fun '(r, err, ram) s' =>
    sector s' = sector s /\ stack_post s (fun _ => ram = take n (sector s)) r s') s.
Proof using Type*.
  intros Hn [Hb|[Hs Hd]].
  - cbn [Flash.cyg_flash_read]. apply wp_bind. eapply wp_mono; [by apply not_ready|]. cbn beta.
    intros r s' [-> ->]. apply wp_ret. split; [done|]. split; [by left|]. split; [done|]. by rewrite (boot_ready _ _ Hb).
  - pose proof (stack_length s (or_intror (conj Hs Hd))) as Hlen. unfold SECTOR_SIZE in Hn. eapply wp_mono.
    { apply flash_read_spec; [done|lia|done| |apply stack_ready; try done|by left|lia];
        unfold CONFIG_DATA_ADDR, ATHR_FLASH_START, ATHR_FLASH_SIZE, ATHR_FLASH_SECTOR; lia. }
    intros [[r err] ram] s' (h' & -> & [P1 P2 P3 PF P4]). split; [by apply sector_same|]. split; [by apply stack_hw|]. split; [done|]. split.
    + intros _. destruct (decide (r = CYG_FLASH_ERR_OK)); [done|]. by destruct PF.
    + intros ->. rewrite (P3 eq_refl), Nat2Z.id. unfold sector.
      assert (exists m, SECTOR_SIZE = (n + m)%nat) as [m ->].
      { exists (Z.to_nat 4096 - n)%nat. unfold SECTOR_SIZE. lia. }
      by rewrite cells_add, take_app_length' by (symmetry; apply length_cells).
Qed.

(** ** The platform *)
Definition stack : Type := { s : flash_sys | stack_ok s }.

Definition returns {A} (o : option (A * flash_sys)) : Prop := exists a s', o = Some (a, s') /\ stack_ok s'.

Lemma returns_some {A} (p : A * flash_sys) : returns (Some p) -> stack_ok (snd p).
Proof using. by intros (a & s' & [= ->] & H). Qed.

Lemma returns_none {A} : returns (@None (A * flash_sys)) -> False.
Proof using. by intros (a & s' & E & H). Qed.

(** An operation that always returns, from a state of the stack to one. *)
Definition run {A} (m : M flash_sys A) (H : forall s, stack_ok s -> returns (m s)) (f : stack) : A * stack :=
  match m (proj1_sig f) as o return returns o -> A * stack with
  | Some p => fun E => (fst p, exist _ (snd p) (returns_some p E))
  | None => fun E => False_rect _ (returns_none E)
  end (H (proj1_sig f) (proj2_sig f)).

Lemma run_spec {A} (m : M flash_sys A) H (Q : A -> flash_sys -> Prop) f :
  wp m Q (proj1_sig f) -> Q (fst (run m H f)) (proj1_sig (snd (run m H f))).
Proof using.
  intros (a & s' & E & HQ). unfold run. generalize (H (proj1_sig f) (proj2_sig f)). rewrite E. intros e. exact HQ.
Qed.

(** The flash package as the platform of the configuration code; the functions of the
    firewall are parameters. A sector is programmed, and at most a sector is read. *)
Context (fw_state : Type) (ipfw : Z -> list cstring -> fw_state -> Z * list cstring * fw_state)
  (nat_config : Z -> Z -> list cstring -> fw_state -> Z * list cstring * fw_state)
  (enable_dmz disable_dmz : fw_state -> Z * fw_state).

(** The calls of the configuration code. *)
Definition init_m : M flash_sys Z := Flash.cyg_flash_init true 0.
Definition erase_m : M flash_sys (Z * option Z) := Flash.cyg_flash_erase true 2 true CONFIG_DATA_ADDR 1.
Definition program_m (bs : list byte) : M flash_sys (Z * option Z) :=
  Flash.cyg_flash_program true 2 true CONFIG_DATA_ADDR (pad_sector bs) (Z.of_nat SECTOR_SIZE).
Definition read_m (buf : list byte) : M flash_sys (Z * option Z * list byte) :=
  Flash.cyg_flash_read true false 2 true CONFIG_DATA_ADDR (Z.of_nat (read_length buf)).

Lemma init_returns s : stack_ok s -> returns (init_m s).
Proof using Type*.
  intros Hs. destruct (stack_init s Hs) as (r & s' & E & _ & Hs' & Hd & _). exists r, s'. split; [done|]. by right.
Qed.

Lemma erase_returns s : stack_ok s -> returns (erase_m s).
Proof using Type*. intros Hs. destruct (stack_erase s Hs) as ([r err] & s' & E & Hs' & _). by exists (r, err), s'. Qed.

Lemma program_returns bs s : stack_ok s ->
  returns (program_m bs s).
Proof using Type*.
  intros Hs. destruct (pad_sector_ok bs) as [Hl Hb].
  destruct (stack_program _ s Hl Hb Hs) as ([r err] & s' & E & Hs' & _). by exists (r, err), s'.
Qed.

Lemma read_returns buf s : stack_ok s ->
  returns (read_m buf s).
Proof using Type*.
  intros Hs. destruct (stack_read _ s (read_length_ok buf) Hs) as ([[r err] ram] & s' & E & _ & Hs' & _).
  by exists (r, err, ram), s'.
Qed.

#[export] Instance board_platform : Platform := {|
  flash_state := stack;
  NwConf.fw_state := fw_state;
  flash_memory f := sector (proj1_sig f);
  NwConf.cyg_flash_init := run init_m init_returns;
  NwConf.cyg_flash_erase f :=
    let '((r, _), f) := run erase_m erase_returns f in (r, f);
  NwConf.cyg_flash_program bs f :=
    let '((r, _), f) := run (program_m bs)
                          (program_returns bs) f in (r, f);
  NwConf.cyg_flash_read buf f :=
    let '((r, _, ram), f) := run (read_m buf)
                               (read_returns buf) f in (r, if r =? 0 then take (length buf) ram else buf, f);
  ecosap_nw_ipfw_rules_config := ipfw;
  ecosap_nw_nat_config := nat_config;
  enable_dmz_ipfw_rule := enable_dmz;
  disable_dmz_ipfw_rule := disable_dmz |}.

Lemma init_run f (r := fst (run init_m init_returns f))
    (f' := snd (run init_m init_returns f)) :
  r = 0 /\ flash_ready (proj1_sig f') = true /\ sector (proj1_sig f') = sector (proj1_sig f).
Proof using Type*.
  destruct (run_spec _ init_returns _ f (stack_init _ (proj2_sig f))) as (H1 & Hs & _ & H2).
  split; [done|]. split; [|done]. by apply (sys_ready true).
Qed.

Lemma erase_run f (r := fst (fst (run erase_m erase_returns f)))
    (f' := snd (run erase_m erase_returns f)) :
  stack_post (proj1_sig f) (fun s' => sector s' = replicate SECTOR_SIZE 0xff) r (proj1_sig f').
Proof using Type*.
  pose proof (run_spec _ erase_returns _ f (stack_erase _ (proj2_sig f))) as H. subst r f'.
  destruct (run _ erase_returns f) as [[r err] f']. exact H.
Qed.

Lemma program_run bs f (m := program_m bs)
    (r := fst (fst (run m (program_returns bs) f))) (f' := snd (run m (program_returns bs) f)) :
  stack_post (proj1_sig f) (fun s' => sector s' = zip_with Z.land (sector (proj1_sig f)) (pad_sector bs)) r (proj1_sig f').
Proof using Type*.
  destruct (pad_sector_ok bs) as [Hl Hb].
  pose proof (run_spec _ (program_returns bs) _ f (stack_program _ _ Hl Hb (proj2_sig f))) as H. subst r f' m.
  destruct (run _ (program_returns bs) f) as [[r err] f']. exact H.
Qed.

Lemma read_run buf f (m := read_m buf)
    (r := fst (fst (fst (run m (read_returns buf) f)))) (ram := snd (fst (run m (read_returns buf) f)))
    (f' := snd (run m (read_returns buf) f)) :
  sector (proj1_sig f') = sector (proj1_sig f) /\
  stack_post (proj1_sig f) (fun _ => ram = take (read_length buf) (sector (proj1_sig f))) r (proj1_sig f').
Proof using Type*.
  pose proof (run_spec _ (read_returns buf) _ f (stack_read _ _ (read_length_ok buf) (proj2_sig f))) as H. subst r f' ram m.
  destruct (run _ (read_returns buf) f) as [[[r err] ram] f']. exact H.
Qed.

Lemma pad_sector_id bs : length bs = SECTOR_SIZE -> Forall is_byte bs -> pad_sector bs = bs.
Proof using. intros Hl Hb. by apply (NwConf.program_ok (P := ram_platform 0) bs [] (replicate SECTOR_SIZE 0xff) bs). Qed.

#[export] Instance board_flash_laws : FlashLaws board_platform.
Proof using Type*.
  constructor.
  - intros f. apply sector_length.
  - intros f. apply cells_bytes. destruct (proj2_sig f) as [Hb|[Hs _]]; [apply (boot_drv _ _ Hb)|apply (sys_drv _ _ Hs)].
  - intros f. apply init_run.
  - intros bs f f1 f2 He Hp Hl Hb. cbn -[run init_m erase_m program_m read_m] in He, Hp.
    pose proof (erase_run f) as (_ & _ & _ & H1). destruct (run _ erase_returns f) as [[r err] f1'].
    injection He as -> ->. specialize (H1 eq_refl).
    pose proof (program_run bs f1) as (_ & _ & _ & H2). destruct (run _ (program_returns bs) f1) as [[r2 err2] f2'].
    injection Hp as -> ->. specialize (H2 eq_refl). cbn -[run init_m erase_m program_m read_m] in H1, H2 |- *. rewrite H2, H1, pad_sector_id by done.
    clear -Hl Hb. revert Hb. rewrite <- Hl. clear Hl. induction bs as [|b bs IH]; intros Hb; [done|].
    apply Forall_cons in Hb as [Hb Hbs]. cbn [length replicate zip_with]. rewrite IH by done. f_equal.
    rewrite Z.land_comm. change 0xff with (Z.ones 8). rewrite Z.land_ones by lia. by apply Z.mod_small.
  - intros buf f. cbn -[run init_m erase_m program_m read_m]. pose proof (proj1 (read_run buf f)) as H. by destruct (run _ (read_returns buf) f) as [[[r err] ram] f1].
  - intros buf bs f f1 E. cbn -[run init_m erase_m program_m read_m] in E. pose proof (proj2 (read_run buf f)) as (_ & _ & _ & H).
    destruct (run _ (read_returns buf) f) as [[[r err] ram] f1']. injection E as E1 E2 E3. subst r bs. specialize (H eq_refl).
    cbn [fst snd] in H. rewrite Z.eqb_refl, H, take_take. cbn [flash_memory board_platform].
    destruct (decide (length buf <= SECTOR_SIZE)%nat).
    + f_equal. unfold read_length. lia.
    + rewrite !take_ge; [done|rewrite sector_length; lia|]. rewrite sector_length. unfold read_length.
      unfold SECTOR_SIZE in *. lia.
Qed.

(** The flash of the board writes and reads without errors. *)
Lemma board_writes : @flash_writes board_platform.
Proof using Type*.
  split.
  - intros f. apply init_run.
  - intros f f1 E. destruct (init_run f) as (_ & Hr & _). cbn -[run init_m erase_m program_m read_m] in E. destruct (run _ init_returns f) as [r f1'].
    injection E as _ ->. cbn -[run init_m erase_m program_m read_m] in Hr |- *. pose proof (erase_run f1) as (_ & _ & H & _).
    destruct (run _ erase_returns f1) as [[r1 err] f2]. by apply H.
  - intros bs f f1 f2 E E2 _ _. destruct (init_run f) as (_ & Hr & _). cbn -[run init_m erase_m program_m read_m] in E. destruct (run _ init_returns f) as [r f1'].
    injection E as _ ->. cbn -[run init_m erase_m program_m read_m] in Hr, E2 |- *. pose proof (erase_run f1) as (_ & Hr2 & _ & _).
    destruct (run _ erase_returns f1) as [[r1 err] f2']. injection E2 as _ ->. cbn -[run init_m erase_m program_m read_m] in Hr2.
    pose proof (program_run bs f2) as (_ & _ & H & _). destruct (run _ (program_returns bs) f2) as [[r2 err2] f3].
    apply H. by rewrite Hr2.
Qed.

Lemma board_reads : @flash_reads board_platform.
Proof using Type*.
  intros buf f f1 E _. destruct (init_run f) as (_ & Hr & _). cbn -[run init_m erase_m program_m read_m] in E. destruct (run _ init_returns f) as [r f1'].
  injection E as _ ->. cbn -[run init_m erase_m program_m read_m] in Hr |- *. pose proof (proj2 (read_run buf f1)) as (_ & _ & H & _).
  destruct (run _ (read_returns buf) f1) as [[[r1 err] ram] f2]. by apply H.
Qed.

(** C8: a configuration saved by write_nw_flash is the configuration both copies have
    after the next start, whatever memory holds before it, as long as malloc does not
    fail: on the way through the flash package, the driver of the QCA953x and the pins
    of its controller to the cells of the serial flash and back. *)
Theorem config_survives_reboot (s : @nw board_platform) :
  heap_ok s = true -> fit conf_codec (new_cfg s) = true ->
  Magic_Number (NwStruct.head (new_cfg s)) = CONFIG_MAGIC_NUM -> small_vlans (new_cfg s) ->
  wp write_nw_flash (fun _ s1 =>
    forall s2 : @nw board_platform, fit conf_codec (cfg s2) = true ->
      sector (proj1_sig (flash s2)) = sector (proj1_sig (flash s1)) ->
    wp ecosap_nw_default_start (fun _ s3 =>
      cfg s3 = new_cfg s /\ new_cfg s3 = new_cfg s /\
      take sizeof_config (sector (proj1_sig (flash s3))) = enc conf_codec (new_cfg s)) s2) s.
Proof using Type*.
  intros Hh Hf Hm Hv. exact (config_survives s board_writes board_reads Hh Hf Hm Hv).
Qed.
End Stack.

(** ** A simulated board *)
Definition sim_boot : @flash_sys (cyg_devs_flash_spi_qca953x_funs 4) :=
  @FlashSys (cyg_devs_flash_spi_qca953x_funs 4) false [cyg_flash_qca953x_flashdev] None sim_flash.

Lemma sim_stack_ok : stack_ok 4 sim_polls sim_boot.
Proof.
  left. split; [done|done|apply sim_at_rest|by repeat constructor| |done].
  intros i d Hd. destruct i as [|i]; [by injection Hd as <-|done].
Qed.

#[local] Instance sim_platform : Platform :=
  board_platform 4 sim_polls unit (fun ac args w => (0, args, w)) (fun ff ac args w => (0, args, w))
    (fun w => (0, w)) (fun w => (0, w)).

Definition sim_nw : @nw sim_platform :=
  @Nw sim_platform factory_config factory_config (LanConfig [] [] []) [] 0 (replicate 16 []) false false true
    (exist _ sim_boot sim_stack_ok) tt.

Lemma config_survives_reboot_witness :
  wp write_nw_flash (fun _ s1 =>
    forall s2 : @nw sim_platform, fit conf_codec (cfg s2) = true ->
      sector 4 (proj1_sig (flash s2)) = sector 4 (proj1_sig (flash s1)) ->
    wp ecosap_nw_default_start (fun _ s3 =>
      cfg s3 = new_cfg sim_nw /\ new_cfg s3 = new_cfg sim_nw /\
      take sizeof_config (sector 4 (proj1_sig (flash s3))) = enc conf_codec (new_cfg sim_nw)) s2) sim_nw.
Proof. apply config_survives_reboot; [done|by vm_compute|done|by left]. Defined.
