(* ===== verification/IoSys.v ===== *)
(** * The I/O system

    io/common/current/src/iosys.c and include/devtab.h: the table of devices, the
    search for a device by its name and the calls that pass a request on to the
    functions of a device. A handle is the address of an entry: one of the table, or
    one of those a driver keeps for the parts of its device. The state the drivers
    work on and the buffers of configuration requests are parameters. *)
From S2P Require Import Prelude CStr.

Definition EDEVNOSUPP : Z := 202.
Definition CYG_DEVTAB_STATUS_AVAIL : Z := 0x0001.
Definition CYG_DEVTAB_STATUS_BLOCK : Z := 0x2000.

(** The entry of the table with a given index, or of its private ones. *)
Record cyg_io_handle_t := Handle { dev : nat; sub : option nat }.

Section IoSys.
Context {St Cfg : Type}.

(** The functions of a device; a null pointer is [None]. [len] is the pointer the
    caller passed, which may be null; results are the error code, what the length
    is then and, where the request fills it, the buffer. *)
Record cyg_devio_table_t := DevioTable {
  write : option (cyg_io_handle_t -> list byte -> option Z -> M St (Z * option Z));
  read : option (cyg_io_handle_t -> list byte -> option Z -> M St (Z * option Z * list byte));
  bwrite : option (cyg_io_handle_t -> list byte -> option Z -> Z -> M St (Z * option Z));
  bread : option (cyg_io_handle_t -> list byte -> option Z -> Z -> M St (Z * option Z * list byte));
  select : option (cyg_io_handle_t -> Z -> Z -> M St Z);
  get_config : option (cyg_io_handle_t -> Z -> Cfg -> option Z -> M St (Z * option Z * Cfg));
  set_config : option (cyg_io_handle_t -> Z -> Cfg -> option Z -> M St (Z * option Z)) }.

(** An entry of the table, less the word [status], which changes. *)
Record cyg_devtab_entry_t := DevtabEntry {
  name : cstring;
  dep_name : option cstring;
  handlers : cyg_devio_table_t;
  init : cyg_io_handle_t -> M St bool;
  (** The entry, the one it depends on, the rest of the name: an error or a handle. *)
  lookup : option (cyg_io_handle_t -> option cyg_io_handle_t -> cstring -> M St (Z * cyg_io_handle_t)) }.

(** ** Default functions *)
Definition cyg_devio_cwrite (h : cyg_io_handle_t) (buf : list byte) (len : option Z) :
    M St (Z * option Z) := mret (- EDEVNOSUPP, len).
Definition cyg_devio_cread (h : cyg_io_handle_t) (buf : list byte) (len : option Z) :
    M St (Z * option Z * list byte) := mret (- EDEVNOSUPP, len, buf).
Definition cyg_devio_bwrite (h : cyg_io_handle_t) (buf : list byte) (len : option Z) (pos : Z) :
    M St (Z * option Z) := mret (- EDEVNOSUPP, len).
Definition cyg_devio_bread (h : cyg_io_handle_t) (buf : list byte) (len : option Z) (pos : Z) :
    M St (Z * option Z * list byte) := mret (- EDEVNOSUPP, len, buf).
Definition cyg_devio_select (h : cyg_io_handle_t) (which info : Z) : M St Z := mret (- EDEVNOSUPP).
Definition cyg_devio_get_config (h : cyg_io_handle_t) (key : Z) (buf : Cfg) (len : option Z) :
    M St (Z * option Z * Cfg) := mret (- EDEVNOSUPP, len, buf).
Definition cyg_devio_set_config (h : cyg_io_handle_t) (key : Z) (buf : Cfg) (len : option Z) :
    M St (Z * option Z) := mret (- EDEVNOSUPP, len).

Definition BLOCK_DEVIO_TABLE bwr brd sel get set : cyg_devio_table_t :=
  DevioTable (Some cyg_devio_cwrite) (Some cyg_devio_cread) (Some bwr) (Some brd)
    (Some sel) (Some get) (Some set).

(** ** Finding a device *)

(** The walk over the user's name [n1] and the entry's [n2]; [prev] is the character
    in front of [n2], undefined before the start of the entry's name. The result is
    what is left of [n1] when the names are equivalent. *)
Fixpoint compare_from (prev : option Z) (n1 n2 : cstring) : option (option cstring) :=
  match n1, n2 with
  | c1 :: n1', c2 :: n2' => if c1 =? c2 then compare_from (Some c2) n1' n2' else Some None
  | _ :: _, [] => c ← prev; Some (if c =? 47 then Some n1 else None)
  | [], _ :: _ => Some None
  | [], [] => Some (Some [])
  end.

Definition cyg_io_compare (n1 n2 : cstring) : option (option cstring) := compare_from None n1 n2.

(** The entry of a handle: the private entries of a device are copies of its own, but
    for [priv]. *)
Definition entry_of (devtab : list cyg_devtab_entry_t) (h : cyg_io_handle_t) : option cyg_devtab_entry_t :=
  devtab !! dev h.

(** The first entry that matches from index [i] on, and the rest of the name. *)
Fixpoint find_devtab (n : cstring) (i : nat) (devtab : list cyg_devtab_entry_t) :
    option (option (nat * cyg_devtab_entry_t * cstring)) :=
  match devtab with
  | [] => Some None
  | t :: devtab' =>
      r ← cyg_io_compare n (name t);
      match r with
      | Some ptr => Some (Some (i, t, ptr))
      | None => find_devtab n (S i) devtab'
      end
  end.

(** [fuel] bounds the depth of the dependencies. *)
Fixpoint cyg_io_lookup (devtab : list cyg_devtab_entry_t) (fuel : nat) (n : cstring) :
    M St (Z * option cyg_io_handle_t) :=
  match fuel with
  | O => crash
  | S fuel' =>
      match find_devtab n 0 devtab with
      | None => crash
      | Some None => mret (- ENOENT, None)
      | Some (Some (i, t, ptr)) =>
          '(res, st) ← match dep_name t with
                       | Some d => cyg_io_lookup devtab fuel' d
                       | None => mret (ENOERR, None)
                       end;
          if negb (res =? ENOERR) then mret (res, None)
          else
            match lookup t with
            | None => mret (ENOERR, Some (Handle i None))
            | Some f =>
                '(res, h) ← f (Handle i None) st ptr;
                if negb (res =? ENOERR) then mret (res, None) else mret (ENOERR, Some h)
            end
      end
  end.

(** ** Passing requests on *)

(** [if (NULL != len && 0 == *len) return ENOERR] *)
Definition no_length (len : option Z) : bool := match len with Some l => l =? 0 | None => false end.

(** The function of an entry, if it has it; a handle that is none is undefined. *)
Definition method {A F} (devtab : list cyg_devtab_entry_t) (h : cyg_io_handle_t)
    (get : cyg_devio_table_t -> option F) (missing : A) (call : F -> M St A) : M St A :=
  match entry_of devtab h with
  | None => crash
  | Some t => match get (handlers t) with None => mret missing | Some f => call f end
  end.

Definition cyg_io_write devtab h (buf : list byte) (len : option Z) : M St (Z * option Z) :=
  method devtab h write (- EDEVNOSUPP, len) (fun f =>
    if no_length len then mret (ENOERR, len) else f h buf len).

Definition cyg_io_read devtab h (buf : list byte) (len : option Z) : M St (Z * option Z * list byte) :=
  method devtab h read (- EDEVNOSUPP, len, buf) (fun f =>
    if no_length len then mret (ENOERR, len, buf) else f h buf len).

Definition cyg_io_bwrite devtab h (buf : list byte) (len : option Z) (pos : Z) : M St (Z * option Z) :=
  method devtab h bwrite (- EDEVNOSUPP, len) (fun f =>
    if no_length len then mret (ENOERR, len) else f h buf len pos).

Definition cyg_io_bread devtab h (buf : list byte) (len : option Z) (pos : Z) :
    M St (Z * option Z * list byte) :=
  method devtab h bread (- EDEVNOSUPP, len, buf) (fun f =>
    if no_length len then mret (ENOERR, len, buf) else f h buf len pos).

Definition cyg_io_select devtab h (which info : Z) : M St Z :=
  method devtab h select (- EDEVNOSUPP) (fun f => f h which info).

Definition cyg_io_get_config devtab h (key : Z) (buf : Cfg) (len : option Z) : M St (Z * option Z * Cfg) :=
  method devtab h get_config (- EDEVNOSUPP, len, buf) (fun f =>
    if no_length len then mret (ENOERR, len, buf) else f h key buf len).

Definition cyg_io_set_config devtab h (key : Z) (buf : Cfg) (len : option Z) : M St (Z * option Z) :=
  method devtab h set_config (- EDEVNOSUPP, len) (fun f =>
    if no_length len then mret (ENOERR, len) else f h key buf len).

(** ** Start *)

(** The words [status] of the entries and the static [_init], around the state of the
    drivers. *)
Record io_state := Io { init_done : bool; status : list Z; world : St }.

Definition on_world {A} (m : M St A) : M io_state A := fun s =>
  match m (world s) with Some (a, w) => Some (a, Io (init_done s) (status s) w) | None => None end.

Definition set_status (i : nat) (f : Z -> Z) (s : io_state) : io_state :=
  Io (init_done s) (alter f i (status s)) (world s).

Fixpoint init_devices (i : nat) (devtab : list cyg_devtab_entry_t) : M io_state unit :=
  match devtab with
  | [] => mret tt
  | t :: devtab' =>
      ok ← on_world (init t (Handle i None));
      modify (set_status i (fun st =>
        if ok : bool then Z.lor st CYG_DEVTAB_STATUS_AVAIL
        else Z.land st (Z.lnot CYG_DEVTAB_STATUS_AVAIL))) ;;
      init_devices (S i) devtab'
  end.

Definition cyg_io_init (devtab : list cyg_devtab_entry_t) : M io_state unit :=
  s ← get_state;
  if init_done s then mret tt
  else
    init_devices 0 devtab ;;
    modify (fun s => Io true (status s) (world s)).
End IoSys.
Arguments cyg_devio_table_t : clear implicits.
Arguments cyg_devtab_entry_t : clear implicits.
Arguments io_state : clear implicits.
