(* ===== verification/IoSysSpec.v ===== *)
(** * The I/O system: finding and starting devices *)
From S2P Require Import Prelude CStr IoSys.

(** When a name of the user matches the name of an entry, and what is left of it: the
    names are equal, or the entry's ends in a slash and starts the user's. *)
Definition names_match (n1 n2 ptr : cstring) : Prop :=
  n1 = n2 ++ ptr /\ (ptr = [] \/ last n2 = Some 47).

Lemma compare_from_spec n2 : forall prev n1,
  prev <> None \/ n2 <> [] ->
  exists r, compare_from prev n1 n2 = Some r /\
    forall ptr, r = Some ptr <->
      n1 = n2 ++ ptr /\ (ptr = [] \/ match last n2 with Some c => Some c | None => prev end = Some 47).
Proof.
  induction n2 as [|c2 n2 IH]; intros prev n1 Hp; destruct n1 as [|c1 n1]; cbn [compare_from app].
  - eexists. split; [done|]. intros ptr. split; [intros [= <-]; auto|]. by intros [<- _].
  - destruct prev as [c|]; [|by destruct Hp]. cbn. eexists. split; [done|].
    intros ptr. destruct (Z.eqb_spec c 47) as [->|Hne].
    + split; [intros [= <-]; auto|]. by intros [<- _].
    + split; [done|]. by intros [<- [|[= ->]]].
  - eexists. split; [done|]. intros ptr. split; [done|]. by intros [? _].
  - destruct (Z.eqb_spec c1 c2) as [->|Hne].
    + destruct (IH (Some c2) n1) as (r & Hr & Hspec); [by left|]. exists r. split; [done|].
      intros ptr. rewrite Hspec. rewrite last_cons. split.
      * intros [-> Hl]. split; [done|]. destruct Hl as [|Hl]; [by left|right]. by destruct (last n2).
      * intros [[= ->] Hl]. split; [done|]. destruct Hl as [|Hl]; [by left|right]. by destruct (last n2).
    + eexists. split; [done|]. intros ptr. split; [done|]. intros [[= ? _] _]. congruence.
Qed.

Lemma compare_spec n1 n2 :
  n2 <> [] -> exists r, cyg_io_compare n1 n2 = Some r /\ forall ptr, r = Some ptr <-> names_match n1 n2 ptr.
Proof.
  intros Hn. destruct (compare_from_spec n2 None n1) as (r & Hr & Hspec); [by right|].
  exists r. split; [done|]. intros ptr. rewrite Hspec. unfold names_match. by destruct (last n2).
Qed.

(** A name of the user is found to be the name of a device exactly when both are
    equal, or when the device's ends in a slash and is the start of it; the rest of
    the name is what follows. *)
Theorem compare_ok n1 n2 :
  n2 <> [] -> exists r, cyg_io_compare n1 n2 = Some r /\ forall ptr, r = Some ptr <-> names_match n1 n2 ptr.
Proof. apply compare_spec. Qed.

Lemma compare_ok_witness :
  exists r, cyg_io_compare (str "/dev/hd0/1") (str "/dev/hd0/") = Some r /\
    forall ptr, r = Some ptr <-> names_match (str "/dev/hd0/1") (str "/dev/hd0/") ptr.
Proof. by apply compare_ok. Defined.

Section Table.
Context {St Cfg : Type}.
Implicit Types (devtab : list (cyg_devtab_entry_t St Cfg)).

(** Entry [i] is the first whose name matches, with [ptr] left. *)
Definition first_match devtab (n : cstring) (i : nat) (ptr : cstring) : Prop :=
  (exists t, devtab !! i = Some t /\ names_match n (name t) ptr) /\
  forall j t, (j < i)%nat -> devtab !! j = Some t -> forall ptr, ~ names_match n (name t) ptr.

Definition no_match devtab (n : cstring) : Prop :=
  forall j t ptr, devtab !! j = Some t -> ~ names_match n (name t) ptr.

Lemma find_devtab_spec n devtab : forall i,
  Forall (fun t => name t <> []) devtab ->
  exists r, find_devtab n i devtab = Some r /\
    match r with
    | Some (j, t, ptr) => exists k, j = (i + k)%nat /\ devtab !! k = Some t /\ first_match devtab n k ptr
    | None => no_match devtab n
    end.
Proof.
  induction devtab as [|t devtab IH]; intros i Hn; cbn [find_devtab].
  { eexists. split; [done|]. by intros j t ptr. }
  apply Forall_cons in Hn as [Ht Hn]. destruct (compare_spec n (name t) Ht) as (r & -> & Hr). cbn.
  destruct r as [ptr|].
  - eexists. split; [done|]. exists 0%nat. split; [lia|]. split; [done|].
    split; [exists t; split; [done|by apply Hr]|]. intros j t' Hj. lia.
  - assert (forall ptr, ~ names_match n (name t) ptr) as Hno by (intros ptr H%Hr; done).
    destruct (IH (S i) Hn) as ([[[j t'] ptr]|] & -> & H).
    + destruct H as (k & -> & Hk & [Hm Hfirst]). eexists. split; [done|].
      exists (S k). split; [lia|]. split; [done|]. split; [done|].
      intros [|j] t0 Hj Hl; [cbn in Hl; by simplify_eq|]. eapply Hfirst; [|done]. lia.
    + eexists. split; [done|]. intros [|j] t0 ptr Hl; [cbn in Hl; by simplify_eq|by eapply H].
Qed.

(** The entries a name leads to through the names they depend on. *)
Inductive dep_chain devtab : cstring -> list nat -> Prop :=
  | chain_none n : no_match devtab n -> dep_chain devtab n []
  | chain_end n i ptr t :
      first_match devtab n i ptr -> devtab !! i = Some t -> dep_name t = None -> dep_chain devtab n [i]
  | chain_dep n i ptr t d l :
      first_match devtab n i ptr -> devtab !! i = Some t -> dep_name t = Some d ->
      dep_chain devtab d l -> dep_chain devtab n (i :: l).

Lemma first_match_unique devtab n i ptr j ptr' :
  first_match devtab n i ptr -> first_match devtab n j ptr' -> i = j.
Proof.
  intros [(t & Ht & Hm) Hi] [(t' & Ht' & Hm') Hj].
  destruct (Nat.lt_total i j) as [Hlt|[|Hlt]]; [|done|].
  - exfalso. by eapply Hj.
  - exfalso. by eapply Hi.
Qed.

Lemma first_match_ptr devtab n i ptr ptr' :
  first_match devtab n i ptr -> first_match devtab n i ptr' -> ptr = ptr'.
Proof.
  intros [(t & Ht & Hm & _) _] [(t' & Ht' & Hm' & _) _]. rewrite Ht in Ht'. injection Ht' as <-. rewrite Hm in Hm'. by simplify_list_eq.
Qed.

(** What follows the lookup [m] of the entry another one depends on. *)
Lemma entry_spec (t : cyg_devtab_entry_t St Cfg) i ptr m (s : St) :
  wp m (fun _ _ => True) s ->
  (forall f st s, lookup t = Some f -> wp (f (Handle i None) st ptr) (fun _ _ => True) s) ->
  wp ('(res, st) ← m;
      if negb (res =? ENOERR) then mret (res, None)
      else
        match lookup t with
        | None => mret (ENOERR, Some (Handle i None))
        | Some f =>
            '(res, h) ← f (Handle i None) st ptr;
            if negb (res =? ENOERR) then mret (res, None) else mret (ENOERR, Some h)
        end)
    (fun '(res, h) s' => res = ENOERR ->
      match lookup t with
      | None => h = Some (Handle i None)
      | Some f => exists (st : option cyg_io_handle_t) s0 h', h = Some h' /\
          f (Handle i None) st ptr s0 = Some (ENOERR, h', s')
      end) s.
Proof.
  intros Hm Hf. apply wp_bind. eapply wp_mono; [exact Hm|]. intros [res st] s1 _.
  destruct (Z.eqb_spec res ENOERR) as [->|Hne]; cbn [negb]; [|by apply wp_ret].
  destruct (lookup t) as [f|] eqn:Hl; [|by apply wp_ret].
  destruct (Hf f st s1 eq_refl) as ([res h] & s2 & Hrun & _).
  apply wp_bind. exists (res, h), s2. split; [done|].
  destruct (Z.eqb_spec res ENOERR) as [->|Hne]; cbn [negb]; apply wp_ret; [|done]. intros _. eauto.
Qed.

(** Looking up a name whose dependencies end: the search returns within a depth of
    calls that is one more than their number; a name that no entry matches gives
    -ENOENT and runs no driver; otherwise the result is an error of a driver on the way
    or the handle of the first entry that matches, which its own lookup function may
    have replaced. *)
Theorem lookup_ok devtab n l (s : St) :
  Forall (fun t => name t <> []) devtab ->
  (forall t f h st ptr s, t ∈ devtab -> lookup t = Some f -> wp (f h st ptr) (fun _ _ => True) s) ->
  dep_chain devtab n l ->
  wp (cyg_io_lookup devtab (S (length l)) n) (fun '(res, h) s' =>
    (no_match devtab n /\ res = - ENOENT /\ h = None /\ s' = s) \/
    (exists i ptr t, first_match devtab n i ptr /\ devtab !! i = Some t /\
      (res = ENOERR ->
        match lookup t with
        | None => h = Some (Handle i None)
        | Some f => exists st s0 h', h = Some h' /\ f (Handle i None) st ptr s0 = Some (ENOERR, h', s')
        end))) s.
Proof.
  intros Hn Hf Hl. revert s.
  assert (forall n i ptr t r, first_match devtab n i ptr -> devtab !! i = Some t ->
    match r with
    | Some (j, t, ptr) => exists k, j = (0 + k)%nat /\ devtab !! k = Some t /\ first_match devtab n k ptr
    | None => no_match devtab n
    end -> r = Some (i, t, ptr)) as Hfound.
  { intros n' i ptr t [[[j t'] ptr']|] Hm Ht Hr.
    - destruct Hr as (k & -> & Hk & Hm'). pose proof (first_match_unique _ _ _ _ _ _ Hm Hm') as ->.
      rewrite (first_match_ptr _ _ _ _ _ Hm Hm'). rewrite Ht in Hk. by injection Hk as ->.
    - destruct Hm as [(t' & Ht' & Hm) _]. exfalso. exact (Hr _ _ _ Ht' Hm). }
  induction Hl as [n Hno|n i ptr t Hm Ht Hd|n i ptr t d l Hm Ht Hd Hl IH]; intros s;
    cbn [cyg_io_lookup length]; destruct (find_devtab_spec n devtab 0 Hn) as (r & -> & Hr).
  - destruct r as [[[j t] ptr]|].
    + destruct Hr as (k & _ & _ & [(t' & Ht' & Hm) _]). exfalso. by eapply Hno.
    + apply wp_ret. by left.
  - rewrite (Hfound _ _ _ _ _ Hm Ht Hr), Hd. eapply wp_mono; [apply entry_spec; [by eexists _, _|]|].
    { intros f st s0 Hlk. eapply Hf; [by eapply list_elem_of_lookup_2|done]. }
    intros [res h] s' Hres. right. by exists i, ptr, t.
  - rewrite (Hfound _ _ _ _ _ Hm Ht Hr), Hd. eapply wp_mono; [apply entry_spec; [by eapply wp_mono; [apply IH|]|]|].
    { intros f st s0 Hlk. eapply Hf; [by eapply list_elem_of_lookup_2|done]. }
    intros [res h] s' Hres. right. by exists i, ptr, t.
Qed.

(** ** Starting the devices *)

(** The words of the entries after initialisations with results [oks]. *)
Definition marked (oks : list bool) (sts : list Z) : list Z :=
  zip_with (fun (ok : bool) st =>
    if ok then Z.lor st CYG_DEVTAB_STATUS_AVAIL else Z.land st (Z.lnot CYG_DEVTAB_STATUS_AVAIL)) oks sts.

(** One initialisation after the other, from entry [i] on. *)
Fixpoint inits (i : nat) devtab : M St (list bool) :=
  match devtab with
  | [] => mret []
  | t :: devtab' => ok ← init t (Handle i None); oks ← inits (S i) devtab'; mret (ok :: oks)
  end.

Lemma init_devices_spec devtab : forall i b done sts (s : St) oks s',
  length done = i -> inits i devtab s = Some (oks, s') -> length sts = length devtab ->
  init_devices i devtab (Io b (done ++ sts) s) = Some (tt, Io b (done ++ marked oks sts) s').
Proof.
  induction devtab as [|t devtab IH]; intros i b done sts s oks s' Hi Hrun Hl; cbn [inits init_devices] in *.
  - injection Hrun as <- <-. by destruct sts.
  - destruct sts as [|st sts]; [done|]. unfold mbind, M_bind in Hrun.
    destruct (init t (Handle i None) s) as [[ok s1]|] eqn:Hok; [|done].
    destruct (inits (S i) devtab s1) as [[oks' s2]|] eqn:Hin; [|done]. injection Hrun as <- <-.
    rewrite (bind_some _ _ _ ok (Io b (done ++ st :: sts) s1)) by (unfold on_world; cbn; by rewrite Hok).
    erewrite bind_some by done. unfold set_status. cbn [status init_done world].
    rewrite alter_app_r_alt, Hi, Nat.sub_diag by lia. cbn [alter list_alter].
    set (st' := if ok then _ else _). replace (done ++ st' :: sts) with ((done ++ [st']) ++ sts) by (by rewrite <- app_assoc).
    rewrite (IH (S i) b (done ++ [st']) sts s1 oks' s2); [|rewrite length_app; cbn; lia|done|by injection Hl].
    cbn. by rewrite <- app_assoc.
Qed.

(** The first call of cyg_io_init initialises every device once, in the order of
    the table, and marks those available whose initialisation succeeded, without
    touching the other bits of their words; a later call does nothing. *)
Theorem io_init_ok devtab (s : io_state St) oks w :
  init_done s = false -> length (status s) = length devtab -> inits 0 devtab (world s) = Some (oks, w) ->
  wp (cyg_io_init devtab) (fun _ s' =>
    s' = Io true (marked oks (status s)) w /\ cyg_io_init devtab s' = Some (tt, s')) s.
Proof.
  intros Hd Hl Hrun. destruct s as [b sts s]; cbn in *. unfold cyg_io_init. apply wp_get. cbn. rewrite Hd.
  pose proof (init_devices_spec devtab 0 false [] sts s oks w eq_refl Hrun Hl) as Hinit. cbn in Hinit.
  apply wp_bind. eexists _, _. split; [exact Hinit|]. by eexists _, _.
Qed.
End Table.

(** ** Two devices, one on top of the other *)
Definition log_device (nm : cstring) (dep : option cstring) (ok : bool)
    (lk : option (cyg_io_handle_t -> option cyg_io_handle_t -> cstring -> M (list nat) (Z * cyg_io_handle_t))) :
    cyg_devtab_entry_t (list nat) unit :=
  DevtabEntry nm dep (DevioTable None None None None None None None)
    (fun h l => Some (ok, l ++ [dev h])) lk.

(** Logs the lookups and gives private entry 5. *)
Definition log_lookup (h : cyg_io_handle_t) (st : option cyg_io_handle_t) (n : cstring) :
    M (list nat) (Z * cyg_io_handle_t) := fun l => Some (ENOERR, Handle (dev h) (Some 5%nat), l ++ [dev h]).

Definition log_devtab : list (cyg_devtab_entry_t (list nat) unit) :=
  [log_device (str "/dev/ser0") None false None;
   log_device (str "/dev/tty0/") (Some (str "/dev/ser0")) true (Some log_lookup)].

Lemma tty_matches : first_match log_devtab (str "/dev/tty0/x") 1 (str "x").
Proof.
  split; [eexists; split; [reflexivity|split; [reflexivity|by right]]|].
  intros [|j] t Hj Ht ptr [Hn _]; [|lia]. injection Ht as <-. discriminate Hn.
Qed.

Lemma ser_matches : first_match log_devtab (str "/dev/ser0") 0 [].
Proof. split; [eexists; split; [reflexivity|split; [reflexivity|by left]]|]. intros j t Hj. lia. Qed.

Lemma log_chain : dep_chain log_devtab (str "/dev/tty0/x") [1%nat; 0%nat].
Proof.
  eapply chain_dep; [apply tty_matches|reflexivity|reflexivity|].
  eapply chain_end; [apply ser_matches|reflexivity|reflexivity].
Qed.

Lemma lookup_ok_witness :
  wp (cyg_io_lookup log_devtab 3 (str "/dev/tty0/x")) (fun '(res, h) s' =>
    (no_match log_devtab (str "/dev/tty0/x") /\ res = - ENOENT /\ h = None /\ s' = []) \/
    (exists i ptr t, first_match log_devtab (str "/dev/tty0/x") i ptr /\ log_devtab !! i = Some t /\
      (res = ENOERR ->
        match lookup t with
        | None => h = Some (Handle i None)
        | Some f => exists st s0 h', h = Some h' /\ f (Handle i None) st ptr s0 = Some (ENOERR, h', s')
        end))) [].
Proof.
  apply (lookup_ok log_devtab (str "/dev/tty0/x") [1%nat; 0%nat]).
  - by repeat constructor.
  - intros t f h st ptr s [->|[->|[]%not_elem_of_nil]%elem_of_cons]%elem_of_cons Hl; [done|].
    injection Hl as <-. by eexists _, _.
  - apply log_chain.
Defined.

Lemma io_init_ok_witness :
  wp (cyg_io_init log_devtab) (fun _ s' =>
    s' = Io true (marked [false; true] [0x1001; 0x1000]) [0%nat; 1%nat] /\
    cyg_io_init log_devtab s' = Some (tt, s')) (Io false [0x1001; 0x1000] []).
Proof. apply (io_init_ok log_devtab (Io false [0x1001; 0x1000] []) [false; true]); reflexivity. Defined.
