(* ===== verification/Disk.v ===== *)
(** * Disks

    io/disk/current/src/disk.c with include/disk.h and include/diskio.h: the layer
    between the I/O system and the driver of a disk. It connects and disconnects the
    medium, reads the partitions from the master boot record, finds the device of a
    partition and turns requests in blocks of a partition into transfers the driver
    can make.

    The model has one disk on its controller. Its objects are shared as in the code:
    the channel of the disk, the copies of it that stand for partitions, the one
    [cyg_disk_info_t] and the one controller all of them point to. Requests are
    serialised by the controller's mutex and by [busy]; a request that finds [busy]
    set with no other request under way waits for ever, which is [crash]. The driver
    is the class [DiskDriver]. Traces and assertions are left out. *)
From S2P Require Import Prelude CStr IoSys.

Definition EWOULDBLOCK : Z := EAGAIN.

Definition CYG_IO_GET_CONFIG_DISK_INFO : Z := 0x700.
Definition CYG_IO_SET_CONFIG_DISK_MOUNT : Z := 0x781.
Definition CYG_IO_SET_CONFIG_DISK_UMOUNT : Z := 0x782.

Definition MBR_SIG_ADDR : Z := 0x1FE.
Definition MBR_SIG_BYTE0 : Z := 0x55.
Definition MBR_SIG_BYTE1 : Z := 0xAA.
Definition MBR_PART_ADDR : Z := 0x1BE.
Definition MBR_PART_SIZE : Z := 0x10.
Definition MBR_PART_NUM : nat := 4.

(** ** Data *)
Record cyg_disk_identify_t := Identify {
  serial : cstring; firmware_rev : cstring; model_num : cstring;
  cylinders_num : Z; heads_num : Z; sectors_num : Z;
  lba_sectors_num : Z; ident_phys_block_size : Z; max_transfer : Z }.

Record cyg_disk_partition_t := Partition { type : Z; state : Z; start : Z; end_ : Z; size : Z }.

(** The list holds the [partitions_num] entries of [partitions]. *)
Record cyg_disk_info_t := Info {
  partitions : list cyg_disk_partition_t; ident : cyg_disk_identify_t;
  block_size : Z; blocks_num : Z; phys_block_size : Z; connected : bool; info_mounts : Z }.

(** A pointer, an [int], the identification (71 characters and six words), three
    words, a [cyg_bool] and a counter. *)
Definition sizeof_cyg_disk_info_t : Z := 4 + 4 + (72 + 24) + 12 + 4 + 4.

Record disk_controller := Controller { result : Z; ctlr_init : bool; busy : bool }.

(** The pointers of a channel other than [partition] lead to the one controller, the
    one [cyg_disk_info_t] and so on; [partition] is an index of its table. *)
Record disk_channel := Channel {
  partition : option nat; mbr_support : bool; valid : bool; chan_init : bool; mounts : Z }.

(** What happens while a request waits for its transfer: the driver reports the end
    of it, with its result and what is in the buffer then, or that the medium is gone. *)
Inductive disk_event :=
  | TransferDone (res : Z) (buf : list byte)
  | Disconnected.

(** What configuration requests are about. *)
Inductive disk_config :=
  | CfgInfo (info : cyg_disk_info_t)
  | CfgBytes (buf : list byte).

(** [struct disk_funs], whose channel gives a driver the information on the disk;
    reading fills the buffer from its start. [funs_set_config]
    says whether it calls back [disk_disconnected] before it returns. [events] bounds
    the events that can come before a transfer ends. *)
Class DiskDriver := {
  dsk : Type;
  funs_read : cyg_disk_info_t -> list byte -> Z -> Z -> M dsk (Z * list byte);
  funs_write : cyg_disk_info_t -> list byte -> Z -> Z -> M dsk Z;
  funs_get_config : cyg_disk_info_t -> Z -> disk_config -> option Z -> M dsk (Z * option Z * disk_config);
  funs_set_config : cyg_disk_info_t -> Z -> disk_config -> option Z -> M dsk (Z * option Z * bool);
  next_event : M dsk disk_event;
  events : nat }.

(** [READ_DWORD] and [READ_CHS] at an offset of the buffer. *)
Definition READ_DWORD (data : list byte) (o : Z) : Z :=
  u32 (Z.lor (Z.lor (Z.lor (nthZ data o) (Z.shiftl (nthZ data (o + 1)) 8))
                (Z.shiftl (nthZ data (o + 2)) 16)) (Z.shiftl (nthZ data (o + 3)) 24)).

Definition READ_CHS (data : list byte) (o : Z) : Z * Z * Z :=
  (u16 (Z.lor (Z.shiftl (Z.land (nthZ data (o + 1)) (Z.lnot 0x3F)) 2) (nthZ data (o + 2))),
   nthZ data o,
   Z.land (nthZ data (o + 1)) 0x3F).

Definition CHS_TO_LBA (id : cyg_disk_identify_t) (chs : Z * Z * Z) : Z :=
  let '(c, h, s) := chs in
  u32 (u32 (u32 (u32 (c * heads_num id) + h) * sectors_num id) + s - 1).

(** The entry of the table the 16 bytes at offset [o] describe. *)
Definition read_partition (data : list byte) (o : Z) (id : cyg_disk_identify_t) : cyg_disk_partition_t :=
  let sz := READ_DWORD data (o + 12) in
  let st := READ_DWORD data (o + 8) in
  let '(st, en) :=
    if (st >? 0) && (sz >? 0) then (st, u32 (st + sz - 1))
    else (CHS_TO_LBA id (READ_CHS data (o + 1)), CHS_TO_LBA id (READ_CHS data (o + 5))) in
  Partition (nthZ data (o + 4)) (nthZ data o) st en sz.

Definition clear_type (p : cyg_disk_partition_t) : cyg_disk_partition_t :=
  Partition 0 (state p) (start p) (end_ p) (size p).

(** The loop that fills the table: the entries it has, at most [MBR_PART_NUM]. *)
Definition read_partitions (data : list byte) (id : cyg_disk_identify_t)
    (parts : list cyg_disk_partition_t) : list cyg_disk_partition_t :=
  imap (fun i p => if Nat.ltb i MBR_PART_NUM
                   then read_partition data (MBR_PART_ADDR + MBR_PART_SIZE * Z.of_nat i) id else p) parts.

Definition set_partitions ps (i : cyg_disk_info_t) := Info ps (ident i)
  (block_size i) (blocks_num i) (phys_block_size i) (connected i) (info_mounts i).
Definition set_connected b (i : cyg_disk_info_t) := Info (partitions i) (ident i)
  (block_size i) (blocks_num i) (phys_block_size i) b (info_mounts i).
Definition set_info_mounts m (i : cyg_disk_info_t) := Info (partitions i) (ident i)
  (block_size i) (blocks_num i) (phys_block_size i) (connected i) m.
Definition set_ident (id : cyg_disk_identify_t) (i : cyg_disk_info_t) := Info (partitions i) id
  512 (lba_sectors_num id) (ident_phys_block_size id) (connected i) (info_mounts i).
Definition set_valid b (c : disk_channel) :=
  Channel (partition c) (mbr_support c) b (chan_init c) (mounts c).
Definition set_chan_init b (c : disk_channel) :=
  Channel (partition c) (mbr_support c) (valid c) b (mounts c).
Definition set_mounts m (c : disk_channel) :=
  Channel (partition c) (mbr_support c) (valid c) (chan_init c) m.
Definition set_partition k (c : disk_channel) :=
  Channel k (mbr_support c) (valid c) (chan_init c) (mounts c).

Section Disk.
Context `{drvr : DiskDriver}.

Record disk := Disk {
  ctlr : disk_controller; chan : disk_channel; pdevs_chan : list disk_channel;
  info : cyg_disk_info_t; drv : dsk }.

Definition set_result r (d : disk) :=
  Disk (Controller r (ctlr_init (ctlr d)) (busy (ctlr d))) (chan d) (pdevs_chan d) (info d) (drv d).
Definition set_busy b (d : disk) :=
  Disk (Controller (result (ctlr d)) (ctlr_init (ctlr d)) b) (chan d) (pdevs_chan d) (info d) (drv d).
Definition set_ctlr_init b (d : disk) :=
  Disk (Controller (result (ctlr d)) b (busy (ctlr d))) (chan d) (pdevs_chan d) (info d) (drv d).
Definition on_info (f : cyg_disk_info_t -> cyg_disk_info_t) (d : disk) :=
  Disk (ctlr d) (chan d) (pdevs_chan d) (f (info d)) (drv d).
Definition on_pdevs (f : list disk_channel -> list disk_channel) (d : disk) :=
  Disk (ctlr d) (chan d) (f (pdevs_chan d)) (info d) (drv d).
(** The channel of the disk, [None], or of one of its partitions. *)
Definition get_chan (k : option nat) (d : disk) : option disk_channel :=
  match k with None => Some (chan d) | Some i => pdevs_chan d !! i end.
Definition on_chan (k : option nat) (f : disk_channel -> disk_channel) (d : disk) :=
  match k with
  | None => Disk (ctlr d) (f (chan d)) (pdevs_chan d) (info d) (drv d)
  | Some i => on_pdevs (alter f i) d
  end.

(** A call of the driver, and the channel a handle leads to. *)
Definition call {A} (m : M dsk A) : M disk A := fun d =>
  match m (drv d) with
  | Some (a, s) => Some (a, Disk (ctlr d) (chan d) (pdevs_chan d) (info d) s)
  | None => None
  end.

Definition with_chan (k : option nat) : M disk disk_channel := fun d =>
  match get_chan k d with Some c => Some (c, d) | None => None end.

(** What DISK_CHANNEL and DISK_CONTROLLER lay out. *)
Definition DISK_CHANNEL (mbr_supp : bool) (max_part_num : nat) (zero_ident : cyg_disk_identify_t)
    (s : dsk) : disk :=
  Disk (Controller 0 false false) (Channel None mbr_supp false false 0)
    (replicate max_part_num (Channel None false false false 0))
    (Info (replicate max_part_num (Partition 0 0 0 0 0)) zero_ident 0 0 0 false 0) s.

(** ** Waiting *)

(** [while (ctlr->busy) cyg_drv_cond_wait(&ctlr->queue)] *)
Definition wait_queue : M disk unit :=
  d ← get_state; if busy (ctlr d) then crash else mret tt.

Definition disk_transfer_done (res : Z) : M disk unit := modify (set_result res).

(** The medium is gone: no partition is left and no device of one is valid. *)
Definition unplug (k : option nat) (d : disk) : disk :=
  on_pdevs (map (set_valid false))
    (on_chan k (set_valid false)
      (on_info (fun i => set_partitions (map clear_type (partitions i)) (set_connected false i)) d)).

Definition disk_disconnected (k : option nat) : M disk Z :=
  c ← with_chan k;
  if negb (chan_init c) then mret (- EINVAL) else modify (unplug k) ;; mret ENOERR.

(** [while (ctlr->result == -EWOULDBLOCK) cyg_drv_cond_wait(&ctlr->async)] *)
Fixpoint wait_async (fuel : nat) (buf : list byte) : M disk (list byte) :=
  d ← get_state;
  if result (ctlr d) =? - EWOULDBLOCK then
    match fuel with
    | O => crash
    | S fuel' =>
        e ← call next_event;
        match e with
        | TransferDone res buf' => disk_transfer_done res ;; wait_async fuel' buf'
        | Disconnected => disk_disconnected None ;; wait_async fuel' buf
        end
    end
  else mret buf.

(** The call of the driver and, when it works asynchronously, the wait for the end. *)
Definition transfer (m : M dsk (Z * list byte)) : M disk (Z * list byte) :=
  modify (set_result (- EWOULDBLOCK)) ;;
  '(res, buf) ← call m;
  if res =? - EWOULDBLOCK then
    buf ← wait_async events buf;
    d ← get_state;
    mret (result (ctlr d), buf)
  else mret (res, buf).

(** ** Connecting *)
Definition read_mbr : M disk Z :=
  modify (on_info (fun i => set_partitions (map clear_type (partitions i)) i)) ;;
  wait_queue ;;
  modify (set_busy true) ;;
  d ← get_state;
  '(res, buf) ← transfer (funs_read (info d) (replicate 512 0) 1 0);
  modify (set_busy false) ;;
  if negb (res =? ENOERR) then mret res
  else if (nthZ buf MBR_SIG_ADDR =? MBR_SIG_BYTE0) && (nthZ buf (MBR_SIG_ADDR + 1) =? MBR_SIG_BYTE1) then
    modify (on_info (fun i => set_partitions (read_partitions buf (ident i) (partitions i)) i)) ;;
    mret ENOERR
  else mret ENOERR.

Definition disk_init (k : option nat) : M disk bool :=
  c ← with_chan k;
  if negb (chan_init c) then
    modify (fun d => if ctlr_init (ctlr d) then d else set_ctlr_init true d) ;;
    modify (on_info (fun i => set_partitions (map clear_type (partitions i)) (set_connected false i))) ;;
    modify (on_chan k (set_chan_init true)) ;;
    mret true
  else mret true.

Definition disk_connected (k : option nat) (id : cyg_disk_identify_t) : M disk Z :=
  c ← with_chan k;
  if negb (chan_init c) then mret (- EINVAL)
  else
    d ← get_state;
    if connected (info d) then mret ENOERR
    else
      modify (on_info (set_ident id)) ;;
      res ← (if mbr_support c then read_mbr else mret ENOERR);
      if res =? ENOERR then
        modify (fun d => on_chan k (set_valid true) (on_info (set_connected true) d)) ;;
        mret res
      else mret res.

(** ** The device of a partition *)

(** The number a name spells, in an [int] that may wrap. *)
Fixpoint dev_number (dev_num : Z) (name : cstring) : option Z :=
  match name with
  | [] => Some dev_num
  | c :: name' =>
      if (c <? 48) || (c >? 57) then None else dev_number (s32 (10 * dev_num + (c - 48))) name'
  end.

Definition disk_lookup (h : cyg_io_handle_t) (sub_tab : option cyg_io_handle_t) (name : cstring) :
    M disk (Z * cyg_io_handle_t) :=
  c ← with_chan (sub h);
  d ← get_state;
  if negb (connected (info d)) then mret (- EINVAL, h)
  else
    match dev_number 0 name with
    | None => mret (- EINVAL, h)
    | Some dev_num =>
        if dev_num >? Z.of_nat (length (partitions (info d))) then mret (- EINVAL, h)
        else if dev_num =? 0 then mret (ENOERR, h)
        else if dev_num <? 0 then crash
        else
          let i := Z.to_nat (dev_num - 1) in
          match partitions (info d) !! i with
          | None => crash
          | Some p =>
              if type p =? 0 then mret (- EINVAL, h)
              else
                _ ← with_chan (Some i);
                modify (on_chan (Some i) (fun _ => set_partition (Some i) c)) ;;
                mret (ENOERR, Handle (dev h) (Some i))
          end
    end.

(** ** Reading and writing blocks *)

(** [pos] on the disk and the last block of the partition, or of the disk. *)
Definition extent (c : disk_channel) (d : disk) (pos : Z) : option (Z * Z) :=
  match partition c with
  | Some i => p ← partitions (info d) !! i; Some (u32 (pos + start p), end_ p)
  | None => Some (pos, u32 (blocks_num (info d) - 1))
  end.

(** [if (tfr > info->ident.max_transfer) tfr = info->ident.max_transfer] *)
Definition chunk (d : disk) (sz : Z) : Z :=
  if sz >? max_transfer (ident (info d)) then max_transfer (ident (info d)) else sz.

(** [release] is set when the loop ends in the statements that clear [busy], not in a
    jump past them. The results: the error code, [release], what is left of [size] and
    the buffer. *)
Fixpoint read_blocks (fuel : nat) (bbuf : list byte) (pos last sz : Z) : M disk (Z * bool * Z * list byte) :=
  if sz >? 0 then
    if pos >? last then mret (- EIO, true, sz, bbuf)
    else
      match fuel with
      | O => crash
      | S fuel' =>
          d ← get_state;
          let tfr := chunk d sz in
          '(res, bbuf) ← transfer (funs_read (info d) bbuf tfr pos);
          if negb (res =? ENOERR) then mret (res, false, sz, bbuf)
          else
            d ← get_state;
            if negb (connected (info d)) then mret (- EINVAL, false, sz, bbuf)
            else
              let n := Z.to_nat (u32 (tfr * block_size (info d))) in
              '(res, release, sz, rest) ← read_blocks fuel' (drop n bbuf) (u32 (pos + tfr)) last (u32 (sz - tfr));
              mret (res, release, sz, take n bbuf ++ rest)
      end
  else mret (ENOERR, true, sz, bbuf).

Fixpoint write_blocks (fuel : nat) (bbuf : list byte) (pos last sz : Z) : M disk (Z * bool * Z) :=
  if sz >? 0 then
    if pos >? last then mret (- EIO, false, sz)
    else
      match fuel with
      | O => crash
      | S fuel' =>
          d ← get_state;
          let tfr := chunk d sz in
          '(res, _) ← transfer (res ← funs_write (info d) bbuf tfr pos; mret (res, []));
          if negb (res =? ENOERR) then mret (res, false, sz)
          else
            d ← get_state;
            if negb (connected (info d)) then mret (- EINVAL, false, sz)
            else
              let n := Z.to_nat (u32 (tfr * block_size (info d))) in
              write_blocks fuel' (drop n bbuf) (u32 (pos + tfr)) last (u32 (sz - tfr))
      end
  else mret (ENOERR, true, sz).

(** What both functions do around their loop [m]; [fail] when there is no medium. *)
Definition with_controller {A} (k : option nat) (fail : A) (m : disk_channel -> M disk (A * bool)) : M disk A :=
  c ← with_chan k;
  wait_queue ;;
  d ← get_state;
  if connected (info d) && valid c then
    modify (set_busy true) ;;
    '(a, release) ← m c;
    modify (fun d => if release : bool then set_busy false d else d) ;;
    mret a
  else mret fail.

Definition disk_bread (h : cyg_io_handle_t) (buf : list byte) (len : option Z) (pos : Z) :
    M disk (Z * option Z * list byte) :=
  match len with
  | None => crash
  | Some n =>
      '(res, sz, buf) ← with_controller (sub h) (- EINVAL, n, buf) (fun c =>
        d ← get_state;
        match extent c d pos with
        | None => crash
        | Some (pos, last) =>
            '(res, release, sz, buf) ← read_blocks (Z.to_nat n) buf pos last n;
            mret (res, sz, buf, release)
        end);
      mret (res, Some (u32 (n - sz)), buf)
  end.

Definition disk_bwrite (h : cyg_io_handle_t) (buf : list byte) (len : option Z) (pos : Z) :
    M disk (Z * option Z) :=
  match len with
  | None => crash
  | Some n =>
      '(res, sz) ← with_controller (sub h) (- EINVAL, n) (fun c =>
        d ← get_state;
        match extent c d pos with
        | None => crash
        | Some (pos, last) =>
            '(res, release, sz) ← write_blocks (Z.to_nat n) buf pos last n;
            mret (res, sz, release)
        end);
      mret (res, Some (u32 (n - sz)))
  end.

(** ** Configuration *)
Definition disk_select (h : cyg_io_handle_t) (which inf : Z) : M disk Z :=
  c ← with_chan (sub h);
  d ← get_state;
  mret (if negb (connected (info d)) || negb (valid c) then 0 else 1).

Definition disk_get_config (h : cyg_io_handle_t) (key : Z) (buf : disk_config) (len : option Z) :
    M disk (Z * option Z * disk_config) :=
  with_controller (sub h) (- EINVAL, len, buf) (fun c =>
    d ← get_state;
    if key =? CYG_IO_GET_CONFIG_DISK_INFO then
      match len with
      | None => crash
      | Some n =>
          if n <? sizeof_cyg_disk_info_t then mret (- EINVAL, len, buf, true)
          else mret (ENOERR, Some sizeof_cyg_disk_info_t, CfgInfo (info d), true)
      end
    else
      r ← call (funs_get_config (info d) key buf len); mret (r, true)).

(** [chan->mounts++; info->mounts++] and the reverse. *)
Definition add_mounts (k : option nat) (x : Z) (d : disk) : disk :=
  on_info (fun i => set_info_mounts (u32 (info_mounts i + x)) i)
    (on_chan k (fun c => set_mounts (u32 (mounts c + x)) c) d).

Definition disk_set_config (h : cyg_io_handle_t) (key : Z) (buf : disk_config) (len : option Z) :
    M disk (Z * option Z) :=
  with_controller (sub h) (- EINVAL, len) (fun c =>
    (if key =? CYG_IO_SET_CONFIG_DISK_MOUNT then modify (add_mounts (sub h) 1)
     else if key =? CYG_IO_SET_CONFIG_DISK_UMOUNT then modify (add_mounts (sub h) (-1))
     else mret tt) ;;
    d ← get_state;
    '(res, len', gone) ← call (funs_set_config (info d) key buf len);
    (if gone : bool then disk_disconnected (sub h) ;; mret tt else mret tt) ;;
    mret (res, len', true)).

Definition cyg_io_disk_devio : cyg_devio_table_t disk disk_config :=
  BLOCK_DEVIO_TABLE disk_bwrite disk_bread disk_select disk_get_config disk_set_config.
End Disk.
Arguments disk {_}.
