(* ===== verification/DiskSpec.v ===== *)
(** * Disks: what requests do

    Against the laws [DiskLaws] of a driver: a request within a partition transfers
    exactly the blocks it names, as many as it says, and touches nothing else; it
    returns, whether the driver answers at once or later and whether or not the medium
    is unplugged meanwhile. Then the requests that show where the layer does not do
    what it means to. *)
From S2P Require Import Prelude CStr IoSys Disk.

(** ** What the layer asks of a driver *)

(** Within [n] events the driver reports the end of the transfer, with [Q]. *)
Fixpoint completes `{DiskDriver} (n : nat) (Q : Z -> list byte -> dsk -> Prop) (s : dsk) : Prop :=
  match n with
  | O => False
  | S n' =>
      wp next_event (fun e s' =>
        match e with
        | TransferDone res buf => res <> - EWOULDBLOCK /\ Q res buf s'
        | Disconnected => completes n' Q s'
        end) s
  end.

(** The result of a call of the driver, now or when the transfer is done. *)
Definition eventually `{DiskDriver} (Q : Z -> list byte -> dsk -> Prop) (r : Z * list byte) (s : dsk) : Prop :=
  if r.1 =? - EWOULDBLOCK then completes events Q s else Q r.1 r.2 s.

(** The blocks [n] to [n + len - 1] of a medium, and block [i] of a buffer. *)
Definition sectors (f : Z -> list byte) (n len : Z) : list byte := concat (map f (seqZ n len)).
Definition buf_block (buf : list byte) (i : Z) : list byte := upto (drop (Z.to_nat (i * 512)) buf) 512.

Class DiskLaws `{DiskDriver} (ready : dsk -> Prop) (sector : dsk -> Z -> list byte) (capacity : dsk -> Z) := {
  capacity_range s : capacity s <= 2 ^ 32;
  sector_length s n : length (sector s n) = 512%nat;
  law_read s i buf len pos :
    ready s -> block_size i = 512 -> 0 < len -> 0 <= pos -> pos + len <= capacity s -> len * 512 <= Z.of_nat (length buf) ->
    wp (funs_read i buf len pos) (eventually (fun res buf' s' =>
      (ready s' /\ capacity s' = capacity s /\ forall n, sector s' n = sector s n) /\
      res <= 0 /\ length buf' = length buf /\
      drop (Z.to_nat (len * 512)) buf' = drop (Z.to_nat (len * 512)) buf /\
      (res = ENOERR -> take (Z.to_nat (len * 512)) buf' = sectors (sector s) pos len))) s;
  law_write s i buf len pos :
    ready s -> block_size i = 512 -> 0 < len -> 0 <= pos -> pos + len <= capacity s -> len * 512 <= Z.of_nat (length buf) ->
    wp (res ← funs_write i buf len pos; mret (res, [])) (eventually (fun res _ s' =>
      (ready s' /\ capacity s' = capacity s) /\ res <= 0 /\
      (forall n, ~ (pos <= n < pos + len) -> sector s' n = sector s n) /\
      (res = ENOERR -> forall i, 0 <= i < len -> sector s' (pos + i) = buf_block buf i))) s;
}.

(** ** Blocks of a buffer *)
Lemma seqZ_split n k len : 0 <= k <= len -> seqZ n len = seqZ n k ++ seqZ (n + k) (len - k).
Proof. intros Hk. rewrite <- seqZ_app by lia. f_equal. lia. Qed.

Lemma sectors_split f n k len :
  0 <= k <= len -> sectors f n len = sectors f n k ++ sectors f (n + k) (len - k).
Proof. intros Hk. unfold sectors. by rewrite (seqZ_split n k), map_app, concat_app by lia. Qed.

Lemma sectors_ext f g n len : (forall i, f i = g i) -> sectors f n len = sectors g n len.
Proof. intros Hfg. unfold sectors. f_equal. by apply map_ext. Qed.

Lemma sectors_at f n n' len : (0 < len -> n = n') -> sectors f n len = sectors f n' len.
Proof.
  intros Hn. destruct (Z.ltb_spec 0 len); [by rewrite Hn|]. unfold sectors. by rewrite !seqZ_nil.
Qed.

Lemma sectors_one f n : sectors f n 1 = f n.
Proof. unfold sectors. rewrite seqZ_cons by lia. cbn. by rewrite seqZ_nil, app_nil_r by lia. Qed.

Lemma sectors_length f n len :
  (forall i, length (f i) = 512%nat) -> length (sectors f n len) = Z.to_nat (len * 512).
Proof.
  intros Hf. unfold sectors.
  assert (forall l, length (concat (map f l)) = (length l * 512)%nat) as H.
  { induction l as [|i l IH]; cbn; [done|]. rewrite length_app, Hf, IH. lia. }
  rewrite H, length_seqZ. lia.
Qed.

Lemma buf_block_drop buf i k :
  0 <= i -> 0 <= k -> buf_block (drop (Z.to_nat (k * 512)) buf) i = buf_block buf (k + i).
Proof. intros. unfold buf_block. rewrite drop_drop. do 2 f_equal. lia. Qed.

(** ** A transfer *)
Section Spec.
Context `{drvr : DiskDriver}.
Implicit Types (d : disk) (h : cyg_io_handle_t) (buf : list byte).

(** What a transfer may change besides the medium: the result in the controller and,
    when the medium was unplugged, what [unplug] changes. *)
Definition settled (gone : bool) (d d' : disk) : Prop :=
  let e := if gone then unplug None d else d in
  d' = Disk (Controller (result (ctlr d')) (ctlr_init (ctlr d)) (busy (ctlr d)))
    (chan e) (pdevs_chan e) (info e) (drv d').

Definition passed (d d' : disk) : Prop := exists gone, settled gone d d'.

Lemma clear_type_idemp p : clear_type (clear_type p) = clear_type p.
Proof. done. Qed.
Lemma set_valid_idemp c : set_valid false (set_valid false c) = set_valid false c.
Proof. done. Qed.

Lemma passed_refl d : passed d d.
Proof. exists false. by destruct d as [[] ? ? ? ?]. Qed.

Lemma passed_trans d1 d2 d3 : passed d1 d2 -> passed d2 d3 -> passed d1 d3.
Proof.
  intros [g1 H1] [g2 H2]. exists (g1 || g2). unfold settled in *. revert H2. rewrite H1.
  destruct d1 as [[] c pc [] s], d3 as [[] ? ? ? ?], g1, g2; cbn; intros ->; cbn; try done.
  unfold unplug, on_pdevs, on_chan, on_info, set_partitions, set_connected. cbn.
  rewrite !map_map. done.
Qed.

Lemma passed_busy d d' : passed d d' -> busy (ctlr d') = busy (ctlr d).
Proof. intros [g ->]. done. Qed.
Lemma passed_block_size d d' : passed d d' -> block_size (info d') = block_size (info d).
Proof. intros [[] ->]; done. Qed.
Lemma passed_chunk d d' sz : passed d d' -> chunk d' sz = chunk d sz.
Proof. intros [[] ->]; done. Qed.

Lemma passed_result r d : passed d (set_result r d).
Proof. exists false. by destruct d as [[] ? ? ? ?]. Qed.

(** The first block of the device and how many it has. *)
Definition span (c : disk_channel) d : option (Z * Z) :=
  match partition c with
  | Some i => p ← partitions (info d) !! i; Some (start p, end_ p - start p + 1)
  | None => Some (0, blocks_num (info d))
  end.

Definition device_span h d : option (Z * Z) := c ← get_chan (sub h) d; span c d.

Lemma passed_span h d d' : passed d d' -> device_span h d' = device_span h d.
Proof.
  intros [[] ->]; [|done]. unfold device_span, span. destruct d as [ctl ch pc [ps id bs bn pb cn im] s].
  assert (forall i, (p ← map clear_type ps !! i; Some (start p, end_ p - start p + 1)) =
    (p ← ps !! i; Some (start p, end_ p - start p + 1))) as Hps.
  { intros i. rewrite list_lookup_fmap. by destruct (ps !! i). }
  destruct (sub h) as [i|]; cbn.
  - rewrite list_lookup_fmap. destruct (pc !! i) as [[[j|] ? ? ? ?]|]; cbn; [apply Hps|done|done].
  - destruct ch as [[j|] ? ? ? ?]; cbn; [apply Hps|done].
Qed.

Lemma wp_call {A} (m : M dsk A) (Q : A -> disk -> Prop) d :
  wp m (fun a s => Q a (Disk (ctlr d) (chan d) (pdevs_chan d) (info d) s)) (drv d) -> wp (call m) Q d.
Proof. intros (a & s & Hm & HQ). unfold call, wp. rewrite Hm. eauto. Qed.

Lemma passed_drv d s : passed d (Disk (ctlr d) (chan d) (pdevs_chan d) (info d) s).
Proof. exists false. by destruct d as [[] ? ? ? ?]. Qed.

Lemma disconnected_spec d :
  wp (disk_disconnected None) (fun _ d' => passed d d' /\ drv d' = drv d /\ ctlr d' = ctlr d) d.
Proof.
  unfold disk_disconnected, with_chan, get_chan. apply wp_bind. exists (chan d), d. split; [done|].
  destruct (chan_init (chan d)); cbn [negb].
  - apply wp_modify, wp_ret. split; [exists true; by destruct d as [[] ? ? ? ?]|done].
  - apply wp_ret. split; [apply passed_refl|done].
Qed.

Lemma wait_async_spec Q n : forall d buf,
  result (ctlr d) = - EWOULDBLOCK -> completes n Q (drv d) ->
  wp (wait_async n buf) (fun buf' d' =>
    passed d d' /\ result (ctlr d') <> - EWOULDBLOCK /\ Q (result (ctlr d')) buf' (drv d')) d.
Proof.
  induction n as [|n IH]; intros d buf Hr Hc; cbn [completes wait_async] in *; [done|].
  apply wp_get. rewrite Hr. cbn [Z.eqb]. change (-11 =? -11) with true. cbn match.
  apply wp_bind, wp_call. eapply wp_mono; [apply Hc|]. intros [res b|] s.
  - intros [Hne HQ]. unfold disk_transfer_done. apply wp_modify.
    assert (forall m, wait_async (drvr := drvr) m b =
      (d ← get_state; if result (ctlr d) =? - EWOULDBLOCK then
        match m with O => crash | S m' => e ← call next_event;
          match e with
          | TransferDone r b' => disk_transfer_done r ;; wait_async m' b'
          | Disconnected => disk_disconnected None ;; wait_async m' b
          end end else mret b)) as -> by (by intros []).
    apply wp_get. cbn. rewrite (proj2 (Z.eqb_neq _ _)) by done. apply wp_ret. split; [|done].
    eapply passed_trans; [apply passed_drv|apply passed_result].
  - intros Hc'. apply wp_bind. eapply wp_mono; [apply disconnected_spec|].
    intros _ d1 (Hp & Hd & Hcl). eapply wp_mono; [apply IH|].
    + by rewrite Hcl.
    + by rewrite Hd.
    + intros b' d2 (Hp2 & Hne & HQ). split; [|done].
      eapply passed_trans; [|done]. eapply passed_trans; [apply passed_drv|done].
Qed.

Lemma transfer_spec Q m d :
  wp m (eventually Q) (drv d) ->
  wp (transfer m) (fun '(res, buf) d' => passed d d' /\ Q res buf (drv d')) d.
Proof.
  intros Hm. unfold transfer. apply wp_modify, wp_bind, wp_call. eapply wp_mono; [apply Hm|].
  intros [res buf] s HQ. unfold eventually in HQ. cbn [fst snd] in HQ.
  assert (passed d (Disk (ctlr (set_result (- EWOULDBLOCK) d)) (chan d) (pdevs_chan d) (info d) s)) as Hp.
  { exists false. by destruct d as [[] ? ? ? ?]. }
  destruct (res =? - EWOULDBLOCK) eqn:Hr.
  - apply wp_bind. eapply wp_mono; [by apply wait_async_spec|].
    intros b d1 (Hp1 & _ & HQ1). apply wp_get, wp_ret. split; [|done].
    eapply passed_trans; [exact Hp|done].
  - apply wp_ret. split; [exact Hp|done].
Qed.

(** ** The loops *)
Section Loops.
Context {ready : dsk -> Prop} {sector : dsk -> Z -> list byte} {capacity : dsk -> Z}.
Context {Laws : DiskLaws ready sector capacity}.

(** A state transfers can start from. *)
Record disk_ok (d : disk) : Prop := {
  ok_ready : ready (drv d);
  ok_size : block_size (info d) = 512;
  ok_chunk : 0 < max_transfer (ident (info d)) }.

(** A transfer without an error leaves a connected disk connected. *)
Definition watched d (res : Z) d' : Prop :=
  passed d d' /\ (res = ENOERR -> connected (info d) = true -> connected (info d') = true).

Lemma watched_refl d res : watched d res d.
Proof. by split; [apply passed_refl|]. Qed.
Lemma watched_error d res d' : res < 0 -> passed d d' -> watched d res d'.
Proof. intros Hr Hp. split; [done|]. unfold ENOERR. lia. Qed.
Lemma watched_after d1 d2 res d3 : passed d1 d2 -> connected (info d2) = true -> watched d2 res d3 -> watched d1 res d3.
Proof. intros Hp Hc [Hp2 Hw]. split; [by eapply passed_trans|auto]. Qed.

Definition chunk_ok d : disk_ok d -> forall sz, 0 < sz -> 0 < chunk d sz <= sz.
Proof. intros [_ _ Hc] sz Hsz. unfold chunk. case_match; bool_lia; lia. Qed.

Lemma passed_ok d d' : disk_ok d -> passed d d' -> ready (drv d') -> disk_ok d'.
Proof.
  intros [_ Hs Hc] Hp Hr. split; [done|by rewrite (passed_block_size _ _ Hp)|].
  destruct Hp as [[] ->]; done.
Qed.

(** How a loop ended: in the statements that clear [busy], with no error, or in a
    jump past them, with one. *)
Definition ended (res : Z) (release : bool) (sz : Z) : Prop :=
  release = true /\ res = ENOERR /\ sz = 0 \/ release = false /\ res < 0.

Lemma take_app_at (l k : list byte) n : length l = n -> take n (l ++ k) = l.
Proof. intros <-. apply take_app_length. Qed.

(** Buffer [b] carries the first [m] blocks from [pos] on and is otherwise as long and
    after [sz] blocks the same as [buf]. *)
Definition carries (f : Z -> list byte) (buf b : list byte) (pos m sz : Z) : Prop :=
  take (Z.to_nat (m * 512)) b = sectors f pos m /\
  length b = length buf /\ drop (Z.to_nat (sz * 512)) b = drop (Z.to_nat (sz * 512)) buf.

Lemma carries_zero f buf pos sz : carries f buf buf pos 0 sz.
Proof. done. Qed.

Lemma carries_more f buf b rest pos k m sz :
  (forall i, length (f i) = 512%nat) -> 0 <= k -> 0 <= m -> k + m <= sz ->
  sz * 512 <= Z.of_nat (length buf) ->
  carries f buf b pos k k -> carries f (drop (Z.to_nat (k * 512)) b) rest (pos + k) m (sz - k) ->
  carries f buf (take (Z.to_nat (k * 512)) b ++ rest) pos (k + m) sz.
Proof.
  intros Hf Hk Hm Hsz Hlen (Ht & Hl & Hd) (Ht' & Hl' & Hd'). unfold carries.
  assert (length (take (Z.to_nat (k * 512)) b) = Z.to_nat (k * 512)) as Hkl.
  { rewrite length_take. lia. }
  split_and!.
  - replace (Z.to_nat ((k + m) * 512)) with (Z.to_nat (k * 512) + Z.to_nat (m * 512))%nat by lia.
    rewrite take_app_add' by done. rewrite Ht', Ht, (sectors_split f pos k (k + m)) by lia.
    do 2 f_equal. lia.
  - rewrite length_app, Hkl, Hl', length_drop. lia.
  - replace (Z.to_nat (sz * 512)) with (Z.to_nat (k * 512) + Z.to_nat ((sz - k) * 512))%nat by lia.
    rewrite drop_app_add' by done. rewrite Hd', Hd, !drop_drop. done.
Qed.

Lemma carries_none f buf b pos k sz :
  0 <= k <= sz -> length b = length buf ->
  drop (Z.to_nat (k * 512)) b = drop (Z.to_nat (k * 512)) buf -> carries f buf b pos 0 sz.
Proof.
  intros Hk Hl Hd. split_and!; [done|done|].
  replace (Z.to_nat (sz * 512)) with (Z.to_nat (k * 512) + Z.to_nat ((sz - k) * 512))%nat by lia.
  by rewrite <- !drop_drop, Hd.
Qed.

Lemma disk_read_blocks_spec fuel : forall d buf pos last sz,
  disk_ok d -> (Z.to_nat sz <= fuel)%nat -> 0 <= sz < 2 ^ 23 -> 0 <= pos ->
  (0 < sz -> pos + sz - 1 <= last /\ pos + sz <= capacity (drv d)) ->
  sz * 512 <= Z.of_nat (length buf) ->
  wp (read_blocks fuel buf pos last sz) (fun '(res, release, sz', b) d' =>
    watched d res d' /\ (disk_ok d' /\ capacity (drv d') = capacity (drv d) /\
    (forall n, sector (drv d') n = sector (drv d) n)) /\
    0 <= sz' <= sz /\ ended res release sz' /\
    carries (sector (drv d)) buf b pos (sz - sz') sz) d.
Proof.
  induction fuel as [|fuel IH]; intros d buf pos last sz Hok Hf Hsz Hpos Hin Hlen; cbn [read_blocks].
  { rewrite Z.gtb_ltb, (proj2 (Z.ltb_ge _ _)) by lia. apply wp_ret. rewrite Z.sub_diag.
    split; [apply watched_refl|]. split; [done|]. split; [lia|]. split; [left; split_and!; [done|done|lia]|].
    apply carries_zero. }
  rewrite !Z.gtb_ltb. destruct (Z.ltb_spec 0 sz) as [Hpos_sz|].
  2: { apply wp_ret. rewrite Z.sub_diag. split; [apply watched_refl|]. split; [done|]. split; [lia|].
       split; [left; split_and!; [done|done|lia]|apply carries_zero]. }
  destruct (Hin Hpos_sz) as [Hlast Hcap]. pose proof (capacity_range (drv d)) as Hcr.
  rewrite (proj2 (Z.ltb_ge last pos)) by lia. apply wp_get.
  pose proof (chunk_ok _ Hok sz Hpos_sz) as Hk. set (k := chunk d sz) in *.
  apply wp_bind. eapply wp_mono.
  { apply transfer_spec. apply law_read; [apply Hok|apply Hok|lia..]. }
  intros [res b] d1 (Hp & (Hr & Hc & Hs) & Hres & Hbl & Hbd & Hbt).
  pose proof (passed_ok _ _ Hok Hp Hr) as Hok1.
  assert (forall e, e < 0 -> wp (mret (e, false, sz, b)) (fun '(res, release, sz', b) d' =>
      watched d res d' /\ (disk_ok d' /\ capacity (drv d') = capacity (drv d) /\
      (forall n, sector (drv d') n = sector (drv d) n)) /\ 0 <= sz' <= sz /\ ended res release sz' /\
      carries (sector (drv d)) buf b pos (sz - sz') sz) d1) as Hfail.
  { intros e He. apply wp_ret. rewrite Z.sub_diag.
    split; [by apply watched_error|]. split; [done|]. split; [lia|]. split; [by right|].
    apply (carries_none _ _ _ _ k); [lia|done|done]. }
  destruct (Z.eqb_spec res ENOERR) as [->|Hne]; cbn [negb]; [|apply Hfail; unfold ENOERR in *; lia].
  apply wp_get. destruct (connected (info d1)) eqn:Hcon; cbn [negb]; [|by apply Hfail].
  rewrite (ok_size _ Hok1), (uwrap_small 32 (k * 512)), (uwrap_small 32 (sz - k)) by lia.
  pose proof (uwrap_range 32 (pos + k)) as Hw.
  assert (k < sz -> u32 (pos + k) = pos + k) as Hpk by (intros; apply uwrap_small; lia).
  apply wp_bind. eapply wp_mono.
  { apply IH; [done|lia|lia|lia|rewrite Hc; intros; rewrite Hpk; lia|]. rewrite length_drop, Hbl. lia. }
  intros [[[res2 rel] sz2] rest] d2 (Hp2 & (Hok2 & Hc2 & Hs2) & Hsz2 & He & Hca). apply wp_ret.
  split; [by eapply watched_after|]. split; [split_and!; [done|congruence|]|].
  { intros n. by rewrite Hs2. }
  split; [lia|]. split; [done|].
  replace (sz - sz2) with (k + (sz - k - sz2)) by lia.
  apply carries_more; try lia; [apply sector_length|by split_and!; [apply Hbt| |]|].
  destruct Hca as (H1 & H2). split; [|done]. rewrite H1, (sectors_ext _ (sector (drv d))) by done.
  apply sectors_at. intros. apply Hpk. lia.
Qed.

(** The blocks written: block [i] of the buffer is block [pos + i] of the medium for
    the first [m], and only the [sz] blocks from [pos] on may have changed. *)
Definition stored (f f' : Z -> list byte) (buf : list byte) (pos m sz : Z) : Prop :=
  (forall i, 0 <= i < m -> f' (pos + i) = buf_block buf i) /\
  (forall n, ~ (pos <= n < pos + sz) -> f' n = f n).

Lemma stored_more f f1 f2 buf pos k m sz :
  0 <= k -> 0 <= m -> k + m <= sz ->
  stored f f1 buf pos k k ->
  (forall i, 0 <= i < m -> f2 (pos + k + i) = buf_block (drop (Z.to_nat (k * 512)) buf) i) ->
  (forall n, ~ (k < sz /\ pos + k <= n < pos + sz) -> f2 n = f1 n) ->
  stored f f2 buf pos (k + m) sz.
Proof.
  intros Hk Hm0 Hm [Hw Hf] Hw2 Hf2. split.
  - intros i Hi. destruct (Z.ltb_spec i k).
    + rewrite Hf2 by lia. apply Hw. lia.
    + replace (pos + i) with (pos + k + (i - k)) by lia. rewrite Hw2 by lia.
      rewrite buf_block_drop by lia. f_equal. lia.
  - intros n Hn. rewrite Hf2 by lia. apply Hf. lia.
Qed.

Lemma disk_write_blocks_spec fuel : forall d buf pos last sz,
  disk_ok d -> (Z.to_nat sz <= fuel)%nat -> 0 <= sz < 2 ^ 23 -> 0 <= pos ->
  (0 < sz -> pos + sz - 1 <= last /\ pos + sz <= capacity (drv d)) ->
  sz * 512 <= Z.of_nat (length buf) ->
  wp (write_blocks fuel buf pos last sz) (fun '(res, release, sz') d' =>
    watched d res d' /\ (disk_ok d' /\ capacity (drv d') = capacity (drv d)) /\
    0 <= sz' <= sz /\ ended res release sz' /\
    stored (sector (drv d)) (sector (drv d')) buf pos (sz - sz') sz) d.
Proof.
  induction fuel as [|fuel IH]; intros d buf pos last sz Hok Hf Hsz Hpos Hin Hlen; cbn [write_blocks].
  { rewrite Z.gtb_ltb, (proj2 (Z.ltb_ge _ _)) by lia. apply wp_ret. rewrite Z.sub_diag.
    split; [apply watched_refl|]. split; [done|]. split; [lia|]. split; [left; split_and!; [done|done|lia]|].
    split; [intros; lia|done]. }
  rewrite !Z.gtb_ltb. destruct (Z.ltb_spec 0 sz) as [Hpos_sz|].
  2: { apply wp_ret. rewrite Z.sub_diag. split; [apply watched_refl|]. split; [done|]. split; [lia|].
       split; [left; split_and!; [done|done|lia]|]. split; [intros; lia|done]. }
  destruct (Hin Hpos_sz) as [Hlast Hcap]. pose proof (capacity_range (drv d)) as Hcr.
  rewrite (proj2 (Z.ltb_ge last pos)) by lia. apply wp_get.
  pose proof (chunk_ok _ Hok sz Hpos_sz) as Hk. set (k := chunk d sz) in *.
  apply wp_bind. eapply wp_mono.
  { apply transfer_spec. apply law_write; [apply Hok|apply Hok|lia..]. }
  intros [res b] d1 (Hp & (Hr & Hc) & Hres & Hfr & Hw).
  pose proof (passed_ok _ _ Hok Hp Hr) as Hok1.
  assert (forall e, e < 0 -> wp (mret (e, false, sz)) (fun '(res, release, sz') d' =>
      watched d res d' /\ (disk_ok d' /\ capacity (drv d') = capacity (drv d)) /\
      0 <= sz' <= sz /\ ended res release sz' /\
      stored (sector (drv d)) (sector (drv d')) buf pos (sz - sz') sz) d1) as Hfail.
  { intros e He. apply wp_ret. rewrite Z.sub_diag.
    split; [by apply watched_error|]. split; [done|]. split; [lia|]. split; [by right|].
    split; [intros; lia|]. intros n Hn. apply Hfr. lia. }
  destruct (Z.eqb_spec res ENOERR) as [->|Hne]; cbn [negb]; [|apply Hfail; unfold ENOERR in *; lia].
  apply wp_get. destruct (connected (info d1)) eqn:Hcon; cbn [negb]; [|by apply Hfail].
  rewrite (ok_size _ Hok1), (uwrap_small 32 (k * 512)), (uwrap_small 32 (sz - k)) by lia.
  pose proof (uwrap_range 32 (pos + k)) as Hu.
  assert (k < sz -> u32 (pos + k) = pos + k) as Hpk by (intros; apply uwrap_small; lia).
  eapply wp_mono.
  { apply IH; [done|lia|lia|lia|rewrite Hc; intros; rewrite Hpk; lia|]. rewrite length_drop. lia. }
  intros [[res2 rel] sz2] d2 (Hp2 & (Hok2 & Hc2) & Hsz2 & He & Hw2 & Hf2).
  split; [by eapply watched_after|]. split; [split; [done|congruence]|].
  split; [lia|]. split; [done|].
  replace (sz - sz2) with (k + (sz - k - sz2)) by lia.
  eapply stored_more; try lia.
  - split; [by apply Hw|done].
  - intros i Hi. rewrite <- Hpk by lia. by apply Hw2.
  - intros n Hn. destruct (Z.ltb_spec k sz) as [Hlt|]; [|apply Hf2; lia].
    apply Hf2. rewrite Hpk by done. lia.
Qed.

(** ** Requests *)

(** The handle leads to a device that is there, and nobody uses the controller. *)
Definition served h d c : Prop :=
  get_chan (sub h) d = Some c /\ connected (info d) = true /\ valid c = true /\ busy (ctlr d) = false.

(** The device lies on the medium. *)
Definition on_medium c d first count : Prop :=
  span c d = Some (first, count) /\ 0 <= first /\ 0 <= count /\ first + count <= capacity (drv d).

Lemma extent_span c d first count pos :
  on_medium c d first count -> fits 32 pos ->
  exists last, extent c d pos = Some (u32 (first + pos), last) /\ (0 < count -> last = first + count - 1).
Proof.
  intros (Hs & Hf & Hc & Hm) Hpos. unfold span, extent in *. pose proof (capacity_range (drv d)).
  destruct (partition c) as [i|].
  - destruct (partitions (info d) !! i) as [p|]; cbn in *; [|done]. simplify_eq.
    exists (end_ p). split; [|lia]. by rewrite Z.add_comm.
  - simplify_eq. exists (u32 (blocks_num (info d) - 1)). split; [by rewrite Z.add_0_l, (uwrap_small 32 pos) by exact Hpos|].
    intros. rewrite uwrap_small; lia.
Qed.

Lemma with_controller_spec {A} h d c (fail : A) (m : disk_channel -> M disk (A * bool)) (Q : A -> disk -> Prop) :
  served h d c ->
  wp (m c) (fun '(a, release) d' => Q a (if release then set_busy false d' else d')) (set_busy true d) ->
  wp (with_controller (sub h) fail m) Q d.
Proof.
  intros (Hc & Hcon & Hv & Hb) Hm. unfold with_controller, with_chan, wait_queue.
  apply wp_bind. exists c, d. rewrite Hc. split; [done|].
  apply wp_bind, wp_get. rewrite Hb. apply wp_ret. apply wp_get. rewrite Hcon, Hv. cbn [andb].
  apply wp_modify, wp_bind. eapply wp_mono; [exact Hm|]. intros [a []] d' HQ; by apply wp_modify, wp_ret.
Qed.

Lemma disk_ok_busy b d : disk_ok d -> disk_ok (set_busy b d).
Proof. intros [H1 H2 H3]. by split. Qed.

Lemma ended_busy (res sz : Z) release d :
  ended res release sz -> busy (ctlr d) = true ->
  busy (ctlr (if release then set_busy false d else d)) = negb (res =? ENOERR).
Proof.
  intros [(-> & -> & _)|(-> & Hr)] Hb; [done|]. rewrite Hb. symmetry. apply negb_true_iff, Z.eqb_neq.
  unfold ENOERR. lia.
Qed.

Lemma ended_all (res sz : Z) release : ended res release sz -> res = ENOERR -> sz = 0.
Proof. unfold ended, ENOERR. lia. Qed.

Lemma ended_sign (res sz : Z) release : ended res release sz -> res <= ENOERR.
Proof. unfold ended, ENOERR. lia. Qed.

Lemma disk_bread_spec d h c buf n pos first count :
  disk_ok d -> served h d c -> on_medium c d first count ->
  fits 32 pos -> 0 <= n < 2 ^ 23 -> pos + n <= count -> n * 512 <= Z.of_nat (length buf) ->
  wp (disk_bread h buf (Some n) pos) (fun '(res, len, b) d' =>
    exists m, len = Some m /\ 0 <= m <= n /\ (res <= ENOERR /\ (res = ENOERR -> m = n)) /\
      carries (sector (drv d)) buf b (first + pos) m n /\
      (forall i, sector (drv d') i = sector (drv d) i) /\
      (disk_ok d' /\ capacity (drv d') = capacity (drv d) /\ forall h, device_span h d' = device_span h d) /\
      busy (ctlr d') = negb (res =? ENOERR) /\ (res = ENOERR -> connected (info d') = true)) d.
Proof.
  intros Hok Hs Hm Hpos Hn Hin Hlen. unfold disk_bread. pose proof (capacity_range (drv d)) as Hcr.
  pose proof Hm as (_ & Hf0 & Hc0 & Hfit).
  apply wp_bind. eapply with_controller_spec; [done|]. apply wp_get.
  destruct (extent_span c (set_busy true d) first count pos) as (last & -> & Hl); [done|done|].
  unfold fits in Hpos. pose proof (uwrap_range 32 (first + pos)) as Hu.
  assert (0 < n -> u32 (first + pos) = first + pos) as Hfp by (intros; apply uwrap_small; lia).
  apply wp_bind. eapply wp_mono.
  { apply disk_read_blocks_spec; [by apply disk_ok_busy|lia|lia|lia| |lia].
    intros Hn0. rewrite Hfp, Hl by lia. cbn. lia. }
  intros [[[res release] sz] b] d' ([Hp Hcn] & (Hok' & Hcap' & Hsec) & Hsz & He & Hca). apply wp_ret.
  apply wp_ret. exists (n - sz).
  split; [f_equal; apply uwrap_small; lia|]. split; [lia|].
  split; [split; [by eapply ended_sign|intros Hres; rewrite (ended_all _ _ _ He Hres); lia]|].
  split; [|split; [|split]].
  - destruct Hca as [H1 H2]. split; [|done]. rewrite H1. apply sectors_at. intros. apply Hfp. lia.
  - intros i. destruct release; apply Hsec.
  - pose proof (fun h => passed_span h _ _ Hp) as Hsp.
    destruct release; (split; [try apply disk_ok_busy; exact Hok'|]); (split; [exact Hcap'|exact Hsp]).
  - split; [apply (ended_busy _ sz); [done|]; by rewrite (passed_busy _ _ Hp)|].
    intros Hres. destruct Hs as (_ & Hcon & _). specialize (Hcn Hres Hcon). by destruct release.
Qed.

Lemma disk_bwrite_spec d h c buf n pos first count :
  disk_ok d -> served h d c -> on_medium c d first count ->
  fits 32 pos -> 0 <= n < 2 ^ 23 -> pos + n <= count -> n * 512 <= Z.of_nat (length buf) ->
  wp (disk_bwrite h buf (Some n) pos) (fun '(res, len) d' =>
    exists m, len = Some m /\ 0 <= m <= n /\ (res <= ENOERR /\ (res = ENOERR -> m = n)) /\
      stored (sector (drv d)) (sector (drv d')) buf (first + pos) m n /\
      (disk_ok d' /\ capacity (drv d') = capacity (drv d) /\ forall h, device_span h d' = device_span h d) /\
      busy (ctlr d') = negb (res =? ENOERR) /\ (res = ENOERR -> connected (info d') = true)) d.
Proof.
  intros Hok Hs Hm Hpos Hn Hin Hlen. unfold disk_bwrite. pose proof (capacity_range (drv d)) as Hcr.
  pose proof Hm as (_ & Hf0 & Hc0 & Hfit).
  apply wp_bind. eapply with_controller_spec; [done|]. apply wp_get.
  destruct (extent_span c (set_busy true d) first count pos) as (last & -> & Hl); [done|done|].
  unfold fits in Hpos. pose proof (uwrap_range 32 (first + pos)) as Hu.
  assert (0 < n -> u32 (first + pos) = first + pos) as Hfp by (intros; apply uwrap_small; lia).
  apply wp_bind. eapply wp_mono.
  { apply disk_write_blocks_spec; [by apply disk_ok_busy|lia|lia|lia| |lia].
    intros Hn0. rewrite Hfp, Hl by lia. cbn. lia. }
  intros [[res release] sz] d' ([Hp Hcn] & (Hok' & Hcap') & Hsz & He & Hw & Hf). apply wp_ret.
  apply wp_ret. exists (n - sz).
  split; [f_equal; apply uwrap_small; lia|]. split; [lia|].
  split; [split; [by eapply ended_sign|intros Hres; rewrite (ended_all _ _ _ He Hres); lia]|]. split; [split|split].
  - intros i Hi. rewrite <- Hfp by lia. destruct release; by apply Hw.
  - intros i Hi. assert (~ (0 < n /\ u32 (first + pos) <= i < u32 (first + pos) + n)) as Hi'.
    { intros [Hn0 Hi']. rewrite Hfp in Hi' by done. lia. }
    destruct release; apply Hf; lia.
  - pose proof (fun h => passed_span h _ _ Hp) as Hsp.
    destruct release; (split; [try apply disk_ok_busy; exact Hok'|]); (split; [exact Hcap'|exact Hsp]).
  - split; [apply (ended_busy _ sz); [done|]; by rewrite (passed_busy _ _ Hp)|].
    intros Hres. destruct Hs as (_ & Hcon & _). specialize (Hcn Hres Hcon). by destruct release.
Qed.
End Loops.

(** ** A controller that stays busy *)
Lemma wait_queue_busy d : busy (ctlr d) = true -> wait_queue d = None.
Proof. intros Hb. unfold wait_queue. rewrite (bind_some _ _ _ d d) by done. by rewrite Hb. Qed.

Lemma busy_waits {A} k (fail : A) m d : busy (ctlr d) = true -> with_controller k fail m d = None.
Proof.
  intros Hb. unfold with_controller. destruct (get_chan k d) as [c|] eqn:Hc.
  - rewrite (bind_some _ _ _ c d) by (unfold with_chan; by rewrite Hc).
    by apply bind_none, wait_queue_busy.
  - apply bind_none. unfold with_chan. by rewrite Hc.
Qed.

(** Every request on every device of the disk, and the connection of another medium. *)
Definition hangs d : Prop :=
  (forall h buf len pos, disk_bread h buf len pos d = None) /\
  (forall h buf len pos, disk_bwrite h buf len pos d = None) /\
  (forall h key cfg len, disk_get_config h key cfg len d = None) /\
  (forall h key cfg len, disk_set_config h key cfg len d = None) /\
  (forall id, chan_init (chan d) = true -> connected (info d) = false -> mbr_support (chan d) = true ->
     disk_connected None id d = None).

Lemma busy_hangs d : busy (ctlr d) = true -> hangs d.
Proof.
  intros Hb. split_and!.
  - intros h buf [n|] pos; [|done]. by apply bind_none, busy_waits.
  - intros h buf [n|] pos; [|done]. by apply bind_none, busy_waits.
  - intros. by apply busy_waits.
  - intros. by apply busy_waits.
  - intros id Hi Hc Hs. unfold disk_connected.
    rewrite (bind_some _ _ _ (chan d) d) by done. rewrite Hi. cbn [negb].
    rewrite (bind_some _ _ _ d d) by done. rewrite Hc, Hs.
    rewrite (bind_some _ _ _ tt (on_info (set_ident id) d)) by done.
    apply bind_none. unfold read_mbr.
    erewrite bind_some by done. by apply bind_none, wait_queue_busy.
Qed.

(** ** A request behind the end *)
Lemma past_end_spec d h c buf n pos p last :
  served h d c -> extent c d pos = Some (p, last) -> last < p -> 0 < n < 2 ^ 32 ->
  wp (disk_bread h buf (Some n) pos) (fun '(res, len, b) d' =>
    res = - EIO /\ len = Some 0 /\ b = buf /\ d' = d) d /\
  wp (disk_bwrite h buf (Some n) pos) (fun '(res, len) d' =>
    res = - EIO /\ len = Some 0 /\ d' = set_busy true d) d.
Proof.
  intros Hs He Hp Hn.
  assert (forall b, extent c (set_busy b d) pos = Some (p, last)) as He' by done.
  destruct (Z.to_nat n) as [|k] eqn:Hk; [lia|].
  split; (apply wp_bind; eapply with_controller_spec; [done|]); apply wp_get; rewrite He', Hk;
    cbn [read_blocks write_blocks];
    rewrite !Z.gtb_ltb, (proj2 (Z.ltb_lt 0 n)), (proj2 (Z.ltb_lt last p)) by lia;
    (apply wp_bind, wp_ret, wp_ret, wp_ret); rewrite Z.sub_diag.
  - destruct Hs as (_ & _ & _ & Hb). by destruct d as [[] ? ? ? ?]; cbn in *; subst.
  - done.
Qed.
End Spec.

(** ** A disk in memory that answers as a plan says

    Each transfer takes the next item of the plan: the driver answers at once or
    later, with or without an error, and the medium may be unplugged meanwhile. An
    empty plan means an answer at once without an error. *)
Inductive reply := Now (error : bool) | Later (error unplugged : bool).

Record sim := Sim { blocks : list (list byte); plan : list reply; coming : list disk_event }.

Definition sim_sector (s : sim) (n : Z) : list byte :=
  if n <? 0 then replicate 512 0 else resize 512 0 (default [] (blocks s !! Z.to_nat n)).

Definition sim_capacity (s : sim) : Z := Z.min (Z.of_nat (length (blocks s))) (2 ^ 32).

(** Whether the next transfer fails. *)
Definition planned (s : sim) : bool :=
  match plan s with Now e :: _ | Later e _ :: _ => e | [] => false end.

(** The answer [res], now or later, and [buf] when it comes. *)
Definition sim_reply (res : Z) (buf : list byte) (s : sim) : Z * list byte * sim :=
  match plan s with
  | Later _ u :: pl =>
      (- EWOULDBLOCK, buf,
        Sim (blocks s) pl ((if u : bool then [Disconnected] else []) ++ [TransferDone res buf]))
  | pl => (res, buf, Sim (blocks s) (tail pl) [])
  end.

Definition sim_read (buf : list byte) (len pos : Z) : M sim (Z * list byte) := fun s =>
  Some (if planned s then sim_reply (- EIO) buf s
        else sim_reply ENOERR (sectors (sim_sector s) pos len ++ drop (Z.to_nat (len * 512)) buf) s).

Definition sim_store (buf : list byte) (len pos : Z) (bs : list (list byte)) : list (list byte) :=
  imap (fun i b => if (pos <=? Z.of_nat i) && (Z.of_nat i <? pos + len)
                   then buf_block buf (Z.of_nat i - pos) else b) bs.

(** A failed write leaves the blocks as they were. *)
Definition sim_write (buf : list byte) (len pos : Z) : M sim Z := fun s =>
  let r := if planned s then sim_reply (- EIO) [] s
           else sim_reply ENOERR [] (Sim (sim_store buf len pos (blocks s)) (plan s) []) in
  Some (r.1.1, r.2).

Definition sim_event : M sim disk_event := fun s =>
  match coming s with e :: es => Some (e, Sim (blocks s) (plan s) es) | [] => None end.

#[export] Instance sim_driver : DiskDriver := {|
  dsk := sim;
  funs_read _ := sim_read;
  funs_write _ := sim_write;
  funs_get_config _ _ cfg len := mret (- EINVAL, len, cfg);
  funs_set_config _ _ _ len := mret (ENOERR, len, false);
  next_event := sim_event;
  events := 2 |}.

Lemma sim_sector_length s n : length (sim_sector s n) = 512%nat.
Proof. unfold sim_sector. case_match; [by rewrite length_replicate|by rewrite length_resize]. Qed.

Lemma sim_reply_spec (Q : Z -> list byte -> sim -> Prop) res buf s :
  res <> - EWOULDBLOCK -> (forall s', blocks s' = blocks s -> Q res buf s') ->
  eventually (H := sim_driver) Q (sim_reply res buf s).1 (sim_reply res buf s).2.
Proof.
  intros Hne HQ. unfold sim_reply, eventually.
  destruct (plan s) as [|[e|e []] pl]; cbn [fst snd];
    rewrite ?(proj2 (Z.eqb_neq _ _)) by done; try by apply HQ.
  - rewrite Z.eqb_refl. cbn. eexists _, _. split; [done|]. eexists _, _. split; [done|].
    split; [done|by apply HQ].
  - rewrite Z.eqb_refl. cbn. eexists _, _. split; [done|]. split; [done|by apply HQ].
Qed.

Lemma sim_sector_store buf len pos s pl ev n :
  0 <= pos -> pos + len <= sim_capacity s -> len * 512 <= Z.of_nat (length buf) ->
  sim_sector (Sim (sim_store buf len pos (blocks s)) pl ev) n =
  if (pos <=? n) && (n <? pos + len) then buf_block buf (n - pos) else sim_sector s n.
Proof.
  intros Hpos Hcap Hlen. unfold sim_sector, sim_capacity in *. cbn [blocks].
  destruct (Z.ltb_spec n 0); [rewrite (proj2 (Z.leb_gt _ _)) by lia; done|].
  unfold sim_store. rewrite list_lookup_imap, Z2Nat.id by lia.
  destruct ((pos <=? n) && (n <? pos + len)) eqn:Hin; bool_lia.
  - destruct (lookup_lt_is_Some_2 (blocks s) (Z.to_nat n)) as [b ->]; [lia|]. cbn.
    rewrite resize_all_alt; [done|]. unfold buf_block, upto. rewrite length_take, length_drop. lia.
  - destruct (blocks s !! Z.to_nat n); done.
Qed.

Lemma sim_reply_nil res s : ((sim_reply res [] s).1.1, []) = (sim_reply res [] s).1.
Proof. unfold sim_reply. by destruct (plan s) as [|[] ?]. Qed.

#[export] Instance sim_laws : DiskLaws (H := sim_driver) (fun _ => True) sim_sector sim_capacity.
Proof.
  split.
  - intros s. unfold sim_capacity. lia.
  - apply sim_sector_length.
  - intros s i0 buf len pos _ _ Hlen Hpos Hcap Hbuf. cbn. unfold sim_read, wp.
    pose proof (sectors_length (sim_sector s) pos len (sim_sector_length s)) as Hl.
    destruct (planned s); eexists _, _.
    + rewrite <- surjective_pairing. split; [done|]. apply sim_reply_spec; [done|].
      intros s' Hs. unfold sim_capacity, sim_sector. rewrite Hs. done.
    + rewrite <- surjective_pairing. split; [done|]. apply sim_reply_spec; [done|].
      intros s' Hs. split; [unfold sim_capacity, sim_sector; by rewrite Hs|]. split; [done|].
      split; [rewrite length_app, Hl, length_drop; lia|]. split; [by rewrite drop_app_length'|].
      intros _. by rewrite take_app_length'.
  - intros s i0 buf len pos _ _ Hlen Hpos Hcap Hbuf. cbn. unfold wp, mbind, M_bind, sim_write.
    destruct (planned s); eexists _, _; (split; [done|]); rewrite sim_reply_nil;
      (apply sim_reply_spec; [done|]); intros s' Hs.
    + unfold sim_capacity, sim_sector. by rewrite Hs.
    + assert (forall n, sim_sector s' n =
        if (pos <=? n) && (n <? pos + len) then buf_block buf (n - pos) else sim_sector s n) as Hst.
      { intros n. rewrite <- (sim_sector_store buf len pos s (plan s) []) by done.
        unfold sim_sector. by rewrite Hs. }
      split; [|split; [done|split]].
      * split; [done|]. unfold sim_capacity. rewrite Hs. cbn. unfold sim_store. by rewrite length_imap.
      * intros n Hn. rewrite Hst.
        destruct (Z.leb_spec pos n), (Z.ltb_spec n (pos + len)); cbn [andb]; try done; lia.
      * intros _ i Hi. rewrite Hst, (proj2 (Z.leb_le _ _)), (proj2 (Z.ltb_lt _ _)) by lia.
        cbn. f_equal. lia.
Qed.
