(* ===== verification/DiskTheorems.v ===== *)
(** * Disks: partitions, connection, reading and writing

    The table of the master boot record comes back from the bytes it is laid out in;
    connecting a medium reads it; the name of a device finds its partition; reading
    and writing a partition. *)
From S2P Require Import Prelude CStr IoSys Disk DiskSpec.
From S2P Require FatStore.

(** ** The layout of the master boot record *)

(** The 16 bytes of an entry; [c1] and [c2] stand in the fields for the old geometry. *)
Definition entry_bytes (e : cyg_disk_partition_t * (Z * Z * Z) * (Z * Z * Z)) : list byte :=
  let '(p, (h1, s1, c1), (h2, s2, c2)) := e in
  [state p; h1; s1; c1; type p; h2; s2; c2] ++ FatStore.SET_DWORD (start p) ++ FatStore.SET_DWORD (size p).

Definition mbr_bytes (boot : list byte) (es : list (cyg_disk_partition_t * (Z * Z * Z) * (Z * Z * Z))) :
    list byte :=
  boot ++ concat (map entry_bytes es) ++ [MBR_SIG_BYTE0; MBR_SIG_BYTE1].

(** A partition as the table can describe it by its sectors. *)
Definition partition_ok (p : cyg_disk_partition_t) : Prop :=
  0 < start p /\ 0 < size p /\ end_ p = start p + size p - 1 /\ end_ p < 2 ^ 32.

Lemma entry_length e : length (entry_bytes e) = 16%nat.
Proof. by destruct e as [[? [[] ?]] [[] ?]]. Qed.

Lemma entry_read e id : partition_ok e.1.1 -> read_partition (entry_bytes e) 0 id = e.1.1.
Proof.
  destruct e as [[p [[h1 s1] c1]] [[h2 s2] c2]]. intros (Hst & Hsz & Hen & Hlt). cbn [fst] in *.
  unfold read_partition.
  assert (forall o x, fits 32 x -> FatStore.GET_DWORD (FatStore.SET_DWORD x) 0 = o -> u32 o = x) as Hx.
  { intros o x Hf <-. rewrite FatStore.GET_SET_DWORD. by apply uwrap_small in Hf as Hw; unfold uwrap; rewrite Z.mod_mod. }
  assert (READ_DWORD (entry_bytes (p, (h1, s1, c1), (h2, s2, c2))) (0 + 8) = start p) as ->.
  { eapply Hx; [unfold fits; lia|done]. }
  assert (READ_DWORD (entry_bytes (p, (h1, s1, c1), (h2, s2, c2))) (0 + 12) = size p) as ->.
  { eapply Hx; [unfold fits; lia|done]. }
  rewrite !Z.gtb_ltb, (proj2 (Z.ltb_lt _ _)), (proj2 (Z.ltb_lt 0 (size p))) by lia. cbn [andb].
  rewrite uwrap_small by lia. rewrite <- Hen. by destruct p.
Qed.

Lemma read_partition_at data e o id :
  (forall k, 0 <= k < 16 -> nthZ data (o + k) = nthZ e k) ->
  read_partition data o id = read_partition e 0 id.
Proof.
  intros Hn. unfold read_partition, READ_CHS, READ_DWORD. rewrite <- !Z.add_assoc.
  rewrite !Hn by lia. rewrite <- (Hn 0), Z.add_0_r by lia. done.
Qed.

(** Where an entry lies. *)
Lemma concat_lookup {A} (l : list (list A)) (n i k : nat) e :
  Forall (fun x => length x = n) l -> l !! i = Some e -> (k < n)%nat -> concat l !! (i * n + k)%nat = e !! k.
Proof.
  intros Hl. revert i. induction Hl as [|x l Hx Hl IH]; intros [|i] He Hk; cbn in *; try done.
  - simplify_eq. by rewrite lookup_app_l by lia.
  - rewrite lookup_app_r by lia. rewrite <- (IH i) by done. f_equal. lia.
Qed.

(** C16: the table comes back from the master boot record: whatever the boot code, the
    fields for the old geometry and the previous table, each of the first four entries
    that describes a partition by its sectors is read as that partition. *)
Theorem mbr_roundtrip boot es id old i e :
  length boot = 446%nat -> (length es <= 4)%nat -> es !! i = Some e -> partition_ok e.1.1 ->
  (i < length old)%nat -> read_partitions (mbr_bytes boot es) id old !! i = Some e.1.1.
Proof.
  intros Hb Hes He Hok Hold. unfold read_partitions. rewrite list_lookup_imap.
  destruct (lookup_lt_is_Some_2 old i Hold) as [p ->]. cbn [fmap option_fmap option_map].
  pose proof (lookup_lt_Some _ _ _ He). unfold MBR_PART_NUM.
  rewrite (proj2 (Nat.ltb_lt i 4)) by lia. f_equal. rewrite <- (entry_read e id Hok).
  apply read_partition_at. intros k Hk. unfold nthZ, mbr_bytes, MBR_PART_ADDR, MBR_PART_SIZE.
  replace (Z.to_nat _) with (length boot + (i * 16 + Z.to_nat k))%nat by lia. rewrite app_nth2_plus.
  assert (concat (map entry_bytes es) !! (i * 16 + Z.to_nat k)%nat = entry_bytes e !! Z.to_nat k) as Hc.
  { apply concat_lookup; [|by rewrite list_lookup_fmap, He|lia].
    apply Forall_fmap, Forall_true. apply entry_length. }
  destruct (lookup_lt_is_Some_2 (entry_bytes e) (Z.to_nat k)) as [b Hb']; [rewrite entry_length; lia|].
  rewrite (nth_lookup_Some _ _ _ _ Hb'). apply nth_lookup_Some. apply lookup_app_l_Some.
  by rewrite Hc.
Qed.

(** ** Connecting, looking up, reading and writing *)
Section Claims.
Context `{drvr : DiskDriver}.
Context {ready : dsk -> Prop} {sector : dsk -> Z -> list byte} {capacity : dsk -> Z}.
Context {Laws : DiskLaws ready sector capacity}.
Implicit Types (d : disk) (h : cyg_io_handle_t).

(** The table a medium with block [b] first gives. *)
Definition table_of (b : list byte) (id : cyg_disk_identify_t) (old : list cyg_disk_partition_t) :
    list cyg_disk_partition_t :=
  let cleared := map clear_type old in
  if (nthZ b MBR_SIG_ADDR =? MBR_SIG_BYTE0) && (nthZ b (MBR_SIG_ADDR + 1) =? MBR_SIG_BYTE1)
  then read_partitions b id cleared else cleared.

Lemma passed_cleared d d' ps :
  passed d d' -> partitions (info d) = map clear_type ps ->
  partitions (info d') = partitions (info d) /\ ident (info d') = ident (info d) /\
  block_size (info d') = block_size (info d) /\ blocks_num (info d') = blocks_num (info d) /\
  (connected (info d) = false -> connected (info d') = false) /\ chan_init (chan d') = chan_init (chan d).
Proof.
  intros [[] ->] Hp; [|done]. cbn. rewrite Hp, map_map. done.
Qed.

Lemma read_mbr_spec d :
  ready (drv d) -> 0 < capacity (drv d) -> busy (ctlr d) = false -> connected (info d) = false ->
  block_size (info d) = 512 ->
  wp read_mbr (fun res d' =>
    (ready (drv d') /\ capacity (drv d') = capacity (drv d) /\ forall n, sector (drv d') n = sector (drv d) n) /\
    (busy (ctlr d') = false /\ connected (info d') = false /\ chan_init (chan d') = chan_init (chan d)) /\
    (ident (info d') = ident (info d) /\ block_size (info d') = block_size (info d) /\
     blocks_num (info d') = blocks_num (info d)) /\
    partitions (info d') = if res =? ENOERR then table_of (sector (drv d) 0) (ident (info d)) (partitions (info d))
                           else map clear_type (partitions (info d))) d.
Proof.
  intros Hr Hcap Hb Hcon Hsz. unfold read_mbr. apply wp_modify. unfold wait_queue.
  apply wp_bind, wp_get. cbn [ctlr on_info]. rewrite Hb. apply wp_ret. apply wp_modify.
  set (d0 := set_busy true _). apply wp_get, wp_bind. eapply wp_mono.
  { apply transfer_spec, law_read; [done|exact Hsz|lia|lia|cbn; lia|]. rewrite length_replicate. lia. }
  intros [res buf] d1 (Hp & Hs & Hres & Hlen & _ & Hbuf).
  destruct (passed_cleared d0 d1 (partitions (info d)) Hp eq_refl) as (H1 & H2 & H3 & H4 & H5 & H6).
  specialize (H5 Hcon). subst d0. cbn in H1, H2, H3, H4, H6, Hs, Hbuf. apply wp_modify.
  destruct (Z.eqb_spec res ENOERR) as [->|Hne]; cbn [negb].
  - specialize (Hbuf eq_refl). rewrite sectors_one, take_ge in Hbuf by (rewrite Hlen, length_replicate; lia).
    subst buf. unfold table_of.
    case_match; [apply wp_modify|]; apply wp_ret; cbn; rewrite ?H1, ?H2; split_and!; tauto.
  - apply wp_ret. cbn. rewrite (proj2 (Z.eqb_neq _ _)) by done. split_and!; tauto.
Qed.

Lemma connected_spec d id :
  chan_init (chan d) = true -> connected (info d) = false -> mbr_support (chan d) = true ->
  ready (drv d) -> 0 < capacity (drv d) -> busy (ctlr d) = false -> 0 < max_transfer id ->
  wp (disk_connected None id) (fun res d' =>
    (capacity (drv d') = capacity (drv d) /\ forall n, sector (drv d') n = sector (drv d) n) /\
    busy (ctlr d') = false /\
    if res =? ENOERR then
      disk_ok (ready := ready) d' /\ connected (info d') = true /\ valid (chan d') = true /\
      blocks_num (info d') = lba_sectors_num id /\
      partitions (info d') = table_of (sector (drv d) 0) id (partitions (info d))
    else
      connected (info d') = false /\ partitions (info d') = map clear_type (partitions (info d))) d.
Proof.
  intros Hi Hc Hs Hr Hcap Hb Hmax. unfold disk_connected. apply wp_bind. exists (chan d), d. split; [done|].
  rewrite Hi. cbn [negb]. apply wp_get. rewrite Hc, Hs. apply wp_modify, wp_bind.
  eapply wp_mono; [by apply read_mbr_spec|]. cbn [info on_info set_ident ident block_size blocks_num drv partitions].
  intros res d1 ((Hr1 & Hc1 & Hs1) & (Hb1 & Hcon1 & _) & (Hid & Hsz & Hnum) & Hp).
  destruct (res =? ENOERR) eqn:Hres; [apply wp_modify|]; apply wp_ret; rewrite Hres; cbn; [|done].
  split; [done|]. split; [done|]. split; [|done]. split; cbn; [done|done|by rewrite Hid].
Qed.

(** Connecting a medium with a master boot record: when its first block can be
    read, the disk is there with as many blocks as the driver says and the partitions
    of that record; when it cannot, the disk stays away and has no partition. Nothing
    is written and the controller is free again in both cases. *)
Theorem disk_connected_ok d id :
  chan_init (chan d) = true -> connected (info d) = false -> mbr_support (chan d) = true ->
  ready (drv d) -> 0 < capacity (drv d) -> busy (ctlr d) = false -> 0 < max_transfer id ->
  wp (disk_connected None id) (fun res d' =>
    (forall n, sector (drv d') n = sector (drv d) n) /\ busy (ctlr d') = false /\
    if res =? ENOERR then
      connected (info d') = true /\ valid (chan d') = true /\
      blocks_num (info d') = lba_sectors_num id /\
      partitions (info d') = table_of (sector (drv d) 0) id (partitions (info d))
    else
      connected (info d') = false /\ Forall (fun p => type p = 0) (partitions (info d'))) d.
Proof.
  intros. eapply wp_mono; [by apply connected_spec|]. intros res d' ((_ & Hs) & Hb & Hend).
  split; [done|]. split; [done|]. destruct (res =? ENOERR); [tauto|]. destruct Hend as [Hc ->].
  split; [done|]. by apply Forall_fmap, Forall_true.
Qed.

(** What a name stands for: a decimal number. *)
Definition name_value (name : cstring) : Z := fold_left (fun v c => 10 * v + (c - 48)) name 0.

Lemma dev_number_value name : forall v,
  Forall (fun c => isdigit c = true) name -> 0 <= v ->
  (v + 1) * 10 ^ Z.of_nat (length name) <= 10 ^ 9 ->
  dev_number v name = Some (fold_left (fun v c => 10 * v + (c - 48)) name v).
Proof.
  induction name as [|c name IH]; intros v Hd Hv Hb; [done|].
  apply Forall_cons in Hd as [Hc Hd]. unfold isdigit in Hc. bool_lia. cbn [dev_number fold_left].
  rewrite Z.gtb_ltb, (proj2 (Z.ltb_ge c 48)), (proj2 (Z.ltb_ge 57 c)) by lia. cbn [orb].
  assert (10 ^ Z.of_nat (length (c :: name)) = 10 * 10 ^ Z.of_nat (length name)) as Hp.
  { cbn [length]. rewrite Nat2Z.inj_succ, Z.pow_succ_r by lia. done. }
  rewrite Hp in Hb. pose proof (Z.pow_pos_nonneg 10 (Z.of_nat (length name)) ltac:(lia) ltac:(lia)).
  rewrite s32_small by nia. apply IH; [done|lia|nia].
Qed.

Lemma dev_number_bad name : forall v, ~ Forall (fun c => isdigit c = true) name -> dev_number v name = None.
Proof.
  induction name as [|c name IH]; intros v Hn; [by destruct Hn|]. cbn [dev_number].
  destruct (isdigit c) eqn:Hc; unfold isdigit in Hc; rewrite Z.gtb_ltb.
  - bool_lia. rewrite (proj2 (Z.ltb_ge c 48)), (proj2 (Z.ltb_ge 57 c)) by lia. apply IH.
    intros Hf. apply Hn. constructor; [|done]. unfold isdigit. by rewrite (proj2 (Z.leb_le _ _)), (proj2 (Z.leb_le _ _)) by lia.
  - destruct (Z.ltb_spec c 48), (Z.ltb_spec 57 c); cbn [orb]; try done.
    rewrite (proj2 (Z.leb_le 48 c)), (proj2 (Z.leb_le c 57)) in Hc by lia. done.
Qed.

(** What the name of a device of the disk leads to, if anything: the disk itself or a
    partition that the table has. *)
Definition device_of (d : disk) (name : cstring) : option (option nat) :=
  if connected (info d) && forallb isdigit name then
    if name_value name =? 0 then Some None
    else
      let i := Z.to_nat (name_value name - 1) in
      p ← partitions (info d) !! i;
      if type p =? 0 then None else Some (Some i)
  else None.

Lemma name_value_nonneg name : forall v,
  Forall (fun c => isdigit c = true) name -> 0 <= v -> 0 <= fold_left (fun v c => 10 * v + (c - 48)) name v.
Proof.
  induction name as [|c name IH]; intros v Hd Hv; cbn [fold_left]; [done|].
  apply Forall_cons in Hd as [Hc Hd]. unfold isdigit in Hc. bool_lia. apply IH; [done|lia].
Qed.

Lemma digits_of name : if forallb isdigit name then Forall (fun c => isdigit c = true) name
                       else ~ Forall (fun c => isdigit c = true) name.
Proof.
  destruct (forallb isdigit name) eqn:Hd.
  - rewrite forallb_forall in Hd. apply Forall_forall. intros x Hx%list_elem_of_In. by apply Hd.
  - intros Hf. rewrite <- not_true_iff_false in Hd. apply Hd. apply forallb_forall.
    intros x Hx. rewrite Forall_forall in Hf. apply Hf. by apply list_elem_of_In.
Qed.

Lemma lookup_spec d i st name :
  length (pdevs_chan d) = length (partitions (info d)) -> (length name <= 9)%nat ->
  wp (disk_lookup (Handle i None) st name) (fun '(res, h) d' =>
    match device_of d name with
    | None => res = - EINVAL /\ d' = d
    | Some None => res = ENOERR /\ h = Handle i None /\ d' = d
    | Some (Some k) =>
        res = ENOERR /\ h = Handle i (Some k) /\
        d' = on_chan (Some k) (fun _ => set_partition (Some k) (chan d)) d
    end) d.
Proof.
  intros Hlen Hname. unfold disk_lookup, device_of. apply wp_bind. exists (chan d), d. split; [done|].
  apply wp_get. destruct (connected (info d)); cbn [negb andb]; [|by apply wp_ret].
  pose proof (digits_of name) as Hd. destruct (forallb isdigit name).
  2: { rewrite dev_number_bad by done. by apply wp_ret. }
  pose proof (name_value_nonneg name 0 Hd ltac:(lia)) as Hnn.
  rewrite dev_number_value; [|done|lia|].
  2: { rewrite Z.add_0_l, Z.mul_1_l. apply Z.pow_le_mono_r; lia. }
  fold (name_value name) in *. set (v := name_value name) in *. rewrite Z.gtb_ltb.
  destruct (Z.ltb_spec (Z.of_nat (length (partitions (info d)))) v) as [Hbig|Hbig].
  { rewrite (proj2 (Z.eqb_neq v 0)) by lia. cbn zeta.
    rewrite (lookup_ge_None_2 (partitions (info d))) by lia. by apply wp_ret. }
  destruct (Z.eqb_spec v 0) as [->|Hv0]; [by apply wp_ret|].
  rewrite (proj2 (Z.ltb_ge v 0)) by lia. cbn zeta. set (k := Z.to_nat (v - 1)).
  destruct (lookup_lt_is_Some_2 (partitions (info d)) k) as [p Hp]; [lia|]. rewrite Hp. cbn [mbind option_bind].
  destruct (type p =? 0); [by apply wp_ret|].
  destruct (lookup_lt_is_Some_2 (pdevs_chan d) k) as [c Hc]; [lia|].
  apply wp_bind. exists c, d. split; [unfold with_chan, get_chan; by rewrite Hc|].
  by apply wp_modify, wp_ret.
Qed.

(** The name of a device of the disk, after the disk's own: while the disk is
    connected, a decimal number leads to the disk itself, for 0, or to the partition
    with that number, if the table has one, whose handle is then served from its first
    sector to its last; everything else is refused and changes nothing. *)
Theorem disk_lookup_ok d i st name :
  length (pdevs_chan d) = length (partitions (info d)) -> (length name <= 9)%nat ->
  wp (disk_lookup (Handle i None) st name) (fun '(res, h) d' =>
    match device_of d name with
    | None => res = - EINVAL /\ d' = d
    | Some None => res = ENOERR /\ h = Handle i None /\ d' = d
    | Some (Some k) =>
        res = ENOERR /\ h = Handle i (Some k) /\ info d' = info d /\ drv d' = drv d /\
        (forall k', k' <> Some k -> get_chan k' d' = get_chan k' d) /\
        exists c p, partitions (info d) !! k = Some p /\
          span c d' = Some (start p, end_ p - start p + 1) /\
          (valid (chan d) = true -> busy (ctlr d) = false -> served h d' c)
    end) d.
Proof.
  intros Hlen Hname. eapply wp_mono; [by apply lookup_spec|]. intros [res h] d'.
  destruct (device_of d name) as [[k|]|] eqn:Hdev; [|done|done].
  intros (-> & -> & ->). split; [done|]. split; [done|]. split; [done|]. split; [done|].
  unfold device_of in Hdev. destruct (connected (info d)) eqn:Hcon; [|done]. cbn [andb] in Hdev.
  destruct (forallb isdigit name); [|done]. case_match; [done|]. cbn zeta in Hdev.
  destruct (partitions (info d) !! Z.to_nat (name_value name - 1)) as [p|] eqn:Hp; cbn in Hdev; [|done].
  case_match; [done|]. injection Hdev as <-.
  pose proof (lookup_lt_Some _ _ _ Hp) as Hlt. rewrite <- Hlen in Hlt. apply lookup_lt_is_Some_2 in Hlt as [c0 Hc0].
  split.
  - intros [k'|] Hk; [|done]. cbn. rewrite list_lookup_alter_ne; [done|congruence].
  - exists (set_partition (Some (Z.to_nat (name_value name - 1))) (chan d)), p.
    split; [done|]. split; [unfold span; cbn; by rewrite Hp|].
    intros Hv Hb. unfold served. cbn. rewrite list_lookup_alter_eq, Hc0. split_and!; done.
Qed.

(** C12: reading [n] blocks that lie within a device from its block [pos] on, the device
    being usable (connected, a valid handle, the controller free), the buffer being
    large enough and [n] less than 2^23, so that the bytes are counted in 32 bits. The
    call returns; the buffer has the first [m] of the blocks, [m] as reported, all of them
    when there was no error, and is untouched behind the [n] blocks; nothing on the
    medium changes. A request during which the medium was unplugged does not succeed. On
    success the controller is free again; after an error, that of the driver or that for
    the medium that is gone, it stays busy: every later request on any device of the disk
    waits for ever, and so does the connection of another medium. *)
Theorem disk_read_ok d h c buf n pos first count :
  disk_ok (ready := ready) d -> served h d c -> on_medium (capacity := capacity) c d first count ->
  fits 32 pos -> 0 <= n < 2 ^ 23 -> pos + n <= count -> n * 512 <= Z.of_nat (length buf) ->
  wp (disk_bread h buf (Some n) pos) (fun '(res, len, b) d' =>
    exists m, len = Some m /\ 0 <= m <= n /\ (res = ENOERR -> m = n) /\
      carries (sector (drv d)) buf b (first + pos) m n /\
      (forall i, sector (drv d') i = sector (drv d) i) /\
      (connected (info d') = false -> res <> ENOERR) /\
      if res =? ENOERR then busy (ctlr d') = false else hangs d') d.
Proof.
  intros. eapply wp_mono; [by eapply disk_bread_spec|]. intros [[res len] b] d' (m & Hl & Hm & [_ Hr] & Hc & Hs & _ & Hb & Hg).
  exists m. do 5 (split; [done|]). split; [intros Hu Hres; by rewrite Hg in Hu|]. destruct (res =? ENOERR); [done|by apply busy_hangs].
Qed.

(** C11: writing [n] blocks that lie within a device from its block [pos] on, under the
    conditions of reading. The call returns; the first [m] blocks are on the medium, [m] as reported, all of them when
    there was no error, and no block of the medium outside the [n] addressed ones
    changes. After an error the controller stays busy for ever, as after reading. *)
Theorem disk_write_ok d h c buf n pos first count :
  disk_ok (ready := ready) d -> served h d c -> on_medium (capacity := capacity) c d first count ->
  fits 32 pos -> 0 <= n < 2 ^ 23 -> pos + n <= count -> n * 512 <= Z.of_nat (length buf) ->
  wp (disk_bwrite h buf (Some n) pos) (fun '(res, len) d' =>
    exists m, len = Some m /\ 0 <= m <= n /\ (res = ENOERR -> m = n) /\
      stored (sector (drv d)) (sector (drv d')) buf (first + pos) m n /\
      if res =? ENOERR then busy (ctlr d') = false else hangs d') d.
Proof.
  intros. eapply wp_mono; [by eapply disk_bwrite_spec|]. intros [res len] d' (m & Hl & Hm & [_ Hr] & Hs & _ & Hb & _).
  exists m. split; [done|]. split; [done|]. split; [done|]. split; [done|]. destruct (res =? ENOERR); [done|by apply busy_hangs].
Qed.
End Claims.

(** ** A disk with two partitions *)
Definition demo_ident : cyg_disk_identify_t := Identify [] [] [] 1 1 6 6 1 2.

Definition demo_entries : list (cyg_disk_partition_t * (Z * Z * Z) * (Z * Z * Z)) :=
  [(Partition 6 0x80 1 2 2, (0, 2, 0), (0, 3, 0)); (Partition 4 0 3 5 3, (0, 4, 0), (0, 6, 0))].

(** The record, then blocks filled with their number. *)
Definition demo_blocks : list (list byte) :=
  (mbr_bytes (replicate 446 0xEB) (demo_entries ++ replicate 2 (Partition 0 0 0 0 0, (0, 0, 0), (0, 0, 0)))) ::
  map (fun n => replicate 512 (Z.of_nat n)) (seq 1 5).

Definition demo_start (pl : list reply) : disk := DISK_CHANNEL true 4 demo_ident (Sim demo_blocks pl []).

Definition demo_init (pl : list reply) : disk := state_after (disk_init None) (demo_start pl).
Definition demo_connected (pl : list reply) : disk :=
  state_after (disk_connected None demo_ident) (demo_init pl).
(** With the device of the second partition; what follows is planned by [pl]. *)
Definition demo (pl : list reply) : disk :=
  state_after (disk_lookup (Handle 0 None) None (str "2")) (demo_connected (Now false :: pl)).

Definition demo_chan : disk_channel := Channel (Some 1%nat) true true true 0.

Lemma demo_served pl : served (Handle 0 (Some 1%nat)) (demo pl) demo_chan.
Proof. unfold served. split_and!; by vm_compute. Qed.

Lemma demo_ok pl : disk_ok (ready := fun _ => True) (demo pl).
Proof. split; [done|by vm_compute|by vm_compute]. Qed.

Lemma demo_on_medium pl : on_medium (capacity := sim_capacity) demo_chan (demo pl) 3 3.
Proof. split_and!; [by vm_compute|lia|lia|]. by vm_compute. Qed.

Lemma mbr_roundtrip_witness :
  read_partitions (mbr_bytes (replicate 446 0xEB) demo_entries) demo_ident (replicate 4 (Partition 0 0 0 0 0)) !! 1%nat =
    Some (Partition 4 0 3 5 3).
Proof.
  apply (mbr_roundtrip _ demo_entries _ _ 1 (Partition 4 0 3 5 3, (0, 4, 0), (0, 6, 0)));
    [reflexivity|cbn; lia|reflexivity|unfold partition_ok; cbn; lia|cbn; lia].
Defined.

Lemma disk_connected_ok_witness :
  wp (disk_connected None demo_ident) (fun res d' =>
    (forall n, sim_sector (drv d') n = sim_sector (drv (demo_init [Later false false])) n) /\
    busy (ctlr d') = false /\
    if res =? ENOERR then
      connected (info d') = true /\ valid (chan d') = true /\
      blocks_num (info d') = lba_sectors_num demo_ident /\
      partitions (info d') =
        table_of (sim_sector (drv (demo_init [Later false false])) 0) demo_ident
          (partitions (info (demo_init [Later false false])))
    else
      connected (info d') = false /\ Forall (fun p => type p = 0) (partitions (info d')))
    (demo_init [Later false false]).
Proof. by apply (disk_connected_ok (Laws := sim_laws)). Defined.

Lemma disk_lookup_ok_witness :
  wp (disk_lookup (Handle 0 None) None (str "2")) (fun '(res, h) d' =>
    match device_of (demo_connected []) (str "2") with
    | None => res = - EINVAL /\ d' = demo_connected []
    | Some None => res = ENOERR /\ h = Handle 0 None /\ d' = demo_connected []
    | Some (Some k) =>
        res = ENOERR /\ h = Handle 0 (Some k) /\ info d' = info (demo_connected []) /\
        drv d' = drv (demo_connected []) /\
        (forall k', k' <> Some k -> get_chan k' d' = get_chan k' (demo_connected [])) /\
        exists c p, partitions (info (demo_connected [])) !! k = Some p /\
          span c d' = Some (start p, end_ p - start p + 1) /\
          (valid (chan (demo_connected [])) = true -> busy (ctlr (demo_connected [])) = false -> served h d' c)
    end) (demo_connected []).
Proof. apply disk_lookup_ok; [vm_compute; reflexivity|cbn; lia]. Defined.

(** Three blocks in two transfers, the second of which ends because the medium is
    unplugged. *)
Lemma disk_read_ok_witness :
  wp (disk_bread (Handle 0 (Some 1%nat)) (replicate 1536 0) (Some 3) 0) (fun '(res, len, b) d' =>
    exists m, len = Some m /\ 0 <= m <= 3 /\ (res = ENOERR -> m = 3) /\
      carries (sim_sector (drv (demo [Now false; Later true true]))) (replicate 1536 0) b (3 + 0) m 3 /\
      (forall i, sim_sector (drv d') i = sim_sector (drv (demo [Now false; Later true true])) i) /\
      (connected (info d') = false -> res <> ENOERR) /\
      if res =? ENOERR then busy (ctlr d') = false else hangs d') (demo [Now false; Later true true]).
Proof.
  apply (disk_read_ok (Laws := sim_laws) _ _ demo_chan _ _ _ _ 3 (demo_ok _) (demo_served _) (demo_on_medium _));
    [split; lia|lia|lia|rewrite length_replicate; lia].
Defined.

Lemma disk_write_ok_witness :
  wp (disk_bwrite (Handle 0 (Some 1%nat)) (replicate 1536 7) (Some 3) 0) (fun '(res, len) d' =>
    exists m, len = Some m /\ 0 <= m <= 3 /\ (res = ENOERR -> m = 3) /\
      stored (sim_sector (drv (demo [Now false; Later false false]))) (sim_sector (drv d'))
        (replicate 1536 7) (3 + 0) m 3 /\
      if res =? ENOERR then busy (ctlr d') = false else hangs d') (demo [Now false; Later false false]).
Proof.
  apply (disk_write_ok (Laws := sim_laws) _ _ demo_chan _ _ _ _ 3 (demo_ok _) (demo_served _) (demo_on_medium _));
    [split; lia|lia|lia|rewrite length_replicate; lia].
Defined.

(** What these runs give. *)
Example demo_reads :
  (fun r => (r.1.1, length (filter (fun x => x = 3) r.1.2), busy (ctlr r.2))) <$>
    disk_bread (Handle 0 (Some 1%nat)) (replicate 1536 0) (Some 3) 0 (demo [Now false; Later true true]) =
  Some (- EIO, Some 2, 512%nat, true).
Proof. vm_compute. reflexivity. Qed.

(** * Where the layer does not do what it means to

    A request past the end of a device, and runs of the disk in memory. *)
Module Flaws.
Section PastEnd.
Context `{drvr : DiskDriver}.
Implicit Types (d : disk) (h : cyg_io_handle_t).

(** C15: a request for at least one block that starts behind the last block of a usable
    device is refused with -EIO, no block is transferred and the medium is not touched, provided that the start of the
    device plus the block number is less than 2^32. (The sum is formed in 32 bits: where
    it wraps around, the request is carried out elsewhere on the medium, see
    write_wraps_around.) After a read the controller is free again; after a write it
    stays busy, and every later request on any device of the disk waits for ever. *)
Theorem disk_past_end d h c buf n pos first count :
  served h d c -> span c d = Some (first, count) -> 0 <= first -> 0 < count -> first + count <= 2 ^ 32 ->
  count <= pos -> first + pos < 2 ^ 32 -> 0 < n < 2 ^ 32 ->
  wp (disk_bread h buf (Some n) pos) (fun '(res, len, b) d' =>
    res = - EIO /\ len = Some 0 /\ b = buf /\ d' = d) d /\
  wp (disk_bwrite h buf (Some n) pos) (fun '(res, len) d' =>
    res = - EIO /\ len = Some 0 /\ drv d' = drv d /\ info d' = info d /\ hangs d') d.
Proof.
  intros Hs Hsp Hf Hc Hend Hpos Hw32 Hn.
  assert (extent c d pos = Some (first + pos, first + count - 1)) as He.
  { unfold span, extent in *. destruct (partition c) as [i|].
    - destruct (partitions (info d) !! i) as [p|]; cbn in *; [|done]. simplify_eq. rewrite uwrap_small by lia. do 2 f_equal; lia.
    - simplify_eq. rewrite uwrap_small by lia. do 2 f_equal; lia. }
  destruct (past_end_spec d h c buf n pos _ _ Hs He ltac:(lia) Hn) as [Hr Hw].
  split; [done|]. eapply wp_mono; [exact Hw|]. intros [res len] d' (-> & -> & ->).
  split_and!; try done. by apply busy_hangs.
Qed.
End PastEnd.

Lemma disk_past_end_witness :
  wp (disk_bread (Handle 0 (Some 1%nat)) (replicate 512 0) (Some 1) 3) (fun '(res, len, b) d' =>
    res = - EIO /\ len = Some 0 /\ b = replicate 512 0 /\ d' = demo []) (demo []) /\
  wp (disk_bwrite (Handle 0 (Some 1%nat)) (replicate 512 0) (Some 1) 3) (fun '(res, len) d' =>
    res = - EIO /\ len = Some 0 /\ drv d' = drv (demo []) /\ info d' = info (demo []) /\ hangs d') (demo []).
Proof.
  apply (disk_past_end _ _ demo_chan _ _ _ 3 3); [apply demo_served|vm_compute; reflexivity|lia..].
Defined.

(** ** Runs *)
Definition block_of (d : disk) (n : Z) : Z := nthZ (sim_sector (drv d) n) 511.

(** Only the first block of a transfer is compared with the end of the partition: two
    blocks written at the last one of the first partition change the second. *)
Lemma write_runs_over :
  let d := state_after (disk_lookup (Handle 0 None) None (str "1")) (demo []) in
  span (Channel (Some 0%nat) true true true 0) d = Some (1, 2) /\
  (fun r => (r.1, block_of r.2 3)) <$> disk_bwrite (Handle 0 (Some 0%nat)) (replicate 1024 9) (Some 2) 1 d =
    Some (ENOERR, Some 2, 9).
Proof. split; vm_compute; reflexivity. Qed.

(** The start of the partition is added in 32 bits: a block number near their end
    leads to the master boot record. *)
Lemma write_wraps_around :
  (fun r => (r.1, block_of r.2 0)) <$>
    disk_bwrite (Handle 0 (Some 1%nat)) (replicate 512 9) (Some 1) (2 ^ 32 - 3) (demo []) =
  Some (ENOERR, Some 1, 9).
Proof. vm_compute. reflexivity. Qed.

(** The number in a name wraps around as well. *)
Lemma name_wraps_around :
  fst <$> disk_lookup (Handle 0 None) None (str "4294967298") (demo []) =
  Some (ENOERR, Handle 0 (Some 1%nat)).
Proof. vm_compute. reflexivity. Qed.

(** Looking a partition up again forgets that it is mounted, the disk does not. *)
Lemma lookup_forgets_mounts :
  let d := state_after (disk_set_config (Handle 0 (Some 1%nat)) CYG_IO_SET_CONFIG_DISK_MOUNT (CfgBytes []) None) (demo []) in
  let d' := state_after (disk_lookup (Handle 0 None) None (str "2")) d in
  mounts <$> get_chan (Some 1%nat) d = Some 1 /\ mounts <$> get_chan (Some 1%nat) d' = Some 0 /\
  info_mounts (info d') = 1.
Proof. split_and!; vm_compute; reflexivity. Qed.

(** A medium that goes away while its record is read is declared to be there. *)
Lemma unplugged_is_connected :
  let d := state_after (disk_connected None demo_ident) (demo_init [Later false true]) in
  connected (info d) = true /\ valid (chan d) = true.
Proof. split; vm_compute; reflexivity. Qed.
End Flaws.
