(* ===== verification/DiskInv.v ===== *)
(** * Disks: what holds in every state the system can reach

    Whatever the driver answers and whenever the medium is unplugged: the structures
    keep their shape and their fields their widths, and a device that is served stands
    for a partition of the medium that is there. *)
From S2P Require Import Prelude CStr IoSys Disk DiskSpec DiskTheorems.

Section Inv.
Context `{drvr : DiskDriver}.
Implicit Types (d : disk).

Definition partition_fits (p : cyg_disk_partition_t) : Prop :=
  fits 32 (start p) /\ fits 32 (end_ p) /\ fits 32 (size p).

Record disk_inv (num : nat) (d : disk) : Prop := {
  wf_partitions : length (partitions (info d)) = num;
  wf_pdevs : length (pdevs_chan d) = num;
  wf_fits : Forall partition_fits (partitions (info d));
  wf_mounts : fits 32 (info_mounts (info d)) /\ fits 32 (mounts (chan d)) /\
    Forall (fun c => fits 32 (mounts c)) (pdevs_chan d);
  wf_root : partition (chan d) = None;
  wf_init : connected (info d) = true -> chan_init (chan d) = true /\ block_size (info d) = 512;
  wf_valid i c : pdevs_chan d !! i = Some c -> valid c = true ->
    connected (info d) = true /\ partition c = Some i /\
    exists p, partitions (info d) !! i = Some p /\ type p <> 0 }.

(** A call of the layer, from the I/O system, from the driver or from its interrupts. *)
Inductive disk_step (d : disk) : disk -> Prop :=
  | step_init b d' : disk_init None d = Some (b, d') -> disk_step d d'
  | step_connected id res d' : disk_connected None id d = Some (res, d') -> disk_step d d'
  | step_disconnected res d' : disk_disconnected None d = Some (res, d') -> disk_step d d'
  | step_done res d' : disk_transfer_done res d = Some (tt, d') -> disk_step d d'
  | step_lookup i st name r d' : disk_lookup (Handle i None) st name d = Some (r, d') -> disk_step d d'
  | step_bread h buf len pos r d' : disk_bread h buf len pos d = Some (r, d') -> disk_step d d'
  | step_bwrite h buf len pos r d' : disk_bwrite h buf len pos d = Some (r, d') -> disk_step d d'
  | step_select h which inf r d' : disk_select h which inf d = Some (r, d') -> disk_step d d'
  | step_get h key cfg len r d' : disk_get_config h key cfg len d = Some (r, d') -> disk_step d d'
  | step_set h key cfg len r d' : disk_set_config h key cfg len d = Some (r, d') -> disk_step d d'
  | step_driver s : disk_step d (Disk (ctlr d) (chan d) (pdevs_chan d) (info d) s).

Definition disk_reachable (d0 : disk) : disk -> Prop := rtc disk_step d0.

(** ** What keeps the shape *)
#[local] Abbreviation stays num := (keeps (disk_inv num) (disk_inv num)).

Lemma wf_start mbr num id s : disk_inv num (DISK_CHANNEL mbr num id s).
Proof.
  split; cbn.
  - apply length_replicate.
  - apply length_replicate.
  - apply Forall_replicate. unfold partition_fits, fits. cbn. lia.
  - split_and!; try (unfold fits; lia). apply Forall_replicate. unfold fits. cbn. lia.
  - done.
  - done.
  - intros i c Hc. by apply lookup_replicate in Hc as [-> _].
Qed.

Lemma wf_ctlr num d r b s i :
  disk_inv num d -> disk_inv num (Disk (Controller r i b) (chan d) (pdevs_chan d) (info d) s).
Proof. by intros []; split. Qed.

Lemma wf_cleared num ps :
  length ps = num -> Forall partition_fits ps ->
  length (map clear_type ps) = num /\ Forall partition_fits (map clear_type ps).
Proof.
  intros <- Hf. rewrite length_map. split; [done|]. apply Forall_fmap.
  eapply Forall_impl; [exact Hf|]. by intros [].
Qed.

Lemma invalid_pdevs (l : list disk_channel) i c :
  map (set_valid false) l !! i = Some c -> valid c = false.
Proof. rewrite list_lookup_fmap. destruct (l !! i); intros [= <-]. done. Qed.

Lemma wf_unplug num k d : disk_inv num d -> disk_inv num (unplug k d).
Proof.
  intros [H1 H2 H3 (H4 & H5 & H6) H7 H8 H9]. destruct (wf_cleared num _ H1 H3) as [Hl Hf].
  assert (forall l : list disk_channel, Forall (fun c => fits 32 (mounts c)) l ->
    Forall (fun c => fits 32 (mounts c)) (map (set_valid false) l)) as Hv.
  { intros l Hl'. apply Forall_fmap. eapply Forall_impl; [exact Hl'|done]. }
  destruct k as [k|]; split; cbn; rewrite ?length_map, ?length_alter; try done; try by (split_and!; auto).
  - split_and!; [done..|]. apply Hv. apply Forall_alter; [done|]. by intros.
  - intros i c Hc%invalid_pdevs. congruence.
  - intros i c Hc%invalid_pdevs. congruence.
Qed.

(** Transfers keep whatever does not depend on the controller and the medium and
    survives unplugging. *)
Section Transfers.
Context (I : disk -> Prop).
Context (I_ctlr : forall d r i b s, I d -> I (Disk (Controller r i b) (chan d) (pdevs_chan d) (info d) s)).
Context (I_unplug : forall k d, I d -> I (unplug k d)).

Lemma keeps_ctlr f :
  (forall d, exists r i b, f d = Disk (Controller r i b) (chan d) (pdevs_chan d) (info d) (drv d)) ->
  keeps I I (modify f).
Proof using I_ctlr. intros Hf. apply keeps_modify. intros d Hd. destruct (Hf d) as (r & i & b & ->). by apply I_ctlr. Qed.

Lemma keeps_result r : keeps I I (modify (set_result r)).
Proof using I_ctlr. apply keeps_ctlr. intros d. by eexists _, _, _. Qed.

Lemma keeps_busy b : keeps I I (modify (set_busy b)).
Proof using I_ctlr. apply keeps_ctlr. intros d. by eexists _, _, _. Qed.

Lemma keeps_call {A} (m : M dsk A) : keeps I I (call m).
Proof using I_ctlr.
  intros d a d' Hd. unfold call. destruct (m (drv d)) as [[x s]|]; [|done]. intros [= _ <-].
  destruct d as [[r i b] ? ? ? ?]. by apply (I_ctlr _ r i b s) in Hd.
Qed.

Lemma keeps_with_chan k : keeps I I (with_chan k).
Proof using. intros d c d' Hd. unfold with_chan. destruct (get_chan k d); [|done]. by intros [= _ <-]. Qed.

Lemma keeps_wait_queue : keeps I I wait_queue.
Proof using. apply keeps_read. intros d _. destruct (busy (ctlr d)); [apply keeps_crash|apply keeps_ret]. Qed.

Lemma keeps_disconnected k : keeps I I (disk_disconnected k).
Proof using I_unplug.
  unfold disk_disconnected. apply (keeps_bind _ I); [apply keeps_with_chan|]. intros c.
  destruct (negb (chan_init c)); [apply keeps_ret|].
  apply (keeps_bind _ I); [apply keeps_modify, I_unplug|]. intros _. apply keeps_ret.
Qed.

Lemma keeps_wait_async n : forall buf, keeps I I (wait_async n buf).
Proof using I_ctlr I_unplug.
  induction n as [|n IH]; intros buf; cbn [wait_async]; apply keeps_read; intros d _;
    (case_match; [|apply keeps_ret]); [apply keeps_crash|].
  apply (keeps_bind _ I); [apply keeps_call|]. intros [res b|].
  - apply (keeps_bind _ I); [apply keeps_result|]. intros _. apply IH.
  - apply (keeps_bind _ I); [apply keeps_disconnected|]. intros _. apply IH.
Qed.

Lemma keeps_transfer m : keeps I I (transfer m).
Proof using I_ctlr I_unplug.
  apply (keeps_bind _ I); [apply keeps_result|]. intros _.
  apply (keeps_bind _ I); [apply keeps_call|]. intros [res b].
  case_match; [|apply keeps_ret]. apply (keeps_bind _ I); [apply keeps_wait_async|]. intros b'.
  apply keeps_read. intros. apply keeps_ret.
Qed.

(** Follows the code of a computation that keeps [I]. *)
#[local] Ltac keeps_steps :=
  cbv zeta;
  lazymatch goal with
  | |- keeps _ _ (mret _) => apply keeps_ret
  | |- keeps _ _ crash => apply keeps_crash
  | |- keeps _ _ (get_state ≫= _) => apply keeps_read; intros ? _; keeps_steps
  | |- keeps _ _ (_ ≫= _) => apply (keeps_bind _ I); [keeps_steps|intros ?; keeps_steps]
  | |- keeps _ _ (match ?x with _ => _ end) => destruct x; keeps_steps
  | |- keeps _ _ (transfer _) => apply keeps_transfer
  | |- keeps _ _ (call _) => apply keeps_call
  | |- keeps _ _ (with_chan _) => apply keeps_with_chan
  | |- keeps _ _ wait_queue => apply keeps_wait_queue
  | |- keeps _ _ (disk_disconnected _) => apply keeps_disconnected
  | |- keeps _ _ (modify (set_busy _)) => apply keeps_busy
  | |- keeps _ _ (modify (set_result _)) => apply keeps_result
  | |- _ => try solve [eauto]
  end.

Lemma keeps_read_blocks fuel : forall buf pos last sz, keeps I I (read_blocks fuel buf pos last sz).
Proof using I_ctlr I_unplug. induction fuel as [|fuel IH]; intros; cbn [read_blocks]; keeps_steps. Qed.

Lemma keeps_write_blocks fuel : forall buf pos last sz, keeps I I (write_blocks fuel buf pos last sz).
Proof using I_ctlr I_unplug. induction fuel as [|fuel IH]; intros; cbn [write_blocks]; keeps_steps. Qed.

Lemma keeps_controller {A} k (fail : A) m : (forall c, keeps I I (m c)) -> keeps I I (with_controller k fail m).
Proof using I_ctlr I_unplug.
  intros Hm. unfold with_controller. keeps_steps.
  apply keeps_ctlr. intros d. destruct b; [by eexists _, _, _|]. by destruct d as [[] ? ? ? ?]; eexists _, _, _.
Qed.

Lemma keeps_bread h buf len pos : keeps I I (disk_bread h buf len pos).
Proof using I_ctlr I_unplug.
  unfold disk_bread. destruct len; [|apply keeps_crash]. apply (keeps_bind _ I); [|intros ?; keeps_steps].
  apply keeps_controller. intros c. keeps_steps. apply keeps_read_blocks.
Qed.

Lemma keeps_bwrite h buf len pos : keeps I I (disk_bwrite h buf len pos).
Proof using I_ctlr I_unplug.
  unfold disk_bwrite. destruct len; [|apply keeps_crash]. apply (keeps_bind _ I); [|intros ?; keeps_steps].
  apply keeps_controller. intros c. keeps_steps. apply keeps_write_blocks.
Qed.

Lemma keeps_get_config h key cfg len : keeps I I (disk_get_config h key cfg len).
Proof using I_ctlr I_unplug. apply keeps_controller. intros c. keeps_steps. Qed.

Lemma keeps_set_config h key cfg len :
  (forall k x d, I d -> I (add_mounts k x d)) -> keeps I I (disk_set_config h key cfg len).
Proof using I_ctlr I_unplug.
  intros Hm. apply keeps_controller. intros c. keeps_steps; apply keeps_modify; by auto.
Qed.
End Transfers.

(** ** The calls that change the tables *)
Lemma wf_add_mounts num k x d : disk_inv num d -> disk_inv num (add_mounts k x d).
Proof.
  intros [H1 H2 H3 (H4 & H5 & H6) H7 H8 H9].
  assert (forall m, fits 32 (u32 (m + x))) as Hu by (intros; apply uwrap_range; lia).
  destruct k as [k|]; split; cbn; rewrite ?length_alter; try done; try by split_and!.
  - split_and!; [done|done|]. apply Forall_alter; [done|]. intros c _ _. apply Hu.
  - intros i c Hc Hv. destruct (decide (i = k)) as [->|Hne].
    + rewrite list_lookup_alter_eq in Hc. destruct (pdevs_chan d !! k) as [c0|] eqn:E; cbn in Hc; [|done].
      simplify_eq. by apply (H9 k c0).
    + rewrite list_lookup_alter_ne in Hc by done. by apply (H9 i c).
Qed.

(** In shape, initialised and without a medium. *)
Definition wf_away (num : nat) (d : disk) : Prop :=
  disk_inv num d /\ connected (info d) = false /\ chan_init (chan d) = true /\ block_size (info d) = 512.

Lemma away_info num d f :
  disk_inv num d -> connected (info d) = false -> chan_init (chan d) = true ->
  connected (f (info d)) = false -> block_size (f (info d)) = 512 ->
  length (partitions (f (info d))) = num -> Forall partition_fits (partitions (f (info d))) ->
  fits 32 (info_mounts (f (info d))) -> wf_away num (on_info f d).
Proof.
  intros [H1 H2 H3 (H4 & H5 & H6) H7 H8 H9] Hc Hi Hcf Hb Hl Hf Hm. split; [|done].
  split; cbn; try done.
  intros i c Hp Hv. destruct (H9 i c Hp Hv). congruence.
Qed.

Lemma away_ctlr num d r i b s :
  wf_away num d -> wf_away num (Disk (Controller r i b) (chan d) (pdevs_chan d) (info d) s).
Proof. intros (Hwf & Hc & Hi). split; [by apply wf_ctlr|done]. Qed.

Lemma away_unplug num k d : wf_away num d -> wf_away num (unplug k d).
Proof.
  intros (Hwf & Hc & Hi & Hb). split; [by apply wf_unplug|]. by destruct k.
Qed.

Lemma READ_DWORD_fits b o : fits 32 (READ_DWORD b o).
Proof. apply uwrap_range. lia. Qed.

Lemma CHS_TO_LBA_fits id chs : fits 32 (CHS_TO_LBA id chs).
Proof. destruct chs as [[c h] s]. apply uwrap_range. lia. Qed.

Lemma read_partition_fits b o id : partition_fits (read_partition b o id).
Proof.
  unfold read_partition. destruct (_ && _); split_and!; cbn [start end_ size];
    first [apply READ_DWORD_fits | apply CHS_TO_LBA_fits | apply uwrap_range; lia].
Qed.

Lemma read_partitions_fits b id ps :
  Forall partition_fits ps -> Forall partition_fits (read_partitions b id ps).
Proof.
  intros Hf. unfold read_partitions. rewrite Forall_lookup in *. intros i p.
  rewrite list_lookup_imap. destruct (ps !! i) as [q|] eqn:Hq; cbn; [|done]. intros [= <-].
  case_match; [apply read_partition_fits|by eapply Hf].
Qed.

Lemma away_read_mbr num : keeps (wf_away num) (wf_away num) read_mbr.
Proof.
  assert (forall f : cyg_disk_info_t -> list cyg_disk_partition_t,
    (forall i, length (f i) = length (partitions i)) ->
    (forall i, Forall partition_fits (partitions i) -> Forall partition_fits (f i)) ->
    keeps (wf_away num) (wf_away num) (modify (on_info (fun i => set_partitions (f i) i)))) as Hset.
  { intros f Hl Hf. apply keeps_modify. intros d (Hd & Hc & Hi & Hb). pose proof Hd as [].
    apply away_info; cbn; [done|done|done|done|done|by rewrite Hl|by apply Hf|tauto]. }
  assert (forall i : cyg_disk_info_t, Forall partition_fits (partitions i) ->
    Forall partition_fits (map clear_type (partitions i))) as Hclear.
  { intros i Hf. by apply (wf_cleared _ _ eq_refl). }
  unfold read_mbr. eapply keeps_bind; [apply Hset; [intros; apply length_map|apply Hclear]|]. intros _.
  eapply keeps_bind; [apply keeps_wait_queue|]. intros _.
  eapply keeps_bind; [apply keeps_busy, away_ctlr|]. intros _. apply keeps_read. intros d _.
  eapply keeps_bind; [apply keeps_transfer; [apply away_ctlr|apply away_unplug]|]. intros [res buf].
  eapply keeps_bind; [apply keeps_busy, away_ctlr|]. intros _.
  case_match; [apply keeps_ret|]. case_match; [|apply keeps_ret].
  eapply keeps_bind; [|intros _; apply keeps_ret]. apply Hset; intros i.
  - unfold read_partitions. apply length_imap.
  - apply read_partitions_fits.
Qed.

Lemma stays_init num : stays num (disk_init None).
Proof.
  intros d b d' Hwf. unfold disk_init. rewrite (bind_some _ _ _ (chan d) d) by done.
  destruct (chan_init (chan d)) eqn:Hi; cbn [negb]; [by intros [= _ <-]|].
  intros [= _ <-]. pose proof Hwf as [H1 H2 H3 (H4 & H5 & H6) H7 H8 H9].
  destruct (wf_cleared num _ H1 H3) as [Hl Hf].
  assert (forall e : disk, info e = info d -> chan e = chan d -> pdevs_chan e = pdevs_chan d ->
    disk_inv num (on_chan None (set_chan_init true)
      (on_info (fun i => set_partitions (map clear_type (partitions i)) (set_connected false i)) e))) as Hgo.
  { intros e E1 E2 E3. split; cbn; rewrite ?E1, ?E2, ?E3; try done; try by split_and!.
    intros i c Hc Hv. destruct (H9 i c Hc Hv) as (Hcon & _). apply H8 in Hcon as [Hcon _]. congruence. }
  destruct (ctlr_init (ctlr d)); by apply Hgo.
Qed.

Lemma stays_connected num id : stays num (disk_connected None id).
Proof.
  intros d res d' Hwf. unfold disk_connected. rewrite (bind_some _ _ _ (chan d) d) by done.
  destruct (chan_init (chan d)) eqn:Hi; cbn [negb]; [|by intros [= _ <-]].
  rewrite (bind_some _ _ _ d d) by done.
  destruct (connected (info d)) eqn:Hc; [by intros [= _ <-]|].
  rewrite (bind_some _ _ _ tt (on_info (set_ident id) d)) by done.
  apply (keeps_bind (wf_away num) (wf_away num)).
  - case_match; [apply away_read_mbr|apply keeps_ret].
  - intros r. case_match; [|apply (keeps_weaken (disk_inv num)); [apply keeps_ret|by intros ? [? _]]].
    eapply keeps_bind; [|intros _; apply keeps_ret]. apply keeps_modify.
    intros e ([H1 H2 H3 (H4 & H5 & H6) H7 H8 H9] & Hc' & Hi' & Hb').
    split; cbn; try done.
    intros i c Hl Hv. destruct (H9 i c Hl Hv). congruence.
  - pose proof Hwf as [H1 H2 H3 (H4 & H5 & H6) H7 H8 H9]. by apply away_info.
Qed.

Lemma stays_lookup num i st name : stays num (disk_lookup (Handle i None) st name).
Proof.
  intros d r d' Hwf. unfold disk_lookup. cbn [sub]. rewrite (bind_some _ _ _ (chan d) d) by done.
  rewrite (bind_some _ _ _ d d) by done.
  destruct (connected (info d)) eqn:Hc; cbn [negb]; [|by intros [= _ <-]].
  destruct (dev_number 0 name) as [v|]; [|by intros [= _ <-]].
  case_match; [by intros [= _ <-]|]. case_match; [by intros [= _ <-]|]. case_match; [done|]. cbv zeta.
  destruct (partitions (info d) !! Z.to_nat (v - 1)) as [p|] eqn:Hp; [|done].
  destruct (Z.eqb_spec (type p) 0) as [|Ht]; [by intros [= _ <-]|].
  unfold with_chan, mbind, M_bind. destruct (get_chan (Some (Z.to_nat (v - 1))) d) as [c|] eqn:Hg; [|done].
  intros [= _ <-]. destruct Hwf as [W1 W2 W3 (W4 & W5 & W6) W7 W8 W9].
  split; cbn; rewrite ?length_alter; try done.
  - split_and!; [done|done|]. apply Forall_alter; [done|]. by intros.
  - intros j e He Hv. destruct (decide (j = Z.to_nat (v - 1))) as [->|Hne].
    + rewrite list_lookup_alter_eq in He. cbn in Hg. rewrite Hg in He. cbn in He. simplify_eq.
      cbn in Hv |- *. split; [done|]. split; [done|]. eauto.
    + rewrite list_lookup_alter_ne in He by done. by apply (W9 j e).
Qed.

Lemma step_wf num d d' : disk_inv num d -> disk_step d d' -> disk_inv num d'.
Proof.
  intros Hwf Hstep.
  pose proof (fun e r i b s => wf_ctlr num e r b s i) as Hctlr. pose proof (wf_unplug num) as Hun.
  destruct Hstep as [b d' H|id res d' H|res d' H|res d' H|i st name r d' H|h buf len pos r d' H
    |h buf len pos r d' H|h which inf r d' H|h key cfg len r d' H|h key cfg len r d' H|s].
  - by eapply (stays_init num).
  - by eapply (stays_connected num).
  - by eapply (keeps_disconnected (disk_inv num)).
  - by eapply (keeps_result (disk_inv num)).
  - by eapply (stays_lookup num).
  - by eapply (keeps_bread (disk_inv num)).
  - by eapply (keeps_bwrite (disk_inv num)).
  - revert H. apply (keeps_bind (disk_inv num) (disk_inv num)); [apply keeps_with_chan| |done].
    intros c. apply keeps_read. intros. apply keeps_ret.
  - by eapply (keeps_get_config (disk_inv num)).
  - eapply (keeps_set_config (disk_inv num)); [done|done| |done|exact H]. apply wf_add_mounts.
  - destruct d as [[] ? ? ? ?]. by apply wf_ctlr.
Qed.

(** C13: in every state that calls of the layer, in any order, and events of the driver
    lead to from the objects DISK_CHANNEL lays out: the tables keep their lengths, the
    fields of partitions and counters their 32 bits, a connected disk is initialised and
    has blocks of 512 bytes, the disk's own channel stands for no partition, and a valid
    channel of a partition stands for the partition with its index, which the connected
    medium has. *)
Theorem disk_reachable_inv mbr num id s d :
  disk_reachable (DISK_CHANNEL mbr num id s) d -> disk_inv num d.
Proof.
  intros Hr. pose proof (wf_start mbr num id s) as Hwf. revert Hwf.
  induction Hr as [|d1 d2 d3 Hs Hr IH]; [done|]. intros Hwf. by apply IH, (step_wf _ d1).
Qed.

(** ** Handles of a medium that is gone *)
Definition all_invalid (d : disk) : Prop := Forall (fun c => valid c = false) (pdevs_chan d).

Lemma invalid_unplug k d : all_invalid d -> all_invalid (unplug k d).
Proof.
  unfold all_invalid. intros Hi. rewrite Forall_lookup. intros i c.
  destruct k; cbn; apply invalid_pdevs.
Qed.

Lemma invalid_connected id : keeps all_invalid all_invalid (disk_connected None id).
Proof.
  assert (forall f, keeps all_invalid all_invalid (modify (on_info f))) as Hinfo by (intros; by apply keeps_modify).
  unfold disk_connected. eapply keeps_bind; [apply keeps_with_chan|]. intros c.
  destruct (negb (chan_init c)); [apply keeps_ret|]. apply keeps_read. intros d _.
  destruct (connected (info d)); [apply keeps_ret|].
  eapply keeps_bind; [apply Hinfo|]. intros _. eapply keeps_bind.
  - destruct (mbr_support c); [|apply keeps_ret]. unfold read_mbr.
    eapply keeps_bind; [apply Hinfo|]. intros _. eapply keeps_bind; [apply keeps_wait_queue|]. intros _.
    eapply keeps_bind; [by apply keeps_busy|]. intros _. apply keeps_read. intros d0 _.
    eapply keeps_bind; [apply keeps_transfer; [done|apply invalid_unplug]|]. intros [res buf].
    eapply keeps_bind; [by apply keeps_busy|]. intros _.
    case_match; [apply keeps_ret|]. case_match; [|apply keeps_ret].
    eapply keeps_bind; [apply Hinfo|intros _; apply keeps_ret].
  - intros r. case_match; [|apply keeps_ret].
    apply (keeps_bind _ all_invalid); [by apply keeps_modify|intros _; apply keeps_ret].
Qed.

(** C14: when the medium of an initialised disk has been unplugged, the handle of a partition obtained before
    leads nowhere, both while there is no medium and when another one has been connected
    since: reading and writing return -EINVAL, transfer nothing and change nothing; but
    while the controller is busy, as it stays when the medium is unplugged during a
    transfer, they wait for ever. (Only looking the partition up on the new medium makes
    the handle valid again: there is one channel for each number.) *)
Theorem stale_handle_refused d res d1 d2 i k c buf n pos :
  chan_init (chan d) = true -> disk_disconnected None d = Some (res, d1) ->
  d2 = d1 \/ (exists id res', disk_connected None id d1 = Some (res', d2)) ->
  pdevs_chan d2 !! k = Some c ->
  if busy (ctlr d2) then
    disk_bread (Handle i (Some k)) buf (Some n) pos d2 = None /\
    disk_bwrite (Handle i (Some k)) buf (Some n) pos d2 = None
  else
    disk_bread (Handle i (Some k)) buf (Some n) pos d2 = Some (- EINVAL, Some 0, buf, d2) /\
    disk_bwrite (Handle i (Some k)) buf (Some n) pos d2 = Some (- EINVAL, Some 0, d2).
Proof.
  intros Hi H1 H2 Hk. destruct (busy (ctlr d2)) eqn:Hb.
  { destruct (busy_hangs d2 Hb) as (Hr & Hw & _). by split. }
  assert (all_invalid d1) as Hd1.
  { revert H1. unfold disk_disconnected. rewrite (bind_some _ _ _ (chan d) d) by done. rewrite Hi.
    intros [= _ <-]. apply Forall_lookup. intros j e. apply invalid_pdevs. }
  assert (all_invalid d2) as Hd2 by (destruct H2 as [->|(id & res' & H2)]; [done|by eapply invalid_connected]).
  unfold all_invalid in Hd2. rewrite Forall_lookup in Hd2. specialize (Hd2 k c Hk). cbn beta in Hd2.
  assert (forall A (fail : A) m, with_controller (Some k) fail m d2 = Some (fail, d2)) as Hw.
  { intros A fail m. unfold with_controller. rewrite (bind_some _ _ _ c d2) by (unfold with_chan; cbn; by rewrite Hk).
    rewrite (bind_some _ _ _ tt d2) by (unfold wait_queue; rewrite (bind_some _ _ _ d2 d2) by done; by rewrite Hb).
    rewrite (bind_some _ _ _ d2 d2) by done. by rewrite Hd2, andb_false_r. }
  unfold disk_bread, disk_bwrite. cbn [sub].
  split; (rewrite (bind_some _ _ _ _ _ (Hw _ _ _)); by rewrite Z.sub_diag).
Qed.
End Inv.

(** ** Witnesses *)
Lemma run_state_after {S A} (m : M S A) s a : fst <$> m s = Some a -> m s = Some (a, state_after m s).
Proof. unfold state_after. destruct (m s) as [[b s']|]; cbn; [|done]. by intros [= ->]. Qed.

(** A disk is started, a medium connected, which is unplugged meanwhile, and its second
    partition looked up. *)
Definition inv_start : disk := demo_start [Later false true].
Definition inv_init : disk := state_after (disk_init None) inv_start.
Definition inv_connected : disk := state_after (disk_connected None demo_ident) inv_init.
Definition inv_end : disk := state_after (disk_lookup (Handle 0 None) None (str "2")) inv_connected.

Lemma inv_run :
  fst <$> disk_init None inv_start = Some true /\
  fst <$> disk_connected None demo_ident inv_init = Some 0 /\
  fst <$> disk_lookup (Handle 0 None) None (str "2") inv_connected = Some (0, Handle 0 (Some 1%nat)).
Proof. split_and!; vm_compute; reflexivity. Qed.

Lemma disk_reachable_inv_witness : disk_inv 4 inv_end.
Proof.
  destruct inv_run as (H1 & H2 & H3).
  exact (disk_reachable_inv true 4 demo_ident _ inv_end
    (rtc_l _ inv_start inv_init inv_end (step_init _ true _ (run_state_after _ _ _ H1))
      (rtc_l _ inv_init inv_connected inv_end (step_connected _ demo_ident 0 _ (run_state_after _ _ _ H2))
        (rtc_once _ _ (step_lookup _ 0 None (str "2") _ _ (run_state_after _ _ _ H3)))))).
Defined.

Definition gone : disk := state_after (disk_disconnected None) (demo []).
Definition replaced : disk := state_after (disk_connected None demo_ident) gone.

(** A read during which the medium is unplugged, which then is unplugged again. *)
Definition torn : disk := state_after (disk_bread (Handle 0 (Some 1%nat)) (replicate 512 0) (Some 1) 0) (demo [Later true true]).
Definition torn_gone : disk := state_after (disk_disconnected None) torn.

Lemma stale_handle_refused_witness :
  (disk_bread (Handle 0 (Some 1%nat)) [] (Some 1) 0 gone = Some (- EINVAL, Some 0, [], gone) /\
   disk_bwrite (Handle 0 (Some 1%nat)) [] (Some 1) 0 gone = Some (- EINVAL, Some 0, gone)) /\
  (disk_bread (Handle 0 (Some 1%nat)) [] (Some 1) 0 replaced = Some (- EINVAL, Some 0, [], replaced) /\
   disk_bwrite (Handle 0 (Some 1%nat)) [] (Some 1) 0 replaced = Some (- EINVAL, Some 0, replaced)) /\
  (disk_bread (Handle 0 (Some 1%nat)) [] (Some 1) 0 torn_gone = None /\
   disk_bwrite (Handle 0 (Some 1%nat)) [] (Some 1) 0 torn_gone = None).
Proof.
  set (c := Channel (Some 1%nat) true false true 0). split; [|split].
  - refine (stale_handle_refused (demo []) 0 gone gone 0 1 c [] 1 0 _ (run_state_after _ _ _ _) (or_introl eq_refl) _);
      vm_compute; reflexivity.
  - refine (stale_handle_refused (demo []) 0 gone replaced 0 1 c [] 1 0 _ (run_state_after _ _ _ _)
      (or_intror (ex_intro _ demo_ident (ex_intro _ 0 (run_state_after _ _ _ _)))) _); vm_compute; reflexivity.
  - refine (stale_handle_refused torn 0 torn_gone torn_gone 0 1 c [] 1 0 _ (run_state_after _ _ _ _) (or_introl eq_refl) _);
      vm_compute; reflexivity.
Defined.
