(* ===== verification/SynthDisk.v ===== *)
(** * The disk of the synthetic target

    devs/disk/synth/current/src/synthdisk.c: the driver of a disk that is a file of
    the host, with its functions for disk.c, the start of the device, its lookup and
    the change of the file. The system calls of the host are the class [HostFiles]. *)
From S2P Require Import Prelude CStr IoSys Disk.

Definition CYG_HAL_SYS_O_RDWR : Z := 2.
Definition CYG_HAL_SYS_O_CREAT : Z := 64.
Definition CYG_HAL_SYS_SEEK_SET : Z := 0.
(** The modes 0777 and 0644. *)
Definition MODE_ALL : Z := 0x1FF.
Definition MODE_0644 : Z := 0x1A4.

(** cyg_hal_sys_open, _close, _lseek, _read, _write. *)
Class HostFiles := {
  host : Type;
  sys_open : cstring -> Z -> Z -> M host Z;
  sys_close : Z -> M host Z;
  sys_lseek : Z -> Z -> Z -> M host Z;
  sys_read : Z -> list byte -> Z -> M host (Z * list byte);
  sys_write : Z -> list byte -> Z -> M host Z }.

Record synth_disk_info_t := SynthInfo {
  num : Z; synth_cylinders_num : Z; synth_heads_num : Z; synth_sectors_num : Z;
  synth_size : Z; filefd : Z; filename : cstring }.

Definition set_filefd fd (i : synth_disk_info_t) := SynthInfo (num i) (synth_cylinders_num i)
  (synth_heads_num i) (synth_sectors_num i) (synth_size i) fd (filename i).
Definition set_image name sz cyls heads sects (i : synth_disk_info_t) :=
  SynthInfo (num i) cyls heads sects sz (filefd i) name.

Section Driver.
Context `{hf : HostFiles}.

(** What the channel's [dev_priv] leads to, and the host. *)
Record synth := Synth { synth_info : synth_disk_info_t; files : host }.

Definition on_host {A} (m : M host A) : M synth A := fun s =>
  match m (files s) with Some (a, f) => Some (a, Synth (synth_info s) f) | None => None end.
Definition update (f : synth_disk_info_t -> synth_disk_info_t) : M synth unit :=
  modify (fun s => Synth (f (synth_info s)) (files s)).

(** ** The functions for disk.c *)

(** The offset is a product of words given to a function that takes an [int]. *)
Definition synth_disk_read (inf : cyg_disk_info_t) (buf : list byte) (len block_num : Z) :
    M synth (Z * list byte) :=
  s ← get_state;
  if filefd (synth_info s) >=? 0 then
    on_host (sys_lseek (filefd (synth_info s)) (s32 (u32 (block_num * block_size inf))) CYG_HAL_SYS_SEEK_SET) ;;
    '(_, buf) ← on_host (sys_read (filefd (synth_info s)) buf (u32 (len * 512)));
    mret (ENOERR, buf)
  else mret (- EIO, buf).

Definition synth_disk_write (inf : cyg_disk_info_t) (buf : list byte) (len block_num : Z) : M synth Z :=
  s ← get_state;
  if filefd (synth_info s) >=? 0 then
    on_host (sys_lseek (filefd (synth_info s)) (s32 (u32 (block_num * block_size inf))) CYG_HAL_SYS_SEEK_SET) ;;
    on_host (sys_write (filefd (synth_info s)) buf (u32 (len * 512))) ;;
    mret ENOERR
  else mret (- EIO).

Definition synth_disk_get_config (inf : cyg_disk_info_t) (key : Z) (xbuf : disk_config) (len : option Z) :
    M synth (Z * option Z * disk_config) := mret (- EINVAL, len, xbuf).

(** The callback [disk_disconnected] returns ENOERR for a channel in use. *)
Definition synth_disk_set_config (inf : cyg_disk_info_t) (key : Z) (xbuf : disk_config) (len : option Z) :
    M synth (Z * option Z * bool) :=
  if key =? CYG_IO_SET_CONFIG_DISK_MOUNT then mret (ENOERR, len, false)
  else if key =? CYG_IO_SET_CONFIG_DISK_UMOUNT then mret (ENOERR, len, info_mounts inf =? 0)
  else mret (- EINVAL, len, false).

(** Transfers are over when the functions return: there are no events to wait for. *)
#[export] Instance synth_driver : DiskDriver := {|
  dsk := synth;
  funs_read := synth_disk_read;
  funs_write := synth_disk_write;
  funs_get_config := synth_disk_get_config;
  funs_set_config := synth_disk_set_config;
  next_event := crash;
  events := 0 |}.

(** ** The file *)
Fixpoint write_zeros (n : nat) : M synth unit :=
  match n with
  | O => mret tt
  | S n' =>
      s ← get_state;
      on_host (sys_write (filefd (synth_info s)) [0] 1) ;; write_zeros n'
  end.

(** Opens the image; one that does not exist is made, full of zeros. *)
Definition open_image : M synth unit :=
  s ← get_state;
  fd ← on_host (sys_open (filename (synth_info s)) CYG_HAL_SYS_O_RDWR MODE_ALL);
  update (set_filefd fd) ;;
  if fd =? - ENOENT then
    fd ← on_host (sys_open (filename (synth_info s)) (Z.lor CYG_HAL_SYS_O_RDWR CYG_HAL_SYS_O_CREAT) MODE_0644);
    update (set_filefd fd) ;;
    if fd >=? 0 then write_zeros (Z.to_nat (synth_size (synth_info s))) else mret tt
  else mret tt.

(** ** Start, lookup and change of the image *)
Definition synth_disk_init (h : cyg_io_handle_t) : M disk bool :=
  c ← with_chan (sub h);
  if chan_init c then mret true
  else
    call open_image ;;
    d ← get_state;
    if filefd (synth_info (drv d)) <? 0 then mret false
    else
      ok ← disk_init (sub h);
      mret ok.

Definition synth_ident (i : synth_disk_info_t) : cyg_disk_identify_t :=
  Identify [] [] [] (synth_cylinders_num i) (synth_heads_num i) (synth_sectors_num i)
    (synth_size i / 512) 1 2048.

Definition synth_disk_lookup (h : cyg_io_handle_t) (sub_tab : option cyg_io_handle_t) (name : cstring) :
    M disk (Z * cyg_io_handle_t) :=
  d ← get_state;
  res ← disk_connected (sub h) (synth_ident (synth_info (drv d)));
  if res =? ENOERR then disk_lookup h sub_tab name else mret (res, h).

Definition synth_disk_change (filename : cstring) (size cyls heads sectors : Z) : M disk bool :=
  c ← with_chan None;
  if negb (chan_init c) then mret false
  else
    call (update (set_image filename (u32 size) (u32 cyls) (u32 heads) (u32 sectors))) ;;
    d ← get_state;
    call (on_host (sys_close (filefd (synth_info (drv d))))) ;;
    call open_image ;;
    d ← get_state;
    mret (negb (filefd (synth_info (drv d)) <? 0)).

(** SYNTH_DISK_INSTANCE *)
Definition synth_disk_io (name : cstring) : cyg_devtab_entry_t disk disk_config :=
  DevtabEntry name None cyg_io_disk_devio synth_disk_init (Some synth_disk_lookup).

Definition SYNTH_DISK_INSTANCE (number : Z) (mbr_supp : bool) (cyl hpt spt size : Z) (image : cstring) (h : host) :
    disk :=
  DISK_CHANNEL mbr_supp 4 (Identify [] [] [] 0 0 0 0 0 0)
    (Synth (SynthInfo number cyl hpt spt size (-1) image) h).
End Driver.
Arguments synth {_}.
