(* ===== verification/SynthDiskSpec.v ===== *)
(** * The disk of the synthetic target is a disk

    Under the documented behaviour of the files of the host, [HostLaws], the driver
    satisfies the laws disk.c asks of it: the file is the medium. *)
From S2P Require Import Prelude CStr IoSys Disk DiskSpec DiskTheorems SynthDisk.

(** [file h fd]: the contents and the offset of the regular file open as [fd]. Reads
    and writes that stay within it are complete. *)
Class HostLaws `{HostFiles} (file : host -> Z -> option (list byte * Z)) := {
  law_lseek h fd bs o off :
    file h fd = Some (bs, o) -> 0 <= off ->
    wp (sys_lseek fd off CYG_HAL_SYS_SEEK_SET) (fun _ h' => file h' fd = Some (bs, off)) h;
  law_sys_read h fd bs o buf len :
    file h fd = Some (bs, o) -> 0 <= o -> 0 <= len -> o + len <= Z.of_nat (length bs) ->
    len <= Z.of_nat (length buf) ->
    wp (sys_read fd buf len) (fun '(_, buf') h' =>
      file h' fd = Some (bs, o + len) /\
      buf' = take (Z.to_nat len) (drop (Z.to_nat o) bs) ++ drop (Z.to_nat len) buf) h;
  law_sys_write h fd bs o buf len :
    file h fd = Some (bs, o) -> 0 <= o -> 0 <= len -> o + len <= Z.of_nat (length bs) ->
    len <= Z.of_nat (length buf) ->
    wp (sys_write fd buf len) (fun _ h' =>
      file h' fd = Some (take (Z.to_nat o) bs ++ take (Z.to_nat len) buf ++ drop (Z.to_nat (o + len)) bs, o + len)) h;
}.

(** ** Blocks of a file *)
Definition file_block (bs : list byte) (n : Z) : list byte :=
  if n <? 0 then replicate 512 0 else resize 512 0 (drop (Z.to_nat (n * 512)) bs).

Lemma file_block_length bs n : length (file_block bs n) = 512%nat.
Proof. unfold file_block. case_match; [by rewrite length_replicate|by rewrite length_resize]. Qed.

Lemma file_block_in bs n :
  0 <= n -> n * 512 + 512 <= Z.of_nat (length bs) ->
  file_block bs n = take 512 (drop (Z.to_nat (n * 512)) bs).
Proof.
  intros Hn Hl. unfold file_block. rewrite (proj2 (Z.ltb_ge n 0)) by lia.
  apply resize_le. rewrite length_drop. lia.
Qed.

Lemma file_sectors bs (k : nat) : forall n,
  0 <= n -> (n + Z.of_nat k) * 512 <= Z.of_nat (length bs) ->
  sectors (file_block bs) n (Z.of_nat k) = take (k * 512) (drop (Z.to_nat (n * 512)) bs).
Proof.
  induction k as [|k IH]; intros n Hn Hl; [by rewrite take_0|].
  rewrite (sectors_split _ n 1), sectors_one, file_block_in by lia.
  replace (Z.of_nat (S k) - 1) with (Z.of_nat k) by lia. rewrite IH by lia.
  replace (Z.to_nat ((n + 1) * 512)) with (Z.to_nat (n * 512) + 512)%nat by lia.
  rewrite <- drop_drop. replace (S k * 512)%nat with (512 + k * 512)%nat by lia.
  by rewrite take_take_drop.
Qed.

(** A file after a write of [x] at [o]. *)
Definition overwritten (bs x : list byte) (o : nat) : list byte := take o bs ++ x ++ drop (o + length x) bs.

Lemma overwritten_lookup bs x o j :
  (o + length x <= length bs)%nat ->
  overwritten bs x o !! j = if decide (o <= j < o + length x)%nat then x !! (j - o)%nat else bs !! j.
Proof.
  intros Hl. unfold overwritten. rewrite lookup_app, lookup_take.
  assert (length (take o bs) = o) as Ht by (rewrite length_take; lia).
  destruct (decide (j < o)%nat) as [Hj|Hj].
  - rewrite (decide_False (P := (o <= j < o + length x)%nat)) by lia.
    destruct (lookup_lt_is_Some_2 bs j) as [b ->]; [lia|]. done.
  - rewrite Ht, lookup_app. case_decide as Hin.
    + destruct (lookup_lt_is_Some_2 x (j - o)) as [b ->]; [lia|]. done.
    + rewrite (lookup_ge_None_2 x) by lia. rewrite lookup_drop. f_equal. lia.
Qed.

Lemma overwritten_length bs x o :
  (o + length x <= length bs)%nat -> length (overwritten bs x o) = length bs.
Proof. intros Hl. unfold overwritten. rewrite !length_app, length_take, length_drop. lia. Qed.

(** The block at [j] of a file as a function of its bytes. *)
Lemma block_ext (l1 l2 : list byte) j1 j2 k :
  (forall i, (i < k)%nat -> l1 !! (j1 + i)%nat = l2 !! (j2 + i)%nat) ->
  take k (drop j1 l1) = take k (drop j2 l2).
Proof.
  intros Hl. apply list_eq. intros i. rewrite !lookup_take. case_decide; [|done].
  rewrite !lookup_drop. by apply Hl.
Qed.

Lemma overwritten_block bs x (pos len n : Z) :
  0 <= pos -> 0 <= len -> (pos + len) * 512 <= Z.of_nat (length bs) -> Z.of_nat (length x) = len * 512 ->
  0 <= n -> n * 512 + 512 <= Z.of_nat (length bs) ->
  file_block (overwritten bs x (Z.to_nat (pos * 512))) n =
  if (pos <=? n) && (n <? pos + len) then buf_block x (n - pos) else file_block bs n.
Proof.
  intros Hpos Hlen Hin Hx Hn Hnl.
  rewrite !file_block_in by (rewrite ?overwritten_length; lia).
  destruct (Z.leb_spec pos n), (Z.ltb_spec n (pos + len)); cbn [andb];
    [unfold buf_block, upto; change (Z.to_nat 512) with 512%nat|..]; apply block_ext; intros i Hi;
    rewrite overwritten_lookup by lia; case_decide; try lia; [|done..].
  f_equal. lia.
Qed.

(** A block that is not all within the file is not reached by a write within it. *)
Lemma overwritten_outside bs x (pos len n : Z) :
  0 <= pos -> 0 <= len -> (pos + len) * 512 <= Z.of_nat (length bs) -> Z.of_nat (length x) = len * 512 ->
  ~ (pos <= n < pos + len) -> file_block (overwritten bs x (Z.to_nat (pos * 512))) n = file_block bs n.
Proof.
  intros Hpos Hlen Hin Hx Hn. destruct (Z.ltb_spec n 0) as [Hneg|Hn0].
  { unfold file_block. by rewrite (proj2 (Z.ltb_lt _ _)) by done. }
  destruct (Z.ltb_spec n pos) as [Hlt|Hge].
  { rewrite (overwritten_block _ _ _ len) by lia. by rewrite (proj2 (Z.leb_gt _ _)) by lia. }
  unfold file_block. rewrite (proj2 (Z.ltb_ge n 0)) by done. f_equal. apply list_eq. intros i. rewrite !lookup_drop, overwritten_lookup by lia. case_decide; [lia|done].
Qed.

Section Laws.
Context `{hf : HostFiles} {file : host -> Z -> option (list byte * Z)} {hl : HostLaws file}.

(** The image is open and as long as the driver thinks, and its offsets are numbers an
    [int] can hold. *)
Definition synth_ready (s : synth) : Prop :=
  0 <= filefd (synth_info s) /\ 0 <= synth_size (synth_info s) <= 2 ^ 31 /\
  exists bs o, file (files s) (filefd (synth_info s)) = Some (bs, o) /\
    synth_size (synth_info s) <= Z.of_nat (length bs).

Definition synth_capacity (s : synth) : Z := Z.min (synth_size (synth_info s) / 512) (2 ^ 32).

Definition synth_sector (s : synth) (n : Z) : list byte :=
  match file (files s) (filefd (synth_info s)) with
  | Some (bs, _) => file_block bs n
  | None => replicate 512 0
  end.

Lemma wp_on_host {A} (m : M host A) Q s :
  wp m (fun a f => Q a (Synth (synth_info s) f)) (files s) -> wp (on_host m) Q s.
Proof. intros (a & f & Hm & HQ). unfold on_host, wp. rewrite Hm. eauto. Qed.

(** Seeking to a block of the image. *)
Lemma seek_spec s i bs o pos (Q : Z -> synth -> Prop) :
  file (files s) (filefd (synth_info s)) = Some (bs, o) -> block_size i = 512 ->
  0 <= pos -> pos * 512 < 2 ^ 31 ->
  (forall r f, file f (filefd (synth_info s)) = Some (bs, pos * 512) -> Q r (Synth (synth_info s) f)) ->
  wp (on_host (sys_lseek (filefd (synth_info s)) (s32 (u32 (pos * block_size i))) CYG_HAL_SYS_SEEK_SET)) Q s.
Proof.
  intros Hf Hb Hpos Hlt HQ. rewrite Hb, uwrap_small, s32_small by lia. apply wp_on_host.
  eapply wp_mono; [by eapply law_lseek; [|lia]|]. intros r f. apply HQ.
Qed.

(** A request for [len] blocks from [pos] on that lies within the image, with its buffer. *)
Definition within_image (s : synth) (inf : cyg_disk_info_t) (buf : list byte) (len pos : Z) : Prop :=
  synth_ready s /\ block_size inf = 512 /\ 0 < len /\ 0 <= pos /\ pos + len <= synth_capacity s /\
  len * 512 <= Z.of_nat (length buf).

Lemma within_file s inf buf len pos : within_image s inf buf len pos ->
  0 <= filefd (synth_info s) /\ 0 <= synth_size (synth_info s) <= 2 ^ 31 /\
  (pos + len) * 512 <= synth_size (synth_info s) /\
  exists bs o, file (files s) (filefd (synth_info s)) = Some (bs, o) /\ synth_size (synth_info s) <= Z.of_nat (length bs).
Proof.
  intros ((Hfd & Hsz & Hf) & _ & Hl & Hp & Hcap & _). unfold synth_capacity in Hcap. split; [done|]. split; [done|]. split; [|done].
  Z.to_euclidean_division_equations. lia.
Qed.

Lemma synth_read_ok s inf buf len pos : within_image s inf buf len pos ->
  wp (synth_disk_read inf buf len pos) (fun '(res, buf') s' => res = ENOERR /\
    (synth_ready s' /\ synth_capacity s' = synth_capacity s /\ forall n, synth_sector s' n = synth_sector s n) /\
    buf' = sectors (synth_sector s) pos len ++ drop (Z.to_nat (len * 512)) buf) s.
Proof.
  intros Hw. destruct (within_file _ _ _ _ _ Hw) as (Hfd & Hsz & Hin & bs & o & Hf & Hbs). destruct Hw as (_ & Hb & Hlen & Hpos & _ & Hbuf).
  unfold synth_disk_read. apply wp_get. rewrite Z.geb_leb, (proj2 (Z.leb_le _ _)) by done.
  apply wp_bind. eapply seek_spec; [done|done|lia|lia|]. intros _ f Hf1. apply wp_bind, wp_on_host.
  rewrite uwrap_small by lia. eapply wp_mono; [eapply law_sys_read; [exact Hf1|lia..]|].
  intros [r b] f2 [Hf2 ->]. apply wp_ret. split; [done|].
  assert (forall n, synth_sector (Synth (synth_info s) f2) n = synth_sector s n) as Hsec.
  { intros n. unfold synth_sector. cbn [files synth_info] in *. by rewrite Hf2, Hf. }
  split; [split; [|by split]|].
  { split; [done|]. split; [done|]. by exists bs, (pos * 512 + len * 512). }
  f_equal. unfold synth_sector. rewrite Hf. replace len with (Z.of_nat (Z.to_nat len)) at 2 by lia.
  rewrite file_sectors by lia. f_equal. lia.
Qed.

Lemma synth_write_ok s inf buf len pos : within_image s inf buf len pos ->
  wp (synth_disk_write inf buf len pos) (fun res s' => res = ENOERR /\
    (synth_ready s' /\ synth_capacity s' = synth_capacity s) /\
    (forall n, ~ (pos <= n < pos + len) -> synth_sector s' n = synth_sector s n) /\
    (forall k, 0 <= k < len -> synth_sector s' (pos + k) = buf_block buf k)) s.
Proof.
  intros Hw. destruct (within_file _ _ _ _ _ Hw) as (Hfd & Hsz & Hin & bs & o & Hf & Hbs). destruct Hw as (_ & Hb & Hlen & Hpos & _ & Hbuf).
  unfold synth_disk_write. apply wp_get. rewrite Z.geb_leb, (proj2 (Z.leb_le _ _)) by done.
  apply wp_bind. eapply seek_spec; [done|done|lia|lia|]. intros _ f Hf1. apply wp_bind, wp_on_host.
  rewrite uwrap_small by lia. eapply wp_mono; [eapply law_sys_write; [exact Hf1|lia..]|].
  intros r f2 Hf2. apply wp_ret. split; [done|]. cbn [files synth_info] in Hf2.
  set (x := take (Z.to_nat (len * 512)) buf) in *.
  assert (Z.of_nat (length x) = len * 512) as Hx by (unfold x; rewrite length_take; lia).
  replace (take (Z.to_nat (pos * 512)) bs ++ x ++ drop (Z.to_nat (pos * 512 + len * 512)) bs)
    with (overwritten bs x (Z.to_nat (pos * 512))) in Hf2.
  2: { unfold overwritten. do 2 f_equal. f_equal. lia. }
  unfold synth_sector. cbn [files synth_info]. rewrite Hf2, Hf.
  split; [split; [|done]|].
  { split; [done|]. split; [done|]. eexists _, _. split; [exact Hf2|]. rewrite overwritten_length by lia. done. }
  split.
  - intros n Hn. apply (overwritten_outside _ _ _ len); lia.
  - intros k Hk. rewrite (overwritten_block _ _ _ len) by lia.
    rewrite (proj2 (Z.leb_le _ _)), (proj2 (Z.ltb_lt _ _)) by lia. cbn [andb].
    unfold buf_block, upto, x. rewrite skipn_firstn_comm, take_take. f_equal; [lia|]. do 2 f_equal. lia.
Qed.

Lemma synth_sector_length s n : length (synth_sector s n) = 512%nat.
Proof. unfold synth_sector. case_match; [|by rewrite length_replicate]. case_match. apply file_block_length. Qed.

#[export] Instance synth_laws : DiskLaws (H := synth_driver) synth_ready synth_sector synth_capacity.
Proof.
  split.
  - intros s. unfold synth_capacity. lia.
  - apply synth_sector_length.
  - intros s i buf len pos Hr Hb Hlen Hpos Hcap Hbuf. cbn.
    eapply wp_mono; [by apply synth_read_ok|]. intros [r b] s' (-> & Hs & ->). unfold eventually. cbn [fst snd].
    change (ENOERR =? - EWOULDBLOCK) with false. cbv iota. split; [done|]. split; [done|].
    assert (length (sectors (synth_sector s) pos len) = Z.to_nat (len * 512)) as Hl by apply sectors_length, synth_sector_length.
    split; [rewrite length_app, Hl, length_drop; lia|]. split; [by rewrite drop_app_length'|].
    intros _. by rewrite take_app_length'.
  - intros s i buf len pos Hr Hb Hlen Hpos Hcap Hbuf. cbn. apply wp_bind.
    eapply wp_mono; [by apply synth_write_ok|]. intros r s' (-> & Hs & Hf & Hw). apply wp_ret. unfold eventually. cbn [fst snd].
    change (ENOERR =? - EWOULDBLOCK) with false. cbv iota. split; [done|]. split; [done|]. split; [done|]. intros _. exact Hw.
Qed.

(** C23: the driver of the synthetic disk, while the image is open, as long as the driver
    thinks and of at most 2 GB, and the files of the host do what is documented: reading
    blocks within it succeeds, gives the blocks of the file, leaves the buffer behind them
    and changes no block; writing succeeds and replaces exactly the blocks named by those of
    the buffer. So it is a driver in the sense of disk.c. *)
Theorem synth_is_a_disk :
  (forall s inf buf len pos, within_image s inf buf len pos ->
     wp (synth_disk_read inf buf len pos) (fun '(res, buf') s' => res = ENOERR /\
       (synth_ready s' /\ synth_capacity s' = synth_capacity s /\ forall n, synth_sector s' n = synth_sector s n) /\
       buf' = sectors (synth_sector s) pos len ++ drop (Z.to_nat (len * 512)) buf) s) /\
  (forall s inf buf len pos, within_image s inf buf len pos ->
     wp (synth_disk_write inf buf len pos) (fun res s' => res = ENOERR /\
       (synth_ready s' /\ synth_capacity s' = synth_capacity s) /\
       (forall n, ~ (pos <= n < pos + len) -> synth_sector s' n = synth_sector s n) /\
       (forall k, 0 <= k < len -> synth_sector s' (pos + k) = buf_block buf k)) s) /\
  DiskLaws (H := synth_driver) synth_ready synth_sector synth_capacity.
Proof. split; [apply synth_read_ok|]. split; [apply synth_write_ok|apply synth_laws]. Qed.

End Laws.

(** ** A host with one file *)
Record one_file := OneFile { image : list byte; offset : Z }.

Definition one_lseek (fd off whence : Z) : M one_file Z := fun h => Some (off, OneFile (image h) off).
Definition one_read (fd : Z) (buf : list byte) (len : Z) : M one_file (Z * list byte) := fun h =>
  let got := take (Z.to_nat len) (drop (Z.to_nat (offset h)) (image h)) in
  let n := Z.of_nat (length got) in
  Some ((n, got ++ drop (length got) buf), OneFile (image h) (offset h + n)).
Definition one_write (fd : Z) (buf : list byte) (len : Z) : M one_file Z := fun h =>
  let x := take (Z.to_nat len) buf in
  Some (len, OneFile (take (Z.to_nat (offset h)) (image h) ++ x ++ drop (Z.to_nat (offset h + len)) (image h))
               (offset h + len)).

#[export] Instance one_host : HostFiles := {|
  host := one_file;
  sys_open _ _ _ := mret 3;
  sys_close _ := mret 0;
  sys_lseek := one_lseek;
  sys_read := one_read;
  sys_write := one_write |}.

Definition one_view (h : one_file) (fd : Z) : option (list byte * Z) := Some (image h, offset h).

#[export] Instance one_laws : HostLaws (H := one_host) one_view.
Proof.
  split.
  - intros h fd bs o off [= <- <-] Hoff. by eexists _, _.
  - intros h fd bs o buf len [= <- <-] Ho Hlen Hin Hb. eexists _, _. split; [done|].
    assert (length (take (Z.to_nat len) (drop (Z.to_nat (offset h)) (image h))) = Z.to_nat len) as Hl.
    { rewrite length_take, length_drop. lia. }
    rewrite Hl. split; [|done]. unfold one_view. cbn. do 2 f_equal. lia.
  - intros h fd bs o buf len [= <- <-] Ho Hlen Hin Hb. by eexists _, _.
Qed.

(** An image of two blocks: its second block is read, and written. *)
Definition two_blocks : synth := Synth (SynthInfo 0 1 1 2 1024 3 []) (OneFile (replicate 512 1 ++ replicate 512 2) 0).
Definition plain_info : cyg_disk_info_t := Info [] (Identify [] [] [] 1 1 2 2 1 4) 512 2 512 true 0.

Lemma two_within buf : length buf = 512%nat -> within_image (file := one_view) two_blocks plain_info buf 1 1.
Proof.
  intros Hl. unfold within_image. split; [|by rewrite Hl; vm_compute; split_and!].
  split; [done|]. split; [done|]. by eexists _, _.
Qed.

Lemma synth_is_a_disk_witness :
  wp (synth_disk_read plain_info (replicate 512 0) 1 1) (fun '(res, buf') _ => res = ENOERR /\ buf' = replicate 512 2) two_blocks /\
  wp (synth_disk_write plain_info (replicate 512 7) 1 1) (fun res s' => res = ENOERR /\
    synth_sector (file := one_view) s' 1 = replicate 512 7 /\
    synth_sector (file := one_view) s' 0 = synth_sector (file := one_view) two_blocks 0) two_blocks.
Proof.
  destruct (synth_is_a_disk (hl := one_laws)) as (Hr & Hw & _). split.
  - eapply wp_mono; [apply (Hr two_blocks plain_info (replicate 512 0) 1 1), two_within; reflexivity|].
    intros [res b] s' (-> & _ & ->). split; [done|]. by vm_compute.
  - eapply wp_mono; [apply (Hw two_blocks plain_info (replicate 512 7) 1 1), two_within; reflexivity|].
    intros res s' (-> & _ & H0 & H1). split; [done|]. split; [|apply H0; lia]. exact (eq_trans (H1 0 ltac:(lia)) ltac:(by vm_compute)).
Defined.

(** * A run through every layer of the disk

    The synthetic disk as an entry of the table of devices: its start, the lookup of a
    partition by name, a block written through the I/O system, and what is in the file
    of the host then. *)
Module Stack.
Abbreviation synth_disk := (@disk (@synth_driver one_host)).

Definition run_devtab : list (cyg_devtab_entry_t synth_disk disk_config) := [synth_disk_io (str "/dev/disk0/")].

(** The image of the disk of DiskTheorems. *)
Definition run_disk (img : list byte) : io_state synth_disk :=
  Io false [CYG_DEVTAB_STATUS_BLOCK] (SYNTH_DISK_INSTANCE 0 true 1 1 6 3072 (str "disk.img") (OneFile img 0)).

Definition started (img : list byte) : io_state synth_disk := state_after (cyg_io_init run_devtab) (run_disk img).

Definition opened (img : list byte) (n : cstring) : option (Z * option cyg_io_handle_t * synth_disk) :=
  cyg_io_lookup run_devtab 1 n (world (started img)).

(** The second partition starts at block 3: its block 1 is block 4 of the image, and the
    rest of the image is as before. *)
Lemma write_through :
  let img := concat demo_blocks in
  status (started img) = [Z.lor CYG_DEVTAB_STATUS_BLOCK CYG_DEVTAB_STATUS_AVAIL] /\
  match opened img (str "/dev/disk0/2") with
  | Some (0, Some h, d) =>
      h = Handle 0 (Some 1%nat) /\
      match cyg_io_bwrite run_devtab h (replicate 512 7) (Some 1) 1 d with
      | Some (0, Some 1, d') =>
          image (files (drv d')) = take 2048 img ++ replicate 512 7 ++ drop 2560 img
      | _ => False
      end
  | _ => False
  end.
Proof. split; [vm_compute; reflexivity|]. vm_compute. split; reflexivity. Qed.

(** Names that lead nowhere. *)
Lemma bad_names :
  let img := concat demo_blocks in
  (fun r => r.1) <$> opened img (str "/dev/disk0/3") = Some (- EINVAL, None) /\
  (fun r => r.1) <$> opened img (str "/dev/disk0/x") = Some (- EINVAL, None) /\
  (fun r => r.1) <$> opened img (str "/dev/disk1/1") = Some (- ENOENT, None) /\
  (fun r => r.1) <$> opened img (str "/dev/disk0/") = Some (ENOERR, Some (Handle 0 None)).
Proof. split_and!; vm_compute; reflexivity. Qed.

(** The results of the system calls are not looked at: reading a block that the image
    does not have succeeds and leaves the buffer as it was. *)
Lemma short_image_reads :
  let img := take 2048 (concat demo_blocks) in
  match opened img (str "/dev/disk0/2") with
  | Some (0, Some h, d) =>
      (fun r => r.1) <$> cyg_io_bread run_devtab h (replicate 512 9) (Some 1) 2 d =
        Some (ENOERR, Some 1, replicate 512 9)
  | _ => False
  end.
Proof. vm_compute. reflexivity. Qed.

(** A device without a function for it is reported to be ready: the error code is
    returned as a truth value. *)
Lemma select_of_nothing :
  fst <$> cyg_io_select (St := unit) (Cfg := unit)
    [DevtabEntry (str "/dev/null") None (DevioTable None None None None None None None) (fun _ => mret true) None]
    (Handle 0 None) 0 0 tt = Some (- EDEVNOSUPP).
Proof. reflexivity. Qed.
End Stack.
