(* ===== verification/Serial.v ===== *)
(** * The serial driver

    io/serial/current/src/common/serial.c with include/serial.h and serialio.h: the
    layer between the threads that use a serial line and the functions of a hardware
    driver. Bytes wait in two circular buffers, one that threads fill and the
    interrupts of the transmitter empty, one for the other way; either may be absent,
    and the layer then polls. The build has flow control by software and by hardware,
    line status, select, non-blocking mode and block transfers; assertions and
    diagnostic output are left out.

    A thread that has to wait leaves its function: the result [Asleep] holds what the
    function goes on with. A condition variable counts its broadcasts: a thread that
    fell asleep before the last one may go on. *)
From S2P Require Import Prelude.

(** ** Keys and flags of config_keys.h, serialio.h and serial.h *)
Definition CYG_IO_GET_CONFIG_SERIAL_INFO : Z := 0x0101.
Definition CYG_IO_GET_CONFIG_SERIAL_OUTPUT_DRAIN : Z := 0x0102.
Definition CYG_IO_GET_CONFIG_SERIAL_OUTPUT_FLUSH : Z := 0x0103.
Definition CYG_IO_SET_CONFIG_SERIAL_OUTPUT_FLUSH : Z := CYG_IO_GET_CONFIG_SERIAL_OUTPUT_FLUSH.
Definition CYG_IO_GET_CONFIG_SERIAL_INPUT_FLUSH : Z := 0x0104.
Definition CYG_IO_SET_CONFIG_SERIAL_INPUT_FLUSH : Z := CYG_IO_GET_CONFIG_SERIAL_INPUT_FLUSH.
Definition CYG_IO_GET_CONFIG_SERIAL_ABORT : Z := 0x0105.
Definition CYG_IO_GET_CONFIG_SERIAL_BUFFER_INFO : Z := 0x0111.
Definition CYG_IO_SET_CONFIG_SERIAL_INFO : Z := 0x0181.
Definition CYG_IO_SET_CONFIG_SERIAL_HW_RX_FLOW_THROTTLE : Z := 0x0184.
Definition CYG_IO_SET_CONFIG_SERIAL_HW_FLOW_CONFIG : Z := 0x0185.
Definition CYG_IO_SET_CONFIG_SERIAL_FLOW_CONTROL_METHOD : Z := 0x0186.
Definition CYG_IO_SET_CONFIG_SERIAL_FLOW_CONTROL_FORCE : Z := 0x0187.
Definition CYG_IO_SET_CONFIG_SERIAL_STATUS_CALLBACK : Z := 0x0188.
Definition CYG_IO_GET_CONFIG_READ_BLOCKING : Z := 0x1001.
Definition CYG_IO_GET_CONFIG_WRITE_BLOCKING : Z := 0x1002.
Definition CYG_IO_SET_CONFIG_READ_BLOCKING : Z := 0x1081.
Definition CYG_IO_SET_CONFIG_WRITE_BLOCKING : Z := 0x1082.

Definition CYGNUM_SERIAL_FLOW_XONXOFF_RX : Z := Z.shiftl 1 0.
Definition CYGNUM_SERIAL_FLOW_XONXOFF_TX : Z := Z.shiftl 1 1.
Definition CYGNUM_SERIAL_FLOW_RTSCTS_RX : Z := Z.shiftl 1 2.
Definition CYGNUM_SERIAL_FLOW_RTSCTS_TX : Z := Z.shiftl 1 3.
Definition CYGNUM_SERIAL_FLOW_DSRDTR_RX : Z := Z.shiftl 1 4.
Definition CYGNUM_SERIAL_FLOW_DSRDTR_TX : Z := Z.shiftl 1 5.
Definition CYGNUM_SERIAL_FLOW_THROTTLE_RX : Z := 0.
Definition CYGNUM_SERIAL_FLOW_RESTART_RX : Z := 1.
Definition CYGNUM_SERIAL_FLOW_THROTTLE_TX : Z := 2.
Definition CYGNUM_SERIAL_FLOW_RESTART_TX : Z := 3.
Definition CYGNUM_SERIAL_STATUS_FLOW : Z := 0.
Definition CYGNUM_SERIAL_STATUS_OVERRUNERR : Z := 4.
Definition CYG_SERIAL_FLOW_OUT_THROTTLED : Z := Z.shiftl 1 0.
Definition CYG_SERIAL_FLOW_IN_THROTTLED : Z := Z.shiftl 1 1.
Definition CYG_FREAD : Z := 0x01.
Definition CYG_FWRITE : Z := 0x02.

(** Sizes of the structures configuration requests pass. *)
Definition sizeof_info : Z := 20.
Definition sizeof_buf_info : Z := 16.
Definition sizeof_uint32 : Z := 4.
Definition sizeof_callback : Z := 8.

(** A flag of a word is set. *)
Definition flag (w f : Z) : bool := negb (Z.land w f =? 0).

(** The options of io_serial.cdl, with their defaults. *)
Class SerialOptions := {
  XON_CHAR : byte;
  XOFF_CHAR : byte;
  LOW_WATER_PERCENT : Z;
  HIGH_WATER_PERCENT : Z }.
Definition default_options : SerialOptions :=
  {| XON_CHAR := 17; XOFF_CHAR := 19; LOW_WATER_PERCENT := 33; HIGH_WATER_PERCENT := 66 |}.

(** ** Data *)
Record cyg_serial_info_t := SerialInfo { baud : Z; stop : Z; parity : Z; word_length : Z; flags : Z }.

(** [wait] counts the broadcasts; [selinfo] holds the selects that were recorded since
    the last wake-up. *)
Record cbuf_t := Cbuf {
  data : list byte; put : Z; get : Z; len : Z; nb : Z;
  low_water : Z; high_water : Z;
  wait : nat; waiting : bool; blocking : bool; abort : bool; pending : Z;
  selinfo : list Z }.

Definition CBUF_INIT (d : list byte) (l : Z) : cbuf_t := Cbuf d 0 0 l 0 0 0 0 false false false 0 [].

Record serial_channel := Channel {
  config : cyg_serial_info_t;
  init : bool;
  out_cbuf : cbuf_t;
  in_cbuf : cbuf_t;
  flow_flags : Z;
  xchar : byte;
  status_callback : Z;
  status_callback_priv : Z }.

Definition SERIAL_CHANNEL_USING_INTERRUPTS (info : cyg_serial_info_t) (out_buf in_buf : list byte) : serial_channel :=
  Channel info false (CBUF_INIT out_buf (Z.of_nat (length out_buf)))
    (CBUF_INIT in_buf (Z.of_nat (length in_buf))) 0 0 0 0.
Definition SERIAL_CHANNEL (info : cyg_serial_info_t) : serial_channel :=
  SERIAL_CHANNEL_USING_INTERRUPTS info [] [].

(** What a configuration request passes: the structure its key asks for. *)
Inductive xbuf_t :=
  | XInfo (i : cyg_serial_info_t)
  | XBufInfo (rx_bufsize rx_count tx_bufsize tx_count : Z)
  | XWord (w : Z)
  | XCallback (fn priv : Z)
  | XNull.

Inductive rcv_req_reply_t := CYG_RCV_OK (space_avail : Z) (space : Z) | CYG_RCV_FULL | CYG_RCV_DISABLED.
Inductive xmt_req_reply_t := CYG_XMT_OK (chars_avail : Z) (chars : Z) | CYG_XMT_EMPTY | CYG_XMT_DISABLED.

(** *** The functions of a hardware driver

    serial_funs of serial.h. [start_xmit] answers whether it calls xmt_char of the layer
    before it returns; a null pointer is [None]. *)
Class SerialFuns := {
  hw : Type;
  putc : byte -> M hw bool;
  getc : M hw byte;
  hw_config : Z -> xbuf_t -> option Z -> M (cyg_serial_info_t * hw) (Z * option Z);
  hw_start_xmit : option (M hw bool);
  hw_stop_xmit : option (M hw unit) }.

Section Serial.
Context `{Opts : SerialOptions} `{Drv : SerialFuns}.

(** A channel, its hardware and the calls of the status callback: which, value
    ([None] when it is not initialised), function and argument. *)
Record line := Line {
  chan : serial_channel;
  dev : hw;
  reported : list (Z * option Z * Z * Z) }.

(** *** Access *)
Definition set_chan (f : serial_channel -> serial_channel) (l : line) : line := Line (f (chan l)) (dev l) (reported l).
Definition set_out (f : cbuf_t -> cbuf_t) (l : line) : line :=
  set_chan (fun c => Channel (config c) (init c) (f (out_cbuf c)) (in_cbuf c) (flow_flags c) (xchar c)
    (status_callback c) (status_callback_priv c)) l.
Definition set_in (f : cbuf_t -> cbuf_t) (l : line) : line :=
  set_chan (fun c => Channel (config c) (init c) (out_cbuf c) (f (in_cbuf c)) (flow_flags c) (xchar c)
    (status_callback c) (status_callback_priv c)) l.
Definition set_flow (f : Z -> Z) (l : line) : line :=
  set_chan (fun c => Channel (config c) (init c) (out_cbuf c) (in_cbuf c) (f (flow_flags c)) (xchar c)
    (status_callback c) (status_callback_priv c)) l.
Definition set_xchar (x : byte) (l : line) : line :=
  set_chan (fun c => Channel (config c) (init c) (out_cbuf c) (in_cbuf c) (flow_flags c) x
    (status_callback c) (status_callback_priv c)) l.
Definition set_info (i : cyg_serial_info_t) (l : line) : line :=
  set_chan (fun c => Channel i (init c) (out_cbuf c) (in_cbuf c) (flow_flags c) (xchar c)
    (status_callback c) (status_callback_priv c)) l.
Definition set_callback (fn priv : Z) (l : line) : line :=
  set_chan (fun c => Channel (config c) (init c) (out_cbuf c) (in_cbuf c) (flow_flags c) (xchar c) fn priv) l.
Definition set_dev (h : hw) (l : line) : line := Line (chan l) h (reported l).

Definition set_ring (d : list byte) (p g n : Z) (b : cbuf_t) : cbuf_t :=
  Cbuf d p g (len b) n (low_water b) (high_water b) (wait b) (waiting b) (blocking b) (abort b) (pending b) (selinfo b).
Definition set_waiting (x : bool) (b : cbuf_t) : cbuf_t :=
  Cbuf (data b) (put b) (get b) (len b) (nb b) (low_water b) (high_water b) (wait b) x (blocking b) (abort b) (pending b) (selinfo b).
Definition set_blocking (x : bool) (b : cbuf_t) : cbuf_t :=
  Cbuf (data b) (put b) (get b) (len b) (nb b) (low_water b) (high_water b) (wait b) (waiting b) x (abort b) (pending b) (selinfo b).
Definition set_abort (x : bool) (b : cbuf_t) : cbuf_t :=
  Cbuf (data b) (put b) (get b) (len b) (nb b) (low_water b) (high_water b) (wait b) (waiting b) (blocking b) x (pending b) (selinfo b).
Definition set_pending (p : Z) (b : cbuf_t) : cbuf_t :=
  Cbuf (data b) (put b) (get b) (len b) (nb b) (low_water b) (high_water b) (wait b) (waiting b) (blocking b) (abort b) p (selinfo b).
Definition set_marks (lo hi : Z) (b : cbuf_t) : cbuf_t :=
  Cbuf (data b) (put b) (get b) (len b) (nb b) lo hi (wait b) (waiting b) (blocking b) (abort b) (pending b) (selinfo b).
Definition set_selinfo (s : list Z) (b : cbuf_t) : cbuf_t :=
  Cbuf (data b) (put b) (get b) (len b) (nb b) (low_water b) (high_water b) (wait b) (waiting b) (blocking b) (abort b) (pending b) s.
Definition cyg_drv_cond_broadcast (b : cbuf_t) : cbuf_t :=
  Cbuf (data b) (put b) (get b) (len b) (nb b) (low_water b) (high_water b) (S (wait b)) (waiting b) (blocking b) (abort b) (pending b) (selinfo b).
Definition cyg_selwakeup : cbuf_t -> cbuf_t := set_selinfo [].
Definition cyg_selrecord (info : Z) (b : cbuf_t) : cbuf_t := set_selinfo (selinfo b ++ [info]) b.

(** A call of the driver. *)
Definition call {A} (m : M hw A) : M line A := fun l =>
  match m (dev l) with Some (a, h) => Some (a, set_dev h l) | None => None end.

Definition call_config (key : Z) (x : xbuf_t) (n : option Z) : M line (Z * option Z) := fun l =>
  match hw_config key x n (config (chan l), dev l) with
  | Some (r, (i, h)) => Some (r, set_dev h (set_info i l))
  | None => None
  end.

Definition fetch {S} (d : list byte) (i : Z) : M S byte :=
  if i <? 0 then crash else match d !! Z.to_nat i with Some c => mret c | None => crash end.

(** [data[i] = c], undefined outside the array. *)
Definition store (i : Z) (c : byte) (d : list byte) : option (list byte) :=
  if (0 <=? i) && (i <? Z.of_nat (length d)) then Some (<[Z.to_nat i := c]> d) else None.

Definition out_throttled (l : line) : bool := flag (flow_flags (chan l)) CYG_SERIAL_FLOW_OUT_THROTTLED.
Definition in_throttled (l : line) : bool := flag (flow_flags (chan l)) CYG_SERIAL_FLOW_IN_THROTTLED.
Definition has_config (l : line) (f : Z) : bool := flag (flags (config (chan l))) f.
Definition set_flag (f w : Z) : Z := Z.lor w f.
Definition clear_flag (f w : Z) : Z := Z.land w (u32 (Z.lnot f)).

(** ** Transmission *)

Definition hw_stop : M line unit := match hw_stop_xmit with Some m => call m | None => crash end.

(** Lets the waiting threads go on. *)
Definition wake_waiting (b : cbuf_t) : cbuf_t :=
  if waiting b then cyg_drv_cond_broadcast (set_waiting false b) else b.

(** When there is enough room, to restart a writer. *)
Definition tell_room (b : cbuf_t) : cbuf_t :=
  if low_water b <=? len b - nb b then cyg_selwakeup (wake_waiting b) else b.

(** The loop of serial_xmt_char: whether the buffer was emptied. *)
Fixpoint xmt_chars (n : nat) : M line bool :=
  l ← get_state;
  let b := out_cbuf (chan l) in
  if 0 <? nb b then
    match n with
    | O => crash
    | S n =>
      c ← fetch (data b) (get b);
      ok ← call (putc c);
      if ok : bool then
        _ ← modify (set_out (fun b =>
              set_ring (data b) (put b) (if get b + 1 =? len b then 0 else get b + 1) (nb b - 1) b));
        xmt_chars n
      else
        _ ← modify (set_out tell_room); mret false
    end
  else mret true.

(** The XON or XOFF that has to go first; whether the function goes on behind it. *)
Definition xmt_xchar : M line bool :=
  l ← get_state;
  if has_config l CYGNUM_SERIAL_FLOW_XONXOFF_RX && negb (xchar (chan l) =? 0) then
    ok ← call (putc (xchar (chan l)));
    if ok : bool then _ ← modify (set_xchar 0); mret true else mret false
  else mret true.

Definition serial_xmt_char : M line unit :=
  go ← xmt_xchar;
  if negb go then mret tt else
  l ← get_state;
  if out_throttled l then hw_stop else
  empty ← xmt_chars (Z.to_nat (nb (out_cbuf (chan l))));
  if negb empty then mret tt else
  _ ← hw_stop;
  modify (set_out (fun b => cyg_selwakeup (wake_waiting b))).

(** Calls start_xmit, which may call back for a first character. *)
Definition start_xmit : M line unit :=
  match hw_start_xmit with
  | Some m => again ← call m; if again : bool then serial_xmt_char else mret tt
  | None => crash
  end.

(** ** Flow control *)
Definition throttle_tx : M line unit := modify (set_flow (set_flag CYG_SERIAL_FLOW_OUT_THROTTLED)).

Definition restart_tx : M line unit :=
  _ ← modify (set_flow (clear_flag CYG_SERIAL_FLOW_OUT_THROTTLED));
  _ ← modify (set_out (fun b => if low_water b <=? len b - nb b then cyg_selwakeup b else b));
  l ← get_state;
  if 0 <? nb (out_cbuf (chan l)) then start_xmit else mret tt.

(** Sends [x] when software flow control is on and [cond] holds, or always when forced. *)
Definition send_xchar (force cond : bool) (x : byte) : M line unit :=
  l ← get_state;
  if force || (has_config l CYGNUM_SERIAL_FLOW_XONXOFF_RX && cond) then
    _ ← modify (set_xchar x); start_xmit
  else mret tt.

Definition hw_rx_throttle (force : bool) (i : Z) : M line unit :=
  l ← get_state;
  if force || has_config l CYGNUM_SERIAL_FLOW_RTSCTS_RX || has_config l CYGNUM_SERIAL_FLOW_DSRDTR_RX then
    _ ← call_config CYG_IO_SET_CONFIG_SERIAL_HW_RX_FLOW_THROTTLE (XWord i) (Some sizeof_uint32); mret tt
  else mret tt.

Definition throttle_rx (force : bool) : M line unit :=
  l ← get_state;
  let prev := in_throttled l in
  _ ← modify (set_flow (set_flag CYG_SERIAL_FLOW_IN_THROTTLED));
  _ ← send_xchar force (negb prev) XOFF_CHAR;
  hw_rx_throttle force 1.

Definition restart_rx (force : bool) : M line unit :=
  l ← get_state;
  let prev := in_throttled l in
  _ ← modify (set_flow (clear_flag CYG_SERIAL_FLOW_IN_THROTTLED));
  _ ← send_xchar force prev XON_CHAR;
  hw_rx_throttle force 0.

(** ** Initialisation *)
Definition init_out (b : cbuf_t) : cbuf_t :=
  if len b =? 0 then b else
  set_selinfo [] (set_marks (len b / 4) (high_water b)
    (set_pending 0 (set_blocking true (set_abort false (set_waiting false b))))).

(** The water marks of the input buffer. *)
Definition in_marks (n : Z) : Z * Z :=
  let lo := Z.quot (LOW_WATER_PERCENT * n) 100 in
  let hi := Z.quot (HIGH_WATER_PERCENT * n) 100 in
  let hi := if n - hi <? 35 then n - 35 else hi in
  let hi := if hi <=? 0 then 1 else hi in
  (if hi <? lo then hi else lo, hi).

Definition init_in (b : cbuf_t) : cbuf_t :=
  if len b =? 0 then b else
  let (lo, hi) := in_marks (len b) in
  set_marks lo hi (set_selinfo [] (set_blocking true (set_abort false (set_waiting false b)))).

Definition serial_init : M line unit :=
  modify (set_chan (fun c =>
    if init c then c else
    Channel (config c) true (init_out (out_cbuf c)) (init_in (in_cbuf c)) (flow_flags c) (xchar c)
      0 (status_callback_priv c))).

(** ** Writing *)

(** What a sleeping thread goes on with: the length it was called with and the one
    that is left, with the bytes left to send or those received so far. *)
Inductive sleeper :=
  | SWrite (n size : Z) (buf : list byte)
  | SRead (n size : Z) (acc : list byte)
  | SDrain (res : Z).

Inductive outcome (A : Type) := Done (a : A) | Asleep (k : sleeper).
#[global] Arguments Done {A} a.
#[global] Arguments Asleep {A} k.

(** The end of serial_write: output is started. *)
Definition write_done (res n : Z) : M line (outcome (Z * Z)) :=
  l ← get_state;
  _ ← (if out_throttled l then mret tt else start_xmit);
  mret (Done (res, n)).

(** [cbuf->data[cbuf->put++] = *buf++]. *)
Definition put_out (c : byte) : M line unit := fun l =>
  let b := out_cbuf (chan l) in
  let next := if put b + 1 =? len b then 0 else put b + 1 in
  match store (put b) c (data b) with
  | Some d => Some (tt, set_out (set_ring d next (get b) (nb b + 1)) l)
  | None => None
  end.

(** The body behind a full buffer: sleep, give up, or go on with [again]. *)
Definition write_abort (n size : Z) (again : M line (outcome (Z * Z))) : M line (outcome (Z * Z)) :=
  l ← get_state;
  if abort (out_cbuf (chan l)) then
    _ ← modify (set_out (fun b => set_waiting false (set_abort false b)));
    write_done (- EINTR) (u32 (n - size))
  else again.

Definition write_full (n size : Z) (buf : list byte) (again : M line (outcome (Z * Z))) : M line (outcome (Z * Z)) :=
  _ ← modify (set_out (set_waiting true));
  l ← get_state;
  _ ← (if out_throttled l then mret tt else start_xmit);
  l ← get_state;
  let b := out_cbuf (chan l) in
  if waiting b then
    if negb (blocking b) then
      _ ← modify (set_out (set_waiting false));
      write_done (if u32 (n - size) =? 0 then - EAGAIN else ENOERR) (u32 (n - size))
    else
      _ ← modify (set_out (fun b => set_pending (s32 (pending b + size)) b));
      mret (Asleep (SWrite n size buf))
  else write_abort n size again.

Fixpoint write_loop (k : nat) (n size : Z) (buf : list byte) : M line (outcome (Z * Z)) :=
  if 0 <? size then
    match k with
    | O => crash
    | S k =>
      l ← get_state;
      let b := out_cbuf (chan l) in
      if nb b =? len b then write_full n size buf (write_loop k n size buf)
      else match buf with
        | c :: buf => _ ← put_out c; write_loop k n (size - 1) buf
        | [] => crash
        end
    end
  else write_done ENOERR n.

(** A pass stores a byte or makes room for one. *)
Definition write_fuel (size : Z) : nat := 2 * Z.to_nat size.

(** The calls of putc and the polls of the flow flags a polled write is followed for. *)
Variable polls : nat.

(** Polled: the driver takes the character at last. *)
Fixpoint putc_wait (k : nat) (c : byte) : M line unit :=
  match k with
  | O => crash
  | S k =>
    l ← get_state;
    if out_throttled l then putc_wait k c else
    ok ← call (putc c);
    if ok : bool then mret tt else putc_wait k c
  end.

Fixpoint write_polled (k : nat) (buf : list byte) : M line unit :=
  match k with
  | O => mret tt
  | S k => match buf with c :: buf => _ ← putc_wait polls c; write_polled k buf | [] => crash end
  end.

Definition serial_write (buf : list byte) (n : Z) : M line (outcome (Z * Z)) :=
  let size := s32 n in
  _ ← modify (set_out (set_abort false));
  l ← get_state;
  if len (out_cbuf (chan l)) =? 0 then
    _ ← write_polled (Z.to_nat size) buf; mret (Done (ENOERR, n))
  else write_loop (write_fuel size) n size buf.

(** Behind cyg_drv_cond_wait, which answered [ok]. *)
Definition serial_write_resume (ok : bool) (n size : Z) (buf : list byte) : M line (outcome (Z * Z)) :=
  _ ← (if ok then mret tt else modify (set_out (set_abort true)));
  _ ← modify (set_out (fun b => set_pending (s32 (pending b - size)) b));
  write_abort n size (write_loop (write_fuel size) n size buf).

(** ** Reading *)

(** The next byte of the input buffer leaves it. *)
Definition take_in : M line byte :=
  l ← get_state;
  let b := in_cbuf (chan l) in
  c ← fetch (data b) (get b);
  _ ← modify (set_in (fun b =>
        set_ring (data b) (put b) (if get b + 1 =? len b then 0 else get b + 1) (nb b - 1) b));
  mret c.

Fixpoint read_loop (k : nat) (n size : Z) (acc : list byte) : M line (outcome (Z * Z * list byte)) :=
  if size <? n then
    l ← get_state;
    let b := in_cbuf (chan l) in
    if 0 <? nb b then
      match k with
      | O => crash
      | S k =>
        _ ← (if (nb b <=? low_water b) && in_throttled l then restart_rx false else mret tt);
        c ← take_in;
        read_loop k n (size + 1) (acc ++ [c])
      end
    else if negb (blocking b) then
      mret (Done (if size =? 0 then - EAGAIN else ENOERR, size, acc))
    else
      _ ← modify (set_in (set_waiting true));
      mret (Asleep (SRead n size acc))
  else mret (Done (ENOERR, n, acc)).

(** Polled; the characters of software flow control are not stored. *)
Fixpoint read_polled (k : nat) (acc : list byte) : M line (list byte) :=
  match k with
  | O => mret acc
  | S k =>
    c ← call getc;
    l ← get_state;
    if has_config l CYGNUM_SERIAL_FLOW_XONXOFF_TX && (c =? XOFF_CHAR) then
      _ ← throttle_tx; read_polled k acc
    else if has_config l CYGNUM_SERIAL_FLOW_XONXOFF_TX && (c =? XON_CHAR) then
      _ ← restart_tx; read_polled k acc
    else read_polled k (acc ++ [c])
  end.

(** The bytes stored at the start of the caller's buffer are the third result. *)
Definition serial_read (n : Z) : M line (outcome (Z * Z * list byte)) :=
  _ ← modify (set_in (set_abort false));
  l ← get_state;
  if len (in_cbuf (chan l)) =? 0 then
    acc ← read_polled (Z.to_nat n) []; mret (Done (ENOERR, n, acc))
  else read_loop (Z.to_nat n) n 0 [].

Definition serial_read_resume (ok : bool) (n size : Z) (acc : list byte) : M line (outcome (Z * Z * list byte)) :=
  _ ← (if ok then mret tt else modify (set_in (set_abort true)));
  l ← get_state;
  if abort (in_cbuf (chan l)) then
    _ ← modify (set_in (fun b => set_waiting false (set_abort false b)));
    mret (Done (- EINTR, size, acc))
  else read_loop (Z.to_nat (n - size)) n size acc.

(** ** Select *)
Definition serial_select (which info : Z) : M line bool :=
  l ← get_state;
  let inb := in_cbuf (chan l) in
  let outb := out_cbuf (chan l) in
  if which =? CYG_FREAD then
    if nb inb =? 0 then _ ← modify (set_in (cyg_selrecord info)); mret false else mret true
  else if which =? CYG_FWRITE then
    if (len outb - nb outb <? low_water outb) || out_throttled l
    then _ ← modify (set_out (cyg_selrecord info)); mret false else mret true
  else mret false.

(** ** Configuration *)

(** A configuration request: the error, the length and the buffer it leaves. *)
Abbreviation reply := (Z * option Z * xbuf_t)%type.

(** The buffer [*xb] when [*len], which may not be null, is at least [size]. *)
Definition fill (n : option Z) (size : Z) (new_n : Z -> Z) (xb new : xbuf_t) : M line (outcome reply) :=
  match n with
  | Some n => mret (Done (if n <? size then (- EINVAL, Some n, xb) else (ENOERR, Some (new_n n), new)))
  | None => crash
  end.

(** The loop of OUTPUT_DRAIN. *)
Definition drain (res : Z) : M line (outcome Z) :=
  l ← get_state;
  let b := out_cbuf (chan l) in
  if negb (pending b =? 0) || (0 <? nb b) then
    _ ← modify (set_out (set_waiting true)); mret (Asleep (SDrain res))
  else mret (Done res).

Definition drain_resume (ok : bool) (res : Z) : M line (outcome Z) :=
  drain (if ok then res else - EINTR).

Definition input_flush : M line unit :=
  _ ← modify (set_in (fun b =>
        if waiting b then set_waiting false (cyg_drv_cond_broadcast (set_abort true b)) else b));
  _ ← modify (set_in (fun b => set_ring (data b) 0 0 0 b));
  _ ← call_config CYG_IO_SET_CONFIG_SERIAL_INPUT_FLUSH XNull None;
  l ← get_state;
  if in_throttled l then restart_rx false else mret tt.

Definition output_flush : M line unit :=
  l ← get_state;
  _ ← (if 0 <? nb (out_cbuf (chan l)) then
         _ ← modify (set_out (fun b => set_ring (data b) 0 0 0 b)); hw_stop
       else mret tt);
  _ ← call_config CYG_IO_SET_CONFIG_SERIAL_OUTPUT_FLUSH XNull None;
  modify (set_out (fun b =>
    if waiting b then set_waiting false (cyg_drv_cond_broadcast (set_abort true b)) else b)).

Definition abort_buffer (b : cbuf_t) : cbuf_t :=
  if len b =? 0 then b else cyg_drv_cond_broadcast (set_abort true b).

Definition serial_get_config (key : Z) (xb : xbuf_t) (n : option Z) : M line (outcome reply) :=
  l ← get_state;
  let c := chan l in
  let inb := in_cbuf c in
  let outb := out_cbuf c in
  let done (m : M line unit) : M line (outcome reply) := _ ← m; mret (Done (ENOERR, n, xb)) in
  if key =? CYG_IO_GET_CONFIG_SERIAL_INFO then
    fill n sizeof_info (fun _ => sizeof_info) xb (XInfo (config c))
  else if key =? CYG_IO_GET_CONFIG_SERIAL_BUFFER_INFO then
    fill n sizeof_buf_info (fun _ => sizeof_buf_info) xb
      (XBufInfo (len inb) (if len inb =? 0 then 0 else nb inb) (len outb) (if len outb =? 0 then 0 else nb outb))
  else if key =? CYG_IO_GET_CONFIG_SERIAL_OUTPUT_DRAIN then
    if len outb =? 0 then done (mret tt) else
    r ← drain ENOERR;
    mret (match r with Done res => Done (res, n, xb) | Asleep k => Asleep k end)
  else if key =? CYG_IO_GET_CONFIG_SERIAL_INPUT_FLUSH then
    done (if len inb =? 0 then mret tt else input_flush)
  else if key =? CYG_IO_GET_CONFIG_SERIAL_ABORT then
    done (_ ← modify (set_in abort_buffer); modify (set_out abort_buffer))
  else if key =? CYG_IO_GET_CONFIG_SERIAL_OUTPUT_FLUSH then
    done (if len outb =? 0 then mret tt else output_flush)
  else if key =? CYG_IO_GET_CONFIG_READ_BLOCKING then
    fill n sizeof_uint32 id xb (XWord (if blocking inb then 1 else 0))
  else if key =? CYG_IO_GET_CONFIG_WRITE_BLOCKING then
    fill n sizeof_uint32 id xb (XWord (if blocking outb then 1 else 0))
  else mret (Done (- EINVAL, n, xb)).

Definition FLOW_METHODS : Z :=
  Z.lor CYGNUM_SERIAL_FLOW_XONXOFF_RX (Z.lor CYGNUM_SERIAL_FLOW_XONXOFF_TX
    (Z.lor CYGNUM_SERIAL_FLOW_RTSCTS_RX (Z.lor CYGNUM_SERIAL_FLOW_RTSCTS_TX
      (Z.lor CYGNUM_SERIAL_FLOW_DSRDTR_RX CYGNUM_SERIAL_FLOW_DSRDTR_TX)))).

Definition flow_method (f : Z) : M line Z :=
  l ← get_state;
  let i := config (chan l) in
  let fl := Z.lor (Z.land (flags i) (u32 (Z.lnot FLOW_METHODS))) (Z.land f FLOW_METHODS) in
  _ ← modify (set_info (SerialInfo (baud i) (stop i) (parity i) (word_length i) fl));
  r ← call_config CYG_IO_SET_CONFIG_SERIAL_HW_FLOW_CONFIG XNull None;
  mret (fst r).

Definition flow_force (f : Z) : M line Z :=
  if f =? CYGNUM_SERIAL_FLOW_THROTTLE_RX then _ ← throttle_rx true; mret ENOERR
  else if f =? CYGNUM_SERIAL_FLOW_RESTART_RX then _ ← restart_rx true; mret ENOERR
  else if f =? CYGNUM_SERIAL_FLOW_THROTTLE_TX then _ ← throttle_tx; mret ENOERR
  else if f =? CYGNUM_SERIAL_FLOW_RESTART_TX then _ ← restart_tx; mret ENOERR
  else mret (- EINVAL).

Definition serial_set_config (key : Z) (xb : xbuf_t) (n : option Z) : M line reply :=
  l ← get_state;
  (** [*len] and the word in the buffer. *)
  let word (guard : bool) (m : Z -> M line Z) : M line reply :=
    match n with
    | Some k =>
      if (k <? sizeof_uint32) || guard then mret (- EINVAL, n, xb) else
      match xb with XWord w => res ← m w; mret (res, n, xb) | _ => crash end
    | None => crash
    end in
  if key =? CYG_IO_SET_CONFIG_READ_BLOCKING then
    word (len (in_cbuf (chan l)) =? 0) (fun w => _ ← modify (set_in (set_blocking (w =? 1))); mret ENOERR)
  else if key =? CYG_IO_SET_CONFIG_WRITE_BLOCKING then
    word (len (out_cbuf (chan l)) =? 0) (fun w => _ ← modify (set_out (set_blocking (w =? 1))); mret ENOERR)
  else if key =? CYG_IO_SET_CONFIG_SERIAL_FLOW_CONTROL_METHOD then word false flow_method
  else if key =? CYG_IO_SET_CONFIG_SERIAL_FLOW_CONTROL_FORCE then word false flow_force
  else if key =? CYG_IO_SET_CONFIG_SERIAL_STATUS_CALLBACK then
    match n with
    | Some k =>
      if k <? sizeof_callback then mret (- EINVAL, n, xb) else
      match xb with
      | XCallback fn priv =>
        _ ← modify (set_callback fn priv);
        mret (ENOERR, Some sizeof_callback, XCallback (status_callback (chan l)) (status_callback_priv (chan l)))
      | _ => crash
      end
    | None => crash
    end
  else r ← call_config key xb n; mret (fst r, snd r, xb).

(** ** Reception *)
Definition serial_indicate_status (which : Z) (value : option Z) : M line unit :=
  _ ← (if which =? CYGNUM_SERIAL_STATUS_FLOW then
         match value with
         | Some v => if v =? 0 then throttle_tx else restart_tx
         | None => crash
         end
       else mret tt);
  l ← get_state;
  let c := chan l in
  if status_callback c =? 0 then mret tt else
  modify (fun l => Line (chan l) (dev l) (reported l ++ [(which, value, status_callback c, status_callback_priv c)])).

(** The character is stored behind the others. *)
Definition put_in (c : byte) : M line unit := fun l =>
  let b := in_cbuf (chan l) in
  match store (put b) c (data b) with
  | Some d => Some (tt, set_in (set_ring d (if put b + 1 =? len b then 0 else put b + 1) (get b) (nb b + 1)) l)
  | None => None
  end.

Definition serial_rcv_char (c : byte) : M line unit :=
  l ← get_state;
  if has_config l CYGNUM_SERIAL_FLOW_XONXOFF_TX && (c =? XOFF_CHAR) then throttle_tx
  else if has_config l CYGNUM_SERIAL_FLOW_XONXOFF_TX && (c =? XON_CHAR) then restart_tx
  else
  _ ← (if high_water (in_cbuf (chan l)) <=? nb (in_cbuf (chan l)) then throttle_rx false else mret tt);
  _ ← modify (set_in (fun b => if nb b =? 0 then cyg_selwakeup b else b));
  l ← get_state;
  let b := in_cbuf (chan l) in
  _ ← (if nb b <? len b then put_in c else serial_indicate_status CYGNUM_SERIAL_STATUS_OVERRUNERR None);
  modify (set_in wake_waiting).

(** ** Block transfers *)
Definition soft_flow (l : line) : bool :=
  has_config l (Z.lor CYGNUM_SERIAL_FLOW_XONXOFF_TX CYGNUM_SERIAL_FLOW_XONXOFF_RX).

(** Where the driver may put received characters: how many, from which index on. *)
Definition serial_data_rcv_req (avail : Z) : M line rcv_req_reply_t :=
  l ← get_state;
  if soft_flow l then mret CYG_RCV_DISABLED else
  let b := in_cbuf (chan l) in
  if nb b =? len b then mret CYG_RCV_FULL else
  _ ← (if nb b =? 0 then modify (set_in (fun b => set_ring (data b) 0 0 (nb b) b)) else mret tt);
  l ← get_state;
  let b := in_cbuf (chan l) in
  let gap := if nb b =? 0 then len b else
             if get b - put b <? 0 then len b - put b else get b - put b in
  mret (CYG_RCV_OK (if avail <? gap then avail else gap) (put b)).

Definition serial_data_rcv_done (chars_rcvd : Z) : M line unit :=
  _ ← modify (set_in (fun b =>
        set_ring (data b) (if put b + chars_rcvd =? len b then 0 else put b + chars_rcvd) (get b) (nb b + chars_rcvd) b));
  _ ← modify (set_in wake_waiting);
  l ← get_state;
  _ ← (if high_water (in_cbuf (chan l)) <=? nb (in_cbuf (chan l)) then throttle_rx false else mret tt);
  modify (set_in (fun b => if chars_rcvd =? nb b then cyg_selwakeup b else b)).

(** Which characters the driver may send: how many, from which index on. *)
Definition serial_data_xmt_req (space : Z) : M line xmt_req_reply_t :=
  l ← get_state;
  if soft_flow l then mret CYG_XMT_DISABLED else
  if out_throttled l then _ ← hw_stop; mret CYG_XMT_EMPTY else
  let b := out_cbuf (chan l) in
  if nb b =? 0 then mret CYG_XMT_EMPTY else
  let avail := if put b <=? get b then len b - get b else put b - get b in
  mret (CYG_XMT_OK (if space <? avail then space else avail) (get b)).

Definition serial_data_xmt_done (chars_sent : Z) : M line unit :=
  _ ← modify (set_out (fun b =>
        set_ring (data b) (put b) (if get b + chars_sent =? len b then 0 else get b + chars_sent) (nb b - chars_sent) b));
  l ← get_state;
  _ ← (if nb (out_cbuf (chan l)) =? 0 then
         _ ← hw_stop; modify (set_out (fun b => set_ring (data b) 0 0 (nb b) b))
       else mret tt);
  modify (set_out tell_room).
End Serial.
