(* ===== verification/SerialSpec.v ===== *)
(** * The serial driver: queues of bytes

    A circular buffer is a bounded queue; what the layer and a hardware driver promise
    to each other; and the accounting every operation satisfies: the bytes that were
    waiting and those that came in are, in order, those that went out and those that
    are waiting now. *)
From S2P Require Import Prelude Serial.

(** ** The circular buffer *)

(** The bytes that wait, oldest first. *)
Definition contents (b : cbuf_t) : list byte :=
  (fun i => nthZ (data b) ((get b + i) mod len b)) <$> seqZ 0 (nb b).

Record ring_ok (b : cbuf_t) : Prop := {
  ring_len : Z.of_nat (length (data b)) = len b;
  ring_get : 0 <= get b < len b;
  ring_nb : 0 <= nb b <= len b;
  ring_put : put b = (get b + nb b) mod len b }.

(** A channel without the buffer has one of length 0. *)
Definition buf_ok (b : cbuf_t) : Prop := (len b = 0 /\ nb b = 0) \/ ring_ok b.

Section Ring.
Implicit Types b : cbuf_t.

Lemma contents_nil b : nb b = 0 -> contents b = [].
Proof. intros H. unfold contents. by rewrite H. Qed.

Lemma buf_ok_nb b : buf_ok b -> 0 <= nb b <= len b.
Proof. intros [[? ?]|[]]; lia. Qed.

Lemma length_contents b : buf_ok b -> Z.of_nat (length (contents b)) = nb b.
Proof. intros H%buf_ok_nb. unfold contents. rewrite length_fmap, length_seqZ. lia. Qed.

(** Incrementing an index with the test of the code. *)
Lemma next_mod i n : 0 <= i < n -> (if i + 1 =? n then 0 else i + 1) = (i + 1) mod n.
Proof.
  intros H. destruct (Z.eqb_spec (i + 1) n) as [->|].
  - by rewrite Z.mod_same by lia.
  - rewrite Z.mod_small; lia.
Qed.

Lemma ring_put_range b : ring_ok b -> 0 <= put b < len b.
Proof. intros []. pose proof (Z.mod_pos_bound (get b + nb b) (len b)). lia. Qed.

(** Two places of the window that starts at [g] differ. *)
Lemma window_inj g i j n : 0 <= i < n -> 0 <= j < n -> i <> j -> (g + i) mod n <> (g + j) mod n.
Proof.
  intros Hi Hj Hne E. pose proof (Z.div_mod (g + i) n). pose proof (Z.div_mod (g + j) n).
  assert ((g + i) / n = (g + j) / n \/ (g + i) / n < (g + j) / n \/ (g + j) / n < (g + i) / n) as [?|[?|?]] by lia; nia.
Qed.

Lemma nthZ_insert_ne (l : list Z) i j c : 0 <= i -> 0 <= j -> i <> j -> nthZ (<[Z.to_nat i := c]> l) j = nthZ l j.
Proof. intros. unfold nthZ. rewrite !nth_lookup, list_lookup_insert_ne; [done|lia]. Qed.

Lemma nthZ_insert_eq (l : list Z) i c : 0 <= i < Z.of_nat (length l) -> nthZ (<[Z.to_nat i := c]> l) i = c.
Proof. intros. unfold nthZ. rewrite nth_lookup, list_lookup_insert_eq; [done|lia]. Qed.

(** Storing a byte. *)
Lemma ring_store b c : ring_ok b -> nb b < len b ->
  store (put b) c (data b) = Some (<[Z.to_nat (put b) := c]> (data b)) /\
  let b' := set_ring (<[Z.to_nat (put b) := c]> (data b)) (if put b + 1 =? len b then 0 else put b + 1) (get b) (nb b + 1) b in
  ring_ok b' /\ contents b' = contents b ++ [c].
Proof.
  intros Hr Hn. pose proof (ring_put_range _ Hr) as Hp. destruct Hr as [Hl Hg Hnb Hput]. split.
  { unfold store. rewrite Hl. by replace ((0 <=? put b) && (put b <? len b)) with true by lia. }
  cbn. split.
  - split; cbn; [by rewrite length_insert|done|lia|].
    rewrite next_mod, Hput, Zplus_mod_idemp_l by done. f_equal. lia.
  - unfold contents. cbn [data get len nb set_ring]. rewrite seqZ_app, fmap_app by lia. f_equal.
    + apply list_fmap_ext. intros k i Hi%lookup_seqZ. apply nthZ_insert_ne; [lia| |].
      * apply Z.mod_pos_bound. lia.
      * rewrite Hput. apply window_inj; lia.
    + rewrite seqZ_cons, seqZ_nil, list_fmap_singleton, Z.add_0_l, <- Hput by lia. f_equal. apply nthZ_insert_eq. lia.
Qed.

(** Taking the oldest byte. *)
Lemma ring_take b : ring_ok b -> 0 < nb b ->
  exists c, (forall S (s : S), fetch (data b) (get b) s = Some (c, s)) /\
  let b' := set_ring (data b) (put b) (if get b + 1 =? len b then 0 else get b + 1) (nb b - 1) b in
  ring_ok b' /\ contents b = c :: contents b'.
Proof.
  intros [Hl Hg Hnb Hput] Hn.
  destruct (lookup_lt_is_Some_2 (data b) (Z.to_nat (get b))) as [c Hc]; [lia|]. exists c. split.
  { intros S s. unfold fetch. rewrite Hc. by replace (get b <? 0) with false by lia. }
  cbn. rewrite next_mod by done. split.
  - split; cbn; [done| |lia|].
    + apply Z.mod_pos_bound. lia.
    + rewrite Hput, Zplus_mod_idemp_l. f_equal. lia.
  - unfold contents. cbn [data get len nb set_ring]. rewrite (seqZ_cons 0) by lia. rewrite fmap_cons. f_equal.
    + rewrite Z.add_0_r, Z.mod_small by done. unfold nthZ. by rewrite nth_lookup, Hc.
    + change (Z.succ 0) with (1 + 0). rewrite <- (fmap_add_seqZ 1 0), <- list_fmap_compose. unfold Z.pred.
      apply list_fmap_ext. intros k i _. unfold compose. f_equal. rewrite Zplus_mod_idemp_l. f_equal. lia.
Qed.
End Ring.

(** ** What the layer asks of a driver

    [fifo] is what the driver has taken and not yet brought on the line, [framed] the
    part of its state the layer's calls leave alone. *)
Class SerialLaws `{Drv : SerialFuns} := {
  dev_ok : hw -> Prop;
  fifo : hw -> list byte;
  frame : Type;
  framed : hw -> frame;
  law_putc c h : dev_ok h -> exists ok h', putc c h = Some (ok, h') /\ dev_ok h' /\
    fifo h' = (if ok : bool then fifo h ++ [c] else fifo h) /\ framed h' = framed h;
  law_start h : dev_ok h -> exists m again h', hw_start_xmit = Some m /\ m h = Some (again, h') /\ dev_ok h' /\
    fifo h' = fifo h /\ framed h' = framed h;
  law_stop h : dev_ok h -> exists m h', hw_stop_xmit = Some m /\ m h = Some (tt, h') /\ dev_ok h' /\
    fifo h' = fifo h /\ framed h' = framed h;
  law_config key x n i h r i' h' : dev_ok h -> hw_config key x n (i, h) = Some (r, (i', h')) ->
    dev_ok h' /\ fifo h' = fifo h /\ framed h' = framed h;
  law_config_runs key x n i h : dev_ok h -> key <> CYG_IO_SET_CONFIG_SERIAL_INFO -> is_Some (hw_config key x n (i, h)) }.

(** ** Accounting *)
Section Accounting.
Context `{Opts : SerialOptions} `{Laws : SerialLaws}.
Implicit Types (l : line).

Definition outq l : list byte := contents (out_cbuf (chan l)).
Definition inq l : list byte := contents (in_cbuf (chan l)).

(** [ws] is [ds] with characters of flow control between. *)
Inductive wire : list byte -> list byte -> Prop :=
  | wire_nil : wire [] []
  | wire_data c ds ws : wire ds ws -> wire (ds ++ [c]) (ws ++ [c])
  | wire_flow x ds ws : (x = XON_CHAR \/ x = XOFF_CHAR) -> wire ds ws -> wire ds (ws ++ [x]).

Lemma wire_concat d1 w1 d2 w2 : wire d1 w1 -> wire d2 w2 -> wire (d1 ++ d2) (w1 ++ w2).
Proof using.
  intros H1 H2. induction H2; rewrite ?app_nil_r, ?app_assoc; [done|by constructor..].
Qed.

Lemma wire_one c : wire [c] [c].
Proof using. apply (wire_data c [] []), wire_nil. Qed.

Record line_ok l : Prop := {
  ok_out : buf_ok (out_cbuf (chan l));
  ok_in : buf_ok (in_cbuf (chan l));
  ok_dev : dev_ok (dev l);
  ok_xchar : xchar (chan l) = 0 \/ xchar (chan l) = XON_CHAR \/ xchar (chan l) = XOFF_CHAR;
  ok_low : low_water (out_cbuf (chan l)) <= len (out_cbuf (chan l)) }.

Definition sizes_of (b : cbuf_t) : Z * Z * Z := (len b, low_water b, high_water b).
Definition sizes l := (sizes_of (out_cbuf (chan l)), sizes_of (in_cbuf (chan l))).

(** Between [l] and [l'] the bytes [w] were written and [s] were received and stored;
    [r] were read, and what left the buffer for the line is in the driver. *)
Record flow l w s r l' : Prop := {
  flow_ok : line_ok l';
  flow_sizes : sizes l' = sizes l;
  flow_frame : framed (dev l') = framed (dev l);
  flow_out : exists ds ws, wire ds ws /\ fifo (dev l') = fifo (dev l) ++ ws /\ outq l ++ w = ds ++ outq l';
  flow_in : inq l ++ s = r ++ inq l' }.

Lemma flow_refl l : line_ok l -> flow l [] [] [] l.
Proof using.
  intros H. split; [done..| |by rewrite app_nil_r].
  exists [], []. rewrite !app_nil_r. split; [constructor|done].
Qed.

Lemma flow_trans l1 w1 s1 r1 l2 w2 s2 r2 l3 :
  flow l1 w1 s1 r1 l2 -> flow l2 w2 s2 r2 l3 -> flow l1 (w1 ++ w2) (s1 ++ s2) (r1 ++ r2) l3.
Proof using.
  intros [_ Hs1 Hf1 (d1 & c1 & Hw1 & Hq1 & Ho1) Hi1] [Hok Hs2 Hf2 (d2 & c2 & Hw2 & Hq2 & Ho2) Hi2].
  split; [done|congruence|congruence| |].
  - exists (d1 ++ d2), (c1 ++ c2). split; [by apply wire_concat|]. rewrite Hq2, Hq1, <- !app_assoc. split; [done|].
    by rewrite <- Ho2, !app_assoc, Ho1.
  - by rewrite app_assoc, Hi1, <- !app_assoc, <- Hi2.
Qed.

(** What a change of the channel's other fields is. *)
Lemma flow_same l l' :
  line_ok l -> sizes l' = sizes l -> dev l' = dev l -> outq l' = outq l -> inq l' = inq l ->
  buf_ok (out_cbuf (chan l')) -> buf_ok (in_cbuf (chan l')) ->
  (xchar (chan l') = xchar (chan l) \/ xchar (chan l') = 0 \/ xchar (chan l') = XON_CHAR \/ xchar (chan l') = XOFF_CHAR) ->
  flow l [] [] [] l'.
Proof using.
  intros Hok Hs Hd Ho Hi Hbo Hbi Hx. pose proof Hok as [? ? ? ? ?]. unfold sizes, sizes_of in Hs. injection Hs as E1 E2 E3 E4 E5 E6. split.
  - split; try done; [by rewrite Hd|by destruct Hx as [->|Hx]|congruence].
  - unfold sizes, sizes_of. congruence.
  - by rewrite Hd.
  - exists [], []. rewrite Hd, Ho, !app_nil_r. split; [constructor|done].
  - by rewrite Hi, app_nil_r.
Qed.

(** A sleeper that was told to wait is told when it may go on. *)
Definition rouses (b b' : cbuf_t) : Prop :=
  (wait b <= wait b')%nat /\ (waiting b = true -> waiting b' = true \/ (wait b < wait b')%nat).

Lemma rouses_refl b : rouses b b.
Proof using. split; auto. Qed.

Lemma rouses_trans b1 b2 b3 : rouses b1 b2 -> rouses b2 b3 -> rouses b1 b3.
Proof using. intros [L1 H1] [L2 H2]. split; [lia|]. intros Hw. destruct (H1 Hw) as [Hw'|]; [|right; lia]. destruct (H2 Hw'); [by left|right; lia]. Qed.

(** What transmission does: the output buffer drains into the driver, and a writer that
    waits is told when there is room. *)
Record sends l l' : Prop := {
  sends_flow : flow l [] [] [] l';
  sends_in : in_cbuf (chan l') = in_cbuf (chan l);
  sends_abort : abort (out_cbuf (chan l')) = abort (out_cbuf (chan l));
  sends_blocking : blocking (out_cbuf (chan l')) = blocking (out_cbuf (chan l));
  sends_pending : pending (out_cbuf (chan l')) = pending (out_cbuf (chan l));
  sends_nb : nb (out_cbuf (chan l')) <= nb (out_cbuf (chan l));
  sends_rouses : rouses (out_cbuf (chan l)) (out_cbuf (chan l'));
  sends_room : waiting (out_cbuf (chan l')) = waiting (out_cbuf (chan l)) \/
    low_water (out_cbuf (chan l')) <= len (out_cbuf (chan l')) - nb (out_cbuf (chan l'));
  sends_callback : status_callback (chan l') = status_callback (chan l) /\ reported l' = reported l }.

Lemma sends_refl l : line_ok l -> sends l l.
Proof using. intros H. split; [by apply flow_refl|done..|lia|apply rouses_refl|by left|done]. Qed.

Lemma sends_trans l1 l2 l3 : sends l1 l2 -> sends l2 l3 -> sends l1 l3.
Proof using.
  intros [F1 ? ? ? ? ? ? R1 [? ?]] [F2 ? ? ? ? ? ? R2 [? ?]].
  pose proof (flow_sizes _ _ _ _ _ F2) as Hs. unfold sizes, sizes_of in Hs. injection Hs as E1 E2 E3 E4 E5 E6. split.
  - apply (flow_trans _ _ _ _ _ _ _ _ _ F1 F2).
  - congruence.
  - congruence.
  - congruence.
  - congruence.
  - lia.
  - by eapply rouses_trans.
  - destruct R2 as [->|R2]; [|by right]. destruct R1 as [->|R1]; [by left|]. right. lia.
  - split; congruence.
Qed.
End Accounting.
