(* ===== verification/SerialOps.v ===== *)
(** * The serial driver: transmission and flow control

    What the functions that send do to the queues: whatever is in the output buffer
    leaves it in order, and whoever waits for room is told. *)
From S2P Require Import Prelude Serial SerialSpec.

(** The queue of a buffer with its marks, and all but what its sleepers see. *)
Definition shape (b : cbuf_t) := (data b, put b, get b, len b, nb b, low_water b, high_water b).
Definition core (b : cbuf_t) := (shape b, (blocking b, abort b, pending b)).

Section Tell.
Implicit Types b : cbuf_t.

Lemma shape_contents b b' : shape b' = shape b -> contents b' = contents b.
Proof. unfold shape, contents. intros H. injection H as H1 H2 H3 H4 H5 _ _. by rewrite H1, H3, H4, H5. Qed.

Lemma shape_ok b b' : shape b' = shape b -> buf_ok b -> buf_ok b'.
Proof.
  unfold shape. intros H. injection H as H1 H2 H3 H4 H5 _ _. intros [Hb|[]]; [left|right; split]; by rewrite ?H1, ?H2, ?H3, ?H4, ?H5.
Qed.

Lemma core_wake b : core (wake_waiting b) = core b.
Proof. unfold wake_waiting. by destruct (waiting b). Qed.

Lemma rouses_wake b : rouses b (wake_waiting b).
Proof. unfold wake_waiting, rouses. destruct (waiting b) eqn:E; cbn; split; auto; congruence. Qed.

Lemma core_tell_room b : core (tell_room b) = core b.
Proof. unfold tell_room. destruct (_ <=? _); [apply (core_wake b)|done]. Qed.

Lemma rouses_tell_room b : rouses b (tell_room b).
Proof. unfold tell_room. destruct (_ <=? _); [apply (rouses_wake b)|apply rouses_refl]. Qed.

Lemma tell_room_spec b : waiting (tell_room b) = waiting b \/ low_water b <= len b - nb b.
Proof. unfold tell_room. destruct (Z.leb_spec (low_water b) (len b - nb b)); [by right|by left]. Qed.

Lemma rouses_sel s b b' : rouses b b' -> rouses b (set_selinfo s b').
Proof. done. Qed.
End Tell.

Section Sending.
Context `{Opts : SerialOptions} `{Laws : SerialLaws}.
Implicit Types (l : line).

(** The fields flow control looks at. *)
Definition flow_state l := (config (chan l), flow_flags (chan l), xchar (chan l)).

(** The bytes in the driver and in the buffer, when no character of flow control comes between. *)
Definition pipe l : list byte := fifo (dev l) ++ outq l.

Lemma sends_ok l l' : sends l l' -> line_ok l'.
Proof using. intros H. apply (sends_flow _ _ H). Qed.

Lemma sends_tell f l :
  line_ok l -> core (f (out_cbuf (chan l))) = core (out_cbuf (chan l)) ->
  rouses (out_cbuf (chan l)) (f (out_cbuf (chan l))) ->
  waiting (f (out_cbuf (chan l))) = waiting (out_cbuf (chan l)) \/
    low_water (out_cbuf (chan l)) <= len (out_cbuf (chan l)) - nb (out_cbuf (chan l)) ->
  sends l (set_out f l).
Proof using.
  intros Hok Hc Hr Hw. assert (shape (f (out_cbuf (chan l))) = shape (out_cbuf (chan l))) as Hsh by exact (f_equal fst Hc).
  injection Hc as _ _ _ H4 H5 H6 H7 H8 H9 H10.
  pose proof (shape_contents _ _ Hsh) as Hq. pose proof (shape_ok _ _ Hsh (ok_out _ Hok)) as Hb. split; cbn; try done; [|lia|by rewrite H4, H5, H6].
  apply flow_same; try done; [|exact (ok_in _ Hok)|by left]. unfold sizes, sizes_of. cbn. by rewrite H4, H6, H7.
Qed.

(** Changes of the flags of a buffer. *)
Lemma flow_out_flags f l : line_ok l -> shape (f (out_cbuf (chan l))) = shape (out_cbuf (chan l)) -> flow l [] [] [] (set_out f l).
Proof using.
  intros Hok Hs. pose proof (shape_contents _ _ Hs) as Hq. pose proof (shape_ok _ _ Hs (ok_out _ Hok)) as Hb.
  unfold shape in Hs. injection Hs as _ _ _ H4 _ H6 H7.
  apply flow_same; try done; [|exact (ok_in _ Hok)|by left]. unfold sizes, sizes_of. cbn. by rewrite H4, H6, H7.
Qed.

Lemma flow_in_flags f l : line_ok l -> shape (f (in_cbuf (chan l))) = shape (in_cbuf (chan l)) -> flow l [] [] [] (set_in f l).
Proof using.
  intros Hok Hs. pose proof (shape_contents _ _ Hs) as Hq. pose proof (shape_ok _ _ Hs (ok_in _ Hok)) as Hb.
  unfold shape in Hs. injection Hs as _ _ _ H4 _ H6 H7.
  apply flow_same; try done; [|exact (ok_out _ Hok)|by left]. unfold sizes, sizes_of. cbn. by rewrite H4, H6, H7.
Qed.

Lemma sends_dev h l :
  line_ok l -> dev_ok h -> fifo h = fifo (dev l) -> framed h = framed (dev l) -> sends l (set_dev h l).
Proof using.
  intros Hok Hd Hf Hr. split; cbn; try done; [|apply rouses_refl|by left]. split; try done.
  - by destruct Hok; split.
  - exists [], []. cbn. rewrite Hf, !app_nil_r. split; [constructor|done].
  - by rewrite app_nil_r.
Qed.

(** A change of the fields that are not buffers. *)
Lemma sends_chan f l :
  line_ok l -> out_cbuf (f (chan l)) = out_cbuf (chan l) -> in_cbuf (f (chan l)) = in_cbuf (chan l) ->
  status_callback (f (chan l)) = status_callback (chan l) ->
  (xchar (f (chan l)) = xchar (chan l) \/ xchar (f (chan l)) = 0 \/ xchar (f (chan l)) = XON_CHAR \/ xchar (f (chan l)) = XOFF_CHAR) ->
  sends l (set_chan f l).
Proof using.
  intros Hok Ho Hi Hc Hx. split; cbn; rewrite ?Ho; try done; [|apply rouses_refl|by left].
  apply flow_same; cbn; try done; unfold sizes, outq, inq; cbn; rewrite ?Ho, ?Hi; try done; by apply Hok.
Qed.

Lemma wp_putc c l (Q : bool -> line -> Prop) :
  line_ok l ->
  (forall ok h, dev_ok h -> fifo h = (if ok : bool then fifo (dev l) ++ [c] else fifo (dev l)) ->
    framed h = framed (dev l) -> Q ok (set_dev h l)) ->
  wp (call (putc c)) Q l.
Proof using.
  intros Hok HQ. destruct (law_putc c _ (ok_dev _ Hok)) as (ok & h & E & Hd & Hf & Hr).
  exists ok, (set_dev h l). split; [|by apply HQ]. unfold call. by rewrite E.
Qed.

Lemma wp_stop l (Q : unit -> line -> Prop) :
  line_ok l -> (forall h, sends l (set_dev h l) -> pipe (set_dev h l) = pipe l -> Q tt (set_dev h l)) -> wp hw_stop Q l.
Proof using.
  intros Hok HQ. destruct (law_stop _ (ok_dev _ Hok)) as (m & h & Em & E & Hd & Hf & Hr).
  exists tt, (set_dev h l). split; [|apply HQ; [by apply sends_dev|unfold pipe; cbn; by rewrite Hf]]. unfold hw_stop. rewrite Em. unfold call. by rewrite E.
Qed.

Lemma config_sends key x n l r l' : line_ok l -> call_config key x n l = Some (r, l') -> sends l l'.
Proof using.
  intros Hok. unfold call_config. destruct (hw_config _ _ _ _) as [[r1 [i h]]|] eqn:E; [|done]. intros [= _ <-].
  destruct (law_config _ _ _ _ _ _ _ _ (ok_dev _ Hok) E) as (Hd & Hf & Hr).
  assert (sends l (set_info i l)) as H1 by (apply sends_chan; auto).
  eapply sends_trans; [exact H1|]. apply sends_dev; [by eapply sends_ok|done..].
Qed.

(** One byte from the buffer to the driver. *)
Lemma sends_byte c b' h l :
  line_ok l -> dev_ok h -> fifo h = fifo (dev l) ++ [c] -> framed h = framed (dev l) ->
  b' = (fun b => set_ring (data b) (put b) (if get b + 1 =? len b then 0 else get b + 1) (nb b - 1) b) ->
  ring_ok (b' (out_cbuf (chan l))) -> contents (out_cbuf (chan l)) = c :: contents (b' (out_cbuf (chan l))) ->
  sends l (set_out b' (set_dev h l)).
Proof using.
  intros Hok Hd Hf Hr -> Hb Hc. split; cbn; try done; [|lia|exact (rouses_refl _)|by left]. split; try done.
  - destruct Hok. split; cbn; try done. by right.
  - exists [c], [c]. cbn. split; [apply wire_one|]. split; [done|]. rewrite app_nil_r. exact Hc.
  - by rewrite app_nil_r.
Qed.

Lemma xmt_chars_ok n : forall l, line_ok l -> nb (out_cbuf (chan l)) <= Z.of_nat n ->
  wp (xmt_chars n) (fun e l' => sends l l' /\ flow_state l' = flow_state l /\ pipe l' = pipe l /\
    if e then nb (out_cbuf (chan l')) = 0 else 0 < nb (out_cbuf (chan l'))) l.
Proof using.
  induction n as [|n IH]; intros l Hok Hn; cbn [xmt_chars]; apply wp_get.
  - pose proof (buf_ok_nb _ (ok_out _ Hok)). replace (0 <? nb (out_cbuf (chan l))) with false by lia.
    apply wp_ret. split_and!; [by apply sends_refl|done..|cbn; lia].
  - destruct (Z.ltb_spec 0 (nb (out_cbuf (chan l)))).
    2: { apply wp_ret. split_and!; [by apply sends_refl|done..|]. pose proof (buf_ok_nb _ (ok_out _ Hok)). lia. }
    destruct (ok_out _ Hok) as [[? ?]|Hr]; [lia|]. destruct (ring_take _ Hr) as (c & Hc & Hr' & Hq); [lia|].
    apply wp_bind. exists c, l. split; [apply Hc|]. apply wp_bind. apply wp_putc; [done|]. intros [|] h Hd Hf Hfr.
    + wp_steps. assert (sends l (set_out (fun b => set_ring (data b) (put b)
        (if get b + 1 =? len b then 0 else get b + 1) (nb b - 1) b) (set_dev h l))) as Hs.
      { by eapply sends_byte. }
      eapply wp_mono; [apply IH; [apply Hs|cbn; lia]|]. intros e l' (Hs' & Hx & Hp & He).
      split_and!; [by eapply sends_trans|done| |done]. rewrite Hp. unfold pipe, outq. cbn. rewrite Hf, Hq, <- app_assoc. done.
    + wp_steps. assert (sends l (set_dev h l)) as Hs by by apply sends_dev.
      pose proof (f_equal fst (core_tell_room (out_cbuf (chan l)))) as Hsh. cbn in Hsh. split_and!.
      * eapply sends_trans; [exact Hs|]. apply sends_tell; [apply Hs|apply core_tell_room|apply rouses_tell_room|apply tell_room_spec].
      * done.
      * unfold pipe, outq. cbn. rewrite Hf. f_equal. by apply shape_contents.
      * unfold shape in Hsh. injection Hsh as _ _ _ _ E _ _. cbn. lia.
Qed.

Lemma xmt_xchar_ok l : line_ok l -> wp xmt_xchar (fun _ l' => sends l l' /\ out_cbuf (chan l') = out_cbuf (chan l) /\
  (xchar (chan l) = 0 -> l' = l)) l.
Proof using.
  intros Hok. unfold xmt_xchar. apply wp_get. destruct (has_config _ _ && _) eqn:Hx.
  2: by apply wp_ret; split_and!; [apply sends_refl|..].
  assert (xchar (chan l) <> 0) as Hne by (intros E; rewrite E in Hx; by rewrite andb_false_r in Hx).
  apply wp_bind, wp_putc; [done|]. intros [|] h Hd Hf Hfr.
  2: { apply wp_ret. split_and!; [by apply sends_dev|done|done]. }
  wp_steps. split_and!; [|done|done]. split; cbn; try done; [|apply rouses_refl|by left]. split; try done.
  - destruct Hok. split; cbn; try done. by left.
  - exists [], [xchar (chan l)]. cbn. rewrite app_nil_r. split; [|done].
    apply (wire_flow _ [] []); [|constructor]. by destruct (ok_xchar _ Hok) as [H|H].
  - by rewrite app_nil_r.
Qed.

(** Whoever sends the last byte tells those who wait; without a character of flow
    control the bytes only move on. *)
Lemma xmt_char_full l : line_ok l -> wp serial_xmt_char (fun _ l' => sends l l' /\
  (0 < nb (out_cbuf (chan l)) -> nb (out_cbuf (chan l')) = 0 -> waiting (out_cbuf (chan l')) = false) /\
  (xchar (chan l) = 0 -> flow_state l' = flow_state l /\ pipe l' = pipe l)) l.
Proof using.
  intros Hok. unfold serial_xmt_char. apply wp_bind. eapply wp_mono; [by apply xmt_xchar_ok|].
  intros [|] l1 (H1 & E1 & X1); [|apply wp_ret; split_and!; [done|rewrite E1; lia|by intros ->%X1]].
  cbn [negb]. pose proof (sends_ok _ _ H1) as Hok1. apply wp_get. destruct (out_throttled l1).
  { apply wp_stop; [done|]. intros h Hs Hp. split_and!; [by eapply sends_trans|cbn; rewrite E1; lia|].
    intros ->%X1. by rewrite <- Hp. }
  apply wp_bind. eapply wp_mono; [apply xmt_chars_ok; [done|]|].
  { pose proof (buf_ok_nb _ (ok_out _ Hok1)). lia. }
  intros [|] l2 (H2 & F2 & P2 & He); cbn [negb].
  2: { apply wp_ret; split_and!; [by eapply sends_trans|lia|]. by intros ->%X1. }
  pose proof (sends_ok _ _ H2) as Hok2. apply wp_bind, wp_stop; [done|]. intros h Hs Hp. exists tt. eexists. split; [done|]. split_and!.
  - eapply sends_trans; [exact H1|]. eapply sends_trans; [exact H2|]. eapply sends_trans; [exact Hs|].
    apply sends_tell; [apply Hs|cbn; apply core_wake|cbn; apply rouses_wake|]. right. cbn.
    rewrite He. pose proof (ok_low _ Hok2). lia.
  - intros _ _. cbn. unfold wake_waiting. by destruct (waiting (out_cbuf (chan l2))) eqn:E.
  - intros ->%X1. split; [exact F2|]. rewrite <- P2, <- Hp. unfold pipe, outq. cbn. f_equal.
    apply shape_contents. exact (f_equal fst (core_wake (out_cbuf (chan l2)))).
Qed.

Lemma xmt_char_ok l : line_ok l -> wp serial_xmt_char (fun _ l' => sends l l') l.
Proof using. intros Hok. eapply wp_mono; [by apply xmt_char_full|]. by intros [] l' [? _]. Qed.

Lemma start_xmit_full l : line_ok l -> wp start_xmit (fun _ l' => sends l l' /\
  (xchar (chan l) = 0 -> flow_state l' = flow_state l /\ pipe l' = pipe l)) l.
Proof using.
  intros Hok. destruct (law_start _ (ok_dev _ Hok)) as (m & again & h & Em & E & Hd & Hf & Hr).
  unfold start_xmit. rewrite Em. assert (sends l (set_dev h l)) as Hs by by apply sends_dev.
  assert (pipe (set_dev h l) = pipe l) as Hp by (unfold pipe; cbn; by rewrite Hf).
  apply wp_bind. exists again, (set_dev h l). split; [unfold call; by rewrite E|].
  destruct again; [|by apply wp_ret]. eapply wp_mono; [apply xmt_char_full, Hs|]. intros [] l' (Hs' & _ & Hx).
  split; [by eapply sends_trans|]. intros H. destruct (Hx H) as [? ?]. by split; [|congruence].
Qed.

Lemma start_xmit_ok l : line_ok l -> wp start_xmit (fun _ l' => sends l l') l.
Proof using. intros Hok. eapply wp_mono; [by apply start_xmit_full|]. by intros [] l' [? _]. Qed.

(** ** Flow control *)

(** A function that only sends; its steps compose. *)
Definition sending {A} (m : M line A) : Prop := forall l, line_ok l -> wp m (fun _ l' => sends l l') l.

Lemma sending_bind {A B} (m : M line A) (f : A -> M line B) : sending m -> (forall a, sending (f a)) -> sending (m ≫= f).
Proof using.
  intros Hm Hf l Hok. apply wp_bind. eapply wp_mono; [by apply Hm|]. cbn beta; intros a l1 H1.
  eapply wp_mono; [eapply Hf, sends_ok, H1|]. intros b l2 H2. by eapply sends_trans.
Qed.

Lemma sending_ret {A} (a : A) : sending (mret a).
Proof using. intros l Hok. apply wp_ret. by apply sends_refl. Qed.

Lemma sending_get {A} (f : line -> M line A) : (forall l, sending (f l)) -> sending (get_state ≫= f).
Proof using. intros Hf l Hok. apply wp_get. by apply Hf. Qed.

Lemma sending_modify f : (forall l, line_ok l -> sends l (f l)) -> sending (modify f).
Proof using. intros Hf l Hok. exists tt, (f l). split; [done|]. by apply Hf. Qed.

Lemma sending_if {A} (c : bool) (m1 m2 : M line A) : sending m1 -> sending m2 -> sending (if c then m1 else m2).
Proof using. by destruct c. Qed.

Lemma sending_flow f : sending (modify (set_flow f)).
Proof using. apply sending_modify. intros l Hok. apply sends_chan; auto. Qed.

Lemma sending_start : sending start_xmit.
Proof using. intros l. apply start_xmit_ok. Qed.

Lemma sending_xmt : sending serial_xmt_char.
Proof using. intros l. apply xmt_char_ok. Qed.

Lemma sending_stop : sending hw_stop.
Proof using. intros l Hok. by apply wp_stop. Qed.

Lemma sending_config key x n : key <> CYG_IO_SET_CONFIG_SERIAL_INFO -> sending (call_config key x n).
Proof using.
  intros Hk l Hok. destruct (law_config_runs key x n (config (chan l)) _ (ok_dev _ Hok) Hk) as [[r [i h]] E].
  exists r, (set_dev h (set_info i l)). assert (call_config key x n l = Some (r, set_dev h (set_info i l))) as H.
  { unfold call_config. by rewrite E. }
  split; [done|]. by eapply config_sends.
Qed.

Lemma sending_selwakeup c : sending (modify (set_out (fun b => if c b : bool then cyg_selwakeup b else b))).
Proof using.
  apply sending_modify. intros l Hok. apply sends_tell; [done|..]; case_goal; try done; try exact (rouses_refl _); by left.
Qed.

Lemma sending_send_xchar force cond x : x = XON_CHAR \/ x = XOFF_CHAR -> sending (send_xchar force cond x).
Proof using.
  intros Hx. apply sending_get. intros l. apply sending_if; [|apply sending_ret].
  apply sending_bind; [|intros _; apply sending_start]. apply sending_modify. intros l' Hok. apply sends_chan; auto.
Qed.

Lemma sending_hw_throttle force i : sending (hw_rx_throttle force i).
Proof using.
  apply sending_get. intros l. apply sending_if; [|apply sending_ret].
  apply sending_bind; [by apply sending_config|intros; apply sending_ret].
Qed.

Lemma sending_throttle_rx force : sending (throttle_rx force).
Proof using.
  apply sending_get. intros l. apply sending_bind; [apply sending_flow|intros _].
  apply sending_bind; [apply sending_send_xchar; by right|intros _; apply sending_hw_throttle].
Qed.

Lemma sending_restart_rx force : sending (restart_rx force).
Proof using.
  apply sending_get. intros l. apply sending_bind; [apply sending_flow|intros _].
  apply sending_bind; [apply sending_send_xchar; by left|intros _; apply sending_hw_throttle].
Qed.

Lemma sending_throttle_tx : sending throttle_tx.
Proof using. apply sending_flow. Qed.

Lemma sending_restart_tx : sending restart_tx.
Proof using.
  apply sending_bind; [apply sending_flow|intros _]. apply sending_bind; [apply sending_selwakeup|intros _].
  apply sending_get. intros l. apply sending_if; [apply sending_start|apply sending_ret].
Qed.
End Sending.

#[export] Hint Resolve sending_ret sending_start sending_xmt sending_stop sending_throttle_rx sending_restart_rx
  sending_throttle_tx sending_restart_tx sending_flow : ecos.
