(* ===== verification/SerialWrite.v ===== *)
(** * The serial driver: writing

    serial_write and what a sleeping writer does when it goes on: how many bytes enter
    the output buffer, which error and length the caller gets, and that the loop with
    its waits ends. *)
From S2P Require Import Prelude Serial SerialSpec SerialOps.

Section Writing.
Context `{Opts : SerialOptions} `{Laws : SerialLaws}.
Implicit Types (l : line).

(** A writer at work: [w] enters the queue; the sleepers of the buffer are not forgotten. *)
Record runs l w l' : Prop := {
  runs_flow : flow l w [] [] l';
  runs_in : in_cbuf (chan l') = in_cbuf (chan l);
  runs_abort : abort (out_cbuf (chan l')) = abort (out_cbuf (chan l));
  runs_blocking : blocking (out_cbuf (chan l')) = blocking (out_cbuf (chan l));
  runs_pending : pending (out_cbuf (chan l')) = pending (out_cbuf (chan l));
  runs_rouses : rouses (out_cbuf (chan l)) (out_cbuf (chan l')) }.

Lemma runs_ok l w l' : runs l w l' -> line_ok l'.
Proof using. intros H. apply (runs_flow _ _ _ H). Qed.

Lemma runs_trans l1 w1 l2 w2 l3 : runs l1 w1 l2 -> runs l2 w2 l3 -> runs l1 (w1 ++ w2) l3.
Proof using.
  intros [F1 ? ? ? ? ?] [F2 ? ? ? ? ?]. split; [|congruence..|by eapply rouses_trans].
  apply (flow_trans _ _ _ _ _ _ _ _ _ F1 F2).
Qed.

Lemma sends_runs l l' : sends l l' -> runs l [] l'.
Proof using. by intros []. Qed.

Lemma runs_sends l1 w l2 l3 : runs l1 w l2 -> sends l2 l3 -> runs l1 w l3.
Proof using. intros H1 H2%sends_runs. pose proof (runs_trans _ _ _ _ _ H1 H2) as H. by rewrite app_nil_r in H. Qed.

(** The sizes of the buffers do not change. *)
Lemma flow_len l w s r l' : flow l w s r l' ->
  len (out_cbuf (chan l')) = len (out_cbuf (chan l)) /\ low_water (out_cbuf (chan l')) = low_water (out_cbuf (chan l)) /\
  len (in_cbuf (chan l')) = len (in_cbuf (chan l)) /\ low_water (in_cbuf (chan l')) = low_water (in_cbuf (chan l)) /\
  high_water (in_cbuf (chan l')) = high_water (in_cbuf (chan l)).
Proof using. intros [_ Hs _ _ _]. unfold sizes, sizes_of in Hs. injection Hs as -> -> _ -> -> ->. done. Qed.

(** A byte enters the output buffer. *)
Lemma put_out_ok c l : line_ok l -> nb (out_cbuf (chan l)) < len (out_cbuf (chan l)) ->
  wp (put_out c) (fun _ l' => runs l [c] l') l.
Proof using.
  intros Hok Hn. destruct (ok_out _ Hok) as [[? ?]|Hr]; [lia|].
  destruct (ring_store _ c Hr Hn) as [Hst [Hr' Hq]]. eexists tt, _. split; [unfold put_out; by rewrite Hst|].
  split; cbn; try done; [|apply (rouses_refl (out_cbuf (chan l)))]. split; try done.
  - destruct Hok. split; cbn; try done. by right.
  - exists [], []. cbn. rewrite !app_nil_r. split; [constructor|done].
  - by rewrite app_nil_r.
Qed.

(** Changes of [waiting] and [pending]. *)
Lemma runs_out f l :
  line_ok l -> shape (f (out_cbuf (chan l))) = shape (out_cbuf (chan l)) ->
  abort (f (out_cbuf (chan l))) = abort (out_cbuf (chan l)) ->
  blocking (f (out_cbuf (chan l))) = blocking (out_cbuf (chan l)) ->
  pending (f (out_cbuf (chan l))) = pending (out_cbuf (chan l)) ->
  rouses (out_cbuf (chan l)) (f (out_cbuf (chan l))) ->
  runs l [] (set_out f l).
Proof using. intros Hok Hs Ha Hb Hp Hr. split; try done. by apply flow_out_flags. Qed.

Lemma runs_waiting l : line_ok l -> runs l [] (set_out (set_waiting true) l).
Proof using. intros Hok. apply runs_out; try done. by split; cbn; auto. Qed.

(** Falling asleep adds what is left to the bytes that are pending. *)
Definition add_pending size l : line := set_out (fun b => set_pending (s32 (pending b + size)) b) l.

(** ** The result of a write

    [k] of the [size] bytes that were left entered the queue. *)
Definition write_ends (blk aborted : bool) (n size : Z) (buf : list byte) (k : Z) (o : outcome (Z * Z)) : Prop :=
  match o with
  | Done (res, n') => n' = n - size + k /\
      (res = ENOERR /\ k = size \/
       blk = false /\ k < size /\ res = (if n' =? 0 then - EAGAIN else ENOERR) \/
       aborted = true /\ res = - EINTR)
  | Asleep s => blk = true /\ k < size /\ s = SWrite n (size - k) (drop (Z.to_nat k) buf)
  end.

(** The end of a write, which may have given up: the next sleeper may be forgotten. *)
Record steady l w l' : Prop := {
  st_flow : flow l w [] [] l';
  st_in : in_cbuf (chan l') = in_cbuf (chan l);
  st_blocking : blocking (out_cbuf (chan l')) = blocking (out_cbuf (chan l));
  st_pending : pending (out_cbuf (chan l')) = pending (out_cbuf (chan l));
  st_wait : (wait (out_cbuf (chan l)) <= wait (out_cbuf (chan l')))%nat;
  st_abort : abort (out_cbuf (chan l')) = true -> abort (out_cbuf (chan l)) = true }.

Lemma runs_steady l w l' : runs l w l' -> steady l w l'.
Proof using. intros [? ? Ha ? ? [? _]]. split; try done. congruence. Qed.

Lemma steady_trans l1 w1 l2 w2 l3 : steady l1 w1 l2 -> steady l2 w2 l3 -> steady l1 (w1 ++ w2) l3.
Proof using.
  intros [F1 ? ? ? ? H1] [F2 ? ? ? ? H2]. split; [|congruence..|lia|auto]. apply (flow_trans _ _ _ _ _ _ _ _ _ F1 F2).
Qed.

(** The flags of a writer that does not wait any more are cleared. *)
Lemma steady_flags f l :
  line_ok l -> (f = set_waiting false \/ f = (fun b => set_waiting false (set_abort false b))) -> steady l [] (set_out f l).
Proof using.
  intros Hok Hf. split; [apply flow_out_flags; [done|]|..]; destruct Hf as [-> | ->]; done.
Qed.

Definition wrote l n size buf (o : outcome (Z * Z)) l' : Prop :=
  exists k, 0 <= k <= size /\ write_ends (blocking (out_cbuf (chan l))) (abort (out_cbuf (chan l))) n size buf k o /\
    let w := take (Z.to_nat k) buf in
    match o with
    | Done _ => steady l w l' /\
        (blocking (out_cbuf (chan l)) = true -> abort (out_cbuf (chan l)) = false -> rouses (out_cbuf (chan l)) (out_cbuf (chan l')))
    | Asleep _ => exists l2, runs l w l2 /\ waiting (out_cbuf (chan l2)) = true /\ l' = add_pending (size - k) l2
    end.

(** The start of output that ends every write. *)
Lemma write_done_ok res n l : line_ok l ->
  wp (write_done res n) (fun o l' => o = Done (res, n) /\ sends l l') l.
Proof using.
  intros Hok. apply wp_get. apply wp_bind.
  apply wp_mono with (fun _ l' => sends l l'); [|intros; by apply wp_ret].
  destruct (out_throttled l); [apply wp_ret, sends_refl; done|by apply start_xmit_ok].
Qed.

Lemma write_abort_ok n size again Q l :
  line_ok l -> 0 <= n - size < 2 ^ 32 ->
  (forall l', abort (out_cbuf (chan l)) = true -> steady l [] l' -> Q (Done (- EINTR, n - size)) l') ->
  (abort (out_cbuf (chan l)) = false -> wp again Q l) ->
  wp (write_abort n size again) Q l.
Proof using.
  intros Hok Hn Ha Hg. apply wp_get. destruct (abort (out_cbuf (chan l))) eqn:E; [|by apply Hg]. wp_steps.
  pose proof (steady_flags _ l Hok (or_intror eq_refl)) as F.
  eapply wp_mono; [apply write_done_ok, F|]. intros o l' [-> Hs].
  rewrite (uwrap_small 32) by done. apply Ha; [done|].
  apply (steady_trans _ _ _ _ _ F), runs_steady, sends_runs, Hs.
Qed.

Lemma write_full_ok n size buf again Q l :
  line_ok l -> 1 <= low_water (out_cbuf (chan l)) -> nb (out_cbuf (chan l)) = len (out_cbuf (chan l)) ->
  0 <= n - size < 2 ^ 32 ->
  (forall l', runs l [] l' -> blocking (out_cbuf (chan l)) = true -> waiting (out_cbuf (chan l')) = true ->
     Q (Asleep (SWrite n size buf)) (add_pending size l')) ->
  (forall l', blocking (out_cbuf (chan l)) = false -> steady l [] l' -> Q (Done (if n - size =? 0 then - EAGAIN else ENOERR, n - size)) l') ->
  (forall l', abort (out_cbuf (chan l)) = true -> steady l [] l' -> Q (Done (- EINTR, n - size)) l') ->
  (forall l', runs l [] l' -> nb (out_cbuf (chan l')) < len (out_cbuf (chan l')) -> wp again Q l') ->
  wp (write_full n size buf again) Q l.
Proof using.
  intros Hok Hlow Hfull Hn Hsleep Hnon Habort Hgo. unfold write_full. wp_steps.
  pose proof (runs_waiting _ Hok) as R1. pose proof (runs_ok _ _ _ R1) as Hok1.
  set (l1 := set_out (set_waiting true) l) in *. apply wp_bind.
  apply wp_mono with (fun _ l' => sends l1 l').
  { destruct (out_throttled l1); [apply wp_ret; by apply sends_refl|by apply start_xmit_ok]. }
  intros _ l2 S2. pose proof (runs_sends _ _ _ _ R1 S2) as R2. pose proof (runs_ok _ _ _ R2) as Hok2. apply wp_get.
  destruct (flow_len _ _ _ _ _ (runs_flow _ _ _ R2)) as (Hl & Hlo & _).
  destruct (waiting (out_cbuf (chan l2))) eqn:Hw.
  - rewrite (runs_blocking _ _ _ R2). destruct (blocking (out_cbuf (chan l))) eqn:Hb; cbn [negb]; wp_steps.
    + by apply Hsleep.
    + pose proof (steady_flags _ l2 Hok2 (or_introl eq_refl)) as F3.
      rewrite (uwrap_small 32) by done. eapply wp_mono; [apply write_done_ok, F3|]. intros o l' [-> Hs]. apply Hnon; [done|].
      apply (steady_trans _ _ _ _ _ (runs_steady _ _ _ R2)). apply (steady_trans _ _ _ _ _ F3), runs_steady, sends_runs, Hs.
  - apply write_abort_ok; [done|done| |].
    + intros l' Ha F3. apply Habort; [by rewrite <- (runs_abort _ _ _ R2)|].
      apply (steady_trans _ _ _ _ _ (runs_steady _ _ _ R2) F3).
    + intros _. apply Hgo; [done|]. destruct (sends_room _ _ S2) as [E|]; [cbn in E; congruence|]. lia.
Qed.

Lemma wrote_more l w l1 n size buf o l' :
  runs l w l1 -> Z.of_nat (length w) + size <= 2 ^ 31 -> 0 <= size ->
  wrote l1 n size buf o l' -> wrote l n (Z.of_nat (length w) + size) (w ++ buf) o l'.
Proof using.
  intros R Hb Hs (k & Hk & He & Ho). exists (Z.of_nat (length w) + k). split; [lia|].
  rewrite <- (runs_blocking _ _ _ R), <- (runs_abort _ _ _ R).
  assert (Z.to_nat (Z.of_nat (length w) + k) = length w + Z.to_nat k)%nat as Ek by lia. split.
  - destruct o as [[res n']|s]; cbn in *.
    + destruct He as [-> He]. split; [lia|]. destruct He as [[-> ->]|[(-> & ? & ->)|[-> ->]]]; [by left| |by right; right].
      right; left. split_and!; [done|lia|done].
    + destruct He as (-> & ? & ->). split_and!; [done|lia|]. rewrite Ek, drop_app_add. f_equal. lia.
  - rewrite Ek, take_app_add. cbv zeta in *. destruct o as [r|s].
    + destruct Ho as [Hst Hr]. split; [apply (steady_trans _ _ _ _ _ (runs_steady _ _ _ R) Hst)|].
      intros Hbl Ha. eapply rouses_trans; [apply (runs_rouses _ _ _ R)|]. by apply Hr.
    + destruct Ho as (l2 & R2 & Hw & ->). exists l2. split_and!; [apply (runs_trans _ _ _ _ _ R R2)|done|]. f_equal. lia.
Qed.

Lemma wrote_done l n size buf res l' k :
  0 <= k <= size -> write_ends (blocking (out_cbuf (chan l))) (abort (out_cbuf (chan l))) n size buf k (Done (res, n - size + k)) ->
  steady l (take (Z.to_nat k) buf) l' ->
  (blocking (out_cbuf (chan l)) = true -> abort (out_cbuf (chan l)) = false -> rouses (out_cbuf (chan l)) (out_cbuf (chan l'))) ->
  wrote l n size buf (Done (res, n - size + k)) l'.
Proof using. intros Hk He F Hr. by exists k. Qed.

Lemma writes_nothing n l buf : line_ok l -> wp (write_done ENOERR n) (wrote l n 0 buf) l.
Proof using.
  intros Hok. eapply wp_mono; [by apply write_done_ok|]. intros o l' [-> Hs].
  replace n with (n - 0 + 0) at 2 by lia. apply wrote_done; [lia| |apply runs_steady, sends_runs, Hs|].
  - cbn. split; [done|by left].
  - intros _ _. apply (sends_rouses _ _ Hs).
Qed.

Lemma wrote_asleep l n size buf l' :
  0 < size -> runs l [] l' -> blocking (out_cbuf (chan l)) = true -> waiting (out_cbuf (chan l')) = true ->
  wrote l n size buf (Asleep (SWrite n size buf)) (add_pending size l').
Proof using.
  intros Hs R Hb Hw. exists 0. split_and!; [lia|lia| |].
  - cbn. rewrite Z.sub_0_r. split_and!; [done|lia|done].
  - exists l'. by rewrite Z.sub_0_r.
Qed.

Lemma write_loop_ok n k : forall l size buf,
  line_ok l -> len (out_cbuf (chan l)) <> 0 -> 1 <= low_water (out_cbuf (chan l)) ->
  0 <= size <= n -> n < 2 ^ 31 -> size <= Z.of_nat (length buf) ->
  2 * size - (if nb (out_cbuf (chan l)) <? len (out_cbuf (chan l)) then 1 else 0) <= Z.of_nat k ->
  wp (write_loop k n size buf) (wrote l n size buf) l.
Proof using.
  induction k as [|k IH]; intros l size buf Hok Hlen Hlow Hsz Hn Hbuf Hk.
  all: pose proof (buf_ok_nb _ (ok_out _ Hok)) as Hnb; cbn [write_loop]; destruct (Z.ltb_spec 0 size) as [Hpos|].
  2,4: assert (size = 0) as -> by lia; by apply writes_nothing.
  { exfalso. destruct (_ <? _); lia. }
  apply wp_get. destruct (Z.eqb_spec (nb (out_cbuf (chan l))) (len (out_cbuf (chan l)))) as [Hf|Hf].
  - rewrite Hf in Hk. rewrite Z.ltb_irrefl in Hk. apply write_full_ok; try done; [lia|..].
    + intros l' R Hb Hw. by apply wrote_asleep.
    + intros l' Hb F. replace (n - size) with (n - size + 0) by lia. apply wrote_done; try done; [lia|cbn; split; [done|right; by left]|congruence].
    + intros l' Ha F. replace (n - size) with (n - size + 0) by lia. apply wrote_done; try done; [lia|cbn; split; [done|by right; right]|congruence].
    + intros l' R Hr. destruct (flow_len _ _ _ _ _ (runs_flow _ _ _ R)) as (Hl & Hlo & _).
      eapply wp_mono; [apply IH; try done|]; [by eapply runs_ok|by rewrite Hl|by rewrite Hlo| |].
      * replace (nb (out_cbuf (chan l')) <? len (out_cbuf (chan l'))) with true by lia. lia.
      * intros o l'' H. apply (wrote_more _ [] _ _ _ _ _ _ R); [cbn; lia|lia|done].
  - destruct buf as [|c buf]; [cbn in Hbuf; lia|]. cbn [length] in Hbuf.
    replace (nb (out_cbuf (chan l)) <? len (out_cbuf (chan l))) with true in Hk by lia.
    apply wp_bind. eapply wp_mono; [apply put_out_ok; [done|lia]|]. intros [] l' R.
    destruct (flow_len _ _ _ _ _ (runs_flow _ _ _ R)) as (Hl & Hlo & _).
    eapply wp_mono; [apply IH; try done; try lia|]; [by eapply runs_ok| |].
    + destruct (_ <? _); lia.
    + intros o l'' H. replace size with (Z.of_nat (length [c]) + (size - 1)) by (cbn; lia).
      apply (wrote_more _ [c] _ _ _ _ _ _ R); [cbn; lia|lia|done].
Qed.

(** With room for all of it, the bytes enter and output is started once. *)
Lemma write_loop_room n k : forall l size buf,
  line_ok l -> 0 <= size <= Z.of_nat k -> size <= Z.of_nat (length buf) ->
  nb (out_cbuf (chan l)) + size <= len (out_cbuf (chan l)) ->
  exists l1, write_loop k n size buf l = write_done ENOERR n l1 /\ runs l (take (Z.to_nat size) buf) l1 /\
    dev l1 = dev l /\ flow_state l1 = flow_state l.
Proof using.
  induction k as [|k IH]; intros l size buf Hok Hs Hb Hn; cbn [write_loop]; (destruct (Z.ltb_spec 0 size);
    [|exists l; replace (Z.to_nat size) with 0%nat by lia; split_and!; [done|by apply sends_runs, sends_refl|done|done]]).
  { lia. }
  unfold mbind at 1, M_bind. cbn [get_state]. replace (nb _ =? len _) with false by lia.
  destruct buf as [|c buf]; [cbn in Hb; lia|]. cbn [length] in Hb. destruct (put_out_ok c l Hok ltac:(lia)) as ([] & l1 & E & R).
  unfold mbind, M_bind. rewrite E. unfold put_out in E. destruct (store _ _ _) as [d|]; [|done]. injection E as <-.
  set (l1 := set_out _ l) in *. destruct (flow_len _ _ _ _ _ (runs_flow _ _ _ R)) as (Hl & _).
  assert (nb (out_cbuf (chan l1)) = nb (out_cbuf (chan l)) + 1) as Hnb by done.
  destruct (IH l1 (size - 1) buf (runs_ok _ _ _ R) ltac:(lia) ltac:(lia) ltac:(lia)) as (l2 & E2 & R2 & Hd & Hf).
  exists l2. split_and!; [done| |by rewrite Hd|by rewrite Hf]. replace (Z.to_nat size) with (S (Z.to_nat (size - 1))) by lia.
  apply (runs_trans _ _ _ _ _ R R2).
Qed.

(** ** Writing *)

(** A byte string that the caller's length covers. *)
Definition write_ready l n (buf : list byte) : Prop :=
  line_ok l /\ len (out_cbuf (chan l)) <> 0 /\ 1 <= low_water (out_cbuf (chan l)) /\
  0 <= n < 2 ^ 31 /\ n <= Z.of_nat (length buf).

Definition unaborted l : line := set_out (set_abort false) l.

Lemma serial_write_start polls l n buf : write_ready l n buf ->
  wp (serial_write polls buf n) (wrote (unaborted l) n n buf) l.
Proof using.
  intros (Hok & Hlen & Hlow & Hn & Hbuf). unfold serial_write. wp_steps. rewrite s32_small by lia.
  fold (unaborted l). assert (line_ok (unaborted l)) as Hok' by by apply (flow_out_flags (set_abort false) l).
  replace (len _ =? 0) with false by (cbn; lia). apply write_loop_ok; try done; [lia|lia|]. unfold write_fuel.
  destruct (_ <? _); lia.
Qed.

(** The state in which a sleeping writer goes on. *)
Definition resumed ok size l : line :=
  set_out (fun b => set_pending (s32 (pending b - size)) b) (if ok : bool then l else set_out (set_abort true) l).

Lemma resumed_flow ok size l : line_ok l -> flow l [] [] [] (resumed ok size l).
Proof using.
  intros Hok. destruct ok; [by apply flow_out_flags|]. pose proof (flow_out_flags (set_abort true) l Hok eq_refl) as F.
  apply (flow_trans _ _ _ _ _ _ _ _ _ F), flow_out_flags; [apply F|done].
Qed.

Lemma serial_write_resumes ok l n size buf : write_ready l size buf -> size <= n < 2 ^ 31 ->
  wp (serial_write_resume ok n size buf) (fun o l' =>
    wrote (resumed ok size l) n size buf o l' /\
    (abort (out_cbuf (chan (resumed ok size l))) = true -> o = Done (- EINTR, n - size))) l.
Proof using.
  intros (Hok & Hlen & Hlow & Hn & Hbuf) Hsz. unfold serial_write_resume. apply wp_bind.
  exists tt, (if ok then l else set_out (set_abort true) l). split; [by destruct ok|]. wp_steps. fold (resumed ok size l).
  pose proof (resumed_flow ok size l Hok) as F.
  destruct (flow_len _ _ _ _ _ F) as (Hl & Hlo & _). apply write_abort_ok; [apply F|lia| |].
  - intros l' Ha F'. split; [|done]. replace (n - size) with (n - size + 0) by lia.
    apply wrote_done; [lia|cbn; split; [done|by right; right]|done|congruence].
  - intros Ha. eapply wp_mono; [apply write_loop_ok; try done; [apply F|by rewrite Hl|by rewrite Hlo|lia|lia|]|].
    + unfold write_fuel. destruct (_ <? _); lia.
    + intros o l' H. split; [done|congruence].
Qed.
End Writing.
