(* ===== verification/SerialRead.v ===== *)
(** * The serial driver: reading and receiving

    What serial_read and the callbacks for received characters do to the input buffer,
    a character or a block at a time. *)
From S2P Require Import Prelude Serial SerialSpec SerialOps SerialWrite.

(** A part of an array is replaced. *)
Definition blit (i : Z) (bs d : list byte) : list byte :=
  take (Z.to_nat i) d ++ bs ++ drop (Z.to_nat i + length bs) d.

Section Blocks.
Implicit Types b : cbuf_t.

Lemma length_blit i bs d : 0 <= i -> i + Z.of_nat (length bs) <= Z.of_nat (length d) -> length (blit i bs d) = length d.
Proof. intros. unfold blit. rewrite !length_app, length_take, length_drop. lia. Qed.

Lemma nthZ_blit_in i bs d j :
  0 <= i -> i + Z.of_nat (length bs) <= Z.of_nat (length d) -> 0 <= j < Z.of_nat (length bs) ->
  nthZ (blit i bs d) (i + j) = nthZ bs j.
Proof.
  intros. unfold nthZ, blit. rewrite app_nth2; rewrite length_take; [|lia]. rewrite app_nth1; [|lia]. f_equal. lia.
Qed.

Lemma nthZ_blit_out i bs d j :
  0 <= i -> i + Z.of_nat (length bs) <= Z.of_nat (length d) -> 0 <= j < Z.of_nat (length d) ->
  j < i \/ i + Z.of_nat (length bs) <= j -> nthZ (blit i bs d) j = nthZ d j.
Proof.
  intros Hi Hl Hj Hout. unfold nthZ, blit. rewrite !nth_lookup. f_equal. destruct (Z.ltb_spec j i).
  - rewrite lookup_app_l by (rewrite length_take; lia). by rewrite lookup_take_lt by lia.
  - rewrite lookup_app_r by (rewrite length_take; lia). rewrite length_take, lookup_app_r by lia.
    rewrite lookup_drop. f_equal. lia.
Qed.

(** The places behind the last byte up to the end of the array are free. *)
Lemma put_index b j : ring_ok b -> 0 <= j -> put b + j < len b -> (get b + (nb b + j)) mod len b = put b + j.
Proof.
  intros [Hl Hg Hn Hp] Hj Hlt. pose proof (Z.mod_pos_bound (get b + nb b) (len b)).
  rewrite Z.add_assoc, <- Zplus_mod_idemp_l, <- Hp, Z.mod_small; [done|lia].
Qed.

(** A block stored behind the last byte. *)
Lemma ring_block b bs :
  ring_ok b -> put b + Z.of_nat (length bs) <= len b -> nb b + Z.of_nat (length bs) <= len b ->
  let p := put b + Z.of_nat (length bs) in
  let b' := set_ring (blit (put b) bs (data b)) (if p =? len b then 0 else p) (get b) (nb b + Z.of_nat (length bs)) b in
  ring_ok b' /\ contents b' = contents b ++ bs.
Proof.
  intros Hr Hp Hn. pose proof (ring_put_range _ Hr) as Hput. pose proof Hr as [Hl Hg Hnb Hpe]. cbn. split.
  - split; cbn; [rewrite length_blit; lia|done|lia|].
    rewrite Z.add_assoc, <- Zplus_mod_idemp_l, <- Hpe. destruct (Z.eqb_spec (put b + Z.of_nat (length bs)) (len b)) as [->|].
    + by rewrite Z.mod_same by lia.
    + rewrite Z.mod_small; lia.
  - unfold contents. cbn [data get len nb set_ring]. rewrite seqZ_app, fmap_app by lia. f_equal.
    + apply list_fmap_ext. intros k i Hi%lookup_seqZ. pose proof (Z.mod_pos_bound (get b + i) (len b)).
      apply nthZ_blit_out; [lia..|]. destruct (Z.ltb_spec ((get b + i) mod len b) (put b)) as [|Hge]; [by left|].
      right. destruct (Z.leb_spec (put b + Z.of_nat (length bs)) ((get b + i) mod len b)) as [|Hlt]; [done|exfalso].
      set (j := (get b + i) mod len b - put b). pose proof (put_index b j Hr ltac:(lia) ltac:(lia)) as E.
      replace (put b + j) with ((get b + i) mod len b) in E by lia. apply (window_inj (get b) (nb b + j) i (len b)); lia.
    + apply list_eq. intros k. rewrite list_lookup_fmap. destruct (decide (k < length bs)%nat) as [Hk|Hk].
      * replace (seqZ (0 + nb b) (Z.of_nat (length bs)) !! k) with (Some (nb b + Z.of_nat k))
          by (symmetry; apply lookup_seqZ; lia). cbn.
        rewrite put_index, nthZ_blit_in by (done || lia). unfold nthZ.
        destruct (lookup_lt_is_Some_2 bs k Hk) as [x Hx]. by rewrite Nat2Z.id, nth_lookup, Hx.
      * rewrite (lookup_ge_None_2 bs) by lia. rewrite (lookup_ge_None_2 (seqZ _ _)); [done|]. rewrite length_seqZ. lia.
Qed.

(** The front of the queue up to the end of the array. *)
Lemma ring_front b k : ring_ok b -> 0 <= k <= nb b -> get b + k <= len b ->
  take (Z.to_nat k) (contents b) = take (Z.to_nat k) (drop (Z.to_nat (get b)) (data b)).
Proof.
  intros [Hl Hg Hn Hp] Hk Hgk. apply list_eq. intros i. destruct (decide (i < Z.to_nat k)%nat) as [Hi|Hi].
  2: rewrite !lookup_take_ge by lia; done.
  rewrite !lookup_take_lt, lookup_drop by lia. unfold contents. rewrite list_lookup_fmap.
  replace (seqZ 0 (nb b) !! i) with (Some (Z.of_nat i)) by (symmetry; apply lookup_seqZ; lia). cbn.
  rewrite Z.mod_small by lia. unfold nthZ. destruct (lookup_lt_is_Some_2 (data b) (Z.to_nat (get b) + i)) as [x Hx]; [lia|].
  rewrite Hx, nth_lookup. replace (Z.to_nat (get b + Z.of_nat i)) with (Z.to_nat (get b) + i)%nat by lia. by rewrite Hx.
Qed.

(** A block leaves the front. *)
Lemma ring_advance b k : ring_ok b -> 0 <= k <= nb b -> get b + k <= len b ->
  let b' := set_ring (data b) (put b) (if get b + k =? len b then 0 else get b + k) (nb b - k) b in
  ring_ok b' /\ contents b' = drop (Z.to_nat k) (contents b).
Proof.
  intros [Hl Hg Hn Hp] Hk Hgk. cbn.
  assert ((if get b + k =? len b then 0 else get b + k) = (get b + k) mod len b) as ->.
  { destruct (Z.eqb_spec (get b + k) (len b)) as [->|]; [by rewrite Z.mod_same by lia|rewrite Z.mod_small; lia]. }
  pose proof (Z.mod_pos_bound (get b + k) (len b)). split.
  - split; cbn; [done|lia|lia|]. rewrite Hp, Zplus_mod_idemp_l. f_equal. lia.
  - unfold contents. cbn [data get len nb set_ring]. replace (nb b) with (k + (nb b - k)) at 2 by lia.
    rewrite seqZ_app, fmap_app by lia. rewrite drop_app_length' by (rewrite length_fmap, length_seqZ; done).
    rewrite (Z.add_comm 0 k), <- fmap_add_seqZ, <- list_fmap_compose. apply list_fmap_ext. intros j i _. unfold compose. f_equal.
    rewrite Zplus_mod_idemp_l. f_equal. lia.
Qed.
End Blocks.

Section Reading.
Context `{Opts : SerialOptions} `{Laws : SerialLaws}.
Implicit Types (l : line).

(** The interrupts' side and the readers': [s] is stored, [r] is read; nobody who sleeps
    on either buffer is forgotten and no flag of the callers changes. *)
Record turn l s r l' : Prop := {
  turn_flow : flow l [] s r l';
  turn_out : rouses (out_cbuf (chan l)) (out_cbuf (chan l'));
  turn_in : rouses (in_cbuf (chan l)) (in_cbuf (chan l'));
  turn_pending : pending (out_cbuf (chan l')) = pending (out_cbuf (chan l));
  turn_modes : blocking (in_cbuf (chan l')) = blocking (in_cbuf (chan l)) /\
    blocking (out_cbuf (chan l')) = blocking (out_cbuf (chan l));
  turn_aborts : abort (in_cbuf (chan l')) = abort (in_cbuf (chan l)) /\
    abort (out_cbuf (chan l')) = abort (out_cbuf (chan l)) }.

Lemma turn_ok l s r l' : turn l s r l' -> line_ok l'.
Proof using. intros H. apply (turn_flow _ _ _ _ H). Qed.

Lemma turn_trans l1 s1 r1 l2 s2 r2 l3 : turn l1 s1 r1 l2 -> turn l2 s2 r2 l3 -> turn l1 (s1 ++ s2) (r1 ++ r2) l3.
Proof using.
  intros [F1 ? ? ? [? ?] [? ?]] [F2 ? ? ? [? ?] [? ?]].
  split; [|by eapply rouses_trans..|congruence|split; congruence|split; congruence].
  apply (flow_trans _ _ _ _ _ _ _ _ _ F1 F2).
Qed.

Lemma sends_turn l l' : sends l l' -> turn l [] [] l'.
Proof using. intros [? Hi ? ? ? ? ? ? ?]. split; rewrite ?Hi; try done. apply rouses_refl. Qed.

(** Changes of what the sleepers of the input buffer see. *)
Lemma turn_tell f l :
  line_ok l -> core (f (in_cbuf (chan l))) = core (in_cbuf (chan l)) ->
  rouses (in_cbuf (chan l)) (f (in_cbuf (chan l))) -> turn l [] [] (set_in f l).
Proof using.
  intros Hok Hc Hr. pose proof (f_equal fst Hc) as Hs. cbn in Hs. injection Hc as _ _ _ _ _ _ _ Hb Ha _.
  split; try done; [by apply flow_in_flags|apply (rouses_refl (out_cbuf (chan l)))].
Qed.

(** A byte leaves the input buffer. *)
Lemma take_in_ok l : line_ok l -> 0 < nb (in_cbuf (chan l)) ->
  wp take_in (fun c l' => turn l [] [c] l' /\ nb (in_cbuf (chan l')) = nb (in_cbuf (chan l)) - 1) l.
Proof using.
  intros Hok Hn. pose proof (buf_ok_nb _ (ok_in _ Hok)). destruct (ok_in _ Hok) as [[? ?]|Hr]; [lia|].
  destruct (ring_take _ Hr Hn) as (c & Hc & Hr' & Hq). apply wp_get, wp_bind. exists c, l. split; [apply Hc|]. wp_steps.
  split; [|done]. split; try done; [|apply (rouses_refl (out_cbuf (chan l)))|apply (rouses_refl (in_cbuf (chan l)))]. split; try done.
  - destruct Hok. split; cbn; try done. by right.
  - exists [], []. cbn. rewrite !app_nil_r. split; [constructor|done].
  - rewrite app_nil_r. exact Hq.
Qed.

(** ** The result of a read

    [r] is what this piece added to the caller's buffer. *)
Definition read_ends (blk : bool) (n : Z) (acc r : list byte) l' (o : outcome (Z * Z * list byte)) : Prop :=
  let got := Z.of_nat (length (acc ++ r)) in
  match o with
  | Done (res, n', acc') => acc' = acc ++ r /\ n' = got /\
      (res = ENOERR /\ n' = n \/
       blk = false /\ n' < n /\ inq l' = [] /\ res = (if n' =? 0 then - EAGAIN else ENOERR))
  | Asleep s => blk = true /\ got < n /\ inq l' = [] /\ s = SRead n got (acc ++ r) /\ waiting (in_cbuf (chan l')) = true
  end.

Definition has_read l n acc (o : outcome (Z * Z * list byte)) l' : Prop :=
  exists r, turn l [] r l' /\ read_ends (blocking (in_cbuf (chan l))) n acc r l' o.

Lemma read_loop_ok n k : forall l acc,
  line_ok l -> Z.of_nat (length acc) <= n -> n - Z.of_nat (length acc) <= Z.of_nat k ->
  wp (read_loop k n (Z.of_nat (length acc)) acc) (has_read l n acc) l.
Proof using.
  induction k as [|k IH]; intros l acc Hok Ha Hk; cbn [read_loop];
    (destruct (Z.ltb_spec (Z.of_nat (length acc)) n); [|
      apply wp_ret; exists []; split; [by apply sends_turn, sends_refl|cbn; rewrite app_nil_r; split_and!; [done|lia|left; split; [done|lia]]]]).
  { lia. }
  apply wp_get. pose proof (buf_ok_nb _ (ok_in _ Hok)) as Hnb. destruct (Z.ltb_spec 0 (nb (in_cbuf (chan l)))).
  - apply wp_bind. apply wp_mono with (fun _ l1 => sends l l1).
    { destruct ((_ <=? _) && _); [by apply sending_restart_rx|apply wp_ret; by apply sends_refl]. }
    intros [] l1 S1. pose proof (sends_turn _ _ S1) as T1. apply wp_bind.
    eapply wp_mono; [apply take_in_ok; [by eapply turn_ok|by rewrite (sends_in _ _ S1)]|]. intros c l2 [T2 _].
    pose proof (turn_trans _ _ _ _ _ _ _ T1 T2) as T.
    replace (Z.of_nat (length acc) + 1) with (Z.of_nat (length (acc ++ [c]))) by (rewrite length_app; cbn; lia).
    eapply wp_mono; [apply IH; [by eapply turn_ok|rewrite length_app; cbn; lia..]|].
    intros o l' (r & T3 & He). exists (c :: r). split; [apply (turn_trans _ _ _ _ _ _ _ T T3)|].
    destruct (turn_modes _ _ _ _ T) as [<- _]. unfold read_ends in *. by rewrite <- app_assoc in He.
  - assert (nb (in_cbuf (chan l)) = 0) as E0 by lia. pose proof (contents_nil _ E0) as E.
    destruct (blocking (in_cbuf (chan l))) eqn:Hb; cbn [negb].
    + wp_steps. exists []. split; [apply turn_tell; [done|done|by split; cbn; auto]|].
      cbn. rewrite app_nil_r, Hb. split_and!; try done.
    + apply wp_ret. exists []. split; [by apply sends_turn, sends_refl|]. cbn. rewrite app_nil_r, Hb. split_and!; [done..|]. by right.
Qed.

(** ** Reading *)
Definition in_unaborted l : line := set_in (set_abort false) l.

Lemma serial_read_start n l : line_ok l -> len (in_cbuf (chan l)) <> 0 -> 0 <= n ->
  wp (serial_read n) (has_read (in_unaborted l) n []) l.
Proof using.
  intros Hok Hl Hn. unfold serial_read. wp_steps. fold (in_unaborted l).
  assert (line_ok (in_unaborted l)) as Hok' by by apply (flow_in_flags (set_abort false) l).
  replace (len _ =? 0) with false by (cbn; lia). apply (read_loop_ok n (Z.to_nat n) _ []); [done|cbn; lia..].
Qed.

(** A reader that sleeps goes on: with the bytes it has when it was aborted, else
    with the loop. *)
Definition in_resumed (ok : bool) l : line := if ok then l else set_in (set_abort true) l.

Lemma serial_read_resumes ok n acc l : line_ok l -> Z.of_nat (length acc) <= n ->
  wp (serial_read_resume ok n (Z.of_nat (length acc)) acc) (fun o l' =>
    if abort (in_cbuf (chan (in_resumed ok l)))
    then o = Done (- EINTR, Z.of_nat (length acc), acc) /\ flow l [] [] [] l' /\ out_cbuf (chan l') = out_cbuf (chan l)
    else has_read l n acc o l') l.
Proof using.
  intros Hok Hn. unfold serial_read_resume. apply wp_bind. exists tt, (in_resumed ok l). split; [by destruct ok|]. apply wp_get.
  destruct (abort (in_cbuf (chan (in_resumed ok l)))) eqn:E.
  - wp_steps. split; [done|]. destruct ok; [split; [by apply flow_in_flags|done]|]. split; [|done].
    pose proof (flow_in_flags (set_abort true) l Hok eq_refl) as F. apply (flow_trans _ _ _ _ _ _ _ _ _ F).
    apply (flow_in_flags (fun b => set_waiting false (set_abort false b))); [apply F|done].
  - destruct ok; [|done]. apply read_loop_ok; [done|done|lia].
Qed.

(** ** Receiving a character *)

(** The characters flow control acts on. *)
Definition flow_char l c : bool :=
  has_config l CYGNUM_SERIAL_FLOW_XONXOFF_TX && ((c =? XOFF_CHAR) || (c =? XON_CHAR)).

(** What is stored of a received character: those of flow control are not, and those
    that find the buffer full are lost. *)
Definition kept l c : list byte :=
  if flow_char l c then [] else if nb (in_cbuf (chan l)) <? len (in_cbuf (chan l)) then [c] else [].

Lemma put_in_ok c l : line_ok l -> nb (in_cbuf (chan l)) < len (in_cbuf (chan l)) -> wp (put_in c) (fun _ l' => turn l [c] [] l') l.
Proof using.
  intros Hok Hn. pose proof (buf_ok_nb _ (ok_in _ Hok)). destruct (ok_in _ Hok) as [[? ?]|Hr]; [lia|].
  destruct (ring_store _ c Hr Hn) as [Hst [Hr' Hq]]. eexists tt, _. split; [unfold put_in; by rewrite Hst|].
  split; try done; [|apply (rouses_refl (out_cbuf (chan l)))|apply (rouses_refl (in_cbuf (chan l)))]. split; try done.
  - destruct Hok. split; cbn; try done. by right.
  - exists [], []. cbn. rewrite !app_nil_r. split; [constructor|done].
Qed.

Lemma reports_ok which v l : line_ok l -> (which = CYGNUM_SERIAL_STATUS_FLOW -> is_Some v) ->
  wp (serial_indicate_status which v) (fun _ l' => turn l [] [] l' /\ in_cbuf (chan l') = in_cbuf (chan l)) l.
Proof using.
  intros Hok Hv. apply wp_bind. apply wp_mono with (fun _ l1 => sends l l1).
  { destruct (Z.eqb_spec which CYGNUM_SERIAL_STATUS_FLOW) as [E|_]; [|apply wp_ret; by apply sends_refl].
    destruct (Hv E) as [x ->]. destruct (x =? 0); [by apply sending_throttle_tx|by apply sending_restart_tx]. }
  intros [] l1 S1. pose proof (sends_turn _ _ S1) as T1. apply wp_get. cbv zeta. destruct (status_callback (chan l1) =? 0).
  { apply wp_ret. split; [done|apply S1]. }
  eexists tt, _. split; [done|]. split; [|apply (sends_in _ _ S1)]. by destruct T1 as [[[] ? ? ? ?] ? ? ? ? ?]; split.
Qed.

Lemma rcv_char_ok c l : line_ok l -> wp (serial_rcv_char c) (fun _ l' => turn l (kept l c) [] l') l.
Proof using.
  intros Hok. unfold serial_rcv_char, kept, flow_char. apply wp_get.
  destruct (has_config l CYGNUM_SERIAL_FLOW_XONXOFF_TX && (c =? XOFF_CHAR)) eqn:Hoff.
  { apply andb_prop in Hoff as [-> ->]. cbn. eapply wp_mono; [by apply sending_throttle_tx|]. intros. by apply sends_turn. }
  destruct (has_config l CYGNUM_SERIAL_FLOW_XONXOFF_TX && (c =? XON_CHAR)) eqn:Hon.
  { apply andb_prop in Hon as [-> ->]. rewrite orb_true_r. cbn. eapply wp_mono; [by apply sending_restart_tx|]. intros. by apply sends_turn. }
  rewrite andb_orb_distrib_r, Hoff, Hon. cbn [orb]. apply wp_bind. apply wp_mono with (fun _ l1 => sends l l1).
  { destruct (_ <=? _); [by apply sending_throttle_rx|apply wp_ret; by apply sends_refl]. }
  intros [] l1 S1. pose proof (sends_turn _ _ S1) as T1. wp_steps.
  assert (turn l1 [] [] (set_in (fun b => if nb b =? 0 then cyg_selwakeup b else b) l1)) as T2.
  { apply turn_tell; [by eapply turn_ok|..]; destruct (nb (in_cbuf (chan l1)) =? 0) eqn:E; cbn; rewrite ?E; try done;
      apply (rouses_refl (in_cbuf (chan l1))). }
  set (l2 := set_in _ l1) in *. pose proof (turn_trans _ _ _ _ _ _ _ T1 T2) as T. pose proof (turn_ok _ _ _ _ T) as Hok2.
  assert (nb (in_cbuf (chan l2)) = nb (in_cbuf (chan l)) /\ len (in_cbuf (chan l2)) = len (in_cbuf (chan l))) as [En El].
  { rewrite <- (sends_in _ _ S1). cbn. by destruct (nb (in_cbuf (chan l1)) =? 0). }
  rewrite En, El. apply wp_bind.
  apply wp_mono with (fun _ l3 => turn l2 (if nb (in_cbuf (chan l)) <? len (in_cbuf (chan l)) then [c] else []) [] l3).
  { destruct (Z.ltb_spec (nb (in_cbuf (chan l))) (len (in_cbuf (chan l)))); [apply put_in_ok; [done|lia]|].
    eapply wp_mono; [by apply reports_ok|]. by intros [] l3 [? _]. }
  intros [] l3 T3. exists tt, (set_in wake_waiting l3). split; [done|].
  pose proof (turn_trans _ _ _ _ _ _ _ T T3) as T4. cbn [app] in T4.
  pose proof (turn_tell wake_waiting _ (turn_ok _ _ _ _ T4) (core_wake _) (rouses_wake _)) as T5.
  pose proof (turn_trans _ _ _ _ _ _ _ T4 T5) as T6. by rewrite app_nil_r in T6.
Qed.
End Reading.
