(* ===== verification/SerialConf.v ===== *)
(** * The serial driver: blocks, select and configuration

    Block transfers offer the driver free places, or waiting bytes, that are really
    there; select, the configuration requests, flushing and aborting. *)
From S2P Require Import Prelude Serial SerialSpec SerialOps SerialWrite SerialRead.

Section Conf.
Context `{Opts : SerialOptions} `{Laws : SerialLaws}.
Implicit Types (l : line).

(** ** Block transfers *)

(** Where the free places behind the last byte end. *)
Lemma put_split b : ring_ok b -> put b = get b + nb b /\ get b + nb b < len b \/ put b = get b + nb b - len b /\ len b <= get b + nb b.
Proof using.
  intros [_ Hg Hn ->]. destruct (Z.ltb_spec (get b + nb b) (len b)); [left; rewrite Z.mod_small; lia|right]. split; [|done].
  rewrite <- (Z_mod_plus_full _ (-1)), Z.mod_small; lia.
Qed.

Definition rcv_reply_ok l avail l' (r : rcv_req_reply_t) : Prop :=
  match r with
  | CYG_RCV_OK sp i => soft_flow l = false /\ i = put (in_cbuf (chan l')) /\ 0 <= sp <= avail /\ (0 < avail -> 0 < sp) /\
      i + sp <= len (in_cbuf (chan l')) /\ nb (in_cbuf (chan l')) + sp <= len (in_cbuf (chan l'))
  | CYG_RCV_FULL => nb (in_cbuf (chan l)) = len (in_cbuf (chan l))
  | CYG_RCV_DISABLED => soft_flow l = true
  end.

Lemma rcv_req_ok avail l : line_ok l -> len (in_cbuf (chan l)) <> 0 -> 0 <= avail ->
  wp (serial_data_rcv_req avail) (fun r l' => turn l [] [] l' /\ rcv_reply_ok l avail l' r) l.
Proof using.
  intros Hok Hlen Ha. pose proof (sends_turn _ _ (sends_refl _ Hok)) as T0. unfold serial_data_rcv_req. apply wp_get.
  destruct (soft_flow l) eqn:Hs; [by apply wp_ret|]. cbv zeta.
  destruct (Z.eqb_spec (nb (in_cbuf (chan l))) (len (in_cbuf (chan l)))); [by apply wp_ret|].
  destruct (ok_in _ Hok) as [[? ?]|Hr]; [done|]. pose proof Hr as [Hl Hg Hn Hp].
  destruct (Z.eqb_spec (nb (in_cbuf (chan l))) 0) as [H0|H0]; wp_steps.
  - rewrite H0 in *. cbn [Z.eqb]. assert (turn l [] [] (set_in (fun b => set_ring (data b) 0 0 (nb b) b) l)) as T.
    { split; try done; [|apply (rouses_refl (out_cbuf (chan l)))|apply (rouses_refl (in_cbuf (chan l)))].
      apply flow_same; try done; [|exact (ok_out _ Hok)| |by left].
      - unfold inq. cbn. rewrite !contents_nil by (cbn; lia). done.
      - right. split; cbn; [done|lia|lia|]. rewrite H0. by rewrite Zmod_0_l. }
    split; [exact T|]. cbn. rewrite H0. change (0 =? 0) with true. cbv iota. split_and!; try done; destruct (Z.ltb_spec avail (len (in_cbuf (chan l)))); lia.
  - apply wp_bind. exists tt, l. split; [done|]. wp_steps. split; [done|]. replace (nb (in_cbuf (chan l)) =? 0) with false by lia.
    destruct (put_split _ Hr) as [[Ep ?]|[Ep ?]].
    + replace (get (in_cbuf (chan l)) - put (in_cbuf (chan l)) <? 0) with true by lia. cbn. split_and!; try done.
      all: case_goal; bool_lia.
    + replace (get (in_cbuf (chan l)) - put (in_cbuf (chan l)) <? 0) with false by lia. cbn. split_and!; try done.
      all: case_goal; bool_lia.
Qed.

(** The driver puts a block where it may. *)
Definition filled bs l : line :=
  set_in (fun b => set_ring (blit (put b) bs (data b)) (put b) (get b) (nb b) b) l.

Lemma rcv_done_ok bs l :
  line_ok l -> len (in_cbuf (chan l)) <> 0 ->
  put (in_cbuf (chan l)) + Z.of_nat (length bs) <= len (in_cbuf (chan l)) ->
  nb (in_cbuf (chan l)) + Z.of_nat (length bs) <= len (in_cbuf (chan l)) ->
  wp (serial_data_rcv_done (Z.of_nat (length bs))) (fun _ l' => turn l bs [] l') (filled bs l).
Proof using.
  intros Hok Hlen Hput Hn. destruct (ok_in _ Hok) as [[? ?]|Hr]; [done|].
  destruct (ring_block _ bs Hr Hput Hn) as [Hr' Hq]. unfold serial_data_rcv_done. wp_steps.
  set (l1 := set_in _ (filled bs l)). assert (turn l bs [] l1) as T1.
  { split; try done; [|apply (rouses_refl (out_cbuf (chan l)))|apply (rouses_refl (in_cbuf (chan l)))]. split; try done.
    - destruct Hok. split; cbn; try done. by right.
    - exists [], []. cbn. rewrite !app_nil_r. split; [constructor|done]. }
  pose proof (turn_tell wake_waiting l1 (turn_ok _ _ _ _ T1) (core_wake _) (rouses_wake _)) as T2.
  pose proof (turn_trans _ _ _ _ _ _ _ T1 T2) as T. clear T1 T2. set (l2 := set_in wake_waiting l1) in *.
  apply wp_bind. apply wp_mono with (fun _ l3 => sends l2 l3).
  { pose proof (turn_ok _ _ _ _ T). destruct (_ <=? _); [by apply sending_throttle_rx|apply wp_ret; by apply sends_refl]. }
  intros [] l3 S3%sends_turn. pose proof (turn_trans _ _ _ _ _ _ _ T S3) as T3. clear T S3.
  eexists tt, _. split; [done|]. assert (turn l3 [] [] (set_in (fun b =>
    if Z.of_nat (length bs) =? nb b then cyg_selwakeup b else b) l3)) as T4.
  { apply turn_tell; [by eapply turn_ok|..]; destruct (Z.of_nat (length bs) =? nb (in_cbuf (chan l3))) eqn:E; cbn; rewrite ?E; try done;
      apply (rouses_refl (in_cbuf (chan l3))). }
  pose proof (turn_trans _ _ _ _ _ _ _ T3 T4) as T5. by rewrite !app_nil_r in T5.
Qed.

Definition xmt_reply_ok l space (r : xmt_req_reply_t) : Prop :=
  match r with
  | CYG_XMT_OK n i => soft_flow l = false /\ out_throttled l = false /\ i = get (out_cbuf (chan l)) /\
      0 <= n <= space /\ (0 < space -> 0 < n) /\
      i + n <= len (out_cbuf (chan l)) /\ n <= nb (out_cbuf (chan l))
  | CYG_XMT_EMPTY => out_throttled l = true \/ nb (out_cbuf (chan l)) = 0
  | CYG_XMT_DISABLED => soft_flow l = true
  end.

Lemma xmt_req_ok space l : line_ok l -> len (out_cbuf (chan l)) <> 0 -> 0 <= space ->
  wp (serial_data_xmt_req space) (fun r l' => sends l l' /\ xmt_reply_ok l space r /\
    (match r with CYG_XMT_OK _ _ => l' = l | _ => True end)) l.
Proof using.
  intros Hok Hlen Hs. pose proof (sends_refl _ Hok) as S0. unfold serial_data_xmt_req. apply wp_get.
  destruct (soft_flow l) eqn:Hf; [by apply wp_ret|].
  destruct (out_throttled l) eqn:Ht.
  { apply wp_bind, wp_stop; [done|]. intros h S _. apply wp_ret. split_and!; [done|by left|done]. }
  cbv zeta. destruct (Z.eqb_spec (nb (out_cbuf (chan l))) 0) as [H0|H0].
  { apply wp_ret. split_and!; [done|by right|done]. }
  apply wp_ret. split_and!; [done| |done]. destruct (ok_out _ Hok) as [[? ?]|Hr]; [done|].
  pose proof Hr as [Hl Hg Hn Hp]. cbn. destruct (put_split _ Hr) as [[Ep ?]|[Ep ?]].
  - replace (put (out_cbuf (chan l)) <=? get (out_cbuf (chan l))) with false by lia. split_and!; try done; case_goal; bool_lia.
  - replace (put (out_cbuf (chan l)) <=? get (out_cbuf (chan l))) with true by lia. split_and!; try done; case_goal; bool_lia.
Qed.

(** The driver has taken [k] bytes from the front. *)
Lemma xmt_done_ok k h l :
  line_ok l -> len (out_cbuf (chan l)) <> 0 -> 0 <= k <= nb (out_cbuf (chan l)) ->
  get (out_cbuf (chan l)) + k <= len (out_cbuf (chan l)) ->
  dev_ok h -> fifo h = fifo (dev l) ++ take (Z.to_nat k) (outq l) -> framed h = framed (dev l) ->
  wp (serial_data_xmt_done k) (fun _ l' => turn l [] [] l') (set_dev h l).
Proof using.
  intros Hok Hlen Hk Hgk Hd Hf Hfr. destruct (ok_out _ Hok) as [[? ?]|Hr]; [done|].
  destruct (ring_advance _ k Hr Hk Hgk) as [Hr' Hq]. unfold serial_data_xmt_done. wp_steps.
  set (l1 := set_out _ (set_dev h l)). assert (turn l [] [] l1) as T1.
  { split; try done; [|apply (rouses_refl (out_cbuf (chan l)))|apply (rouses_refl (in_cbuf (chan l)))]. split; try done.
    - destruct Hok. split; cbn; try done. by right.
    - exists (take (Z.to_nat k) (outq l)), (take (Z.to_nat k) (outq l)). split_and!.
      + generalize (take (Z.to_nat k) (outq l)). intros ds. induction ds as [|c ds IH] using rev_ind; by constructor.
      + exact Hf.
      + rewrite app_nil_r. etransitivity; [symmetry; apply (take_drop (Z.to_nat k))|]. f_equal. symmetry. exact Hq.
    - by rewrite app_nil_r. }
  pose proof (turn_ok _ _ _ _ T1) as Hok1. apply wp_bind. apply wp_mono with (fun _ l2 => turn l1 [] [] l2).
  { destruct (Z.eqb_spec (nb (out_cbuf (chan l1))) 0) as [H0|]; [|apply wp_ret; by apply sends_turn, sends_refl].
    apply wp_bind, wp_stop; [done|]. intros h2 S2%sends_turn _. exists tt. eexists. split; [done|].
    apply (turn_trans _ _ _ _ _ _ _ S2). split; try done; [|apply (rouses_refl (out_cbuf (chan l1)))|apply (rouses_refl (in_cbuf (chan l1)))].
    apply flow_same; try done; [by eapply turn_ok| | |exact (ok_in _ Hok1)|by left].
    - unfold outq. cbn. by rewrite !contents_nil by (cbn in *; lia).
    - right. destruct Hr' as [Hl' _ _ _]. cbn in *. split; cbn; [done|lia|lia|]. rewrite H0. by rewrite Zmod_0_l. }
  intros [] l2 T2. pose proof (turn_trans _ _ _ _ _ _ _ T1 T2) as T. eexists tt, _. split; [done|].
  apply (turn_trans _ _ _ _ _ _ _ T), sends_turn, sends_tell;
    [by eapply turn_ok|apply core_tell_room|apply rouses_tell_room|apply tell_room_spec].
Qed.

(** ** Select *)
Lemma select_ok which info l : line_ok l ->
  wp (serial_select which info) (fun r l' => turn l [] [] l' /\ (r = true -> l' = l) /\
    (which = CYG_FREAD -> r = (0 <? nb (in_cbuf (chan l))) /\ (r = false -> info ∈ selinfo (in_cbuf (chan l'))))) l.
Proof using.
  intros Hok. pose proof (sends_refl _ Hok) as S0. pose proof (buf_ok_nb _ (ok_in _ Hok)). unfold serial_select. apply wp_get. cbv zeta.
  destruct (Z.eqb_spec which CYG_FREAD) as [->|Hr].
  - destruct (Z.eqb_spec (nb (in_cbuf (chan l))) 0) as [H0|H0]; wp_steps.
    + split_and!; [by apply turn_tell; [|..|apply (rouses_refl (in_cbuf (chan l)))]|done|]. intros _. rewrite H0. split; [done|].
      intros _. cbn. set_solver.
    + split_and!; [by apply sends_turn|done|]. intros _. split; [lia|done].
  - destruct (which =? CYG_FWRITE); [destruct (_ || _)|]; wp_steps; split_and!; try done; try by apply sends_turn.
    apply sends_turn, sends_tell; try done; [apply (rouses_refl (out_cbuf (chan l)))|by left].
Qed.

(** ** Flushing, aborting and the other requests *)

(** Everyone who sleeps knows of an abort that a request leaves behind. *)
Definition rouses_all (b b' : cbuf_t) : Prop :=
  rouses b b' /\ (abort b' = true -> abort b = true \/ (wait b < wait b')%nat).

(** The accounting of a request: flushing discards what waits. *)
Record asked (cut_out cut_in : bool) l l' : Prop := {
  asked_ok : line_ok l';
  asked_sizes : sizes l' = sizes l;
  asked_frame : framed (dev l') = framed (dev l);
  asked_out : exists ds ws, wire ds ws /\ fifo (dev l') = fifo (dev l) ++ ws /\
    (if cut_out then [] else outq l) = ds ++ outq l';
  asked_in : (if cut_in then [] else inq l) = inq l';
  asked_rouses : rouses_all (out_cbuf (chan l)) (out_cbuf (chan l')) /\ rouses_all (in_cbuf (chan l)) (in_cbuf (chan l'));
  asked_pending : pending (out_cbuf (chan l')) = pending (out_cbuf (chan l)) }.

Lemma turn_asked l l' : turn l [] [] l' -> asked false false l l'.
Proof using.
  intros [[? ? ? (ds & ws & ? & ? & Ho) Hi] ? ? ? ? [Ha Hb]]. rewrite app_nil_r in Ho, Hi. split; try done.
  - by exists ds, ws.
  - split; (split; [done|]); intros E; left; congruence.
Qed.

(** The buffers as a flush leaves them; a sleeping thread is aborted. *)
Definition abort_sleepers (b : cbuf_t) : cbuf_t :=
  if waiting b then set_waiting false (cyg_drv_cond_broadcast (set_abort true b)) else b.
Definition emptied (b : cbuf_t) : cbuf_t := set_ring (data b) 0 0 0 b.

Lemma emptied_ok b : buf_ok b -> buf_ok (emptied b) /\ contents (emptied b) = [].
Proof using.
  intros H. split; [|by apply contents_nil]. destruct H as [[? ?]|[]]; [by left|]. right. split; cbn; [done|lia|lia|]. by rewrite Zmod_0_l.
Qed.

Lemma rouses_all_abort b : rouses_all b (abort_sleepers b).
Proof using. unfold abort_sleepers, rouses_all, rouses. destruct (waiting b) eqn:E; cbn; repeat split; auto; congruence. Qed.

Lemma shape_abort b : shape (abort_sleepers b) = shape b.
Proof using. unfold abort_sleepers. by destruct (waiting b). Qed.

Lemma rouses_all_trans b1 b2 b3 : rouses_all b1 b2 -> rouses b2 b3 -> abort b3 = abort b2 -> rouses_all b1 b3.
Proof using.
  intros [R1 H1] R2 Ha. split; [by eapply rouses_trans|]. rewrite Ha. intros E. destruct (H1 E) as [?|?]; [by left|]. right. destruct R2. lia.
Qed.

Definition in_flushed l : line := set_in (fun b => emptied (abort_sleepers b)) l.

Lemma asked_in_flushed l : line_ok l -> asked false true l (in_flushed l).
Proof using.
  intros Hok. destruct (emptied_ok (abort_sleepers (in_cbuf (chan l)))) as [He Hc].
  { eapply shape_ok; [apply shape_abort|apply Hok]. }
  split; try done.
  - destruct Hok. by split.
  - unfold sizes, sizes_of. cbn. unfold abort_sleepers. by destruct (waiting _).
  - exists [], []. rewrite !app_nil_r. split; [constructor|done].
  - split; [split; [apply (rouses_refl (out_cbuf (chan l)))|by left]|]. apply (rouses_all_abort (in_cbuf (chan l))).
Qed.

Lemma asked_sends co ci l l1 l' : asked co ci l l1 -> sends l1 l' -> asked co ci l l'.
Proof using.
  intros [? Hs Hf (d1 & c1 & Hw1 & Hq1 & Ho1) Hi [R1 R2] Hp] [[? Hs' Hf' (d2 & c2 & Hw2 & Hq2 & Ho2) Hi'] Hin Ha ? Hp' ? R ? ?].
  rewrite app_nil_r in Ho2, Hi'. split; try done; try congruence.
  - exists (d1 ++ d2), (c1 ++ c2). split; [by apply wire_concat|]. rewrite Hq2, Hq1, <- !app_assoc. split; [done|].
    by rewrite Ho1, Ho2.
  - cbn in Hi'. congruence.
  - rewrite Hin. split; [by eapply rouses_all_trans|done].
Qed.

Lemma input_flush_ok l : line_ok l -> wp input_flush (fun _ l' => sends (in_flushed l) l') l.
Proof using.
  intros Hok. unfold input_flush. wp_steps. apply wp_bind. pose proof (asked_in_flushed l Hok) as A.
  eapply wp_mono; [apply (sending_config CYG_IO_SET_CONFIG_SERIAL_INPUT_FLUSH XNull None); [done|apply A]|].
  intros r l1 S1. apply wp_get. destruct (in_throttled l1).
  - eapply wp_mono; [eapply sending_restart_rx, sends_ok, S1|]. intros [] l2 S2. exact (sends_trans _ _ _ S1 S2).
  - apply wp_ret. exact S1.
Qed.

Definition out_emptied l : line := if 0 <? nb (out_cbuf (chan l)) then set_out emptied l else l.

Lemma asked_out_emptied l : line_ok l -> asked true false l (out_emptied l).
Proof using.
  intros Hok. pose proof (buf_ok_nb _ (ok_out _ Hok)). destruct (emptied_ok _ (ok_out _ Hok)) as [He Hc]. unfold out_emptied.
  destruct (Z.ltb_spec 0 (nb (out_cbuf (chan l)))).
  - split; try done.
    + destruct Hok. by split.
    + exists [], []. rewrite !app_nil_r. split; [constructor|]. split; [done|]. symmetry. exact Hc.
    + split; split; try (by left); [apply (rouses_refl (out_cbuf (chan l)))|apply (rouses_refl (in_cbuf (chan l)))].
  - split; try done.
    + exists [], []. rewrite !app_nil_r. split; [constructor|]. split; [done|]. symmetry. apply contents_nil. lia.
    + split; split; try (by left); apply rouses_refl.
Qed.

Lemma output_flush_ok l : line_ok l ->
  wp output_flush (fun _ l' => exists l1, sends (out_emptied l) l1 /\ l' = set_out abort_sleepers l1) l.
Proof using.
  intros Hok. unfold output_flush. apply wp_get. apply wp_bind.
  pose proof (asked_ok _ _ _ _ (asked_out_emptied l Hok)) as Hok1.
  apply wp_mono with (fun _ l1 => sends (out_emptied l) l1).
  { unfold out_emptied in *. destruct (0 <? _); [|apply wp_ret; by apply sends_refl]. wp_steps. by apply wp_stop. }
  intros [] l1 S1. apply wp_bind. eapply wp_mono; [apply (sending_config CYG_IO_SET_CONFIG_SERIAL_OUTPUT_FLUSH XNull None);
    [done|eapply sends_ok, S1]|]. intros r l2 S2. eexists tt, _. split; [done|]. exists l2. split; [exact (sends_trans _ _ _ S1 S2)|done].
Qed.

Lemma asked_out_flushed l l1 : line_ok l -> sends (out_emptied l) l1 -> asked true false l (set_out abort_sleepers l1).
Proof using.
  intros Hok S. destruct (asked_sends _ _ _ _ _ (asked_out_emptied l Hok) S) as [Hok1 Hs Hf Ho Hi [R1 R2] Hp].
  pose proof (flow_out_flags abort_sleepers l1 Hok1 (shape_abort _)) as F. destruct F as [Hok2 Hs2 Hf2 _ _]. split; try done; [congruence| | |].
  - destruct Ho as (ds & ws & ? & ? & E). exists ds, ws. split_and!; [done..|]. rewrite E. f_equal. symmetry. apply shape_contents, shape_abort.
  - split; [|done]. cbn. pose proof (sends_abort _ _ S) as Ha. pose proof (sends_rouses _ _ S) as RS.
    assert (abort (out_cbuf (chan (out_emptied l))) = abort (out_cbuf (chan l)) /\ waiting (out_cbuf (chan (out_emptied l))) = waiting (out_cbuf (chan l))
      /\ wait (out_cbuf (chan (out_emptied l))) = wait (out_cbuf (chan l))) as (E1 & E2 & E3).
    { unfold out_emptied. by destruct (0 <? _). }
    destruct (rouses_all_abort (out_cbuf (chan l1))) as [R3 R4]. destruct R1 as [R1 R5]. split; [by eapply rouses_trans|].
    intros E. destruct (R4 E) as [?|?]; [left; congruence|]. right. destruct R1. lia.
  - rewrite <- Hp. cbn. unfold abort_sleepers. by destruct (waiting (out_cbuf (chan l1))).
Qed.

Definition modes l : bool * bool := (blocking (in_cbuf (chan l)), blocking (out_cbuf (chan l))).

Lemma sends_modes l l' : sends l l' -> modes l' = modes l.
Proof using. intros [_ Hi _ Hb _ _ _ _ _]. unfold modes. by rewrite Hi, Hb. Qed.

(** The answer to a request: only OUTPUT_DRAIN waits, and it waits until the writers
    and the buffer have nothing left. *)
Definition answered key l (o : outcome (Z * option Z * xbuf_t)) l' : Prop :=
  match o with
  | Asleep k => key = CYG_IO_GET_CONFIG_SERIAL_OUTPUT_DRAIN /\ k = SDrain ENOERR /\ waiting (out_cbuf (chan l')) = true
  | Done _ => key = CYG_IO_GET_CONFIG_SERIAL_OUTPUT_DRAIN -> pending (out_cbuf (chan l)) = 0 /\ outq l = []
  end.

Lemma drain_ok res l : line_ok l ->
  wp (drain res) (fun o l' => asked false false l l' /\ modes l' = modes l /\
    match o with
    | Asleep k => k = SDrain res /\ waiting (out_cbuf (chan l')) = true
    | Done r => r = res /\ l' = l /\ pending (out_cbuf (chan l)) = 0 /\ outq l = []
    end) l.
Proof using.
  intros Hok. pose proof (turn_asked _ _ (sends_turn _ _ (sends_refl _ Hok))) as A0. pose proof (buf_ok_nb _ (ok_out _ Hok)).
  unfold drain. apply wp_get. cbv zeta. destruct (_ || _) eqn:E; wp_steps.
  - split_and!; try done. pose proof (flow_out_flags (set_waiting true) l Hok eq_refl) as [? ? ? Ho Hi]. split; try done.
    + destruct Ho as (ds & ws & ? & ? & Ho). rewrite app_nil_r in Ho. by exists ds, ws.
    + split; split; try (by left); [by split; cbn; auto|apply (rouses_refl (in_cbuf (chan l)))].
  - apply orb_false_elim in E as [E1 E2]. bool_lia. split_and!; try done. apply contents_nil. lia.
Qed.

Lemma fill_ok n size f xb new l : is_Some n ->
  wp (fill n size f xb new) (fun o l' => l' = l /\ exists r, o = Done r) l.
Proof using. intros [k ->]. apply wp_ret. split; [done|]. by eexists. Qed.

Lemma asked_abort l : line_ok l -> asked false false l (set_out abort_buffer (set_in abort_buffer l)).
Proof using.
  intros Hok. assert (forall b, shape (abort_buffer b) = shape b /\ rouses_all b (abort_buffer b) /\ pending (abort_buffer b) = pending b) as Hb.
  { intros b. unfold abort_buffer. destruct (len b =? 0); [split_and!; [done| |done]; split; [apply rouses_refl|by left]|].
    split_and!; [done| |done]. split; [split; cbn; [lia|by left]|]. intros _. right. cbn. lia. }
  pose proof (flow_in_flags abort_buffer l Hok (proj1 (Hb _))) as F1.
  pose proof (flow_out_flags abort_buffer _ (flow_ok _ _ _ _ _ F1) (proj1 (Hb _))) as F2.
  destruct (flow_trans _ _ _ _ _ _ _ _ _ F1 F2) as [? ? ? (ds & ws & ? & ? & Ho) Hi]. rewrite !app_nil_r in Ho, Hi. split; try done.
  - by exists ds, ws.
  - split; apply Hb.
  - apply Hb.
Qed.

Lemma get_config_ok key xb n l :
  line_ok l -> len (out_cbuf (chan l)) <> 0 -> len (in_cbuf (chan l)) <> 0 -> is_Some n ->
  wp (serial_get_config key xb n) (fun o l' =>
    asked (key =? CYG_IO_GET_CONFIG_SERIAL_OUTPUT_FLUSH) (key =? CYG_IO_GET_CONFIG_SERIAL_INPUT_FLUSH) l l' /\
    modes l' = modes l /\ answered key l o l') l.
Proof using.
  intros Hok Hlo Hli Hn. pose proof (turn_asked _ _ (sends_turn _ _ (sends_refl _ Hok))) as A0.
  assert (forall size f new key', key' <> CYG_IO_GET_CONFIG_SERIAL_OUTPUT_DRAIN -> wp (fill n size f xb new)
    (fun o l' => asked false false l l' /\ modes l' = modes l /\ answered key' l o l') l) as Hfill.
  { intros size f new key' Hk. eapply wp_mono; [by apply fill_ok|]. intros o l' [-> [r ->]]. by split_and!. }
  unfold serial_get_config. apply wp_get. cbv zeta.
  destruct (Z.eqb_spec key CYG_IO_GET_CONFIG_SERIAL_INFO) as [->|]; [by apply Hfill|].
  destruct (Z.eqb_spec key CYG_IO_GET_CONFIG_SERIAL_BUFFER_INFO) as [->|]; [by apply Hfill|].
  destruct (Z.eqb_spec key CYG_IO_GET_CONFIG_SERIAL_OUTPUT_DRAIN) as [->|Hd].
  { replace (len (out_cbuf (chan l)) =? 0) with false by lia. apply wp_bind. eapply wp_mono; [by apply drain_ok|].
    intros o l' (A & Hm & Ho). apply wp_ret. split_and!; [done..|]. destruct o as [res|k]; [intros _; split; apply Ho|split; [done|apply Ho]]. }
  destruct (Z.eqb_spec key CYG_IO_GET_CONFIG_SERIAL_INPUT_FLUSH) as [->|].
  { replace (len (in_cbuf (chan l)) =? 0) with false by lia. apply wp_bind. eapply wp_mono; [by apply input_flush_ok|].
    intros [] l' S. apply wp_ret. split_and!; [|rewrite (sends_modes _ _ S)|done].
    - exact (asked_sends _ _ _ _ _ (asked_in_flushed l Hok) S).
    - unfold modes. cbn. unfold abort_sleepers. by destruct (waiting (in_cbuf (chan l))). }
  destruct (Z.eqb_spec key CYG_IO_GET_CONFIG_SERIAL_ABORT) as [->|].
  { exists (Done (ENOERR, n, xb)), (set_out abort_buffer (set_in abort_buffer l)). split; [done|].
    split_and!; [by apply asked_abort| |done]. unfold modes. cbn. unfold abort_buffer.
    by destruct (len (in_cbuf (chan l)) =? 0), (len (out_cbuf (chan l)) =? 0). }
  destruct (Z.eqb_spec key CYG_IO_GET_CONFIG_SERIAL_OUTPUT_FLUSH) as [->|].
  { replace (len (out_cbuf (chan l)) =? 0) with false by lia. apply wp_bind. eapply wp_mono; [by apply output_flush_ok|].
    intros [] l' (l1 & S & ->). apply wp_ret. split_and!; [by apply asked_out_flushed| |done].
    transitivity (modes l1); [|rewrite (sends_modes _ _ S)].
    - unfold modes. cbn. unfold abort_sleepers. by destruct (waiting (out_cbuf (chan l1))).
    - unfold modes, out_emptied. by destruct (0 <? _). }
  destruct (Z.eqb_spec key CYG_IO_GET_CONFIG_READ_BLOCKING) as [->|]; [by apply Hfill|].
  destruct (Z.eqb_spec key CYG_IO_GET_CONFIG_WRITE_BLOCKING) as [->|]; [by apply Hfill|].
  apply wp_ret. split_and!; [done..|]. by intros ->.
Qed.

Lemma sending_run {A} (m : M line A) l a l' : sending m -> line_ok l -> m l = Some (a, l') -> sends l l'.
Proof using. intros Hm Hok E. destruct (Hm l Hok) as (a' & l'' & E' & S). congruence. Qed.

Lemma sending_flow_method f : sending (flow_method f).
Proof using.
  apply sending_get. intros l. apply sending_bind.
  - apply sending_modify. intros l1 Hok. apply sends_chan; auto.
  - intros _. apply sending_bind; [by apply sending_config|]. intros. apply sending_ret.
Qed.

Lemma sending_flow_force f : sending (flow_force f).
Proof using.
  assert (forall m : M line unit, sending m -> sending (_ ← m; mret ENOERR)) as H.
  { intros m Hm. apply sending_bind; [done|]. intros. apply sending_ret. }
  unfold flow_force. repeat (apply sending_if; [apply H; eauto with ecos|]). apply sending_ret.
Qed.

Lemma asked_blocking l b : line_ok l ->
  asked false false l (set_in (set_blocking b) l) /\ asked false false l (set_out (set_blocking b) l).
Proof using.
  intros Hok. destruct (flow_in_flags (set_blocking b) l Hok eq_refl) as [? ? ? (d1 & w1 & ? & ? & H1) I1].
  destruct (flow_out_flags (set_blocking b) l Hok eq_refl) as [? ? ? (d2 & w2 & ? & ? & H2) I2].
  rewrite app_nil_r in H1, H2, I1, I2. split; split; try done; try (split; split; try (by left); [apply (rouses_refl (out_cbuf (chan l)))|apply (rouses_refl (in_cbuf (chan l)))]).
  - by exists d1, w1.
  - by exists d2, w2.
Qed.

Lemma set_config_ok key xb n l r l' :
  line_ok l -> is_Some n -> serial_set_config key xb n l = Some (r, l') ->
  asked false false l l' /\
  (key <> CYG_IO_SET_CONFIG_READ_BLOCKING -> key <> CYG_IO_SET_CONFIG_WRITE_BLOCKING -> modes l' = modes l).
Proof using.
  intros Hok [k ->] E. pose proof (turn_asked _ _ (sends_turn _ _ (sends_refl _ Hok))) as A0.
  assert (forall l', sends l l' -> asked false false l l' /\ (key <> CYG_IO_SET_CONFIG_READ_BLOCKING -> key <> CYG_IO_SET_CONFIG_WRITE_BLOCKING -> modes l' = modes l)) as Hs.
  { intros l2 S. split; [by apply turn_asked, sends_turn|]. intros _ _. by apply sends_modes. }
  assert (forall g m, (if (k <? sizeof_uint32) || g then mret (- EINVAL, Some k, xb) else
      match xb with XWord w => res ← m w; mret (res, Some k, xb) | _ => crash end) l = Some (r, l') ->
    l' = l \/ exists w res, m w l = Some (res, l')) as Hword.
  { intros g m. destruct (_ || g); [intros [= _ <-]; by left|]. destruct xb as [| |w| |]; try done. intros H. right. exists w.
    unfold mbind, M_bind in H. destruct (m w l) as [[res l2]|]; [|done]. exists res. by injection H as _ <-. }
  unfold serial_set_config in E. unfold mbind at 1, M_bind in E. cbn [get_state] in E. cbv zeta in E.
  destruct (Z.eqb_spec key CYG_IO_SET_CONFIG_READ_BLOCKING) as [->|].
  { apply Hword in E as [->|(w & res & [= _ <-])]; split; try done; [by apply asked_blocking]. }
  destruct (Z.eqb_spec key CYG_IO_SET_CONFIG_WRITE_BLOCKING) as [->|].
  { apply Hword in E as [->|(w & res & [= _ <-])]; split; try done; [by apply asked_blocking]. }
  destruct (Z.eqb_spec key CYG_IO_SET_CONFIG_SERIAL_FLOW_CONTROL_METHOD) as [->|].
  { apply Hword in E as [->|(w & res & E)]; [by split|]. apply Hs. by eapply (sending_run _ _ _ _ (sending_flow_method w)). }
  destruct (Z.eqb_spec key CYG_IO_SET_CONFIG_SERIAL_FLOW_CONTROL_FORCE) as [->|].
  { apply Hword in E as [->|(w & res & E)]; [by split|]. apply Hs. by eapply (sending_run _ _ _ _ (sending_flow_force w)). }
  destruct (Z.eqb_spec key CYG_IO_SET_CONFIG_SERIAL_STATUS_CALLBACK) as [->|].
  { destruct (k <? sizeof_callback); [injection E as _ <-; by split|]. destruct xb; try done. injection E as _ <-.
    split; [|done]. destruct A0. split; try done. by destruct Hok; split. }
  unfold mbind, M_bind in E. destruct (call_config key xb (Some k) l) as [[r1 l1]|] eqn:E1; [|done]. injection E as _ <-.
  apply Hs. by eapply config_sends.
Qed.
End Conf.
