(* ===== verification/SerialRun.v ===== *)
(** * The serial driver: threads and interrupts

    A line with the threads that sleep on it. A step is a call of a thread, what a
    sleeping thread does when it goes on, a callback of the hardware driver, or the
    hardware's own progress; between two waits a call is atomic, as the code holds the
    mutex of the buffer and the lock of the DSRs. The history records what was written,
    received, read and sent. *)
From S2P Require Import Prelude Serial SerialSpec SerialOps SerialWrite SerialRead SerialConf.

Section Run.
Context `{Opts : SerialOptions} `{Laws : SerialLaws}.
Implicit Types (l : line).

(** The threads asleep, each with the broadcasts its condition variable had seen. *)
Record system := System { ln : line; asleep : list (sleeper * nat) }.

(** What was written and not flushed, received and not flushed, read, and sent. *)
Record history := History { accepted : list byte; stored : list byte; delivered : list byte; wired : list byte }.

Definition cond_of (k : sleeper) l : cbuf_t := match k with SRead _ _ _ => in_cbuf (chan l) | _ => out_cbuf (chan l) end.
Definition told l (t : sleeper * nat) : Prop := (t.2 < wait (cond_of t.1 l))%nat.
Definition sleeps {A} (o : outcome A) l : list (sleeper * nat) :=
  match o with Asleep k => [(k, wait (cond_of k l))] | Done _ => [] end.

(** What is left to write, and what the caller's buffer holds, at the end of a call. *)
Definition left_over n (o : outcome (Z * Z)) : Z :=
  match o with Done (_, n') => n - n' | Asleep (SWrite _ size _) => size | Asleep _ => 0 end.
Definition written n size (buf : list byte) o : list byte := take (Z.to_nat (size - left_over n o)) buf.
Definition got (o : outcome (Z * Z * list byte)) : list byte :=
  match o with Done (_, _, acc) => acc | Asleep (SRead _ _ acc) => acc | Asleep _ => [] end.

Definition wrote_h w h := History (accepted h ++ w) (stored h) (delivered h) (wired h).
Definition stored_h s h := History (accepted h) (stored h ++ s) (delivered h) (wired h).
Definition read_h r h := History (accepted h) (stored h) (delivered h ++ r) (wired h).
Definition wired_h ws h := History (accepted h) (stored h) (delivered h) (wired h ++ ws).

(** A flush discards what waits in the buffer. *)
Definition asked_h key l h : history :=
  if key =? CYG_IO_GET_CONFIG_SERIAL_OUTPUT_FLUSH then
    History (take (length (accepted h) - length (outq l)) (accepted h)) (stored h) (delivered h) (wired h)
  else if key =? CYG_IO_GET_CONFIG_SERIAL_INPUT_FLUSH then
    History (accepted h) (take (length (stored h) - length (inq l)) (stored h)) (delivered h) (wired h)
  else h.

Inductive event :=
  | EWrite (buf : list byte) (n : Z) | EWriteGo (i : nat) (ok : bool)
  | ERead (n : Z) | EReadGo (i : nat) (ok : bool)
  | EGet (key : Z) (xb : xbuf_t) (n : Z) | EDrainGo (i : nat) (ok : bool)
  | ESet (key : Z) (xb : xbuf_t) (n : Z) | ESelect (which info : Z)
  | EXmt | ERcv (c : byte) | EStatus (which v : Z)
  | EBlockIn (bs : list byte) | EBlockOut (space : Z) (h : hw) | EDev (h : hw).

Inductive step : event -> system * history -> system * history -> Prop :=
  | step_write polls buf n o l l' ts h :
      0 <= n < 2 ^ 31 -> n <= Z.of_nat (length buf) -> serial_write polls buf n l = Some (o, l') ->
      step (EWrite buf n) (System l ts, h) (System l' (ts ++ sleeps o l'), wrote_h (written n n buf o) h)
  | step_write_go i ok n size buf t o l l' ts h :
      ts !! i = Some (SWrite n size buf, t) -> (ok = true -> told l (SWrite n size buf, t)) ->
      serial_write_resume ok n size buf l = Some (o, l') ->
      step (EWriteGo i ok) (System l ts, h) (System l' (delete i ts ++ sleeps o l'), wrote_h (written n size buf o) h)
  | step_read n o l l' ts h :
      0 <= n < 2 ^ 31 -> serial_read n l = Some (o, l') ->
      step (ERead n) (System l ts, h) (System l' (ts ++ sleeps o l'), read_h (got o) h)
  | step_read_go i ok n size acc t o l l' ts h :
      ts !! i = Some (SRead n size acc, t) -> (ok = true -> told l (SRead n size acc, t)) ->
      serial_read_resume ok n size acc l = Some (o, l') ->
      step (EReadGo i ok) (System l ts, h) (System l' (delete i ts ++ sleeps o l'), read_h (drop (length acc) (got o)) h)
  | step_get key xb n o l l' ts h :
      serial_get_config key xb (Some n) l = Some (o, l') ->
      step (EGet key xb n) (System l ts, h) (System l' (ts ++ sleeps o l'), asked_h key l h)
  | step_drain_go i ok res t o l l' ts h :
      ts !! i = Some (SDrain res, t) -> (ok = true -> told l (SDrain res, t)) ->
      drain_resume ok res l = Some (o, l') ->
      step (EDrainGo i ok) (System l ts, h) (System l' (delete i ts ++ sleeps o l'), h)
  | step_set key xb n r l l' ts h :
      serial_set_config key xb (Some n) l = Some (r, l') ->
      step (ESet key xb n) (System l ts, h) (System l' ts, h)
  | step_select which info r l l' ts h :
      serial_select which info l = Some (r, l') -> step (ESelect which info) (System l ts, h) (System l' ts, h)
  | step_xmt l l' ts h : serial_xmt_char l = Some (tt, l') -> step EXmt (System l ts, h) (System l' ts, h)
  | step_rcv c l l' ts h :
      serial_rcv_char c l = Some (tt, l') -> step (ERcv c) (System l ts, h) (System l' ts, stored_h (kept l c) h)
  | step_status which v l l' ts h :
      serial_indicate_status which (Some v) l = Some (tt, l') -> step (EStatus which v) (System l ts, h) (System l' ts, h)
  | step_block_in bs sp i l l1 l' ts h :
      serial_data_rcv_req (Z.of_nat (length bs)) l = Some (CYG_RCV_OK sp i, l1) ->
      serial_data_rcv_done sp (filled (take (Z.to_nat sp) bs) l1) = Some (tt, l') ->
      step (EBlockIn bs) (System l ts, h) (System l' ts, stored_h (take (Z.to_nat sp) bs) h)
  | step_block_out space k i d l l1 l' ts h :
      0 <= space -> serial_data_xmt_req space l = Some (CYG_XMT_OK k i, l1) ->
      dev_ok d -> fifo d = fifo (dev l1) ++ take (Z.to_nat k) (drop (Z.to_nat i) (data (out_cbuf (chan l1)))) ->
      framed d = framed (dev l1) ->
      serial_data_xmt_done k (set_dev d l1) = Some (tt, l') ->
      step (EBlockOut space d) (System l ts, h) (System l' ts, h)
  | step_dev d ws l ts h :
      dev_ok d -> fifo (dev l) = ws ++ fifo d -> step (EDev d) (System l ts, h) (System (set_dev d l) ts, wired_h ws h).

(** A freshly opened line. *)
Definition fresh l : Prop :=
  line_ok l /\ len (out_cbuf (chan l)) <> 0 /\ len (in_cbuf (chan l)) <> 0 /\ 1 <= low_water (out_cbuf (chan l)) /\
  outq l = [] /\ inq l = [] /\ fifo (dev l) = [] /\ pending (out_cbuf (chan l)) = 0 /\
  abort (out_cbuf (chan l)) = false /\ abort (in_cbuf (chan l)) = false /\
  blocking (out_cbuf (chan l)) = true /\ blocking (in_cbuf (chan l)) = true /\
  flow_flags (chan l) = 0 /\ low_water (in_cbuf (chan l)) <= high_water (in_cbuf (chan l)).

(** The states that steps of [P] lead to. *)
Inductive reachable (P : event -> Prop) : system * history -> Prop :=
  | reach_fresh l : fresh l -> reachable P (System l [], History [] [] [] [])
  | reach_step e s s' : P e -> reachable P s -> step e s s' -> reachable P s'.

(** ** What holds in every state *)

Definition sleeper_ok (k : sleeper) : Prop :=
  match k with
  | SWrite n size buf => 0 < size <= n /\ n < 2 ^ 31 /\ size <= Z.of_nat (length buf)
  | SRead n size acc => size = Z.of_nat (length acc) /\ size < n
  | SDrain _ => True
  end.

Definition owes (t : sleeper * nat) : Z := match t.1 with SWrite _ size _ => size | _ => 0 end.
Definition owed (ts : list (sleeper * nat)) : Z := foldr (fun t n => owes t + n) 0 ts.

#[local] Arguments owed : simpl never.

Record inv (s : system * history) : Prop := {
  inv_line : line_ok (ln s.1) /\ len (out_cbuf (chan (ln s.1))) <> 0 /\ len (in_cbuf (chan (ln s.1))) <> 0 /\
    1 <= low_water (out_cbuf (chan (ln s.1)));
  inv_out : exists ds, wire ds (wired s.2 ++ fifo (dev (ln s.1))) /\ accepted s.2 = ds ++ outq (ln s.1);
  inv_in : stored s.2 = delivered s.2 ++ inq (ln s.1);
  inv_asleep : Forall (fun t => sleeper_ok t.1) (asleep s.1);
  inv_pending : pending (out_cbuf (chan (ln s.1))) = s32 (owed (asleep s.1)) }.

Lemma owed_app ts1 ts2 : owed (ts1 ++ ts2) = owed ts1 + owed ts2.
Proof using. unfold owed. induction ts1 as [|t ts1 IH]; cbn; [done|]. rewrite IH. lia. Qed.

Lemma owed_delete i t ts : ts !! i = Some t -> owed ts = owes t + owed (delete i ts).
Proof using.
  intros H. rewrite <- (take_drop_middle _ _ _ H) at 1. rewrite delete_take_drop, !owed_app. unfold owed. cbn. lia.
Qed.

Lemma s32_add a b : s32 (s32 a + b) = s32 (a + b).
Proof using.
  unfold s32. f_equal. replace ((a + 2 ^ 31) mod 2 ^ 32 - 2 ^ 31 + b + 2 ^ 31) with ((a + 2 ^ 31) mod 2 ^ 32 + b) by lia.
  rewrite Zplus_mod_idemp_l. f_equal. lia.
Qed.

(** The accounting carries the history along. *)
Lemma inv_flow_step l w s r l' ts ts' h h' :
  inv (System l ts, h) -> flow l w s r l' ->
  accepted h' = accepted h ++ w -> stored h' = stored h ++ s -> delivered h' = delivered h ++ r -> wired h' = wired h ->
  Forall (fun t => sleeper_ok t.1) ts' -> pending (out_cbuf (chan l')) = s32 (owed ts') ->
  inv (System l' ts', h').
Proof using.
  intros [(Hok & H1 & H2 & H3) (ds & Hw & Ho) Hi _ _] F Ea Es Er Ew Ht Hp. cbn in *.
  destruct (flow_len _ _ _ _ _ F) as (E1 & E2 & E3 & _). split; cbn; try done.
  - split_and!; [apply F|congruence..].
  - destruct (flow_out _ _ _ _ _ F) as (d2 & w2 & Hw2 & Hf & Hq). exists (ds ++ d2). split.
    + rewrite Ew, Hf, app_assoc. by apply wire_concat.
    + by rewrite Ea, Ho, <- !app_assoc, Hq.
  - by rewrite Es, Er, Hi, <- !app_assoc, (flow_in _ _ _ _ _ F).
Qed.

Lemma inv_turn_step l s r l' ts h h' :
  inv (System l ts, h) -> turn l s r l' ->
  accepted h' = accepted h -> stored h' = stored h ++ s -> delivered h' = delivered h ++ r -> wired h' = wired h ->
  inv (System l' ts, h').
Proof using.
  intros Hinv T Ea Es Er Ew. eapply inv_flow_step; [exact Hinv|apply T|rewrite app_nil_r; done|done..| |].
  - apply Hinv.
  - rewrite (turn_pending _ _ _ _ T). apply Hinv.
Qed.

Lemma inv_turn_same l l' ts h : inv (System l ts, h) -> turn l [] [] l' -> inv (System l' ts, h).
Proof using. intros Hinv T. eapply inv_turn_step; [exact Hinv|exact T|by rewrite ?app_nil_r..]. Qed.

(** Requests. *)
Lemma inv_asked_step key l l' ts ts' h :
  inv (System l ts, h) ->
  asked (key =? CYG_IO_GET_CONFIG_SERIAL_OUTPUT_FLUSH) (key =? CYG_IO_GET_CONFIG_SERIAL_INPUT_FLUSH) l l' ->
  Forall (fun t => sleeper_ok t.1) ts' -> owed ts' = owed ts ->
  inv (System l' ts', asked_h key l h).
Proof using.
  intros [(Hok & H1 & H2 & H3) (ds & Hw & Ho) Hi Ht Hp] A Ht' Hp'. cbn in *.
  destruct A as [Hok' Hs _ (d2 & w2 & Hw2 & Hf & Hq) Hqi _ Hpe].
  unfold sizes, sizes_of in Hs. injection Hs as E1 E2 E3 E4 E5 E6. split; cbn; try done.
  - split_and!; congruence || done.
  - exists (ds ++ d2). rewrite Hf, app_assoc. unfold asked_h. destruct (Z.eqb_spec key CYG_IO_GET_CONFIG_SERIAL_OUTPUT_FLUSH) as [->|].
    + cbn. split; [by apply wire_concat|]. rewrite <- app_assoc, <- Hq, app_nil_r. rewrite Ho, length_app.
      rewrite take_app_le by lia. rewrite take_ge by lia. done.
    + assert (forall h', accepted h' = accepted h -> wired h' = wired h ->
        wire (ds ++ d2) ((wired h' ++ fifo (dev l)) ++ w2) /\ accepted h' = (ds ++ d2) ++ outq l') as H.
      { intros h' -> ->. split; [by apply wire_concat|]. by rewrite Ho, <- app_assoc, Hq. }
      destruct (key =? CYG_IO_GET_CONFIG_SERIAL_INPUT_FLUSH); by apply H.
  - rewrite <- Hqi. unfold asked_h. destruct (Z.eqb_spec key CYG_IO_GET_CONFIG_SERIAL_OUTPUT_FLUSH) as [->|]; [done|].
    destruct (Z.eqb_spec key CYG_IO_GET_CONFIG_SERIAL_INPUT_FLUSH) as [->|]; [|done]. cbn.
    rewrite Hi, app_nil_r, length_app. rewrite take_app_le by lia. by rewrite take_ge by lia.
  - by rewrite Hpe, Hp, Hp'.
Qed.

(** A run of a computation is the one its specification speaks of. *)
Lemma wp_run {A} (m : M line A) Q l a l' : wp m Q l -> m l = Some (a, l') -> Q a l'.
Proof using. intros (b & l2 & E & HQ) E'. congruence. Qed.

(** What a write enters, and whom it leaves asleep. *)
Lemma wrote_flow l n size buf o l' : wrote l n size buf o l' -> 0 <= size <= n -> size <= Z.of_nat (length buf) ->
  n < 2 ^ 31 -> s32 (pending (out_cbuf (chan l))) = pending (out_cbuf (chan l)) ->
  flow l (written n size buf o) [] [] l' /\ Forall (fun t => sleeper_ok t.1) (sleeps o l') /\
  pending (out_cbuf (chan l')) = s32 (pending (out_cbuf (chan l)) + owed (sleeps o l')).
Proof using.
  intros (k & Hk & He & Ho) Hs Hb Hn Hp. destruct o as [[res n']|s]; cbn in He, Ho.
  - destruct He as [-> _]. destruct Ho as [St _]. unfold written. cbn. replace (size - (n - (n - size + k))) with k by lia.
    split_and!; [apply St|done|]. rewrite (st_pending _ _ _ St). unfold owed. cbn. by rewrite Z.add_0_r.
  - destruct He as (_ & Hlt & ->). destruct Ho as (l2 & R & _ & ->). unfold written. cbn. replace (size - (size - k)) with k by lia.
    split_and!.
    + pose proof (flow_out_flags (fun b => set_pending (s32 (pending b + (size - k))) b) l2 (runs_ok _ _ _ R) eq_refl) as F.
      pose proof (flow_trans _ _ _ _ _ _ _ _ _ (runs_flow _ _ _ R) F) as F2. by rewrite app_nil_r in F2.
    + constructor; [|done]. cbn. rewrite length_drop. lia.
    + rewrite (runs_pending _ _ _ R). unfold owed. cbn. f_equal. lia.
Qed.

Lemma s32_idem a : s32 (s32 a) = s32 a.
Proof using. pose proof (s32_add a 0) as H. by rewrite !Z.add_0_r in H. Qed.

Lemma inv_ready l ts h n buf : inv (System l ts, h) -> 0 <= n < 2 ^ 31 -> n <= Z.of_nat (length buf) -> write_ready l n buf.
Proof using. intros [(H1 & H2 & _ & H4) _ _ _ _] Hn Hb. exact (conj H1 (conj H2 (conj H4 (conj Hn Hb)))). Qed.

Lemma step_inv_write polls buf n o l l' ts h :
  inv (System l ts, h) -> 0 <= n < 2 ^ 31 -> n <= Z.of_nat (length buf) -> serial_write polls buf n l = Some (o, l') ->
  inv (System l' (ts ++ sleeps o l'), wrote_h (written n n buf o) h).
Proof using.
  intros Hinv Hn Hb E. pose proof (inv_pending _ Hinv) as Hpd. cbn in Hpd. pose proof (wp_run _ _ _ _ _ (serial_write_start polls l n buf (inv_ready _ _ _ _ _ Hinv Hn Hb)) E) as W.
  pose proof (flow_out_flags (set_abort false) l (proj1 (inv_line _ Hinv)) eq_refl) as F0.
  destruct (wrote_flow _ _ _ _ _ _ W) as (F & Hs & Hp); [lia|done|lia| |].
  { cbn. rewrite Hpd. apply s32_idem. }
  eapply inv_flow_step; [exact Hinv|exact (flow_trans _ _ _ _ _ _ _ _ _ F0 F)|done|by rewrite ?app_nil_r..| |].
  - apply Forall_app. split; [apply Hinv|done].
  - rewrite Hp, owed_app. cbn. rewrite Hpd. apply s32_add.
Qed.

Lemma step_inv_write_go i ok n size buf t o l l' ts h :
  inv (System l ts, h) -> ts !! i = Some (SWrite n size buf, t) ->
  serial_write_resume ok n size buf l = Some (o, l') ->
  inv (System l' (delete i ts ++ sleeps o l'), wrote_h (written n size buf o) h).
Proof using.
  intros Hinv Hi E. pose proof (inv_pending _ Hinv) as Hpd. pose proof (inv_asleep _ Hinv) as Hts. pose proof (Forall_lookup_1 _ _ _ _ Hts Hi) as (Hs & Hn & Hb).
  cbn in *. destruct (wp_run _ _ _ _ _ (serial_write_resumes ok l n size buf (inv_ready _ _ _ size buf Hinv ltac:(lia) Hb) ltac:(lia)) E) as [W _].
  assert (flow l [] [] [] (resumed ok size l)) as F0 by (apply resumed_flow, Hinv).
  pose proof (owed_delete _ _ _ Hi) as Ho. unfold owes in Ho. cbn in Ho.
  assert (pending (out_cbuf (chan (resumed ok size l))) = s32 (owed (delete i ts))) as Hpr.
  { cbn. transitivity (s32 (pending (out_cbuf (chan l)) - size)); [by destruct ok|].
    rewrite Hpd. unfold Z.sub. rewrite s32_add. f_equal. lia. }
  destruct (wrote_flow _ _ _ _ _ _ W) as (F & Hsl & Hp); [lia|done|lia|by rewrite Hpr, s32_idem|].
  eapply inv_flow_step; [exact Hinv|exact (flow_trans _ _ _ _ _ _ _ _ _ F0 F)|done|by rewrite ?app_nil_r..| |].
  - apply Forall_app. split; [by apply Forall_delete|done].
  - rewrite Hp, owed_app, Hpr. apply s32_add.
Qed.

Lemma read_sleepers n acc o l l' : Z.of_nat (length acc) <= n -> has_read l n acc o l' ->
  turn l [] (drop (length acc) (got o)) l' /\ Forall (fun t => sleeper_ok t.1) (sleeps o l') /\ owed (sleeps o l') = 0.
Proof using.
  intros Hn (r & T & He). destruct o as [[[res n'] acc']|s]; cbn in He.
  - destruct He as [-> _]. cbn. rewrite drop_app_length. by split_and!.
  - destruct He as (_ & Hlt & _ & -> & _). cbn. rewrite drop_app_length. split_and!; [done| |done].
    constructor; [|done]. cbn. split; [done|lia].
Qed.

Lemma inv_read_step l l0 r l' ts ts' h h' :
  inv (System l ts, h) -> flow l [] [] [] l0 -> pending (out_cbuf (chan l0)) = pending (out_cbuf (chan l)) ->
  turn l0 [] r l' -> h' = read_h r h -> Forall (fun t => sleeper_ok t.1) ts' -> owed ts' = owed ts ->
  inv (System l' ts', h').
Proof using.
  intros Hinv F0 Hp T -> Hts Ho. eapply inv_flow_step; [exact Hinv|exact (flow_trans _ _ _ _ _ _ _ _ _ F0 (turn_flow _ _ _ _ T))|cbn; by rewrite ?app_nil_r..|done|].
  rewrite (turn_pending _ _ _ _ T), Hp, Ho. apply (inv_pending _ Hinv).
Qed.

Lemma step_inv_read n o l l' ts h :
  inv (System l ts, h) -> 0 <= n < 2 ^ 31 -> serial_read n l = Some (o, l') ->
  inv (System l' (ts ++ sleeps o l'), read_h (got o) h).
Proof using.
  intros Hinv Hn E. destruct (inv_line _ Hinv) as (Hok & _ & Hl & _). cbn in Hok, Hl.
  pose proof (wp_run _ _ _ _ _ (serial_read_start n l Hok Hl ltac:(lia)) E) as R.
  destruct (read_sleepers _ _ _ _ _ (proj1 Hn : Z.of_nat (length []) <= n) R) as (T & Hs & Ho). cbn in T. rewrite drop_0 in T.
  eapply inv_read_step; [exact Hinv|apply (flow_in_flags (set_abort false) l Hok eq_refl)|done|exact T|done| |].
  - apply Forall_app. split; [apply Hinv|done].
  - rewrite owed_app. lia.
Qed.

Lemma step_inv_read_go i ok n size acc t o l l' ts h :
  inv (System l ts, h) -> ts !! i = Some (SRead n size acc, t) ->
  serial_read_resume ok n size acc l = Some (o, l') ->
  inv (System l' (delete i ts ++ sleeps o l'), read_h (drop (length acc) (got o)) h).
Proof using.
  intros Hinv Hi E. pose proof (inv_pending _ Hinv) as Hpd. pose proof (inv_asleep _ Hinv) as Hts. pose proof (Forall_lookup_1 _ _ _ _ Hts Hi) as [-> Hlt]. cbn in *.
  destruct (inv_line _ Hinv) as (Hok & _ & Hl & _). cbn in Hok, Hl.
  pose proof (wp_run _ _ _ _ _ (serial_read_resumes ok n acc l Hok ltac:(lia)) E) as R. cbv beta in R.
  pose proof (owed_delete _ _ _ Hi) as Ho. unfold owes in Ho. cbn in Ho.
  destruct (abort _).
  - destruct R as (-> & F & Eo). cbn. rewrite drop_all. rewrite app_nil_r.
    eapply inv_flow_step; [exact Hinv|exact F|cbn; by rewrite ?app_nil_r..| |].
    + by apply Forall_delete.
    + rewrite Eo, Hpd. f_equal. lia.
  - destruct (read_sleepers n acc o l l' ltac:(lia) R) as (T & Hs & Ho2).
    eapply inv_read_step; [exact Hinv|by apply flow_refl|done|exact T|done| |].
    + apply Forall_app. split; [by apply Forall_delete|done].
    + rewrite owed_app. lia.
Qed.

Lemma owed_cons t ts : owed (t :: ts) = owes t + owed ts.
Proof using. done. Qed.

Lemma step_inv_get key xb n o l l' ts h :
  inv (System l ts, h) -> serial_get_config key xb (Some n) l = Some (o, l') ->
  inv (System l' (ts ++ sleeps o l'), asked_h key l h).
Proof using.
  intros Hinv E. destruct (inv_line _ Hinv) as (Hok & Ho & Hi & _). cbn in Hok, Ho, Hi.
  destruct (wp_run _ _ _ _ _ (get_config_ok key xb (Some n) l Hok Ho Hi ltac:(by eexists)) E) as (A & _ & Ha).
  eapply inv_asked_step; [exact Hinv|exact A| |].
  - apply Forall_app. split; [apply Hinv|]. destruct o as [r|k]; [done|]. destruct Ha as (_ & -> & _). by constructor.
  - rewrite owed_app. destruct o as [r|k]; [cbn; unfold owed; cbn; lia|]. destruct Ha as (_ & -> & _). unfold owed; cbn; lia.
Qed.

Lemma asked_inv_same l l' ts ts' h :
  inv (System l ts, h) -> asked false false l l' -> Forall (fun t => sleeper_ok t.1) ts' -> owed ts' = owed ts -> inv (System l' ts', h).
Proof using. intros Hinv A Ht Ho. exact (inv_asked_step 0 l l' ts ts' h Hinv A Ht Ho). Qed.

Lemma step_inv_drain_go i ok res t o l l' ts h :
  inv (System l ts, h) -> ts !! i = Some (SDrain res, t) -> drain_resume ok res l = Some (o, l') ->
  inv (System l' (delete i ts ++ sleeps o l'), h).
Proof using.
  intros Hinv Hi E. destruct (inv_line _ Hinv) as (Hok & _). cbn in Hok.
  destruct (wp_run _ _ _ _ _ (drain_ok _ l Hok) E) as (A & _ & Ha). pose proof (owed_delete _ _ _ Hi) as Ho. cbn in Ho.
  pose proof (inv_asleep _ Hinv) as Hts. cbn in Hts. eapply asked_inv_same; [exact Hinv|exact A| |].
  - apply Forall_app. split; [by apply Forall_delete|]. destruct o as [r|k]; [done|]. destruct Ha as [-> _]. by constructor.
  - rewrite owed_app, Ho. destruct o as [r|k]; [cbn; unfold owed; cbn; lia|]. destruct Ha as [-> _]. unfold owed; cbn; lia.
Qed.

Lemma block_in_turn bs sp i l l1 l' ts h :
  inv (System l ts, h) -> serial_data_rcv_req (Z.of_nat (length bs)) l = Some (CYG_RCV_OK sp i, l1) ->
  serial_data_rcv_done sp (filled (take (Z.to_nat sp) bs) l1) = Some (tt, l') ->
  turn l (take (Z.to_nat sp) bs) [] l'.
Proof using.
  intros Hinv E1 E2. destruct (inv_line _ Hinv) as (Hok & _ & Hl & _). cbn in Hok, Hl.
  destruct (wp_run _ _ _ _ _ (rcv_req_ok (Z.of_nat (length bs)) l Hok Hl ltac:(lia)) E1) as [T1 (Hs & Hi & Hsp & _ & Hp & Hn)].
  assert (Z.of_nat (length (take (Z.to_nat sp) bs)) = sp) as El by (rewrite length_take; lia).
  destruct (flow_len _ _ _ _ _ (turn_flow _ _ _ _ T1)) as (_ & _ & E3 & _).
  rewrite Hi in Hp. rewrite <- El in Hp, Hn. rewrite <- El in E2 at 1.
  pose proof (wp_run _ _ _ _ _ (rcv_done_ok _ l1 (turn_ok _ _ _ _ T1) ltac:(congruence) Hp Hn) E2) as T2.
  exact (turn_trans _ _ _ _ _ _ _ T1 T2).
Qed.

Lemma block_out_turn space k i d l l1 l' ts h :
  inv (System l ts, h) -> 0 <= space -> serial_data_xmt_req space l = Some (CYG_XMT_OK k i, l1) ->
  dev_ok d -> fifo d = fifo (dev l1) ++ take (Z.to_nat k) (drop (Z.to_nat i) (data (out_cbuf (chan l1)))) ->
  framed d = framed (dev l1) -> serial_data_xmt_done k (set_dev d l1) = Some (tt, l') -> turn l [] [] l'.
Proof using.
  intros Hinv Hsp E1 Hd Hf Hfr E2. destruct (inv_line _ Hinv) as (Hok & Hl & _). cbn in Hok, Hl.
  destruct (wp_run _ _ _ _ _ (xmt_req_ok _ l Hok Hl Hsp) E1) as (S1 & (_ & _ & -> & Hk & _ & Hg & Hn) & ->).
  destruct (ok_out _ Hok) as [[? _]|Hr]; [done|].
  pose proof (ring_front _ k Hr ltac:(lia) Hg) as Eq. rewrite <- Eq in Hf.
  exact (wp_run _ _ _ _ _ (xmt_done_ok k d l Hok Hl ltac:(lia) Hg Hd Hf Hfr) E2).
Qed.

Lemma step_inv_dev d ws l ts h :
  inv (System l ts, h) -> dev_ok d -> fifo (dev l) = ws ++ fifo d -> inv (System (set_dev d l) ts, wired_h ws h).
Proof using.
  intros [(Hok & H1 & H2 & H3) (ds & Hw & Ho) Hi Ht Hp] Hd Hf. cbn in *. split; cbn; try done.
  - split_and!; try done. by destruct Hok; split.
  - exists ds. by rewrite <- app_assoc, <- Hf.
Qed.

Lemma step_keeps_inv e s s' : inv s -> step e s s' -> inv s'.
Proof using.
  intros Hinv St. destruct St.
  - by eapply step_inv_write.
  - by eapply step_inv_write_go.
  - by eapply step_inv_read.
  - by eapply step_inv_read_go.
  - by eapply step_inv_get.
  - by eapply step_inv_drain_go.
  - destruct (set_config_ok _ _ _ _ _ _ (proj1 (inv_line _ Hinv)) ltac:(by eexists) H) as [A _].
    eapply asked_inv_same; [exact Hinv|exact A|apply Hinv|done].
  - eapply inv_turn_same; [exact Hinv|]. apply (wp_run _ _ _ _ _ (select_ok which info l (proj1 (inv_line _ Hinv))) H).
  - eapply inv_turn_same; [exact Hinv|]. apply sends_turn, (sending_run _ _ _ _ sending_xmt (proj1 (inv_line _ Hinv)) H).
  - pose proof (wp_run _ _ _ _ _ (rcv_char_ok c l (proj1 (inv_line _ Hinv))) H) as T.
    eapply inv_turn_step; [exact Hinv|exact T|cbn; by rewrite ?app_nil_r..].
  - eapply inv_turn_same; [exact Hinv|].
    apply (wp_run _ _ _ _ _ (reports_ok which (Some v) l (proj1 (inv_line _ Hinv)) ltac:(by eexists)) H).
  - eapply inv_turn_step; [exact Hinv|by eapply block_in_turn|cbn; by rewrite ?app_nil_r..].
  - eapply inv_turn_same; [exact Hinv|by eapply block_out_turn].
  - by apply step_inv_dev.
Qed.

Lemma fresh_inv l : fresh l -> inv (System l [], History [] [] [] []).
Proof using.
  intros (Hok & H1 & H2 & H3 & Ho & Hi & Hf & Hp & _). split; cbn; try done.
  - exists []. rewrite Hf, Ho. split; [constructor|done].
Qed.

Lemma reachable_inv P s : reachable P s -> inv s.
Proof using. induction 1; [by apply fresh_inv|by eapply step_keeps_inv]. Qed.
End Run.
