(* ===== verification/SerialWake.v ===== *)
(** * The serial driver: nobody sleeps for ever unnoticed

    In blocking mode, when no thread is released by force and none drains the output, a
    thread that sleeps on a buffer has been told to go on, or the buffer knows that
    somebody waits; so the interrupt that makes room, or brings a character, wakes it. *)
From S2P Require Import Prelude Serial SerialSpec SerialOps SerialWrite SerialRead SerialConf SerialRun.

(** The tickets [ts] of the sleepers of a buffer. *)
Definition alert (b : cbuf_t) (ts : list nat) : Prop :=
  Forall (fun t => t <= wait b)%nat ts /\
  (waiting b = true \/ Forall (fun t => t < wait b)%nat ts) /\
  (abort b = true -> Forall (fun t => t < wait b)%nat ts).

Section Alert.
Implicit Types b : cbuf_t.

Lemma tickets_le b b' ts : (wait b <= wait b')%nat -> Forall (fun t => t < wait b)%nat ts -> Forall (fun t => t < wait b')%nat ts.
Proof. intros H Ht. eapply Forall_impl; [exact Ht|]. cbn. lia. Qed.

Lemma tickets_lt b b' ts : (wait b < wait b')%nat -> Forall (fun t => t <= wait b)%nat ts -> Forall (fun t => t < wait b')%nat ts.
Proof. intros H Ht. eapply Forall_impl; [exact Ht|]. cbn. lia. Qed.

Lemma alert_rouses b b' ts : rouses_all b b' -> alert b ts -> alert b' ts.
Proof.
  intros [[Hw Hr] Ha] (H1 & H2 & H3). split_and!.
  - eapply Forall_impl; [exact H1|]. cbn. lia.
  - destruct H2 as [H2|H2]; [|right; by eapply tickets_le]. destruct (Hr H2) as [?|?]; [by left|right; by eapply tickets_lt].
  - intros E. destruct (Ha E) as [?|?]; [eapply tickets_le; [exact Hw|auto]|by eapply tickets_lt].
Qed.

Lemma alert_same b b' ts : rouses b b' -> (abort b' = true -> abort b = true) -> alert b ts -> alert b' ts.
Proof. intros R H. apply alert_rouses. split; auto. Qed.

(** Whoever was told stays told, whatever becomes of the flags. *)
Lemma alert_told b b' ts : (wait b <= wait b')%nat -> Forall (fun t => t < wait b)%nat ts -> alert b' ts.
Proof.
  intros Hw Ht. pose proof (tickets_le _ _ _ Hw Ht) as H. split_and!; auto. eapply Forall_impl; [exact H|]. cbn. lia.
Qed.

Lemma alert_sub b ts ts' : (forall t, t ∈ ts' -> t ∈ ts) -> alert b ts -> alert b ts'.
Proof.
  intros Hs (H1 & H2 & H3). rewrite Forall_forall in H1. setoid_rewrite Forall_forall in H2. setoid_rewrite Forall_forall in H3.
  split_and!; [rewrite Forall_forall; auto|destruct H2 as [?|H2]; [by left|right; rewrite Forall_forall; auto]|].
  intros E. rewrite Forall_forall. intros t Ht. apply H3; auto.
Qed.

(** Somebody falls asleep. *)
Lemma alert_sleep b ts : waiting b = true -> abort b = false -> alert b ts -> alert b (ts ++ [wait b]).
Proof.
  intros Hw Ha (H1 & H2 & H3). split_and!; [|by left|congruence]. apply Forall_app. split; [done|]. by constructor.
Qed.
End Alert.

Section Wake.
Context `{Opts : SerialOptions} `{Laws : SerialLaws}.
Implicit Types (l : line).

Definition reads (k : sleeper) : bool := match k with SRead _ _ _ => true | _ => false end.
Definition tickets (r : bool) (ts : list (sleeper * nat)) : list nat := snd <$> filter (fun t => reads t.1 = r) ts.

#[local] Arguments tickets : simpl never.
#[local] Arguments alert : simpl never.

(** No forced release, no change of the blocking mode, no draining. *)
Definition civil (e : event) : Prop :=
  match e with
  | EWriteGo _ ok | EReadGo _ ok => ok = true
  | EDrainGo _ _ => False
  | EGet key _ _ => key <> CYG_IO_GET_CONFIG_SERIAL_OUTPUT_DRAIN
  | ESet key _ _ => key <> CYG_IO_SET_CONFIG_READ_BLOCKING /\ key <> CYG_IO_SET_CONFIG_WRITE_BLOCKING
  | _ => True
  end.

Record watched (s : system) : Prop := {
  watched_modes : modes (ln s) = (true, true);
  watched_out : alert (out_cbuf (chan (ln s))) (tickets false (asleep s));
  watched_in : alert (in_cbuf (chan (ln s))) (tickets true (asleep s)) }.

Lemma tickets_app r ts1 ts2 : tickets r (ts1 ++ ts2) = tickets r ts1 ++ tickets r ts2.
Proof using. unfold tickets. by rewrite filter_app, fmap_app. Qed.

Lemma tickets_delete r i ts t : t ∈ tickets r (delete i ts) -> t ∈ tickets r ts.
Proof using.
  unfold tickets. rewrite !list_elem_of_fmap. intros (x & -> & (Hx & Hi)%list_elem_of_filter). exists x. split; [done|].
  apply list_elem_of_filter. split; [done|]. by eapply list_elem_of_delete_inv.
Qed.

Lemma watched_delete i l ts : watched (System l ts) -> watched (System l (delete i ts)).
Proof using.
  intros [? Ho Hi]. split; [done|..]; cbn in *; (eapply alert_sub; [|done]); intros t; apply tickets_delete.
Qed.

(** A step that forgets nobody. *)
Lemma watched_asked l l' ts co ci : watched (System l ts) -> asked co ci l l' -> modes l' = modes l -> watched (System l' ts).
Proof using.
  intros [Hm Ho Hi] A Hm'. destruct (asked_rouses _ _ _ _ A) as [R1 R2]. split; cbn in *; [congruence|by eapply alert_rouses..].
Qed.

Lemma watched_turn l s r l' ts : watched (System l ts) -> turn l s r l' -> watched (System l' ts).
Proof using.
  intros [Hm Ho Hi] [? ? ? ? [E1 E2] [A1 A2]]. split; cbn in *.
  - unfold modes in *. congruence.
  - eapply alert_same; [done| |done]. congruence.
  - eapply alert_same; [done| |done]. congruence.
Qed.

Lemma watched_sends l l' ts : watched (System l ts) -> sends l l' -> watched (System l' ts).
Proof using. intros H S%sends_turn. by eapply watched_turn. Qed.

(** A write, from a state in which nobody was aborted. *)
Lemma watched_wrote l n size buf o l' ts :
  watched (System l ts) -> abort (out_cbuf (chan l)) = false -> wrote l n size buf o l' ->
  watched (System l' (ts ++ sleeps o l')).
Proof using.
  intros [Hm Ho Hi] Ha (k & Hk & He & Hw). unfold modes in Hm. cbn in *. injection Hm as Hbi Hbo. destruct o as [r|s].
  - destruct Hw as [St Hr]. rewrite app_nil_r. split; cbn.
    + unfold modes. rewrite (st_in _ _ _ St), (st_blocking _ _ _ St). congruence.
    + eapply alert_same; [by apply Hr|apply St|done].
    + by rewrite (st_in _ _ _ St).
  - destruct Hw as (l2 & R & Hwt & ->). destruct He as (_ & _ & ->). split; cbn.
    + unfold modes. cbn. rewrite (runs_in _ _ _ R), (runs_blocking _ _ _ R). congruence.
    + rewrite tickets_app. cbn. apply alert_sleep; [done|cbn; by rewrite (runs_abort _ _ _ R)|].
      eapply (alert_same (out_cbuf (chan l))); [apply (runs_rouses _ _ _ R)|cbn; by rewrite (runs_abort _ _ _ R)|done].
    + rewrite tickets_app. cbn. rewrite app_nil_r. by rewrite (runs_in _ _ _ R).
Qed.

Lemma watched_read l n acc o l' ts :
  watched (System l ts) -> abort (in_cbuf (chan l)) = false -> has_read l n acc o l' ->
  watched (System l' (ts ++ sleeps o l')).
Proof using.
  intros W Ha (r & T & He). pose proof (watched_turn _ _ _ _ _ W T) as W'. destruct o as [[[? ?] ?]|s]; cbn in *; [by rewrite app_nil_r|].
  destruct He as (_ & _ & _ & -> & Hw). destruct W' as [Hm Ho Hi]. cbn in *. split; cbn; [done|..]; rewrite tickets_app; cbn.
  - by rewrite app_nil_r.
  - apply alert_sleep; [done| |done]. destruct (turn_aborts _ _ _ _ T). congruence.
Qed.

Lemma step_watched_write_go i n size buf t o l l' ts h :
  inv (System l ts, h) -> watched (System l ts) -> ts !! i = Some (SWrite n size buf, t) ->
  serial_write_resume true n size buf l = Some (o, l') -> watched (System l' (delete i ts ++ sleeps o l')).
Proof using.
  intros Hinv W Hi E. pose proof (inv_asleep _ Hinv) as Hts. pose proof (Forall_lookup_1 _ _ _ _ Hts Hi) as (Hs & Hn & Hb). cbn in *.
  destruct (wp_run _ _ _ _ _ (serial_write_resumes true l n size buf (inv_ready _ _ _ size buf Hinv ltac:(lia) Hb) ltac:(lia)) E) as [Hw Hab].
  apply (watched_delete i) in W. assert (watched (System (resumed true size l) (delete i ts))) as W' by by destruct W.
  destruct (abort (out_cbuf (chan l))) eqn:Ha; [|by eapply watched_wrote].
  rewrite Hab in Hw |- * by done. destruct Hw as (k & _ & _ & St & _). destruct W' as [Hm Ho Hi']. cbn. rewrite app_nil_r. split; cbn in *.
  - unfold modes in *. rewrite (st_in _ _ _ St), (st_blocking _ _ _ St). done.
  - eapply alert_told; [apply (st_wait _ _ _ St)|]. by apply Ho.
  - by rewrite (st_in _ _ _ St).
Qed.

Lemma step_watched_read_go i n size acc t o l l' ts h :
  inv (System l ts, h) -> watched (System l ts) -> ts !! i = Some (SRead n size acc, t) ->
  serial_read_resume true n size acc l = Some (o, l') -> watched (System l' (delete i ts ++ sleeps o l')).
Proof using.
  intros Hinv W Hi E. pose proof (inv_asleep _ Hinv) as Hts. pose proof (Forall_lookup_1 _ _ _ _ Hts Hi) as [-> Hlt]. cbn in *.
  apply (watched_delete i) in W. destruct (abort (in_cbuf (chan l))) eqn:Ha.
  - unfold serial_read_resume in E. unfold mbind at 1 2, M_bind, mret, M_ret, get_state in E. rewrite Ha in E. injection E as <- <-.
    rewrite app_nil_r. destruct W as [Hm Ho Hi']. split; cbn in *; [done|done|]. eapply alert_told; [|by apply Hi']. done.
  - pose proof (wp_run _ _ _ _ _ (serial_read_resumes true n acc l (proj1 (inv_line _ Hinv)) ltac:(lia)) E) as R.
    cbn [in_resumed] in R. rewrite Ha in R. by eapply watched_read.
Qed.

Ltac run_of E := match goal with H : _ = Some (_, _) |- _ => rename H into E end.

Lemma step_watched e s s' h h' : civil e -> inv (s, h) -> watched s -> step e (s, h) (s', h') -> watched s'.
Proof using.
  intros Hc Hinv W St. inversion St; subst; clear St; cbn in Hc.
  - run_of E. assert (write_ready l n buf) as Hr by by eapply inv_ready.
    pose proof (wp_run _ _ _ _ _ (serial_write_start polls l n buf Hr) E) as Hw.
    eapply (watched_wrote (unaborted l)); [|done|exact Hw]. destruct W as [Hm (? & ? & ?) Hi]. by split.
  - subst. by eapply step_watched_write_go.
  - run_of E. destruct (inv_line _ Hinv) as (Hok & _ & Hl & _). cbn in Hok, Hl.
    pose proof (wp_run _ _ _ _ _ (serial_read_start n l Hok Hl ltac:(lia)) E) as R.
    eapply (watched_read (in_unaborted l)); [|done|exact R]. destruct W as [Hm Ho (? & ? & ?)]. by split.
  - subst. by eapply step_watched_read_go.
  - run_of E. destruct (inv_line _ Hinv) as (Hok & Hlo & Hli & _). cbn in Hok, Hlo, Hli.
    destruct (wp_run _ _ _ _ _ (get_config_ok key xb (Some n) l Hok Hlo Hli ltac:(by eexists)) E) as (A & Hm & Ha).
    destruct o as [r|k]; [|by destruct Ha]. cbn. rewrite app_nil_r. by eapply watched_asked.
  - done.
  - run_of E. destruct (set_config_ok _ _ _ _ _ _ (proj1 (inv_line _ Hinv)) ltac:(by eexists) E) as [A Hm].
    eapply watched_asked; [exact W|exact A|]. by apply Hm; apply Hc.
  - run_of E. eapply watched_turn; [exact W|]. apply (wp_run _ _ _ _ _ (select_ok which info l (proj1 (inv_line _ Hinv))) E).
  - run_of E. eapply watched_sends; [exact W|]. apply (sending_run _ _ _ _ sending_xmt (proj1 (inv_line _ Hinv)) E).
  - run_of E. eapply watched_turn; [exact W|]. apply (wp_run _ _ _ _ _ (rcv_char_ok c l (proj1 (inv_line _ Hinv))) E).
  - run_of E. eapply watched_turn; [exact W|].
    apply (wp_run _ _ _ _ _ (reports_ok which (Some v) l (proj1 (inv_line _ Hinv)) ltac:(by eexists)) E).
  - eapply watched_turn; [exact W|]. by eapply block_in_turn.
  - eapply watched_turn; [exact W|]. by eapply block_out_turn.
  - by destruct W.
Qed.
End Wake.
