(* ===== verification/SerialFlow.v ===== *)
(** * The serial driver: the sender is not stopped for ever

    The water marks, and the throttling of the receiver: as long as nobody forces flow
    control, a receiver that has told its peer to stop holds at least as many bytes as
    the low mark, so that a reader who empties the buffer lets the peer go on. *)
From S2P Require Import Prelude Serial SerialSpec SerialOps SerialWrite SerialRead SerialConf SerialRun.

Section Marks.
Context `{Opts : SerialOptions}.

(** The water marks for the percentages io_serial.cdl allows. *)
Lemma in_marks_ok n lo hi :
  1 <= LOW_WATER_PERCENT <= 100 -> 1 <= HIGH_WATER_PERCENT <= 100 -> 0 < n -> in_marks n = (lo, hi) ->
  0 <= lo <= hi /\ 1 <= hi <= n /\ (35 < n -> 35 <= n - hi) /\ (100 <= LOW_WATER_PERCENT * n -> 1 <= lo).
Proof using.
  intros HL HH Hn. unfold in_marks. rewrite !Z.quot_div_nonneg by lia.
  pose proof (div_bounds (LOW_WATER_PERCENT * n) 100 ltac:(lia)). pose proof (div_bounds (HIGH_WATER_PERCENT * n) 100 ltac:(lia)).
  set (l := LOW_WATER_PERCENT * n / 100) in *. set (h := HIGH_WATER_PERCENT * n / 100) in *.
  assert (0 <= l) by nia. assert (0 <= h <= n) by nia.
  repeat case_goal; intros [= <- <-]; bool_lia.
Qed.
End Marks.

Section Flow.
Context `{Opts : SerialOptions} `{Laws : SerialLaws}.
Implicit Types (l : line).

(** What the throttling of the receiver depends on. *)
Definition receiver l : bool * (Z * Z * Z) :=
  (in_throttled l, (nb (in_cbuf (chan l)), low_water (in_cbuf (chan l)), high_water (in_cbuf (chan l)))).

(** Throttled only with something to read; [strict]: more than the mark. *)
Definition held (strict : bool) l : Prop :=
  low_water (in_cbuf (chan l)) <= high_water (in_cbuf (chan l)) /\
  (in_throttled l = true -> low_water (in_cbuf (chan l)) + (if strict then 1 else 0) <= nb (in_cbuf (chan l))).

Lemma held_receiver b l l' : receiver l' = receiver l -> held b l -> held b l'.
Proof using. unfold receiver, held. by intros [= -> -> -> ->]. Qed.

Lemma held_weaken b l : held b l -> held false l.
Proof using. intros [? H]. split; [done|]. intros E. specialize (H E). destruct b; lia. Qed.

Lemma keeps_receiver {A} b (m : M line A) : preserves receiver m -> keeps (held b) (held b) m.
Proof using. intros Hm l a l' Hl E. eapply held_receiver; [by eapply Hm|done]. Qed.

(** ** What leaves the receiver alone *)
Lemma receiver_flow l f : (forall w, flag (f w) CYG_SERIAL_FLOW_IN_THROTTLED = flag w CYG_SERIAL_FLOW_IN_THROTTLED) ->
  receiver (set_flow f l) = receiver l.
Proof using. intros H. unfold receiver, in_throttled. cbn. by rewrite H. Qed.

Lemma out_flag_on w : flag (set_flag CYG_SERIAL_FLOW_OUT_THROTTLED w) CYG_SERIAL_FLOW_IN_THROTTLED = flag w CYG_SERIAL_FLOW_IN_THROTTLED.
Proof using.
  unfold flag, set_flag. rewrite Z.land_lor_distr_l.
  change (Z.land CYG_SERIAL_FLOW_OUT_THROTTLED CYG_SERIAL_FLOW_IN_THROTTLED) with 0. by rewrite Z.lor_0_r.
Qed.

Lemma out_flag_off w : flag (clear_flag CYG_SERIAL_FLOW_OUT_THROTTLED w) CYG_SERIAL_FLOW_IN_THROTTLED = flag w CYG_SERIAL_FLOW_IN_THROTTLED.
Proof using.
  unfold flag, clear_flag. rewrite <- Z.land_assoc.
  change (Z.land (u32 (Z.lnot CYG_SERIAL_FLOW_OUT_THROTTLED)) CYG_SERIAL_FLOW_IN_THROTTLED) with CYG_SERIAL_FLOW_IN_THROTTLED. done.
Qed.

Lemma in_flag_on w : flag (set_flag CYG_SERIAL_FLOW_IN_THROTTLED w) CYG_SERIAL_FLOW_IN_THROTTLED = true.
Proof using.
  unfold flag, set_flag. rewrite Z.land_lor_distr_l. change (Z.land CYG_SERIAL_FLOW_IN_THROTTLED CYG_SERIAL_FLOW_IN_THROTTLED) with 2.
  apply negb_true_iff, Z.eqb_neq. intros E. apply (f_equal (fun x => Z.testbit x 1)) in E. rewrite Z.lor_spec in E.
  change (Z.testbit 2 1) with true in E. rewrite orb_true_r in E. done.
Qed.

Lemma in_flag_off w : flag (clear_flag CYG_SERIAL_FLOW_IN_THROTTLED w) CYG_SERIAL_FLOW_IN_THROTTLED = false.
Proof using.
  unfold flag, clear_flag. rewrite <- Z.land_assoc.
  change (Z.land (u32 (Z.lnot CYG_SERIAL_FLOW_IN_THROTTLED)) CYG_SERIAL_FLOW_IN_THROTTLED) with 0. by rewrite Z.land_0_r.
Qed.

Lemma receiver_call {A} (m : M hw A) : preserves receiver (call m).
Proof using. intros l a l'. unfold call. destruct (m (dev l)) as [[x h]|]; [|done]. by intros [= _ <-]. Qed.

Lemma receiver_config key x n : preserves receiver (call_config key x n).
Proof using. intros l a l'. unfold call_config. destruct (hw_config _ _ _ _) as [[? [? ?]]|]; [|done]. by intros [= _ <-]. Qed.

Lemma receiver_out f : preserves receiver (modify (set_out f)).
Proof using. by apply preserves_modify. Qed.

Lemma receiver_xchar x : preserves receiver (modify (set_xchar x)).
Proof using. by apply preserves_modify. Qed.

Lemma receiver_fetch d i : preserves receiver (fetch d i).
Proof using. unfold fetch. destruct (i <? 0); [apply preserves_crash|]. destruct (d !! _); [apply preserves_ret|apply preserves_crash]. Qed.

Lemma receiver_stop : preserves receiver hw_stop.
Proof using. unfold hw_stop. destruct hw_stop_xmit; [apply receiver_call|apply preserves_crash]. Qed.

#[local] Hint Resolve receiver_call receiver_config receiver_out receiver_xchar receiver_fetch receiver_stop : ecos.

Lemma receiver_xmt_chars n : preserves receiver (xmt_chars n).
Proof using. induction n; cbn [xmt_chars]; preserves_steps. Qed.
#[local] Hint Resolve receiver_xmt_chars : ecos.

Lemma receiver_xmt_char : preserves receiver serial_xmt_char.
Proof using. unfold serial_xmt_char, xmt_xchar. preserves_steps. Qed.
#[local] Hint Resolve receiver_xmt_char : ecos.

Lemma receiver_start : preserves receiver start_xmit.
Proof using. unfold start_xmit. preserves_steps. Qed.
#[local] Hint Resolve receiver_start : ecos.

Lemma receiver_throttle_tx : preserves receiver throttle_tx.
Proof using. apply preserves_modify. intros l. apply receiver_flow, out_flag_on. Qed.

Lemma receiver_restart_tx : preserves receiver restart_tx.
Proof using.
  unfold restart_tx. apply preserves_bind; [apply preserves_modify; intros l; apply receiver_flow, out_flag_off|]. intros _. preserves_steps.
Qed.
#[local] Hint Resolve receiver_throttle_tx receiver_restart_tx : ecos.

Lemma receiver_send force c x : preserves receiver (send_xchar force c x).
Proof using. unfold send_xchar. preserves_steps. Qed.

Lemma receiver_hw force i : preserves receiver (hw_rx_throttle force i).
Proof using. unfold hw_rx_throttle. preserves_steps. Qed.
#[local] Hint Resolve receiver_send receiver_hw : ecos.

Lemma receiver_put_out c : preserves receiver (put_out c).
Proof using. intros l a l'. unfold put_out. destruct (store _ _ _); [|done]. by intros [= _ <-]. Qed.

Lemma receiver_write_done r n : preserves receiver (write_done r n).
Proof using. unfold write_done. preserves_steps. Qed.
#[local] Hint Resolve receiver_put_out receiver_write_done : ecos.

Lemma receiver_write_loop n k : forall size buf, preserves receiver (write_loop k n size buf).
Proof using.
  induction k as [|k IH]; intros size buf; cbn [write_loop]; unfold write_full, write_abort; preserves_steps; apply IH.
Qed.

Lemma receiver_write_go ok n size buf : preserves receiver (serial_write_resume ok n size buf).
Proof using.
  unfold serial_write_resume, write_abort. pose proof (fun s => receiver_write_loop n (write_fuel s) s buf) as H.
  preserves_steps; apply H.
Qed.

Lemma receiver_putc_wait k c : preserves receiver (putc_wait k c).
Proof using. induction k; cbn [putc_wait]; preserves_steps. Qed.
#[local] Hint Resolve receiver_putc_wait : ecos.

Lemma receiver_write polls buf n : preserves receiver (serial_write polls buf n).
Proof using.
  assert (forall k b, preserves receiver (write_polled polls k b)) as Hp.
  { induction k as [|k IH]; intros b; cbn [write_polled]; preserves_steps; apply IH. }
  unfold serial_write. apply preserves_bind; [apply receiver_out|]. intros _. apply preserves_bind; [apply preserves_get|]. intros l.
  destruct (_ =? 0); [|apply receiver_write_loop]. apply preserves_bind; [apply Hp|]. intros _. apply preserves_ret.
Qed.

Lemma receiver_status which v : preserves receiver (serial_indicate_status which v).
Proof using. unfold serial_indicate_status. preserves_steps. Qed.
#[local] Hint Resolve receiver_status : ecos.

(** ** Throttling *)
Lemma keeps_throttle : keeps (fun l => held false l /\ high_water (in_cbuf (chan l)) <= nb (in_cbuf (chan l))) (held false) (throttle_rx false).
Proof using.
  apply keeps_read. intros l0 _. apply (keeps_bind _ (held false)).
  - apply keeps_modify. intros l [[H1 H2] H3]. split; [done|]. intros _. cbn. lia.
  - intros _. apply keeps_receiver. preserves_steps.
Qed.

Lemma restart_clears l a l' : restart_rx false l = Some (a, l') -> receiver l' = (false, snd (receiver l)).
Proof using.
  intros E. unfold restart_rx in E. unfold mbind, M_bind in E. cbn [get_state modify] in E.
  set (l1 := set_flow _ l) in *. assert (receiver l1 = (false, snd (receiver l))) as H1.
  { unfold receiver, in_throttled. cbn. by rewrite in_flag_off. }
  destruct (send_xchar _ _ _ l1) as [[u l2]|] eqn:E2; [|done]. apply receiver_send in E2. apply receiver_hw in E. congruence.
Qed.

(** A reader takes a byte only from above the mark, or lets the peer go on first. *)
Lemma keeps_take : keeps (held true) (held false) take_in.
Proof using.
  apply keeps_read. intros l0 _. apply (keeps_bind _ (held true)).
  - apply keeps_receiver, receiver_fetch.
  - intros c. apply (keeps_bind _ (held false)); [|intros; apply keeps_ret]. apply keeps_modify. intros l [H1 H2].
    split; [done|]. intros E. specialize (H2 E). cbn in *. lia.
Qed.

Lemma keeps_restart l : held false l -> keeps (fun l1 => l1 = l) (held true)
  (if (nb (in_cbuf (chan l)) <=? low_water (in_cbuf (chan l))) && in_throttled l then restart_rx false else mret tt).
Proof using.
  intros [H1 H2] l1 a l' ->. destruct (_ && _) eqn:E.
  - intros R%restart_clears. unfold receiver in R. injection R as R1 R2 R3 R4. split; [by rewrite R3, R4|]. by rewrite R1.
  - intros [= _ <-]. split; [done|]. intros Ht. rewrite Ht, andb_true_r in E. bool_lia.
Qed.

Lemma keeps_same {A} l (a : A) b : held b l -> keeps (fun l1 => l1 = l) (held b) (mret a).
Proof using. intros Hl l1 x l' ->. by intros [= _ <-]. Qed.

Lemma keeps_read_loop n k : forall size acc, keeps (held false) (held false) (read_loop k n size acc).
Proof using.
  induction k as [|k IH]; intros size acc; cbn [read_loop]; (destruct (size <? n); [|apply keeps_ret]);
    apply keeps_get; intros l Hl; cbv zeta; (destruct (0 <? _); [|destruct (negb _); [by apply keeps_same|
      apply (keeps_bind _ (held false)); [intros l1 a l' ->; by intros [= _ <-]|intros; apply keeps_ret]]]).
  { apply keeps_crash. }
  apply (keeps_bind _ (held true)); [by apply keeps_restart|]. intros _.
  apply (keeps_bind _ (held false)); [apply keeps_take|]. intros c. apply IH.
Qed.

Lemma keeps_in_flags {A} f (k : M line A) b :
  (forall c, nb (f c) = nb c /\ low_water (f c) = low_water c /\ high_water (f c) = high_water c) ->
  keeps (held b) (held b) k -> keeps (held b) (held b) (_ ← modify (set_in f); k).
Proof using.
  intros Hf Hk. apply (keeps_bind _ (held b)); [|done]. apply keeps_modify. intros l. unfold held. cbn.
  destruct (Hf (in_cbuf (chan l))) as (-> & -> & ->). done.
Qed.

Lemma keeps_serial_read n : keeps (fun l => held false l /\ len (in_cbuf (chan l)) <> 0) (held false) (serial_read n).
Proof using.
  intros l a l' [Hl Hn]. unfold serial_read, mbind, M_bind. cbn [modify get_state].
  replace (len (in_cbuf (chan (set_in (set_abort false) l))) =? 0) with false by (cbn; lia). apply keeps_read_loop. exact Hl.
Qed.

Lemma keeps_read_go ok n size acc : keeps (held false) (held false) (serial_read_resume ok n size acc).
Proof using.
  unfold serial_read_resume. apply (keeps_bind _ (held false)).
  - destruct ok; [apply keeps_ret|]. by apply keeps_modify.
  - intros _. apply keeps_read. intros l Hl. destruct (abort _); [|apply keeps_read_loop].
    apply keeps_in_flags; [done|apply keeps_ret].
Qed.

(** ** Reception *)
Lemma keeps_high l : held false l -> keeps (fun l1 => l1 = l) (held false)
  (if high_water (in_cbuf (chan l)) <=? nb (in_cbuf (chan l)) then throttle_rx false else mret tt).
Proof using.
  intros Hl. destruct (Z.leb_spec (high_water (in_cbuf (chan l))) (nb (in_cbuf (chan l)))); [|by apply keeps_same].
  intros l1 a l' ->. by apply keeps_throttle.
Qed.

Lemma keeps_put_in c : keeps (held false) (held false) (put_in c).
Proof using.
  intros l a l' [H1 H2]. unfold put_in. destruct (store _ _ _); [|done]. intros [= _ <-]. split; [done|].
  intros E. specialize (H2 E). cbn in *. lia.
Qed.

Lemma wake_marks b : nb (wake_waiting b) = nb b /\ low_water (wake_waiting b) = low_water b /\ high_water (wake_waiting b) = high_water b.
Proof using. unfold wake_waiting. by destruct (waiting b). Qed.

Lemma keeps_in_flags_end f b :
  (forall c, nb (f c) = nb c /\ low_water (f c) = low_water c /\ high_water (f c) = high_water c) ->
  keeps (held b) (held b) (modify (set_in f)).
Proof using.
  intros Hf. apply keeps_modify. intros l. unfold held. cbn. destruct (Hf (in_cbuf (chan l))) as (-> & -> & ->). done.
Qed.

Lemma keeps_rcv_char c : keeps (held false) (held false) (serial_rcv_char c).
Proof using.
  apply keeps_get. intros l Hl.
  destruct (_ && (c =? XOFF_CHAR)); [intros l1 a l' ->; by apply (keeps_receiver false _ receiver_throttle_tx)|].
  destruct (_ && (c =? XON_CHAR)); [intros l1 a l' ->; by apply (keeps_receiver false _ receiver_restart_tx)|].
  apply (keeps_bind _ (held false)); [by apply keeps_high|]. intros _.
  apply keeps_in_flags; [intros b; by destruct (nb b =? 0)|]. apply keeps_read. intros l1 _. apply (keeps_bind _ (held false)).
  - destruct (_ <? _); [apply keeps_put_in|apply keeps_receiver, receiver_status].
  - intros _. apply keeps_in_flags_end, wake_marks.
Qed.

Lemma keeps_block_in bs sp i l l1 l' :
  line_ok l -> len (in_cbuf (chan l)) <> 0 -> held false l ->
  serial_data_rcv_req (Z.of_nat (length bs)) l = Some (CYG_RCV_OK sp i, l1) ->
  serial_data_rcv_done sp (filled (take (Z.to_nat sp) bs) l1) = Some (tt, l') -> held false l'.
Proof using Laws.
  intros Hok Hlen Hl E1 E2.
  destruct (wp_run _ _ _ _ _ (rcv_req_ok (Z.of_nat (length bs)) l Hok Hlen ltac:(lia)) E1) as [_ (_ & _ & Hsp & _)].
  assert (held false l1) as H1.
  { unfold serial_data_rcv_req, mbind, M_bind in E1. cbn [get_state] in E1. destruct (soft_flow l); [done|].
    destruct (_ =? len _); [done|]. destruct (nb (in_cbuf (chan l)) =? 0); cbn in E1; injection E1 as _ _ <-; exact Hl. }
  assert (held false (filled (take (Z.to_nat sp) bs) l1)) as H2 by done. revert E2 H2. generalize (filled (take (Z.to_nat sp) bs) l1).
  intros l2 E2 H2. revert E2. apply (keeps_bind (held false) (held false)); [|intros _; apply keeps_in_flags|exact H2].
  - apply keeps_modify. intros l3 [H3 H4]. split; [done|]. intros Ht. specialize (H4 Ht). cbn in *. lia.
  - apply wake_marks.
  - apply keeps_get. intros l3 H3. apply (keeps_bind _ (held false)); [by apply keeps_high|]. intros _.
    apply keeps_in_flags_end. intros c. by destruct (sp =? nb c).
Qed.

(** ** Requests *)
Lemma keeps_input_flush : keeps (held false) (held false) input_flush.
Proof using.
  assert (forall l l' a b, receiver l' = (b, snd (receiver l)) -> low_water (in_cbuf (chan l)) <= high_water (in_cbuf (chan l)) ->
    b = false -> held a l') as Hr.
  { intros l l' a b E Hle ->. unfold receiver in E. cbn in E. injection E as E1 _ E3 E4. split; [by rewrite E3, E4|]. by rewrite E1. }
  set (J := fun l => low_water (in_cbuf (chan l)) <= high_water (in_cbuf (chan l))).
  apply (keeps_bind _ J); [apply keeps_modify; intros l [H _]; unfold J; cbn; by destruct (waiting (in_cbuf (chan l)))|]. intros _.
  apply (keeps_bind _ J); [by apply keeps_modify|]. intros _.
  apply (keeps_bind _ J).
  { intros l a l' Hl E. apply receiver_config in E. unfold receiver in E. injection E as _ _ E3 E4. unfold J. by rewrite E3, E4. }
  intros _ l a l' Hl. unfold mbind, M_bind. cbn [get_state]. destruct (in_throttled l) eqn:E.
  - intros R%restart_clears. by eapply (Hr l).
  - intros [= _ <-]. eapply (Hr l l false false); try done. unfold receiver. by rewrite E.
Qed.

Lemma receiver_output_flush : preserves receiver output_flush.
Proof using. unfold output_flush. preserves_steps. Qed.

Lemma receiver_drain res : preserves receiver (drain res).
Proof using. unfold drain. preserves_steps. Qed.

Lemma receiver_fill n size f xb new : preserves receiver (fill n size f xb new).
Proof using. unfold fill. destruct n; [apply preserves_ret|apply preserves_crash]. Qed.
#[local] Hint Resolve receiver_output_flush receiver_drain receiver_fill : ecos.

Lemma keeps_serial_get key xb n : keeps (held false) (held false) (serial_get_config key xb n).
Proof using.
  assert (forall m : M line unit, keeps (held false) (held false) m ->
    keeps (held false) (held false) (_ ← m; mret (Done (ENOERR, n, xb)))) as Hdone.
  { intros m Hm. apply (keeps_bind _ (held false)); [done|]. intros _. apply keeps_ret. }
  apply keeps_read. intros l _. cbv zeta.
  destruct (key =? CYG_IO_GET_CONFIG_SERIAL_INFO); [apply keeps_receiver; eauto with ecos|].
  destruct (key =? CYG_IO_GET_CONFIG_SERIAL_BUFFER_INFO); [apply keeps_receiver; eauto with ecos|].
  destruct (key =? CYG_IO_GET_CONFIG_SERIAL_OUTPUT_DRAIN).
  { destruct (len (out_cbuf (chan l)) =? 0); [apply Hdone, keeps_ret|]. apply keeps_receiver. preserves_steps. }
  destruct (key =? CYG_IO_GET_CONFIG_SERIAL_INPUT_FLUSH).
  { apply Hdone. destruct (_ =? 0); [apply keeps_ret|apply keeps_input_flush]. }
  destruct (key =? CYG_IO_GET_CONFIG_SERIAL_ABORT).
  { apply Hdone, keeps_in_flags; [|apply keeps_receiver; eauto with ecos]. intros c. unfold abort_buffer. by destruct (len c =? 0). }
  destruct (key =? CYG_IO_GET_CONFIG_SERIAL_OUTPUT_FLUSH).
  { apply Hdone. destruct (_ =? 0); [apply keeps_ret|apply keeps_receiver; eauto with ecos]. }
  destruct (key =? CYG_IO_GET_CONFIG_READ_BLOCKING); [apply keeps_receiver; eauto with ecos|].
  destruct (key =? CYG_IO_GET_CONFIG_WRITE_BLOCKING); [apply keeps_receiver; eauto with ecos|]. apply keeps_ret.
Qed.

Lemma keeps_serial_set key xb n : key <> CYG_IO_SET_CONFIG_SERIAL_FLOW_CONTROL_FORCE ->
  keeps (held false) (held false) (serial_set_config key xb n).
Proof using.
  intros Hk. apply keeps_read. intros l _. cbv zeta.
  assert (forall (g : bool) (m : Z -> M line Z), (forall w, keeps (held false) (held false) (m w)) ->
    keeps (held false) (held false) match n with
      | Some k => if (k <? sizeof_uint32) || g then mret (- EINVAL, n, xb) else
          match xb with XWord w => res ← m w; mret (res, n, xb) | _ => crash end
      | None => crash end) as Hword.
  { intros g m Hm. destruct n as [k|]; [|apply keeps_crash]. destruct (_ || g); [apply keeps_ret|].
    destruct xb; try apply keeps_crash. apply (keeps_bind _ (held false)); [done|]. intros. apply keeps_ret. }
  assert (forall m : M line unit, keeps (held false) (held false) m -> keeps (held false) (held false) (_ ← m; mret ENOERR)) as Hd.
  { intros m Hm. apply (keeps_bind _ (held false)); [done|]. intros. apply keeps_ret. }
  destruct (key =? CYG_IO_SET_CONFIG_READ_BLOCKING); [apply Hword; intros w; by apply Hd, keeps_in_flags_end|].
  destruct (key =? CYG_IO_SET_CONFIG_WRITE_BLOCKING); [apply Hword; intros w; apply Hd, keeps_receiver, receiver_out|].
  destruct (key =? CYG_IO_SET_CONFIG_SERIAL_FLOW_CONTROL_METHOD).
  { apply Hword. intros w. apply keeps_receiver. unfold flow_method. preserves_steps. }
  destruct (Z.eqb_spec key CYG_IO_SET_CONFIG_SERIAL_FLOW_CONTROL_FORCE); [done|].
  destruct (key =? CYG_IO_SET_CONFIG_SERIAL_STATUS_CALLBACK).
  - destruct n as [k|]; [|apply keeps_crash]. destruct (k <? sizeof_callback); [apply keeps_ret|].
    destruct xb; try apply keeps_crash. apply (keeps_bind _ (held false)); [by apply keeps_modify|]. intros. apply keeps_ret.
  - apply keeps_receiver. preserves_steps.
Qed.

Lemma keeps_receiver_select which info : keeps (held false) (held false) (serial_select which info).
Proof using.
  unfold serial_select. apply keeps_read. intros l _. cbv zeta. destruct (which =? CYG_FREAD).
  - destruct (_ =? 0); [|apply keeps_ret]. by apply keeps_in_flags; [|apply keeps_ret].
  - apply keeps_receiver. preserves_steps.
Qed.

Lemma receiver_xmt_req space : preserves receiver (serial_data_xmt_req space).
Proof using. unfold serial_data_xmt_req. preserves_steps. Qed.

Lemma receiver_xmt_done k : preserves receiver (serial_data_xmt_done k).
Proof using. unfold serial_data_xmt_done. preserves_steps. Qed.

(** ** Every step *)
Definition unforced (e : event) : Prop :=
  match e with ESet key _ _ => key <> CYG_IO_SET_CONFIG_SERIAL_FLOW_CONTROL_FORCE | _ => True end.

Lemma step_held e s s' : unforced e -> inv s -> held false (ln s.1) -> step e s s' -> held false (ln s'.1).
Proof using.
  intros Hu Hinv Hl St. destruct (inv_line _ Hinv) as (Hok & Hlo & Hli & _). destruct St; cbn in *.
  - by eapply (keeps_receiver false _ (receiver_write polls buf n)).
  - by eapply (keeps_receiver false _ (receiver_write_go ok n size buf)).
  - by eapply keeps_serial_read.
  - by eapply keeps_read_go.
  - by eapply keeps_serial_get.
  - by eapply (keeps_receiver false _ (receiver_drain _)).
  - by eapply keeps_serial_set.
  - revert H. apply (keeps_receiver_select which info). exact Hl.
  - by eapply (keeps_receiver false _ receiver_xmt_char).
  - by eapply keeps_rcv_char.
  - by eapply (keeps_receiver false _ (receiver_status which (Some v))).
  - by eapply keeps_block_in.
  - eapply held_receiver; [|exact Hl]. transitivity (receiver l1); [|eapply receiver_xmt_req; done].
    by apply receiver_xmt_done in H4.
  - done.
Qed.

Lemma reachable_held P s : (forall e, P e -> unforced e) -> reachable P s -> held false (ln s.1).
Proof using.
  intros HP. induction 1 as [l (_ & _ & _ & _ & _ & _ & _ & _ & _ & _ & _ & _ & Hf & Hle)|e s s' He Hr IH St].
  - split; [done|]. cbn. unfold in_throttled. by rewrite Hf.
  - eapply step_held; [by apply HP|by eapply reachable_inv|done|done].
Qed.
End Flow.
