(* ===== verification/SerialPeer.v ===== *)
(** * The serial driver: what the peer is told

    With flow control by XON and XOFF the peer goes by the last of the two characters it
    has received. What it has been told, or will have been when everything on its way has
    arrived, is what the layer believes: it is stopped if and only if the receiver is
    throttled. *)
From S2P Require Import Prelude Serial SerialSpec SerialOps SerialWrite SerialRead SerialConf SerialRun SerialFlow.

(** From states of [I] every run ends with [R]. *)
Definition yields {S A} (I : S -> Prop) (m : M S A) (R : A -> S -> Prop) : Prop :=
  forall s a s', I s -> m s = Some (a, s') -> R a s'.

Section Yields.
Context {S A B : Type}.

Lemma yields_ret (I : S -> Prop) (a : A) R : (forall s, I s -> R a s) -> yields I (mret a) R.
Proof using. intros H s x s' Hs [= <- <-]. by apply H. Qed.

Lemma yields_bind (I J : S -> Prop) (m : M S A) (f : A -> M S B) R :
  keeps I J m -> (forall a, yields J (f a) R) -> yields I (m ≫= f) R.
Proof using.
  intros Hm Hf s b s' Hs. unfold mbind, M_bind. destruct (m s) as [[a s1]|] eqn:E; [|done]. apply Hf. by eapply Hm.
Qed.

Lemma yields_get (I : S -> Prop) (f : S -> M S B) R : (forall s, I s -> yields (fun s1 => s1 = s) (f s) R) -> yields I (get_state ≫= f) R.
Proof using. intros H s b s' Hs. unfold mbind, M_bind. cbn [get_state]. by apply H. Qed.

Lemma yields_read (I : S -> Prop) (f : S -> M S B) R : (forall s, yields I (f s) R) -> yields I (get_state ≫= f) R.
Proof using. intros H s b s' Hs. unfold mbind, M_bind. cbn [get_state]. by apply H. Qed.

Lemma yields_crash (I : S -> Prop) (R : A -> S -> Prop) : yields I crash R.
Proof using. by intros s a s'. Qed.
End Yields.

Section Peer.
Context `{Opts : SerialOptions} `{Laws : SerialLaws}.
(** The two characters differ, and 0 stands for none. *)
Context (chars_ok : XON_CHAR <> 0 /\ XOFF_CHAR <> 0 /\ XON_CHAR <> XOFF_CHAR).
(** A driver changes the flags of a line only when it is told to configure it. *)
Context (config_law : forall key x n i h r i' h', key <> CYG_IO_SET_CONFIG_SERIAL_INFO ->
  hw_config key x n (i, h) = Some (r, (i', h')) -> flags i' = flags i).
Implicit Types (l : line).

(** Whether the peer is stopped behind the next character. *)
Definition hears (stopped : bool) (c : byte) : bool :=
  if c =? XOFF_CHAR then true else if c =? XON_CHAR then false else stopped.
Definition plain (c : byte) : Prop := c <> XON_CHAR /\ c <> XOFF_CHAR.

(** The character of flow control that is to go first. *)
Definition pend l : list byte := if xchar (chan l) =? 0 then [] else [xchar (chan l)].

Lemma hears_plain q b : Forall plain q -> fold_left hears q b = b.
Proof using.
  intros H. revert b. induction H as [|c q [H1 H2] H IH]; intros b; [done|]. cbn. rewrite IH. unfold hears.
  by rewrite (proj2 (Z.eqb_neq _ _) H2), (proj2 (Z.eqb_neq _ _) H1).
Qed.

(** What is in the layer says [t] to a peer that has heard [b]. *)
Record speaks (b t : bool) l : Prop := {
  sp_dev : dev_ok (dev l);
  sp_buf : buf_ok (out_cbuf (chan l));
  sp_flag : has_config l CYGNUM_SERIAL_FLOW_XONXOFF_RX = true;
  sp_xchar : xchar (chan l) = 0 \/ xchar (chan l) = XON_CHAR \/ xchar (chan l) = XOFF_CHAR;
  sp_plain : Forall plain (outq l);
  sp_says : fold_left hears (fifo (dev l) ++ pend l) b = t }.

(** The layer and the peer agree. *)
Definition agrees (b : bool) l : Prop := speaks b (in_throttled l) l.

Definition sight l := (dev l, shape (out_cbuf (chan l)), flags (config (chan l)), xchar (chan l)).

Lemma speaks_sight b t l l' : sight l' = sight l -> speaks b t l -> speaks b t l'.
Proof using.
  unfold sight. intros E [H1 H2 H3 H4 H5 H6]. injection E as E1 E2 E3 E4 E5 E6 E7 E8 E9 E10.
  assert (shape (out_cbuf (chan l')) = shape (out_cbuf (chan l))) as Es by (unfold shape; congruence).
  split.
  - by rewrite E1.
  - by apply (shape_ok _ _ Es).
  - unfold has_config in *. by rewrite E9.
  - by rewrite E10.
  - unfold outq. by rewrite (shape_contents _ _ Es).
  - unfold pend. by rewrite E1, E10.
Qed.

Lemma agrees_same b l l' : sight l' = sight l -> in_throttled l' = in_throttled l -> agrees b l -> agrees b l'.
Proof using. unfold agrees. intros E ->. by apply speaks_sight. Qed.

Lemma agrees_keeps {A} b (m : M line A) :
  preserves receiver m -> (forall t, keeps (speaks b t) (speaks b t) m) -> keeps (agrees b) (agrees b) m.
Proof using.
  intros Hr Hs l a l' Hl E. unfold agrees. pose proof (f_equal fst (Hr _ _ _ E)) as Et. cbn in Et. rewrite Et.
  by eapply Hs.
Qed.

(** ** Sending *)
Lemma speaks_dev b t l h : dev_ok h -> fifo h = fifo (dev l) -> speaks b t l -> speaks b t (set_dev h l).
Proof using. intros Hd Hf [H1 H2 H3 H4 H5 H6]. split; try done. cbn. by rewrite Hf. Qed.

Lemma sight_out f l : shape (f (out_cbuf (chan l))) = shape (out_cbuf (chan l)) -> sight (set_out f l) = sight l.
Proof using. unfold sight. cbn. by intros ->. Qed.

Lemma speaks_out_flags b t f l : shape (f (out_cbuf (chan l))) = shape (out_cbuf (chan l)) -> speaks b t l -> speaks b t (set_out f l).
Proof using. intros H. by apply speaks_sight, sight_out. Qed.

Lemma shape_tell_room c : shape (tell_room c) = shape c.
Proof using. exact (f_equal fst (core_tell_room c)). Qed.
Lemma shape_wake c : shape (wake_waiting c) = shape c.
Proof using. exact (f_equal fst (core_wake c)). Qed.

(** A character that is not of flow control goes to the driver. *)
Lemma says_plain b l c h : plain c -> fifo h = fifo (dev l) ++ [c] -> fold_left hears (fifo h ++ pend l) b = fold_left hears (fifo (dev l) ++ pend l) b.
Proof using.
  intros Hc ->. rewrite <- app_assoc, !fold_left_app. cbn [fold_left]. f_equal. exact (hears_plain [c] _ (Forall_cons_2 _ _ _ Hc (Forall_nil_2 _))).
Qed.

Lemma speaks_xmt_chars n b t : keeps (speaks b t) (speaks b t) (xmt_chars n).
Proof using.
  induction n as [|n IH]; intros l a l' Hl; cbn [xmt_chars]; unfold mbind, M_bind; cbn [get_state];
    (destruct (Z.ltb_spec 0 (nb (out_cbuf (chan l)))); [|by intros [= _ <-]]); [done|].
  destruct Hl as [H1 H2 H3 H4 H5 H6]. destruct H2 as [[? ?]|Hr]; [lia|]. destruct (ring_take _ Hr) as (c & Hc & Hr' & Hq); [lia|].
  rewrite Hc. destruct (law_putc c _ H1) as (ok & h & E & Hd & Hf & _). unfold call. rewrite E.
  unfold outq in H5. rewrite Hq in H5. apply Forall_cons in H5 as [Hpc Hpq]. destruct ok.
  - cbn [modify]. apply IH. split; [done|by right|done|done|done|]. cbn. rewrite <- H6. by apply (says_plain b l c).
  - cbn. intros [= _ <-]. apply speaks_out_flags; [apply shape_tell_room|]. apply speaks_dev; [done|done|].
    split; [done|by right|done|done| |done]. unfold outq. by rewrite Hq, Forall_cons.
Qed.

Lemma hears_flow b b' x : x = XON_CHAR \/ x = XOFF_CHAR -> hears b x = hears b' x.
Proof using chars_ok.
  destruct chars_ok as (_ & _ & Hne). unfold hears. intros [-> | ->]; [|by rewrite Z.eqb_refl].
  by rewrite (proj2 (Z.eqb_neq _ _) Hne), Z.eqb_refl.
Qed.

Lemma speaks_xmt_xchar b t : keeps (speaks b t) (speaks b t) xmt_xchar.
Proof using.
  intros l a l' Hl. unfold xmt_xchar, mbind, M_bind. cbn [get_state]. destruct (has_config _ _ && _) eqn:E; [|by intros [= _ <-]].
  apply andb_true_iff in E as [_ E]. destruct Hl as [H1 H2 H3 H4 H5 H6].
  destruct (law_putc (xchar (chan l)) _ H1) as (ok & h & Eh & Hd & Hf & _). unfold call. rewrite Eh. destruct ok.
  - cbn. intros [= _ <-]. split; [done|done|done|by left|done|]. cbn. unfold pend. cbn. rewrite Hf, app_nil_r, <- H6.
    unfold pend. apply negb_true_iff in E. by rewrite E.
  - intros [= _ <-]. by apply speaks_dev.
Qed.

Lemma speaks_stop b t : keeps (speaks b t) (speaks b t) hw_stop.
Proof using.
  intros l a l' Hl. destruct (law_stop _ (sp_dev _ _ _ Hl)) as (m & h & Em & E & Hd & Hf & _). unfold hw_stop. rewrite Em.
  unfold call. rewrite E. intros [= _ <-]. by apply speaks_dev.
Qed.

Lemma speaks_config b t key x n : key <> CYG_IO_SET_CONFIG_SERIAL_INFO -> keeps (speaks b t) (speaks b t) (call_config key x n).
Proof using config_law.
  intros Hk l a l' Hl. unfold call_config. destruct (hw_config _ _ _ _) as [[r [i h]]|] eqn:E; [|done]. intros [= _ <-].
  destruct (law_config _ _ _ _ _ _ _ _ (sp_dev _ _ _ Hl) E) as (Hd & Hf & _). apply speaks_dev; [done|done|].
  eapply speaks_sight; [|exact Hl]. unfold sight. cbn. by rewrite (config_law _ _ _ _ _ _ _ _ Hk E).
Qed.

Lemma speaks_modify b t f : (forall l, sight (f l) = sight l) -> keeps (speaks b t) (speaks b t) (modify f).
Proof using. intros H. apply keeps_modify. intros l. by apply speaks_sight. Qed.

(** Follows the code. *)
#[local] Ltac speaks_steps :=
  cbv zeta;
  lazymatch goal with
  | |- keeps _ _ (mret _) => apply keeps_ret
  | |- keeps _ _ crash => apply keeps_crash
  | |- keeps _ _ (get_state ≫= _) => apply keeps_read; intros ? _; speaks_steps
  | |- keeps ?I _ (_ ≫= _) => apply (keeps_bind _ I); [speaks_steps|intros ?; speaks_steps]
  | |- keeps _ _ (match ?x with _ => _ end) => destruct x; speaks_steps
  | |- _ => try solve [eauto with peer]
  end.

Create HintDb peer.
#[local] Hint Resolve speaks_xmt_chars speaks_xmt_xchar speaks_stop : peer.
#[local] Hint Extern 1 (keeps _ _ (modify (set_out _))) => apply speaks_modify; intros ?; apply sight_out; first [done | exact (shape_tell_room _) | exact (shape_wake _)] : peer.
#[local] Hint Extern 1 (keeps _ _ (call_config _ _ _)) => apply speaks_config; done : peer.

Lemma speaks_xmt_char b t : keeps (speaks b t) (speaks b t) serial_xmt_char.
Proof using. unfold serial_xmt_char. speaks_steps. Qed.
#[local] Hint Resolve speaks_xmt_char : peer.

Lemma speaks_start b t : keeps (speaks b t) (speaks b t) start_xmit.
Proof using.
  intros l a l' Hl. destruct (law_start _ (sp_dev _ _ _ Hl)) as (m & again & h & Em & E & Hd & Hf & _). unfold start_xmit. rewrite Em.
  unfold mbind, M_bind, call. rewrite E. pose proof (speaks_dev b t l h Hd Hf Hl) as H. destruct again; [by apply speaks_xmt_char|by intros [= _ <-]].
Qed.
#[local] Hint Resolve speaks_start : peer.

Lemma speaks_hw_throttle b t force i : keeps (speaks b t) (speaks b t) (hw_rx_throttle force i).
Proof using config_law. unfold hw_rx_throttle. speaks_steps. Qed.

Lemma speaks_restart_tx b t : keeps (speaks b t) (speaks b t) restart_tx.
Proof using.
  unfold restart_tx. apply (keeps_bind _ (speaks b t)); [by apply speaks_modify|]. intros _.
  apply (keeps_bind _ (speaks b t)); [|intros _; speaks_steps]. apply speaks_modify. intros l. unfold sight. cbn. by destruct (_ <=? _).
Qed.
#[local] Hint Resolve speaks_hw_throttle speaks_restart_tx : peer.

(** Telling the peer something new. *)
Lemma speaks_send b t x : x = XON_CHAR \/ x = XOFF_CHAR -> keeps (speaks b t) (speaks b (x =? XOFF_CHAR)) (send_xchar false true x).
Proof using chars_ok.
  intros Hx l a l' Hl. unfold send_xchar, mbind, M_bind. cbn [get_state orb]. rewrite (sp_flag _ _ _ Hl). cbn [andb modify].
  apply speaks_start. destruct Hl as [H1 H2 H3 H4 H5 H6]. split; [done|done|done|by right|done|]. cbn. unfold pend. cbn.
  destruct chars_ok as (H7 & H8 & H9). replace (x =? 0) with false by (destruct Hx; lia).
  rewrite fold_left_app. cbn. unfold hears at 1. destruct (Z.eqb_spec x XOFF_CHAR); [done|]. by replace (x =? XON_CHAR) with true by lia.
Qed.

Lemma agrees_restart_rx b : keeps (agrees b) (agrees b) (restart_rx false).
Proof using All.
  intros l a l' Hl E. pose proof (f_equal fst (restart_clears _ _ _ E)) as Et. cbn in Et. unfold agrees in *. rewrite Et.
  revert E. unfold restart_rx, mbind, M_bind. cbn [get_state modify].
  set (l1 := set_flow _ l). assert (speaks b (in_throttled l) l1) as H1 by (by eapply speaks_sight; [|exact Hl]).
  destruct (send_xchar _ _ _ l1) as [[u l2]|] eqn:E2; [|done]. apply speaks_hw_throttle. destruct (in_throttled l).
  - apply (speaks_send b true XON_CHAR) in E2; [|by left|done]. destruct chars_ok as (_ & _ & Hne). by rewrite (proj2 (Z.eqb_neq _ _) Hne) in E2.
  - unfold send_xchar, mbind, M_bind in E2. cbn [get_state orb] in E2. rewrite andb_false_r in E2. by injection E2 as _ <-.
Qed.

Lemma agrees_throttle_rx b : keeps (agrees b) (agrees b) (throttle_rx false).
Proof using All.
  intros l a l' Hl. unfold throttle_rx, mbind, M_bind. cbn [get_state modify].
  set (l1 := set_flow _ l). assert (speaks b (in_throttled l) l1) as H1 by (by eapply speaks_sight; [|exact Hl]).
  assert (in_throttled l1 = true) as Ht1 by apply in_flag_on.
  destruct (send_xchar _ _ _ l1) as [[u l2]|] eqn:E2; [|done]. intros E.
  pose proof (f_equal fst (receiver_send _ _ _ _ _ _ E2)) as Ht2. pose proof (f_equal fst (receiver_hw _ _ _ _ _ E)) as Ht3. cbn in Ht2, Ht3.
  unfold agrees. rewrite Ht3, Ht2, Ht1. apply (speaks_hw_throttle b true) in E; [done|]. destruct (in_throttled l); cbn [negb] in E2.
  - unfold send_xchar, mbind, M_bind in E2. cbn [get_state orb] in E2. rewrite andb_false_r in E2. by injection E2 as _ <-.
  - apply (speaks_send b false XOFF_CHAR) in E2; [|by right|done]. by rewrite Z.eqb_refl in E2.
Qed.


(** ** Every function of the layer *)
Lemma agrees_modify b f : (forall l, sight (f l) = sight l /\ in_throttled (f l) = in_throttled l) -> keeps (agrees b) (agrees b) (modify f).
Proof using. intros H. apply keeps_modify. intros l. by apply agrees_same; apply H. Qed.

Lemma agrees_start b : keeps (agrees b) (agrees b) start_xmit.
Proof using. apply agrees_keeps; [apply receiver_start|eauto with peer]. Qed.
Lemma agrees_xmt_char b : keeps (agrees b) (agrees b) serial_xmt_char.
Proof using. apply agrees_keeps; [apply receiver_xmt_char|eauto with peer]. Qed.
Lemma agrees_stop b : keeps (agrees b) (agrees b) hw_stop.
Proof using. apply agrees_keeps; [apply receiver_stop|eauto with peer]. Qed.
Lemma agrees_config b key x n : key <> CYG_IO_SET_CONFIG_SERIAL_INFO -> keeps (agrees b) (agrees b) (call_config key x n).
Proof using config_law. intros Hk. apply agrees_keeps; [apply receiver_config|]. intros t. by apply speaks_config. Qed.
Lemma agrees_throttle_tx b : keeps (agrees b) (agrees b) throttle_tx.
Proof using. apply agrees_keeps; [apply receiver_throttle_tx|]. intros t. by apply speaks_modify. Qed.
Lemma agrees_restart_tx b : keeps (agrees b) (agrees b) restart_tx.
Proof using. apply agrees_keeps; [apply receiver_restart_tx|eauto with peer]. Qed.

Lemma agrees_out b f : (forall c, shape (f c) = shape c) -> keeps (agrees b) (agrees b) (modify (set_out f)).
Proof using. intros H. apply agrees_modify. intros l. by split; [apply sight_out|]. Qed.

(** A buffer that is emptied. *)
Lemma agrees_emptied b : keeps (agrees b) (agrees b) (modify (set_out (fun c => set_ring (data c) 0 0 0 c))).
Proof using.
  apply keeps_modify. intros l [H1 H2 H3 H4 H5 H6]. by destruct (emptied_ok _ H2) as [He Hn].
Qed.

Create HintDb agree.
#[local] Hint Resolve agrees_start agrees_xmt_char agrees_stop agrees_throttle_tx agrees_restart_tx agrees_restart_rx
  agrees_throttle_rx agrees_emptied : agree.
#[local] Hint Extern 1 (keeps _ _ (call_config _ _ _)) => apply agrees_config; done : agree.
#[local] Hint Extern 2 (keeps _ _ (modify (set_out _))) => apply agrees_out; intros ?; unfold abort_buffer; first [done | exact (shape_wake _)
  | by destruct (waiting _) | by destruct (_ =? _)] : agree.
#[local] Hint Extern 3 (keeps _ _ (modify _)) => apply agrees_modify; intros ?; by split : agree.

#[local] Ltac agrees_steps :=
  cbv zeta;
  lazymatch goal with
  | |- keeps _ _ (mret _) => apply keeps_ret
  | |- keeps _ _ crash => apply keeps_crash
  | |- keeps _ _ (get_state ≫= _) => apply keeps_read; intros ? _; agrees_steps
  | |- keeps ?I _ (_ ≫= _) => apply (keeps_bind _ I); [agrees_steps|intros ?; agrees_steps]
  | |- keeps _ _ (match ?x with _ => _ end) => destruct x; agrees_steps
  | |- _ => try solve [eauto with agree]
  end.

(** *** Writing *)
Definition plain_outcome {A} (o : outcome A) : Prop := match o with Asleep (SWrite _ _ buf) => Forall plain buf | _ => True end.
Definition writes {A} (b : bool) (m : M line (outcome A)) : Prop := yields (agrees b) m (fun o l => agrees b l /\ plain_outcome o).

Lemma writes_done b res n : writes b (write_done res n).
Proof using.
  apply yields_read. intros l. apply (yields_bind _ (agrees b)); [agrees_steps|]. intros _. by apply yields_ret.
Qed.

Lemma writes_abort b n size again : writes b again -> writes b (write_abort n size again).
Proof using.
  intros Ha. apply yields_read. intros l. destruct (abort _); [|done].
  apply (yields_bind _ (agrees b)); [agrees_steps|]. intros _. apply writes_done.
Qed.

Lemma writes_full b n size buf again : Forall plain buf -> writes b again -> writes b (write_full n size buf again).
Proof using.
  intros Hb Ha. apply (yields_bind _ (agrees b)); [agrees_steps|]. intros _. apply yields_read. intros l.
  apply (yields_bind _ (agrees b)); [agrees_steps|]. intros _. apply yields_read. intros l1. cbv zeta.
  destruct (waiting _); [|by apply writes_abort]. destruct (negb _).
  - apply (yields_bind _ (agrees b)); [agrees_steps|]. intros _. apply writes_done.
  - apply (yields_bind _ (agrees b)); [agrees_steps|]. intros _. by apply yields_ret.
Qed.

Lemma agrees_put_out b c l : plain c -> agrees b l -> nb (out_cbuf (chan l)) <> len (out_cbuf (chan l)) -> keeps (fun l1 => l1 = l) (agrees b) (put_out c).
Proof using chars_ok.
  intros Hc [H1 H2 H3 H4 H5 H6] Hn l1 a l' ->. pose proof (buf_ok_nb _ H2). destruct H2 as [[? ?]|Hr]; [lia|].
  destruct (ring_store _ c Hr ltac:(lia)) as (E & Hr' & Hq). unfold put_out. rewrite E. intros [= _ <-].
  split; [done|by right|done|done| |done]. unfold outq. cbn [chan set_out set_chan out_cbuf]. cbv zeta in Hq. rewrite Hq.
  apply Forall_app. split; [done|by constructor].
Qed.

Lemma writes_loop b n k : forall size buf, Forall plain buf -> writes b (write_loop k n size buf).
Proof using chars_ok.
  induction k as [|k IH]; intros size buf Hb; cbn [write_loop]; (destruct (0 <? size); [|apply writes_done]); [apply yields_crash|].
  apply yields_get. intros l Hl. cbv zeta. destruct (Z.eqb_spec (nb (out_cbuf (chan l))) (len (out_cbuf (chan l)))) as [|Hn].
  - intros l1 o l' ->. exact (writes_full b n size buf _ Hb (IH size buf Hb) l o l' Hl).
  - destruct buf as [|c buf]; [apply yields_crash|]. apply Forall_cons in Hb as [Hc Hb].
    apply (yields_bind _ (agrees b)); [by apply agrees_put_out|]. intros _. by apply IH.
Qed.

Lemma writes_serial_write b polls buf n : Forall plain buf ->
  yields (fun l => agrees b l /\ len (out_cbuf (chan l)) <> 0) (serial_write polls buf n) (fun o l => agrees b l /\ plain_outcome o).
Proof using chars_ok.
  intros Hb l o l' [Hl Hn]. unfold serial_write, mbind, M_bind. cbn [modify get_state].
  replace (len (out_cbuf (chan (set_out (set_abort false) l))) =? 0) with false by (cbn; lia).
  refine (writes_loop b n _ _ buf Hb _ o l' _). by eapply agrees_same; [..|exact Hl].
Qed.

Lemma writes_resume b ok n size buf : Forall plain buf -> writes b (serial_write_resume ok n size buf).
Proof using chars_ok.
  intros Hb. apply (yields_bind _ (agrees b)); [agrees_steps|]. intros _. apply (yields_bind _ (agrees b)); [agrees_steps|]. intros _.
  by apply writes_abort, writes_loop.
Qed.

(** *** Reading and receiving *)
Lemma agrees_take_in b : keeps (agrees b) (agrees b) take_in.
Proof using. unfold take_in, fetch. agrees_steps. Qed.
#[local] Hint Resolve agrees_take_in : agree.

Lemma agrees_read_loop b n k : forall size acc, keeps (agrees b) (agrees b) (read_loop k n size acc).
Proof using All. induction k as [|k IH]; intros size acc; cbn [read_loop]; agrees_steps. Qed.
#[local] Hint Resolve agrees_read_loop : agree.

Lemma agrees_serial_read b n : keeps (fun l => agrees b l /\ len (in_cbuf (chan l)) <> 0) (agrees b) (serial_read n).
Proof using All.
  intros l o l' [Hl Hn]. unfold serial_read, mbind, M_bind. cbn [modify get_state].
  replace (len (in_cbuf (chan (set_in (set_abort false) l))) =? 0) with false by (cbn; lia).
  refine (agrees_read_loop b n _ _ _ _ o l' _). by eapply agrees_same; [..|exact Hl].
Qed.

Lemma agrees_read_resume b ok n size acc : keeps (agrees b) (agrees b) (serial_read_resume ok n size acc).
Proof using All. unfold serial_read_resume. agrees_steps. Qed.

Lemma agrees_put_in b c : keeps (agrees b) (agrees b) (put_in c).
Proof using. intros l a l' Hl. unfold put_in. destruct (store _ _ _); [|done]. intros [= _ <-]. by eapply agrees_same; [..|exact Hl]. Qed.

Lemma agrees_status b which v : keeps (agrees b) (agrees b) (serial_indicate_status which v).
Proof using. unfold serial_indicate_status. agrees_steps. Qed.
#[local] Hint Resolve agrees_put_in agrees_status : agree.

Lemma agrees_rcv_char b c : keeps (agrees b) (agrees b) (serial_rcv_char c).
Proof using All. unfold serial_rcv_char. agrees_steps. Qed.

(** *** Requests *)
Lemma agrees_get_config b key xb n : keeps (agrees b) (agrees b) (serial_get_config key xb n).
Proof using All. unfold serial_get_config, fill, drain, input_flush, output_flush. agrees_steps. Qed.

Lemma agrees_drain b ok res : keeps (agrees b) (agrees b) (drain_resume ok res).
Proof using. unfold drain_resume, drain. agrees_steps. Qed.

Lemma agrees_set_config b key xb n :
  key <> CYG_IO_SET_CONFIG_SERIAL_FLOW_CONTROL_FORCE -> key <> CYG_IO_SET_CONFIG_SERIAL_FLOW_CONTROL_METHOD ->
  key <> CYG_IO_SET_CONFIG_SERIAL_INFO -> keeps (agrees b) (agrees b) (serial_set_config key xb n).
Proof using All.
  intros H1 H2 H3. unfold serial_set_config. rewrite (proj2 (Z.eqb_neq _ _) H1), (proj2 (Z.eqb_neq _ _) H2).
  pose proof (agrees_config b key xb n H3). agrees_steps.
Qed.

Lemma agrees_select b which info : keeps (agrees b) (agrees b) (serial_select which info).
Proof using. unfold serial_select. agrees_steps. Qed.

(** ** Every step *)

(** The data has no character of flow control, and flow control is neither forced nor
    configured anew. *)
Definition plain_event (e : event) : Prop :=
  match e with
  | EWrite buf _ => Forall plain buf
  | ESet key _ _ => key <> CYG_IO_SET_CONFIG_SERIAL_FLOW_CONTROL_FORCE /\
      key <> CYG_IO_SET_CONFIG_SERIAL_FLOW_CONTROL_METHOD /\ key <> CYG_IO_SET_CONFIG_SERIAL_INFO
  | _ => True
  end.

Definition heard (h : history) : bool := fold_left hears (wired h) false.
Definition plain_sleeper (t : sleeper * nat) : Prop := match t.1 with SWrite _ _ buf => Forall plain buf | _ => True end.
Definition in_step (s : system * history) : Prop :=
  agrees (heard s.2) (ln s.1) /\ Forall plain_sleeper (asleep s.1).

Lemma plain_sleeps {A} (o : outcome A) l : plain_outcome o -> Forall plain_sleeper (sleeps o l).
Proof using. destruct o; [done|]. intros H. by constructor. Qed.

Lemma has_read_plain l n acc o l' : has_read l n acc o l' -> plain_outcome o.
Proof using. intros (r & _ & He). destruct o as [|k]; [done|]. cbn in He. by destruct He as (_ & _ & _ & -> & _). Qed.

Lemma soft_on l : has_config l CYGNUM_SERIAL_FLOW_XONXOFF_RX = true -> soft_flow l = true.
Proof using.
  unfold soft_flow, has_config, flag. rewrite !negb_true_iff, !Z.eqb_neq. intros H E. apply H.
  rewrite Z.land_lor_distr_r in E. by apply Z.lor_eq_0_iff in E as [_ E].
Qed.

Lemma heard_asked key l h : heard (asked_h key l h) = heard h.
Proof using. unfold asked_h. by repeat case_goal. Qed.

Lemma agrees_wired b ws d l : dev_ok d -> fifo (dev l) = ws ++ fifo d -> agrees b l -> agrees (fold_left hears ws b) (set_dev d l).
Proof using.
  intros Hd Hf [H1 H2 H3 H4 H5 H6]. split; try done. rewrite Hf, <- app_assoc, fold_left_app in H6. exact H6.
Qed.

Lemma in_step_kept l l' ts ts' h h' : in_step (System l ts, h) -> (agrees (heard h) l -> agrees (heard h) l') -> heard h' = heard h ->
  (Forall plain_sleeper ts -> Forall plain_sleeper ts') -> in_step (System l' ts', h').
Proof using. intros [H1 H2] H3 H4 H5. split; cbn in *; [rewrite H4|]; auto. Qed.

Lemma step_agrees e s s' : plain_event e -> inv s -> in_step s -> step e s s' -> in_step s'.
Proof using All.
  intros Hu Hinv Hs St. destruct (inv_line _ Hinv) as (Hok & Hlo & Hli & _). pose proof Hs as [Ha Hp]. destruct St; cbn in *.
  - destruct (writes_serial_write (heard h) polls buf n Hu l o l' (conj Ha Hlo) H1) as [Hl Ho].
    split; cbn; [done|]. apply Forall_app. split; [done|by apply plain_sleeps].
  - pose proof (Forall_lookup_1 _ _ _ _ Hp H) as Hb. destruct (writes_resume (heard h) ok n size buf Hb l o l' Ha H1) as [Hl Ho].
    split; cbn; [done|]. apply Forall_app. split; [by apply Forall_delete|by apply plain_sleeps].
  - pose proof (wp_run _ _ _ _ _ (serial_read_start n l Hok Hli ltac:(lia)) H0) as R.
    split; cbn; [exact (agrees_serial_read (heard h) n l o l' (conj Ha Hli) H0)|].
    apply Forall_app. split; [done|]. by eapply plain_sleeps, has_read_plain.
  - pose proof (Forall_lookup_1 _ _ _ _ (inv_asleep _ Hinv) H) as [-> Hlt]. cbn in Hlt.
    pose proof (wp_run _ _ _ _ _ (serial_read_resumes ok n acc l Hok ltac:(lia)) H1) as R. cbv beta in R.
    split; cbn; [exact (agrees_read_resume (heard h) ok n _ acc l o l' Ha H1)|].
    apply Forall_app. split; [by apply Forall_delete|]. destruct (abort _).
    + by destruct R as (-> & _).
    + by eapply plain_sleeps, has_read_plain.
  - destruct (wp_run _ _ _ _ _ (get_config_ok key xb (Some n) l Hok Hlo Hli ltac:(by eexists)) H) as (_ & _ & Hk).
    split; cbn; [rewrite heard_asked; exact (agrees_get_config (heard h) key xb (Some n) l o l' Ha H)|].
    apply Forall_app. split; [done|]. apply plain_sleeps. destruct o as [r|k]; [done|]. by destruct Hk as (_ & -> & _).
  - destruct (wp_run _ _ _ _ _ (drain_ok _ l Hok) H1) as (_ & _ & Hk).
    split; cbn; [exact (agrees_drain (heard h) ok res l o l' Ha H1)|].
    apply Forall_app. split; [by apply Forall_delete|]. apply plain_sleeps. destruct o as [r|k]; [done|]. by destruct Hk as [-> _].
  - destruct Hu as (U1 & U2 & U3). split; [exact (agrees_set_config (heard h) key xb (Some n) U1 U2 U3 l r l' Ha H)|done].
  - split; [exact (agrees_select (heard h) which info l r l' Ha H)|done].
  - split; [exact (agrees_xmt_char (heard h) l tt l' Ha H)|done].
  - split; [exact (agrees_rcv_char (heard h) c l tt l' Ha H)|done].
  - split; [exact (agrees_status (heard h) which (Some v) l tt l' Ha H)|done].
  - unfold serial_data_rcv_req, mbind, M_bind in H. cbn [get_state] in H. by rewrite (soft_on l (sp_flag _ _ _ Ha)) in H.
  - unfold serial_data_xmt_req, mbind, M_bind in H0. cbn [get_state] in H0. by rewrite (soft_on l (sp_flag _ _ _ Ha)) in H0.
  - split; [|done]. cbn. unfold heard. cbn. rewrite fold_left_app. by apply agrees_wired.
Qed.

(** A line with flow control by XON and XOFF, freshly opened, and the states that steps
    of [P] lead to from there. *)
Definition fresh_soft l : Prop := fresh l /\ has_config l CYGNUM_SERIAL_FLOW_XONXOFF_RX = true /\ xchar (chan l) = 0.

Inductive reachable_from (P : event -> Prop) (s0 : system * history) : system * history -> Prop :=
  | from_start : reachable_from P s0 s0
  | from_step e s s' : P e -> reachable_from P s0 s -> step e s s' -> reachable_from P s0 s'.

Definition opened_as l : system * history := (System l [], History [] [] [] []).

Lemma reachable_from_fresh P l s : fresh l -> reachable_from P (opened_as l) s -> reachable P s.
Proof using. intros Hl. induction 1; [by apply reach_fresh|by eapply reach_step]. Qed.

Lemma reachable_agrees P l s : (forall e, P e -> plain_event e) -> fresh_soft l -> reachable_from P (opened_as l) s -> in_step s.
Proof using All.
  intros HP (Hl & Hc & Hx). induction 1 as [|e s s' He R IH St].
  - destruct Hl as (Hok & _ & _ & _ & Ho & _ & Hf & _ & _ & _ & _ & _ & Hfl & _). split; [|constructor]. cbn. split.
    + apply Hok.
    + apply Hok.
    + done.
    + by left.
    + by rewrite Ho.
    + unfold heard, pend, in_throttled. cbn. by rewrite Hf, Hx, Hfl.
  - eapply step_agrees; [by apply HP|eapply reachable_inv, reachable_from_fresh; done|done|done].
Qed.

(** What the peer believes once everything on its way has arrived. *)
Definition peer_stopped (s : system * history) : bool := fold_left hears (wired s.2 ++ fifo (dev (ln s.1)) ++ pend (ln s.1)) false.

Lemma in_step_peer s : in_step s -> peer_stopped s = in_throttled (ln s.1).
Proof using. intros [[_ _ _ _ _ H] _]. unfold peer_stopped. rewrite fold_left_app. exact H. Qed.
End Peer.
