(* ===== verification/SerialLoop.v ===== *)
(** * The loop driver

    devs/serial/loop/current/src/loop_serial.c: two serial channels, each connected to
    the other by a small FIFO, which an alarm empties into the receiver. *)
From S2P Require Import Prelude Serial SerialSpec.

Definition FIFO_SIZE : Z := 16.

Record fifo_t := Fifo { tx_enable : bool; head : Z; tail : Z; num : Z; buf : list byte }.
Definition fifo_init : fifo_t := Fifo false 0 0 0 (replicate 17 0).

(** dev_priv of a channel: where it writes and where it reads. *)
Record loop_serial_info := LoopInfo { write_fifo : fifo_t; read_fifo : fifo_t }.

Definition sizeof_buf (f : fifo_t) : Z := Z.of_nat (length (buf f)).

(** The character at the head; the caller has made sure that there is one. *)
Definition fifo_take (f : fifo_t) : option (byte * fifo_t) :=
  c ← (if head f <? 0 then None else buf f !! Z.to_nat (head f));
  Some (c, Fifo (tx_enable f) (if head f + 1 =? sizeof_buf f then 0 else head f + 1) (tail f) (num f - 1) (buf f)).

Definition loop_serial_putc (c : byte) : M loop_serial_info bool := fun d =>
  let f := write_fifo d in
  if num f =? FIFO_SIZE then Some (false, d) else
  match store (tail f) c (buf f) with
  | Some b => Some (true, LoopInfo (Fifo (tx_enable f) (head f)
      (if tail f + 1 =? Z.of_nat (length b) then 0 else tail f + 1) (num f + 1) b) (read_fifo d))
  | None => None
  end.

(** Polled reading: nothing fills the FIFO while the loop spins. *)
Definition loop_serial_getc : M loop_serial_info byte := fun d =>
  if num (read_fifo d) =? 0 then None else
  match fifo_take (read_fifo d) with
  | Some (c, f) => Some (c, LoopInfo (write_fifo d) f)
  | None => None
  end.

Definition loop_serial_set_config (key : Z) (x : xbuf_t) (n : option Z) :
    M (cyg_serial_info_t * loop_serial_info) (Z * option Z) := fun s =>
  if key =? CYG_IO_SET_CONFIG_SERIAL_INFO then
    match n with
    | Some k =>
      if k <? sizeof_info then Some ((- EINVAL, n), s) else
      match x with XInfo i => Some ((ENOERR, Some sizeof_info), (i, snd s)) | _ => None end
    | None => None
    end
  else Some ((- EINVAL, n), s).

Definition enable (b : bool) (d : loop_serial_info) : loop_serial_info :=
  let f := write_fifo d in LoopInfo (Fifo b (head f) (tail f) (num f) (buf f)) (read_fifo d).

Definition loop_serial_start_xmit : M loop_serial_info bool := _ ← modify (enable true); mret true.
Definition loop_serial_stop_xmit : M loop_serial_info unit := modify (enable false).

#[export] Instance loop_serial_funs : SerialFuns := {|
  hw := loop_serial_info;
  putc := loop_serial_putc;
  getc := loop_serial_getc;
  hw_config := loop_serial_set_config;
  hw_start_xmit := Some loop_serial_start_xmit;
  hw_stop_xmit := Some loop_serial_stop_xmit |}.

(** ** Both ends *)
Record loop := Loop { channel0 : serial_channel; channel1 : serial_channel; fifo0 : fifo_t; fifo1 : fifo_t }.

Section Loop.
Context `{Opts : SerialOptions}.

(** A call on one of the channels; neither has a status callback that is recorded. *)
Definition line0 (s : loop) : line := Line (channel0 s) (LoopInfo (fifo0 s) (fifo1 s)) [].
Definition line1 (s : loop) : line := Line (channel1 s) (LoopInfo (fifo1 s) (fifo0 s)) [].
Definition on0 {A} (m : M line A) : M loop A := fun s =>
  match m (line0 s) with
  | Some (a, l) => Some (a, Loop (chan l) (channel1 s) (write_fifo (dev l)) (read_fifo (dev l)))
  | None => None
  end.
Definition on1 {A} (m : M line A) : M loop A := fun s =>
  match m (line1 s) with
  | Some (a, l) => Some (a, Loop (channel0 s) (chan l) (read_fifo (dev l)) (write_fifo (dev l)))
  | None => None
  end.

Definition take0 : M loop byte := fun s =>
  match fifo_take (fifo0 s) with Some (c, f) => Some (c, Loop (channel0 s) (channel1 s) f (fifo1 s)) | None => None end.
Definition take1 : M loop byte := fun s =>
  match fifo_take (fifo1 s) with Some (c, f) => Some (c, Loop (channel0 s) (channel1 s) (fifo0 s) f) | None => None end.

(** One of the loops of alarm_handler. *)
Fixpoint deliver (f : loop -> fifo_t) (next : M loop byte) (rcv : byte -> M loop unit) (xmt : M loop unit) (n : nat) : M loop unit :=
  s ← get_state;
  if num (f s) =? 0 then mret tt else
  match n with
  | O => crash
  | S n =>
    c ← next;
    _ ← rcv c;
    s ← get_state;
    _ ← (if tx_enable (f s) then xmt else mret tt);
    deliver f next rcv xmt n
  end.

(** The characters in the FIFO, in the output buffer and the one of flow control. *)
Definition in_flight (c : serial_channel) (f : fifo_t) : nat := Z.to_nat (num f + nb (out_cbuf c) + 1).

Definition alarm_handler : M loop unit :=
  s ← get_state;
  _ ← deliver fifo0 take0 (fun c => on1 (serial_rcv_char c)) (on0 serial_xmt_char) (in_flight (channel0 s) (fifo0 s));
  s ← get_state;
  deliver fifo1 take1 (fun c => on0 (serial_rcv_char c)) (on1 serial_xmt_char) (in_flight (channel1 s) (fifo1 s)).

(** loop_serial_init and loop_serial_lookup; the alarm itself is the kernel's. *)
Definition loop_serial_init0 : M loop bool := _ ← on0 serial_init; mret true.
Definition loop_serial_init1 : M loop bool := _ ← on1 serial_init; mret true.
Definition loop_serial_lookup0 : M loop Z := _ ← on0 serial_init; mret ENOERR.
Definition loop_serial_lookup1 : M loop Z := _ ← on1 serial_init; mret ENOERR.
End Loop.

(** The system before it starts: two channels with buffers of [size] bytes. *)
Definition loop_start (info : cyg_serial_info_t) (size : nat) : loop :=
  let c := SERIAL_CHANNEL_USING_INTERRUPTS info (replicate size 0) (replicate size 0) in
  Loop c c fifo_init fifo_init.

(** ** The laws *)

(** A FIFO as a circular buffer. *)
Definition as_cbuf (f : fifo_t) : cbuf_t := Cbuf (buf f) (tail f) (head f) 17 (num f) 0 0 0 false false false 0 [].
Definition fifo_ok (f : fifo_t) : Prop := ring_ok (as_cbuf f) /\ num f <= FIFO_SIZE.
Definition queued (f : fifo_t) : list byte := contents (as_cbuf f).

Lemma fifo_init_ok : fifo_ok fifo_init /\ queued fifo_init = [].
Proof. split; [split; [split; cbn|cbn]; done|done]. Qed.

Lemma fifo_take_ok f : fifo_ok f -> 0 < num f ->
  exists c f', fifo_take f = Some (c, f') /\ fifo_ok f' /\ queued f = c :: queued f' /\ num f' = num f - 1 /\ tx_enable f' = tx_enable f.
Proof.
  intros [Hr Hn] Hp. destruct (ring_take _ Hr Hp) as (c & Hc & Hr' & Hq). specialize (Hc unit tt). cbn in Hc.
  pose proof (ring_len _ Hr) as Hl. cbn in Hl. unfold fifo_take, sizeof_buf. rewrite Hl. unfold fetch in Hc. cbn in Hr', Hq.
  destruct (head f <? 0); [done|]. destruct (buf f !! Z.to_nat (head f)) as [x|]; [|done]. injection Hc as ->. cbn.
  eexists c, _. split; [done|]. split_and!; try done. split; [exact Hr'|cbn; lia].
Qed.

Lemma loop_putc_ok c d : fifo_ok (write_fifo d) -> exists ok d', loop_serial_putc c d = Some (ok, d') /\
  fifo_ok (write_fifo d') /\ queued (write_fifo d') = (if ok : bool then queued (write_fifo d) ++ [c] else queued (write_fifo d)) /\
  read_fifo d' = read_fifo d /\ tx_enable (write_fifo d') = tx_enable (write_fifo d) /\
  (ok = (num (write_fifo d) <? FIFO_SIZE)) /\ num (write_fifo d') = (if ok : bool then num (write_fifo d) + 1 else num (write_fifo d)).
Proof.
  intros [Hr Hn]. unfold loop_serial_putc. destruct (Z.eqb_spec (num (write_fifo d)) FIFO_SIZE) as [E|E].
  - exists false, d. split_and!; try done. lia.
  - assert (nb (as_cbuf (write_fifo d)) < len (as_cbuf (write_fifo d))) as Hlt by (cbn; unfold FIFO_SIZE in *; lia).
    destruct (ring_store _ c Hr Hlt) as [Hs [Hr' Hq]]. cbn in Hs, Hr', Hq. rewrite Hs. pose proof (ring_len _ Hr) as Hl. cbn in Hl.
    eexists true, _. split; [done|]. rewrite length_insert, Hl. split_and!; try done; cbn; [split; [exact Hr'|cbn; lia]|lia].
Qed.

#[export] Instance loop_laws : SerialLaws.
Proof.
  refine {| dev_ok := fun d => fifo_ok (write_fifo d); fifo := fun d => queued (write_fifo d); framed := read_fifo |}.
  - intros c d Hd. destruct (loop_putc_ok c d Hd) as (ok & d' & ? & ? & ? & ? & _). by exists ok, d'.
  - intros d Hd. by exists loop_serial_start_xmit, true, (enable true d).
  - intros d Hd. by exists loop_serial_stop_xmit, (enable false d).
  - intros key x n i d r i' d' Hd. cbn. unfold loop_serial_set_config.
    destruct (key =? CYG_IO_SET_CONFIG_SERIAL_INFO); [|by intros [= _ _ <-]]. destruct n as [k|]; [|done].
    destruct (k <? sizeof_info); [by intros [= _ _ <-]|]. destruct x; try done. by intros [= _ _ <-].
  - intros key x n i d Hd Hk. cbn. unfold loop_serial_set_config. replace (key =? CYG_IO_SET_CONFIG_SERIAL_INFO) with false by lia. done.
Defined.
