(* ===== verification/SerialLoopSpec.v ===== *)
(** * The loop driver at work

    Without flow control a tick of the alarm brings everything that is on its way from
    one channel into the input buffer of the other, in order, both ways; so what is
    written to one channel is read from the other. *)
From S2P Require Import Prelude Serial SerialSpec SerialOps SerialWrite SerialRead SerialLoop.

Section LoopSpec.
Context `{Opts : SerialOptions}.
Implicit Types (l : line) (s : loop).

(** No flow control: none is configured, nor forced. *)
Definition plain l : Prop := flags (config (chan l)) = 0 /\ xchar (chan l) = 0 /\ out_throttled l = false.

Lemma plain_config l f : plain l -> has_config l f = false.
Proof using. intros (H & _). unfold has_config, flag. by rewrite H. Qed.

Lemma plain_same l l' : flow_state l' = flow_state l -> plain l -> plain l'.
Proof using. unfold flow_state, plain, out_throttled. intros [= -> -> ->]. done. Qed.

Lemma wp_and {S A} (m : M S A) P Q (t : S) : wp m P t -> wp m Q t -> wp m (fun a t' => P a t' /\ Q a t') t.
Proof using. intros (a & t' & E & HP) (b & t2 & E' & HQ). exists a, t'. split; [done|]. split; [done|congruence]. Qed.

(** ** Transmission *)
Lemma loop_xmt_chars n : forall l, line_ok l -> nb (out_cbuf (chan l)) <= Z.of_nat n ->
  wp (xmt_chars n) (fun e l' => tx_enable (write_fifo (dev l')) = tx_enable (write_fifo (dev l)) /\
    (e = false -> num (write_fifo (dev l')) = FIFO_SIZE)) l.
Proof using.
  induction n as [|n IH]; intros l Hok Hn; pose proof (buf_ok_nb _ (ok_out _ Hok)); cbn [xmt_chars]; apply wp_get;
    (destruct (Z.ltb_spec 0 (nb (out_cbuf (chan l)))); [|by apply wp_ret]).
  { lia. }
  destruct (ok_out _ Hok) as [[? ?]|Hr]; [lia|]. destruct (ring_take _ Hr) as (c & Hc & Hr' & Hq); [lia|].
  apply wp_bind. exists c, l. split; [apply Hc|]. apply wp_bind.
  destruct (loop_putc_ok c _ (ok_dev _ Hok)) as (ok & d & E & Hd & Hf & Hfr & Ht & Hv & Hnum).
  exists ok, (@set_dev loop_serial_funs d l). split; [unfold call; cbn; by rewrite E|]. destruct ok; wp_steps.
  - eapply wp_mono; [apply IH; [|cbn; lia]|].
    + exact (sends_ok _ _ (sends_byte c _ (d : @hw loop_serial_funs) l Hok Hd Hf Hfr eq_refl Hr' Hq)).
    + intros e l' [Hx He]. split; [|done]. by rewrite Hx.
  - split; [done|]. intros _. cbn. destruct (ok_dev _ Hok) as [_ Hm]. rewrite Hnum. lia.
Qed.

(** Everything fits, or the FIFO is full. *)
Lemma loop_xmt_ok l : line_ok l -> plain l ->
  wp serial_xmt_char (fun _ l' => sends l l' /\ plain l' /\ pipe l' = pipe l /\
    (nb (out_cbuf (chan l')) = 0 \/
     num (write_fifo (dev l')) = FIFO_SIZE /\ tx_enable (write_fifo (dev l')) = tx_enable (write_fifo (dev l)))) l.
Proof using.
  intros Hok Hp. pose proof (xmt_char_full l Hok) as Hfull.
  assert (wp serial_xmt_char (fun _ l' => nb (out_cbuf (chan l')) = 0 \/ num (write_fifo (dev l')) = FIFO_SIZE /\
    tx_enable (write_fifo (dev l')) = tx_enable (write_fifo (dev l))) l) as H.
  { unfold serial_xmt_char. apply wp_bind. exists true, l. split.
    { unfold xmt_xchar. unfold mbind, M_bind. cbn [get_state]. by rewrite plain_config. }
    cbn [negb]. apply wp_get. destruct Hp as (_ & _ & ->). pose proof (buf_ok_nb _ (ok_out _ Hok)).
    apply wp_bind. eapply wp_mono; [apply wp_and; [apply loop_xmt_chars|apply xmt_chars_ok]; try done; lia|].
    intros [|] l' ([Ht He] & Hs & _ & _ & Hn); cbn [negb].
    - apply wp_bind. exists tt, (@set_dev loop_serial_funs (enable false (dev l')) l'). split; [done|]. eexists tt, _. split; [done|]. left.
      pose proof (f_equal fst (core_wake (out_cbuf (chan l')))) as E. injection E as _ _ _ _ E _ _. cbn. congruence.
    - apply wp_ret. right. split; [by apply He|done]. }
  eapply wp_mono; [apply (wp_and _ _ _ _ Hfull H)|]. intros [] l' ((Hs & _ & Hx) & Hd).
  destruct (Hx (proj1 (proj2 Hp))) as [? ?]. split_and!; [done|by eapply plain_same|done|done].
Qed.

(** ** Reception *)
Lemma plain_throttle l : plain l -> throttle_rx false l = Some (tt, set_flow (set_flag CYG_SERIAL_FLOW_IN_THROTTLED) l).
Proof using.
  intros Hp. unfold throttle_rx, send_xchar, hw_rx_throttle. unfold mbind, M_bind. cbn [get_state].
  set (l1 := set_flow _ l). assert (forall f, has_config l1 f = false) as E by (intros f; exact (plain_config l f Hp)).
  cbn. fold l1. rewrite E. cbn. by rewrite !E.
Qed.

Lemma plain_flow l : plain l -> plain (set_flow (set_flag CYG_SERIAL_FLOW_IN_THROTTLED) l).
Proof using.
  unfold plain, out_throttled, flag, set_flag. cbn. intros (H1 & H2 & H3). split_and!; [done..|].
  rewrite Z.land_lor_distr_l. change (Z.land CYG_SERIAL_FLOW_IN_THROTTLED CYG_SERIAL_FLOW_OUT_THROTTLED) with 0. by rewrite Z.lor_0_r.
Qed.

Lemma plain_rcv c l : line_ok l -> plain l -> nb (in_cbuf (chan l)) < len (in_cbuf (chan l)) ->
  wp (serial_rcv_char c) (fun _ l' => turn l [c] [] l' /\ plain l' /\ out_cbuf (chan l') = out_cbuf (chan l) /\ dev l' = dev l) l.
Proof using.
  intros Hok Hp Hn. pose proof (rcv_char_ok c l Hok) as Hr. unfold kept, flow_char in Hr. rewrite plain_config in Hr by done.
  replace (nb (in_cbuf (chan l)) <? len (in_cbuf (chan l))) with true in Hr by lia. apply wp_and; [exact Hr|].
  unfold serial_rcv_char. apply wp_get. rewrite !plain_config by done. cbn [andb]. apply wp_bind.
  apply wp_mono with (fun _ l1 => plain l1 /\ out_cbuf (chan l1) = out_cbuf (chan l) /\ dev l1 = dev l /\ in_cbuf (chan l1) = in_cbuf (chan l)).
  { destruct (_ <=? _); [|by apply wp_ret]. exists tt. eexists. split; [by apply plain_throttle|]. split; [by apply plain_flow|done]. }
  intros [] l1 (Hp1 & Ho & Hd & Hi). wp_steps. set (l2 := set_in _ l1).
  assert (nb (in_cbuf (chan l2)) = nb (in_cbuf (chan l)) /\ len (in_cbuf (chan l2)) = len (in_cbuf (chan l)) /\
    data (in_cbuf (chan l2)) = data (in_cbuf (chan l)) /\ put (in_cbuf (chan l2)) = put (in_cbuf (chan l))) as (En & El & Ed & Ep) by (cbn; rewrite Hi; by destruct (_ =? 0)).
  rewrite En, El. replace (nb (in_cbuf (chan l)) <? len (in_cbuf (chan l))) with true by lia.
  apply wp_bind. destruct (ok_in _ Hok) as [[? ?]|Hri]; [lia|]. destruct (ring_store _ c Hri Hn) as [Hst _].
  eexists tt, _. split; [unfold put_in; rewrite Ed, Ep, Hst; done|].
  by eexists tt, _.
Qed.

(** ** One direction *)

(** What is on its way from channel 0 will be delivered: output is enabled as long as
    bytes wait. *)
Record towards1 s : Prop := {
  to_ok0 : line_ok (line0 s);
  to_ok1 : line_ok (line1 s);
  to_plain0 : plain (line0 s);
  to_plain1 : plain (line1 s);
  to_ready : nb (out_cbuf (channel0 s)) = 0 \/ tx_enable (fifo0 s) = true /\ 0 < num (fifo0 s) }.

Record brought s bs s' : Prop := {
  br_to : towards1 s';
  br_in1 : inq (line1 s') = inq (line1 s) ++ bs;
  br_in0 : in_cbuf (channel0 s') = in_cbuf (channel0 s);
  br_out1 : out_cbuf (channel1 s') = out_cbuf (channel1 s);
  br_fifo1 : fifo1 s' = fifo1 s;
  br_sizes : sizes (line0 s') = sizes (line0 s) /\ sizes (line1 s') = sizes (line1 s) }.

Lemma brought_trans s1 b1 s2 b2 s3 : brought s1 b1 s2 -> brought s2 b2 s3 -> brought s1 (b1 ++ b2) s3.
Proof using.
  intros [? H1 ? ? ? [? ?]] [? H2 ? ? ? [? ?]]. split; [done| |congruence..|split; congruence]. by rewrite H2, H1, <- app_assoc.
Qed.

(** How much room the receiver needs. *)
Definition load s : Z := num (fifo0 s) + nb (out_cbuf (channel0 s)).
Definition room s : Z := len (in_cbuf (channel1 s)) - nb (in_cbuf (channel1 s)).

Lemma queued_num f : fifo_ok f -> Z.of_nat (length (queued f)) = num f.
Proof using. intros [Hr _]. apply (length_contents (as_cbuf f)). by right. Qed.

Lemma length_pipe0 s : towards1 s -> Z.of_nat (length (pipe (line0 s))) = load s.
Proof using.
  intros [Hok _ _ _ _]. unfold pipe. rewrite length_app, Nat2Z.inj_add. unfold load. f_equal.
  - apply (queued_num (fifo0 s)), (ok_dev _ Hok).
  - apply (length_contents (out_cbuf (channel0 s))), (ok_out _ Hok).
Qed.

(** One pass of the loop: a character arrives, the others move up. *)
Lemma pass_ok s : towards1 s -> 0 < num (fifo0 s) -> 0 < room s -> exists c,
  wp (_ ← (c ← take0; on1 (serial_rcv_char c)); s ← get_state; if tx_enable (fifo0 s) then on0 serial_xmt_char else mret tt)
    (fun _ s' => brought s [c] s' /\ pipe (line0 s) = c :: pipe (line0 s') /\ room s' = room s - 1) s.
Proof using.
  intros [Hok0 Hok1 Hp0 Hp1 Hready] Hn Hroom. destruct (fifo_take_ok (fifo0 s) (ok_dev _ Hok0) Hn) as (c & f & Ef & Hf & Hq & Hnum & Htx).
  exists c. apply wp_bind. apply wp_bind. set (s1 := Loop (channel0 s) (channel1 s) f (fifo1 s)).
  exists c, s1. split; [unfold take0; by rewrite Ef|].
  assert (line_ok (line1 s1)) as Hok1' by by destruct Hok1; split.
  destruct (plain_rcv c (line1 s1) Hok1' Hp1 ltac:(unfold room in Hroom; cbn; lia)) as ([] & l1 & El & T & Hpl & Ho1 & Hd1).
  set (s2 := Loop (channel0 s) (chan l1) f (fifo1 s)). exists tt, s2. split; [unfold on1; rewrite El, Hd1; done|].
  apply wp_get. change (tx_enable (fifo0 s2)) with (tx_enable f). rewrite Htx.
  assert (line_ok (line0 s2)) as Hok0' by by destruct Hok0; split.
  assert (line_ok (line1 s2)) as Hok1''.
  { pose proof (ok_dev _ Hok1). pose proof (turn_ok _ _ _ _ T) as [? ? ? ? ?]. by split. }
  assert (inq (line1 s2) = inq (line1 s) ++ [c]) as Hin by (pose proof (flow_in _ _ _ _ _ (turn_flow _ _ _ _ T)) as H; exact (eq_sym H)).
  assert (sizes (line1 s2) = sizes (line1 s)) as Hsz by exact (flow_sizes _ _ _ _ _ (turn_flow _ _ _ _ T)).
  assert (room s2 = room s - 1) as Hr2.
  { pose proof (length_contents _ (ok_in _ Hok1'')) as L2. pose proof (length_contents _ (ok_in _ Hok1)) as L1.
    unfold inq in Hin. rewrite Hin, length_app in L2. unfold sizes, sizes_of in Hsz. injection Hsz as _ _ _ E4 _ _. unfold room. cbn in *. lia. }
  assert (pipe (line0 s) = c :: pipe (line0 s2)) as Hpipe by (unfold pipe; cbn; by rewrite Hq).
  destruct (tx_enable (fifo0 s)) eqn:Et.
  - destruct (loop_xmt_ok (line0 s2) Hok0' Hp0) as ([] & l0 & E0 & S0 & Hp0' & Hpi & Hdone).
    eexists tt, _. split; [unfold on0; by rewrite E0|].
    pose proof (flow_frame _ _ _ _ _ (sends_flow _ _ S0)) as Hfr. cbn in Hfr. rewrite Hfr.
    destruct l0 as [c0 [w r] rep]. cbn in *. subst r. split_and!; [split; cbn|by rewrite Hpipe, <- Hpi|done].
    + split; try done; cbn.
      * pose proof (sends_ok _ _ S0) as [? ? ? ? ?]. by split.
      * by destruct Hok1''; split.
      * destruct Hdone as [?|[Ew Etx]]; [by left|right]. split; [by rewrite Etx, Htx|rewrite Ew; done].
    + done.
    + exact (sends_in _ _ S0).
    + exact Ho1.
    + done.
    + split; [exact (flow_sizes _ _ _ _ _ (sends_flow _ _ S0))|done].
  - destruct Hready as [H0|[? _]]; [|congruence]. apply wp_ret. split_and!; [|done|done]. split; try done. split; try done. by left.
Qed.

Lemma deliver_ok n : forall s, towards1 s -> load s <= Z.of_nat n -> load s <= room s ->
  wp (deliver fifo0 take0 (fun c => on1 (serial_rcv_char c)) (on0 serial_xmt_char) n)
    (fun _ s' => brought s (pipe (line0 s)) s' /\ pipe (line0 s') = []) s.
Proof using.
  induction n as [|n IH]; intros s Hto Hl Hr; cbn [deliver]; apply wp_get; pose proof (length_pipe0 _ Hto) as Hlen;
    pose proof (queued_num _ (ok_dev _ (to_ok0 _ Hto))) as Hq; cbn in Hq;
    pose proof (buf_ok_nb _ (ok_out _ (to_ok0 _ Hto))) as Hb; cbn in Hb.
  all: destruct (Z.eqb_spec (num (fifo0 s)) 0) as [E|E].
  1, 3: assert (pipe (line0 s) = []) as Hpe by (apply length_zero_iff_nil; destruct (to_ready _ Hto) as [?|[_ ?]]; unfold load in *; lia);
    apply wp_ret; split; [|done]; rewrite Hpe; split; try done; by rewrite app_nil_r.
  { unfold load in *. lia. }
  destruct (pass_ok s Hto ltac:(lia) ltac:(unfold load in *; lia)) as (c & ([] & s' & Ep & Hbr & Hpi & Hro)).
  assert (load s' = load s - 1) as Hload.
  { rewrite <- (length_pipe0 _ Hto), <- (length_pipe0 _ (br_to _ _ _ Hbr)), Hpi. cbn. lia. }
  destruct (IH s' (br_to _ _ _ Hbr) ltac:(lia) ltac:(lia)) as ([] & s2 & E2 & Hbr2 & Hpi2).
  exists tt, s2. split; [|split; [rewrite Hpi; by apply (brought_trans _ [c] s')|done]].
  revert Ep. unfold mbind, M_bind. destruct (take0 s) as [[c' s1]|]; [|done]. destruct (on1 _ s1) as [[[] s3]|]; [|done].
  cbn [get_state]. intros ->. exact E2.
Qed.

(** ** Both directions *)
Definition swap s : loop := Loop (channel1 s) (channel0 s) (fifo1 s) (fifo0 s).

Lemma swap_deliver n : forall s,
  deliver fifo1 take1 (fun c => on0 (serial_rcv_char c)) (on1 serial_xmt_char) n s =
  match deliver fifo0 take0 (fun c => on1 (serial_rcv_char c)) (on0 serial_xmt_char) n (swap s) with
  | Some (a, s') => Some (a, swap s') | None => None end.
Proof using.
  assert (forall A (m : M line A) s, on0 m s = match on1 m (swap s) with Some (a, s') => Some (a, swap s') | None => None end) as H0.
  { intros A m [? ? ? ?]. unfold on0, on1. cbn. unfold line0, line1. cbn. by destruct (m _) as [[? [? [? ?] ?]]|]. }
  assert (forall A (m : M line A) s, on1 m s = match on0 m (swap s) with Some (a, s') => Some (a, swap s') | None => None end) as H1.
  { intros A m [? ? ? ?]. unfold on0, on1. cbn. unfold line0, line1. cbn. by destruct (m _) as [[? [? [? ?] ?]]|]. }
  assert (forall s, take1 s = match take0 (swap s) with Some (a, s') => Some (a, swap s') | None => None end) as Ht.
  { intros [? ? ? ?]. unfold take0, take1. cbn. by destruct (fifo_take _) as [[? ?]|]. }
  induction n as [|n IH]; intros s; cbn [deliver]; unfold mbind, M_bind; cbn [get_state].
  - change (fifo0 (swap s)) with (fifo1 s). destruct (num (fifo1 s) =? 0); [by destruct s|done].
  - change (fifo0 (swap s)) with (fifo1 s). destruct (num (fifo1 s) =? 0); [by destruct s|].
    rewrite Ht. destruct (take0 (swap s)) as [[c s1]|]; [|done].
    rewrite H0. replace (swap (swap s1)) with s1 by by destruct s1. destruct (on1 _ s1) as [[u s2]|]; [|done].
    change (fifo1 (swap s2)) with (fifo0 s2). destruct (tx_enable (fifo0 s2)).
    + rewrite H1. replace (swap (swap s2)) with s2 by by destruct s2. destruct (on0 _ s2) as [[? s3]|]; [|done].
      rewrite IH. by replace (swap (swap s3)) with s3 by by destruct s3.
    + cbn. rewrite IH. by replace (swap (swap s2)) with s2 by by destruct s2.
Qed.

(** Two channels without flow control between which everything will be delivered. *)
Definition both_ways s : Prop := towards1 s /\ towards1 (swap s).

(** The second loop of the handler. *)
Lemma deliver_back n s : towards1 (swap s) -> load (swap s) <= Z.of_nat n -> load (swap s) <= room (swap s) ->
  wp (deliver fifo1 take1 (fun c => on0 (serial_rcv_char c)) (on1 serial_xmt_char) n)
    (fun _ s' => brought (swap s) (pipe (line1 s)) (swap s') /\ pipe (line1 s') = []) s.
Proof using.
  intros Hto Hl Hr. destruct (deliver_ok n (swap s) Hto Hl Hr) as ([] & s' & E & Hb & Hp).
  exists tt, (swap s'). split; [by rewrite swap_deliver, E|]. destruct s'. done.
Qed.

(** A tick of the alarm: channel 1 receives what is on its way from channel 0 and the
    other way round. *)
Lemma alarm_ok s : both_ways s -> load s <= room s -> load (swap s) <= room (swap s) ->
  wp alarm_handler (fun _ s' => both_ways s' /\
    inq (line1 s') = inq (line1 s) ++ pipe (line0 s) /\ inq (line0 s') = inq (line0 s) ++ pipe (line1 s) /\
    pipe (line0 s') = [] /\ pipe (line1 s') = []) s.
Proof using.
  intros [H0 H1] Hr0 Hr1. unfold alarm_handler. apply wp_get, wp_bind.
  pose proof (length_pipe0 _ H0). pose proof (length_pipe0 _ H1).
  eapply wp_mono; [apply deliver_ok; [done|unfold in_flight, load in *; lia|done]|]. intros [] s1 [Hb1 Hp1].
  destruct Hb1 as [Hto1 Hin1 Hin0 Hout1 Hf1 [Hsz0 Hsz1]]. apply wp_get.
  assert (towards1 (swap s1)) as Hto1'.
  { destruct Hto1 as [O0 O1 P0 P1 _], H1 as [_ _ _ _ Hready]. split; try done. cbn in *. by rewrite Hout1, Hf1. }
  assert (load (swap s1) = load (swap s)) as El by (unfold load; cbn; by rewrite Hf1, Hout1).
  assert (room (swap s1) = room (swap s)) as Er by (unfold room; cbn; by rewrite Hin0).
  pose proof (length_pipe0 _ Hto1').
  eapply wp_mono; [apply deliver_back; [done|unfold in_flight, load in *; cbn in *; lia|lia]|]. intros [] s2 [Hb2 Hp2].
  destruct Hb2 as [Hto2 Hin2 Hin3 Hout2 Hf2 [Hsz2 Hsz3]]. split_and!; [split| | | |done].
  - destruct Hto2 as [O0 O1 P0 P1 _], Hto1 as [_ _ _ _ Hready]. split; try done. cbn in *. by rewrite Hout2, Hf2.
  - done.
  - rewrite <- Hin1. unfold inq. cbn in *. by rewrite Hin3.
  - change (inq (line0 s2)) with (inq (line1 (swap s2))). rewrite Hin2. f_equal.
    + unfold inq. cbn. by rewrite Hin0.
    + unfold pipe, outq. cbn in *. by rewrite Hf1, Hout1.
  - rewrite <- Hp1. unfold pipe, outq. cbn in *. by rewrite Hf2, Hout2.
Qed.

Lemma loop_starts l : start_xmit l = serial_xmt_char (@set_dev loop_serial_funs (enable true (dev l)) l).
Proof using. done. Qed.

(** Writing what the output buffer has room for. *)
Lemma loop_write_ok polls bs s :
  both_ways s -> len (out_cbuf (channel0 s)) <> 0 -> Z.of_nat (length bs) < 2 ^ 31 ->
  nb (out_cbuf (channel0 s)) + Z.of_nat (length bs) <= len (out_cbuf (channel0 s)) ->
  wp (on0 (serial_write polls bs (Z.of_nat (length bs)))) (fun o s' => o = Done (ENOERR, Z.of_nat (length bs)) /\
    both_ways s' /\ pipe (line0 s') = pipe (line0 s) ++ bs /\ channel1 s' = channel1 s /\ fifo1 s' = fifo1 s /\
    inq (line0 s') = inq (line0 s) /\ in_cbuf (channel0 s') = in_cbuf (channel0 s)) s.
Proof using.
  intros [H0 H1] Hlen Hn Hroom. pose proof (flow_out_flags (set_abort false) (line0 s) (to_ok0 _ H0) eq_refl) as F0.
  set (l0 := set_out (set_abort false) (line0 s)) in *.
  destruct (write_loop_room (Z.of_nat (length bs)) (write_fuel (Z.of_nat (length bs))) l0 (Z.of_nat (length bs)) bs) as (l1 & E1 & R1 & Hd1 & Hf1);
    [apply F0|unfold write_fuel; lia|lia|done|].
  assert (plain l1) as Hp1 by (eapply (plain_same (line0 s)); [exact Hf1|apply H0]). rewrite take_ge in R1 by lia.
  set (l2 := @set_dev loop_serial_funs (enable true (dev l1)) l1).
  assert (sends l1 l2) as S2 by (apply sends_dev; [by eapply runs_ok|apply (ok_dev _ (runs_ok _ _ _ R1))|done|done]).
  destruct (loop_xmt_ok l2 (sends_ok _ _ S2) Hp1) as ([] & l3 & E3 & S3 & Hp3 & Hpipe & Hdone).
  assert (on0 (serial_write polls bs (Z.of_nat (length bs))) s =
    Some (Done (ENOERR, Z.of_nat (length bs)), Loop (chan l3) (channel1 s) (write_fifo (dev l3)) (read_fifo (dev l3)))) as E.
  { unfold on0, serial_write. unfold mbind, M_bind. cbn [modify get_state]. fold l0. rewrite s32_small by lia.
    replace (len (out_cbuf (chan l0)) =? 0) with false by (cbn; lia). rewrite E1. unfold write_done, mbind, M_bind. cbn [get_state].
    destruct Hp1 as (_ & _ & ->). rewrite loop_starts. fold l2. by rewrite E3. }
  eexists _, _. split; [exact E|]. split; [done|].
  assert (read_fifo (dev l3) = fifo1 s) as Hr.
  { pose proof (flow_frame _ _ _ _ _ (sends_flow _ _ S3)) as Hr. cbn in Hr. by rewrite Hr, Hd1. }
  assert (in_cbuf (chan l3) = in_cbuf (channel0 s)) as Hi.
  { rewrite (sends_in _ _ S3). cbn. by rewrite (runs_in _ _ _ R1). }
  destruct l3 as [c3 [w3 r3] rep3]. cbn in Hr, Hi. subst r3. cbn. split_and!; [split| |done|done| |exact Hi].
  - split; try done; [pose proof (sends_ok _ _ S3) as [? ? ? ? ?]; by split|by destruct H0 as [_ [] _ _ _]; split|by apply H0|].
    cbn in *. destruct Hdone as [?|[Ew ->]]; [by left|right]. by rewrite Ew.
  - destruct H1 as [O0 O1 P0 P1 Hready]. split; try done; [by destruct O0; split|pose proof (sends_ok _ _ S3) as [? ? ? ? ?]; by split].
  - transitivity (pipe l2); [exact Hpipe|].
    destruct (flow_out _ _ _ _ _ (runs_flow _ _ _ R1)) as (ds & ws & Hw & Hq & Ho).     rewrite Hd1 in Hq. rewrite <- (app_nil_r (fifo (dev l0))) in Hq at 1. apply app_inv_head in Hq. subst ws.
    inversion Hw; subst; [|by destruct ws|by destruct ws]. cbn in Ho. unfold pipe. rewrite <- app_assoc. f_equal; [|symmetry; exact Ho]. cbn. by rewrite Hd1.
  - unfold inq. cbn. by rewrite Hi.
Qed.

(** Reading what is there. *)
Lemma read_there n l : line_ok l -> 0 < n <= nb (in_cbuf (chan l)) ->
  wp (serial_read n) (fun o l' => o = Done (ENOERR, n, take (Z.to_nat n) (inq l))) l.
Proof using.
  intros Hok Hn. pose proof (length_contents _ (ok_in _ Hok)) as Hlen. fold (inq l) in Hlen. pose proof (buf_ok_nb _ (ok_in _ Hok)).
  eapply wp_mono; [apply serial_read_start; [done|lia|lia]|]. intros o l' (r & T & He).
  pose proof (flow_in _ _ _ _ _ (turn_flow _ _ _ _ T)) as Hq. rewrite app_nil_r in Hq. change (inq (in_unaborted l)) with (inq l) in Hq.
  assert (inq l' = [] -> n <= Z.of_nat (length r)) as Hall.
  { intros E. rewrite E, app_nil_r in Hq. rewrite <- Hq. lia. }
  destruct o as [[[res n'] acc]|s]; cbn in He.
  - destruct He as (-> & -> & He). destruct He as [[-> He]|(_ & ? & E & _)]; [|apply Hall in E; lia].
    rewrite He. f_equal. f_equal. rewrite Hq, <- He, Nat2Z.id. by rewrite take_app_length.
  - destruct He as (_ & ? & E & _). apply Hall in E. lia.
Qed.
End LoopSpec.
