(* ===== verification/SerialTheorems.v ===== *)
(** * The serial driver and the loop driver: theorems

    What the layer of io/serial guarantees to the threads that use a line, for every
    hardware driver that keeps its laws; and what the loop driver does with it. *)
From S2P Require Import Prelude Serial SerialSpec SerialOps SerialWrite SerialRead SerialConf SerialRun SerialWake SerialFlow SerialPeer SerialLoop SerialLoopSpec.

(** ** A line of the loop driver, with buffers of eight bytes *)
Module Sample.
#[local] Existing Instance default_options.

Definition info : cyg_serial_info_t := SerialInfo 13 1 0 8 0.
Definition powered : loop := loop_start info 8.
Definition idle : loop := state_after (_ ← loop_serial_init0; loop_serial_init1) powered.
Definition opened : line := line0 idle.

Lemma ring_dec b : (Z.of_nat (length (data b)) =? len b) && (0 <=? get b) && (get b <? len b) && (0 <=? nb b) && (nb b <=? len b) &&
  (put b =? (get b + nb b) mod len b) = true -> ring_ok b.
Proof. rewrite !andb_true_iff. intros [[[[[? ?] ?] ?] ?] ?]. split; lia. Qed.

Lemma opened_ok : line_ok opened.
Proof. split; [right; by apply ring_dec|right; by apply ring_dec|split; [by apply ring_dec|done]|by left|done]. Qed.

Lemma opened_fresh : fresh opened.
Proof. split; [apply opened_ok|]. by split_and!. Qed.

Lemma idle_both : both_ways idle.
Proof.
  split; split; try (by left); try (split; try (right; by apply ring_dec); [split; [by apply ring_dec|done]|by left|done]); by split_and!.
Qed.

(** Thirty characters are written: FIFO and buffer take twenty-four and the writer sleeps.
    The hardware brings sixteen on the line and asks for more, which wakes the writer. A
    reader that asks for two sleeps until the first of two characters arrives. *)
Definition ten : list byte := [65; 66; 67; 68; 69; 70; 71; 72; 73; 74].
Definition thirty : list byte := ten ++ ten ++ ten.
Definition l1 : line := state_after (serial_write 5 thirty 30) opened.
Definition l2 : line := set_dev (Drv := loop_serial_funs) (LoopInfo (Fifo true 0 0 0 (replicate 17 0)) fifo_init) l1.
Definition l3 : line := state_after (serial_read 2) l2.
Definition l4 : line := state_after serial_xmt_char l3.
Definition l5 : line := state_after (serial_rcv_char 90) l4.
Definition l6 : line := state_after (serial_rcv_char 91) l5.
Definition writer : sleeper * nat := (SWrite 30 6 (drop 24 thirty), 2%nat).
Definition reader : sleeper * nat := (SRead 2 0 [], 0%nat).
Definition h2 : history := History (take 24 thirty) [] [] (take 16 thirty).
Definition h5 : history := History (take 24 thirty) [90] [] (take 16 thirty).
Definition h6 : history := History (take 24 thirty) [90; 91] [] (take 16 thirty).

Section Run.
Variable P : event -> Prop.
Hypothesis HP : forall e, civil e -> unforced e -> P e.

Lemma reach_eq e s s1 s2 : civil e -> unforced e -> reachable P s -> step e s s1 -> s1 = s2 -> reachable P s2.
Proof using HP. intros Hc Hu R St <-. eapply reach_step; [by apply HP|done..]. Qed.

Lemma run1 : reachable P (System l1 [writer], History (take 24 thirty) [] [] []).
Proof using HP.
  eapply reach_eq; [| |apply reach_fresh, opened_fresh|eapply (step_write 5 thirty 30 (Asleep (SWrite 30 6 (drop 24 thirty))) opened l1)|];
    by vm_compute.
Qed.

Definition lten : line := state_after (serial_write 5 ten 10) opened.
Lemma run_ten : reachable P (System lten [], History ten [] [] []).
Proof using HP.
  eapply reach_eq; [| |apply reach_fresh, opened_fresh|eapply (step_write 5 ten 10 (Done (0, 10)) opened lten)|]; by vm_compute.
Qed.

Lemma run2 : reachable P (System l2 [writer], h2).
Proof using HP.
  eapply reach_eq; [| |apply run1|apply (step_dev (dev l2) (take 16 thirty))|]; by vm_compute.
Qed.

Lemma run3 : reachable P (System l3 [writer; reader], h2).
Proof using HP.
  eapply reach_eq; [| |apply run2|eapply (step_read 2 (Asleep (SRead 2 0 [])) l2 l3)|]; by vm_compute.
Qed.

Lemma run4 : reachable P (System l4 [writer; reader], h2).
Proof using HP.
  eapply reach_eq; [| |apply run3|eapply (step_xmt l3 l4)|]; by vm_compute.
Qed.

Lemma run5 : reachable P (System l5 [writer; reader], h5).
Proof using HP.
  eapply reach_eq; [| |apply run4|eapply (step_rcv 90 l4 l5)|]; by vm_compute.
Qed.

Lemma run6 : reachable P (System l6 [writer; reader], h6).
Proof using HP.
  eapply reach_eq; [| |apply run5|eapply (step_rcv 91 l5 l6)|]; by vm_compute.
Qed.
End Run.
End Sample.

(** ** What every line keeps *)
Section Theorems.
Context `{Opts : SerialOptions} `{Laws : SerialLaws}.
Implicit Types (l : line).

(** C5: whatever threads and interrupts do, in whatever order: the bytes written are, in
    the order in which they were accepted, on the line or in the hardware (with
    characters of flow control between) and behind them in the output buffer; the
    characters stored are those that were read and behind them those in the input
    buffer. Nothing is lost, doubled or reordered, and the indices stay in the buffers. *)
Theorem serial_order P s : reachable P s ->
  line_ok (ln s.1) /\
  (exists ds, wire ds (wired s.2 ++ fifo (dev (ln s.1))) /\ accepted s.2 = ds ++ outq (ln s.1)) /\
  stored s.2 = delivered s.2 ++ inq (ln s.1).
Proof using. intros H%reachable_inv. split_and!; apply H. Qed.

(** Not a writer. *)
Definition finished (t : sleeper * nat) : Prop := match t.1 with SWrite _ _ _ => False | _ => True end.

Lemma owed_nothing ts : Forall (fun t => sleeper_ok t.1) ts -> 0 <= owed ts /\ (owed ts <= 0 -> Forall finished ts).
Proof using.
  intros H. induction H as [|[k t] ts Hk _ [IH1 IH2]]; [by split|]. rewrite owed_cons. unfold owes. cbn in *.
  destruct k as [n size buf|n size acc|res]; cbn in Hk; (split; [lia|]); intros; try lia; (constructor; [done|apply IH2; lia]).
Qed.

(** C7: when OUTPUT_DRAIN answers without waiting, nothing that a thread asked to write
    is left in the layer: the output buffer is empty, no writer sleeps, and all that was
    accepted is on the line or in the hardware; provided that the sleeping writers have
    less than 2^31 bytes left, as what is pending is counted in an int. *)
Theorem serial_drained P s xb n r l' :
  reachable P s -> owed (asleep s.1) < 2 ^ 31 ->
  serial_get_config CYG_IO_GET_CONFIG_SERIAL_OUTPUT_DRAIN xb (Some n) (ln s.1) = Some (Done r, l') ->
  outq (ln s.1) = [] /\ wire (accepted s.2) (wired s.2 ++ fifo (dev (ln s.1))) /\
  Forall finished (asleep s.1).
Proof using.
  intros R%reachable_inv Ho E. destruct (inv_line _ R) as (Hok & Hlo & Hli & _).
  destruct (wp_run _ _ _ _ _ (get_config_ok _ xb (Some n) _ Hok Hlo Hli ltac:(by eexists)) E) as (_ & _ & Ha).
  destruct (Ha eq_refl) as [Hp Hq]. split_and!; [done| |].
  - destruct (inv_out _ R) as (ds & Hw & ->). by rewrite Hq, app_nil_r.
  - apply owed_nothing; [apply (inv_asleep _ R)|]. pose proof (inv_pending _ R) as Hp'. rewrite Hp in Hp'.
    destruct (Z.le_gt_cases (owed (asleep s.1)) 0); [done|]. rewrite s32_small in Hp' by lia. lia.
Qed.

(** A sleeper goes on in the state that its wake-up finds. *)
Definition goes_on (i : nat) (k : sleeper) : event :=
  match k with SWrite _ _ _ => EWriteGo i true | SRead _ _ _ => EReadGo i true | SDrain _ => EDrainGo i true end.

Lemma told_goes_on s i t : inv s -> asleep s.1 !! i = Some t -> told (ln s.1) t -> exists s', step (goes_on i t.1) s s'.
Proof using.
  destruct s as [[l ts] h], t as [k t]. intros Hinv Hi Ht. cbn in *. pose proof (Forall_lookup_1 _ _ _ _ (inv_asleep _ Hinv) Hi) as Hk.
  destruct (inv_line _ Hinv) as (Hok & _ & Hli & _). cbn in *. destruct k as [n size buf|n size acc|res]; cbn in Hk.
  - destruct Hk as (Hs & Hn & Hb).
    destruct (serial_write_resumes true l n size buf (inv_ready _ _ _ size buf Hinv ltac:(lia) Hb) ltac:(lia)) as (o & l' & E & _).
    eexists. by apply (step_write_go i true n size buf t o l l' ts h).
  - destruct Hk as [-> Hlt]. destruct (serial_read_resumes true n acc l Hok ltac:(lia)) as (o & l' & E & _).
    eexists. by apply (step_read_go i true n (Z.of_nat (length acc)) acc t o l l' ts h).
  - destruct (drain_ok res l Hok) as (o & l' & E & _). eexists. by apply (step_drain_go i true res t o l l' ts h).
Qed.

Lemma reachable_watched P s : (forall e, P e -> civil e) -> reachable P s -> watched s.1.
Proof using.
  intros HP R. induction R as [l (_ & _ & _ & _ & _ & _ & _ & _ & Ha & Hb & Hm & Hn & _)|e [s h] [s' h'] He R IH St].
  - split; cbn; [unfold modes; congruence|..]; unfold alert; cbn; split_and!; auto using Forall_nil_2.
  - eapply step_watched; [by apply HP|by eapply reachable_inv|done|done].
Qed.

Lemma alert_told_all b ts : alert b ts -> waiting b = false -> Forall (fun t => t < wait b)%nat ts.
Proof using. intros (_ & [?|?] & _) E; [congruence|done]. Qed.

Lemma wake_awake b : waiting (wake_waiting b) = false.
Proof using. unfold wake_waiting. by destruct (waiting b) eqn:E. Qed.

Lemma rcv_wakes c l l' : serial_rcv_char c l = Some (tt, l') -> flow_char l c = false -> waiting (in_cbuf (chan l')) = false.
Proof using.
  unfold serial_rcv_char, flow_char. rewrite andb_orb_distrib_r. unfold mbind, M_bind. cbn [get_state].
  intros E [Hoff Hon]%orb_false_iff. rewrite Hoff, Hon in E. repeat case_match; simplify_eq.
  all: cbn [modify] in E; injection E as <-; cbn; apply wake_awake.
Qed.

(** C6: no wake-up is lost. In blocking mode, when threads are neither released by force
    nor drain the line: behind an interrupt that empties the output buffer every thread
    that sleeps on it can go on, and so can every reader behind a character that
    arrives. *)
Theorem serial_wakeups P s e s' i t :
  (forall e, P e -> civil e) -> reachable P s -> P e -> step e s s' -> asleep s'.1 !! i = Some t ->
  match e with
  | EXmt => reads t.1 = false /\ 0 < nb (out_cbuf (chan (ln s.1))) /\ nb (out_cbuf (chan (ln s'.1))) = 0
  | ERcv c => reads t.1 = true /\ flow_char (ln s.1) c = false
  | _ => False
  end -> exists s'', step (goes_on i t.1) s' s''.
Proof using.
  intros HP R He St Hi Hc. pose proof (reach_step _ _ _ _ He R St) as R'. pose proof (reachable_watched _ _ HP R') as W.
  apply told_goes_on; [by eapply reachable_inv|done|].
  assert (forall r, reads t.1 = r -> t.2 ∈ tickets r (asleep s'.1)) as Ht.
  { intros r Hr. unfold tickets. apply list_elem_of_fmap. exists t. split; [done|]. apply list_elem_of_filter. split; [done|].
    by eapply list_elem_of_lookup_2. }
  pose proof (proj1 (inv_line _ (reachable_inv _ _ R))) as Hok. destruct St; try done; cbn in *.
  - destruct Hc as (Hr & Hn & Hz). destruct (wp_run _ _ _ _ _ (xmt_char_full l Hok) H) as (_ & Hw & _).
    pose proof (alert_told_all _ _ (watched_out _ W) (Hw Hn Hz)) as Hall. rewrite Forall_forall in Hall.
    specialize (Hall _ (Ht _ Hr)). unfold told, cond_of. by destruct (t.1).
  - destruct Hc as (Hr & Hf). pose proof (alert_told_all _ _ (watched_in _ W) (rcv_wakes _ _ _ H Hf)) as Hall.
    rewrite Forall_forall in Hall. specialize (Hall _ (Ht _ Hr)). unfold told, cond_of. by destruct (t.1).
Qed.

(** ** The result of a call *)



(** C19: flow control cannot lock up. Unless it is forced, a receiver that is throttled
    always holds at least the low water mark of characters. With XON and XOFF, two
    different characters that are not 0, not configured anew, with a driver that keeps the flags of the line, and as long as the
    data written has neither of the two characters in it: the peer, once it has received
    what is on its way, is stopped exactly when the receiver is throttled; so when the
    mark is not 0 a reader that finds nothing finds the peer running. (For flow control by
    RTS or DTR only the first part is stated: the driver sets the line.) *)
Theorem receiver_restarts P l0 s :
  fresh l0 -> (forall e, P e -> unforced e) -> reachable_from P (opened_as l0) s ->
  (in_throttled (ln s.1) = true -> low_water (in_cbuf (chan (ln s.1))) <= Z.of_nat (length (inq (ln s.1)))) /\
  (XON_CHAR <> 0 /\ XOFF_CHAR <> 0 /\ XON_CHAR <> XOFF_CHAR ->
   (forall key x n i h r i' h', key <> CYG_IO_SET_CONFIG_SERIAL_INFO ->
      hw_config key x n (i, h) = Some (r, (i', h')) -> flags i' = flags i) ->
   has_config l0 CYGNUM_SERIAL_FLOW_XONXOFF_RX = true -> xchar (chan l0) = 0 -> (forall e, P e -> plain_event e) ->
   peer_stopped s = in_throttled (ln s.1) /\
   (0 < low_water (in_cbuf (chan (ln s.1))) -> inq (ln s.1) = [] -> peer_stopped s = false)).
Proof using.
  intros Hl HP R. pose proof (reachable_from_fresh _ _ _ Hl R) as Rs. pose proof (reachable_held _ _ HP Rs) as [_ Hh].
  assert (in_throttled (ln s.1) = true -> low_water (in_cbuf (chan (ln s.1))) <= Z.of_nat (length (inq (ln s.1)))) as Hlow.
  { intros Ht. specialize (Hh Ht). unfold inq. rewrite length_contents by apply (ok_in _ (proj1 (inv_line _ (reachable_inv _ _ Rs)))). lia. }
  split; [exact Hlow|]. intros Hx Hcfg Hc Hx0 Hpl.
  pose proof (in_step_peer s (reachable_agrees Hx Hcfg P l0 s Hpl (conj Hl (conj Hc Hx0)) R)) as Hp. split; [exact Hp|].
  rewrite Hp. intros Hm Hn. destruct (in_throttled (ln s.1)); [|done]. specialize (Hlow eq_refl). rewrite Hn in Hlow. cbn in Hlow. lia.
Qed.
End Theorems.

(** ** The loop driver *)
Section Loops.
Context `{Opts : SerialOptions}.

(** C20: what is written on channel 0 of the loop driver is read on channel 1 after one
    tick of the alarm, when no flow control is configured, the output buffer of the one and
    the input buffer of the other have room for it, and nothing else was on the way. *)
Theorem loop_roundtrip polls bs s :
  both_ways s -> pipe (line0 s) = [] -> pipe (line1 s) = [] -> inq (line1 s) = [] ->
  0 < Z.of_nat (length bs) < 2 ^ 31 ->
  Z.of_nat (length bs) <= len (out_cbuf (channel0 s)) -> Z.of_nat (length bs) <= len (in_cbuf (channel1 s)) ->
  wp (w ← on0 (serial_write polls bs (Z.of_nat (length bs)));
      _ ← alarm_handler;
      r ← on1 (serial_read (Z.of_nat (length bs)));
      mret (w, r))
    (fun a _ => a = (Done (ENOERR, Z.of_nat (length bs)), Done (ENOERR, Z.of_nat (length bs), bs))) s.
Proof using.
  intros [H0 H1] Hp0 Hp1 Hi Hn Ho Hin.
  pose proof (length_pipe0 _ H0) as L0. pose proof (length_pipe0 _ H1) as L1. change (line0 (swap s)) with (line1 s) in L1.
  rewrite Hp0 in L0. rewrite Hp1 in L1. unfold load in L0, L1. cbn in L0, L1.
  pose proof (queued_num _ (ok_dev _ (to_ok0 _ H0))) as Hf0. pose proof (buf_ok_nb _ (ok_out _ (to_ok0 _ H0))) as Hb0. cbn in Hf0, Hb0.
  pose proof (length_contents _ (ok_in _ (to_ok1 _ H0))) as Hi1. fold (inq (line1 s)) in Hi1. rewrite Hi in Hi1. cbn in Hi1.
  pose proof (buf_ok_nb _ (ok_in _ (to_ok0 _ H0))) as Hb2. cbn in Hb2.
  apply wp_bind. eapply wp_mono; [apply loop_write_ok; [by split|lia..]|].
  intros o s1 (-> & [G0 G1] & Hq & Hc & Hf & _ & Hin0). rewrite Hp0 in Hq. cbn [app] in Hq.
  pose proof (length_pipe0 _ G0) as L2. rewrite Hq in L2. pose proof (length_pipe0 _ G1) as L3. change (line0 (swap s1)) with (line1 s1) in L3.
  assert (pipe (line1 s1) = []) as Hq1 by (rewrite <- Hp1; unfold pipe, outq; cbn; by rewrite Hc, Hf).
  rewrite Hq1 in L3. cbn in L3. assert (inq (line1 s1) = []) as Hi2 by (rewrite <- Hi; unfold inq; cbn; by rewrite Hc).
  apply wp_bind. eapply wp_mono; [apply alarm_ok; [by split|unfold room; rewrite Hc; lia|unfold room; cbn; rewrite Hin0; lia]|].
  intros [] s2 ([K0 K1] & Hr & _). rewrite Hi2, Hq in Hr. cbn [app] in Hr.
  pose proof (length_contents _ (ok_in _ (to_ok1 _ K0))) as Hnb. fold (inq (line1 s2)) in Hnb. rewrite Hr in Hnb.
  apply wp_bind. destruct (read_there (Z.of_nat (length bs)) (line1 s2) (to_ok1 _ K0) ltac:(lia)) as (r & l' & E & ->).
  eexists _, _. split; [unfold on1; by rewrite E|]. apply wp_ret. by rewrite Nat2Z.id, Hr, firstn_all.
Qed.
End Loops.

(** ** The theorems on the sample line *)
Module Witnesses.
Import Sample.
#[local] Existing Instance default_options.

Definition s5 : system * history := (System l5 [writer; reader], h5).
Definition sten : system * history := (System lten [], History ten [] [] []).

Lemma serial_order_witness :
  reachable (fun _ => True) s5 /\
  exists ds, wire ds (wired s5.2 ++ fifo (dev (ln s5.1))) /\ accepted s5.2 = ds ++ outq (ln s5.1).
Proof.
  assert (reachable (fun _ => True) s5) as R by by apply run5. split; [exact R|].
  destruct (serial_order (fun _ => True) s5 R) as (_ & H & _). exact H.
Defined.

Lemma serial_drained_witness : reachable (fun _ => True) sten /\
  outq (ln sten.1) = [] /\ wire (accepted sten.2) (wired sten.2 ++ fifo (dev (ln sten.1))).
Proof.
  assert (reachable (fun _ => True) sten) as R by by apply run_ten. split; [exact R|].
  destruct (serial_drained (fun _ => True) sten XNull 0 (ENOERR, Some 0, XNull) lten R) as (H1 & H2 & _); [by vm_compute..|].
  exact (conj H1 H2).
Defined.

Lemma serial_wakeups_witness : exists s, step (EWriteGo 0 true) (System l4 [writer; reader], h2) s.
Proof.
  assert (reachable civil (System l3 [writer; reader], h2)) as R by by apply run3.
  assert (step EXmt (System l3 [writer; reader], h2) (System l4 [writer; reader], h2)) as St by (apply step_xmt; by vm_compute).
  refine (serial_wakeups civil _ EXmt _ 0 writer (fun _ H => H) R I St eq_refl _). by vm_compute.
Defined.



(** A line with XON and XOFF: the second character that arrives throttles the receiver,
    and a reader that takes both lets the peer go on. *)
Definition softly : line := set_info (SerialInfo 13 1 0 8 1) opened.
Definition soft1 : line := state_after (serial_rcv_char 90) softly.
Definition soft2 : line := state_after (serial_rcv_char 91) soft1.
Definition soft3 : line := state_after (serial_read 2) soft2.
Definition stopped_there : system * history := (System soft2 [], History [] [90; 91] [] []).
Definition running_again : system * history := (System soft3 [], History [] [90; 91] [90; 91] []).

Lemma softly_fresh : fresh softly.
Proof. split; [by destruct opened_ok; split|]. by split_and!. Qed.

Lemma step_to P s0 e s s1 s2 : P e -> reachable_from P s0 s -> step e s s1 -> s1 = s2 -> reachable_from P s0 s2.
Proof. intros He R St <-. by eapply from_step. Qed.

Definition soft_event (e : event) : Prop := unforced e /\ plain_event e.

Lemma reach_soft1 : reachable_from soft_event (opened_as softly) (System soft1 [], History [] [90] [] []).
Proof. apply (step_to _ _ (ERcv 90) _ _ _ (conj I I) (from_start _ _) (step_rcv 90 softly soft1 _ _ ltac:(by vm_compute))). by vm_compute. Qed.

Lemma reach_stopped : reachable_from soft_event (opened_as softly) stopped_there.
Proof. apply (step_to _ _ (ERcv 91) _ _ _ (conj I I) reach_soft1 (step_rcv 91 soft1 soft2 _ _ ltac:(by vm_compute))). by vm_compute. Qed.

Lemma reach_running : reachable_from soft_event (opened_as softly) running_again.
Proof.
  apply (step_to _ _ (ERead 2) _ _ _ (conj I I) reach_stopped (step_read 2 (Done (0, 2, [90; 91])) soft2 soft3 _ _ ltac:(lia) ltac:(by vm_compute))).
  by vm_compute.
Qed.

Lemma receiver_restarts_witness :
  (peer_stopped stopped_there = true /\
   low_water (in_cbuf (chan (ln stopped_there.1))) <= Z.of_nat (length (inq (ln stopped_there.1)))) /\
  peer_stopped running_again = false.
Proof.
  assert (forall e, soft_event e -> unforced e) as Hu by (intros e H; exact (proj1 H)).
  assert (forall e, soft_event e -> plain_event e) as Hp by (intros e H; exact (proj2 H)).
  assert (XON_CHAR <> 0 /\ XOFF_CHAR <> 0 /\ XON_CHAR <> XOFF_CHAR) as Hx by (split_and!; by vm_compute).
  assert (forall key x n i h r i' h', key <> CYG_IO_SET_CONFIG_SERIAL_INFO ->
      hw_config key x n (i, h) = Some (r, (i', h')) -> flags i' = flags i) as Hcfg.
  { intros key x n i h r i' h' Hk. cbn. unfold loop_serial_set_config. rewrite (proj2 (Z.eqb_neq _ _) Hk). by intros [= _ <- _]. }
  assert (in_throttled (ln stopped_there.1) = true) as Ht by by vm_compute.
  split.
  - destruct (receiver_restarts soft_event softly stopped_there softly_fresh Hu reach_stopped) as [H1 H2].
    destruct (H2 Hx Hcfg eq_refl eq_refl Hp) as [H3 _]. split; [exact (eq_trans H3 Ht)|exact (H1 Ht)].
  - destruct (receiver_restarts soft_event softly running_again softly_fresh Hu reach_running) as [_ H2].
    destruct (H2 Hx Hcfg eq_refl eq_refl Hp) as [_ H4]. apply H4; by vm_compute.
Defined.

Lemma loop_roundtrip_witness :
  wp (w ← on0 (serial_write 5 [1; 2; 3; 4; 5] 5); _ ← alarm_handler; r ← on1 (serial_read 5); mret (w, r))
    (fun a _ => a = (Done (ENOERR, 5), Done (ENOERR, 5, [1; 2; 3; 4; 5]))) idle.
Proof. apply (loop_roundtrip 5 [1; 2; 3; 4; 5] idle); [apply idle_both|by vm_compute..]. Defined.
End Witnesses.
