(* ===== verification/SerialFlaws.v ===== *)
(** * The serial driver and the loop driver: runs that go wrong

    Each lemma runs the definitions on a line of the loop driver and shows what a caller
    would not expect. *)
From S2P Require Import Prelude Serial SerialSpec SerialRun SerialLoop SerialTheorems.

Module SerialFlaws.
Import Sample.
#[local] Existing Instance default_options.

Definition value_of {A S} (r : option (A * S)) : option A := fst <$> r.
Definition set_word (key w : Z) : M line Z := r ← serial_set_config key (XWord w) (Some 4); mret (fst (fst r)).
Definition nonblocking : M line Z := set_word CYG_IO_SET_CONFIG_WRITE_BLOCKING 0.
Definition method : Z -> M line Z := set_word CYG_IO_SET_CONFIG_SERIAL_FLOW_CONTROL_METHOD.
Definition force : Z -> M line Z := set_word CYG_IO_SET_CONFIG_SERIAL_FLOW_CONTROL_FORCE.
(** The hardware brings on the line what it has. *)
Definition brings : M line unit := modify (set_dev (Drv := loop_serial_funs) (LoopInfo (Fifo true 0 0 0 (replicate 17 0)) fifo_init)).
Definition out_of {A} (f : cbuf_t -> A) : M line A := l ← get_state; mret (f (out_cbuf (chan l))).
Definition in_of {A} (f : cbuf_t -> A) : M line A := l ← get_state; mret (f (in_cbuf (chan l))).

(** A polled channel; its peer has sent XOFF, XON and two characters. *)
Definition polled : line :=
  Line (SERIAL_CHANNEL (SerialInfo 13 1 0 8 2)) (LoopInfo fifo_init (Fifo true 0 4 4 ([19; 17; 65; 66] ++ replicate 13 0))) [].

(** Characters of flow control count as read although nothing is stored for them: of
    three bytes that are reported one is in the caller's buffer. *)
Lemma polled_read_counts_dropped : value_of (serial_read 3 polled) = Some (Done (ENOERR, 3, [65])).
Proof. by vm_compute. Qed.

(** While a writer sleeps on [l1], one that does not block finds the buffer full, clears
    the flag that somebody waits and returns; when the line then empties the buffer, no
    broadcast follows for the sleeper. *)
Lemma nonblocking_writer_loses_wakeup : value_of ((
    w ← out_of wait; _ ← nonblocking; o ← serial_write 5 [1] 1; _ ← brings; _ ← serial_xmt_char;
    w' ← out_of wait; n ← out_of nb; p ← out_of pending; mret (o, w, w', n, p)) l1) =
  Some (Done (- EAGAIN, 0), 2%nat, 2%nat, 0, 6).
Proof. by vm_compute. Qed.

(** Two writers sleep and the wait of the first is released by force: it clears the flag
    for the second, which nothing wakes when the buffer empties. *)
Lemma released_writer_loses_wakeup : value_of ((
    o1 ← serial_write 5 [1] 1; w ← out_of wait; o2 ← serial_write_resume false 30 6 (drop 24 thirty);
    _ ← brings; _ ← serial_xmt_char; w' ← out_of wait; n ← out_of nb; p ← out_of pending; mret (o1, o2, w, w', n, p)) l1) =
  Some (Asleep (SWrite 1 1 [1]), Done (- EINTR, 24), 2%nat, 2%nat, 0, 1).
Proof. by vm_compute. Qed.

(** A writer sleeps. ABORT is asked for, but before the writer runs another thread calls
    write, which takes the request back: the writer goes on with its loop and sleeps again. *)
Lemma abort_lost : value_of ((
    _ ← serial_get_config CYG_IO_GET_CONFIG_SERIAL_ABORT XNull (Some 0); o1 ← serial_write 5 [1] 1;
    o2 ← serial_write_resume true 30 6 (drop 24 thirty); mret (o1, o2)) l1) =
  Some (Asleep (SWrite 1 1 [1]), Asleep (SWrite 30 6 (drop 24 thirty))).
Proof. by vm_compute. Qed.

(** A low water mark of one percent, which the options allow, of a buffer of 64 bytes is 0:
    a reader that takes all does not let the throttled peer go on, and waits for it. *)
Definition one_percent : SerialOptions :=
  {| XON_CHAR := 17; XOFF_CHAR := 19; LOW_WATER_PERCENT := 1; HIGH_WATER_PERCENT := 66 |}.
Definition opened64 : line :=
  state_after (serial_init (Opts := one_percent) (Drv := loop_serial_funs)) (line0 (loop_start (SerialInfo 13 1 0 8 1) 64)).
Fixpoint receives (n : nat) : M line unit :=
  match n with O => mret tt | S n => _ ← serial_rcv_char (Opts := one_percent) 65; receives n end.
Lemma low_water_zero_locks_up : value_of ((
    _ ← receives 40; o1 ← serial_read (Opts := one_percent) 40; o2 ← serial_read (Opts := one_percent) 1;
    l ← get_state; mret (match o1 with Done (res, n, _) => (res, n) | Asleep _ => (0, 0) end, o2, in_throttled l, fifo (dev l))) opened64) =
  Some (ENOERR, 40, Asleep (SRead 1 0 []), true, [19]).
Proof. by vm_compute. Qed.

(** An output buffer of less than four bytes has the mark 0: a full one always has room
    enough, so the flag of a writer is cleared at once and it never sleeps: it keeps
    asking, with the scheduler locked, as long as the hardware takes nothing. *)
Definition busy (w : nat) : line :=
  Line (Channel (SerialInfo 13 1 0 8 0) true (Cbuf [1; 2] 0 0 2 2 0 0 w false true false 0 []) (CBUF_INIT [] 0) 0 0 0 0)
    (LoopInfo (Fifo true 0 16 16 (replicate 17 7)) fifo_init) [].
Lemma small_buffer_spins k : forall w, write_loop k 1 1 [9] (busy w) = None.
Proof.
  induction k as [|k IH]; intros w; [done|]. transitivity (write_loop k 1 1 [9] (busy (S w))); [|apply IH]. reflexivity.
Qed.

(** A forced XOFF on a line without software flow control is not sent, but kept: it goes
    out, long after, in front of the first character when flow control is turned on. *)
Lemma forced_xoff_goes_out_later : value_of ((
    r1 ← force CYGNUM_SERIAL_FLOW_THROTTLE_RX; r2 ← force CYGNUM_SERIAL_FLOW_RESTART_TX; l ← get_state;
    _ ← modify (set_flow (clear_flag CYG_SERIAL_FLOW_IN_THROTTLED)); r3 ← method CYGNUM_SERIAL_FLOW_XONXOFF_RX;
    _ ← serial_write 5 [65] 1; l' ← get_state; mret (r1, r2, fifo (dev l), fifo (dev l'))) opened) =
  Some (ENOERR, ENOERR, [], [19; 65]).
Proof. by vm_compute. Qed.

(** When the reader catches up before the XOFF could leave, the XON takes its place: the
    state in which the assertion "xchar already set (XON)" is checked violates it. *)
Definition xchar_at_restart (l : line) : option byte :=
  if (nb (in_cbuf (chan l)) <=? low_water (in_cbuf (chan l))) && in_throttled l then Some (xchar (chan l)) else None.
Lemma xon_finds_xoff : value_of ((
    _ ← method CYGNUM_SERIAL_FLOW_XONXOFF_RX; _ ← serial_write 5 (take 16 thirty) 16; _ ← serial_rcv_char 65; _ ← serial_rcv_char 66;
    _ ← serial_read 1; l ← get_state; mret (xchar_at_restart l)) opened) = Some (Some XOFF_CHAR).
Proof. by vm_compute. Qed.

(** A length of 2^31 or more is negative in [size]: nothing is written, without an error. *)
Lemma huge_write_is_nothing : value_of (serial_write 5 [65] (2 ^ 31) opened) = Some (Done (ENOERR, 2 ^ 31)).
Proof. by vm_compute. Qed.

(** The report of an overrun has no value: [stat.value] is not set. *)
Lemma overrun_report_unset : reported <$> (snd <$> ((
    _ ← serial_set_config CYG_IO_SET_CONFIG_SERIAL_STATUS_CALLBACK (XCallback 100 7) (Some 8);
    _ ← modify (set_in (fun b => set_ring (data b) 0 0 8 b)); serial_rcv_char 65) opened)) =
  Some [(CYGNUM_SERIAL_STATUS_OVERRUNERR, None, 100, 7)].
Proof. by vm_compute. Qed.

(** ** The loop driver *)

(** With software flow control on both channels, the first loop of the alarm delivers all
    that channel 0 has, before the XOFF of channel 1 is seen: of twenty characters eight
    are stored. *)
Definition soft : loop := state_after (_ ← loop_serial_init0; loop_serial_init1) (loop_start (SerialInfo 13 1 0 8 3) 8).
Lemma loop_overruns : value_of ((
    w ← on0 (serial_write 5 (take 20 thirty) 20); _ ← alarm_handler; n ← on1 (in_of nb); p ← on0 (out_of nb); mret (w, n, p)) soft) =
  Some (Done (ENOERR, 20), 8, 0).
Proof. by vm_compute. Qed.

(** ** A driver without interrupts *)

(** Like that of the QCA953x, whose start_xmit and stop_xmit are null: forcing the
    receiver to stop calls start_xmit all the same. *)
Definition bare : SerialFuns :=
  {| hw := unit; putc := fun _ => mret true; getc := mret 0; hw_config := fun _ _ n => mret (ENOERR, n);
     hw_start_xmit := None; hw_stop_xmit := None |}.
Lemma force_calls_null :
  serial_set_config (Drv := bare) CYG_IO_SET_CONFIG_SERIAL_FLOW_CONTROL_FORCE (XWord CYGNUM_SERIAL_FLOW_THROTTLE_RX) (Some 4)
    (Line (Drv := bare) (SERIAL_CHANNEL (SerialInfo 13 1 0 8 0)) tt []) = None.
Proof. by vm_compute. Qed.
End SerialFlaws.
