(* ===== verification/QcaSerial.v ===== *)
(** * The console of the QCA953x

    devs/serial/mips/qca/current/src/serial.c with the register accesses of
    devs/flash/mips/qca953x/current/src/atheros.h (the driver takes them from
    <cyg/hal/qca.h>, which the repository does not have) and the addresses of
    hal/mips/qca953x/current/include/953x.h: a polled serial driver, the functions the
    ROM monitor calls, and the interrupt that fills a ring of 256 bytes. *)
From S2P Require Import Prelude QcaFlash Serial.

(** ** Registers *)
Definition ATH_APB_BASE : Z := 0x18000000.
Definition ATH_UART_BASE : Z := ATH_APB_BASE + 0x00020000.
Definition ATH_GPIO_BASE : Z := ATH_APB_BASE + 0x00040000.
Definition OFS_RCV_BUFFER : Z := 0.
Definition OFS_SEND_BUFFER : Z := 0.
Definition OFS_INTR_ENABLE : Z := 4.
Definition OFS_INTR_ID : Z := 8.
Definition OFS_DATA_FORMAT : Z := 12.
Definition OFS_LINE_CONTROL : Z := 12.
Definition OFS_LINE_STATUS : Z := 20.
Definition OFS_MODEM_STATUS : Z := 24.
Definition OFS_DIVISOR_LSB : Z := 0.
Definition OFS_DIVISOR_MSB : Z := 4.
Definition GPIO_OE_ADDRESS : Z := ATH_GPIO_BASE + 0x0000.
Definition GPIO_OUT_ADDRESS : Z := ATH_GPIO_BASE + 0x0008.
Definition GPIO_OUT_FUNCTION2_ADDRESS : Z := 0x18040034.
Definition GPIO_IN_ENABLE0_ADDRESS : Z := 0x18040044.
Definition GPIO_SPARE_ADDRESS : Z := 0x18040070.
Definition GPIO_OUT_FUNCTION2_ENABLE_GPIO_10_SET (x : Z) : Z := Z.land (Z.shiftl x 16) 0x00ff0000.
Definition GPIO_IN_ENABLE0_UART_SIN_SET (x : Z) : Z := Z.land (Z.shiftl x 8) 0x0000ff00.
Definition ATH_UART_FREQ : Z := 25 * 1000 * 10000.
Definition CONFIG_BAUDRATE : Z := 115200.

Definition SERIAL_EVENT_RXRDY : Z := 0x01.
Definition SERIAL_EVENT_TBMT : Z := 0x02.
Definition SERIAL_EVENT_MSC : Z := 0x04.
Definition SERIAL_EVENT_LSC : Z := 0x08.
Definition SIO_IIR_IID_MSC : Z := 0x00.
Definition SIO_IIR_IID_NONE : Z := 0x01.
Definition SIO_IIR_IID_THRE : Z := 0x02.
Definition SIO_IIR_IID_RXDA : Z := 0x04.
Definition SIO_IIR_IID_RXS : Z := 0x06.
Definition SIO_IIR_IID_CTO : Z := 0x0c.
Definition SIO_IIR_IID_MASK : Z := 0x0e.
Definition SIO_IER_RXDA : Z := 0x01.

(** serial_events, srx_buf and its indices, and what the interrupt has seen of the status
    registers. *)
Record srx_t := Srx { serial_events : Z; srx_buf : list byte; srx_rd : Z; srx_wr : Z; serial_msr : Z; serial_lsr : Z }.
Definition srx_init : srx_t := Srx 0 (replicate 256 0) 0 0 0 0.

Section Driver.
Context `{Hw : Mmio}.

Definition ath_uart_rd (y : Z) : M bus Z := ath_reg_rd (ATH_UART_BASE + y).
Definition ath_uart_wr (x z : Z) : M bus unit := ath_reg_wr (ATH_UART_BASE + x) z.

(** For the QCA953x, without the options of other boards and without interrupts. *)
Definition qca_serial_init : M bus bool :=
  let div := ATH_UART_FREQ / (16 * CONFIG_BAUDRATE) in
  v ← ath_reg_rd GPIO_OE_ADDRESS;
  _ ← ath_reg_wr GPIO_OE_ADDRESS (Z.land v (u32 (Z.lnot 0xcffc10)));
  _ ← ath_reg_rmw_set GPIO_OUT_FUNCTION2_ADDRESS (GPIO_OUT_FUNCTION2_ENABLE_GPIO_10_SET 0x16);
  _ ← ath_reg_rmw_clear GPIO_IN_ENABLE0_ADDRESS (GPIO_IN_ENABLE0_UART_SIN_SET 0xff);
  _ ← ath_reg_rmw_set GPIO_IN_ENABLE0_ADDRESS (GPIO_IN_ENABLE0_UART_SIN_SET 0x9);
  v ← ath_reg_rd GPIO_OUT_ADDRESS;
  _ ← ath_reg_wr GPIO_OUT_ADDRESS (Z.lor v 0xcffc10);
  v ← ath_reg_rd GPIO_SPARE_ADDRESS;
  _ ← ath_reg_wr GPIO_SPARE_ADDRESS (Z.lor v 0x8402);
  _ ← ath_reg_wr GPIO_OUT_ADDRESS 0x2f;
  _ ← ath_uart_wr OFS_INTR_ENABLE 0;
  _ ← ath_uart_wr OFS_LINE_CONTROL 0x80;
  _ ← ath_uart_wr OFS_DIVISOR_LSB (Z.land div 0xff);
  _ ← ath_uart_wr OFS_DIVISOR_MSB (Z.land (Z.shiftr div 8) 0xff);
  _ ← ath_uart_wr OFS_LINE_CONTROL 0x00;
  _ ← ath_uart_wr OFS_DATA_FORMAT 0x3;
  mret true.

Definition qca_serial_tstc : M bus Z := v ← ath_uart_rd OFS_LINE_STATUS; mret (Z.land v 0x1).

(** The polls a loop is followed for. *)
Variable spins : nat.

Fixpoint wait_rx (k : nat) : M bus unit :=
  match k with
  | O => crash
  | S k => t ← qca_serial_tstc; if t =? 0 then wait_rx k else mret tt
  end.

(** Without interrupts. *)
Definition qca_serial_getc : M bus byte := _ ← wait_rx spins; v ← ath_uart_rd OFS_RCV_BUFFER; mret (u8 v).

Fixpoint wait_tx (k : nat) : M bus unit :=
  match k with
  | O => crash
  | S k => v ← ath_uart_rd OFS_LINE_STATUS; if Z.land v 0x20 =? 0 then wait_tx k else mret tt
  end.

(** The call for the carriage return does not call itself. *)
Definition put_raw (b : byte) : M bus unit := _ ← wait_tx spins; ath_uart_wr OFS_SEND_BUFFER b.
Definition qca_serial_putc (b : byte) : M bus bool :=
  _ ← (if b =? 10 then put_raw 13 else mret tt); _ ← put_raw b; mret true.

(** The characters of a C string up to its end. *)
Fixpoint qca_serial_puts (s : list byte) : M bus unit :=
  match s with
  | [] => crash
  | c :: s => if c =? 0 then mret tt else _ ← qca_serial_putc c; qca_serial_puts s
  end.

Fixpoint qca_serial_write (buf : list byte) (n : nat) : M bus unit :=
  match n with
  | O => mret tt
  | S n => match buf with c :: buf => _ ← qca_serial_putc c; qca_serial_write buf n | [] => crash end
  end.

Fixpoint qca_serial_read (n : nat) : M bus (list byte) :=
  match n with
  | O => mret []
  | S n => c ← qca_serial_getc; cs ← qca_serial_read n; mret (c :: cs)
  end.

(** The character, when one came in time; [msec] is not negative. *)
Fixpoint getc_timed (delay_count : nat) : M bus (option byte) :=
  match delay_count with
  | O => mret None
  | S k =>
    t ← qca_serial_tstc;
    if t =? 0 then getc_timed k else v ← ath_uart_rd OFS_RCV_BUFFER; mret (Some (u8 v))
  end.
Definition qca_serial_getc_timeout (msec : Z) : M bus (option byte) := getc_timed (Z.to_nat (msec * 10)).

(** What qca_serial_control answers, and the timeout it leaves. *)
Inductive comm_control_cmd_t := COMMCTL_SET_TIMEOUT (msec : Z) | COMMCTL_SETBAUD | COMMCTL_GETBAUD | COMMCTL_OTHER.
Definition qca_serial_control (cmd : comm_control_cmd_t) (timeout : Z) : Z * Z :=
  match cmd with
  | COMMCTL_SET_TIMEOUT msec => (timeout, s32 msec)
  | COMMCTL_GETBAUD => (CONFIG_BAUDRATE, timeout)
  | _ => (0, timeout)
  end.

Definition qca_serial_set_config (key : Z) (x : xbuf_t) (n : option Z) : M (cyg_serial_info_t * bus) (Z * option Z) := mret (ENOERR, n).
Definition qca_serial_lookup : M bus Z := mret ENOERR.

Definition qca_serial_funs : SerialFuns := {|
  hw := bus;
  putc := qca_serial_putc;
  getc := qca_serial_getc;
  hw_config := qca_serial_set_config;
  hw_start_xmit := None;
  hw_stop_xmit := None |}.
Definition qca_serial_channel0 : serial_channel := SERIAL_CHANNEL (SerialInfo 20 1 0 8 0).

(** ** With interrupts *)
Definition store_rx (c : byte) (s : srx_t) : srx_t :=
  Srx (serial_events s) (<[Z.to_nat (srx_wr s) := c]> (srx_buf s)) (srx_rd s) (u8 (srx_wr s + 1)) (serial_msr s) (serial_lsr s).
Definition setbits (e : Z) (s : srx_t) : srx_t :=
  Srx (Z.lor (serial_events s) e) (srx_buf s) (srx_rd s) (srx_wr s) (serial_msr s) (serial_lsr s).
Definition seen_lsr (v : Z) (s : srx_t) : srx_t :=
  Srx (serial_events s) (srx_buf s) (srx_rd s) (srx_wr s) (serial_msr s) (Z.lor (serial_lsr s) (u8 v)).
Definition seen_msr (v : Z) (s : srx_t) : srx_t :=
  Srx (serial_events s) (srx_buf s) (srx_rd s) (srx_wr s) (Z.lor (serial_msr s) (u8 v)) (serial_lsr s).

Definition uart {A} (m : M bus A) : M (srx_t * bus) A := fun s =>
  match m (snd s) with Some (a, h) => Some (a, (fst s, h)) | None => None end.
Definition srx (f : srx_t -> srx_t) : M (srx_t * bus) unit := modify (fun s => (f (fst s), snd s)).

Fixpoint rx_all (k : nat) : M (srx_t * bus) unit :=
  v ← uart (ath_uart_rd OFS_LINE_STATUS);
  if Z.land v 0x1 =? 0 then mret tt else
  match k with
  | O => crash
  | S k => c ← uart (ath_uart_rd OFS_RCV_BUFFER); _ ← srx (store_rx (u8 c)); rx_all k
  end.

Fixpoint qca_serial_intr (k : nat) : M (srx_t * bus) unit :=
  i ← uart (ath_uart_rd OFS_INTR_ID);
  let i := u8 i in
  if negb (Z.land i SIO_IIR_IID_NONE =? 0) then mret tt else
  match k with
  | O => crash
  | S k =>
    let i := Z.land i SIO_IIR_IID_MASK in
    _ ← (if i =? SIO_IIR_IID_RXS then
           v ← uart (ath_uart_rd OFS_LINE_STATUS); srx (fun s => setbits SERIAL_EVENT_LSC (seen_lsr v s))
         else if (i =? SIO_IIR_IID_CTO) || (i =? SIO_IIR_IID_RXDA) then
           _ ← rx_all spins;
           srx (fun s => if negb (srx_wr s - srx_rd s =? 0) then setbits SERIAL_EVENT_RXRDY s else s)
         else if i =? SIO_IIR_IID_THRE then srx (setbits SERIAL_EVENT_TBMT)
         else if i =? SIO_IIR_IID_MSC then
           v ← uart (ath_uart_rd OFS_MODEM_STATUS); srx (fun s => setbits SERIAL_EVENT_MSC (seen_msr v s))
         else mret tt);
    qca_serial_intr k
  end.
End Driver.

(** qca_serial_getc with interrupts: the next character, or none when it waits for the
    event SERIAL_EVENT_RXRDY. *)
Definition qca_serial_getc_intr : M srx_t (option byte) := fun s =>
  if srx_wr s - srx_rd s =? 0 then Some (None, s) else
  match srx_buf s !! Z.to_nat (srx_rd s) with
  | Some c => Some (Some c, Srx (serial_events s) (srx_buf s) (u8 (srx_rd s + 1)) (srx_wr s) (serial_msr s) (serial_lsr s))
  | None => None
  end.
