(* ===== verification/QcaSerialSpec.v ===== *)
(** * The console of the QCA953x: what it does to the line

    What the driver asks of a UART, as the manual of a 16550 states it; what polled
    writing and reading through the serial layer then do, and what the interrupt leaves
    in the ring. *)
From S2P Require Import Prelude Serial SerialSpec QcaFlash QcaSerial.

Definition uart_at (y : Z) : Z := KSEG1ADDR (ATH_UART_BASE + y).

(** ** The hardware

    Characters wait in [received]; [sent] are those on the line or in the transmitter,
    which takes the next one when it has been asked [backlog] times. While a function of
    the driver runs nothing else arrives. *)
Class UartLaws `{Hw : Mmio} := {
  uart_ok : bus -> Prop;
  received : bus -> list byte;
  sent : bus -> list byte;
  backlog : bus -> nat;
  slow : nat;
  law_backlog h : uart_ok h -> (backlog h <= slow)%nat;
  law_bytes h : uart_ok h -> Forall (fun c => 0 <= c < 256) (received h);
  law_status h : uart_ok h -> exists v h', vol_read (uart_at OFS_LINE_STATUS) h = Some (v, h') /\ uart_ok h' /\
    received h' = received h /\ sent h' = sent h /\ backlog h' = pred (backlog h) /\
    (Z.land v 0x1 = 0 <-> received h = []) /\ (Z.land v 0x20 = 0 <-> backlog h <> 0%nat);
  law_rx h : uart_ok h -> exists v h', vol_read (uart_at OFS_RCV_BUFFER) h = Some (v, h') /\ uart_ok h' /\
    received h' = tail (received h) /\ sent h' = sent h /\ backlog h' = backlog h /\
    (forall c cs, received h = c :: cs -> v = c);
  law_tx b h : uart_ok h -> backlog h = 0%nat -> exists h', vol_write (uart_at OFS_SEND_BUFFER) b h = Some (tt, h') /\
    uart_ok h' /\ received h' = received h /\ sent h' = sent h ++ [b];
  law_id h : uart_ok h -> exists v h', vol_read (uart_at OFS_INTR_ID) h = Some (v, h') /\ uart_ok h' /\
    received h' = received h /\ sent h' = sent h /\
    (if received h is [] then Z.land (u8 v) SIO_IIR_IID_NONE <> 0
     else Z.land (u8 v) SIO_IIR_IID_NONE = 0 /\
       (Z.land (u8 v) SIO_IIR_IID_MASK = SIO_IIR_IID_RXDA \/ Z.land (u8 v) SIO_IIR_IID_MASK = SIO_IIR_IID_CTO)) }.

(** A carriage return goes in front of a newline. *)
Definition crlf (bs : list byte) : list byte := bs ≫= fun b => if b =? 10 then [13; 10] else [b].

Lemma uart_rd `{Hw : Mmio} y h : ath_uart_rd y h = vol_read (uart_at y) h.
Proof. done. Qed.

Section Console.
Context `{Opts : SerialOptions} `{Laws : UartLaws}.
(** ** Polling *)
Lemma wait_tx_ok k : forall h, uart_ok h -> (backlog h < k)%nat ->
  wp (wait_tx k) (fun _ h' => uart_ok h' /\ backlog h' = 0%nat /\ received h' = received h /\ sent h' = sent h) h.
Proof using.
  induction k as [|k IH]; intros h Hok Hk; [lia|]. cbn [wait_tx].
  destruct (law_status h Hok) as (v & h1 & E & Hok1 & Hr & Hs & Hb & _ & H20). apply wp_bind. eexists v, h1. split; [exact E|].
  destruct (Z.eqb_spec (Z.land v 0x20) 0) as [Hz|Hz].
  - eapply wp_mono; [apply IH; [done|]|]. { apply H20 in Hz. lia. } intros [] h2 (? & ? & ? & ?). split_and!; congruence.
  - apply wp_ret. split_and!; [done| |done|done]. destruct (backlog h) eqn:Eb; [by rewrite Hb|]. exfalso. apply Hz, H20. lia.
Qed.

Variable spins : nat.
Hypothesis enough : (slow < spins)%nat.

(** Sending swallows the oldest character that was received: the write reads the
    register back, which is the one of the receiver. *)
Lemma put_raw_ok b h : uart_ok h ->
  wp (put_raw spins b) (fun _ h' => uart_ok h' /\ received h' = tail (received h) /\ sent h' = sent h ++ [b]) h.
Proof using enough.
  intros Hok. unfold put_raw. apply wp_bind. eapply wp_mono; [apply wait_tx_ok; [done|]|].
  { pose proof (law_backlog h Hok). lia. }
  intros [] h1 (Hok1 & Hb & Hr & Hs). unfold ath_uart_wr, ath_reg_wr, ath_reg_wr_nf.
  destruct (law_tx b h1 Hok1 Hb) as (h2 & E2 & Hok2 & Hr2 & Hs2). apply wp_bind. eexists tt, h2. split; [exact E2|].
  destruct (law_rx h2 Hok2) as (v & h3 & E3 & Hok3 & Hr3 & Hs3 & _). apply wp_bind. eexists v, h3. split; [exact E3|].
  apply wp_ret. split_and!; congruence.
Qed.

Lemma putc_ok b h : uart_ok h ->
  wp (qca_serial_putc spins b) (fun ok h' => ok = true /\ uart_ok h' /\
    received h' = drop (length (crlf [b])) (received h) /\ sent h' = sent h ++ crlf [b]) h.
Proof using enough.
  intros Hok. unfold qca_serial_putc, crlf. cbn. rewrite app_nil_r. apply wp_bind. destruct (b =? 10) eqn:E.
  - apply Z.eqb_eq in E as ->. eapply wp_mono; [by apply put_raw_ok|]. intros [] h1 (Hok1 & Hr1 & Hs1).
    apply wp_bind. eapply wp_mono; [by apply put_raw_ok|]. intros [] h2 (Hok2 & Hr2 & Hs2). apply wp_ret.
    split_and!; [done|done| |by rewrite Hs2, Hs1, <- app_assoc]. rewrite Hr2, Hr1. by destruct (received h) as [|? [|? ?]].
  - apply wp_ret, wp_bind. eapply wp_mono; [by apply put_raw_ok|]. intros [] h2 (Hok2 & Hr2 & Hs2). apply wp_ret.
    split_and!; [done|done| |done]. rewrite Hr2. by destruct (received h).
Qed.

Lemma crlf_cons b bs : crlf (b :: bs) = crlf [b] ++ crlf bs.
Proof using. unfold crlf. cbn. by rewrite app_nil_r. Qed.

Lemma wait_rx_ok k h : uart_ok h -> received h <> [] ->
  wp (wait_rx (S k)) (fun _ h' => uart_ok h' /\ received h' = received h /\ sent h' = sent h) h.
Proof using.
  intros Hok Hr. destruct (law_status h Hok) as (v & h1 & E & Hok1 & Hr1 & Hs1 & _ & H1 & _). cbn [wait_rx]. apply wp_bind.
  exists (Z.land v 1), h1. split; [unfold qca_serial_tstc, mbind, M_bind; by rewrite uart_rd, E|].
  destruct (Z.eqb_spec (Z.land v 1) 0) as [Hz|Hz]; [by apply H1 in Hz|]. by apply wp_ret.
Qed.

Lemma getc_ok h c cs : uart_ok h -> received h = c :: cs ->
  wp (qca_serial_getc spins) (fun v h' => v = c /\ uart_ok h' /\ received h' = cs /\ sent h' = sent h) h.
Proof using enough.
  intros Hok Hr. unfold qca_serial_getc. apply wp_bind. destruct spins as [|k]; [lia|].
  eapply wp_mono; [apply wait_rx_ok; [done|by rewrite Hr]|]. intros [] h1 (Hok1 & Hr1 & Hs1). apply wp_bind.
  destruct (law_rx h1 Hok1) as (v & h2 & E & Hok2 & Hr2 & Hs2 & _ & Hv). exists v, h2. split; [exact E|]. apply wp_ret.
  rewrite Hr in Hr1. rewrite (Hv _ _ Hr1). pose proof (law_bytes h Hok) as Hb. rewrite Hr in Hb. apply Forall_inv in Hb.
  rewrite Hr1 in Hr2. split_and!; [apply uwrap_small; cbn; lia|done|done|congruence].
Qed.

End Console.

(** ** The interrupt *)
Section Ring.
Definition as_ring (s : srx_t) : cbuf_t :=
  Cbuf (srx_buf s) (srx_wr s) (srx_rd s) 256 ((srx_wr s - srx_rd s) mod 256) 0 0 0 false false false 0 [].
Definition unread (s : srx_t) : list byte := contents (as_ring s).
Definition srx_ok (s : srx_t) : Prop := ring_ok (as_ring s).

Lemma length_unread s : srx_ok s -> Z.of_nat (length (unread s)) = (srx_wr s - srx_rd s) mod 256.
Proof using. intros H. apply (length_contents (as_ring s)). by right. Qed.

Lemma store_rx_ok c s : srx_ok s -> (length (unread s) < 255)%nat -> srx_ok (store_rx c s) /\ unread (store_rx c s) = unread s ++ [c].
Proof using.
  intros Hok Hn. pose proof (length_unread s Hok) as Hl. destruct (ring_store (as_ring s) c Hok) as [_ [H1 H2]]; [cbn; lia|].
  destruct Hok as [_ Hg _ Hp]. cbn in Hg, Hp. pose proof (Z.mod_pos_bound (srx_rd s + (srx_wr s - srx_rd s) mod 256) 256 ltac:(lia)).
  assert (as_ring (store_rx c s) = set_ring (<[Z.to_nat (srx_wr s) := c]> (srx_buf s)) (if srx_wr s + 1 =? 256 then 0 else srx_wr s + 1)
    (srx_rd s) ((srx_wr s - srx_rd s) mod 256 + 1) (as_ring s)) as E.
  { unfold as_ring, set_ring, store_rx. cbn. f_equal; [|].
    - rewrite next_mod by lia. done.
    - unfold u8, uwrap. change (2 ^ 8) with 256. rewrite Zminus_mod_idemp_l. rewrite <- (Z.mod_small ((srx_wr s - srx_rd s) mod 256 + 1) 256) by lia.
      rewrite Zplus_mod_idemp_l. f_equal. lia. }
  unfold srx_ok, unread. rewrite E. split; [exact H1|exact H2].
Qed.

(** Taking the oldest. *)
Lemma getc_intr_ok s : srx_ok s ->
  match unread s with
  | [] => qca_serial_getc_intr s = Some (None, s)
  | c :: cs => exists s', qca_serial_getc_intr s = Some (Some c, s') /\ srx_ok s' /\ unread s' = cs
  end.
Proof using.
  intros Hok. pose proof (length_unread s Hok) as Hl. pose proof Hok as [_ Hg _ Hp]. cbn in Hg, Hp.
  pose proof (Z.mod_pos_bound (srx_rd s + (srx_wr s - srx_rd s) mod 256) 256 ltac:(lia)).
  pose proof (Z.mod_pos_bound (srx_wr s - srx_rd s) 256 ltac:(lia)).
  unfold qca_serial_getc_intr. destruct (unread s) as [|c cs] eqn:E; cbn [length] in Hl.
  - destruct (Z.eqb_spec (srx_wr s - srx_rd s) 0) as [|Hne]; [done|].
    rewrite <- Hl, Z.add_0_r, Z.mod_small in Hp by lia. lia.
  - destruct (Z.eqb_spec (srx_wr s - srx_rd s) 0) as [Hz|Hne]; [rewrite Hz, Z.mod_0_l in Hl by lia; lia|].
    destruct (ring_take (as_ring s) Hok) as (c' & Hc & H1 & H2); [cbn; lia|]. specialize (Hc unit tt). unfold fetch in Hc. cbn in Hc.
    destruct (srx_rd s <? 0); [done|]. destruct (srx_buf s !! Z.to_nat (srx_rd s)) as [x|]; [|done]. injection Hc as ->.
    set (s' := Srx (serial_events s) (srx_buf s) (u8 (srx_rd s + 1)) (srx_wr s) (serial_msr s) (serial_lsr s)).
    assert (as_ring s' = set_ring (data (as_ring s)) (put (as_ring s))
      (if get (as_ring s) + 1 =? len (as_ring s) then 0 else get (as_ring s) + 1) (nb (as_ring s) - 1) (as_ring s)) as Er.
    { unfold as_ring, set_ring, s'. cbn. rewrite (next_mod (srx_rd s) 256) by lia. f_equal. unfold u8, uwrap. change (2 ^ 8) with 256.
      rewrite Zminus_mod_idemp_r, <- (Z.mod_small ((srx_wr s - srx_rd s) mod 256 - 1) 256) by lia. rewrite Zminus_mod_idemp_l. f_equal. lia. }
    exists s'. unfold unread in E. rewrite H2 in E. injection E as -> Ecs. split; [done|]. unfold srx_ok, unread. rewrite Er. by split.
Qed.
End Ring.

Section Interrupt.
Context `{Laws : UartLaws}.
Implicit Types (s : srx_t) (h : bus).

Lemma rx_all_ok k : forall s h, uart_ok h -> srx_ok s ->
  (length (received h) <= k)%nat -> (length (unread s) + length (received h) < 256)%nat ->
  wp (rx_all k) (fun _ t => uart_ok t.2 /\ received t.2 = [] /\ sent t.2 = sent h /\
    srx_ok t.1 /\ unread t.1 = unread s ++ received h /\ serial_events t.1 = serial_events s) (s, h).
Proof using.
  induction k as [|k IH]; intros s h Hok Hs Hk Hn;
    destruct (law_status h Hok) as (v & h1 & E & Hok1 & Hr1 & Hs1 & _ & H1 & _); cbn [rx_all]; apply wp_bind; exists v, (s, h1);
    (split; [unfold uart; cbn [fst snd]; by rewrite uart_rd, E|]);
    (destruct (Z.eqb_spec (Z.land v 1) 0) as [Hz|Hz];
      [apply H1 in Hz; apply wp_ret; cbn; rewrite Hr1, Hz, app_nil_r; by split_and!|]).
  { destruct (received h) as [|c cs]; [exfalso; by apply Hz, H1|cbn in Hk; lia]. }
  destruct (received h) as [|c cs] eqn:Er; [exfalso; by apply Hz, H1|]. cbn [length] in Hk, Hn.
  destruct (law_rx h1 Hok1) as (x & h2 & E2 & Hok2 & Hr2 & Hs2 & _ & Hx). rewrite Hr1 in Hr2. cbn in Hr2. specialize (Hx _ _ Hr1) as ->.
  apply wp_bind. exists c, (s, h2). split; [unfold uart; cbn [fst snd]; by rewrite uart_rd, E2|].
  pose proof (law_bytes h Hok) as Hb. rewrite Er in Hb. apply Forall_inv in Hb. cbv beta. rewrite uwrap_small by (cbn; lia).
  apply wp_bind. eexists tt, (store_rx c s, h2). split; [done|]. destruct (store_rx_ok c s Hs ltac:(lia)) as [Hs' Hu].
  eapply wp_mono; [apply IH; [done|done|rewrite Hr2; lia|rewrite Hu, Hr2, length_app; cbn; lia]|].
  intros [] [s3 h3] (? & ? & ? & ? & Hu3 & He3). cbn in *. split_and!; try done; [congruence|]. by rewrite Hu3, Hu, Hr2, <- app_assoc.
Qed.

(** The interrupt moves what was received behind the unread characters. *)
Lemma intr_ok spins k s h : uart_ok h -> srx_ok s -> (length (received h) <= spins)%nat ->
  (length (unread s) + length (received h) < 256)%nat ->
  wp (qca_serial_intr spins (S k)) (fun _ t => uart_ok t.2 /\ received t.2 = [] /\ sent t.2 = sent h /\
    srx_ok t.1 /\ unread t.1 = unread s ++ received h /\
    (received h <> [] -> Z.land (serial_events t.1) SERIAL_EVENT_RXRDY = SERIAL_EVENT_RXRDY)) (s, h).
Proof using.
  intros Hok Hs Hk Hn.
  assert (forall n s h, uart_ok h -> received h = [] -> exists h', qca_serial_intr spins n (s, h) = Some (tt, (s, h')) /\
    uart_ok h' /\ received h' = [] /\ sent h' = sent h) as Hend.
  { intros n s0 h0 Hok0 Hr0. destruct (law_id h0 Hok0) as (v & h1 & E & Hok1 & Hr1 & Hs1 & Hv). rewrite Hr0 in Hv. exists h1.
    split; [|by rewrite Hr1]. destruct n; cbn [qca_serial_intr]; unfold mbind, M_bind, uart; cbn [fst snd]; rewrite uart_rd, E;
      by replace (Z.land (u8 v) SIO_IIR_IID_NONE =? 0) with false by lia. }
  destruct (received h) as [|c cs] eqn:Er.
  { destruct (Hend (S k) s h Hok Er) as (h' & E & ? & ? & ?). eexists tt, (s, h'). split; [exact E|]. cbn.
    rewrite app_nil_r. by split_and!. }
  destruct (law_id h Hok) as (v & h1 & E & Hok1 & Hr1 & Hs1 & Hv). rewrite Er in Hv. destruct Hv as [Hv0 Hv].
  cbn [qca_serial_intr]. apply wp_bind. exists v, (s, h1). split; [unfold uart; cbn [fst snd]; by rewrite uart_rd, E|].
  rewrite Hv0. cbn [Z.eqb negb]. apply wp_bind.
  replace (Z.land (u8 v) SIO_IIR_IID_MASK =? SIO_IIR_IID_RXS) with false by (by destruct Hv as [-> | ->]).
  replace ((Z.land (u8 v) SIO_IIR_IID_MASK =? SIO_IIR_IID_CTO) || (Z.land (u8 v) SIO_IIR_IID_MASK =? SIO_IIR_IID_RXDA)) with true
    by (by destruct Hv as [-> | ->]).
  apply wp_bind. rewrite Er in Hr1. eapply wp_mono; [apply (rx_all_ok spins s h1); rewrite ?Hr1; done|].
  intros [] [s2 h2] (Hok2 & Hr2 & Hs2 & Hso & Hu & He). cbn in Hok2, Hr2, Hs2, Hso, Hu, He. rewrite Hr1 in Hu.
  eexists tt, (_, h2). split; [done|]. pose proof (length_unread s2 Hso) as Hl. rewrite Hu, length_app in Hl. cbn [length] in Hl.
  cbn [fst snd]. destruct (Z.eqb_spec (srx_wr s2 - srx_rd s2) 0) as [Hz|Hz]; [rewrite Hz, Z.mod_0_l in Hl by lia; lia|]. cbn [negb].
  set (s3 := setbits SERIAL_EVENT_RXRDY s2).
  destruct (Hend k s3 h2 Hok2 Hr2) as (h4 & E4 & ? & ? & ?). eexists tt, (s3, h4). split; [exact E4|]. cbn [fst snd].
  split_and!; [done|done|congruence|exact Hso|exact Hu|]. intros _. unfold s3. cbn [serial_events setbits].
  rewrite Z.land_lor_distr_l, Z.land_diag. apply Z.bits_inj'. intros n _. rewrite Z.lor_spec, Z.land_spec. by destruct (Z.testbit _ n), (Z.testbit _ n).
Qed.
End Interrupt.
