(* ===== verification/QcaSerialTheorems.v ===== *)
(** * The console of the QCA953x: theorems *)
From S2P Require Import Prelude Serial SerialSpec QcaFlash QcaSerial QcaSerialSpec.

Section Console.
Context `{Opts : SerialOptions} `{Laws : UartLaws}.
Variable spins : nat.
Hypothesis enough : (slow < spins)%nat.
#[local] Instance console : SerialFuns := qca_serial_funs spins.
Implicit Types (l : line).




Lemma read_polled_ok n : forall l acc, uart_ok (dev l) -> has_config l CYGNUM_SERIAL_FLOW_XONXOFF_TX = false ->
  (n <= length (received (dev l)))%nat ->
  wp (read_polled n acc) (fun bs l' => bs = acc ++ take n (received (dev l)) /\ uart_ok (dev l') /\
    received (dev l') = drop n (received (dev l)) /\ sent (dev l') = sent (dev l)) l.
Proof using enough.
  induction n as [|n IH]; intros l acc Hok Hf Hn; cbn [read_polled].
  - apply wp_ret. rewrite take_0, drop_0, app_nil_r. by split_and!.
  - destruct (received (dev l)) as [|c cs] eqn:Er; [cbn in Hn; lia|]. cbn in Hn.
    destruct (getc_ok spins enough (dev l) c cs Hok Er) as (v & h & E & -> & Hok1 & Hr1 & Hs1).
    apply wp_bind. exists c, (set_dev (Drv := console) h l). split; [unfold call; cbn; by rewrite E|]. apply wp_get.
    change (has_config (set_dev (Drv := console) h l)) with (has_config l). rewrite Hf. cbn [andb].
    eapply wp_mono; [apply IH; [done|done|cbn; rewrite Hr1; lia]|]. cbn. rewrite Hr1, Hs1. intros bs l' (-> & ? & ? & ?).
    split_and!; try done. by rewrite <- app_assoc.
Qed.

(** A read from the console, when as many characters have come in, returns the oldest
    ones in order. *)
Theorem console_read_ok n l :
  uart_ok (dev l) -> len (in_cbuf (chan l)) = 0 -> has_config l CYGNUM_SERIAL_FLOW_XONXOFF_TX = false ->
  0 <= n <= Z.of_nat (length (received (dev l))) ->
  wp (serial_read n) (fun o l' => o = Done (ENOERR, n, take (Z.to_nat n) (received (dev l))) /\
    received (dev l') = drop (Z.to_nat n) (received (dev l)) /\ sent (dev l') = sent (dev l)) l.
Proof using enough.
  intros Hok Hl Hf Hn. unfold serial_read. apply wp_modify, wp_get. cbn. rewrite Hl. cbn [Z.eqb]. apply wp_bind.
  eapply wp_mono; [apply read_polled_ok; [done|done|cbn; lia]|]. intros bs l' (-> & _ & Hr & Hs). by apply wp_ret.
Qed.
End Console.

(** The characters getc returns before it waits. *)
Fixpoint drains (s : srx_t) (bs : list byte) : Prop :=
  match bs with
  | [] => qca_serial_getc_intr s = Some (None, s)
  | c :: bs => exists s', qca_serial_getc_intr s = Some (Some c, s') /\ drains s' bs
  end.

Lemma drains_unread bs : forall s, srx_ok s -> unread s = bs -> drains s bs.
Proof.
  induction bs as [|c bs IH]; intros s Hok E; pose proof (getc_intr_ok s Hok) as H; rewrite E in H; cbn [drains]; [done|].
  destruct H as (s' & Hg & Hok' & Hu). exists s'. split; [done|]. by apply IH.
Qed.

(** C22: with interrupts, what was received goes behind the characters not read yet, up to
    255 of them, and the readers are told; getc then returns them in order and waits. *)
Theorem console_interrupt_ok `{Laws : UartLaws} spins k s h :
  uart_ok h -> srx_ok s -> (length (received h) <= spins)%nat -> (length (unread s) + length (received h) < 256)%nat ->
  wp (qca_serial_intr spins (S k)) (fun _ t => received t.2 = [] /\ drains t.1 (unread s ++ received h) /\
    (received h <> [] -> Z.land (serial_events t.1) SERIAL_EVENT_RXRDY = SERIAL_EVENT_RXRDY)) (s, h).
Proof.
  intros Hok Hs Hk Hn. eapply wp_mono; [by apply intr_ok|]. intros [] t (_ & Hr & _ & Hok' & Hu & He).
  split_and!; [done|by apply drains_unread|done].
Qed.

(** ** A UART whose transmitter is ready at the third look *)
Module Toy.
#[local] Existing Instance default_options.
Record uart_t := UartT { rx : list byte; tx : list byte; busy : nat }.

Definition toy_rd (a : Z) : M uart_t Z := fun u =>
  if a =? uart_at OFS_LINE_STATUS then
    Some (Z.lor (if rx u is [] then 0 else 1) (if busy u is O then 0x20 else 0), UartT (rx u) (tx u) (pred (busy u)))
  else if a =? uart_at OFS_RCV_BUFFER then Some (hd 0 (rx u), UartT (tail (rx u)) (tx u) (busy u))
  else if a =? uart_at OFS_INTR_ID then Some (if rx u is [] then 1 else 4, u)
  else Some (0, u).
Definition toy_wr (a v : Z) : M uart_t unit := fun u =>
  if a =? uart_at OFS_SEND_BUFFER then Some (tt, UartT (rx u) (tx u ++ [v]) 2) else Some (tt, u).

#[export] Instance toy : Mmio := {| bus := uart_t; vol_read := toy_rd; vol_write := toy_wr; window := fun _ _ => 0 |}.
#[export] Instance toy_laws : UartLaws.
Proof.
  refine {| uart_ok := fun u : @bus toy => Forall (fun c => 0 <= c < 256) (rx u) /\ (busy u <= 2)%nat;
    received := rx : @bus toy -> _; sent := tx : @bus toy -> _; backlog := busy : @bus toy -> _; slow := 2 |}.
  - by intros u [_ ?].
  - by intros u [? _].
  - intros [r t b] [Hr Hb]. cbn in Hb. eexists _, _. split; [done|]. cbn in *. split_and!; try done; [lia|by destruct r, b|by destruct r, b].
  - intros [r t b] [Hr Hb]. eexists _, _. split; [done|]. cbn in *. split_and!; try done; [destruct r; [done|by apply Forall_inv_tail in Hr]|by intros c cs ->].
  - intros c [r t b] [Hr Hb] _. eexists. split; [done|]. cbn in *. by split_and!; [|lia|..].
  - intros [r t b] [Hr Hb]. eexists _, _. split; [done|]. cbn in *. destruct r; split_and!; try done. by left.
Defined.

Definition fresh_uart : uart_t := UartT [120; 121; 122] [] 1.
Definition line_of (spins : nat) (u : uart_t) : @line (qca_serial_funs spins) := Line (Drv := qca_serial_funs spins) qca_serial_channel0 u [].
End Toy.

Module ConsoleWitnesses.
Import Toy.
#[local] Existing Instance default_options.


Lemma console_read_ok_witness :
  wp (serial_read (Drv := qca_serial_funs 3) 2)
    (fun o l' => o = Done (ENOERR, 2, [120; 121]) /\ rx (dev l') = [122] /\ tx (dev l') = []) (line_of 3 fresh_uart).
Proof.
  refine (console_read_ok 3 _ 2 (line_of 3 fresh_uart) _ _ _ _); [cbn; lia| |done|done|done].
  split; [repeat (constructor; [lia|]); constructor|cbn; lia].
Defined.

Lemma console_interrupt_ok_witness :
  wp (qca_serial_intr 3 1) (fun _ t => rx t.2 = [] /\ drains t.1 [120; 121; 122] /\
    ([120; 121; 122] <> [] -> Z.land (serial_events t.1) SERIAL_EVENT_RXRDY = SERIAL_EVENT_RXRDY)) (srx_init, fresh_uart).
Proof.
  refine (console_interrupt_ok 3 0 srx_init fresh_uart _ _ _ _); [| |vm_compute; lia|vm_compute; lia].
  - split; [repeat (constructor; [lia|]); constructor|cbn; lia].
  - split; [done|cbn; lia|by vm_compute|done].
Defined.

(** The initialisation: 8 bits, no interrupts, and the divisor 135 between setting and
    clearing the bit that gives access to it. *)
Definition traced : Mmio :=
  {| bus := list (Z * Z); vol_read := fun _ t => Some (0, t); vol_write := fun a v t => Some (tt, t ++ [(a, v)]); window := fun _ _ => 0 |}.
Lemma init_programs_uart : (drop 7 <$> (snd <$> qca_serial_init (Hw := traced) [])) =
  Some [(0xb8020004, 0); (0xb802000c, 0x80); (0xb8020000, 135); (0xb8020004, 0); (0xb802000c, 0); (0xb802000c, 3)].
Proof. by vm_compute. Qed.

(** 256 characters that are not read look like none: readers are not told, and getc
    waits. *)
Lemma ring_overruns_silently :
  let u := UartT (replicate 256 65) [] 0 in
  exists t, qca_serial_intr 300 1 (srx_init, u) = Some (tt, t) /\ rx t.2 = [] /\ serial_events t.1 = 0 /\
    qca_serial_getc_intr t.1 = Some (None, t.1).
Proof. eexists. by split_and!; [vm_compute|..]. Qed.

(** With interrupts on, getc_timeout finds nothing, although a character waits in the
    ring: it looks at the UART, which the interrupt has emptied. *)
Lemma getc_timeout_misses_ring : exists t,
  qca_serial_intr 300 1 (srx_init, UartT [65] [] 0) = Some (tt, t) /\
  unread t.1 = [65] /\ (fst <$> qca_serial_getc_timeout 2 t.2) = Some None.
Proof. eexists. by split_and!; [vm_compute|..]. Qed.
End ConsoleWitnesses.
