(* ===== verification/Tty.v ===== *)
(** * Terminals

    io/serial/current/src/common/tty.c with include/ttyio.h: lines that a user types and
    edits, and newlines on output, on top of a serial channel. The channel is an
    interface, [CharDevice], which [polled_device] implements with the serial layer. *)
From S2P Require Import Prelude Serial.

Definition CYG_IO_GET_CONFIG_TTY_INFO : Z := 0x0201.
Definition CYG_IO_SET_CONFIG_TTY_INFO : Z := 0x0281.
Definition CYG_TTY_OUT_FLAGS_CRLF : Z := 0x0001.
Definition CYG_TTY_OUT_FLAGS_DEFAULT : Z := CYG_TTY_OUT_FLAGS_CRLF.
Definition CYG_TTY_IN_FLAGS_CR : Z := 0x0001.
Definition CYG_TTY_IN_FLAGS_CRLF : Z := 0x0002.
Definition CYG_TTY_IN_FLAGS_ECHO : Z := 0x0004.
Definition CYG_TTY_IN_FLAGS_BINARY : Z := 0x0008.
Definition CYG_TTY_IN_FLAGS_DEFAULT : Z := Z.lor CYG_TTY_IN_FLAGS_CR CYG_TTY_IN_FLAGS_ECHO.
Definition sizeof_tty_info : Z := 8.
Definition BUFSIZE : Z := 64.

Record cyg_tty_info_t := TtyInfo { tty_out_flags : Z; tty_in_flags : Z }.

(** What a configuration request passes. *)
Inductive tty_buf := TInfo (i : cyg_tty_info_t) | TDown (x : xbuf_t).

(** The calls of cyg_io_write, cyg_io_read and so on for the channel under a terminal: the
    error and the length they leave, and the bytes read. A call that waits is one whose
    result is that behind the wait. *)
Class CharDevice := {
  cd : Type;
  io_write : list byte -> M cd (Z * Z);
  io_read : Z -> M cd (Z * Z * list byte);
  io_select : Z -> Z -> M cd bool;
  io_get_config : Z -> xbuf_t -> option Z -> M cd (Z * option Z * xbuf_t);
  io_set_config : Z -> xbuf_t -> option Z -> M cd (Z * option Z) }.

Section Tty.
Context `{Dev : CharDevice}.

Record tty_private_info := Tty { dev_info : cyg_tty_info_t; dev_handle : cd }.

Definition on_chan {A} (m : M cd A) : M tty_private_info A := fun t =>
  match m (dev_handle t) with Some (a, d) => Some (a, Tty (dev_info t) d) | None => None end.
Definition set_tty_info (i : cyg_tty_info_t) (t : tty_private_info) : tty_private_info := Tty i (dev_handle t).
Definition out_flag (t : tty_private_info) (f : Z) : bool := flag (tty_out_flags (dev_info t)) f.
Definition in_flag (t : tty_private_info) (f : Z) : bool := flag (tty_in_flags (dev_info t)) f.

Definition tty_init : M tty_private_info bool :=
  _ ← modify (set_tty_info (TtyInfo CYG_TTY_OUT_FLAGS_DEFAULT CYG_TTY_IN_FLAGS_DEFAULT)); mret true.
Definition tty_lookup (sub : cd) : M tty_private_info Z := _ ← modify (fun t => Tty (dev_info t) sub); mret ENOERR.

(** [xbuf[size++] = c]; the array has BUFSIZE places. *)
Definition put_x (c : byte) (x : list byte) : M tty_private_info (list byte) :=
  if Z.of_nat (length x) <? BUFSIZE then mret (x ++ [c]) else crash.

(** What is left to write, the bytes of xbuf that are used; the result is the error and
    the length, when it is changed. *)
Fixpoint write_chars (buf x : list byte) (actually_written res : Z) : M tty_private_info (Z * option Z) :=
  match buf with
  | [] => mret (res, None)
  | c :: buf =>
    t ← get_state;
    x ← (if (c =? 10) && out_flag t CYG_TTY_OUT_FLAGS_CRLF then put_x 13 x else mret x);
    x ← put_x c x;
    if (BUFSIZE - 1 <=? Z.of_nat (length x)) || (match buf with [] => true | _ => false end) then
      '(res, n) ← on_chan (io_write x);
      if negb (res =? ENOERR) then mret (res, Some actually_written)
      else write_chars buf [] (s32 (actually_written + n)) res
    else write_chars buf x actually_written res
  end.

Definition tty_write (buf : list byte) (n : Z) : M tty_private_info (Z * Z) :=
  if Z.of_nat (length buf) <? n then crash else
  '(res, l) ← write_chars (take (Z.to_nat n) buf) [] 0 (- EBADF);
  mret (res, default n l).

(** Shows characters to the user when echo is on; the result is not looked at. *)
Definition echo (bs : list byte) : M tty_private_info unit :=
  t ← get_state; if in_flag t CYG_TTY_IN_FLAGS_ECHO then _ ← on_chan (io_write bs); mret tt else mret tt.

(** One key: the bytes of the buffer that count, and whether the line ends. *)
Definition tty_key (acc : list byte) (c : byte) : M tty_private_info (list byte * bool) :=
  t ← get_state;
  let n := Z.of_nat (length acc) + 1 in
  if in_flag t CYG_TTY_IN_FLAGS_BINARY then mret (acc ++ [c], false)
  else if (c =? 8) || (c =? 0x7f) then
    if n - 2 <? 0 then mret ([], false)
    else _ ← echo [8; 32; 8]; mret (take (Z.to_nat (n - 2)) acc, false)
  else if (c =? 13) && in_flag t CYG_TTY_IN_FLAGS_CRLF then mret (acc ++ [c], false)
  else if (c =? 13) || (c =? 10) then
    let c := if (c =? 13) && in_flag t CYG_TTY_IN_FLAGS_CR then 10 else c in
    _ ← echo (if out_flag t CYG_TTY_OUT_FLAGS_CRLF then [13; 10] else [c]);
    mret (acc ++ [c], true)
  else _ ← echo [c]; mret (acc ++ [c], false).

(** The keys the loop is followed for. *)
Fixpoint read_keys (k : nat) (n : Z) (acc : list byte) : M tty_private_info (Z * Z * list byte) :=
  if Z.of_nat (length acc) <? n then
    match k with
    | O => crash
    | S k =>
      '(res, _, cs) ← on_chan (io_read 1);
      if negb (res =? ENOERR) then mret (res, Z.of_nat (length acc), acc) else
      match cs with
      | c :: _ =>
        '(acc, ends) ← tty_key acc c;
        if ends : bool then mret (ENOERR, Z.of_nat (length acc), acc) else read_keys k n acc
      | [] => crash
      end
    end
  else mret (ENOERR, Z.of_nat (length acc), acc).

(** The error, the length and the start of the caller's buffer; what a key that was erased
    leaves behind them is not part of the result. *)
Definition tty_read (keys : nat) (n : Z) : M tty_private_info (Z * Z * list byte) := read_keys keys n [].

Definition tty_select (which info : Z) : M tty_private_info bool := on_chan (io_select which info).

Definition tty_get_config (key : Z) (b : tty_buf) (n : Z) : M tty_private_info (Z * Z * tty_buf) :=
  t ← get_state;
  if key =? CYG_IO_GET_CONFIG_TTY_INFO then
    if n <? sizeof_tty_info then mret (- EINVAL, n, b) else mret (ENOERR, sizeof_tty_info, TInfo (dev_info t))
  else match b with
    | TDown x => '(res, n', x) ← on_chan (io_get_config key x (Some n)); mret (res, default n n', TDown x)
    | TInfo _ => crash
    end.

Definition tty_set_config (key : Z) (b : tty_buf) (n : Z) : M tty_private_info (Z * Z) :=
  if key =? CYG_IO_SET_CONFIG_TTY_INFO then
    if negb (n =? sizeof_tty_info) then mret (- EINVAL, n) else
    match b with TInfo i => _ ← modify (set_tty_info i); mret (ENOERR, n) | TDown _ => crash end
  else match b with
    | TDown x => '(res, n') ← on_chan (io_set_config key x (Some n)); mret (res, default n n')
    | TInfo _ => crash
    end.
End Tty.

(** ** A channel of the serial layer whose driver is polled *)
Section Polled.
Context `{Opts : SerialOptions} `{Drv : SerialFuns}.
Variable polls : nat.

(** A polled channel never sleeps. *)
Definition returns_of {A} (m : M line (outcome A)) : M line A :=
  o ← m; match o with Done a => mret a | Asleep _ => crash end.

Definition polled_device : CharDevice := {|
  cd := line;
  io_write := fun bs => if (length bs =? 0)%nat then mret (ENOERR, 0) else returns_of (serial_write polls bs (Z.of_nat (length bs)));
  io_read := fun n => if n =? 0 then mret (ENOERR, 0, []) else returns_of (serial_read n);
  io_select := serial_select;
  io_get_config := fun key x n => returns_of (serial_get_config key x n);
  io_set_config := fun key x n => '(res, n, _) ← serial_set_config key x n; mret (res, n) |}.
End Polled.
