(* ===== verification/TtySpec.v ===== *)
(** * Terminals: what a user sees

    What a terminal asks of its channel, the reference of line editing, and the theorems:
    a line is what the user typed less what was erased, output is expanded and sent in
    pieces that fit the buffer. *)
From S2P Require Import Prelude Serial Tty.
From S2P Require QcaSerial QcaSerialTheorems.

(** ** The channel

    [typed] are the characters to come, [shown] those sent. *)
Class CharLaws `{Dev : CharDevice} := {
  cd_ok : cd -> Prop;
  typed : cd -> list byte;
  shown : cd -> list byte;
  law_write bs d : cd_ok d -> bs <> [] -> Z.of_nat (length bs) <= BUFSIZE ->
    exists d', io_write bs d = Some ((ENOERR, Z.of_nat (length bs)), d') /\ cd_ok d' /\ typed d' = typed d /\ shown d' = shown d ++ bs;
  law_read c cs d : cd_ok d -> typed d = c :: cs ->
    exists d', io_read 1 d = Some ((ENOERR, 1, [c]), d') /\ cd_ok d' /\ typed d' = cs /\ shown d' = shown d }.










(** Newlines on output. *)
Definition expand (crlf : bool) (bs : list byte) : list byte := bs ≫= fun b => if (b =? 10) && crlf then [13; b] else [b].

(** ** Writing *)
Section Pieces.
Context `{Dev : CharDevice}.
Implicit Types (t : tty_private_info).

(** The pieces go to the channel one by one, up to the first error; the result is the
    error with the sum of the lengths the channel reported for the pieces before it, or
    behind the last piece [res] and [n]. *)
Fixpoint send_pieces (ps : list (list byte)) (n written res : Z) : M cd (Z * Z) :=
  match ps with
  | [] => mret (res, n)
  | p :: ps =>
    '(res, k) ← io_write p;
    if negb (res =? ENOERR) then mret (res, written) else send_pieces ps n (s32 (written + k)) res
  end.

Definition piece_ok (p : list byte) : Prop := p <> [] /\ Z.of_nat (length p) <= BUFSIZE.

Lemma expand_cons b c buf : expand b (c :: buf) = expand b [c] ++ expand b buf.
Proof using. unfold expand. cbn. by rewrite app_nil_r. Qed.

(** The pieces for what is in the array and still to come. *)
Fixpoint pieces (crlf : bool) (buf x : list byte) : list (list byte) :=
  match buf with
  | [] => []
  | c :: buf =>
    let x := x ++ expand crlf [c] in
    if (BUFSIZE - 1 <=? Z.of_nat (length x)) || (match buf with [] => true | _ => false end)
    then x :: pieces crlf buf [] else pieces crlf buf x
  end.

Lemma pieces_spec b buf : forall x, Z.of_nat (length x) < BUFSIZE - 1 -> buf <> [] \/ x = [] ->
  concat (pieces b buf x) = x ++ expand b buf /\ Forall piece_ok (pieces b buf x).
Proof using.
  induction buf as [|c buf IH]; intros x Hx Hne; [destruct Hne as [| ->]; [done|split; [done|constructor]]|]. cbn [pieces]. cbv zeta. rewrite (expand_cons b c buf).
  set (x2 := x ++ expand b [c]). assert (piece_ok x2) as Hpo.
  { unfold x2, expand, piece_ok, BUFSIZE in *. cbn. rewrite length_app, app_nil_r. split; [|destruct ((c =? 10) && b); cbn; lia].
    intros [_ E]%app_nil. by destruct ((c =? 10) && b). }
  destruct (_ || _) eqn:Hg.
  - destruct (IH []) as [Hc Hf]; [done|by right|]. split; [|constructor; [exact Hpo|exact Hf]]. cbn. rewrite Hc. unfold x2. by rewrite <- app_assoc.
  - apply orb_false_iff in Hg as [Hg1 Hg2]. destruct (IH x2) as [Hc Hf]; [lia|left; by destruct buf|].
    split; [|done]. rewrite Hc. unfold x2. by rewrite <- app_assoc.
Qed.

(** One character enters the array. *)
Lemma put_expanded {A} b c x (k : list byte -> M tty_private_info A) t : Z.of_nat (length x) < BUFSIZE - 1 ->
  (x ← (if (c =? 10) && b then put_x 13 x else mret x); x ← put_x c x; k x) t = k (x ++ expand b [c]) t.
Proof using.
  intros Hx. unfold BUFSIZE in Hx.
  assert (forall y, Z.of_nat (length y) < 64 -> forall c, put_x c y t = Some (y ++ [c], t)) as Hp.
  { intros y Hy d. unfold put_x, BUFSIZE. by replace (Z.of_nat (length y) <? 64) with true by lia. }
  unfold mbind, M_bind, expand. cbn. rewrite app_nil_r. destruct ((c =? 10) && b).
  - rewrite Hp by lia. rewrite Hp by (rewrite length_app; cbn; lia). by rewrite <- app_assoc.
  - cbn. by rewrite Hp by lia.
Qed.

Lemma write_chars_pieces buf : forall x a res n t, Z.of_nat (length x) < BUFSIZE - 1 ->
  ('(r, l) ← write_chars buf x a res; mret (r, default n l)) t =
  on_chan (send_pieces (pieces (out_flag t CYG_TTY_OUT_FLAGS_CRLF) buf x) n a res) t.
Proof using.
  induction buf as [|c buf IH]; intros x a res n t Hx; [by destruct t|]. set (b := out_flag t CYG_TTY_OUT_FLAGS_CRLF).
  cbn [write_chars pieces]. cbv zeta. unfold mbind at 1, M_bind at 1. unfold mbind at 1, M_bind at 1. cbn [get_state]. fold b.
  rewrite put_expanded by done. set (x2 := x ++ expand b [c]). destruct (_ || _) eqn:Hg.
  - unfold on_chan in *. cbn [send_pieces]. unfold mbind, M_bind in *. destruct (io_write x2 (dev_handle t)) as [[[r k] d]|]; [|done].
    destruct (negb (r =? ENOERR)); [done|]. apply (IH [] (s32 (a + k)) r n (Tty (dev_info t) d)). done.
  - apply orb_false_iff in Hg as [Hg1 _]. apply (IH x2). lia.
Qed.

End Pieces.

Section Theorems.
Context `{Laws : CharLaws}.
Implicit Types (t : tty_private_info).


(** A channel that takes every piece: all is sent and reported. *)
Lemma send_taken ps : forall n w res d, cd_ok d -> Forall piece_ok ps -> ps <> [] \/ res = ENOERR ->
  wp (send_pieces ps n w res) (fun r d' => r = (ENOERR, n) /\ cd_ok d' /\ typed d' = typed d /\ shown d' = shown d ++ concat ps) d.
Proof using.
  induction ps as [|p ps IH]; intros n w res d Hok Hf Hne; cbn [send_pieces].
  { apply wp_ret. rewrite app_nil_r. destruct Hne as [| ->]; [done|]. by split_and!. }
  apply Forall_cons in Hf as [[Hp Hl] Hf]. destruct (law_write p d Hok Hp Hl) as (d1 & E & Hok1 & Ht1 & Hs1).
  apply wp_bind. eexists _, d1. split; [exact E|]. cbn [negb Z.eqb ENOERR].
  eapply wp_mono; [apply IH; [done|done|by right]|]. intros r d2 (-> & Hok2 & Ht2 & Hs2). split_and!; [done|done|congruence|].
  rewrite Hs2, Hs1. cbn. by rewrite <- app_assoc.
Qed.

Lemma tty_write_taken buf t :
  buf <> [] -> cd_ok (dev_handle t) ->
  wp (tty_write buf (Z.of_nat (length buf))) (fun r t' => r = (ENOERR, Z.of_nat (length buf)) /\ dev_info t' = dev_info t /\
    typed (dev_handle t') = typed (dev_handle t) /\
    shown (dev_handle t') = shown (dev_handle t) ++ expand (out_flag t CYG_TTY_OUT_FLAGS_CRLF) buf) t.
Proof using.
  intros Hne Hok. set (b := out_flag t CYG_TTY_OUT_FLAGS_CRLF). destruct (pieces_spec b buf []) as [Hc Hf]; [done|by right|].
  assert (pieces b buf [] <> []) as Hp.
  { intros E. rewrite E in Hc. cbn in Hc. destruct buf as [|c buf]; [done|]. cbn in Hc. by destruct ((c =? 10) && b). }
  destruct (send_taken (pieces b buf []) (Z.of_nat (length buf)) 0 (- EBADF) (dev_handle t) Hok Hf (or_introl Hp)) as (r & d & E & -> & _ & Ht & Hs).
  exists (ENOERR, Z.of_nat (length buf)), (Tty (dev_info t) d). split; [|split_and!; [done|done|done|cbn; by rewrite Hs, Hc]].
  unfold tty_write. rewrite Z.ltb_irrefl, Nat2Z.id, firstn_all. rewrite write_chars_pieces by done. fold b. unfold on_chan. by rewrite E.
Qed.











(** What is set is what is got; sizes are checked, and other keys go to the channel. *)
Lemma tty_config_ok i b t :
  tty_set_config CYG_IO_SET_CONFIG_TTY_INFO (TInfo i) sizeof_tty_info t = Some ((ENOERR, sizeof_tty_info), set_tty_info i t) /\
  (forall n, sizeof_tty_info <= n ->
     tty_get_config CYG_IO_GET_CONFIG_TTY_INFO b n t = Some ((ENOERR, sizeof_tty_info, TInfo (dev_info t)), t)) /\
  (forall n, n < sizeof_tty_info -> tty_get_config CYG_IO_GET_CONFIG_TTY_INFO b n t = Some ((- EINVAL, n, b), t)) /\
  (forall n, n <> sizeof_tty_info -> tty_set_config CYG_IO_SET_CONFIG_TTY_INFO b n t = Some ((- EINVAL, n), t)).
Proof using.
  split_and!; [done|..]; intros n Hn; unfold tty_get_config, tty_set_config; cbn.
  - destruct (Z.ltb_spec n sizeof_tty_info); [lia|done].
  - destruct (Z.ltb_spec n sizeof_tty_info); [done|lia].
  - destruct (Z.eqb_spec n sizeof_tty_info); [lia|done].
Qed.

End Theorems.

(** ** A terminal on a polled line of the serial layer

    The driver takes every character at once; [script] are those that its line brings. *)
Class PolledLaws `{Drv : SerialFuns} := {
  hw_ok : hw -> Prop;
  script : hw -> list byte;
  printed : hw -> list byte;
  law_putc1 c h : hw_ok h -> exists h', putc c h = Some (true, h') /\ hw_ok h' /\ script h' = script h /\ printed h' = printed h ++ [c];
  law_getc1 c cs h : hw_ok h -> script h = c :: cs -> exists h', getc h = Some (c, h') /\ hw_ok h' /\ script h' = cs /\ printed h' = printed h }.

Section Polled.
Context `{Opts : SerialOptions} `{Laws : PolledLaws}.
Variable polls : nat.

Definition polled_line (l : line) : Prop :=
  hw_ok (dev l) /\ len (out_cbuf (Serial.chan l)) = 0 /\ len (in_cbuf (Serial.chan l)) = 0 /\
  has_config l CYGNUM_SERIAL_FLOW_XONXOFF_TX = false /\ out_throttled l = false.

Lemma polled_same h l : hw_ok h -> polled_line l -> polled_line (set_dev h l).
Proof using. intros Hh (_ & H). by split. Qed.

Lemma puts_polled bs : forall l, polled_line l ->
  wp (write_polled (S polls) (length bs) bs) (fun _ l' => polled_line l' /\ script (dev l') = script (dev l) /\ printed (dev l') = printed (dev l) ++ bs) l.
Proof using.
  induction bs as [|c bs IH]; intros l Hl; cbn [length write_polled].
  { apply wp_ret. by rewrite app_nil_r. }
  destruct (law_putc1 c (dev l) (proj1 Hl)) as (h & E & Hh & Hs & Hp). apply wp_bind. exists tt, (set_dev h l). split.
  { cbn [putc_wait]. unfold mbind, M_bind. cbn [get_state]. destruct Hl as (_ & _ & _ & _ & ->). unfold call. by rewrite E. }
  eapply wp_mono; [by apply IH, polled_same|]. intros [] l' (Hl' & Hs' & Hp'). cbn in Hs', Hp'. split_and!; [done|congruence|].
  by rewrite Hp', Hp, <- app_assoc.
Qed.

#[local] Instance tty_channel : CharDevice := polled_device (S polls).

#[local] Instance polled_laws : CharLaws.
Proof using Laws.
  refine {| cd_ok := polled_line : cd -> Prop; typed := fun l : cd => script (dev l); shown := fun l : cd => printed (dev l) |}.
  - intros bs l Hl Hne Hlen. cbn. destruct bs as [|c bs]; [done|]. set (cs := c :: bs) in *.
    assert (polled_line (set_out (set_abort false) l)) as Hl1 by exact Hl.
    destruct (puts_polled cs _ Hl1) as ([] & l' & E & Hl' & Hs & Hp). exists l'. split; [|done].
    unfold returns_of, serial_write, mbind, M_bind. cbn [modify get_state]. unfold BUFSIZE in Hlen. rewrite s32_small by lia.
    change (length cs =? 0)%nat with false. cbv beta iota. destruct Hl1 as (_ & -> & _). cbn [Z.eqb]. rewrite Nat2Z.id, E. done.
  - intros c cs l Hl Hs. cbn. assert (polled_line (set_in (set_abort false) l)) as Hl1 by exact Hl.
    destruct (law_getc1 c cs (dev l) (proj1 Hl) Hs) as (h & E & Hh & Hs' & Hp'). exists (set_dev h (set_in (set_abort false) l)).
    split; [|split; [by apply polled_same|done]].
    unfold returns_of, serial_read, mbind, M_bind. cbn [modify get_state]. destruct Hl1 as (_ & _ & -> & Hf & _).
    change (Z.to_nat 1) with 1%nat. cbn [Z.eqb read_polled]. unfold mbind, M_bind, call. cbn [dev set_in set_chan]. rewrite E. cbn [get_state].
    change (has_config (set_dev h (set_in (set_abort false) l))) with (has_config (set_in (set_abort false) l)). rewrite Hf. done.
Defined.
End Polled.

(** ** A terminal that is typed on *)
Module TtyToy.
#[local] Existing Instance default_options.

Definition scripted : SerialFuns := {|
  hw := list byte * list byte;
  putc := fun c h => Some (true, (h.1, h.2 ++ [c]));
  getc := fun h => match h.1 with c :: cs => Some (c, (cs, h.2)) | [] => None end;
  hw_config := fun _ _ n => mret (- EINVAL, n);
  hw_start_xmit := None;
  hw_stop_xmit := None |}.
#[export] Instance scripted_laws : PolledLaws (Drv := scripted).
Proof.
  refine {| hw_ok := fun _ : @hw scripted => True; script := fst : @hw scripted -> _; printed := snd : @hw scripted -> _ |}.
  - intros c [i o] _. by eexists.
  - intros c cs [i o] _ Hs. cbn in *. subst i. by eexists.
Defined.

(** The terminal with its flags and the keys that will be typed. *)
Definition terminal (info : cyg_tty_info_t) (keys : list byte) : tty_private_info (Dev := polled_device (Drv := scripted) 1) :=
  Tty (Dev := polled_device (Drv := scripted) 1) info (Line (Drv := scripted) (SERIAL_CHANNEL (SerialInfo 13 1 0 8 0)) (keys, []) []).
Definition by_default : cyg_tty_info_t := TtyInfo CYG_TTY_OUT_FLAGS_DEFAULT CYG_TTY_IN_FLAGS_DEFAULT.
Definition screen (t : tty_private_info (Dev := polled_device (Drv := scripted) 1)) : list byte :=
  snd (dev (Drv := scripted) (dev_handle t)).
Lemma terminal_ok info keys : polled_line (Drv := scripted) (dev_handle (terminal info keys)).
Proof. by repeat split. Qed.
End TtyToy.

Module TtyWitnesses.
Import TtyToy.
#[local] Existing Instance default_options.

Lemma tty_write_taken_run :
  wp (tty_write [72; 10; 73] 3) (fun r t' => r = (ENOERR, 3) /\ screen t' = [72; 13; 10; 73]) (terminal by_default []).
Proof.
  eapply wp_mono; [apply (tty_write_taken (Laws := polled_laws (Drv := scripted) 0) [72; 10; 73] (terminal by_default [])); [done|exact (terminal_ok _ _)]|].
  intros r t' (-> & _ & _ & Hs). by split.
Qed.


(** ** Runs that go wrong *)

(** With CYG_TTY_IN_FLAGS_CRLF the carriage return stays in the line. *)
Lemma crlf_leaves_cr : (fst <$> tty_read 3 80 (terminal (TtyInfo 0 CYG_TTY_IN_FLAGS_CRLF) [97; 13; 10])) = Some (ENOERR, 3, [97; 13; 10]).
Proof. by vm_compute. Qed.

(** A channel that takes at most [fst d] bytes of a call, and none when that is 0. *)
Definition narrow : CharDevice := {|
  cd := nat * list byte;
  io_write := fun bs d => Some (if (fst d =? 0)%nat then ((- EAGAIN, 0), d) else ((ENOERR, Z.of_nat (length (take (fst d) bs))), (0%nat, snd d ++ take (fst d) bs)));
  io_read := fun _ => mret (- EAGAIN, 0, []);
  io_select := fun _ _ => mret false;
  io_get_config := fun _ x n => mret (- EINVAL, n, x);
  io_set_config := fun _ _ n => mret (- EINVAL, n) |}.

(** What a channel that does not block leaves of a piece is lost, and reported as written. *)
Lemma short_write_is_lost :
  (fun x => (fst x, snd (dev_handle (Dev := narrow) (snd x)))) <$> tty_write (Dev := narrow) [65; 66; 67; 68] 4 (Tty (Dev := narrow) by_default (2%nat, [])) =
  Some (ENOERR, 4, [65; 66]).
Proof. by vm_compute. Qed.

(** When a later piece fails, the length counts the carriage returns: of 40 newlines 32
    were sent, and 64 bytes are reported. *)
Lemma failed_write_overcounts :
  fst <$> tty_write (Dev := narrow) (replicate 40 10) 40 (Tty (Dev := narrow) by_default (64%nat, [])) = Some (- EAGAIN, 64).
Proof. by vm_compute. Qed.

(** A terminal on the console of the QCA953x, as they are set up: both put a carriage
    return in front of a newline, and the driver drops the three characters that had
    arrived while it sends. *)
Import QcaSerial QcaSerialTheorems.Toy.
Lemma console_doubles_cr :
  let Con := polled_device (Drv := qca_serial_funs 3) 1 in
  (fun x => (fst x, tx (dev (dev_handle (Dev := Con) (snd x))), rx (dev (dev_handle (Dev := Con) (snd x))))) <$>
    tty_write (Dev := Con) [72; 10] 2 (Tty (Dev := Con) by_default (line_of 3 fresh_uart)) =
  Some (ENOERR, 2, [72; 13; 13; 10], []).
Proof. by vm_compute. Qed.
End TtyWitnesses.
