(* ===== verification/FlashIo.v ===== *)
(** * Flash regions as devices

    io/flash/current/src/flashiodev.c: names under /dev/flash/ that say which part of the
    flash is meant, a table of the parts that are open, and the requests to them, which
    become requests to the flash package. The callbacks of the boot monitor that know the
    named regions are parameters. Each function is one step: the mutex of the table is
    held where it is searched. *)
From S2P Require Import Prelude Flash.

Definition CYG_IO_GET_CONFIG_FLASH_ERASE : Z := 0x600.
Definition CYG_IO_GET_CONFIG_FLASH_LOCK : Z := 0x602.
Definition CYG_IO_GET_CONFIG_FLASH_UNLOCK : Z := 0x603.
Definition CYG_IO_GET_CONFIG_FLASH_DEVSIZE : Z := 0x605.
Definition CYG_IO_GET_CONFIG_FLASH_BLOCKSIZE : Z := 0x606.
Definition CYG_IO_GET_CONFIG_FLASH_DEVADDR : Z := 0x607.
Definition CYG_IO_SET_CONFIG_CLOSE : Z := 0x1100.

(** ** Numbers in names *)
Fixpoint skip_zeros (str : list byte) : list byte :=
  match str with c :: str' => if c =? 48 then skip_zeros str' else str | [] => [] end.

(** The number with one more digit, unless the character is none of the base. *)
Definition add_digit (base num c : Z) : option Z :=
  if (48 <=? c) && (c <=? 57) then Some (u32 (u32 (num * base) + (c - 48)))
  else if (97 <=? c) && (c <=? 102) then if negb (base =? 16) then None else Some (u32 (u32 (num * base) + (c - 97 + 10)))
  else if (65 <=? c) && (c <=? 70) then if negb (base =? 16) then None else Some (u32 (u32 (Z.shiftl num 4) + (c - 65 + 10)))
  else None.

Fixpoint digits (base num : Z) (str : list byte) : Z * list byte :=
  match str with
  | c :: str' => match add_digit base num c with Some num' => digits base num' str' | None => (num, str) end
  | [] => (num, [])
  end.

(** The number at the start of the string and what is behind it. *)
Definition parsenum (str : list byte) : Z * list byte :=
  match skip_zeros str with
  | c :: str' => if (c =? 120) || (c =? 88) then digits 16 0 str' else digits 10 0 (c :: str')
  | [] => (0, [])
  end.

(** ** The table of open regions *)

(** A handle is the index of its entry; [handle] in the entry leads back to it. *)
Record flashiodev_priv_t := Priv { p_start : Z; p_end : Z; p_valid : bool }.

(** cyg_io_flash_getconfig_*_t *)
Inductive io_arg :=
| AErase (offset len flasherr err_address : Z)
| ADevSize (dev_size : Z)
| ADevAddr (dev_addr : Z)
| ABlockSize (offset block_size : Z).

(** The size of the structure a request for a key has. *)
Definition sizeof_arg (a : io_arg) : Z :=
  match a with AErase _ _ _ _ => 16 | ADevSize _ | ADevAddr _ => 4 | ABlockSize _ _ => 8 end.

Class FlashIoOptions := {
  from_fis : bool;              (* CYGFUN_IO_FLASH_BLOCK_FROM_FIS *)
  from_devoffset : bool;        (* CYGFUN_IO_FLASH_BLOCK_FROM_DEVOFFSET *)
  infra_debug : bool;           (* CYGPKG_INFRA_DEBUG *)
  block_locking : bool;         (* CYGHWR_IO_FLASH_BLOCK_LOCKING *)
  fis_base : list byte -> option Z;     (* GET_FLASH_BASE *)
  fis_size : list byte -> option Z }.   (* GET_SIZE *)

Section FlashIo.
Context `{D : FlashDriver} `{O : FlashIoOptions}.
Variable single indirect : bool.

Record flashio := FlashIo { flashiodev_table : list flashiodev_priv_t; flash : flash_sys }.
Definition set_table (t : list flashiodev_priv_t) (s : flashio) : flashio := FlashIo t (flash s).
Definition set_package (f : flash_sys) (s : flashio) : flashio := FlashIo (flashiodev_table s) f.

Definition on_flash {A} (m : M flash_sys A) : M flashio A := fun s =>
  match m (flash s) with Some (a, f) => Some (a, set_package f s) | None => None end.
Definition get_priv (h : nat) : M flashio flashiodev_priv_t := fun s => p ← flashiodev_table s !! h; Some (p, s).

(** A range runs through every device at most once. *)
Definition devices (s : flashio) : nat := S (length (cyg_flashdevtab (flash s))).

Definition flashiodev_init : M flashio bool :=
  stat ← on_flash (Flash.cyg_flash_init single 0);
  mret (stat =? CYG_FLASH_ERR_OK).

(** *** Opening *)

(** [name] without the NUL; what lies behind the slash of [fis/]. *)
Definition fis_name (name : list byte) : option (list byte) :=
  match name with
  | a :: b :: c :: d :: rest => if (a =? 102) && (b =? 105) && (c =? 115) && (d =? 47) then Some rest else None
  | _ => None
  end.

(** The first and the last address of the region, or the error; [None] when the name is
    of no known form. *)
Definition fis_region (part : list byte) : Z + (Z * Z) :=
  match fis_base part with
  | None => inl (- ENOENT)
  | Some flash_base =>
    match fis_size part with
    | None => inl (- ENODEV)
    | Some size => inr (flash_base, u32 (u32 (flash_base + size) - 1))
    end
  end.

Definition offset_region (info : cyg_flash_info_t) (tempstr : list byte) : Z + (Z * Z) :=
  let '(offset, tempstr) := parsenum tempstr in
  let start := u32 (i_start info + offset) in
  match tempstr with
  | c :: tempstr' =>
    if c =? 44 then
      let length := fst (parsenum tempstr') in
      let last := u32 (u32 (start + length) - 1) in
      if last >? i_end info then inl (- EINVAL) else inr (start, last)
    else inr (start, i_end info)
  | [] => inr (start, i_end info)
  end.

Definition dev_region (name : list byte) : M flashio (option (Z + (Z * Z))) :=
  match name with
  | c :: name' =>
    if (48 <=? c) && (c <=? 57) then
      match name' with
      | sl :: tempstr =>
        if negb (sl =? 47) then mret (Some (inl (- ENOTSUP))) else
        r ← on_flash (cyg_flash_get_info single (c - 48));
        match r with
        | inl _ => mret (Some (inl (- ENOENT)))
        | inr info => mret (Some (offset_region info tempstr))
        end
      | [] => mret (Some (inl (- ENOTSUP)))
      end
    else mret None
  | [] => mret None
  end.

Definition region_of (name : list byte) : M flashio (option (Z + (Z * Z))) :=
  match (if from_fis then fis_name name else None) with
  | Some part => mret (Some (fis_region part))
  | None => if from_devoffset then dev_region name else mret None
  end.

(** The first entry from [i] on that is free. *)
Fixpoint free_slot (t : list flashiodev_priv_t) (i : nat) : option nat :=
  match t with
  | p :: t' => if negb (p_valid p) then Some i else free_slot t' (S i)
  | [] => None
  end.

(** The error, or the handle that the entry of the device table is replaced with. *)
Definition flashiodev_lookup (name : list byte) : M flashio (Z + nat) :=
  r ← region_of name;
  match r with
  | None => mret (inl (- ENOENT))
  | Some (inl err) => mret (inl err)
  | Some (inr (start, end_)) =>
    s ← get_state;
    match free_slot (flashiodev_table s) 0 with
    | Some i => _ ← modify (set_table (<[i := Priv start end_ true]> (flashiodev_table s))); mret (inr i)
    | None => mret (inl (- ENOMEM))
    end
  end.

(** *** Requests *)

(** The test of a range against the region. *)
Definition outside (dev : flashiodev_priv_t) (startpos len : Z) : bool :=
  let endpos := u32 (u32 (startpos + len) - 1) in (startpos <? p_start dev) || (p_end dev <? endpos).

(** The error and the bytes stored. *)
Definition flashiodev_bread (h : nat) (len pos : Z) : M flashio (Z * list byte) :=
  dev ← get_priv h;
  let startpos := u32 (p_start dev + pos) in
  if infra_debug && outside dev startpos len then mret (- EINVAL, []) else
  s ← get_state;
  '(flasherr, _, buf) ← on_flash (Flash.cyg_flash_read single indirect (devices s) false startpos len);
  mret (if negb (flasherr =? CYG_FLASH_ERR_OK) then - EIO else ENOERR, buf).

Definition flashiodev_bwrite (h : nat) (buf : list byte) (len pos : Z) : M flashio Z :=
  dev ← get_priv h;
  let startpos := u32 (p_start dev + pos) in
  if outside dev startpos len then mret (- EINVAL) else
  s ← get_state;
  '(flasherr, _) ← on_flash (Flash.cyg_flash_program single (devices s) false startpos buf len);
  mret (if negb (flasherr =? CYG_FLASH_ERR_OK) then - EIO else ENOERR).

(** Erasing, locking and unlocking; [always] is false where the range is tested only in a
    debug build. *)
Definition range_request (always : bool) (op : nat -> Z -> Z -> M flash_sys (Z * option Z)) (dev : flashiodev_priv_t)
    (a : io_arg) (n : Z) : M flashio (Z * io_arg) :=
  if infra_debug && negb (n =? sizeof_arg (AErase 0 0 0 0)) then mret (- EINVAL, a) else
  match a with
  | AErase offset len flasherr err_address =>
    let startpos := u32 (p_start dev + offset) in
    if (always || infra_debug) && outside dev startpos len then mret (- EINVAL, a) else
    s ← get_state;
    '(flasherr, err) ← on_flash (op (devices s) startpos len);
    mret (ENOERR, AErase offset len flasherr (default err_address err))
  | _ => crash
  end.

Definition flashiodev_get_config (h : nat) (key : Z) (a : io_arg) (n : Z) : M flashio (Z * io_arg) :=
  dev ← get_priv h;
  if key =? CYG_IO_GET_CONFIG_FLASH_ERASE then
    range_request true (fun fuel => Flash.cyg_flash_erase single fuel true) dev a n
  else if block_locking && (key =? CYG_IO_GET_CONFIG_FLASH_LOCK) then
    range_request false (fun fuel => cyg_flash_lock single fuel true) dev a n
  else if block_locking && (key =? CYG_IO_GET_CONFIG_FLASH_UNLOCK) then
    range_request false (fun fuel => cyg_flash_unlock single fuel true) dev a n
  else if key =? CYG_IO_GET_CONFIG_FLASH_DEVSIZE then
    if infra_debug && negb (n =? sizeof_arg (ADevSize 0)) then mret (- EINVAL, a) else
    match a with ADevSize _ => mret (ENOERR, ADevSize (u32 (u32 (p_end dev - p_start dev) + 1))) | _ => crash end
  else if key =? CYG_IO_GET_CONFIG_FLASH_DEVADDR then
    if infra_debug && negb (n =? sizeof_arg (ADevAddr 0)) then mret (- EINVAL, a) else
    match a with ADevAddr _ => mret (ENOERR, ADevAddr (p_start dev)) | _ => crash end
  else if key =? CYG_IO_GET_CONFIG_FLASH_BLOCKSIZE then
    match a with
    | ABlockSize offset _ =>
      let pos := u32 (p_start dev + offset) in
      if infra_debug && ((pos <? p_start dev) || (p_end dev <? pos) || negb (n =? sizeof_arg a)) then mret (- EINVAL, a) else
      size ← on_flash (cyg_flash_block_size single pos);
      mret (ENOERR, ABlockSize offset size)
    | _ => crash
    end
  else mret (- EINVAL, a).

Definition flashiodev_set_config (h : nat) (key : Z) : M flashio Z :=
  dev ← get_priv h;
  if key =? CYG_IO_SET_CONFIG_CLOSE then
    if negb (p_valid dev) then mret (- EBADF)
    else _ ← modify (fun s => set_table (<[h := Priv (p_start dev) (p_end dev) false]> (flashiodev_table s)) s); mret ENOERR
  else mret (- EINVAL).
End FlashIo.

(** * The same, the old way

    io/flash/current/src/flashiodevlegacy.c: devices whose region is fixed by the
    configuration, as an area of the boot monitor, by absolute addresses or by an offset
    on device 0. *)
Module Legacy.
Definition CYG_IO_SET_CONFIG_FLASH_FIS_NAME : Z := 0x680.

(** [struct flashiodev_priv_t] of this file; [l_end] is a length until the region is looked up. *)
Record flashiodev_priv_t := Legacy {
  l_start : Z; l_end : Z; use_fis : bool; use_absolute : bool; use_offset : bool; l_name : list byte; l_block_size : Z; l_init : bool }.

Section Legacy.
Context `{D : FlashDriver} `{O : FlashIoOptions}.
Variable single indirect : bool.

Record legacy := LegacyDev { l_priv : flashiodev_priv_t; l_flash : flash_sys }.
Definition set_region (start end_ : Z) (s : legacy) : legacy :=
  let p := l_priv s in
  LegacyDev (Legacy start end_ (use_fis p) (use_absolute p) (use_offset p) (l_name p) (l_block_size p) (l_init p)) (l_flash s).
Definition set_ready_with (size : Z) (s : legacy) : legacy :=
  let p := l_priv s in
  LegacyDev (Legacy (l_start p) (l_end p) (use_fis p) (use_absolute p) (use_offset p) (l_name p) size true) (l_flash s).

Definition on_package {A} (m : M flash_sys A) : M legacy A := fun s =>
  match m (l_flash s) with Some (a, f) => Some (a, LegacyDev (l_priv s) f) | None => None end.
Definition packages (s : legacy) : nat := S (length (cyg_flashdevtab (l_flash s))).

(** The loop over the regions of the device: the largest block. *)
Definition largest (infos : list cyg_flash_block_info) : Z := fold_left (fun size b => Z.max size (block_size b)) infos 0.

(** The end of lookup and of naming: the region's device is asked for its blocks. *)
Definition take_region (fault : Z) : M legacy Z :=
  s ← get_state;
  stat ← on_package (cyg_flash_get_info_addr single (l_start (l_priv s)));
  match stat with
  | inl _ => mret fault
  | inr info => _ ← modify (set_ready_with (largest (i_block_info info))); mret ENOERR
  end.

(** The region of an area of the boot monitor. *)
Definition fis_area (name : list byte) : option (Z * Z) :=
  flash_base ← fis_base name; size ← fis_size name; Some (flash_base, u32 (flash_base + size)).

Definition flashiodev_init : M legacy bool :=
  stat ← on_package (Flash.cyg_flash_init single 0); mret (stat =? CYG_FLASH_ERR_OK).

(** The information about device 0 is not initialised when cyg_flash_get_info fails. *)
Definition flashiodev_lookup : M legacy Z :=
  s ← get_state; let p := l_priv s in
  if l_init p then mret ENOERR else
  match (if use_fis p then fis_area (l_name p) else Some (l_start p, l_end p)) with
  | None => mret ENOERR
  | Some (start, end_) =>
    _ ← modify (set_region start end_);
    _ ← (if use_offset p then
           r ← on_package (cyg_flash_get_info single 0);
           match r with
           | inl _ => crash
           | inr info => let start := u32 (start + i_start info) in modify (set_region start (u32 (start + end_)))
           end
         else mret tt);
    s ← get_state; let p := l_priv s in
    _ ← (if use_absolute p then modify (set_region (l_start p) (u32 (l_start p + l_end p))) else mret tt);
    take_region ENODEV
  end.

(** The test of a range, in a debug build. *)
Definition refused (p : flashiodev_priv_t) (startpos len : Z) : bool := infra_debug && outside (Priv (l_start p) (l_end p) true) startpos len.

Definition flashiodev_bread (len pos : Z) : M legacy (Z * list byte) :=
  s ← get_state; let p := l_priv s in let startpos := u32 (l_start p + pos) in
  if negb (l_init p) then mret (- EINVAL, []) else
  if refused p startpos len then mret (- EINVAL, []) else
  '(err, _, buf) ← on_package (Flash.cyg_flash_read single indirect (packages s) false startpos len);
  mret (if negb (err =? CYG_FLASH_ERR_OK) then - EIO else err, buf).

Definition flashiodev_bwrite (buf : list byte) (len pos : Z) : M legacy Z :=
  s ← get_state; let p := l_priv s in let startpos := u32 (l_start p + pos) in
  if negb (l_init p) then mret (- EINVAL) else
  if refused p startpos len then mret (- EINVAL) else
  '(err, _) ← on_package (Flash.cyg_flash_program single (packages s) false startpos buf len);
  mret (if negb (err =? 0) then - EIO else err).

(** The error address is the pointer that the erase is given: null, or somewhere. *)
Definition erase_request (p : flashiodev_priv_t) (a : io_arg) (n : Z) : M legacy (Z * io_arg) :=
  if negb (n =? sizeof_arg (AErase 0 0 0 0)) then mret (- EINVAL, a) else
  match a with
  | AErase offset len _ err_address =>
    let startpos := u32 (l_start p + offset) in
    if refused p startpos len then mret (- EINVAL, a) else
    s ← get_state;
    '(flasherr, err) ← on_package (Flash.cyg_flash_erase single (packages s) (negb (err_address =? 0)) startpos len);
    match err with Some _ => crash | None => mret (ENOERR, AErase offset len flasherr err_address) end
  | _ => crash
  end.

Definition flashiodev_get_config (key : Z) (a : io_arg) (n : Z) : M legacy (Z * io_arg) :=
  s ← get_state; let p := l_priv s in
  if negb (l_init p) then mret (- EINVAL, a) else
  if key =? CYG_IO_GET_CONFIG_FLASH_ERASE then erase_request p a n
  else if key =? CYG_IO_GET_CONFIG_FLASH_DEVSIZE then
    if negb (n =? sizeof_arg (ADevSize 0)) then mret (- EINVAL, a) else
    match a with ADevSize _ => mret (ENOERR, ADevSize (u32 (l_end p - l_start p))) | _ => crash end
  else if key =? CYG_IO_GET_CONFIG_FLASH_BLOCKSIZE then
    match a with
    | ABlockSize offset _ =>
      let startpos := u32 (l_start p + offset) in
      if infra_debug && ((startpos <? l_start p) || (l_end p <? startpos)) then mret (- EINVAL, a) else
      if negb (n =? sizeof_arg a) then mret (- EINVAL, a) else mret (ENOERR, ABlockSize offset (l_block_size p))
    | _ => crash
    end
  else mret (- EINVAL, a).

Definition flashiodev_set_config (key : Z) (name : list byte) : M legacy Z :=
  if key =? CYG_IO_SET_CONFIG_FLASH_FIS_NAME then
    match fis_area name with
    | None => mret (- ENOENT)
    | Some (start, end_) => _ ← modify (set_region start end_); take_region (- ENOENT)
    end
  else mret (- EINVAL).
End Legacy.
End Legacy.
