(* ===== verification/FlashIoSpec.v ===== *)
(** * What a flash region guarantees

    Names are read back as the numbers they were made of; opening takes a free entry and
    leaves the others; reading and writing stay within the region; and runs that do not. *)
From S2P Require Import Prelude Flash FlashSpec FlashIo.

(** ** Numbers *)
Definition digit_char (d : Z) : byte := if d <? 10 then 48 + d else 87 + d.

(** The digits of a number, in front of what follows; [fuel] is their number at most. *)
Fixpoint show (fuel : nat) (base n : Z) (acc : list byte) : list byte :=
  match fuel with
  | O => acc
  | S fuel' => if n =? 0 then acc else show fuel' base (n / base) (digit_char (n mod base) :: acc)
  end.

Definition decimal (n : Z) (rest : list byte) : list byte := if n =? 0 then 48 :: rest else show 32 10 n rest.
Definition hexadecimal (n : Z) (rest : list byte) : list byte := [48; 120] ++ show 32 16 n rest.

(** What may follow a number. *)
Definition number_ends (rest : list byte) : Prop :=
  match rest with [] => True | c :: _ => c = 44 end.

Lemma add_digit_char base num d : base = 10 \/ base = 16 -> 0 <= d < base -> add_digit base num (digit_char d) = Some (u32 (num * base + d)).
Proof.
  intros Hb Hd. unfold add_digit, digit_char, uwrap. destruct (Z.ltb_spec d 10).
  - replace (_ && _) with true by lia. rewrite Zplus_mod_idemp_l. do 2 f_equal. lia.
  - assert (base = 16) as -> by lia. replace ((48 <=? _) && _) with false by lia. replace (_ && _) with true by lia.
    cbn [negb Z.eqb Pos.eqb]. rewrite Zplus_mod_idemp_l. do 2 f_equal. lia.
Qed.

Lemma digits_show base fuel : base = 10 \/ base = 16 -> forall n acc, 0 <= n < base ^ Z.of_nat fuel ->
  exists k, 0 <= k /\ (n = 0 -> k = 0) /\
    forall num, digits base num (show fuel base n acc) = digits base (if n =? 0 then num else u32 (num * base ^ k + n)) acc.
Proof.
  intros Hb. induction fuel as [|fuel IH]; intros n acc Hn; cbn [show].
  { exists 0. split_and!; [done|done|]. intros num. by replace (n =? 0) with true by lia. }
  destruct (Z.eqb_spec n 0) as [->|Hn0]; [by exists 0|]. pose proof (Z.div_mod n base ltac:(lia)). pose proof (Z.mod_pos_bound n base ltac:(lia)).
  rewrite Nat2Z.inj_succ, Z.pow_succ_r in Hn by lia.
  destruct (IH (n / base) (digit_char (n mod base) :: acc)) as (k & Hk & Hk0 & E).
  { split; [apply Z.div_pos; lia|]. apply Z.div_lt_upper_bound; lia. }
  exists (k + 1). split_and!; [lia|done|]. intros num. rewrite E. cbn [digits]. rewrite add_digit_char by done.
  f_equal. rewrite Z.pow_add_r, Z.pow_1_r by lia. destruct (Z.eqb_spec (n / base) 0) as [Hd|Hd].
  - rewrite Hk0 by done. f_equal. nia.
  - unfold uwrap. rewrite Zplus_mod, Zmult_mod_idemp_l, <- Zplus_mod. f_equal. nia.
Qed.

Lemma digits_end base num rest : number_ends rest -> digits base num rest = (num, rest).
Proof. destruct rest as [|c rest]; [done|]. by intros ->. Qed.

Lemma add_digit_zero base c : base = 10 \/ base = 16 -> c = 48 -> add_digit base 0 c = Some 0.
Proof. by intros [-> | ->] ->. Qed.

(** The zeros that are skipped would not count. *)
Lemma digits_skip_zeros l : digits 10 0 (skip_zeros l) = digits 10 0 l.
Proof.
  induction l as [|c l IH]; [done|]. cbn [skip_zeros]. destruct (Z.eqb_spec c 48) as [->|]; [|done]. by rewrite IH.
Qed.

Lemma parse_digits l : (forall c l', skip_zeros l = c :: l' -> c <> 120 /\ c <> 88) -> parsenum l = digits 10 0 l.
Proof.
  intros H. rewrite <- digits_skip_zeros. unfold parsenum. destruct (skip_zeros l) as [|c l']; [done|].
  destruct (H c l' eq_refl). by replace ((c =? 120) || (c =? 88)) with false by lia.
Qed.

Lemma show_app fuel base n : forall acc, show fuel base n acc = show fuel base n [] ++ acc.
Proof.
  revert n. induction fuel as [|fuel IH]; intros n acc; [done|]. cbn [show]. destruct (n =? 0); [done|].
  rewrite IH, (IH _ [_]), <- app_assoc. done.
Qed.

Lemma show_decimal_digits fuel n : 0 <= n -> Forall (fun c => 48 <= c <= 57) (show fuel 10 n []).
Proof.
  revert n. induction fuel as [|fuel IH]; intros n Hn; cbn [show]; [done|]. destruct (n =? 0); [done|].
  rewrite show_app. apply Forall_app. split; [apply IH, Z.div_pos; lia|]. repeat constructor; unfold digit_char;
    pose proof (Z.mod_pos_bound n 10 ltac:(lia)); destruct (Z.ltb_spec (n mod 10) 10); lia.
Qed.

Lemma skip_zeros_in l rest c l' : Forall (fun c => 48 <= c <= 57) l -> number_ends rest -> skip_zeros (l ++ rest) = c :: l' -> c <> 120 /\ c <> 88.
Proof.
  intros Hl Hr. induction Hl as [|d l Hd Hl IH]; cbn.
  - destruct rest as [|r rest]; cbn; [done|]. cbn in Hr. subst r. cbn. intros [= <- _]. lia.
  - destruct (d =? 48); [done|]. intros [= <- _]. lia.
Qed.

(** A number of 32 bits in a name is read back. *)
Lemma parse_decimal n rest : fits 32 n -> number_ends rest -> parsenum (decimal n rest) = (n, rest).
Proof.
  intros Hn Hr. unfold decimal. destruct (Z.eqb_spec n 0) as [->|Hn0].
  - rewrite (parse_digits (48 :: rest)); [cbn [digits]; by rewrite add_digit_zero, digits_end by (done || by left)|].
    intros c l'. by apply (skip_zeros_in [48] rest); [repeat constructor; lia|].
  - rewrite parse_digits.
    + destruct (digits_show 10 32 ltac:(by left) n rest) as (k & _ & _ & ->).
      { unfold fits in Hn. change (10 ^ Z.of_nat 32) with 100000000000000000000000000000000. lia. }
      replace (n =? 0) with false by lia. rewrite Z.mul_0_l, Z.add_0_l, uwrap_small by done. by apply digits_end.
    + intros c l'. rewrite show_app. apply skip_zeros_in; [|done]. apply show_decimal_digits. unfold fits in Hn. lia.
Qed.

Lemma parse_hexadecimal n rest : fits 32 n -> number_ends rest -> parsenum (hexadecimal n rest) = (n, rest).
Proof.
  intros Hn Hr. change (parsenum (hexadecimal n rest)) with (digits 16 0 (show 32 16 n rest)).
  destruct (digits_show 16 32 ltac:(by right) n rest) as (k & _ & _ & ->).
  { unfold fits in Hn. change (16 ^ Z.of_nat 32) with 340282366920938463463374607431768211456. lia. }
  destruct (Z.eqb_spec n 0) as [->|]; [by apply digits_end|].
  rewrite Z.mul_0_l, Z.add_0_l, uwrap_small by done. by apply digits_end.
Qed.

(** ** Opening *)
Inductive notation := Dec | Hex.
Definition number (nt : notation) : Z -> list byte -> list byte := match nt with Dec => decimal | Hex => hexadecimal end.

Lemma parse_number nt n rest : fits 32 n -> number_ends rest -> parsenum (number nt n rest) = (n, rest).
Proof. destruct nt; [apply parse_decimal|apply parse_hexadecimal]. Qed.

(** [<dev>/<offset>,<length>], as it is found behind /dev/flash/ *)
Definition path (dev : Z) (nt : notation) (offset : Z) (nt' : notation) (length : Z) : list byte :=
  (48 + dev) :: 47 :: number nt offset (44 :: number nt' length []).

Lemma free_slot_spec t : forall i, match free_slot t i with
  | Some j => exists p, (i <= j)%nat /\ t !! (j - i)%nat = Some p /\ p_valid p = false
  | None => Forall (fun p => p_valid p = true) t end.
Proof.
  induction t as [|p t IH]; intros i; cbn; [done|]. destruct (p_valid p) eqn:Ev; cbn.
  - specialize (IH (S i)). destruct (free_slot t (S i)) as [j|]; [|by constructor]. destruct IH as (q & Hj & Hq & ?).
    exists q. split_and!; [lia| |done]. by replace (j - i)%nat with (S (j - S i)) by lia.
  - exists p. by rewrite Nat.sub_diag.
Qed.

Section Regions.
Context `{D : FlashDriver} `{!DriverLaws D} `{O : FlashIoOptions}.
Variable single indirect : bool.
Implicit Types (s : flashio).

(** The region of [length] bytes from [offset] on of a device, as computed in 32 bits. *)
Definition part_of (info : cyg_flash_info_t) (offset length : Z) : flashiodev_priv_t :=
  Priv (u32 (i_start info + offset)) (u32 (i_start info + offset + length - 1)) true.

(** Where nothing wraps around these are the bytes meant. *)
Lemma part_of_plain info offset length : 0 <= i_start info -> 0 <= offset -> 0 < length -> i_start info + offset + length <= 2 ^ 32 ->
  part_of info offset length = Priv (i_start info + offset) (i_start info + offset + length - 1) true.
Proof using. intros. unfold part_of. by rewrite !uwrap_small by lia. Qed.

Lemma offset_region_ok info nt offset nt' length : fits 32 offset -> fits 32 length ->
  offset_region info (number nt offset (44 :: number nt' length [])) =
    if p_end (part_of info offset length) >? i_end info then inl (- EINVAL)
    else inr (p_start (part_of info offset length), p_end (part_of info offset length)).
Proof using.
  intros Ho Hl. unfold offset_region. rewrite parse_number by done. cbn [Z.eqb Pos.eqb].
  rewrite parse_number by done. cbn [fst part_of p_start p_end].
  replace (u32 (u32 (u32 (i_start info + offset) + length) - 1)) with (u32 (i_start info + offset + length - 1)); [done|].
  unfold uwrap. rewrite Zminus_mod_idemp_l, <- (Z.add_sub_assoc (_ mod _)), Zplus_mod_idemp_l. f_equal. lia.
Qed.

(** The name of a device, an offset and a length is the region of that device, or the error. *)
Lemma region_of_path dev nt offset nt' length r s :
  from_devoffset = true -> 0 <= dev < 10 -> fits 32 offset -> fits 32 length ->
  cyg_flash_get_info single dev (flash s) = Some (r, flash s) ->
  region_of single (path dev nt offset nt' length) s = Some (Some match r with
    | inl _ => inl (- ENOENT)
    | inr info => if p_end (part_of info offset length) >? i_end info then inl (- EINVAL)
                  else inr (p_start (part_of info offset length), p_end (part_of info offset length))
    end, s).
Proof using.
  intros Hopt Hd Ho Hl Hi. unfold region_of.
  replace (if from_fis then fis_name (path dev nt offset nt' length) else None) with (@None (list byte)).
  - rewrite Hopt. unfold dev_region, path. replace ((48 <=? 48 + dev) && (48 + dev <=? 57)) with true by lia. cbn [Z.eqb Pos.eqb negb].
    unfold mbind, M_bind, on_flash. replace (48 + dev - 48) with dev by lia. rewrite Hi.
    destruct s, r as [e|info]; [done|]. by rewrite offset_region_ok.
  - destruct from_fis; [|done]. unfold fis_name, path. replace (48 + dev =? 102) with false by lia.
    by destruct (number nt offset _) as [|? [|? ?]].
Qed.

(** C36: opening the name of a device (a number of one digit, the configuration being that
    with devices and offsets), an offset and a length of 32 bits, each in decimal or
    hexadecimal. When the package has no such device the answer is -ENOENT; when the
    last address is behind the end of the device, -EINVAL; when the table is full, -ENOMEM;
    and nothing changes. Otherwise a free entry of the table gets the region that the
    numbers say, and every other region and the flash are as they were. The two addresses
    are computed in 32 bits: where the sum wraps around, the region may lie in front of the
    device (see offset_below_device). *)
Theorem region_open_ok dev nt offset nt' length r s :
  from_devoffset = true -> 0 <= dev < 10 -> fits 32 offset -> fits 32 length ->
  cyg_flash_get_info single dev (flash s) = Some (r, flash s) ->
  wp (flashiodev_lookup single (path dev nt offset nt' length)) (fun res s' =>
    match r with
    | inl _ => res = inl (- ENOENT) /\ s' = s
    | inr info =>
        let p := part_of info offset length in
        (0 <= i_start info -> 0 < length -> i_start info + offset + length <= 2 ^ 32 ->
           p = Priv (i_start info + offset) (i_start info + offset + length - 1) true) /\
        if p_end p >? i_end info then res = inl (- EINVAL) /\ s' = s else
        match res with
        | inr h => (exists q, flashiodev_table s !! h = Some q /\ p_valid q = false) /\
            s' = set_table (<[h := p]> (flashiodev_table s)) s
        | inl err => err = - ENOMEM /\ s' = s /\ Forall (fun q => p_valid q = true) (flashiodev_table s)
        end
    end) s.
Proof using.
  intros Hopt Hd Ho Hl Hi. unfold flashiodev_lookup. apply wp_bind. eexists _, s. split; [by apply region_of_path|].
  destruct r as [e|info]; [by apply wp_ret|]. eapply wp_mono; [|intros res s' H; split; [|exact H]].
  2: { intros. apply part_of_plain; [done|apply Ho|done..]. }
  destruct (p_end (part_of info offset length) >? i_end info); [by apply wp_ret|]. apply wp_get.
  pose proof (free_slot_spec (flashiodev_table s) 0) as Hf. destruct (free_slot _ 0) as [h|].
  - destruct Hf as (q & _ & Hp & Hv). rewrite Nat.sub_0_r in Hp. apply wp_modify, wp_ret. eauto.
  - by apply wp_ret.
Qed.

(** ** Requests to a region *)

(** The region lies in blocks of devices, and its handle leads to it. *)
Record region_ok (s : flashio) (h : nat) (p : flashiodev_priv_t) : Prop := {
  ro_sys : sys_ok single (flash s);
  ro_slot : flashiodev_table s !! h = Some p;
  ro_range : 0 <= p_start p <= p_end p /\ p_end p < 2 ^ 32;
  ro_covered : covered_range (flash s) (p_start p) (p_end p - p_start p + 1) }.

Lemma on_flash_wp {A} (m : M flash_sys A) Q s : wp m (fun a f => Q a (set_package f s)) (flash s) -> wp (on_flash m) Q s.
Proof using. intros (a & f & E & HQ). exists a, (set_package f s). split; [unfold on_flash; by rewrite E|done]. Qed.

Lemma get_priv_wp {A} h p (k : flashiodev_priv_t -> M flashio A) Q s : flashiodev_table s !! h = Some p -> wp (k p) Q s -> wp (get_priv h ≫= k) Q s.
Proof using. intros E Hk. apply wp_bind. exists p, s. split; [unfold get_priv; by rewrite E|done]. Qed.

(** The range does not wrap around the address space. *)
Definition unwrapped (p : flashiodev_priv_t) (pos len : Z) : Prop :=
  fits 32 pos /\ 0 < len /\ (p_start p + pos + len <= 2 ^ 32 \/ 2 ^ 32 <= p_start p + pos /\ len <= 2 ^ 32).

Definition within (p : flashiodev_priv_t) (pos len : Z) : bool := pos + len <=? p_end p - p_start p + 1.

Lemma outside_spec p pos len : 0 <= p_start p <= p_end p -> p_end p < 2 ^ 32 -> unwrapped p pos len ->
  outside p (u32 (p_start p + pos)) len = negb (within p pos len) /\ (within p pos len = true -> u32 (p_start p + pos) = p_start p + pos).
Proof using.
  intros Hp He (Hf & Hl & Hw). unfold outside, within, fits in *. destruct Hw as [Hw|[Hw Hl2]].
  - rewrite (uwrap_small 32 (p_start p + pos)) by lia. split; [|done].
    replace (u32 (u32 (p_start p + pos + len) - 1)) with (p_start p + pos + len - 1); [lia|].
    unfold uwrap. rewrite Zminus_mod_idemp_l, Z.mod_small by lia. done.
  - replace (u32 (p_start p + pos)) with (p_start p + pos - 2 ^ 32); [lia|].
    unfold uwrap. symmetry. replace (p_start p + pos) with (p_start p + pos - 2 ^ 32 + 1 * 2 ^ 32) at 1 by lia. rewrite Z.mod_add by lia. apply Z.mod_small. lia.
Qed.

Lemma covered_sub f a n b m : covered_range f a n -> a <= b -> b + m <= a + n -> covered_range f b m.
Proof using. intros Hc H1 H2 x Hx. apply Hc. lia. Qed.

Lemma region_write_spec h p buf pos s :
  region_ok s h p -> buf <> [] -> Forall is_byte buf -> unwrapped p pos (Z.of_nat (length buf)) ->
  (forall i d, has (flash s) i d -> covered d (p_start p + pos) -> (p_start p + pos) mod prog_unit i = 0) ->
  wp (flashiodev_bwrite single h buf (Z.of_nat (length buf)) pos) (fun r s' =>
    if within p pos (Z.of_nat (length buf)) then
      region_ok s' h p /\ (r = ENOERR \/ r = - EIO /\ may_fail) /\
      (forall a, ~ p_start p + pos <= a < p_start p + pos + Z.of_nat (length buf) -> cell (hw (flash s')) a = cell (hw (flash s)) a) /\
      (r = ENOERR -> forall k x, buf !! k = Some x ->
         cell (hw (flash s')) (p_start p + pos + Z.of_nat k) = Z.land (cell (hw (flash s)) (p_start p + pos + Z.of_nat k)) x)
    else r = - EINVAL /\ s' = s) s.
Proof using.
  intros [Hs Hp Hr Hc] Hne Hby Hw Hu. unfold flashiodev_bwrite. eapply get_priv_wp; [exact Hp|].
  destruct (outside_spec p pos _ (proj1 Hr) (proj2 Hr) Hw) as [-> Hpos]. destruct (within p pos _) eqn:Hin; cbn [negb]; [|by apply wp_ret].
  rewrite Hpos by done. pose proof Hw as (Hf & Hl & _). unfold within, fits in *. apply wp_get, wp_bind, on_flash_wp.
  eapply wp_mono; [apply flash_program_spec; try done; try lia; [by eapply covered_sub; [exact Hc|lia..]|unfold devices; lia]|].
  rewrite Nat2Z.id, firstn_all. intros [r err] f (h' & -> & [P1 P2 P3 P4 P5]). apply wp_ret. cbn [flash set_package hw set_hw].
  split_and!; [split; [by apply sys_ok_hw|done|done|done]| |exact P2|]; unfold CYG_FLASH_ERR_OK in *; destruct (Z.eqb_spec r 0); cbn; auto.
  discriminate.
Qed.

(** C39: a write of at least one byte through an open region programs the bytes of the
    range and no others, and says when the device failed; a range that does not lie in the
    region is refused with -EINVAL and changes nothing. This is for a range that begins at
    a multiple of what the driver programs at once ([prog_unit], a page with the driver of
    the QCA953x) and that does not run over the end of the address space ([unwrapped]: the
    test of the range compares an end that has wrapped around, see erase_length_wraps). *)
Theorem region_write_ok h p buf pos s :
  region_ok s h p -> buf <> [] -> Forall is_byte buf -> unwrapped p pos (Z.of_nat (length buf)) ->
  (forall i d, has (flash s) i d -> covered d (p_start p + pos) -> (p_start p + pos) mod prog_unit i = 0) ->
  wp (flashiodev_bwrite single h buf (Z.of_nat (length buf)) pos) (fun r s' =>
    if within p pos (Z.of_nat (length buf)) then
      region_ok s' h p /\ (r = ENOERR \/ r = - EIO /\ may_fail) /\
      (forall a, ~ p_start p + pos <= a < p_start p + pos + Z.of_nat (length buf) -> cell (hw (flash s')) a = cell (hw (flash s)) a) /\
      (r = ENOERR -> forall k x, buf !! k = Some x ->
         cell (hw (flash s')) (p_start p + pos + Z.of_nat k) = Z.land (cell (hw (flash s)) (p_start p + pos + Z.of_nat k)) x)
    else r = - EINVAL /\ s' = s) s.
Proof using. apply region_write_spec. Qed.

(** Without a place for the address of an error, a read that would succeed does. *)
Lemma read_loop_quiet d read fuel : forall addr off n ram f bs err f',
  read_loop fuel true d read CYG_FLASH_ERR_OK addr off n ram f = Some ((CYG_FLASH_ERR_OK, err, bs), f') ->
  read_loop fuel false d read CYG_FLASH_ERR_OK addr off n ram f = Some ((CYG_FLASH_ERR_OK, None, bs), f').
Proof using.
  induction fuel as [|fuel IH]; intros addr off n ram f bs err f'; [done|]. cbn [read_loop]. destruct (n >? 0).
  - unfold mbind, M_bind. destruct (on_drv _ f) as [[[stat bs1] f1]|]; [|done]. destruct (Z.eqb_spec stat CYG_FLASH_ERR_OK) as [->|Hs].
    + cbn [Z.eqb negb andb]. apply IH.
    + cbn [negb andb]. intros [= E _ _ _]. done.
  - by intros [= _ -> ->].
Qed.

Lemma flash_read_quiet fuel : forall base len f bs err f',
  Flash.cyg_flash_read single indirect fuel true base len f = Some ((CYG_FLASH_ERR_OK, err, bs), f') ->
  Flash.cyg_flash_read single indirect fuel false base len f = Some ((CYG_FLASH_ERR_OK, err, bs), f').
Proof using.
  induction fuel as [|fuel IH]; intros base len f bs err f'; [done|]. cbn [Flash.cyg_flash_read]. unfold mbind, M_bind.
  destruct (find_dev single base f) as [[[e|i] f1]|]; [done| |done]. destruct (LOCK i f1) as [[[] f2]|]; [|done].
  destruct (get_dev i f2) as [[d f3]|]; [|done].
  match goal with |- context [match ?part with Some _ => _ | None => None end = Some ((CYG_FLASH_ERR_OK, err, bs), f')] =>
    destruct part as [[[[stat err1] ram] f4]|] eqn:Ep; [|done] end.
  destruct (UNLOCK i f4) as [[[] f5]|] eqn:Eu; [|done]. destruct (Z.eqb_spec stat CYG_FLASH_ERR_OK) as [->|Hs]; cbn [negb]; [|by intros [= E _ _ _]].
  match goal with |- _ -> match ?part with Some _ => _ | None => None end = _ =>
    assert (exists err2, part = Some ((CYG_FLASH_ERR_OK, err2, ram), f4)) as [err2 ->] end.
  { destruct (flash_read i) as [read|]; [|by eauto]. destruct indirect; cbn [negb] in *; [|by inversion Ep].
    unfold mbind, M_bind in *. destruct (lift (block_offset base d) f3) as [[off f6]|]; [|done]. eexists. by eapply read_loop_quiet. }
  rewrite Eu. cbn [negb Z.eqb]. destruct (beyond d base len) as [[base' len']|]; [|done].
  destruct (Flash.cyg_flash_read _ _ fuel true base' len' f5) as [[[[stat2 err3] ram2] f6]|] eqn:Er; [|done].
  intros [= -> -> <- <-]. cbn [negb Z.eqb CYG_FLASH_ERR_OK]. by rewrite (IH _ _ _ _ _ _ Er).
Qed.

(** Reading through an open region, from a device that does not fail. *)
Theorem region_read_ok h p pos len s :
  region_ok s h p -> unwrapped p pos len -> within p pos len = true -> ~ may_fail ->
  (forall i, flash_read i = None) \/ indirect = true ->
  wp (flashiodev_bread single indirect h len pos) (fun r s' => region_ok s' h p /\
    r = (ENOERR, cells (hw (flash s)) (p_start p + pos) (Z.to_nat len)) /\
    (forall a, cell (hw (flash s')) a = cell (hw (flash s)) a)) s.
Proof using.
  intros [Hs Hp Hr Hc] Hw Hin Hnf Hind. unfold flashiodev_bread. eapply get_priv_wp; [exact Hp|].
  destruct (outside_spec p pos _ (proj1 Hr) (proj2 Hr) Hw) as [-> Hpos]. rewrite Hin, andb_false_r, Hpos by done.
  pose proof Hw as (Hf & Hl & _). unfold within, fits in *. apply wp_get, wp_bind, on_flash_wp.
  assert (covered_range (flash s) (p_start p + pos) len) as Hcov by (eapply covered_sub; [exact Hc|lia..]).
  destruct (flash_read_spec single indirect (devices s) (p_start p + pos) len (flash s) Hs Hl ltac:(lia) ltac:(lia) Hcov Hind ltac:(unfold devices; lia))
    as ([[r err] ram] & f & E & h' & -> & [P1 P2 P3 P4 P5]).
  assert (r = CYG_FLASH_ERR_OK) as -> by (destruct (Z.eq_dec r CYG_FLASH_ERR_OK) as [|Hne]; [done|by destruct (Hnf (P4 Hne))]).
  apply flash_read_quiet in E. eexists _, _. split; [exact E|]. cbn [negb Z.eqb]. apply wp_ret. cbn [flash set_package hw set_hw].
  split_and!; [split; [by apply sys_ok_hw|done..]|by rewrite P3|exact P2].
Qed.

(** What a write puts into an erased range is read back. *)
Theorem region_roundtrip h p buf pos s :
  region_ok s h p -> buf <> [] -> Forall is_byte buf -> unwrapped p pos (Z.of_nat (length buf)) ->
  within p pos (Z.of_nat (length buf)) = true -> ~ may_fail -> (forall i, flash_read i = None) \/ indirect = true ->
  (forall i d, has (flash s) i d -> covered d (p_start p + pos) -> (p_start p + pos) mod prog_unit i = 0) ->
  (forall k, (k < length buf)%nat -> cell (hw (flash s)) (p_start p + pos + Z.of_nat k) = 0xff) ->
  wp (r ← flashiodev_bwrite single h buf (Z.of_nat (length buf)) pos;
      r' ← flashiodev_bread single indirect h (Z.of_nat (length buf)) pos; mret (r, r'))
    (fun r _ => r = (ENOERR, (ENOERR, buf))) s.
Proof using.
  intros Hok Hne Hby Hw Hin Hnf Hind Hu Hff. apply wp_bind. eapply wp_mono; [by apply (region_write_spec h p)|]. rewrite Hin. intros r s1 (Hok1 & Hr & _ & Hx).
  assert (r = ENOERR) as -> by (destruct Hr as [|[_ Hm]]; [done|by destruct Hnf]).
  apply wp_bind. eapply wp_mono; [by apply (region_read_ok h p)|]. intros r' s2 (_ & -> & _). apply wp_ret. do 2 f_equal.
  apply list_eq. intros k. destruct (decide (k < length buf)%nat) as [Hk|Hk].
  - rewrite cells_lookup by lia. destruct (lookup_lt_is_Some_2 _ _ Hk) as [x Ex]. rewrite Ex. f_equal.
    destruct Hok as [_ _ Hrg _], Hw as (Hf & Hl & _). unfold within, fits in *. rewrite uwrap_small by lia. rewrite (Hx eq_refl k x Ex), Hff by done.
    rewrite Z.land_comm. change 255 with (Z.ones 8). rewrite Z.land_ones by lia. apply Z.mod_small. exact (Forall_lookup_1 _ _ _ _ Hby Ex).
  - rewrite !lookup_ge_None_2; [done|lia|rewrite length_cells; lia].
Qed.

(** Erasing through an open region: every block the range touches, so that the blocks at
    its two ends may reach out of the region. *)
Theorem region_erase_ok h p pos len fe ea n s :
  region_ok s h p -> unwrapped p pos len -> infra_debug = false \/ n = sizeof_arg (AErase pos len fe ea) ->
  wp (flashiodev_get_config single h CYG_IO_GET_CONFIG_FLASH_ERASE (AErase pos len fe ea) n) (fun r s' =>
    if within p pos len then exists stat err, r = (ENOERR, AErase pos len stat (default ea err)) /\
      exists h', s' = set_package (set_hw h' (flash s)) s /\ erase_post (block_of_some (flash s)) (touched (flash s) (p_start p + pos) len) true stat err (hw (flash s)) h'
    else r = (- EINVAL, AErase pos len fe ea) /\ s' = s) s.
Proof using.
  intros [Hs Hp Hr Hc] Hw Hn. unfold flashiodev_get_config. eapply get_priv_wp; [exact Hp|]. cbn [Z.eqb Pos.eqb]. unfold range_request.
  replace (infra_debug && _) with false.
  2:{ destruct Hn as [-> | ->]; [done|]. cbn. by rewrite andb_false_r. }
  destruct (outside_spec p pos _ (proj1 Hr) (proj2 Hr) Hw) as [-> Hpos]. destruct (within p pos _) eqn:Hin; cbn [negb orb andb]; [|by apply wp_ret].
  rewrite Hpos by done. pose proof Hw as (Hf & Hl & _). unfold within, fits in *. apply wp_get, wp_bind, on_flash_wp.
  eapply wp_mono; [apply flash_erase_spec; try done; try lia; [by eapply covered_sub; [exact Hc|lia..]|unfold devices; lia]|].
  intros [r err] f (h' & -> & Hpost). apply wp_ret. eauto 10.
Qed.

(** Closing frees the entry, once. *)
Lemma region_close_ok h p s : flashiodev_table s !! h = Some p ->
  flashiodev_set_config h CYG_IO_SET_CONFIG_CLOSE s =
    Some (if p_valid p then (ENOERR, set_table (<[h := Priv (p_start p) (p_end p) false]> (flashiodev_table s)) s) else (- EBADF, s)).
Proof using. intros E. unfold flashiodev_set_config, get_priv, mbind, M_bind. rewrite E. cbn. by destruct (p_valid p). Qed.

(** The size and the address that a region reports are its own. *)
Lemma region_size_ok h p n s : region_ok s h p -> p_end p - p_start p + 1 < 2 ^ 32 -> infra_debug = false \/ n = 4 ->
  flashiodev_get_config single h CYG_IO_GET_CONFIG_FLASH_DEVSIZE (ADevSize 0) n s = Some ((ENOERR, ADevSize (p_end p - p_start p + 1)), s) /\
  flashiodev_get_config single h CYG_IO_GET_CONFIG_FLASH_DEVADDR (ADevAddr 0) n s = Some ((ENOERR, ADevAddr (p_start p)), s).
Proof using.
  intros [_ E Hr _] Hz Hn. assert (infra_debug && negb (n =? 4) = false) as Hg by (destruct Hn as [-> | ->]; [done|by rewrite andb_false_r]).
  unfold flashiodev_get_config, get_priv, mbind, M_bind. rewrite E. cbn. rewrite !andb_false_r, Hg. cbn.
  split; [|done]. by rewrite (uwrap_small 32 (p_end p - p_start p)), uwrap_small by lia.
Qed.
End Regions.

(** ** Two regions of the flash in memory

    Device 0 has the addresses 0x100 to 0x10f and device 1 those behind it. *)
Module RegionToy.
#[export] Instance plain : FlashIoOptions := {|
  from_fis := false; from_devoffset := true; infra_debug := false; block_locking := true; fis_base := fun _ => None; fis_size := fun _ => None |}.

(** Entry 0 is open on the bytes 4 to 11 of the flash. *)
Definition one_region : flashio := FlashIo [Priv 0x104 0x10b true; Priv 0 0 false] ram_sys.
Definition blank_region : flashio := FlashIo [Priv 0x104 0x113 true] (set_hw (fun _ => 0xff) ram_sys).

Lemma one_region_ok : region_ok false one_region 0 (Priv 0x104 0x10b true).
Proof. split; [apply ram_sys_ok|done|cbn; lia|apply ram_covered; cbn; lia]. Qed.

Lemma blank_region_ok : region_ok false blank_region 0 (Priv 0x104 0x113 true).
Proof. split; [apply (sys_ok_hw false _ _ ram_sys_ok); by intros a|done|cbn; lia|apply (ram_covered 0x104 0x10); lia]. Qed.
End RegionToy.

Module RegionWitnesses.
Import RegionToy.

(** [0/4,0x8] is a region, [0/8,9] is one byte too long, and there is no device 7. *)
Lemma region_open_ok_witness :
  path 0 Dec 4 Hex 8 = [48; 47; 52; 44; 48; 120; 56] /\
  wp (flashiodev_lookup false (path 0 Dec 4 Hex 8)) (fun r s' => match r with
    | inr h => (exists q, flashiodev_table one_region !! h = Some q /\ p_valid q = false) /\
        s' = set_table (<[h := Priv 0x104 0x10b true]> (flashiodev_table one_region)) one_region
    | inl err => err = - ENOMEM /\ s' = one_region /\ Forall (fun q => p_valid q = true) (flashiodev_table one_region)
    end) one_region /\
  wp (flashiodev_lookup false (path 0 Dec 8 Dec 9)) (fun r s' => r = inl (- EINVAL) /\ s' = one_region) one_region /\
  wp (flashiodev_lookup false (path 7 Dec 0 Dec 1)) (fun r s' => r = inl (- ENOENT) /\ s' = one_region) one_region.
Proof.
  assert (forall n, 0 <= n < 16 -> fits 32 n) as Hf by (unfold fits; lia). split; [by vm_compute|]. split; [|split].
  - eapply wp_mono.
    { exact (region_open_ok false 0 Dec 4 Hex 8 (inr (FlashInfo 0x100 0x10f ram_info)) one_region eq_refl ltac:(lia) (Hf 4 ltac:(lia)) (Hf 8 ltac:(lia)) eq_refl). }
    intros r s' [_ H]. exact H.
  - eapply wp_mono.
    { exact (region_open_ok false 0 Dec 8 Dec 9 (inr (FlashInfo 0x100 0x10f ram_info)) one_region eq_refl ltac:(lia) (Hf 8 ltac:(lia)) (Hf 9 ltac:(lia)) eq_refl). }
    intros r s' [_ H]. exact H.
  - exact (region_open_ok false 7 Dec 0 Dec 1 (inl CYG_FLASH_ERR_INVALID) one_region eq_refl ltac:(lia) (Hf 0 ltac:(lia)) (Hf 1 ltac:(lia)) eq_refl).
Defined.

(** Two bytes at the end of the region, and one byte further. *)
Lemma region_write_ok_witness :
  wp (flashiodev_bwrite false 0 [1; 2] 2 6) (fun r s' =>
    region_ok false s' 0 (Priv 0x104 0x10b true) /\ (r = ENOERR \/ r = - EIO /\ may_fail) /\
    (forall a, ~ 0x10a <= a < 0x10c -> cell (hw (flash s')) a = cell (hw (flash one_region)) a) /\
    (r = ENOERR -> forall k x, [1; 2] !! k = Some x ->
       cell (hw (flash s')) (0x10a + Z.of_nat k) = Z.land (cell (hw (flash one_region)) (0x10a + Z.of_nat k)) x)) one_region /\
  wp (flashiodev_bwrite false 0 [1; 2] 2 7) (fun r s' => r = - EINVAL /\ s' = one_region) one_region.
Proof.
  assert (Forall is_byte [1; 2]) as Hby by (repeat constructor; lia).
  split.
  - refine (region_write_ok false 0 (Priv 0x104 0x10b true) [1; 2] 6 one_region one_region_ok _ Hby _ _); [done| |].
    + split; [split; lia|]. cbn. lia.
    + intros i d _ _. apply Z.mod_1_r.
  - refine (region_write_ok false 0 (Priv 0x104 0x10b true) [1; 2] 7 one_region one_region_ok _ Hby _ _); [done| |].
    + split; [split; lia|]. cbn. lia.
    + intros i d _ _. apply Z.mod_1_r.
Defined.

(** Across the two devices. *)
Lemma region_roundtrip_witness :
  wp (r ← flashiodev_bwrite false 0 [1; 2; 3; 4] 4 10; r' ← flashiodev_bread false false 0 4 10; mret (r, r'))
    (fun r _ => r = (ENOERR, (ENOERR, [1; 2; 3; 4]))) blank_region.
Proof.
  refine (region_roundtrip false false 0 (Priv 0x104 0x113 true) [1; 2; 3; 4] 10 blank_region blank_region_ok _ _ _ _ _ _ _ _).
  - done.
  - repeat constructor; lia.
  - split; [split; lia|]. cbn. lia.
  - done.
  - intros H. exact H.
  - by left.
  - intros i d _ _. apply Z.mod_1_r.
  - done.
Defined.

(** ** Runs that go wrong *)

(** [0/0xfffffff0,8] is a region in front of the device: the start wraps around. *)
Lemma offset_below_device :
  fst <$> flashiodev_lookup false (path 0 Hex 0xfffffff0 Dec 8) one_region = Some (inr 1%nat) /\
  (s ← snd <$> flashiodev_lookup false (path 0 Hex 0xfffffff0 Dec 8) one_region; flashiodev_table s !! 1%nat) = Some (Priv 0xf0 0xf7 true).
Proof. by vm_compute. Qed.

(** [0/0x1000] is a region that begins behind the end of its device. *)
Lemma offset_past_device :
  fst <$> flashiodev_lookup false (48 :: 47 :: hexadecimal 0x1000 []) one_region = Some (inr 1%nat) /\
  (s ← snd <$> flashiodev_lookup false (48 :: 47 :: hexadecimal 0x1000 []) one_region; flashiodev_table s !! 1%nat) = Some (Priv 0x1100 0x10f true).
Proof. by vm_compute. Qed.

(** An erase whose length wraps around passes the test of the range, and erases the second
    device, which is not part of the region. *)
Lemma erase_length_wraps :
  match flashiodev_get_config false 0 CYG_IO_GET_CONFIG_FLASH_ERASE (AErase 12 0xfffffff4 0 0) 16 one_region with
  | Some ((res, _), s) => Some (res, cell (hw (flash s)) 0x110, cell (hw (flash s)) 0x11f)
  | None => None
  end = Some (ENOERR, 0xff, 0xff).
Proof. vm_compute. reflexivity. Qed.

(** A handle that was closed still writes, and once its entry is used again it writes to
    the region of another user. *)
Lemma closed_handle_writes :
  match (_ ← flashiodev_set_config 0 CYG_IO_SET_CONFIG_CLOSE; h ← flashiodev_lookup false (path 1 Dec 0 Dec 8);
         r ← flashiodev_bwrite false 0 [0] 1 0; mret (h, r)) one_region with
  | Some ((h, r), s) => Some (h, r, cell (hw (flash s)) 0x104, cell (hw (flash s)) 0x110)
  | None => None
  end = Some (inr 0%nat, ENOERR, 4, 0).
Proof. vm_compute. reflexivity. Qed.
End RegionWitnesses.

(** * Devices with a fixed region *)
Module LegacySpec.
Import FlashIo.Legacy.
Section Lookup.
Context `{D : FlashDriver} `{O : FlashIoOptions}.
Variable single : bool.

(** A device by offset: the region begins at the offset on device 0 and has the length
    that was configured; a second lookup changes nothing. *)
Lemma lookup_by_offset start len name info size s :
  l_priv s = Legacy start len false false true name 0 false ->
  cyg_flash_get_info single 0 (l_flash s) = Some (inr info, l_flash s) ->
  cyg_flash_get_info_addr single (u32 (start + i_start info)) (l_flash s) = Some (inr size, l_flash s) ->
  let region := u32 (start + i_start info) in
  wp (flashiodev_lookup single) (fun r s' => r = ENOERR /\ l_flash s' = l_flash s /\
    l_priv s' = Legacy region (u32 (region + len)) false false true name (largest (i_block_info size)) true /\
    flashiodev_lookup single s' = Some (ENOERR, s')) s.
Proof using.
  intros E Hi Ha region. destruct s as [p f]. cbn in E, Hi, Ha. subst p.
  unfold flashiodev_lookup, take_region, on_package, wp, mbind, M_bind. cbn. rewrite Hi. cbn. rewrite Ha. cbn. eexists _, _. split; [done|]. done.
Qed.
End Lookup.
End LegacySpec.

(** ** Runs that go wrong *)
Module LegacyRuns.
Import FlashIo.Legacy.
#[local] Instance checked : FlashIoOptions := {|
  from_fis := false; from_devoffset := false; infra_debug := true; block_locking := false; fis_base := fun _ => None; fis_size := fun _ => None |}.

(** 8 bytes from offset 0 of device 0. *)
Definition eight : legacy := LegacyDev (Legacy 0 8 false false true [] 0 false) ram_sys.

(** The end of a region is the address behind it, and the test takes it for the last one:
    a write may reach one byte further. *)
Lemma write_past_region :
  match (_ ← flashiodev_lookup false; flashiodev_bwrite false [0] 1 8) eight with
  | Some (r, s) => Some (r, l_end (l_priv s), cell (hw (l_flash s)) 0x108)
  | None => None
  end = Some (ENOERR, 0x108, 0).
Proof. vm_compute. reflexivity. Qed.

(** A lookup that fails answers with a positive error code, and leaves the region moved:
    the offset is added again by the next one. *)
Lemma failed_lookup_moves_region :
  match (r ← flashiodev_lookup false; r' ← flashiodev_lookup false; mret (r, r')) (LegacyDev (Legacy 0x20 8 false false true [] 0 false) ram_sys) with
  | Some (r, s) => Some (r, l_start (l_priv s))
  | None => None
  end = Some ((ENODEV, ENODEV), 0x220).
Proof. vm_compute. reflexivity. Qed.
End LegacyRuns.
